(* ===== verification/_CoqProject ===== *)
-Q . S2P
Prelude.v
Float64.v
Stream.v
Text.v
Errors.v
ObjectTypes.v
DeltaUtils.v
DeltaFormat.v
DeltaDecode.v
RabinTables.v
ExtendMatch.v
RabinIndex.v
RabinDelta.v
DeltaRates.v
DeltaEncode.v
PackUtils.v
ObjectUtils.v
Hash.v
Inflate.v
ChannelReader.v
PackIndex.v
PackDecode.v
TeeReader.v
Caches.v
SpillFiles.v
MemRecorder.v
Zstdelta.v
Pipeline.v
PipelineProofs.v
DecodeStream.v
BackPressure.v
EntrySort.v
Wrapper.v
BTree.v
StagingIndex.v
StagingProofs.v
StagingSpec.v
DeltaSearch.v
SimilaritySearch.v
PackEncode.v
PackRoundtrip.v
PackStats.v
PackOutput.v
FileDecode.v
TempDirs.v
DecodeApi.v
ThreadKind.v
Tree.v
Signature.v
Commit.v
Tag.v
Objects.v
Integrity.v
AiSnapshots.v
AiEvents.v
AiHistory.v
PktLine.v
ProtocolTypes.v
Repository.v
PackGenerator.v
PackReach.v
Smart.v
SmartProofs.v
SmartSpec.v
GitProtocol.v
CloneRoundtrip.v
Diff.v
DiffProofs.v
DiffSpec.v
