(* ===== verification/Prelude.v ===== *)
(** * Verification of git-internal, a Rust library for Git's object model and packs

    This library models the parts of the crate that read and write Git data, and proves
    what makes them correct.  Paths below are relative to the crate's [src/] directory.

    ** The program

    Objects (blobs, trees, commits, tags, notes) have a body, a sequence of bytes, and an
    identifier, the digest of the body with a header.  Packs store many objects
    in one file: each entry has a header, for deltas a reference to a base, and a compressed
    payload; deltas are instruction streams that copy from the base or insert literals.  An
    index file locates the entries of a pack.  The parts interact as follows: the object
    modules serialize and parse bodies and compute identifiers with [hash.rs]; the loader
    reads bodies through the inflating and hashing reader; the encoder orders the entries,
    searches delta bases in a window, builds deltas (by Rabin fingerprints or by an edit
    script) and writes pack entries; the decoder reads entries, inflates payloads, hands
    objects and deltas to a pool of threads with a cache and a wait list, and compares names
    and CRCs with the index.  The smart protocol advertises references, negotiates, collects
    the objects a peer lacks and streams them as a pack, and unpacks a received one.  Beside
    these stand the staging index, the text diffs, the pack statistics and the integrity
    hashes of AI objects.

    ** Files

    Shared:
    - [Prelude]: outcomes of fallible code ([Res]: value, error, panic, out of fuel), their
      bind notation and the predicates [returns] and [sound], machine integers, lists as
      byte buffers, the tactics and the hint database [git].
    - [Stream], [Text]: in-memory readers, decimal, hexadecimal and UTF-8 text.
    - [Wrapper]: [internal/pack/wrapper.rs] and the readers of [utils.rs], over a source that
      may cut, interrupt or fail; the reader monad [R] and its two program logics.
    - [BTree]: the standard library's ordered map, as the list of its pairs.
    - [Errors]: [errors.rs].  [ObjectTypes]: [internal/object/types.rs].

    Deltas:
    - [DeltaUtils], [DeltaFormat], [DeltaDecode]: [delta/utils.rs], [delta/errors.rs],
      [delta/decode/mod.rs].  [DeltaFormat] is the abstract specification: instructions, what
      they denote, and their encoding.
    - [RabinTables], [ExtendMatch], [RabinIndex], [RabinDelta]: [delta/encode/rabin/]:
      the fingerprint tables, the word-wise match extension, the index of a source, the
      generator as a state machine ([gen_init], [gen_step]) and the public entry points.
    - [DeltaEncode]: [delta/encode/mod.rs] and [delta/mod.rs], the edit-script encoder.
    - [Float64], [DeltaRates]: the similarity estimates of both encoders, in doubles that round
      as the hardware does.

    Packs, in [internal/pack/] unless another path is given:
    - [PackUtils]: [utils.rs] and [encode/header.rs].  [ObjectUtils]: the size helpers of
      [internal/object/utils.rs].
    - [Hash]: [hash.rs] and the [HashAlgorithm] of [utils.rs].
    - [Inflate]: [internal/zlib/stream/inflate.rs].  [ChannelReader]: [channel_reader.rs].
    - [PackIndex]: [pack_index.rs], [index_entry.rs], [entry.rs] and the metadata records.
    - [PackDecode]: the entry decoder of [decode.rs] with the records of [cache_object.rs]:
      header, payloads, deltas, dependency scan, trailer.  [TeeReader]: its copying reader, whose
      writes may fail.
    - [Caches]: [cache.rs], the offsets, the LRU and the spill directory.  [SpillFiles],
      [MemRecorder]: the rest of [cache_object.rs], the threads that write spill files and the
      memory counter.
    - [Zstdelta]: [zstdelta/mod.rs].
    - [Pipeline], [PipelineProofs], [DecodeStream]: [decode_inner] with [waitlist.rs] as
      threads that interleave at their accesses to the shared state, the invariant over all
      schedules, and the theorems from the first byte of a stream to its result.  [BackPressure]:
      the waiting loop on the memory limit and the queue, and the memory of the cache.
    - [FileDecode]: how a [Pack] is set up, the scan guided by an index, and the choice of
      the source in [decode] and [decode_file].  [DecodeApi]: the public entry points,
      [decode_async] and [decode_stream] with their channels.  [TempDirs]: the temporary directory
      of a pack and the directory helpers.  [ThreadKind]: the hash kind of a thread, its guards, and
      the constructors that read it.  [PackStats]: [stats.rs].
    - [EntrySort], [DeltaSearch], [PackEncode]: [encode/sort.rs], [encode/delta_search.rs],
      [encode/mod.rs] and [encode/parallel.rs].  [SimilaritySearch]: the window search of a build
      without the feature [diff_rabin].
    - [PackOutput]: [encode/output.rs], the tasks that write a pack and its index to files.
    - [PackRoundtrip]: the encoder and the decoder composed.

    Objects:
    - [Signature], [Tree], [Commit], [Tag]: the modules of the same names in
      [internal/object/].
    - [Objects]: [trait ObjectTrait] with [blob.rs] and [note.rs]; the class [ObjectLaws]
      says what each object kind promises to the loader, and each kind discharges it.
    - [Integrity]: [internal/object/integrity.rs].
    - [AiSnapshots], [AiEvents], [AiHistory]: the records of AI objects in [internal/object/],
      and the history of their revisions.

    Protocol, in [protocol/]:
    - [PktLine], [ProtocolTypes], [Repository]: [utils.rs], [types.rs] and the traits of
      [core.rs].  A handler is a tree of calls to a repository that may answer anything.
    - [PackGenerator], [PackReach]: [pack.rs], and reachability as its specification.
    - [Smart], [SmartProofs], [SmartSpec]: [smart.rs]; the guards of the handlers against
      every repository, and whole conversations with a steady one.
    - [GitProtocol]: the rest of [core.rs], [http.rs] and [ssh.rs].
    - [CloneRoundtrip]: from the generator of one side to the objects of the other.

    Working tree:
    - [StagingIndex], [StagingProofs], [StagingSpec]: [internal/index.rs]; the specification
      is a finite map from names and stages to entries.
    - [Diff], [DiffProofs], [DiffSpec]: [diff.rs]; the reference is the patch applier of the
      file's own tests.

    ** What the theorems show

    - Deltas: the decoder accepts exactly the streams of the format and returns on every
      input; what the Rabin encoder writes decodes to the new object, with the invariant of
      its state machine; the edit-script encoder does so below 16 MiB and not above; the
      rolling hash, the match extension and the index are equivalent to their references, and the
      screening of candidate bases by similarity is exact.
    - Packs: what the encoder sends decodes to the objects it was given, under every schedule
      of the decoder's threads; both window searches keep their bounds; the index the encoder
      writes agrees with the pack; index files read back as written and their reader fails
      closed; the cache keeps what was stored, its spill files are whole whichever writes fail,
      and the memory counter is exact; a decode ends under every schedule with a
      result that does not depend on it, also with a memory limit when the waiting deltas fit
      (and it may wait for ever when they do not); a pack that comes as a stream of chunks is
      delivered through the channels; a copied stream is copied and hashed whole or reported;
      the temporary directory goes without a trace; the scan that follows an index counts as the
      sequential one does; the statistics of a written pack are those of its entries, and an
      accepted pack and index have the properties that are reported; encoding to files leaves
      a pair that reads back, and never a partial pack under a final name.
    - Objects: bodies parse back to the objects, the parsers return on every input and accept
      only references of the object's own hash kind, constructors compute the identifier of
      the object's own body, and loading through the inflating reader gives the object back
      whatever pieces the input arrives in.  The integrity hash does not depend on the order
      of JSON keys.  Revisions of intents and plans form an acyclic graph.
    - Protocol: packet lines and side bands read back; the traversals collect exactly the
      reachable objects; every effect of a handler is guarded by checks of the object format;
      a push stores and reports what was sent, a fetch asks for what the haves leave out, an
      advertisement lists the references; and a streamed pack unpacks to its objects.
    - Staging index: files read back as written, a rewrite is stable, the reader terminates on
      every file, the operations are those of a finite map, and refresh updates an entry
      exactly when the working tree differs.
    - Diffs: a unified diff applies to the old text and gives the new one, line operations
      rebuild the new text, and the files compared are those that differ.
    - Defects: inputs on which the code panics, loses data or writes a stream that its own
      decoder rejects are stated as theorems of their own.

    ** Integers, fuel and bounds

    Integers are [Z] with the width written out where the code can overflow; the target is
    64-bit.  Where the behaviour depends on overflow checks, the class [Build] says whether
    the crate is compiled with them and the theorems hold for both.  Loops that are not
    structural take fuel computed from their input (the bytes left, the groups of a
    64-bit integer, the packet lines that fit a request); the theorems show that it is
    enough.  Three kinds of fuel are explicit: that of [read_to_end], whose rounds depend on
    the decompressor, that of readers over a source that may be interrupted any number of
    times, and that of the traversals of a repository; the theorems name a bound (the length
    of the data, the events of the source, the objects of the store) and hold for every fuel
    above it.

    ** Parameters

    Third-party code is a parameter with the behaviour it documents, and each such set of
    laws has a concrete instance used by the witnesses:
    - digests ([Hasher], [HasherLaws]), the hex crate ([HexCrate], [HexLaws]), memchr
      ([ByteSearch], [ByteSearchLaws]), bstr ([BstrCrate], [BstrLaws]), crc32fast ([Crc32]),
      ahash ([AHash]), lossy text and error texts ([TextEnv], [LossyLaw]);
    - zlib ([Decompress], [DecompressLaws], [ZlibDecoder], [ZlibLaws], [ZlibConsumes], and the
      compressor), the allocator ([Allocator], [AllocatorServes]);
    - lru_mem ([LruLaws]), the sort of the standard library ([SliceSort], [SliceSortLaws]),
      the diff algorithms (an edit script, [TextDiff], [TextDiffLaws]), paths ([PathEnv],
      [PathEnvLaws]), serde_json's map ([JsonMap], [JsonMapLaws]) and the JSON text of a record
      ([Serde]), rkyv ([Rkyv]), the zstd library ([Zstd], [ZstdLaws]);
    - the repository behind the protocol, the working tree, the file system and the open
      descriptors, which are seen through their answers; the encoder the generator drives is
      the interface [PackWriter], which [PackEncode] discharges.

    The capacities of hash tables and the memory that the cache and the workers hold are
    arguments of the waiting loop.
    The thread-local hash kind, the clock and the local time zone are arguments.  Threads are
    step relations whose choice of the next step is arbitrary.

    ** Not modelled

    Coloured [Display] texts, serde and rkyv derives, log output, timing and profiling counters
    ([DeltaStats], [time_it!]), which compute nothing the rest depends on; the number and order of
    the threads in a pool, of which every choice is covered; the sockets under the transports; and
    the example servers in [examples/], which only wire the protocol to a web framework and an SSH
    library.  The tests are the reference for the patch applier only. *)

From Stdlib Require Import ZArith Lia String Ascii.
From stdpp Require Import base tactics list numbers option.
#[local] Set Warnings "-notation-overridden".
#[global] Open Scope Z_scope.

(** * Outcomes of fallible code

    [Ok] and [Err] are Rust's [Result]; [Panic] is a Rust panic (failed
    [assert!], out-of-range index, [unwrap] of a failure, arithmetic overflow in
    a build with overflow checks); [OutOfFuel] is the model's own outcome for a
    loop cut off by its fuel, which the theorems show never happens. *)

Inductive Res (E A : Type) : Type :=
| Ok (a : A)
| Err (e : E)
| Panic
| OutOfFuel.
Arguments Ok {E A} a.
Arguments Err {E A} e.
Arguments Panic {E A}.
Arguments OutOfFuel {E A}.

Definition rbind {E A B} (m : Res E A) (k : A -> Res E B) : Res E B :=
  match m with
  | Ok a => k a
  | Err e => Err e
  | Panic => Panic
  | OutOfFuel => OutOfFuel
  end.

(** [Result::map_err]. *)
Definition map_err {E F A} (f : E -> F) (m : Res E A) : Res F A :=
  match m with
  | Ok a => Ok a
  | Err e => Err (f e)
  | Panic => Panic
  | OutOfFuel => OutOfFuel
  end.

(** [Option::ok_or], and [Option::unwrap] / slice indexing. *)
Definition ok_or {E A} (o : option A) (e : E) : Res E A :=
  match o with Some a => Ok a | None => Err e end.

Definition or_panic {E A} (o : option A) : Res E A :=
  match o with Some a => Ok a | None => Panic end.

(** [Result::unwrap]: an error becomes a panic. *)
Definition unwrap {E F A} (m : Res E A) : Res F A :=
  match m with
  | Ok a => Ok a
  | Err _ => Panic
  | Panic => Panic
  | OutOfFuel => OutOfFuel
  end.

Declare Scope res_scope.
Delimit Scope res_scope with res.
Notation "'let!' x ':=' m 'in' k" := (rbind m (fun x => k))
  (at level 10, x binder, m at level 100, k at level 200) : res_scope.
#[global] Open Scope res_scope.

(** A computation that neither panics nor runs out of fuel. *)
Definition returns {E A} (m : Res E A) : Prop :=
  match m with Ok _ | Err _ => True | Panic | OutOfFuel => False end.

Lemma returns_bind {E A B} (m : Res E A) (k : A -> Res E B) :
  returns m -> (forall a, m = Ok a -> returns (k a)) -> returns (rbind m k).
Proof. destruct m; simpl; auto. Qed.

Lemma returns_map_err {E F A} (f : E -> F) (m : Res E A) :
  returns m -> returns (map_err f m).
Proof. destruct m; simpl; auto. Qed.

Lemma returns_ok_or {E A} (o : option A) (e : E) : returns (ok_or o e).
Proof. destruct o; exact I. Qed.

Lemma bind_Ok_inv {E A B} (m : Res E A) (k : A -> Res E B) b :
  rbind m k = Ok b -> exists a, m = Ok a /\ k a = Ok b.
Proof. destruct m; simpl; intros H; try discriminate; eauto. Qed.

Lemma map_err_Ok_inv {E F A} (f : E -> F) (m : Res E A) a :
  map_err f m = Ok a -> m = Ok a.
Proof. destruct m; simpl; congruence. Qed.

Lemma ok_or_Ok_inv {E A} (o : option A) (e : E) a : ok_or o e = Ok a -> o = Some a.
Proof. destruct o; simpl; congruence. Qed.

(** [m] neither panics nor runs out of fuel, and a value it returns satisfies [Q]. *)
Definition sound {E A} (m : Res E A) (Q : A -> Prop) : Prop :=
  match m with Ok a => Q a | Err _ => True | Panic | OutOfFuel => False end.

Lemma sound_bind {E A B} (m : Res E A) (k : A -> Res E B) (Q : A -> Prop) (R : B -> Prop) :
  sound m Q -> (forall a, Q a -> sound (k a) R) -> sound (rbind m k) R.
Proof. destruct m; simpl; auto. Qed.

Lemma sound_map_err {E F A} (f : E -> F) (m : Res E A) (Q : A -> Prop) : sound m Q -> sound (map_err f m) Q.
Proof. destruct m; auto. Qed.

Lemma sound_mono {E A} (m : Res E A) (Q R : A -> Prop) : sound m Q -> (forall a, Q a -> R a) -> sound m R.
Proof. destruct m; simpl; auto. Qed.

Create HintDb git discriminated.
#[export] Hint Resolve returns_ok_or returns_map_err : git.
#[export] Hint Extern 1 (returns (Ok _)) => exact I : git.
#[export] Hint Extern 1 (returns (Err _)) => exact I : git.

(** Inverts every [rbind ... = Ok _] hypothesis into its successful steps. *)
Ltac ok_inv :=
  repeat match goal with
  | H : rbind _ _ = Ok _ |- _ =>
      let a := fresh "a" in let E := fresh "E" in
      apply bind_Ok_inv in H; destruct H as (a & E & H); cbv beta in H
  | H : map_err _ _ = Ok _ |- _ => apply map_err_Ok_inv in H
  | H : ok_or _ _ = Ok _ |- _ => apply ok_or_Ok_inv in H
  | H : Ok _ = Ok _ |- _ => injection H as H; subst
  | H : Err _ = Ok _ |- _ => discriminate H
  | H : Panic = Ok _ |- _ => discriminate H
  | H : (let '(_, _) := ?p in _) = Ok _ |- _ => destruct p
  end.

(** * Machine integers (64-bit target: [usize] is [u64]) *)

Definition usize_bits : Z := 64.
Definition usize_max : Z := 2 ^ 64 - 1.
Definition isize_max : Z := 2 ^ 63 - 1.
Definition u32_max : Z := 2 ^ 32 - 1.

Definition as_u8 (z : Z) : Z := z mod 2 ^ 8.
Definition as_u16 (z : Z) : Z := z mod 2 ^ 16.
Definition as_u32 (z : Z) : Z := z mod 2 ^ 32.
Definition as_u64 (z : Z) : Z := z mod 2 ^ 64.

(** [usize::checked_add]. *)
Definition checked_add (a b : Z) : option Z :=
  if a + b <=? usize_max then Some (a + b) else None.

Definition is_byte (b : Z) : Prop := 0 <= b < 256.

Abbreviation bytes := (list Z).
Abbreviation byte_list bs := (Forall is_byte bs).

(** * Bit-level facts *)

Lemma land_low (x k : Z) : 0 <= k -> Z.land x (2 ^ k - 1) = x mod 2 ^ k.
Proof.
  intros Hk. rewrite <- Z.land_ones by lia. f_equal. rewrite Z.ones_equiv. lia.
Qed.

Lemma land_127 x : Z.land x 127 = x mod 128.
Proof. apply (land_low x 7); lia. Qed.

Lemma land_255 x : Z.land x 255 = x mod 256.
Proof. apply (land_low x 8); lia. Qed.

Lemma land_15 x : Z.land x 15 = x mod 16.
Proof. apply (land_low x 4); lia. Qed.

(** A disjoint [xor], or [or], is an addition. *)
Lemma lxor_shiftl_add (a b k : Z) :
  0 <= k -> 0 <= a < 2 ^ k -> Z.lxor a (Z.shiftl b k) = a + b * 2 ^ k.
Proof.
  intros Hk Ha. rewrite <- Z.shiftl_mul_pow2 by lia. symmetry. apply Z.add_nocarry_lxor.
  apply Z.bits_inj'; intros n Hn; rewrite Z.land_spec, Z.bits_0.
  destruct (Z_lt_dec n k) as [Hlt|Hge].
  - rewrite Z.shiftl_spec_low by lia; apply andb_false_r.
  - rewrite <- (Z.mod_small a (2 ^ k)) by lia. by rewrite Z.mod_pow2_bits_high by lia.
Qed.

Lemma lor_shiftl_add (a b k : Z) :
  0 <= k -> 0 <= a < 2 ^ k -> Z.lor a (Z.shiftl b k) = a + b * 2 ^ k.
Proof.
  intros Hk Ha. rewrite <- lxor_shiftl_add by done. symmetry. apply Z.lxor_lor.
  apply Z.bits_inj'; intros n Hn; rewrite Z.land_spec, Z.bits_0.
  destruct (Z_lt_dec n k) as [Hlt|Hge].
  - rewrite Z.shiftl_spec_low by lia; apply andb_false_r.
  - rewrite <- (Z.mod_small a (2 ^ k)) by lia. by rewrite Z.mod_pow2_bits_high by lia.
Qed.

Lemma lt_pow2_mod a k : 0 <= k -> (0 <= a < 2 ^ k <-> a mod 2 ^ k = a).
Proof.
  intros Hk. split; [apply Z.mod_small|]. intros <-. apply Z.mod_pos_bound. lia.
Qed.

Lemma lor_bound a b k : 0 <= k -> 0 <= a < 2 ^ k -> 0 <= b < 2 ^ k -> 0 <= Z.lor a b < 2 ^ k.
Proof.
  intros Hk Ha Hb. apply lt_pow2_mod; [done|]. apply lt_pow2_mod in Ha, Hb; try done.
  rewrite <- Z.land_ones in * by done. by rewrite Z.land_lor_distr_l, Ha, Hb.
Qed.

Lemma lxor_bound a b k : 0 <= k -> 0 <= a < 2 ^ k -> 0 <= b < 2 ^ k -> 0 <= Z.lxor a b < 2 ^ k.
Proof.
  intros Hk Ha Hb. apply lt_pow2_mod; [done|]. apply lt_pow2_mod in Ha, Hb; try done.
  rewrite <- Z.land_ones in * by done. rewrite <- Ha at 2. rewrite <- Hb at 2.
  apply Z.bits_inj'. intros n Hn. rewrite !Z.lxor_spec, !Z.land_spec, Z.lxor_spec.
  by destruct (Z.testbit a n), (Z.testbit b n), (Z.testbit (Z.ones k) n).
Qed.

(** Exclusive or acts digit by digit in base [2 ^ k]. *)
Lemma lxor_digits a b c d k :
  0 <= k -> 0 <= a < 2 ^ k -> 0 <= c < 2 ^ k ->
  Z.lxor (a + b * 2 ^ k) (c + d * 2 ^ k) = Z.lxor a c + Z.lxor b d * 2 ^ k.
Proof.
  intros Hk Ha Hc. rewrite <- !lxor_shiftl_add by (auto using lxor_bound).
  rewrite Z.shiftl_lxor. apply Z.bits_inj'. intros n Hn. rewrite !Z.lxor_spec.
  by destruct (Z.testbit a n), (Z.testbit c n), (Z.testbit (Z.shiftl b k) n),
    (Z.testbit (Z.shiftl d k) n).
Qed.

Lemma lor_128 x : 0 <= x < 128 -> Z.lor x 128 = x + 128.
Proof. intros. apply (lor_shiftl_add x 1 7); lia. Qed.

(** Bit 7 of a byte, as the code tests it. *)
Lemma land_128_byte b :
  is_byte b -> Z.land b 128 = if b <? 128 then 0 else 128.
Proof.
  unfold is_byte. intros Hb.
  assert (Hall : forallb (fun n => Z.land (Z.of_nat n) 128 =? if Z.of_nat n <? 128 then 0 else 128)
    (seq 0 256) = true) by (vm_compute; reflexivity).
  rewrite forallb_forall in Hall. specialize (Hall (Z.to_nat b)).
  rewrite Z2Nat.id in Hall by lia. apply Z.eqb_eq, Hall. apply in_seq. lia.
Qed.

Lemma mod_byte x : is_byte (x mod 256).
Proof. unfold is_byte. apply Z.mod_pos_bound. lia. Qed.
#[export] Hint Resolve mod_byte : git.

(** * Byte slices indexed by machine integers *)

Definition blen {A} (l : list A) : Z := Z.of_nat (length l).

(** [&l[a..b]] of a range already known to be in bounds. *)
Definition slice {A} (l : list A) (a b : Z) : list A :=
  take (Z.to_nat (b - a)) (drop (Z.to_nat a) l).

(** [l.get(a..b)]; [or_panic] of it is the indexing expression [&l[a..b]]. *)
Definition get_range {A} (l : list A) (a b : Z) : option (list A) :=
  if (0 <=? a) && (a <=? b) && (b <=? blen l) then Some (slice l a b) else None.

(** [l.get(i)]; [or_panic] of it is [l[i]]. *)
Definition get {A} (l : list A) (i : Z) : option A :=
  if 0 <=? i then l !! Z.to_nat i else None.

(** [l[i] = x], a panic when [i] is out of range. *)
Definition set_index {A} (l : list A) (i : Z) (x : A) : option (list A) :=
  if (0 <=? i) && (i <? blen l) then Some (<[Z.to_nat i := x]> l) else None.

(** [l.last_mut()]: the last element and what precedes it. *)
Definition split_last {A} (l : list A) : option (list A * A) :=
  match reverse l with
  | [] => None
  | x :: r => Some (reverse r, x)
  end.

Lemma split_last_Some {A} (l front : list A) (x : A) :
  split_last l = Some (front, x) <-> l = front ++ [x].
Proof.
  unfold split_last. split.
  - destruct (reverse l) as [|y r] eqn:E; [discriminate|]. intros [= <- <-].
    rewrite <- (reverse_involutive l), E. by rewrite reverse_cons.
  - intros ->. rewrite reverse_snoc. cbv beta iota. by rewrite reverse_involutive.
Qed.

Lemma split_last_None {A} (l : list A) : split_last l = None <-> l = [].
Proof.
  unfold split_last. split; [|by intros ->].
  destruct (reverse l) as [|y r] eqn:E; [|discriminate]. intros _.
  by rewrite <- (reverse_involutive l), E.
Qed.

Section slices.
Context {A : Type}.
Implicit Types l m : list A.

Lemma blen_nonneg l : 0 <= blen l.
Proof. unfold blen. lia. Qed.

Lemma blen_nil : blen (@nil A) = 0.
Proof. reflexivity. Qed.

Lemma blen_cons x l : blen (x :: l) = 1 + blen l.
Proof. unfold blen. simpl length. lia. Qed.

Lemma blen_app l m : blen (l ++ m) = blen l + blen m.
Proof. unfold blen. rewrite length_app. lia. Qed.

Lemma blen_slice l a b : 0 <= a <= b -> b <= blen l -> blen (slice l a b) = b - a.
Proof. unfold blen, slice. intros. rewrite length_take, length_drop. lia. Qed.

Lemma slice_full l : slice l 0 (blen l) = l.
Proof. unfold slice, blen. rewrite drop_0. apply take_ge. lia. Qed.

Lemma slice_tail l a : 0 <= a -> slice l a (blen l) = drop (Z.to_nat a) l.
Proof. unfold slice, blen. intros. apply take_ge. rewrite length_drop. lia. Qed.

Lemma drop_blen_ge l a : blen l <= a -> drop (Z.to_nat a) l = [].
Proof. unfold blen. intros. apply drop_ge. lia. Qed.

Lemma blen_drop l a : 0 <= a <= blen l -> blen (drop (Z.to_nat a) l) = blen l - a.
Proof. unfold blen. intros. rewrite length_drop. lia. Qed.

Lemma slice_empty l a b : b <= a -> slice l a b = [].
Proof. unfold slice. intros. replace (Z.to_nat (b - a)) with 0%nat by lia. apply take_0. Qed.

Lemma slice_split l a b c :
  0 <= a <= b -> b <= c -> slice l a c = slice l a b ++ slice l b c.
Proof.
  unfold slice. intros.
  replace (Z.to_nat (c - a)) with (Z.to_nat (b - a) + Z.to_nat (c - b))%nat by lia.
  rewrite <- take_take_drop, drop_drop.
  replace (Z.to_nat a + Z.to_nat (b - a))%nat with (Z.to_nat b) by lia. reflexivity.
Qed.

Lemma slice_snoc l a b x :
  0 <= a <= b -> get l b = Some x -> slice l a (b + 1) = slice l a b ++ [x].
Proof.
  intros Hab Hx. rewrite (slice_split l a b (b + 1)) by lia. f_equal.
  unfold get in Hx. destruct (0 <=? b) eqn:Eb; [|lia].
  unfold slice. replace (Z.to_nat (b + 1 - b)) with 1%nat by lia.
  apply drop_S in Hx. rewrite Hx. reflexivity.
Qed.

Lemma slice_cons l a b x :
  0 <= a < b -> get l a = Some x -> slice l a b = x :: slice l (a + 1) b.
Proof.
  intros Hab Hx. rewrite (slice_split l a (a + 1) b) by lia.
  rewrite (slice_snoc l a a x) by (lia || done). by rewrite slice_empty by lia.
Qed.

Lemma slice_drop l r a b : 0 <= r -> 0 <= a -> slice (drop (Z.to_nat r) l) a b = slice l (r + a) (r + b).
Proof.
  intros Hr Ha. unfold slice. rewrite drop_drop.
  replace (Z.to_nat r + Z.to_nat a)%nat with (Z.to_nat (r + a)) by lia.
  f_equal. lia.
Qed.

Lemma slice_take_eq l m a b n :
  0 <= n -> 0 <= a -> 0 <= b -> slice l a (a + n) = slice m b (b + n) ->
  forall k, 0 <= k <= n -> slice l a (a + k) = slice m b (b + k)
    /\ slice l (a + k) (a + n) = slice m (b + k) (b + n).
Proof.
  intros Hn Ha Hb Heq k Hk.
  assert (H1 : forall (x : list A) c, 0 <= c ->
    slice x c (c + k) = take (Z.to_nat k) (slice x c (c + n))
    /\ slice x (c + k) (c + n) = drop (Z.to_nat k) (slice x c (c + n))).
  { intros x c Hc. unfold slice. split.
    - rewrite take_take. f_equal. lia.
    - rewrite skipn_firstn_comm, drop_drop.
      f_equal; [lia|]. f_equal. lia. }
  destruct (H1 l a Ha) as [-> ->]. destruct (H1 m b Hb) as [-> ->]. by rewrite Heq.
Qed.

Lemma get_range_Some l a b s :
  get_range l a b = Some s <-> (0 <= a <= b /\ b <= blen l) /\ s = slice l a b.
Proof.
  unfold get_range. split.
  - intros H. destruct (_ && _) eqn:E; [|discriminate].
    injection H as <-. split; [lia|reflexivity].
  - intros [Hb ->]. replace (_ && _) with true by lia. reflexivity.
Qed.

Lemma get_range_tail l a :
  0 <= a -> get_range l a (blen l) = if a <=? blen l then Some (drop (Z.to_nat a) l) else None.
Proof.
  intros Ha. unfold get_range. rewrite slice_tail by done.
  replace (0 <=? a) with true by lia. rewrite Z.leb_refl, andb_true_r. reflexivity.
Qed.

Lemma get_Some_lt l i x : get l i = Some x -> 0 <= i < blen l.
Proof.
  unfold get, blen. destruct (0 <=? i) eqn:E; [|discriminate].
  intros H. apply lookup_lt_Some in H. lia.
Qed.

Lemma get_lt_Some l i : 0 <= i < blen l -> exists x, get l i = Some x.
Proof.
  unfold get, blen. intros H. destruct (0 <=? i) eqn:E; [|lia].
  apply lookup_lt_is_Some. lia.
Qed.

Lemma get_cons_0 x l : get (x :: l) 0 = Some x.
Proof. reflexivity. Qed.

Lemma get_cons_S x l i : 0 < i -> get (x :: l) i = get l (i - 1).
Proof.
  intros Hi. unfold get. replace (0 <=? i) with true by lia. replace (0 <=? i - 1) with true by lia.
  replace (Z.to_nat i) with (S (Z.to_nat (i - 1))) by lia. reflexivity.
Qed.

Lemma get_app_l l m i : i < blen l -> get (l ++ m) i = get l i.
Proof.
  unfold get, blen. intros. destruct (0 <=? i) eqn:E; [|reflexivity].
  apply lookup_app_l. lia.
Qed.

Lemma get_app_r l m i : blen l <= i -> get (l ++ m) i = get m (i - blen l).
Proof.
  unfold get, blen. intros.
  replace (0 <=? i) with true by lia. replace (0 <=? _) with true by lia.
  rewrite lookup_app_r by lia. f_equal. lia.
Qed.

(** Overwriting the element that follows a known prefix. *)
Lemma set_index_app l m x y :
  set_index (l ++ x :: m) (blen l) y = Some (l ++ y :: m).
Proof.
  unfold set_index. rewrite blen_app, blen_cons.
  pose proof (blen_nonneg l). pose proof (blen_nonneg m).
  replace (_ && _) with true by lia.
  unfold blen. rewrite Nat2Z.id, insert_app_r_alt, Nat.sub_diag by lia. reflexivity.
Qed.

Lemma set_index_get l i x y :
  get l i = Some x -> exists l', set_index l i y = Some l' /\ get l' i = Some y
    /\ blen l' = blen l /\ exists p q, l = p ++ x :: q /\ l' = p ++ y :: q.
Proof.
  intros Hx. pose proof (get_Some_lt _ _ _ Hx) as Hi. unfold set_index.
  replace (_ && _) with true by lia. eexists. split; [reflexivity|].
  unfold get in *. replace (0 <=? i) with true in * by lia.
  assert (Hl : (Z.to_nat i < length l)%nat) by (unfold blen in Hi; lia).
  split; [by apply list_lookup_insert_eq|]. split; [unfold blen; by rewrite length_insert|].
  exists (take (Z.to_nat i) l), (drop (S (Z.to_nat i)) l). split.
  - by rewrite take_drop_middle.
  - by apply insert_take_drop.
Qed.

Lemma take_blen_app l m : take (Z.to_nat (blen l)) (l ++ m) = l.
Proof. unfold blen. rewrite Nat2Z.id. apply take_app_length. Qed.

Lemma drop_blen_app l m : drop (Z.to_nat (blen l)) (l ++ m) = m.
Proof. unfold blen. rewrite Nat2Z.id. apply drop_app_length. Qed.
End slices.

(** The middle part of a concatenation, and its tail. *)
Lemma get_range_mid {A} (l m r : list A) : get_range (l ++ m ++ r) (blen l) (blen l + blen m) = Some m.
Proof.
  pose proof (blen_nonneg l). pose proof (blen_nonneg m). pose proof (blen_nonneg r).
  apply get_range_Some. rewrite !blen_app. split; [lia|]. unfold slice.
  replace (blen l + blen m - blen l) with (blen m) by lia.
  by rewrite drop_blen_app, take_blen_app.
Qed.

Lemma get_range_end {A} (l m : list A) : get_range (l ++ m) (blen l) (blen (l ++ m)) = Some m.
Proof.
  pose proof (blen_nonneg l). pose proof (blen_nonneg m).
  rewrite get_range_tail by lia. rewrite blen_app. replace (_ <=? _) with true by lia.
  by rewrite drop_blen_app.
Qed.

Lemma get_range_ok {A} (l : list A) a b :
  0 <= a <= b -> b <= blen l -> get_range l a b = Some (slice l a b).
Proof. intros. apply get_range_Some. auto. Qed.

(** A range of a list that is known as a concatenation. *)
Lemma get_range_parts {A} (s l m r : list A) i j :
  s = l ++ m ++ r -> i = blen l -> j = i + blen m -> get_range s i j = Some m.
Proof. intros -> -> ->. apply get_range_mid. Qed.

Lemma get_parts {A} (s l r : list A) x i : s = l ++ x :: r -> i = blen l -> get s i = Some x.
Proof.
  intros -> ->. rewrite get_app_r by lia. by rewrite Z.sub_diag, get_cons_0.
Qed.

(** Equality of lists up to the association of their concatenations. *)
Ltac list_eq := repeat progress (rewrite <- ?app_assoc; cbn [app]); reflexivity.

(** Normalises the lengths of literal lists, everywhere, and calls [lia]. *)
Ltac blen_nonnegs :=
  let known l := match goal with _ : 0 <= blen l |- _ => idtac end in
  repeat match goal with
  | |- context [blen ?l] => tryif known l then fail else pose proof (blen_nonneg l)
  | _ : context [blen ?l] |- _ => tryif known l then fail else pose proof (blen_nonneg l)
  end.

Ltac blens :=
  repeat progress (rewrite ?blen_app, ?blen_cons in *);
  repeat match goal with
  | |- context [@blen ?A []] => change (@blen A []) with 0
  | H : context [@blen ?A []] |- _ => change (@blen A []) with 0 in H
  end;
  blen_nonnegs; lia.

(** Decides a closed decidable proposition by evaluation. *)
Ltac decide_closed := apply (bool_decide_eq_true_1 _); vm_compute; reflexivity.
