(* ===== verification/Float64.v ===== *)
(** The double-precision numbers of the similarity rates, the [f64] of
    [src/delta/mod.rs], [src/delta/encode/rabin/mod.rs] and
    [src/internal/pack/encode/delta_search.rs].

    An [f64] is a [spec_float] of the Standard Library with 53 bits of mantissa and the
    exponent range of binary64, and the operations are the correctly rounded ones of
    IEEE 754 (round to nearest, ties to even), which Rust prescribes.  The lemmas say
    what the code relies on: a quotient of two integers below 2^53 compares with a power
    of two exactly as the rational number does. *)

From Stdlib Require Import ZArith Lia SpecFloat.
From stdpp Require Import base tactics numbers.
From S2P Require Import Prelude.

Definition f64 : Type := spec_float.

(** [n as f64] for a [usize]. *)
Definition f64_of (n : Z) : f64 := binary_normalize 53 1024 n 0 false.
Definition f64_div (x y : f64) : f64 := SFdiv 53 1024 x y.
Definition f64_add (x y : f64) : f64 := SFadd 53 1024 x y.
Definition f64_sub (x y : f64) : f64 := SFsub 53 1024 x y.
Definition f64_abs (x : f64) : f64 := SFabs x.
(** [x < y] and [x <= y], false when one is not a number. *)
Definition f64_ltb (x y : f64) : bool := SFltb x y.
Definition f64_leb (x y : f64) : bool := SFleb x y.

(** The literals of the code; a decimal literal is the double nearest to it. *)
Definition f64_zero : f64 := S754_zero false.
Definition f64_one : f64 := f64_of 1.
Definition f64_half : f64 := f64_div (f64_of 1) (f64_of 2).

(** A quotient as the code writes it, [a as f64 / n as f64]. *)
Definition ratio (a n : Z) : f64 := f64_div (f64_of a) (f64_of n).

Example f64_half_value : f64_half = S754_finite false (2 ^ 52) (-53).
Proof. reflexivity. Qed.

(** * Mantissas *)

(** A finite number in normal form. *)
Definition normal (m : Z) : Prop := 2 ^ 52 <= m < 2 ^ 53.

Lemma digits2_log2 p : Z.pos (digits2_pos p) = Z.log2 (Z.pos p) + 1.
Proof.
  induction p as [p IH|p IH|]; [| |done]; cbn [digits2_pos]; rewrite Pos2Z.inj_succ, IH.
  - change (Z.pos p~1) with (2 * Z.pos p + 1). rewrite Z.log2_succ_double by lia. lia.
  - change (Z.pos p~0) with (2 * Z.pos p). rewrite Z.log2_double by lia. lia.
Qed.

Lemma Zdigits2_log2 m : 0 < m -> Zdigits2 m = Z.log2 m + 1.
Proof. destruct m as [|p|p]; [lia| |lia]. intros _. apply digits2_log2. Qed.

Lemma Zdigits2_unique m d : 0 < d -> 2 ^ (d - 1) <= m < 2 ^ d -> Zdigits2 m = d.
Proof.
  intros Hd Hm. assert (0 < m) by (pose proof (Z.pow_pos_nonneg 2 (d - 1) ltac:(lia) ltac:(lia)); lia).
  rewrite Zdigits2_log2 by done. rewrite (Z.log2_unique m (d - 1)); [lia|lia|].
  by replace (Z.succ (d - 1)) with d by lia.
Qed.

Lemma Zdigits2_bounds m : 0 < m -> 0 < Zdigits2 m /\ 2 ^ (Zdigits2 m - 1) <= m < 2 ^ Zdigits2 m.
Proof.
  intros Hm. rewrite Zdigits2_log2 by done. pose proof (Z.log2_spec m Hm). pose proof (Z.log2_nonneg m).
  replace (Z.log2 m + 1 - 1) with (Z.log2 m) by lia. rewrite Z.add_1_r. lia.
Qed.

Lemma iter_xO m d : Z.pos (Pos.iter xO m d) = Z.pos m * 2 ^ Z.pos d.
Proof.
  induction d as [|d IH] using Pos.peano_ind; [cbn; lia|].
  rewrite Pos.iter_succ, Pos2Z.inj_succ, Z.pow_succ_r by lia. change (Z.pos (Pos.iter xO m d)~0) with (2 * Z.pos (Pos.iter xO m d)). lia.
Qed.

(** * Rounding *)

Lemma shr_1_m mrs : 0 <= shr_m mrs -> shr_m (shr_1 mrs) = shr_m mrs / 2 /\ 0 <= shr_m (shr_1 mrs).
Proof.
  destruct mrs as [m r s]. cbn [shr_m]. intros Hm. rewrite <- Z.div2_div.
  destruct m as [|[p|p|]|p]; cbn; lia.
Qed.

Lemma iter_pos_shr p mrs :
  0 <= shr_m mrs -> shr_m (SpecFloat.iter_pos shr_1 p mrs) = shr_m mrs / 2 ^ Z.pos p /\ 0 <= shr_m (SpecFloat.iter_pos shr_1 p mrs).
Proof.
  revert mrs. induction p as [p IH|p IH|]; intros mrs Hm; cbn [SpecFloat.iter_pos]; [| |by apply shr_1_m].
  - destruct (shr_1_m mrs Hm) as [E1 H1]. destruct (IH _ H1) as [E2 H2]. destruct (IH _ H2) as [E3 H3].
    split; [|done]. rewrite E3, E2, E1, !Z.div_div by lia. f_equal.
    change (Z.pos p~1) with (2 * Z.pos p + 1). rewrite Z.pow_add_r by lia. replace (2 * Z.pos p) with (Z.pos p + Z.pos p) by lia.
    rewrite Z.pow_add_r by lia. lia.
  - destruct (IH _ Hm) as [E1 H1]. destruct (IH _ H1) as [E2 H2]. split; [|done]. rewrite E2, E1, Z.div_div by lia. f_equal.
    change (Z.pos p~0) with (2 * Z.pos p). replace (2 * Z.pos p) with (Z.pos p + Z.pos p) by lia. by rewrite Z.pow_add_r by lia.
Qed.

Lemma shr_record_of_loc_m m l : shr_m (shr_record_of_loc m l) = m.
Proof. by destruct l as [|[]]. Qed.

Lemma fexp_range x : -1074 <= x - 53 -> fexp 53 1024 x = x - 53.
Proof. unfold fexp, emin. lia. Qed.

(** The mantissa after the first shift, before rounding. *)
Definition cut (m : Z) (l : location) : shr_record := fst (shr (shr_record_of_loc m l) 0 (Zdigits2 m - 53)).

Lemma cut_m m l : 53 <= Zdigits2 m -> 0 < m -> shr_m (cut m l) = m / 2 ^ (Zdigits2 m - 53) /\ normal (shr_m (cut m l)).
Proof.
  intros Hd Hm. destruct (Zdigits2_bounds m Hm) as [_ Hb]. unfold cut, normal.
  assert (E : shr_m (fst (shr (shr_record_of_loc m l) 0 (Zdigits2 m - 53))) = m / 2 ^ (Zdigits2 m - 53)).
  { unfold shr. destruct (Zdigits2 m - 53) as [|p|p] eqn:Ep; [|cbn [fst]|lia].
    - cbn [fst]. by rewrite shr_record_of_loc_m, Z.pow_0_r, Z.div_1_r.
    - destruct (iter_pos_shr p (shr_record_of_loc m l)) as [-> _]; rewrite shr_record_of_loc_m; [lia|done]. }
  split; [done|]. rewrite E. remember (Zdigits2 m - 53) as k eqn:Ek. assert (Hk : 0 < 2 ^ k) by (apply Z.pow_pos_nonneg; lia).
  replace (Zdigits2 m - 1) with (52 + k) in Hb by lia. replace (Zdigits2 m) with (53 + k) in Hb by lia.
  rewrite !Z.pow_add_r in Hb by lia. split; [apply Z.div_le_lower_bound; lia|apply Z.div_lt_upper_bound; lia].
Qed.

Lemma round_nearest_even_bounds m l : m <= round_nearest_even m l <= m + 1.
Proof. destruct l as [|[]]; cbn; try destruct (Z.even m); lia. Qed.

(** Rounding of a mantissa of at least 53 digits, within the range of exponents. *)
Lemma binary_round_aux_eq m e l (d := Zdigits2 m) :
  0 < m -> 53 <= d -> -1074 <= d + e - 53 <= 970 ->
  let r := round_nearest_even (shr_m (cut m l)) (loc_of_shr_record (cut m l)) in
  binary_round_aux 53 1024 false m e l =
    if r <? 2 ^ 53 then S754_finite false (Z.to_pos r) (d + e - 53) else S754_finite false (2 ^ 52) (d + e - 52).
Proof.
  intros Hm Hd He r. destruct (cut_m m l Hd Hm) as [_ Hn]. fold d in Hn.
  pose proof (round_nearest_even_bounds (shr_m (cut m l)) (loc_of_shr_record (cut m l))) as Hr. fold r in Hr. unfold normal in Hn.
  unfold binary_round_aux, shr_fexp at 1. fold d. rewrite fexp_range by lia. replace (d + e - 53 - e) with (d - 53) by lia.
  assert (E : shr (shr_record_of_loc m l) e (d - 53) = (cut m l, d + e - 53)).
  { unfold cut, shr. fold d. destruct (d - 53) eqn:E; cbn [fst]; [|f_equal; lia|lia]. f_equal. lia. }
  rewrite E. fold r. unfold shr_fexp. destruct (r <? 2 ^ 53) eqn:Er.
  - rewrite (Zdigits2_unique r 53) by (change (2 ^ (53 - 1)) with (2 ^ 52); lia). rewrite fexp_range by lia.
    replace (53 + (d + e - 53) - 53 - (d + e - 53)) with 0 by lia. cbn [shr shr_record_of_loc shr_m].
    destruct r as [|p|p]; [lia| |lia]. replace (d + e - 53 <=? 1024 - 53) with true by lia. done.
  - assert (r = 2 ^ 53) as -> by lia. rewrite (Zdigits2_unique (2 ^ 53) 54) by (cbn; lia). rewrite fexp_range by lia.
    replace (54 + (d + e - 53) - 53 - (d + e - 53)) with 1 by lia. cbn -[Z.leb Z.sub Z.add].
    replace (d + e - 53 + 1 <=? 1024 - 53) with true by lia. f_equal; lia.
Qed.

(** Rounding keeps a number of [d] digits between the powers of two around it. *)
Lemma binary_round_aux_shape m e l (d := Zdigits2 m) :
  0 < m -> 53 <= d -> -1074 <= d + e - 53 <= 970 ->
  exists m' e', binary_round_aux 53 1024 false m e l = S754_finite false m' e' /\ normal (Z.pos m')
    /\ d + e - 53 <= e' <= d + e - 52.
Proof.
  intros Hm Hd He. rewrite binary_round_aux_eq by done. fold d. destruct (cut_m m l Hd Hm) as [_ Hn].
  set (r := round_nearest_even _ _). assert (Hr : shr_m (cut m l) <= r) by apply round_nearest_even_bounds.
  unfold normal in *. destruct (r <? 2 ^ 53) eqn:Er.
  - eexists _, _. split; [done|]. rewrite Z2Pos.id by lia. lia.
  - eexists _, _. split; [done|]. lia.
Qed.

Lemma binary_round_aux_exact m e :
  normal m -> -1074 <= e <= 970 -> binary_round_aux 53 1024 false m e loc_Exact = S754_finite false (Z.to_pos m) e.
Proof.
  unfold normal. intros Hm He. assert (Ed : Zdigits2 m = 53) by (apply Zdigits2_unique; [lia|exact Hm]).
  rewrite binary_round_aux_eq by lia. unfold cut. rewrite Ed.
  change (shr_m (fst (shr (shr_record_of_loc m loc_Exact) 0 (53 - 53)))) with m. change (loc_of_shr_record _) with loc_Exact.
  cbn [round_nearest_even]. replace (m <? 2 ^ 53) with true by lia. f_equal. lia.
Qed.

(** An integer below 2^53 is a double. *)
Lemma f64_of_exact n :
  0 < n < 2 ^ 53 ->
  exists m e, f64_of n = S754_finite false m e /\ normal (Z.pos m) /\ -52 <= e <= 0 /\ Z.pos m = n * 2 ^ (- e).
Proof.
  intros Hn. destruct (Zdigits2_bounds n ltac:(lia)) as [Hd Hb]. remember (Zdigits2 n) as d eqn:Ed.
  assert (Hle : d <= 53).
  { destruct (Z_le_gt_dec d 53); [done|]. pose proof (Z.pow_le_mono_r 2 53 (d - 1) ltac:(lia) ltac:(lia)). lia. }
  exists (Z.to_pos (n * 2 ^ (53 - d))), (d - 53).
  assert (Hm : normal (n * 2 ^ (53 - d))).
  { unfold normal. assert (0 < 2 ^ (53 - d)) by (apply Z.pow_pos_nonneg; lia).
    replace (2 ^ 52) with (2 ^ (d - 1) * 2 ^ (53 - d)) by (rewrite <- Z.pow_add_r by lia; f_equal; lia).
    replace (2 ^ 53) with (2 ^ d * 2 ^ (53 - d)) by (rewrite <- Z.pow_add_r by lia; f_equal; lia). nia. }
  rewrite Z2Pos.id by (unfold normal in Hm; lia). split; [|split; [done|]; split; [lia|]; do 2 f_equal; lia].
  unfold f64_of, binary_normalize. destruct n as [|p|p] eqn:En; [lia| |lia]. unfold binary_round.
  change (Z.pos (digits2_pos p)) with (Zdigits2 (Z.pos p)). rewrite <- Ed, Z.add_0_r, fexp_range by lia. unfold shl_align.
  replace (d - 53 - 0) with (d - 53) by lia. destruct (d - 53) as [|q|q] eqn:Eq; [|lia|].
  - replace (53 - d) with 0 in * by lia. rewrite Z.mul_1_r in *. by apply binary_round_aux_exact.
  - rewrite iter_xO. replace (53 - d) with (Z.pos q) in * by lia. rewrite binary_round_aux_exact by (done || lia). done.
Qed.

(** * Quotients *)

(** The quotient of normal numbers is normal, and its exponent depends only on which
    mantissa is larger: rounding never carries into the next power of two. *)
Lemma f64_div_normal m1 e1 m2 e2 :
  normal (Z.pos m1) -> normal (Z.pos m2) -> -900 <= e1 - e2 <= 900 ->
  exists m, f64_div (S754_finite false m1 e1) (S754_finite false m2 e2)
      = S754_finite false m (if Z.pos m1 <? Z.pos m2 then e1 - e2 - 53 else e1 - e2 - 52)
    /\ normal (Z.pos m).
Proof.
  unfold normal. intros H1 H2 He. unfold f64_div, SFdiv, SFdiv_core_binary.
  rewrite (Zdigits2_unique (Z.pos m1) 53), (Zdigits2_unique (Z.pos m2) 53) by (change (2 ^ (53 - 1)) with (2 ^ 52); lia).
  rewrite fexp_range by lia. replace (Z.min (53 + e1 - (53 + e2) - 53) (e1 - e2)) with (e1 - e2 - 53) by lia.
  replace (e1 - e2 - (e1 - e2 - 53)) with 53 by lia. cbn [xorb].
  rewrite Z.shiftl_mul_pow2 by lia. pose proof (Z_div_mod (Z.pos m1 * 2 ^ 53) (Z.pos m2) ltac:(lia)) as Hq.
  destruct (Z.div_eucl _ _) as [q r]. destruct Hq as [Hq Hr]. set (l := new_location (Z.pos m2) r).
  destruct (Z.pos m1 <? Z.pos m2) eqn:E.
  - assert (Hd : Zdigits2 q = 53) by (apply Zdigits2_unique; [lia|]; change (2 ^ (53 - 1)) with (2 ^ 52); nia).
    destruct (cut_m q l) as [Ec Hn]; [lia|nia|]. rewrite Hd in Ec. rewrite Z.sub_diag, Z.pow_0_r, Z.div_1_r in Ec.
    rewrite binary_round_aux_eq by (rewrite ?Hd; nia). rewrite Hd.
    set (x := round_nearest_even _ _). assert (Hx : q <= x <= q + 1) by (rewrite <- Ec; apply round_nearest_even_bounds).
    assert (q <= 2 ^ 53 - 2) by nia. assert (2 ^ 52 <= q) by nia. replace (x <? 2 ^ 53) with true by lia.
    exists (Z.to_pos x). rewrite Z2Pos.id by lia. split; [f_equal; lia|lia].
  - assert (Hd : Zdigits2 q = 54) by (apply Zdigits2_unique; [lia|]; change (2 ^ (54 - 1)) with (2 ^ 53); nia).
    destruct (cut_m q l) as [Ec Hn]; [lia|nia|]. rewrite Hd in Ec. change (2 ^ (54 - 53)) with 2 in Ec.
    rewrite binary_round_aux_eq by (rewrite ?Hd; nia). rewrite Hd.
    set (x := round_nearest_even _ _). assert (Hx : q / 2 <= x <= q / 2 + 1) by (rewrite <- Ec; apply round_nearest_even_bounds).
    assert (Hq2 : q <= 2 ^ 54 - 2) by nia. assert (2 ^ 53 <= q) by nia.
    assert (Hlt : x < 2 ^ 53).
    { destruct (Z.eq_dec q (2 ^ 54 - 2)) as [->|Hne];
        [|pose proof (Z.div_mod q 2 ltac:(lia)); pose proof (Z.mod_pos_bound q 2 ltac:(lia)); lia]. unfold x, cut. rewrite Hd. by destruct l as [|[]]. }
    replace (x <? 2 ^ 53) with true by lia. exists (Z.to_pos x). unfold normal in Hn. rewrite Z2Pos.id by lia. split; [f_equal; lia|lia].
Qed.

Lemma f64_ltb_finite m e m' e' :
  Z.pos m' <= Z.pos m -> f64_ltb (S754_finite false m e) (S754_finite false m' e') = (e <? e').
Proof.
  intros Hm. unfold f64_ltb, SFltb, SFcompare.
  destruct (Z.compare_spec e e') as [->|Hlt|Hgt]; [|by replace (e <? e') with true by lia|by replace (e <? e') with false by lia].
  rewrite Z.ltb_irrefl. change (Pos.compare_cont Eq m m') with (Pos.compare m m'). destruct (Pos.compare_spec m m'); lia || done.
Qed.

Lemma f64_ltb_pow2 m e k : normal (Z.pos m) -> f64_ltb (S754_finite false m e) (S754_finite false (2 ^ 52) k) = (e <? k).
Proof. unfold normal. intros Hm. apply f64_ltb_finite. lia. Qed.

(** Scaled mantissas compare as the exponents do, unless these are equal. *)
Lemma scaled_ltb m1 m2 x y :
  normal m1 -> normal m2 -> 0 <= x -> 0 <= y ->
  (m1 * 2 ^ x <? m2 * 2 ^ y) = (x <? y) || ((x =? y) && (m1 <? m2)).
Proof.
  unfold normal. intros H1 H2 Hx Hy. assert (Px : 0 < 2 ^ x) by (apply Z.pow_pos_nonneg; lia).
  assert (Py : 0 < 2 ^ y) by (apply Z.pow_pos_nonneg; lia).
  destruct (Z.lt_trichotomy x y) as [Hlt|[->|Hgt]].
  - replace (x <? y) with true by lia. cbn [orb]. assert (2 * 2 ^ x <= 2 ^ y).
    { rewrite <- Z.pow_succ_r by done. apply Z.pow_le_mono_r; lia. }
    apply Z.ltb_lt. nia.
  - rewrite Z.ltb_irrefl, Z.eqb_refl. cbn [orb andb]. apply eq_true_iff_eq. rewrite !Z.ltb_lt. nia.
  - replace (x <? y) with false by lia. replace (x =? y) with false by lia. cbn [orb andb]. assert (2 * 2 ^ y <= 2 ^ x).
    { rewrite <- Z.pow_succ_r by done. apply Z.pow_le_mono_r; lia. }
    apply Z.ltb_ge. nia.
Qed.

(** The quotient of two positive integers below 2^53 is normal, and its exponent tells
    between which powers of two the rational number lies. *)
Lemma ratio_normal a n :
  0 < a < 2 ^ 53 -> 0 < n < 2 ^ 53 ->
  exists m e, ratio a n = S754_finite false m e /\ normal (Z.pos m) /\ -105 <= e <= 0
    /\ forall j, 0 <= j -> (e <? - 52 - j) = (a * 2 ^ j <? n).
Proof.
  intros Ha Hn. destruct (f64_of_exact a Ha) as (m1 & e1 & E1 & N1 & R1 & V1). destruct (f64_of_exact n Hn) as (m2 & e2 & E2 & N2 & R2 & V2).
  destruct (f64_div_normal m1 e1 m2 e2 N1 N2 ltac:(lia)) as (m & Em & Nm). unfold ratio. rewrite E1, E2, Em.
  eexists m, _. split; [done|]. split; [done|]. split; [destruct (_ <? _); lia|]. intros j Hj.
  transitivity (Z.pos m1 * 2 ^ (j - e2) <? Z.pos m2 * 2 ^ (- e1)).
  - rewrite scaled_ltb by (done || lia). destruct (Z.pos m1 <? Z.pos m2); destruct (Z.lt_trichotomy (j - e2) (- e1)) as [?|[?|?]]; lia.
  - rewrite V1, V2. apply eq_true_iff_eq. rewrite !Z.ltb_lt. replace (j - e2) with (j + - e2) by lia. rewrite Z.pow_add_r by lia.
    assert (P1 : 0 < 2 ^ (- e1)) by (apply Z.pow_pos_nonneg; lia). assert (P2 : 0 < 2 ^ (- e2)) by (apply Z.pow_pos_nonneg; lia).
    set (p := 2 ^ (- e1)) in *. set (q := 2 ^ (- e2)) in *. set (w := 2 ^ j). assert (0 < p * q) by nia.
    replace (a * p * (w * q)) with ((a * w) * (p * q)) by ring. replace (n * q * p) with (n * (p * q)) by ring.
    symmetry. apply Z.mul_lt_mono_pos_r. done.
Qed.

Lemma ratio_zero n : 0 < n < 2 ^ 53 -> ratio 0 n = f64_zero.
Proof. intros Hn. destruct (f64_of_exact n Hn) as (m & e & E & _). unfold ratio. by rewrite E. Qed.

(** ** What the rates are compared with *)

(** [a as f64 / n as f64 < 0.5] is exact. *)
Lemma ratio_ltb_half a n : 0 <= a < 2 ^ 53 -> 0 < n < 2 ^ 53 -> f64_ltb (ratio a n) f64_half = (2 * a <? n).
Proof.
  intros Ha Hn. destruct (Z.eq_dec a 0) as [->|Hne].
  { rewrite ratio_zero by done. replace (2 * 0 <? n) with true by lia. done. }
  destruct (ratio_normal a n ltac:(lia) Hn) as (m & e & -> & Nm & _ & Hj). rewrite f64_half_value, f64_ltb_pow2 by done.
  change (-53) with (-52 - 1). rewrite Hj by lia. change (2 ^ 1) with 2. by rewrite Z.mul_comm.
Qed.

Lemma ratio_ltb_one a n : 0 <= a < 2 ^ 53 -> 0 < n < 2 ^ 53 -> f64_ltb (ratio a n) f64_one = (a <? n).
Proof.
  intros Ha Hn. destruct (Z.eq_dec a 0) as [->|Hne].
  { rewrite ratio_zero by done. replace (0 <? n) with true by lia. done. }
  destruct (ratio_normal a n ltac:(lia) Hn) as (m & e & -> & Nm & _ & Hj). change f64_one with (S754_finite false (2 ^ 52) (-52)).
  rewrite f64_ltb_pow2 by done. change (-52) with (-52 - 0). rewrite Hj by lia. by rewrite Z.pow_0_r, Z.mul_1_r.
Qed.

(** [n / n] is one. *)
Lemma ratio_self n : 0 < n < 2 ^ 53 -> ratio n n = f64_one.
Proof.
  intros Hn. destruct (f64_of_exact n Hn) as (m & e & E & Nm & _). unfold ratio, f64_div. rewrite E. unfold SFdiv, SFdiv_core_binary, normal in *.
  rewrite (Zdigits2_unique (Z.pos m) 53) by (change (2 ^ (53 - 1)) with (2 ^ 52); lia).
  rewrite fexp_range by lia. replace (Z.min (53 + e - (53 + e) - 53) (e - e)) with (-53) by lia. rewrite Z.sub_diag. cbn [Z.sub Z.opp Z.add xorb].
  rewrite Z.shiftl_mul_pow2 by lia. pose proof (Z_div_mod (Z.pos m * 2 ^ 53) (Z.pos m) ltac:(lia)) as Hq.
  destruct (Z.div_eucl _ _) as [q r]. destruct Hq as [Hq Hr]. assert (q = 2 ^ 53) as -> by nia. assert (r = 0) as -> by nia.
  unfold new_location, new_location_even, new_location_odd. by destruct (Z.even _).
Qed.

(** A rate is at most one. *)
Lemma ratio_leb_one a n : 0 <= a <= n -> 0 < n < 2 ^ 53 -> f64_leb (ratio a n) f64_one = true.
Proof.
  intros Ha Hn. destruct (Z.eq_dec a n) as [->|Hne]; [by rewrite ratio_self|].
  pose proof (ratio_ltb_one a n ltac:(lia) Hn) as Hl. replace (a <? n) with true in Hl by lia.
  unfold f64_ltb, SFltb in Hl. unfold f64_leb, SFleb. by destruct (SFcompare _ _) as [[]|].
Qed.

(** A rate is not negative. *)
Lemma ratio_geb_zero a n : 0 <= a < 2 ^ 53 -> 0 < n < 2 ^ 53 -> f64_leb f64_zero (ratio a n) = true.
Proof.
  intros Ha Hn. destruct (Z.eq_dec a 0) as [->|Hne]; [by rewrite ratio_zero|].
  by destruct (ratio_normal a n ltac:(lia) Hn) as (m & e & -> & _).
Qed.

(** What is saved, [1.0 - d as f64 / n as f64], is at least one half when [d] is less than half of [n]. *)
Lemma savings_at_least_half d n :
  0 <= d -> 2 * d < n -> n < 2 ^ 53 -> f64_ltb (f64_sub f64_one (ratio d n)) f64_half = false.
Proof.
  intros Hd Hlt Hn. destruct (Z.eq_dec d 0) as [->|Hne]; [by rewrite ratio_zero by lia|].
  destruct (ratio_normal d n ltac:(lia) ltac:(lia)) as (m & e & -> & Nm & He & Hj).
  specialize (Hj 1 ltac:(lia)). change (2 ^ 1) with 2 in Hj. replace (d * 2 <? n) with true in Hj by lia.
  unfold f64_sub. change f64_one with (S754_finite false (2 ^ 52) (-52)). unfold SFsub, shl_align, normal in *.
  replace (Z.min (-52) e) with e by lia. rewrite Z.sub_diag. cbn [fst cond_Zopp].
  destruct (e - -52) as [|k|k] eqn:Ek; [lia|lia|]. cbn [fst]. rewrite iter_xO. change (Z.pos (2 ^ 52)) with (2 ^ 52).
  assert (Hk : 2 <= Z.pos k) by lia. rewrite <- Z.pow_add_r by lia.
  assert (Hs : 2 ^ (52 + Z.pos k) = 2 * 2 ^ (51 + Z.pos k)) by (rewrite <- Z.pow_succ_r by lia; f_equal; lia).
  pose proof (Z.pow_le_mono_r 2 53 (51 + Z.pos k) ltac:(lia) ltac:(lia)) as Hp.
  assert (Hd52 : Zdigits2 (2 ^ (52 + Z.pos k) - Z.pos m) = 52 + Z.pos k).
  { apply Zdigits2_unique; [lia|]. replace (52 + Z.pos k - 1) with (51 + Z.pos k) by lia. lia. }
  destruct (2 ^ (52 + Z.pos k) - Z.pos m) as [|x|x] eqn:Ex; [lia| |lia]. unfold binary_normalize, binary_round.
  change (Z.pos (digits2_pos x)) with (Zdigits2 (Z.pos x)). rewrite Hd52, fexp_range by lia. unfold shl_align.
  destruct (52 + Z.pos k + e - 53 - e) as [|y|y] eqn:Ey; [lia| |lia].
  destruct (binary_round_aux_shape (Z.pos x) e loc_Exact) as (m' & e' & -> & Nm' & He'); [lia|lia|lia|].
  rewrite f64_half_value, f64_ltb_pow2 by done. lia.
Qed.
