(* ===== verification/Stream.v ===== *)
(** In-memory byte readers ([std::io::Read] over a cursor or a slice).

    A reader is the list of bytes it has not delivered yet; reading returns the
    bytes and the rest.  [read_exact] fails with [UnexpectedEof] when fewer bytes
    remain, as [std::io::Read::read_exact] does on such a reader. *)

From Stdlib Require Import ZArith Lia String.
From stdpp Require Import base tactics list numbers option.
From S2P Require Import Prelude.

(** The [std::io::Error] values the modelled code observes: the kind decides the
    control flow, the message is kept for the kinds the crate itself raises. *)
Inductive IoError : Type :=
| UnexpectedEof
| InvalidData (message : string)
| OtherIo (message : string).

Definition read_exact (n : Z) (s : bytes) : Res IoError (bytes * bytes) :=
  if n <=? blen s
  then Ok (take (Z.to_nat n) s, drop (Z.to_nat n) s)
  else Err UnexpectedEof.

(** [read_exact] into a one-byte buffer. *)
Definition read_u8 (s : bytes) : Res IoError (Z * bytes) :=
  match s with
  | b :: s' => Ok (b, s')
  | [] => Err UnexpectedEof
  end.

Lemma read_u8_read_exact s :
  read_u8 s = let! '(bs, rest) := read_exact 1 s in
              match bs with [b] => Ok (b, rest) | _ => Panic end.
Proof.
  destruct s as [|b s]; [reflexivity|]. unfold read_exact. rewrite blen_cons.
  pose proof (blen_nonneg s). replace (1 <=? 1 + blen s) with true by lia. reflexivity.
Qed.

Lemma read_exact_app n d s : n = blen d -> read_exact n (d ++ s) = Ok (d, s).
Proof.
  intros ->. unfold read_exact. rewrite blen_app.
  pose proof (blen_nonneg s). replace (_ <=? _) with true by lia.
  by rewrite take_blen_app, drop_blen_app.
Qed.

Lemma read_exact_Ok n s d s' :
  0 <= n -> read_exact n s = Ok (d, s') -> s = d ++ s' /\ blen d = n.
Proof.
  unfold read_exact. intros Hn H. destruct (n <=? blen s) eqn:E; [|discriminate].
  injection H as <- <-. rewrite take_drop. split; [done|].
  unfold blen in *. rewrite length_take. lia.
Qed.

Lemma read_exact_returns n s : returns (read_exact n s).
Proof. unfold read_exact. destruct (_ <=? _); exact I. Qed.

Lemma read_u8_returns s : returns (read_u8 s).
Proof. destruct s; exact I. Qed.

#[export] Hint Resolve read_exact_returns read_u8_returns : git.
