(* ===== verification/Text.v ===== *)
(** Text: Rust strings as their UTF-8 bytes.

    String literals ([str]), decimal and hexadecimal printing and parsing, the
    UTF-8 validity check of [core::str::from_utf8] and the scalar values of a valid
    string, [str::trim] at the level the sources use it, and byte searches. *)

From Stdlib Require Import ZArith Lia String Ascii.
From stdpp Require Import base tactics list numbers option.
From S2P Require Import Prelude.

(** * Literals *)

Fixpoint str (s : string) : bytes :=
  match s with
  | EmptyString => []
  | String c s => Z.of_nat (nat_of_ascii c) :: str s
  end.

Lemma str_bytes s : byte_list (str s).
Proof.
  induction s as [|c s IH]; [constructor|]. cbn. apply Forall_cons_2; [|exact IH].
  pose proof (nat_ascii_bounded c). unfold is_byte. lia.
Qed.

(** * Decimal numbers *)

(** The digits of [n], last digit first into the accumulator. *)
Fixpoint dec_loop (fuel : nat) (n : Z) (acc : bytes) : bytes :=
  match fuel with
  | O => acc
  | S fuel =>
      let acc := (48 + n mod 10) :: acc in
      if n / 10 =? 0 then acc else dec_loop fuel (n / 10) acc
  end.

(** [Display] of an unsigned integer; a number of [b] bits has at most [b] digits. *)
Definition show_dec (n : Z) : bytes := dec_loop (S (Z.to_nat (Z.log2 n))) n [].

Definition is_digit (b : Z) : bool := (48 <=? b) && (b <=? 57).

(** The digit loop of [str::parse]: [None] on a non-digit or above [max]. *)
Fixpoint parse_digits (max value : Z) (s : bytes) : option Z :=
  match s with
  | [] => Some value
  | b :: s =>
      if is_digit b then
        let value := value * 10 + (b - 48) in
        if value <=? max then parse_digits max value s else None
      else None
  end.

(** [str::parse] of an unsigned type: an optional [+], at least one digit. *)
Definition parse_dec (max : Z) (s : bytes) : option Z :=
  match s with
  | [] => None
  | [43] => None
  | 43 :: s => parse_digits max 0 s
  | s => parse_digits max 0 s
  end.

Lemma dec_loop_acc fuel n acc : dec_loop fuel n acc = dec_loop fuel n [] ++ acc.
Proof.
  revert n acc. induction fuel as [|fuel IH]; intros n acc; [done|]. cbn [dec_loop].
  destruct (n / 10 =? 0); [done|]. rewrite IH, (IH _ [_]), <- app_assoc. done.
Qed.

Lemma parse_digits_app max v s t :
  parse_digits max v (s ++ t) =
  match parse_digits max v s with Some v => parse_digits max v t | None => None end.
Proof.
  revert v. induction s as [|b s IH]; intros v; [done|]. cbn [app parse_digits].
  destruct (is_digit b); [|done]. destruct (_ <=? max); [apply IH|done].
Qed.

Lemma log2_div10 n : 10 <= n -> Z.log2 (n / 10) < Z.log2 n.
Proof.
  intros Hn. assert (H10 : 0 < n / 10) by (apply Z.div_str_pos; lia).
  pose proof (Z.log2_nonneg n). apply Z.log2_lt_pow2; [done|].
  pose proof (Z.log2_spec n ltac:(lia)) as [_ Hs]. rewrite Z.pow_succ_r in Hs by lia.
  apply Z.div_lt_upper_bound; lia.
Qed.

Lemma dec_loop_spec fuel n :
  0 <= n -> (Z.to_nat (Z.log2 n) < fuel)%nat ->
  dec_loop fuel n [] <> [] /\ Forall (fun b => is_digit b = true) (dec_loop fuel n [])
  /\ forall max, n <= max -> parse_digits max 0 (dec_loop fuel n []) = Some n.
Proof.
  revert n. induction fuel as [|fuel IH]; intros n Hn Hf; [lia|]. cbn [dec_loop].
  pose proof (Z.mod_pos_bound n 10 ltac:(lia)) as Hm.
  pose proof (Z.div_mod n 10 ltac:(lia)) as Hdm.
  assert (Hdig : is_digit (48 + n mod 10) = true) by (unfold is_digit; lia).
  destruct (n / 10 =? 0) eqn:E.
  - split; [done|]. split; [apply Forall_cons_2; [done|constructor]|]. intros max Hmax.
    cbn [parse_digits]. rewrite Hdig. replace (0 * 10 + (48 + n mod 10 - 48)) with n by lia.
    by replace (n <=? max) with true by lia.
  - rewrite dec_loop_acc.
    assert (Hd : 0 <= n / 10) by (apply Z.div_pos; lia).
    assert (Hl : Z.log2 (n / 10) < Z.log2 n) by (apply log2_div10; lia).
    pose proof (Z.log2_nonneg (n / 10)).
    destruct (IH (n / 10) Hd ltac:(lia)) as (Hne & Hall & Hparse). split; [|split].
    + intros H0. apply app_eq_nil in H0 as [? _]. done.
    + apply Forall_app. split; [done|]. apply Forall_cons_2; [done|constructor].
    + intros max Hmax. rewrite parse_digits_app, Hparse by lia. cbn [parse_digits]. rewrite Hdig.
      replace (n / 10 * 10 + (48 + n mod 10 - 48)) with n by lia.
      by replace (n <=? max) with true by lia.
Qed.

Lemma dec_loop_enough f f' n acc :
  0 <= n -> (Z.to_nat (Z.log2 n) < f)%nat -> (Z.to_nat (Z.log2 n) < f')%nat ->
  dec_loop f n acc = dec_loop f' n acc.
Proof.
  revert f' n acc. induction f as [|f IH]; intros f' n acc Hn Hf Hf'; [lia|].
  destruct f' as [|f']; [lia|]. cbn [dec_loop]. destruct (n / 10 =? 0) eqn:E; [done|].
  pose proof (Z.div_mod n 10 ltac:(lia)). pose proof (Z.mod_pos_bound n 10 ltac:(lia)).
  pose proof (log2_div10 n ltac:(lia)). pose proof (Z.log2_nonneg (n / 10)). apply IH; lia.
Qed.

(** The last digit of a number, after the digits of the rest. *)
Lemma show_dec_step n :
  0 <= n -> show_dec n = (if n / 10 =? 0 then [] else show_dec (n / 10)) ++ [48 + n mod 10].
Proof.
  intros Hn. unfold show_dec. cbn [dec_loop]. destruct (n / 10 =? 0) eqn:E; [done|].
  rewrite dec_loop_acc. f_equal.
  pose proof (Z.div_mod n 10 ltac:(lia)). pose proof (Z.mod_pos_bound n 10 ltac:(lia)).
  pose proof (log2_div10 n ltac:(lia)). pose proof (Z.log2_nonneg (n / 10)).
  apply (dec_loop_enough _ (S (Z.to_nat (Z.log2 (n / 10))))); lia.
Qed.

Lemma show_dec_digits n : 0 <= n -> Forall (fun b => is_digit b = true) (show_dec n).
Proof. intros Hn. apply dec_loop_spec; [done|lia]. Qed.

Lemma show_dec_nonempty n : 0 <= n -> show_dec n <> [].
Proof. intros Hn. apply dec_loop_spec; [done|lia]. Qed.

Lemma parse_dec_show max n : 0 <= n <= max -> parse_dec max (show_dec n) = Some n.
Proof.
  intros Hn. destruct (dec_loop_spec (S (Z.to_nat (Z.log2 n))) n) as (Hne & Hall & Hp); [lia|lia|].
  fold (show_dec n) in *. specialize (Hp max ltac:(lia)).
  destruct (show_dec n) as [|b s]; [done|].
  apply Forall_cons_1 in Hall as [Hb _]. unfold parse_dec.
  assert (b = 43 \/ b <> 43) as [->|Hb43] by lia; [discriminate Hb|].
  destruct b as [|p|p]; try exact Hp. do 6 (destruct p; try exact Hp); done.
Qed.

Lemma parse_digits_bound max v s w :
  0 <= v <= max -> parse_digits max v s = Some w -> 0 <= w <= max.
Proof.
  revert v. induction s as [|b s IH]; intros v Hv Hp; cbn [parse_digits] in Hp; [by injection Hp as <-|].
  destruct (is_digit b) eqn:Ed; [|discriminate]. unfold is_digit in Ed.
  destruct (_ <=? max) eqn:E; [|discriminate]. refine (IH _ _ Hp). lia.
Qed.

Lemma parse_dec_bound max s w : 0 <= max -> parse_dec max s = Some w -> 0 <= w <= max.
Proof.
  intros Hm Hp. unfold parse_dec in Hp. repeat case_match; try discriminate;
    by apply parse_digits_bound in Hp; [|lia].
Qed.

(** * Hexadecimal *)

(** A reference implementation of two-digit lower-case hexadecimal. *)
Definition hex_digit (d : Z) : Z := if d <? 10 then 48 + d else 87 + d.

Fixpoint hex_print (l : bytes) : bytes :=
  match l with
  | [] => []
  | b :: l => hex_digit (b / 16) :: hex_digit (b mod 16) :: hex_print l
  end.

(** The value of a digit of either case. *)
Definition hex_val (c : Z) : option Z :=
  if (48 <=? c) && (c <=? 57) then Some (c - 48)
  else if (97 <=? c) && (c <=? 102) then Some (c - 87)
  else if (65 <=? c) && (c <=? 70) then Some (c - 55)
  else None.

Definition is_hex_lower (c : Z) : Prop := 48 <= c <= 57 \/ 97 <= c <= 102.

Lemma hex_val_digit d : 0 <= d < 16 -> hex_val (hex_digit d) = Some d /\ is_hex_lower (hex_digit d).
Proof.
  intros Hd. unfold hex_digit, hex_val, is_hex_lower. destruct (d <? 10) eqn:E.
  - replace (_ && _) with true by lia. split; [f_equal|]; lia.
  - replace ((48 <=? 87 + d) && (87 + d <=? 57)) with false by lia.
    replace (_ && _) with true by lia. split; [f_equal|]; lia.
Qed.

Lemma hex_print_length l : blen (hex_print l) = 2 * blen l.
Proof. induction l as [|b l IH]; [done|]. cbn [hex_print]. rewrite !blen_cons, IH. lia. Qed.

Lemma hex_print_lower l : byte_list l -> Forall is_hex_lower (hex_print l).
Proof.
  induction 1 as [|b l Hb _ IH]; [constructor|]. cbn [hex_print]. unfold is_byte in Hb.
  pose proof (Z.div_mod b 16 ltac:(lia)). pose proof (Z.mod_pos_bound b 16 ltac:(lia)).
  repeat apply Forall_cons_2; [apply hex_val_digit; lia..|done].
Qed.

(** * UTF-8 *)

Definition cont (b : Z) : bool := (128 <=? b) && (b <=? 191).

(** The scalar values of a UTF-8 string, [None] where [core::str::from_utf8] fails:
    no overlong form, no surrogate, nothing above U+10FFFF. *)
Fixpoint utf8_chars (s : bytes) : option (list Z) :=
  match s with
  | [] => Some []
  | b0 :: s0 =>
      if b0 <? 128 then cs ← utf8_chars s0; Some (b0 :: cs)
      else match s0 with
      | [] => None
      | b1 :: s1 =>
          if (194 <=? b0) && (b0 <=? 223) then
            if cont b1 then cs ← utf8_chars s1; Some ((b0 - 192) * 64 + (b1 - 128) :: cs) else None
          else match s1 with
          | [] => None
          | b2 :: s2 =>
              if (224 <=? b0) && (b0 <=? 239) then
                if cont b1 && cont b2
                   && (if b0 =? 224 then 160 <=? b1 else true)
                   && (if b0 =? 237 then b1 <=? 159 else true)
                then cs ← utf8_chars s2;
                     Some ((b0 - 224) * 4096 + (b1 - 128) * 64 + (b2 - 128) :: cs)
                else None
              else match s2 with
              | [] => None
              | b3 :: s3 =>
                  if (240 <=? b0) && (b0 <=? 244) && cont b1 && cont b2 && cont b3
                     && (if b0 =? 240 then 144 <=? b1 else true)
                     && (if b0 =? 244 then b1 <=? 143 else true)
                  then cs ← utf8_chars s3;
                       Some ((b0 - 240) * 262144 + (b1 - 128) * 4096 + (b2 - 128) * 64 + (b3 - 128) :: cs)
                  else None
              end
          end
      end
  end.

Definition utf8_valid (s : bytes) : bool := bool_decide (is_Some (utf8_chars s)).

(** [char::is_whitespace], the Unicode White_Space property. *)
Definition is_whitespace (c : Z) : bool :=
  ((9 <=? c) && (c <=? 13)) || (c =? 32) || (c =? 133) || (c =? 160) || (c =? 5760)
  || ((8192 <=? c) && (c <=? 8202)) || (c =? 8232) || (c =? 8233) || (c =? 8239)
  || (c =? 8287) || (c =? 12288).

(** [s.trim().is_empty()]. *)
Definition trim_is_empty (s : bytes) : bool :=
  match utf8_chars s with
  | Some cs => forallb is_whitespace cs
  | None => false
  end.

Definition ascii (s : bytes) : Prop := Forall (fun b => 0 <= b < 128) s.

Lemma utf8_chars_ascii_app s t : ascii s -> utf8_chars (s ++ t) = (cs ← utf8_chars t; Some (s ++ cs)).
Proof.
  induction 1 as [|b s Hb _ IH]; [cbn; by destruct (utf8_chars t)|]. cbn [app utf8_chars].
  replace (b <? 128) with true by lia. rewrite IH. by destruct (utf8_chars t).
Qed.

Lemma utf8_ascii s : ascii s -> utf8_valid s = true.
Proof.
  intros Hs. apply bool_decide_eq_true. rewrite <- (app_nil_r s), utf8_chars_ascii_app by done. by eexists.
Qed.

(** Validity of a concatenation whose second part starts on a boundary. *)
Lemma utf8_chars_app s t cs :
  utf8_chars s = Some cs -> utf8_chars (s ++ t) = (ds ← utf8_chars t; Some (cs ++ ds)).
Proof.
  revert cs. induction s as [s IH] using (well_founded_induction (well_founded_ltof _ (@length Z))).
  unfold ltof in IH. intros cs Hs. destruct s as [|b0 s0].
  { cbn in Hs. injection Hs as <-. cbn. by destruct (utf8_chars t). }
  cbn [utf8_chars app] in *. destruct (b0 <? 128).
  { destruct (utf8_chars s0) as [ds|] eqn:E; [|discriminate]. injection Hs as <-.
    rewrite (IH s0) with (cs := ds) by (cbn; lia || done). by destruct (utf8_chars t). }
  destruct s0 as [|b1 s1]; [discriminate|]. cbn [app]. destruct (_ && _).
  { destruct (cont b1); [|discriminate].
    destruct (utf8_chars s1) as [ds|] eqn:E; [|discriminate]. injection Hs as <-.
    rewrite (IH s1) with (cs := ds) by (cbn; lia || done). by destruct (utf8_chars t). }
  destruct s1 as [|b2 s2]; [discriminate|]. cbn [app]. destruct ((224 <=? b0) && _).
  { destruct (_ && _); [|discriminate].
    destruct (utf8_chars s2) as [ds|] eqn:E; [|discriminate]. injection Hs as <-.
    rewrite (IH s2) with (cs := ds) by (cbn; lia || done). by destruct (utf8_chars t). }
  destruct s2 as [|b3 s3]; [discriminate|]. cbn [app]. destruct (_ && _); [|discriminate].
  destruct (utf8_chars s3) as [ds|] eqn:E; [|discriminate]. injection Hs as <-.
  rewrite (IH s3) with (cs := ds) by (cbn; lia || done). by destruct (utf8_chars t).
Qed.

Lemma utf8_valid_app s t : utf8_valid s = true -> utf8_valid t = true -> utf8_valid (s ++ t) = true.
Proof.
  unfold utf8_valid. rewrite !bool_decide_eq_true. intros [cs Hs] [ds Ht].
  rewrite (utf8_chars_app _ _ _ Hs), Ht. by eexists.
Qed.

(** * Searching *)

(** [split_once], [splitn(2, _)]: the bytes before the first [c], and those after it. *)
Fixpoint split_at (c : Z) (s : bytes) : option (bytes * bytes) :=
  match s with
  | [] => None
  | b :: s =>
      if b =? c then Some ([], s)
      else match split_at c s with Some (l, r) => Some (b :: l, r) | None => None end
  end.

Lemma split_at_app c l r : Forall (fun b => b <> c) l -> split_at c (l ++ c :: r) = Some (l, r).
Proof.
  induction 1 as [|b l Hb _ IH]; cbn; [by rewrite Z.eqb_refl|].
  rewrite (proj2 (Z.eqb_neq b c)) by done. by rewrite IH.
Qed.

Lemma split_at_Some c s l r :
  split_at c s = Some (l, r) -> s = l ++ c :: r /\ Forall (fun b => b <> c) l.
Proof.
  revert l. induction s as [|b s IH]; intros l H; cbn in H; [discriminate|].
  destruct (b =? c) eqn:E.
  - injection H as <- <-. apply Z.eqb_eq in E as ->. split; [done|constructor].
  - destruct (split_at c s) as [[l' r']|]; [|discriminate]. injection H as <- <-.
    destruct (IH _ eq_refl) as [-> Hl]. split; [done|]. apply Forall_cons_2; [lia|done].
Qed.

Lemma split_at_None c s : split_at c s = None <-> Forall (fun b => b <> c) s.
Proof.
  split.
  - induction s as [|b s IH]; [constructor|]. cbn. destruct (b =? c) eqn:E; [done|].
    destruct (split_at c s) as [[]|]; [done|]. intros _. apply Forall_cons_2; [lia|auto].
  - induction 1 as [|b s Hb _ IH]; [done|]. cbn. rewrite (proj2 (Z.eqb_neq b c)) by done. by rewrite IH.
Qed.

(** [memchr] and bstr's [find_byte]: an interface, with the documented contract. *)
Class ByteSearch := find_byte : Z -> bytes -> option Z.

Class ByteSearchLaws `{ByteSearch} : Prop := {
  find_byte_hit : forall c l r, Forall (fun b => b <> c) l -> find_byte c (l ++ c :: r) = Some (blen l);
  find_byte_miss : forall c s, Forall (fun b => b <> c) s -> find_byte c s = None
}.

(** A linear search that meets the contract. *)
Fixpoint linear_search (c : Z) (s : bytes) : option Z :=
  match s with
  | [] => None
  | b :: s => if b =? c then Some 0 else i ← linear_search c s; Some (1 + i)
  end.

Lemma linear_search_laws : @ByteSearchLaws linear_search.
Proof.
  split; unfold find_byte.
  - induction 1 as [|b l Hb _ IH]; cbn; [by rewrite Z.eqb_refl|].
    rewrite (proj2 (Z.eqb_neq b c)) by done. rewrite IH. cbn. by rewrite blen_cons.
  - induction 1 as [|b s Hb _ IH]; [done|]. cbn. rewrite (proj2 (Z.eqb_neq b c)) by done. by rewrite IH.
Qed.

(** [(&s[..i], &s[i + 1..])] for the index [i] that the search finds. *)
Definition cut `{ByteSearch} (c : Z) (s : bytes) : option (bytes * bytes) :=
  i ← find_byte c s; l ← get_range s 0 i; r ← get_range s (i + 1) (blen s); Some (l, r).

Lemma find_byte_split `{ByteSearchLaws} c s :
  find_byte c s = match split_at c s with Some (l, _) => Some (blen l) | None => None end.
Proof.
  destruct (split_at c s) as [[l r]|] eqn:E.
  - apply split_at_Some in E as [-> Hl]. by apply find_byte_hit.
  - apply split_at_None in E. by apply find_byte_miss.
Qed.

Lemma cut_split_at `{ByteSearchLaws} c s : cut c s = split_at c s.
Proof.
  unfold cut. rewrite find_byte_split. destruct (split_at c s) as [[l r]|] eqn:E; [|done].
  apply split_at_Some in E as [-> Hl]. cbn.
  assert (H1 : get_range (l ++ c :: r) 0 (blen l) = Some l) by apply (get_range_mid [] l (c :: r)).
  assert (H2 : get_range (l ++ c :: r) (blen l + 1) (blen (l ++ c :: r)) = Some r).
  { pose proof (get_range_end (l ++ [c]) r) as Hg. rewrite <- app_assoc in Hg.
    rewrite blen_app in Hg at 1. exact Hg. }
  by rewrite H1, H2.
Qed.

(** A found index is in range, and nothing before it matches. *)
Lemma find_byte_Some `{ByteSearchLaws} c s i :
  find_byte c s = Some i -> 0 <= i < blen s /\ Forall (fun b => b <> c) (slice s 0 i).
Proof.
  rewrite find_byte_split. destruct (split_at c s) as [[l r]|] eqn:E; [|discriminate].
  intros [= <-]. apply split_at_Some in E as [-> Hl]. rewrite blen_app, blen_cons.
  pose proof (blen_nonneg l). pose proof (blen_nonneg r). split; [lia|].
  unfold slice. rewrite Z.sub_0_r. change (Z.to_nat 0) with 0%nat. by rewrite drop_0, take_blen_app.
Qed.

(** No part of a list without [c] contains [c]. *)
Lemma slice_without {A} (P : A -> Prop) l a b c :
  0 <= a -> b <= c -> Forall P (slice l 0 c) -> Forall P (slice l a b).
Proof.
  intros Ha Hb Hl. destruct (Z_le_gt_dec b a) as [Hba|Hba]; [rewrite slice_empty by lia; constructor|].
  rewrite (slice_split l 0 b c), (slice_split l 0 a b) in Hl by lia.
  apply Forall_app in Hl as [Hl _]. by apply Forall_app in Hl as [_ Hl].
Qed.

(** * Prefixes and lines *)

(** [<[u8]>::strip_prefix] and [starts_with]. *)
Definition strip_prefix (p s : bytes) : option bytes :=
  if bool_decide (take (length p) s = p) then Some (drop (length p) s) else None.

Definition starts_with (p s : bytes) : bool := bool_decide (take (length p) s = p).

Lemma strip_prefix_app p s : strip_prefix p (p ++ s) = Some s.
Proof. unfold strip_prefix. rewrite take_app_length, bool_decide_true by done. by rewrite drop_app_length. Qed.

Lemma strip_prefix_Some p s r : strip_prefix p s = Some r -> s = p ++ r.
Proof.
  unfold strip_prefix. case_bool_decide as E; [|discriminate]. intros [= <-].
  rewrite <- E at 1. by rewrite take_drop.
Qed.

Lemma starts_with_app p s : starts_with p (p ++ s) = true.
Proof. unfold starts_with. by rewrite take_app_length, bool_decide_true. Qed.

(** A line that starts with another word of the same length or longer. *)
Lemma strip_prefix_other p q s :
  (length p <= length q)%nat -> take (length p) q <> p -> strip_prefix p (q ++ s) = None.
Proof. intros Hl Hne. unfold strip_prefix. rewrite take_app_le by done. by rewrite bool_decide_false. Qed.

(** A string that differs from the prefix within its first [n] bytes. *)
Lemma strip_prefix_differs n p s :
  (n <= length p)%nat -> take n s <> take n p -> strip_prefix p s = None.
Proof.
  intros Hn Hne. unfold strip_prefix. rewrite bool_decide_false; [done|]. intros E. apply Hne.
  rewrite <- E, take_take. f_equal. lia.
Qed.

(** [str::lines]: cut at line feeds, a carriage return before one is dropped, and a
    final line feed ends the last line. *)
Definition chomp_cr (s : bytes) : bytes :=
  match split_last s with
  | Some (front, 13) => front
  | _ => s
  end.

Fixpoint lines_loop (cur s : bytes) : list bytes :=
  match s with
  | [] => if bool_decide (cur = []) then [] else [cur]
  | b :: s => if b =? 10 then chomp_cr cur :: lines_loop [] s else lines_loop (cur ++ [b]) s
  end.

Definition str_lines (s : bytes) : list bytes := lines_loop [] s.

(** [str::contains]. *)
Fixpoint contains (p s : bytes) : bool :=
  starts_with p s || match s with [] => false | _ :: s => contains p s end.

(** The index of the first occurrence of [p] in [s]. *)
Fixpoint find_first (p s : bytes) : option Z :=
  if starts_with p s then Some 0
  else match s with
       | [] => None
       | _ :: s => i ← find_first p s; Some (1 + i)
       end.

(** bstr's [find] and [lines] on byte strings, by their documentation: the first
    occurrence of the needle; the lines as [str::lines] cuts them. *)
Class BstrCrate := {
  bstr_find : bytes -> bytes -> option Z;
  bstr_lines : bytes -> list bytes
}.

Class BstrLaws `{BstrCrate} : Prop := {
  bstr_find_spec : forall p s, bstr_find p s = find_first p s;
  bstr_lines_spec : forall s, bstr_lines s = str_lines s
}.

Definition bstr_reference : BstrCrate := {| bstr_find := find_first; bstr_lines := str_lines |}.

Lemma bstr_reference_laws : @BstrLaws bstr_reference.
Proof. done. Qed.

(** A blank line is not found inside a line, nor at the end of a line that another
    one follows. *)
Lemma find_blank_line l s :
  Forall (fun b => b <> 10) l ->
  find_first [10; 10] (l ++ s) = (i ← find_first [10; 10] s; Some (blen l + i)).
Proof.
  induction 1 as [|b l Hb _ IH]; [cbn; by destruct (find_first [10; 10] s)|].
  cbn [app find_first]. unfold starts_with at 1. rewrite bool_decide_false by (cbn; congruence).
  rewrite IH. destruct (find_first [10; 10] s); cbn; [|done]. rewrite blen_cons. f_equal. lia.
Qed.

Lemma find_blank_next x s :
  x <> 10 -> find_first [10; 10] (10 :: x :: s) = (i ← find_first [10; 10] (x :: s); Some (1 + i)).
Proof.
  intros Hx. remember (x :: s) as t. cbn [find_first]. subst t. unfold starts_with at 1.
  rewrite bool_decide_false by (cbn; congruence). done.
Qed.

Lemma lines_loop_line cur l s :
  Forall (fun b => b <> 10) l -> lines_loop cur (l ++ 10 :: s) = chomp_cr (cur ++ l) :: lines_loop [] s.
Proof.
  intros Hl. revert cur. induction Hl as [|b l Hb _ IH]; intros cur; cbn [app lines_loop].
  - by rewrite app_nil_r.
  - rewrite (proj2 (Z.eqb_neq b 10)) by done. rewrite IH, <- app_assoc. done.
Qed.

Lemma lines_loop_last cur l :
  Forall (fun b => b <> 10) l -> cur ++ l <> [] -> lines_loop cur l = [cur ++ l].
Proof.
  intros Hl. revert cur. induction Hl as [|b l Hb _ IH]; intros cur Hne; cbn [lines_loop].
  - rewrite app_nil_r in *. by rewrite bool_decide_false.
  - rewrite (proj2 (Z.eqb_neq b 10)) by done. rewrite IH; [by rewrite <- app_assoc|].
    by rewrite <- app_assoc.
Qed.

Lemma chomp_cr_plain s : (forall f, s <> f ++ [13]) -> chomp_cr s = s.
Proof.
  intros Hs. unfold chomp_cr. destruct (split_last s) as [[f c]|] eqn:E; [|done].
  apply split_last_Some in E. subst s. specialize (Hs f).
  destruct c as [|c|c]; try done. do 4 (destruct c; try done).
Qed.

(** A non-empty list that ends otherwise. *)
Lemma not_ends_with (s : bytes) f c d : s = f ++ [c] -> c <> d -> forall g, s <> g ++ [d].
Proof. intros -> Hne g Hg. apply app_inj_tail in Hg as [_ ?]. done. Qed.

Lemma all_not_ends (s : bytes) d : Forall (fun b => b <> d) s -> forall g, s <> g ++ [d].
Proof. intros Hs g ->. apply Forall_app in Hs as [_ Hs]. by apply Forall_cons_1 in Hs as [? _]. Qed.
