(* ===== verification/Errors.v ===== *)
(** The crate's error type, [src/errors.rs].  Messages are the UTF-8 bytes the
    source formats; an [std::io::Error] is the model's [IoError]. *)

From Stdlib Require Import ZArith String.
From stdpp Require Import base list.
From S2P Require Import Prelude Stream Text.

Inductive GitError : Type :=
| InvalidObjectType (msg : bytes)
| InvalidBlobObject (msg : bytes)
| InvalidTreeObject
| InvalidTreeItem (msg : bytes)
| EmptyTreeItems (msg : bytes)
| InvalidSignatureType (msg : bytes)
| InvalidCommitObject
| InvalidCommit (msg : bytes)
| InvalidTagObject (msg : bytes)
| InvalidNoteObject (msg : bytes)
| InvalidContextSnapshotObject (msg : bytes)
| InvalidDecisionObject (msg : bytes)
| InvalidEvidenceObject (msg : bytes)
| InvalidPatchSetObject (msg : bytes)
| InvalidPlanObject (msg : bytes)
| InvalidProvenanceObject (msg : bytes)
| InvalidRunObject (msg : bytes)
| InvalidTaskObject (msg : bytes)
| InvalidIntentObject (msg : bytes)
| InvalidToolInvocationObject (msg : bytes)
| InvalidContextFrameObject (msg : bytes)
| InvalidIdxFile (msg : bytes)
| InvalidPackFile (msg : bytes)
| InvalidPackHeader (msg : bytes)
| InvalidIndexFile (msg : bytes)
| InvalidIndexHeader (msg : bytes)
| InvalidArgument (msg : bytes)
| IOError (e : IoError)
| InvalidHashValue (msg : bytes)
| DeltaObjectError (msg : bytes)
| UnCompletedPackObject (msg : bytes)
| InvalidObjectInfo (msg : bytes)
| NotFoundHashValue (msg : bytes)
| EncodeObjectError (msg : bytes)
| ConversionError (msg : bytes)
| InvalidPathError (msg : bytes)
| PackEncodeError (msg : bytes)
| ObjectNotFound (msg : bytes)
| RepoNotFound
| UnAuthorized (msg : bytes)
| NetworkError (msg : bytes)
| CustomError (msg : bytes).

(** [Display], generated by thiserror; the text of an I/O error is an argument. *)
Definition GitError_fmt (io_text : IoError -> bytes) (err : GitError) : bytes :=
  match err with
  | InvalidObjectType m => str "The `" ++ m ++ str "` is not a valid git object type."
  | InvalidBlobObject m => str "The `" ++ m ++ str "` is not a valid git blob object."
  | InvalidTreeObject => str "Not a valid git tree object."
  | InvalidTreeItem m => str "The `" ++ m ++ str "` is not a valid git tree item."
  | EmptyTreeItems m => str "`" ++ m ++ str "`."
  | InvalidSignatureType m => str "The `" ++ m ++ str "` is not a valid git commit signature."
  | InvalidCommitObject => str "Not a valid git commit object."
  | InvalidCommit m => str "Invalid Commit: " ++ m
  | InvalidTagObject m => str "Not a valid git tag object: " ++ m
  | InvalidNoteObject m => str "Not a valid git note object: " ++ m
  | InvalidContextSnapshotObject m => str "Not a valid agent context snapshot object: " ++ m
  | InvalidDecisionObject m => str "Not a valid agent decision object: " ++ m
  | InvalidEvidenceObject m => str "Not a valid agent evidence object: " ++ m
  | InvalidPatchSetObject m => str "Not a valid agent patch set object: " ++ m
  | InvalidPlanObject m => str "Not a valid agent plan object: " ++ m
  | InvalidProvenanceObject m => str "Not a valid agent provenance object: " ++ m
  | InvalidRunObject m => str "Not a valid agent run object: " ++ m
  | InvalidTaskObject m => str "Not a valid agent task object: " ++ m
  | InvalidIntentObject m => str "Not a valid agent intent object: " ++ m
  | InvalidToolInvocationObject m => str "Not a valid agent tool invocation object: " ++ m
  | InvalidContextFrameObject m => str "Not a valid agent context frame object: " ++ m
  | InvalidIdxFile m => str "The `" ++ m ++ str "` is not a valid idx file."
  | InvalidPackFile m => str "The `" ++ m ++ str "` is not a valid pack file."
  | InvalidPackHeader m => str "The `" ++ m ++ str "` is not a valid pack header."
  | InvalidIndexFile m => str "The `" ++ m ++ str "` is not a valid index file."
  | InvalidIndexHeader m => str "The `" ++ m ++ str "` is not a valid index header."
  | InvalidArgument m => str "Argument parse failed: " ++ m
  | IOError e => str "IO Error: " ++ io_text e
  | InvalidHashValue m => str "The " ++ m ++ str " is not a valid Hash value "
  | DeltaObjectError m => str "Delta Object Error Info:" ++ m
  | UnCompletedPackObject m => str "The object to be packed is incomplete ," ++ m
  | InvalidObjectInfo m => str "Error decode in the Object ,info:" ++ m
  | NotFoundHashValue m => str "Cannot find Hash value: " ++ m ++ str " from current file"
  | EncodeObjectError m => str "Can't encode the object which id [" ++ m ++ str "] to bytes"
  | ConversionError m => str "UTF-8 conversion error: " ++ m
  | InvalidPathError m => str "Can't find parent tree by path: " ++ m
  | PackEncodeError m => str "Can't encode entries to pack: " ++ m
  | ObjectNotFound m => str "Can't find specific object: " ++ m
  | RepoNotFound => str "Repository not found"
  | UnAuthorized m => str "UnAuthorized: " ++ m
  | NetworkError m => str "Network Error: " ++ m
  | CustomError m => m
  end.
