(* ===== verification/ObjectTypes.v ===== *)
(** Object kinds, [src/internal/object/types.rs]: [ObjectType] with its five
    identifier spaces (pack type bits, byte labels, names, owned labels, internal
    numbers), [ActorKind], [ActorRef], [ArtifactRef] and the [Header] of the AI
    objects.  A [Uuid] and a timestamp are values the header is given; they stand
    for [Uuid::now_v7()] and [Utc::now()]. *)

From Stdlib Require Import ZArith Lia String.
From stdpp Require Import base tactics list numbers option.
From S2P Require Import Prelude Stream Text Errors.

Module ObjectType.

Inductive t : Type :=
| Commit
| Tree
| Blob
| Tag
| OffsetZstdelta
| OffsetDelta
| HashDelta
| ContextSnapshot
| Decision
| Evidence
| PatchSet
| Plan
| Provenance
| Run
| Task
| Intent
| ToolInvocation
| ContextFrame
| IntentEvent
| TaskEvent
| RunEvent
| PlanStepEvent
| RunUsage.

#[global] Instance eq_dec : EqDecision t.
Proof. solve_decision. Defined.

Definition COMMIT_OBJECT_TYPE : bytes := str "commit".
Definition TREE_OBJECT_TYPE : bytes := str "tree".
Definition BLOB_OBJECT_TYPE : bytes := str "blob".
Definition TAG_OBJECT_TYPE : bytes := str "tag".
Definition CONTEXT_SNAPSHOT_OBJECT_TYPE : bytes := str "snapshot".
Definition DECISION_OBJECT_TYPE : bytes := str "decision".
Definition EVIDENCE_OBJECT_TYPE : bytes := str "evidence".
Definition PATCH_SET_OBJECT_TYPE : bytes := str "patchset".
Definition PLAN_OBJECT_TYPE : bytes := str "plan".
Definition PROVENANCE_OBJECT_TYPE : bytes := str "provenance".
Definition RUN_OBJECT_TYPE : bytes := str "run".
Definition TASK_OBJECT_TYPE : bytes := str "task".
Definition INTENT_OBJECT_TYPE : bytes := str "intent".
Definition TOOL_INVOCATION_OBJECT_TYPE : bytes := str "invocation".
Definition CONTEXT_FRAME_OBJECT_TYPE : bytes := str "context_frame".
Definition INTENT_EVENT_OBJECT_TYPE : bytes := str "intent_event".
Definition TASK_EVENT_OBJECT_TYPE : bytes := str "task_event".
Definition RUN_EVENT_OBJECT_TYPE : bytes := str "run_event".
Definition PLAN_STEP_EVENT_OBJECT_TYPE : bytes := str "plan_step_event".
Definition RUN_USAGE_OBJECT_TYPE : bytes := str "run_usage".

(** [Display]. *)
Definition fmt (x : t) : bytes :=
  match x with
  | Blob => str "blob"
  | Tree => str "tree"
  | Commit => str "commit"
  | Tag => str "tag"
  | OffsetZstdelta => str "OffsetZstdelta"
  | OffsetDelta => str "OffsetDelta"
  | HashDelta => str "HashDelta"
  | ContextSnapshot => str "snapshot"
  | Decision => str "decision"
  | Evidence => str "evidence"
  | PatchSet => str "patchset"
  | Plan => str "plan"
  | Provenance => str "provenance"
  | Run => str "run"
  | Task => str "task"
  | Intent => str "intent"
  | ToolInvocation => str "invocation"
  | ContextFrame => str "context_frame"
  | IntentEvent => str "intent_event"
  | TaskEvent => str "task_event"
  | RunEvent => str "run_event"
  | PlanStepEvent => str "plan_step_event"
  | RunUsage => str "run_usage"
  end.

Definition to_pack_type_u8 (x : t) : Res GitError Z :=
  match x with
  | Commit => Ok 1
  | Tree => Ok 2
  | Blob => Ok 3
  | Tag => Ok 4
  | OffsetZstdelta => Ok 5
  | OffsetDelta => Ok 6
  | HashDelta => Ok 7
  | _ => Err (PackEncodeError (str "object type `" ++ fmt x
                                ++ str "` cannot be encoded in pack header type bits"))
  end.

Definition from_pack_type_u8 (number : Z) : Res GitError t :=
  match number with
  | 1 => Ok Commit
  | 2 => Ok Tree
  | 3 => Ok Blob
  | 4 => Ok Tag
  | 5 => Ok OffsetZstdelta
  | 6 => Ok OffsetDelta
  | 7 => Ok HashDelta
  | _ => Err (InvalidObjectType (str "Invalid pack object type number: " ++ show_dec number))
  end.

Definition to_bytes (x : t) : option bytes :=
  match x with
  | Commit => Some COMMIT_OBJECT_TYPE
  | Tree => Some TREE_OBJECT_TYPE
  | Blob => Some BLOB_OBJECT_TYPE
  | Tag => Some TAG_OBJECT_TYPE
  | ContextSnapshot => Some CONTEXT_SNAPSHOT_OBJECT_TYPE
  | Decision => Some DECISION_OBJECT_TYPE
  | Evidence => Some EVIDENCE_OBJECT_TYPE
  | PatchSet => Some PATCH_SET_OBJECT_TYPE
  | Plan => Some PLAN_OBJECT_TYPE
  | Provenance => Some PROVENANCE_OBJECT_TYPE
  | Run => Some RUN_OBJECT_TYPE
  | Task => Some TASK_OBJECT_TYPE
  | Intent => Some INTENT_OBJECT_TYPE
  | ToolInvocation => Some TOOL_INVOCATION_OBJECT_TYPE
  | ContextFrame => Some CONTEXT_FRAME_OBJECT_TYPE
  | IntentEvent => Some INTENT_EVENT_OBJECT_TYPE
  | TaskEvent => Some TASK_EVENT_OBJECT_TYPE
  | RunEvent => Some RUN_EVENT_OBJECT_TYPE
  | PlanStepEvent => Some PLAN_STEP_EVENT_OBJECT_TYPE
  | RunUsage => Some RUN_USAGE_OBJECT_TYPE
  | OffsetDelta | HashDelta | OffsetZstdelta => None
  end.

(** The source matches on the string; the arms are tried in order. *)
Definition from_string_arms : list (bytes * t) :=
  [(str "blob", Blob);
   (str "tree", Tree);
   (str "commit", Commit);
   (str "tag", Tag);
   (str "snapshot", ContextSnapshot);
   (str "decision", Decision);
   (str "evidence", Evidence);
   (str "patchset", PatchSet);
   (str "plan", Plan);
   (str "provenance", Provenance);
   (str "run", Run);
   (str "task", Task);
   (str "intent", Intent);
   (str "invocation", ToolInvocation);
   (str "context_frame", ContextFrame);
   (str "intent_event", IntentEvent);
   (str "task_event", TaskEvent);
   (str "run_event", RunEvent);
   (str "plan_step_event", PlanStepEvent);
   (str "run_usage", RunUsage)].

Fixpoint match_str (s : bytes) (arms : list (bytes * t)) : option t :=
  match arms with
  | [] => None
  | (k, v) :: arms => if bool_decide (s = k) then Some v else match_str s arms
  end.

Definition from_string (s : bytes) : Res GitError t :=
  match match_str s from_string_arms with
  | Some x => Ok x
  | None => Err (InvalidObjectType s)
  end.

Definition to_data (x : t) : Res GitError bytes :=
  match x with
  | Blob => Ok (str "blob")
  | Tree => Ok (str "tree")
  | Commit => Ok (str "commit")
  | Tag => Ok (str "tag")
  | ContextSnapshot => Ok (str "snapshot")
  | Decision => Ok (str "decision")
  | Evidence => Ok (str "evidence")
  | PatchSet => Ok (str "patchset")
  | Plan => Ok (str "plan")
  | Provenance => Ok (str "provenance")
  | Run => Ok (str "run")
  | Task => Ok (str "task")
  | Intent => Ok (str "intent")
  | ToolInvocation => Ok (str "invocation")
  | ContextFrame => Ok (str "context_frame")
  | IntentEvent => Ok (str "intent_event")
  | TaskEvent => Ok (str "task_event")
  | RunEvent => Ok (str "run_event")
  | PlanStepEvent => Ok (str "plan_step_event")
  | RunUsage => Ok (str "run_usage")
  | _ => Err (InvalidObjectType (fmt x))
  end.

Definition to_u8 (x : t) : Z :=
  match x with
  | Commit => 1
  | Tree => 2
  | Blob => 3
  | Tag => 4
  | OffsetZstdelta => 5
  | OffsetDelta => 6
  | HashDelta => 7
  | ContextSnapshot => 8
  | Decision => 9
  | Evidence => 10
  | PatchSet => 11
  | Plan => 12
  | Provenance => 13
  | Run => 14
  | Task => 15
  | Intent => 16
  | ToolInvocation => 17
  | ContextFrame => 18
  | IntentEvent => 19
  | TaskEvent => 20
  | RunEvent => 21
  | PlanStepEvent => 22
  | RunUsage => 23
  end.

Definition from_u8 (number : Z) : Res GitError t :=
  match number with
  | 1 => Ok Commit
  | 2 => Ok Tree
  | 3 => Ok Blob
  | 4 => Ok Tag
  | 5 => Ok OffsetZstdelta
  | 6 => Ok OffsetDelta
  | 7 => Ok HashDelta
  | 8 => Ok ContextSnapshot
  | 9 => Ok Decision
  | 10 => Ok Evidence
  | 11 => Ok PatchSet
  | 12 => Ok Plan
  | 13 => Ok Provenance
  | 14 => Ok Run
  | 15 => Ok Task
  | 16 => Ok Intent
  | 17 => Ok ToolInvocation
  | 18 => Ok ContextFrame
  | 19 => Ok IntentEvent
  | 20 => Ok TaskEvent
  | 21 => Ok RunEvent
  | 22 => Ok PlanStepEvent
  | 23 => Ok RunUsage
  | _ => Err (InvalidObjectType (str "Invalid object type number: " ++ show_dec number))
  end.

Definition is_base (x : t) : bool :=
  match x with Commit | Tree | Blob | Tag => true | _ => false end.

Definition is_ai_object (x : t) : bool :=
  match x with
  | ContextSnapshot | Decision | Evidence | PatchSet | Plan | Provenance | Run | Task
  | Intent | ToolInvocation | ContextFrame | IntentEvent | TaskEvent | RunEvent | PlanStepEvent | RunUsage => true
  | _ => false
  end.

Lemma match_str_Some s arms x : match_str s arms = Some x -> In (s, x) arms.
Proof.
  induction arms as [|[k v] arms IH]; [done|]. cbn. destruct (bool_decide (s = k)) eqn:E; [|auto].
  apply bool_decide_eq_true in E as ->. intros [= ->]. by left.
Qed.

End ObjectType.

Module ActorKind.

Inductive t : Type :=
| Human
| Agent
| System
| McpClient
| Other (label : bytes).

#[global] Instance eq_dec : EqDecision t.
Proof. solve_decision. Defined.

(** [Display]. *)
Definition fmt (x : t) : bytes :=
  match x with
  | Human => str "human"
  | Agent => str "agent"
  | System => str "system"
  | McpClient => str "mcp_client"
  | Other s => s
  end.

(** [From<String>] and [From<&str>], the same match. *)
Definition from (s : bytes) : t :=
  if bool_decide (s = str "human") then Human
  else if bool_decide (s = str "agent") then Agent
  else if bool_decide (s = str "system") then System
  else if bool_decide (s = str "mcp_client") then McpClient
  else Other s.

End ActorKind.

Module ActorRef.

Record t : Type := mk { kind : ActorKind.t; id : bytes; display_name : option bytes }.

Definition new (kind : ActorKind.t) (id : bytes) : Res bytes t :=
  if trim_is_empty id then Err (str "actor id cannot be empty") else Ok (mk kind id None).

Definition human (id : bytes) : Res bytes t := new ActorKind.Human id.
Definition agent (id : bytes) : Res bytes t := new ActorKind.Agent id.
Definition system (id : bytes) : Res bytes t := new ActorKind.System id.
Definition mcp_client (id : bytes) : Res bytes t := new ActorKind.McpClient id.

Definition set_display_name (a : t) (display_name : option bytes) : t :=
  mk (kind a) (id a) display_name.

End ActorRef.

Module ArtifactRef.

Record t : Type := mk { store : bytes; key : bytes }.

Definition new (store key : bytes) : Res bytes t :=
  if trim_is_empty store then Err (str "artifact store cannot be empty")
  else if trim_is_empty key then Err (str "artifact key cannot be empty")
  else Ok (mk store key).

End ArtifactRef.

Definition CURRENT_HEADER_VERSION : Z := 1.

Module Header.

Record t : Type := mk {
  object_id : Z;
  object_type : ObjectType.t;
  version : Z;
  created_at : Z;
  created_by : ActorRef.t
}.

(** [uuid] and [now] are the values of [Uuid::now_v7()] and [Utc::now()]. *)
Definition new (uuid now : Z) (object_type : ObjectType.t) (created_by : ActorRef.t) : Res bytes t :=
  Ok (mk uuid object_type CURRENT_HEADER_VERSION now created_by).

Definition set_version (h : t) (version : Z) : Res bytes t :=
  if version =? 0 then Err (str "header version must be non-zero")
  else Ok (mk (object_id h) (object_type h) version (created_at h) (created_by h)).

End Header.

(** * Identifier spaces *)

Import ObjectType.

Lemma to_bytes_named x : is_base x = true \/ is_ai_object x = true <-> is_Some (to_bytes x).
Proof.
  destruct x; cbn; (split; [intros [H|H]; try discriminate H; by eexists|]);
    intros [? H]; try discriminate H; auto.
Qed.

(** the numeric, textual and pack-header encodings of object types are
    injective and their parsers are exact inverses: a parser accepts a code
    exactly when some type has that code, and returns this type.  Pack codes
    exist for the seven Git types only, names for all but the three delta kinds,
    numbers for all. *)
Theorem object_type_codes (x : ObjectType.t) (n : Z) (s : bytes) :
  (from_u8 n = Ok x <-> to_u8 x = n)
  /\ (from_pack_type_u8 n = Ok x <-> to_pack_type_u8 x = Ok n)
  /\ (from_string s = Ok x <-> to_bytes x = Some s)
  /\ (to_data x = Ok s <-> to_bytes x = Some s)
  /\ (is_ai_object x = true <-> exists m, to_u8 x = m /\ 7 < m)
  /\ (is_Some (to_bytes x) <-> is_base x = true \/ is_ai_object x = true).
Proof.
  split; [|split; [|split; [|split; [|split]]]].
  - split.
    + unfold from_u8. destruct n as [|p|p]; [done| |done].
      do 6 (try destruct p as [p|p|]); intros [= <-]; reflexivity.
    + intros <-. by destruct x.
  - split.
    + unfold from_pack_type_u8. destruct n as [|p|p]; [done| |done].
      do 4 (try destruct p as [p|p|]); intros [= <-]; reflexivity.
    + destruct x; intros [= <-]; reflexivity.
  - split.
    + unfold from_string. destruct (match_str s from_string_arms) as [y|] eqn:E; [|done].
      intros [= <-]. apply match_str_Some in E. cbn [In from_string_arms] in E.
      repeat (destruct E as [E|E]; [injection E as <- <-; reflexivity|]). done.
    + destruct x; intros [= <-]; vm_compute; reflexivity.
  - destruct x; (split; [intros [= <-]; reflexivity|intros [= <-]; reflexivity]).
  - destruct x; cbn; (split; [intros H; first [discriminate H|eexists; split; [reflexivity|lia]]
                             |intros (m & <- & H); first [lia|reflexivity]]).
  - symmetry. apply to_bytes_named.
Qed.

(** An actor kind survives printing and parsing, and a label survives
    parsing and printing, unless a custom kind carries the name of a built-in one;
    actor and artifact references are built exactly from non-blank identifiers. *)
Theorem actor_kind_labels (s key : bytes) (k : ActorKind.t) :
  ActorKind.fmt (ActorKind.from s) = s
  /\ (ActorKind.from (ActorKind.fmt k) = k
      <-> match k with ActorKind.Other l => ActorKind.from l = ActorKind.Other l | _ => True end)
  /\ ((exists a, ActorRef.new k s = Ok a /\ ActorRef.id a = s /\ ActorRef.kind a = k)
      <-> trim_is_empty s = false)
  /\ ((exists a, ArtifactRef.new s key = Ok a /\ ArtifactRef.store a = s /\ ArtifactRef.key a = key)
      <-> trim_is_empty s = false /\ trim_is_empty key = false).
Proof.
  split; [|split; [|split]].
  - unfold ActorKind.from. repeat case_bool_decide; by subst.
  - destruct k; cbn [ActorKind.fmt]; try (split; [done|intros _; vm_compute; reflexivity]). done.
  - unfold ActorRef.new. destruct (trim_is_empty s);
    [|split; [done|intros _; eexists; repeat split]].
    split; [intros (a & H & _); discriminate H|done].
  - unfold ArtifactRef.new. destruct (trim_is_empty s).
    { split; [intros (a & H & _); discriminate H|by intros [H _]]. }
    destruct (trim_is_empty key);
    [|split; [done|intros _; eexists; repeat split]].
    split; [intros (a & H & _); discriminate H|by intros [_ H]].
Qed.

(** A sequence of version updates; a rejected one leaves the header as it is. *)
Fixpoint set_versions (h : Header.t) (vs : list Z) : Header.t :=
  match vs with
  | [] => h
  | v :: vs => set_versions (match Header.set_version h v with Ok h' => h' | _ => h end) vs
  end.

(** A header's version is never zero and its identity never changes, whatever
    sequence of (possibly rejected) version updates follows its creation. *)
Lemma header_version_nonzero (uuid now : Z) (ty : ObjectType.t) (by_ : ActorRef.t) (vs : list Z) :
  exists h, Header.new uuid now ty by_ = Ok h
    /\ Header.version (set_versions h vs) <> 0
    /\ Header.object_id (set_versions h vs) = uuid
    /\ Header.object_type (set_versions h vs) = ty
    /\ Header.created_by (set_versions h vs) = by_.
Proof.
  eexists. split; [reflexivity|].
  assert (Hgen : forall h, Header.version h <> 0 -> Header.version (set_versions h vs) <> 0
    /\ Header.object_id (set_versions h vs) = Header.object_id h
    /\ Header.object_type (set_versions h vs) = Header.object_type h
    /\ Header.created_by (set_versions h vs) = Header.created_by h).
  { induction vs as [|v vs IH]; intros h Hh; [done|]. cbn [set_versions]. unfold Header.set_version.
    destruct (v =? 0) eqn:E; [by apply IH|].
    apply (IH (Header.mk (Header.object_id h) (Header.object_type h) v (Header.created_at h) (Header.created_by h))).
    cbn. lia. }
  by apply Hgen.
Qed.
