(* ===== verification/DeltaUtils.v ===== *)
(** Readers of the Git delta format, [src/delta/utils.rs]: the size varint and
    the partially present little-endian integers of copy instructions. *)

From Stdlib Require Import ZArith Lia String.
From stdpp Require Import base tactics list numbers option.
From S2P Require Import Prelude Stream.

Definition VAR_INT_ENCODING_BITS : Z := 7.
Definition VAR_INT_CONTINUE_FLAG : Z := Z.shiftl 1 VAR_INT_ENCODING_BITS.

(** [byte & !VAR_INT_CONTINUE_FLAG] (complement at width 8) and the flag test. *)
Definition split_var_int_byte (byte : Z) : Z * bool :=
  (Z.land byte (Z.lxor 255 VAR_INT_CONTINUE_FLAG),
   negb (Z.land byte VAR_INT_CONTINUE_FLAG =? 0)).

Definition read_var_int_byte (s : bytes) : Res IoError ((Z * bool) * bytes) :=
  let! '(byte, s) := read_u8 s in
  Ok (split_var_int_byte byte, s).

(** The loop of [read_size_encoding] with its two accumulators. *)
Fixpoint read_size_loop (value length : Z) (s : bytes) : Res IoError (Z * bytes) :=
  match s with
  | [] => Err UnexpectedEof
  | byte :: s =>
      let '(byte_value, more_bytes) := split_var_int_byte byte in
      if (usize_bits <=? length)
         || ((usize_bits <? length + VAR_INT_ENCODING_BITS)
             && (Z.shiftr usize_max length <? byte_value))
      then Err (InvalidData "delta size varint exceeds usize")
      else
        let value := Z.lor value (as_u64 (Z.shiftl byte_value length)) in
        if negb more_bytes then Ok (value, s)
        else read_size_loop value (length + VAR_INT_ENCODING_BITS) s
  end.

Definition read_size_encoding (s : bytes) : Res IoError (Z * bytes) :=
  read_size_loop 0 0 s.

(** The [for byte_index in 0..bytes] loop of [read_partial_int]; the result
    carries the shifted [present_bytes], which the caller passes by reference. *)
Fixpoint read_partial_loop (n : nat) (byte_index value present_bytes : Z) (s : bytes)
  : Res IoError ((Z * Z) * bytes) :=
  match n with
  | O => Ok ((value, present_bytes), s)
  | S n =>
      if negb (Z.land present_bytes 1 =? 0) then
        let! '(byte, s) := read_u8 s in
        let value := Z.lor value (Z.shiftl byte (byte_index * 8)) in
        read_partial_loop n (byte_index + 1) value (Z.shiftr present_bytes 1) s
      else
        read_partial_loop n (byte_index + 1) value (Z.shiftr present_bytes 1) s
  end.

Definition read_partial_int (n : nat) (present_bytes : Z) (s : bytes)
  : Res IoError ((Z * Z) * bytes) :=
  read_partial_loop n 0 0 present_bytes s.

(** The loop body is the one of the source: one call of [read_var_int_byte]. *)
Lemma read_size_loop_unfold value length s :
  read_size_loop value length s =
  let! '((byte_value, more_bytes), s) := read_var_int_byte s in
  if (usize_bits <=? length)
     || ((usize_bits <? length + VAR_INT_ENCODING_BITS)
         && (Z.shiftr usize_max length <? byte_value))
  then Err (InvalidData "delta size varint exceeds usize")
  else
    let value := Z.lor value (as_u64 (Z.shiftl byte_value length)) in
    if negb more_bytes then Ok (value, s)
    else read_size_loop value (length + VAR_INT_ENCODING_BITS) s.
Proof. destruct s; reflexivity. Qed.

Lemma split_var_int_byte_spec b :
  is_byte b -> split_var_int_byte b = (b mod 128, 128 <=? b).
Proof.
  intros Hb. unfold split_var_int_byte.
  change (Z.lxor 255 VAR_INT_CONTINUE_FLAG) with 127. change VAR_INT_CONTINUE_FLAG with 128.
  rewrite land_127, land_128_byte by done. unfold is_byte in Hb.
  f_equal. destruct (b <? 128) eqn:E; simpl; lia.
Qed.

Lemma read_size_loop_returns s value length : returns (read_size_loop value length s).
Proof.
  revert value length. induction s as [|b s IH]; intros value length; [exact I|].
  simpl. destruct (_ || _); [exact I|]. destruct (negb _); [exact I|apply IH].
Qed.

Lemma read_size_encoding_returns s : returns (read_size_encoding s).
Proof. apply read_size_loop_returns. Qed.

(** A successful read consumes at least one byte and never grows the stream. *)
Lemma read_size_loop_shrinks s value length v s' :
  read_size_loop value length s = Ok (v, s') -> blen s' < blen s.
Proof.
  revert value length. induction s as [|b s IH]; intros value length; [discriminate|].
  simpl. rewrite blen_cons. destruct (_ || _); [discriminate|].
  destruct (negb _).
  - intros [= _ <-]. lia.
  - intros H. apply IH in H. lia.
Qed.

Lemma read_size_loop_bytes s value length v s' :
  byte_list s -> read_size_loop value length s = Ok (v, s') -> byte_list s'.
Proof.
  revert value length. induction s as [|b s IH]; intros value length Hs; [discriminate|].
  apply Forall_cons_1 in Hs as [_ Hs]. cbn [read_size_loop].
  destruct (split_var_int_byte b) as [d more]. destruct (_ || _); [discriminate|].
  destruct (negb _); [intros [= _ <-]; done|]. by apply IH.
Qed.

(** Every size read is a [usize]. *)
Lemma read_size_loop_bound s value length v s' :
  0 <= value <= usize_max ->
  read_size_loop value length s = Ok (v, s') -> 0 <= v <= usize_max.
Proof.
  revert value length. induction s as [|b s IH]; intros value length Hval; [discriminate|].
  cbn [read_size_loop]. destruct (split_var_int_byte b) as [d more].
  destruct (_ || _); [discriminate|].
  assert (Hb : 0 <= Z.lor value (as_u64 (Z.shiftl d length)) <= usize_max).
  { assert (0 <= as_u64 (Z.shiftl d length) < 2 ^ 64) by (apply Z.mod_pos_bound; lia).
    pose proof (lor_bound value (as_u64 (Z.shiftl d length)) 64).
    unfold usize_max in *. lia. }
  destruct (negb _); [intros [= <- _]; done|]. by apply IH.
Qed.

Lemma read_partial_loop_returns n byte_index value present s :
  returns (read_partial_loop n byte_index value present s).
Proof.
  revert byte_index value present s. induction n as [|n IH]; intros; [exact I|].
  simpl. destruct (negb _); [|apply IH].
  apply returns_bind; auto with git. intros [b s'] _. apply IH.
Qed.

Lemma read_partial_loop_shrinks n byte_index value present s r s' :
  read_partial_loop n byte_index value present s = Ok (r, s') -> blen s' <= blen s.
Proof.
  revert byte_index value present s. induction n as [|n IH]; intros byte_index value present s; simpl.
  - intros [= _ <-]. lia.
  - destruct (negb _); [|apply IH].
    destruct s as [|b s]; simpl; [discriminate|].
    intros H. apply IH in H. rewrite blen_cons. lia.
Qed.

#[export] Hint Resolve read_size_encoding_returns read_partial_loop_returns : git.
#[global] Arguments split_var_int_byte : simpl never.
