(* ===== verification/DeltaFormat.v ===== *)
(** The Git delta instruction format.

    [write_varint] and [push_copy_op] are the writers of
    [src/delta/encode/rabin/mod.rs]; [Ins] is the abstract instruction set they
    encode and the decoder of [DeltaDecode] executes, with [ins_out] as its
    meaning.  The lemmas here are the byte-level contract between the two sides. *)

From Stdlib Require Import ZArith Lia String.
From stdpp Require Import base tactics list numbers option.
From S2P Require Import Prelude Stream DeltaUtils.

(** * Size varints *)

(** [while v >= 0x80 { push (v as u8) | 0x80; v >>= 7 } push v as u8].  A [usize]
    has 64 bits, so ten rounds of seven bits always suffice
    ([write_varint_unfold]). *)
Fixpoint write_varint_loop (fuel : nat) (v : Z) : bytes :=
  match fuel with
  | O => []
  | S fuel =>
      if 128 <=? v
      then Z.lor (as_u8 v) 128 :: write_varint_loop fuel (Z.shiftr v 7)
      else [as_u8 v]
  end.

Definition write_varint (n : Z) : bytes := write_varint_loop 10 n.

#[global] Arguments write_varint : simpl never.

Lemma lor_u8_128 v : Z.lor (as_u8 v) 128 = v mod 128 + 128.
Proof.
  unfold as_u8. change (2 ^ 8) with (128 * 2).
  rewrite Z.rem_mul_r by lia.
  pose proof (Z.mod_pos_bound v 128 eq_refl).
  pose proof (Z.mod_pos_bound (v / 128) 2 eq_refl) as Hb.
  assert (v / 128 mod 2 = 0 \/ v / 128 mod 2 = 1) as [-> | ->] by lia.
  - rewrite lor_128; lia.
  - rewrite Z.mul_1_r, <- lor_128, <- Z.lor_assoc by lia. reflexivity.
Qed.

(** [f + 1] rounds print every number of [f + 1] groups of seven bits. *)
Lemma write_varint_loop_enough (f f' : nat) v :
  0 <= v < 128 ^ (Z.of_nat f + 1) -> (f <= f')%nat ->
  write_varint_loop (S f) v = write_varint_loop (S f') v.
Proof.
  revert f' v. induction f as [|f IH]; intros f' v Hv Hf.
  - simpl. replace (128 <=? v) with false by lia. reflexivity.
  - destruct f' as [|f']; [lia|]. remember (S f) as g. simpl. subst g.
    destruct (128 <=? v) eqn:E; [|reflexivity]. f_equal. apply IH; [|lia].
    rewrite Z.shiftr_div_pow2 by lia. change (2 ^ 7) with 128. split.
    + apply Z.div_pos; lia.
    + apply Z.div_lt_upper_bound; [lia|]. rewrite <- Z.pow_succ_r by lia.
      replace (Z.succ (Z.of_nat f + 1)) with (Z.of_nat (S f) + 1) by lia. lia.
Qed.

(** The source's loop equation, for every [usize]. *)
Lemma write_varint_unfold v :
  0 <= v <= usize_max ->
  write_varint v =
  if 128 <=? v then Z.lor (as_u8 v) 128 :: write_varint (Z.shiftr v 7) else [as_u8 v].
Proof.
  unfold usize_max. intros Hv. unfold write_varint at 1.
  change 10%nat with (S 9). remember 9%nat as g eqn:Hg. simpl.
  destruct (128 <=? v) eqn:E; [|reflexivity]. f_equal. subst g.
  unfold write_varint. apply (write_varint_loop_enough 8 9); [|lia].
  rewrite Z.shiftr_div_pow2 by lia. split; [apply Z.div_pos; lia|].
  apply Z.div_lt_upper_bound; lia.
Qed.

Lemma write_varint_bytes v : byte_list (write_varint v).
Proof.
  unfold write_varint. generalize 10%nat as f. intros f. revert v.
  induction f as [|f IH]; intros v; simpl; [constructor|].
  destruct (128 <=? v); apply Forall_cons_2; try apply IH; try apply Forall_nil_2.
  - rewrite lor_u8_128. pose proof (Z.mod_pos_bound v 128 eq_refl). unfold is_byte; lia.
  - apply mod_byte.
Qed.

Lemma write_varint_nonempty v : write_varint v <> [].
Proof. unfold write_varint. generalize 9%nat. intros f. simpl. by destruct (128 <=? v). Qed.

(** [read_size_encoding] inverts [write_varint], with any bytes after it. *)
Lemma read_size_loop_write_varint v value length rest :
  0 <= v -> 0 <= length -> 0 <= value < 2 ^ length ->
  value + v * 2 ^ length <= usize_max -> (v = 0 -> length < usize_bits) ->
  read_size_loop value length (write_varint v ++ rest) = Ok (value + v * 2 ^ length, rest).
Proof.
  revert value length. induction v as [v IH] using (well_founded_induction (Z.lt_wf 0)).
  intros value length Hv Hlen Hval Hmax Hz.
  assert (Hpow : 0 < 2 ^ length) by lia.
  assert (Hlt : length < 64).
  { destruct (Z.eq_dec v 0) as [->|]; [apply Hz; done|].
    apply (Z.pow_lt_mono_r_iff 2); unfold usize_max in *; nia. }
  assert (Hvmax : v <= usize_max) by nia.
  rewrite write_varint_unfold by lia.
  assert (Hstep : forall d, 0 <= d < 128 -> value + d * 2 ^ length <= usize_max ->
    ((usize_bits <=? length) || ((usize_bits <? length + VAR_INT_ENCODING_BITS)
       && (Z.shiftr usize_max length <? d))) = false
    /\ Z.lor value (as_u64 (Z.shiftl d length)) = value + d * 2 ^ length).
  { intros d Hd Hm. split.
    - unfold usize_bits. replace (64 <=? length) with false by lia. simpl.
      rewrite andb_false_iff. right. rewrite Z.shiftr_div_pow2 by lia.
      apply Z.ltb_ge, Z.div_le_lower_bound; lia.
    - unfold as_u64. rewrite Z.mod_small.
      + apply lor_shiftl_add; lia.
      + rewrite Z.shiftl_mul_pow2 by lia. unfold usize_max in *. nia. }
  destruct (128 <=? v) eqn:E.
  - rewrite lor_u8_128.
    pose proof (Z.mod_pos_bound v 128 eq_refl) as Hm.
    pose proof (Z.div_mod v 128 ltac:(lia)) as Hdm.
    pose proof (Z.div_le_lower_bound v 128 1 ltac:(lia) ltac:(lia)) as Hd1.
    cbn [app read_size_loop]. rewrite split_var_int_byte_spec by (unfold is_byte; lia).
    replace ((v mod 128 + 128) mod 128) with (v mod 128).
    2:{ rewrite <- Zplus_mod_idemp_r, Z.mod_same, Z.add_0_r, Z.mod_mod by lia. done. }
    replace (128 <=? v mod 128 + 128) with true by lia.
    destruct (Hstep (v mod 128)) as [-> ->]; [lia|nia|]. simpl negb. cbv iota.
    rewrite Z.shiftr_div_pow2 by lia. change (2 ^ 7) with 128.
    unfold VAR_INT_ENCODING_BITS.
    assert (Hp : 2 ^ (length + 7) = 2 ^ length * 128) by (rewrite Z.pow_add_r by lia; done).
    rewrite IH; [| | |lia| |rewrite Hp; nia|intros; lia].
    + do 2 f_equal. rewrite Hp. nia.
    + split; [lia|]. apply Z.div_lt; lia.
    + lia.
    + rewrite Hp. nia.
  - unfold as_u8. rewrite Z.mod_small by lia. cbn [app read_size_loop].
    rewrite split_var_int_byte_spec by (unfold is_byte; lia).
    rewrite Z.mod_small by lia. rewrite E.
    destruct (Hstep v) as [-> ->]; [lia|done|]. reflexivity.
Qed.

Lemma read_size_write_varint v rest :
  0 <= v <= usize_max -> read_size_encoding (write_varint v ++ rest) = Ok (v, rest).
Proof.
  intros Hv. unfold read_size_encoding.
  rewrite read_size_loop_write_varint; unfold usize_bits; try lia.
  do 2 f_equal. lia.
Qed.

(** * Copy opcodes *)

(** One of the two loops of [push_copy_op]: the low [n] bytes of [v], skipping
    zero bytes and setting one bit of [cmd] per byte kept. *)
Fixpoint push_field (n : nat) (bit v cmd : Z) (extra : bytes) : Z * bytes :=
  match n with
  | O => (cmd, extra)
  | S n =>
      let b := as_u8 (Z.land v 255) in
      let v := Z.shiftr v 8 in
      if negb (b =? 0)
      then push_field n (bit + 1) v (Z.lor cmd (Z.shiftl 1 bit)) (extra ++ [b])
      else push_field n (bit + 1) v cmd extra
  end.

Definition push_copy_op (out : bytes) (offset size : Z) : bytes :=
  let '(cmd, extra) := push_field 4 0 offset 128 [] in
  let '(cmd, extra) := push_field 3 4 size cmd extra in
  (out ++ [cmd]) ++ extra.

(** The presence flags and the present bytes of a field, as functions of [v]. *)
Fixpoint field_flags (n : nat) (v : Z) : Z :=
  match n with
  | O => 0
  | S n => Z.lor (if v mod 256 =? 0 then 0 else 1) (Z.shiftl (field_flags n (v / 256)) 1)
  end.

Fixpoint field_bytes (n : nat) (v : Z) : bytes :=
  match n with
  | O => []
  | S n => (if v mod 256 =? 0 then [] else [v mod 256]) ++ field_bytes n (v / 256)
  end.

Lemma push_field_spec n bit v cmd extra :
  0 <= bit ->
  push_field n bit v cmd extra =
  (Z.lor cmd (Z.shiftl (field_flags n v) bit), extra ++ field_bytes n v).
Proof.
  revert bit v cmd extra. induction n as [|n IH]; intros bit v cmd extra Hbit.
  - cbn. rewrite Z.shiftl_0_l, Z.lor_0_r, app_nil_r. reflexivity.
  - cbn [push_field field_flags field_bytes].
    unfold as_u8. rewrite land_255, Z.mod_mod by lia.
    rewrite Z.shiftr_div_pow2 by lia. change (2 ^ 8) with 256.
    rewrite Z.shiftl_lor, Z.shiftl_shiftl by lia. rewrite (Z.add_comm 1 bit).
    destruct (v mod 256 =? 0); cbn [negb app]; rewrite IH by lia.
    + rewrite Z.shiftl_0_l, Z.lor_0_l. reflexivity.
    + rewrite <- Z.lor_assoc, <- app_assoc. reflexivity.
Qed.

(** The bytes [push_copy_op] appends. *)
Definition copy_cmd (offset size : Z) : Z :=
  Z.lor (field_flags 4 offset) (Z.shiftl (Z.lor (field_flags 3 size) (Z.shiftl 1 3)) 4).

Definition copy_bytes (offset size : Z) : bytes :=
  copy_cmd offset size :: field_bytes 4 offset ++ field_bytes 3 size.

Lemma push_copy_op_spec out offset size :
  push_copy_op out offset size = out ++ copy_bytes offset size.
Proof.
  unfold push_copy_op. rewrite !push_field_spec by lia. cbn beta iota.
  rewrite app_nil_l, <- app_assoc. cbn [app]. unfold copy_bytes, copy_cmd.
  f_equal. f_equal. rewrite Z.shiftl_0_r, Z.shiftl_lor, Z.shiftl_shiftl by lia.
  change (Z.shiftl 1 (3 + 4)) with 128.
  rewrite (Z.lor_comm 128), <- !Z.lor_assoc. f_equal. apply Z.lor_comm.
Qed.

Lemma field_flags_bound n v : 0 <= field_flags n v < 2 ^ Z.of_nat n.
Proof.
  revert v. induction n as [|n IH]; intros v; cbn [field_flags]; [done|].
  specialize (IH (v / 256)).
  rewrite Nat2Z.inj_succ, Z.pow_succ_r by lia.
  rewrite lor_shiftl_add by (destruct (v mod 256 =? 0); lia).
  change (2 ^ 1) with 2. destruct (v mod 256 =? 0); lia.
Qed.

Lemma copy_cmd_bound offset size : 128 <= copy_cmd offset size < 256.
Proof.
  unfold copy_cmd.
  pose proof (field_flags_bound 4 offset). pose proof (field_flags_bound 3 size).
  rewrite lor_shiftl_add by lia. rewrite lor_shiftl_add by lia. lia.
Qed.

(** [read_partial_int] reads back a field, given its flags in the low bits. *)
Lemma read_partial_field n i value v hi rest :
  0 <= i -> 0 <= value < 2 ^ (i * 8) ->
  read_partial_loop n i value (Z.lor (field_flags n v) (Z.shiftl hi (Z.of_nat n)))
    (field_bytes n v ++ rest)
  = Ok ((value + (v mod 256 ^ Z.of_nat n) * 2 ^ (i * 8), hi), rest).
Proof.
  revert i value v. induction n as [|n IH]; intros i value v Hi Hval.
  - cbn [read_partial_loop field_flags field_bytes]. change (256 ^ Z.of_nat 0) with 1.
    rewrite Z.mod_1_r, Z.lor_0_l, Z.shiftl_0_r. do 3 f_equal. lia.
  - cbn [read_partial_loop field_flags field_bytes].
    set (f := if v mod 256 =? 0 then 0 else 1).
    set (F := field_flags n (v / 256)).
    assert (Hf : f = 0 \/ f = 1) by (unfold f; destruct (v mod 256 =? 0); auto).
    replace (Z.of_nat (S n)) with (Z.of_nat n + 1) by lia.
    rewrite <- Z.shiftl_shiftl by lia.
    rewrite <- Z.lor_assoc, <- Z.shiftl_lor.
    set (P := Z.lor F (Z.shiftl hi (Z.of_nat n))).
    assert (Hland : Z.land (Z.lor f (Z.shiftl P 1)) 1 = f).
    { change 1 with (2 ^ 1 - 1) at 2. rewrite land_low by lia.
      rewrite lor_shiftl_add by lia. rewrite Z_mod_plus_full. destruct Hf as [-> | ->]; done. }
    assert (Hshr : Z.shiftr (Z.lor f (Z.shiftl P 1)) 1 = P).
    { rewrite lor_shiftl_add by lia. rewrite Z.shiftr_div_pow2 by lia.
      change (2 ^ 1) with 2. rewrite Z.div_add by lia. destruct Hf as [-> | ->]; [change (0 / 2) with 0 | change (1 / 2) with 0]; lia. }
    rewrite Hland, Hshr.
    assert (Hpow : 2 ^ ((i + 1) * 8) = 256 * 2 ^ (i * 8)).
    { replace ((i + 1) * 8) with (8 + i * 8) by lia. rewrite Z.pow_add_r by lia. done. }
    assert (Hmod : v mod 256 ^ (Z.of_nat n + 1)
                   = v mod 256 + 256 * ((v / 256) mod 256 ^ Z.of_nat n)).
    { rewrite Z.pow_add_r, Z.mul_comm, Z.pow_1_r by lia. apply Z.rem_mul_r; lia. }
    pose proof (Z.mod_pos_bound v 256 eq_refl) as Hb.
    rewrite Hmod. subst P F. unfold f. destruct (v mod 256 =? 0) eqn:E; cbn [negb Z.eqb app].
    + rewrite IH by (rewrite ?Hpow; lia). do 3 f_equal. rewrite Hpow. lia.
    + cbn [read_u8 rbind]. rewrite lor_shiftl_add by lia.
      rewrite IH; [|lia|rewrite Hpow; nia]. do 3 f_equal. rewrite Hpow. lia.
Qed.

(** * Abstract instructions *)

Inductive Ins : Type :=
| Copy (offset size : Z)
| Data (literal : bytes).

(** What one instruction appends to the result. *)
Definition ins_out (base : bytes) (i : Ins) : bytes :=
  match i with
  | Copy offset size => slice base offset (offset + size)
  | Data literal => literal
  end.

(** The instructions the format can express against [base]: a copy inside the
    base with a 32-bit offset and a non-zero 24-bit size, a literal of 1..127 bytes. *)
Definition ins_ok (base : bytes) (i : Ins) : Prop :=
  match i with
  | Copy offset size =>
      0 <= offset < 2 ^ 32 /\ 0 < size < 2 ^ 24 /\ offset + size <= blen base
  | Data literal => 0 < blen literal < 128
  end.

Definition ins_bytes (i : Ins) : bytes :=
  match i with
  | Copy offset size => copy_bytes offset size
  | Data literal => blen literal :: literal
  end.

Definition delta_out (base : bytes) (ops : list Ins) : bytes := concat (map (ins_out base) ops).
Definition delta_ops (ops : list Ins) : bytes := concat (map ins_bytes ops).

Lemma delta_out_app base ops ops' : delta_out base (ops ++ ops') = delta_out base ops ++ delta_out base ops'.
Proof. unfold delta_out. by rewrite map_app, concat_app. Qed.

Lemma delta_ops_app ops ops' : delta_ops (ops ++ ops') = delta_ops ops ++ delta_ops ops'.
Proof. unfold delta_ops. by rewrite map_app, concat_app. Qed.

Lemma delta_out_snoc base ops i : delta_out base (ops ++ [i]) = delta_out base ops ++ ins_out base i.
Proof. rewrite delta_out_app. unfold delta_out at 2. cbn. by rewrite app_nil_r. Qed.

Lemma delta_ops_snoc ops i : delta_ops (ops ++ [i]) = delta_ops ops ++ ins_bytes i.
Proof. rewrite delta_ops_app. unfold delta_ops at 2. cbn. by rewrite app_nil_r. Qed.
