(* ===== verification/DeltaDecode.v ===== *)
(** The delta decoder, [src/delta/decode/mod.rs].

    [delta_decode] is the source's function over an in-memory stream;
    [denotes] is the meaning of an instruction stream, stated without the
    decoder, and [decode_loop_iff] is the refinement between the two. *)

From Stdlib Require Import ZArith Lia String.
From stdpp Require Import base tactics list numbers option.
From S2P Require Import Prelude Stream DeltaUtils DeltaFormat.

Definition COPY_INSTRUCTION_FLAG : Z := Z.shiftl 1 7.
Definition COPY_OFFSET_BYTES : nat := 4.
Definition COPY_SIZE_BYTES : nat := 3.
Definition COPY_ZERO_SIZE : Z := 65536.

(** The texts passed to [decoder_error], one constructor per call site. *)
Inductive DecoderMessage : Type :=
| MsgIo (err : IoError)
| MsgBaseLen
| MsgWrongInstruction (err : IoError)
| MsgInvalidDataInstruction
| MsgInvalidCopyInstruction
| MsgResultSizeOverflow
| MsgExceedsDeclaredSize (expected got_at_least : Z)
| MsgCannotAllocate
| MsgResultLen (expected got : Z).

Inductive GitDeltaError : Type :=
| DeltaEncoderError (message : string)
| DeltaDecoderError (message : DecoderMessage).

Definition decoder_error (m : DecoderMessage) : GitDeltaError := DeltaDecoderError m.

(** The allocator behind [Vec::try_reserve_exact]: whether a vector of [len]
    bytes can be given room for [additional] more. *)
Class Allocator := try_reserve_exact : Z -> Z -> bool.

(** An allocator that serves every vector of at most [n] bytes. *)
Class AllocatorServes `{Allocator} (n : Z) : Prop :=
  reserve_ok : forall len additional,
    0 <= len -> 0 <= additional -> len + additional <= n -> try_reserve_exact len additional = true.

(** The allocator of a process with memory to spare. *)
Definition unlimited : Allocator := fun _ _ => true.

Lemma unlimited_serves n : @AllocatorServes unlimited n.
Proof. intros len additional _ _ _. reflexivity. Qed.

Section decoder.
Context `{Allocator}.

Definition prepare_result_append (buffer : bytes) (instruction_size result_size : Z)
  : Res GitDeltaError unit :=
  let! new_size := ok_or (checked_add (blen buffer) instruction_size)
                         (decoder_error MsgResultSizeOverflow) in
  if result_size <? new_size
  then Err (decoder_error (MsgExceedsDeclaredSize result_size new_size))
  else if try_reserve_exact (blen buffer) instruction_size then Ok tt
  else Err (decoder_error MsgCannotAllocate).

(** One instruction: the body of the source's [loop] after the opcode byte. *)
Definition decode_instruction (base_info : bytes) (result_size : Z) (buffer : bytes)
  (instruction : Z) (stream : bytes) : Res GitDeltaError (bytes * bytes) :=
  if Z.land instruction COPY_INSTRUCTION_FLAG =? 0 then
    if instruction =? 0 then Err (decoder_error MsgInvalidDataInstruction)
    else
      let! '(data, stream) :=
        map_err (fun e => decoder_error (MsgIo e)) (read_exact instruction stream) in
      let! _ := prepare_result_append buffer (blen data) result_size in
      Ok (buffer ++ data, stream)
  else
    let! '((offset, nonzero_bytes), stream) :=
      map_err (fun e => decoder_error (MsgIo e))
        (read_partial_int COPY_OFFSET_BYTES instruction stream) in
    let! '((size, _), stream) :=
      map_err (fun e => decoder_error (MsgIo e))
        (read_partial_int COPY_SIZE_BYTES nonzero_bytes stream) in
    let size := if size =? 0 then COPY_ZERO_SIZE else size in
    let! end_ := ok_or (checked_add offset size) (decoder_error MsgInvalidCopyInstruction) in
    let! base_data := ok_or (get_range base_info offset end_)
                            (decoder_error MsgInvalidCopyInstruction) in
    let! _ := prepare_result_append buffer (blen base_data) result_size in
    Ok (buffer ++ base_data, stream).

Fixpoint decode_loop (fuel : nat) (base_info : bytes) (result_size : Z)
  (buffer stream : bytes) : Res GitDeltaError bytes :=
  match fuel with
  | O => OutOfFuel
  | S fuel =>
      match read_u8 stream with
      | Ok (instruction, stream) =>
          let! '(buffer, stream) :=
            decode_instruction base_info result_size buffer instruction stream in
          decode_loop fuel base_info result_size buffer stream
      | Err UnexpectedEof => Ok buffer
      | Err err => Err (decoder_error (MsgWrongInstruction err))
      | Panic => Panic
      | OutOfFuel => OutOfFuel
      end
  end.

(** Every instruction consumes its opcode byte, so the length of the stream
    bounds the number of rounds. *)
Definition delta_decode (stream base_info : bytes) : Res GitDeltaError bytes :=
  let! '(base_size, stream) :=
    map_err (fun e => decoder_error (MsgIo e)) (read_size_encoding stream) in
  if negb (blen base_info =? base_size) then Err (decoder_error MsgBaseLen)
  else
    let! '(result_size, stream) :=
      map_err (fun e => decoder_error (MsgIo e)) (read_size_encoding stream) in
    let! buffer := decode_loop (S (length stream)) base_info result_size [] stream in
    if negb (blen buffer =? result_size)
    then Err (decoder_error (MsgResultLen result_size (blen buffer)))
    else Ok buffer.
End decoder.

(** * The meaning of an instruction stream *)

(** The little-endian integer whose [n] bytes are present or zero according to
    [flags], read off the front of [s]. *)
Fixpoint operand (n : nat) (flags : Z) (s : bytes) : option (Z * bytes) :=
  match n with
  | O => Some (0, s)
  | S n =>
      if Z.odd flags then
        match s with
        | b :: s =>
            match operand n (flags / 2) s with
            | Some (v, s) => Some (b + 256 * v, s)
            | None => None
            end
        | [] => None
        end
      else
        match operand n (flags / 2) s with
        | Some (v, s) => Some (256 * v, s)
        | None => None
        end
  end.

(** [denotes base s out]: the opcodes [s] rebuild [out] from [base]. *)
Inductive denotes (base : bytes) : bytes -> bytes -> Prop :=
| den_end : denotes base [] []
| den_data n d s out :
    0 < n < 128 -> blen d = n -> denotes base s out ->
    denotes base (n :: d ++ s) (d ++ out)
| den_copy cmd s offset s1 sz s2 size out :
    128 <= cmd < 256 ->
    operand 4 cmd s = Some (offset, s1) ->
    operand 3 (cmd / 16) s1 = Some (sz, s2) ->
    size = (if sz =? 0 then 65536 else sz) ->
    offset + size <= blen base ->
    denotes base s2 out ->
    denotes base (cmd :: s) (slice base offset (offset + size) ++ out).

Lemma operand_bytes n flags s v s' :
  byte_list s -> operand n flags s = Some (v, s') ->
  0 <= v < 256 ^ Z.of_nat n /\ byte_list s' /\ blen s' <= blen s.
Proof.
  revert flags s v. induction n as [|n IH]; intros flags s v Hs Ho.
  - injection Ho as <- <-. repeat split; auto; lia.
  - cbn [operand] in Ho. rewrite Nat2Z.inj_succ, Z.pow_succ_r by lia.
    destruct (Z.odd flags); [destruct s as [|b s]; [discriminate|]|].
    all: destruct (operand n (flags / 2) s) as [[w t]|] eqn:E; [|discriminate].
    all: injection Ho as <- <-.
    + apply Forall_cons_1 in Hs as [Hb Hs]. destruct (IH _ _ _ Hs E) as (Hw & Ht & Hl).
      unfold is_byte in Hb. rewrite blen_cons. repeat split; auto; lia.
    + destruct (IH _ _ _ Hs E) as (Hw & Ht & Hl). repeat split; auto; lia.
Qed.

(** The accumulator loop of the source computes [operand]. *)
Lemma read_partial_loop_operand n i value p s :
  byte_list s -> 0 <= i -> 0 <= value < 2 ^ (i * 8) ->
  read_partial_loop n i value p s =
  match operand n p s with
  | Some (v, s') => Ok ((value + v * 2 ^ (i * 8), p / 2 ^ Z.of_nat n), s')
  | None => Err UnexpectedEof
  end.
Proof.
  revert i value p s. induction n as [|n IH]; intros i value p s Hs Hi Hval.
  - cbn. rewrite Z.div_1_r. do 3 f_equal. lia.
  - cbn [read_partial_loop operand].
    assert (Hpow : 2 ^ ((i + 1) * 8) = 256 * 2 ^ (i * 8)).
    { replace ((i + 1) * 8) with (8 + i * 8) by lia. rewrite Z.pow_add_r by lia. done. }
    assert (Hdiv : p / 2 / 2 ^ Z.of_nat n = p / 2 ^ Z.of_nat (S n)).
    { rewrite Z.div_div by lia. by rewrite <- Z.pow_succ_r, <- Nat2Z.inj_succ by lia. }
    rewrite Z.shiftr_div_pow2 by lia. change (2 ^ 1) with 2.
    replace (Z.land p 1) with (p mod 2) by (symmetry; apply (land_low p 1); lia).
    rewrite Zmod_odd. destruct (Z.odd p); cbn [negb Z.eqb].
    + destruct s as [|b s]; [reflexivity|]. apply Forall_cons_1 in Hs as [Hb Hs].
      cbn [read_u8 rbind]. unfold is_byte in Hb. rewrite lor_shiftl_add by lia.
      rewrite IH by (rewrite ?Hpow; auto; nia).
      destruct (operand n (p / 2) s) as [[v s']|]; [|reflexivity].
      rewrite Hdiv, Hpow. do 3 f_equal. lia.
    + rewrite IH by (rewrite ?Hpow; auto; nia).
      destruct (operand n (p / 2) s) as [[v s']|]; [|reflexivity].
      rewrite Hdiv, Hpow. do 3 f_equal. lia.
Qed.

Lemma read_partial_int_operand n p s :
  byte_list s ->
  read_partial_int n p s =
  match operand n p s with
  | Some (v, s') => Ok ((v, p / 2 ^ Z.of_nat n), s')
  | None => Err UnexpectedEof
  end.
Proof.
  intros Hs. unfold read_partial_int. rewrite read_partial_loop_operand by (auto; lia).
  destruct (operand n p s) as [[v s']|]; [|done]. do 3 f_equal. lia.
Qed.

Section refinement.
Context `{Allocator}.

Lemma prepare_result_append_Ok buffer n result_size :
  prepare_result_append buffer n result_size = Ok tt -> blen buffer + n <= result_size.
Proof.
  unfold prepare_result_append, checked_add. intros E. ok_inv.
  destruct (_ <=? usize_max); [|discriminate]. injection E0 as <-.
  destruct (result_size <? _) eqn:E1; [discriminate|]. lia.
Qed.

Lemma prepare_result_append_fits buffer n result_size `{!AllocatorServes result_size} :
  0 <= n -> result_size <= usize_max -> blen buffer + n <= result_size ->
  prepare_result_append buffer n result_size = Ok tt.
Proof.
  intros Hn Hm Hle. unfold prepare_result_append, checked_add.
  replace (_ <=? usize_max) with true by lia. cbn.
  replace (_ <? _) with false by lia.
  by rewrite reserve_ok by (auto using blen_nonneg).
Qed.

Lemma prepare_result_append_returns buffer n result_size :
  returns (prepare_result_append buffer n result_size).
Proof.
  unfold prepare_result_append. apply returns_bind; auto with git. intros m _.
  destruct (_ <? _); [exact I|]. by destruct (try_reserve_exact _ _).
Qed.

Lemma decode_instruction_returns base result_size buffer i s :
  returns (decode_instruction base result_size buffer i s).
Proof.
  unfold decode_instruction. destruct (_ =? 0).
  - destruct (_ =? 0); [exact I|]. apply returns_bind; auto with git.
    intros [d s'] _. apply returns_bind; [apply prepare_result_append_returns|]. intros; exact I.
  - apply returns_bind; [apply returns_map_err, read_partial_loop_returns|].
    intros [[off nz] s1] _. apply returns_bind; [apply returns_map_err, read_partial_loop_returns|].
    intros [[sz nz'] s2] _. apply returns_bind; auto with git. intros e _.
    apply returns_bind; auto with git. intros bd _.
    apply returns_bind; [apply prepare_result_append_returns|]. intros; exact I.
Qed.

Lemma decode_instruction_shrinks base result_size buffer i s buffer' s' :
  decode_instruction base result_size buffer i s = Ok (buffer', s') -> blen s' <= blen s.
Proof.
  unfold decode_instruction. intros E. destruct (_ =? 0).
  - destruct (_ =? 0); [discriminate|]. ok_inv.
    unfold read_exact in E0. destruct (_ <=? _); [|discriminate]. injection E0 as <- <-.
    unfold blen. rewrite length_drop. lia.
  - ok_inv. unfold read_partial_int in *. apply read_partial_loop_shrinks in E0, E1. lia.
Qed.

Lemma decode_loop_returns fuel base result_size buffer s :
  (length s < fuel)%nat -> returns (decode_loop fuel base result_size buffer s).
Proof.
  revert buffer s. induction fuel as [|fuel IH]; intros buffer s Hf; [lia|].
  destruct s as [|i s]; [exact I|]. cbn [decode_loop read_u8 length] in *.
  apply returns_bind; [apply decode_instruction_returns|].
  intros [buffer' s'] E. apply decode_instruction_shrinks in E. apply IH.
  unfold blen in E. lia.
Qed.

(** A data instruction and a copy instruction, as the loop sees them. *)
Lemma decode_instruction_data base result_size buffer n d s `{!AllocatorServes result_size} :
  0 < n < 128 -> blen d = n -> result_size <= usize_max -> blen buffer + n <= result_size ->
  decode_instruction base result_size buffer n (d ++ s) = Ok (buffer ++ d, s).
Proof.
  intros Hn Hd Hm Hle. unfold decode_instruction. change COPY_INSTRUCTION_FLAG with 128.
  rewrite land_128_byte by (unfold is_byte; lia). replace (n <? 128) with true by lia.
  cbn [Z.eqb]. replace (n =? 0) with false by lia.
  rewrite read_exact_app by done. cbn [map_err rbind].
  rewrite prepare_result_append_fits by (auto; lia). reflexivity.
Qed.

Lemma decode_instruction_copy base result_size buffer cmd s offset s1 sz s2 size
  `{!AllocatorServes result_size} :
  byte_list s -> 128 <= cmd < 256 ->
  operand 4 cmd s = Some (offset, s1) -> operand 3 (cmd / 16) s1 = Some (sz, s2) ->
  size = (if sz =? 0 then 65536 else sz) -> offset + size <= blen base ->
  result_size <= usize_max -> blen buffer + size <= result_size ->
  decode_instruction base result_size buffer cmd s
  = Ok (buffer ++ slice base offset (offset + size), s2).
Proof.
  intros Hs Hc Ho Hz Hsize Hb Hm Hle. unfold decode_instruction.
  destruct (operand_bytes _ _ _ _ _ Hs Ho) as (Hoff & Hs1 & _).
  destruct (operand_bytes _ _ _ _ _ Hs1 Hz) as (Hsz & _ & _).
  assert (0 < size < 2 ^ 24) by (subst size; destruct (sz =? 0) eqn:?; lia).
  change COPY_INSTRUCTION_FLAG with 128.
  rewrite land_128_byte by (unfold is_byte; lia). replace (cmd <? 128) with false by lia.
  cbn [Z.eqb]. rewrite read_partial_int_operand by done.
  change COPY_OFFSET_BYTES with 4%nat. rewrite Ho. cbn [map_err rbind].
  rewrite read_partial_int_operand by done. change (2 ^ Z.of_nat 4) with 16.
  change COPY_SIZE_BYTES with 3%nat. rewrite Hz. cbn [map_err rbind].
  change COPY_ZERO_SIZE with 65536. rewrite <- Hsize.
  unfold checked_add. replace (offset + size <=? usize_max) with true by (unfold usize_max; lia).
  cbn [ok_or rbind].
  assert (Hg : get_range base offset (offset + size) = Some (slice base offset (offset + size))).
  { apply get_range_Some. split; [lia|done]. }
  rewrite Hg. cbn [ok_or rbind].
  rewrite prepare_result_append_fits; [done|auto| |lia|].
  all: rewrite blen_slice by lia; lia.
Qed.

Lemma denotes_decode_loop fuel base result_size buffer s out `{!AllocatorServes result_size} :
  byte_list s -> denotes base s out -> (length s < fuel)%nat ->
  result_size <= usize_max -> blen buffer + blen out <= result_size ->
  decode_loop fuel base result_size buffer s = Ok (buffer ++ out).
Proof.
  intros Hs Hd. revert fuel buffer Hs.
  induction Hd as [|n d s out Hn Hlen Hd IH|cmd s off s1 sz s2 size out Hc Ho Hz Hsize Hb Hd IH];
    intros fuel buffer Hs Hf Hm Hle; (destruct fuel as [|fuel]; [cbn in Hf; lia|]);
    cbn [decode_loop read_u8 length] in *.
  - by rewrite app_nil_r.
  - rewrite blen_app in Hle. pose proof (blen_nonneg out).
    rewrite decode_instruction_data by (auto; lia). cbn [rbind].
    apply Forall_cons_1 in Hs as [_ Hs]. apply Forall_app in Hs as [_ Hs].
    rewrite IH; auto; [by rewrite app_assoc| |].
    + rewrite length_app in Hf. lia.
    + rewrite blen_app. lia.
  - apply Forall_cons_1 in Hs as [_ Hs].
    destruct (operand_bytes _ _ _ _ _ Hs Ho) as (Hoff & Hs1 & Hl1).
    destruct (operand_bytes _ _ _ _ _ Hs1 Hz) as (Hsz & Hs2 & Hl2).
    assert (0 < size < 2 ^ 24) by (subst size; destruct (sz =? 0) eqn:?; lia).
    rewrite blen_app, blen_slice in Hle by lia. pose proof (blen_nonneg out).
    erewrite decode_instruction_copy by (eauto; lia). cbn [rbind].
    rewrite IH; auto; [by rewrite app_assoc| |].
    + unfold blen in *. lia.
    + rewrite blen_app, blen_slice by lia. lia.
Qed.

Lemma decode_loop_denotes fuel base result_size buffer s r :
  byte_list s -> decode_loop fuel base result_size buffer s = Ok r ->
  exists out, denotes base s out /\ r = buffer ++ out.
Proof.
  revert buffer s. induction fuel as [|fuel IH]; intros buffer s Hs; [discriminate|].
  destruct s as [|i s]; cbn [decode_loop read_u8].
  { intros [= <-]. exists []. split; [constructor|by rewrite app_nil_r]. }
  apply Forall_cons_1 in Hs as [Hi Hs]. intros E. ok_inv. rename E0 into Ei.
  unfold decode_instruction in Ei. change COPY_INSTRUCTION_FLAG with 128 in Ei.
  rewrite land_128_byte in Ei by done. unfold is_byte in Hi.
  destruct (i <? 128) eqn:Hlt; cbn [Z.eqb] in Ei.
  - destruct (i =? 0) eqn:Hz; [discriminate|]. ok_inv.
    apply read_exact_Ok in E0 as [-> Hd]; [|lia]. apply Forall_app in Hs as [_ Hs].
    apply IH in E as (out & Hden & ->); [|done]. eexists. split.
    + apply den_data; [lia|done|exact Hden].
    + by rewrite <- app_assoc.
  - ok_inv. rewrite read_partial_int_operand in E0 by done.
    destruct (operand _ i s) as [[off s1]|] eqn:Ho; [|discriminate]. injection E0 as <- <- <-.
    destruct (operand_bytes _ _ _ _ _ Hs Ho) as (Hoff & Hs1 & _).
    rewrite read_partial_int_operand in E1 by done.
    destruct (operand _ _ s1) as [[sz s2]|] eqn:Hz; [|discriminate]. injection E1 as <- _ <-.
    destruct (operand_bytes _ _ _ _ _ Hs1 Hz) as (Hsz & Hs2 & _).
    unfold checked_add in E2. destruct (_ <=? usize_max); [|discriminate]. injection E2 as <-.
    apply get_range_Some in E3 as [[Ha Hb] ->].
    apply IH in E as (out & Hden & ->); [|done]. eexists. split.
    + eapply den_copy; [lia|exact Ho|exact Hz|reflexivity|exact Hb|exact Hden].
    + by rewrite <- app_assoc.
Qed.
End refinement.

(** * The written format denotes its instructions *)

Lemma field_bytes_bytes n v : byte_list (field_bytes n v).
Proof.
  revert v. induction n as [|n IH]; intros v; cbn [field_bytes]; [constructor|].
  apply Forall_app. split; [|apply IH].
  destruct (v mod 256 =? 0); [constructor|]. apply Forall_cons_2; [apply mod_byte|constructor].
Qed.

Lemma operand_field n v hi s :
  byte_list s ->
  operand n (Z.lor (field_flags n v) (Z.shiftl hi (Z.of_nat n))) (field_bytes n v ++ s)
  = Some (v mod 256 ^ Z.of_nat n, s).
Proof.
  intros Hs. pose proof (read_partial_field n 0 0 v hi s ltac:(lia) ltac:(lia)) as E.
  rewrite read_partial_loop_operand in E;
    [|apply Forall_app; split; [apply field_bytes_bytes|done]|lia|lia].
  destruct (operand _ _ _) as [[w s']|]; [|discriminate].
  injection E as E1 _ E2. subst s'. do 2 f_equal. lia.
Qed.

Lemma ins_bytes_bytes i :
  match i with Copy _ _ => True | Data d => byte_list d /\ blen d < 256 end -> byte_list (ins_bytes i).
Proof.
  destruct i as [off size|d]; cbn [ins_bytes].
  - intros _. apply Forall_cons_2.
    + pose proof (copy_cmd_bound off size). unfold is_byte. lia.
    + apply Forall_app. split; apply field_bytes_bytes.
  - intros [Hd Hl]. apply Forall_cons_2; [|done]. pose proof (blen_nonneg d). unfold is_byte. lia.
Qed.

Lemma denotes_ins base i s out :
  ins_ok base i -> byte_list s -> denotes base s out ->
  denotes base (ins_bytes i ++ s) (ins_out base i ++ out).
Proof.
  intros Hi Hs Hd. destruct i as [off size|d]; cbn [ins_ok ins_bytes ins_out] in *.
  - destruct Hi as (Hoff & Hsize & Hend). unfold copy_bytes. rewrite <- app_comm_cons, <- app_assoc.
    pose proof (copy_cmd_bound off size).
    eapply (den_copy base _ _ off (field_bytes 3 size ++ s) size s); [lia| | | |done|done].
    + etransitivity; [apply (operand_field 4 off)|].
      * apply Forall_app. split; [apply field_bytes_bytes|done].
      * do 2 f_equal. change (256 ^ Z.of_nat 4) with (2 ^ 32). apply Z.mod_small. lia.
    + replace (copy_cmd off size / 16) with (Z.lor (field_flags 3 size) (Z.shiftl 1 (Z.of_nat 3))).
      * rewrite operand_field by done. do 2 f_equal.
        change (256 ^ Z.of_nat 3) with (2 ^ 24). apply Z.mod_small. lia.
      * unfold copy_cmd. pose proof (field_flags_bound 4 off).
        rewrite (lor_shiftl_add (field_flags 4 off)) by lia. change (2 ^ 4) with 16.
        rewrite Z.div_add by lia. rewrite Z.div_small by lia. reflexivity.
    + replace (size =? 0) with false by lia. reflexivity.
  - rewrite <- app_comm_cons. by apply den_data.
Qed.

Lemma denotes_ops base ops :
  Forall (ins_ok base) ops -> byte_list (delta_ops ops) ->
  denotes base (delta_ops ops) (delta_out base ops).
Proof.
  induction ops as [|i ops IH]; intros Hok Hb; [constructor|].
  apply Forall_cons_1 in Hok as [Hi Hok].
  unfold delta_ops, delta_out in *. cbn [map concat] in *. apply Forall_app in Hb as [_ Hb].
  apply denotes_ins; auto.
Qed.

(** A whole delta: the two sizes and the opcodes. *)
Lemma delta_decode_ops `{Allocator} base ops out `{!AllocatorServes (blen out)} :
  Forall (ins_ok base) ops -> byte_list (delta_ops ops) -> out = delta_out base ops ->
  blen base <= usize_max -> blen out <= usize_max ->
  delta_decode (write_varint (blen base) ++ write_varint (blen out) ++ delta_ops ops) base = Ok out.
Proof.
  intros Hok Hb Hout Hbase Hmax. pose proof (blen_nonneg base). pose proof (blen_nonneg out).
  unfold delta_decode.
  rewrite read_size_write_varint by lia. cbn [map_err rbind]. rewrite Z.eqb_refl. cbn [negb].
  rewrite read_size_write_varint by lia. cbn [map_err rbind].
  rewrite (denotes_decode_loop _ base _ [] _ out); auto; cbn [app rbind].
  - by rewrite Z.eqb_refl.
  - subst out. by apply denotes_ops.
  - rewrite blen_nil. lia.
Qed.

(** * Whole deltas *)

(** A delta stream for [target] against [src]: sizes, then opcodes for it. *)
Definition delta_for (src target delta : bytes) : Prop :=
  exists ops, delta = (write_varint (blen src) ++ write_varint (blen target)) ++ delta_ops ops
    /\ Forall (ins_ok src) ops /\ byte_list (delta_ops ops) /\ delta_out src ops = target.

Lemma delta_for_decodes `{Allocator} src target delta `{!AllocatorServes (blen target)} :
  blen src <= usize_max -> blen target <= usize_max ->
  delta_for src target delta -> delta_decode delta src = Ok target.
Proof.
  intros Hs Ht (ops & -> & Hok & Hby & Hden). rewrite <- app_assoc.
  by apply delta_decode_ops.
Qed.

(** whatever bytes a delta stream and a base object hold, [delta_decode]
    terminates and returns a value or an error: it never panics. *)
Theorem delta_decode_total `{Allocator} (stream base : bytes) :
  returns (delta_decode stream base).
Proof.
  unfold delta_decode. apply returns_bind; auto with git. intros [base_size s] _.
  destruct (negb _); [exact I|]. apply returns_bind; auto with git. intros [result_size s'] _.
  apply returns_bind; [apply decode_loop_returns; lia|]. intros buffer _.
  by destruct (negb _).
Qed.

(** C18: [delta_decode] accepts a stream exactly when it starts with the size of
    the base and the size of the result, both as varints, and the opcodes that
    follow denote a result of that size: the decoder implements the format. *)
Theorem delta_decode_refines `{Allocator} (stream base out : bytes)
  `{!AllocatorServes (blen out)} :
  byte_list stream ->
  (delta_decode stream base = Ok out <->
   exists s1 s2, read_size_encoding stream = Ok (blen base, s1)
     /\ read_size_encoding s1 = Ok (blen out, s2) /\ denotes base s2 out).
Proof.
  intros Hs. split.
  - unfold delta_decode. intros E. ok_inv. rename E0 into E1.
    destruct (negb _) eqn:Eb in E; [discriminate|]. ok_inv. rename E2 into E4. rename E0 into E2.
    destruct (negb _) eqn:Er in E; [discriminate|]. injection E as <-.
    apply read_size_loop_bytes in E1 as Hb1; [|done]. apply read_size_loop_bytes in E2 as Hb2; [|done].
    apply decode_loop_denotes in E4 as (out & Hden & ->); [|done]. cbn [app] in *.
    eexists _, _. split; [|split]; [|rewrite E2; do 3 f_equal; lia|exact Hden].
    rewrite E1. do 3 f_equal. lia.
  - intros (s1 & s2 & E1 & E2 & Hden). unfold delta_decode. rewrite E1. cbn [map_err rbind].
    rewrite Z.eqb_refl. cbn [negb]. rewrite E2. cbn [map_err rbind].
    apply read_size_loop_bytes in E1 as Hb1; [|done]. apply read_size_loop_bytes in E2 as Hb2; [|done].
    apply read_size_loop_bound in E2; [|unfold usize_max; lia].
    rewrite (denotes_decode_loop _ base _ [] _ out) by (auto; try lia; rewrite blen_nil; lia).
    cbn [app rbind]. by rewrite Z.eqb_refl.
Qed.

(** The delta of the decoder's own unit test: base ["abc"], copy it and append ["d"]. *)
Lemma delta_decode_refines_witness :
  @delta_decode unlimited [3; 4; 144; 3; 1; 100] [97; 98; 99] = Ok [97; 98; 99; 100]
  /\ exists s1 s2, read_size_encoding [3; 4; 144; 3; 1; 100] = Ok (3, s1)
       /\ read_size_encoding s1 = Ok (4, s2) /\ denotes [97; 98; 99] s2 [97; 98; 99; 100].
Proof.
  assert (E : @delta_decode unlimited [3; 4; 144; 3; 1; 100] [97; 98; 99] = Ok [97; 98; 99; 100])
    by (vm_compute; reflexivity).
  split; [exact E|].
  apply (@delta_decode_refines unlimited [3; 4; 144; 3; 1; 100] [97; 98; 99] [97; 98; 99; 100]
           (unlimited_serves _)); [repeat constructor; unfold is_byte; lia|exact E].
Defined.
