(* ===== verification/RabinTables.v ===== *)
(** Rolling-hash tables and constants, [src/delta/encode/rabin/tables.rs], and
    the theory of the hash they define.

    A hash step is linear over GF(2) and keeps its value below [2^31], so the
    index [val >> RABIN_SHIFT] always falls inside [T]; [U] holds the effect of a
    byte that is about to leave the window, which is what makes the rolling
    update of the delta generator equal to hashing the window from scratch. *)

From Stdlib Require Import ZArith Lia.
From stdpp Require Import base tactics list numbers option.
From S2P Require Import Prelude.

Definition RABIN_WINDOW : Z := 16.
Definition RABIN_SHIFT : Z := 23.
Definition HASH_LIMIT : Z := 64.
Definition DATA_INS_LEN : Z := 0x7f.
Definition MAX_OP_SIZE : Z := 5 + 5 + 1 + RABIN_WINDOW + 7.

Definition T : list Z :=
  [
   0x00000000; 0xab59b4d1; 0x56b369a2; 0xfdeadd73; 0x063f6795; 0xad66d344;
   0x508c0e37; 0xfbd5bae6; 0x0c7ecf2a; 0xa7277bfb; 0x5acda688; 0xf1941259;
   0x0a41a8bf; 0xa1181c6e; 0x5cf2c11d; 0xf7ab75cc; 0x18fd9e54; 0xb3a42a85;
   0x4e4ef7f6; 0xe5174327; 0x1ec2f9c1; 0xb59b4d10; 0x48719063; 0xe32824b2;
   0x1483517e; 0xbfdae5af; 0x423038dc; 0xe9698c0d; 0x12bc36eb; 0xb9e5823a;
   0x440f5f49; 0xef56eb98; 0x31fb3ca8; 0x9aa28879; 0x6748550a; 0xcc11e1db;
   0x37c45b3d; 0x9c9defec; 0x6177329f; 0xca2e864e; 0x3d85f382; 0x96dc4753;
   0x6b369a20; 0xc06f2ef1; 0x3bba9417; 0x90e320c6; 0x6d09fdb5; 0xc6504964;
   0x2906a2fc; 0x825f162d; 0x7fb5cb5e; 0xd4ec7f8f; 0x2f39c569; 0x846071b8;
   0x798aaccb; 0xd2d3181a; 0x25786dd6; 0x8e21d907; 0x73cb0474; 0xd892b0a5;
   0x23470a43; 0x881ebe92; 0x75f463e1; 0xdeadd730; 0x63f67950; 0xc8afcd81;
   0x354510f2; 0x9e1ca423; 0x65c91ec5; 0xce90aa14; 0x337a7767; 0x9823c3b6;
   0x6f88b67a; 0xc4d102ab; 0x393bdfd8; 0x92626b09; 0x69b7d1ef; 0xc2ee653e;
   0x3f04b84d; 0x945d0c9c; 0x7b0be704; 0xd05253d5; 0x2db88ea6; 0x86e13a77;
   0x7d348091; 0xd66d3440; 0x2b87e933; 0x80de5de2; 0x7775282e; 0xdc2c9cff;
   0x21c6418c; 0x8a9ff55d; 0x714a4fbb; 0xda13fb6a; 0x27f92619; 0x8ca092c8;
   0x520d45f8; 0xf954f129; 0x04be2c5a; 0xafe7988b; 0x5432226d; 0xff6b96bc;
   0x02814bcf; 0xa9d8ff1e; 0x5e738ad2; 0xf52a3e03; 0x08c0e370; 0xa39957a1;
   0x584ced47; 0xf3155996; 0x0eff84e5; 0xa5a63034; 0x4af0dbac; 0xe1a96f7d;
   0x1c43b20e; 0xb71a06df; 0x4ccfbc39; 0xe79608e8; 0x1a7cd59b; 0xb125614a;
   0x468e1486; 0xedd7a057; 0x103d7d24; 0xbb64c9f5; 0x40b17313; 0xebe8c7c2;
   0x16021ab1; 0xbd5bae60; 0x6cb54671; 0xc7ecf2a0; 0x3a062fd3; 0x915f9b02;
   0x6a8a21e4; 0xc1d39535; 0x3c394846; 0x9760fc97; 0x60cb895b; 0xcb923d8a;
   0x3678e0f9; 0x9d215428; 0x66f4eece; 0xcdad5a1f; 0x3047876c; 0x9b1e33bd;
   0x7448d825; 0xdf116cf4; 0x22fbb187; 0x89a20556; 0x7277bfb0; 0xd92e0b61;
   0x24c4d612; 0x8f9d62c3; 0x7836170f; 0xd36fa3de; 0x2e857ead; 0x85dcca7c;
   0x7e09709a; 0xd550c44b; 0x28ba1938; 0x83e3ade9; 0x5d4e7ad9; 0xf617ce08;
   0x0bfd137b; 0xa0a4a7aa; 0x5b711d4c; 0xf028a99d; 0x0dc274ee; 0xa69bc03f;
   0x5130b5f3; 0xfa690122; 0x0783dc51; 0xacda6880; 0x570fd266; 0xfc5666b7;
   0x01bcbbc4; 0xaae50f15; 0x45b3e48d; 0xeeea505c; 0x13008d2f; 0xb85939fe;
   0x438c8318; 0xe8d537c9; 0x153feaba; 0xbe665e6b; 0x49cd2ba7; 0xe2949f76;
   0x1f7e4205; 0xb427f6d4; 0x4ff24c32; 0xe4abf8e3; 0x19412590; 0xb2189141;
   0x0f433f21; 0xa41a8bf0; 0x59f05683; 0xf2a9e252; 0x097c58b4; 0xa225ec65;
   0x5fcf3116; 0xf49685c7; 0x033df00b; 0xa86444da; 0x558e99a9; 0xfed72d78;
   0x0502979e; 0xae5b234f; 0x53b1fe3c; 0xf8e84aed; 0x17bea175; 0xbce715a4;
   0x410dc8d7; 0xea547c06; 0x1181c6e0; 0xbad87231; 0x4732af42; 0xec6b1b93;
   0x1bc06e5f; 0xb099da8e; 0x4d7307fd; 0xe62ab32c; 0x1dff09ca; 0xb6a6bd1b;
   0x4b4c6068; 0xe015d4b9; 0x3eb80389; 0x95e1b758; 0x680b6a2b; 0xc352defa;
   0x3887641c; 0x93ded0cd; 0x6e340dbe; 0xc56db96f; 0x32c6cca3; 0x999f7872;
   0x6475a501; 0xcf2c11d0; 0x34f9ab36; 0x9fa01fe7; 0x624ac294; 0xc9137645;
   0x26459ddd; 0x8d1c290c; 0x70f6f47f; 0xdbaf40ae; 0x207afa48; 0x8b234e99;
   0x76c993ea; 0xdd90273b; 0x2a3b52f7; 0x8162e626; 0x7c883b55; 0xd7d18f84;
   0x2c043562; 0x875d81b3; 0x7ab75cc0; 0xd1eee811].

Definition U : list Z :=
  [
   0x00000000; 0x7eb5200d; 0x5633f4cb; 0x2886d4c6; 0x073e5d47; 0x798b7d4a;
   0x510da98c; 0x2fb88981; 0x0e7cba8e; 0x70c99a83; 0x584f4e45; 0x26fa6e48;
   0x0942e7c9; 0x77f7c7c4; 0x5f711302; 0x21c4330f; 0x1cf9751c; 0x624c5511;
   0x4aca81d7; 0x347fa1da; 0x1bc7285b; 0x65720856; 0x4df4dc90; 0x3341fc9d;
   0x1285cf92; 0x6c30ef9f; 0x44b63b59; 0x3a031b54; 0x15bb92d5; 0x6b0eb2d8;
   0x4388661e; 0x3d3d4613; 0x39f2ea38; 0x4747ca35; 0x6fc11ef3; 0x11743efe;
   0x3eccb77f; 0x40799772; 0x68ff43b4; 0x164a63b9; 0x378e50b6; 0x493b70bb;
   0x61bda47d; 0x1f088470; 0x30b00df1; 0x4e052dfc; 0x6683f93a; 0x1836d937;
   0x250b9f24; 0x5bbebf29; 0x73386bef; 0x0d8d4be2; 0x2235c263; 0x5c80e26e;
   0x740636a8; 0x0ab316a5; 0x2b7725aa; 0x55c205a7; 0x7d44d161; 0x03f1f16c;
   0x2c4978ed; 0x52fc58e0; 0x7a7a8c26; 0x04cfac2b; 0x73e5d470; 0x0d50f47d;
   0x25d620bb; 0x5b6300b6; 0x74db8937; 0x0a6ea93a; 0x22e87dfc; 0x5c5d5df1;
   0x7d996efe; 0x032c4ef3; 0x2baa9a35; 0x551fba38; 0x7aa733b9; 0x041213b4;
   0x2c94c772; 0x5221e77f; 0x6f1ca16c; 0x11a98161; 0x392f55a7; 0x479a75aa;
   0x6822fc2b; 0x1697dc26; 0x3e1108e0; 0x40a428ed; 0x61601be2; 0x1fd53bef;
   0x3753ef29; 0x49e6cf24; 0x665e46a5; 0x18eb66a8; 0x306db26e; 0x4ed89263;
   0x4a173e48; 0x34a21e45; 0x1c24ca83; 0x6291ea8e; 0x4d29630f; 0x339c4302;
   0x1b1a97c4; 0x65afb7c9; 0x446b84c6; 0x3adea4cb; 0x1258700d; 0x6ced5000;
   0x4355d981; 0x3de0f98c; 0x15662d4a; 0x6bd30d47; 0x56ee4b54; 0x285b6b59;
   0x00ddbf9f; 0x7e689f92; 0x51d01613; 0x2f65361e; 0x07e3e2d8; 0x7956c2d5;
   0x5892f1da; 0x2627d1d7; 0x0ea10511; 0x7014251c; 0x5facac9d; 0x21198c90;
   0x099f5856; 0x772a785b; 0x4c921c31; 0x32273c3c; 0x1aa1e8fa; 0x6414c8f7;
   0x4bac4176; 0x3519617b; 0x1d9fb5bd; 0x632a95b0; 0x42eea6bf; 0x3c5b86b2;
   0x14dd5274; 0x6a687279; 0x45d0fbf8; 0x3b65dbf5; 0x13e30f33; 0x6d562f3e;
   0x506b692d; 0x2ede4920; 0x06589de6; 0x78edbdeb; 0x5755346a; 0x29e01467;
   0x0166c0a1; 0x7fd3e0ac; 0x5e17d3a3; 0x20a2f3ae; 0x08242768; 0x76910765;
   0x59298ee4; 0x279caee9; 0x0f1a7a2f; 0x71af5a22; 0x7560f609; 0x0bd5d604;
   0x235302c2; 0x5de622cf; 0x725eab4e; 0x0ceb8b43; 0x246d5f85; 0x5ad87f88;
   0x7b1c4c87; 0x05a96c8a; 0x2d2fb84c; 0x539a9841; 0x7c2211c0; 0x029731cd;
   0x2a11e50b; 0x54a4c506; 0x69998315; 0x172ca318; 0x3faa77de; 0x411f57d3;
   0x6ea7de52; 0x1012fe5f; 0x38942a99; 0x46210a94; 0x67e5399b; 0x19501996;
   0x31d6cd50; 0x4f63ed5d; 0x60db64dc; 0x1e6e44d1; 0x36e89017; 0x485db01a;
   0x3f77c841; 0x41c2e84c; 0x69443c8a; 0x17f11c87; 0x38499506; 0x46fcb50b;
   0x6e7a61cd; 0x10cf41c0; 0x310b72cf; 0x4fbe52c2; 0x67388604; 0x198da609;
   0x36352f88; 0x48800f85; 0x6006db43; 0x1eb3fb4e; 0x238ebd5d; 0x5d3b9d50;
   0x75bd4996; 0x0b08699b; 0x24b0e01a; 0x5a05c017; 0x728314d1; 0x0c3634dc;
   0x2df207d3; 0x534727de; 0x7bc1f318; 0x0574d315; 0x2acc5a94; 0x54797a99;
   0x7cffae5f; 0x024a8e52; 0x06852279; 0x78300274; 0x50b6d6b2; 0x2e03f6bf;
   0x01bb7f3e; 0x7f0e5f33; 0x57888bf5; 0x293dabf8; 0x08f998f7; 0x764cb8fa;
   0x5eca6c3c; 0x207f4c31; 0x0fc7c5b0; 0x7172e5bd; 0x59f4317b; 0x27411176;
   0x1a7c5765; 0x64c97768; 0x4c4fa3ae; 0x32fa83a3; 0x1d420a22; 0x63f72a2f;
   0x4b71fee9; 0x35c4dee4; 0x1400edeb; 0x6ab5cde6; 0x42331920; 0x3c86392d;
   0x133eb0ac; 0x6d8b90a1; 0x450d4467; 0x3bb8646a].

(** [val = ((val << 8) | b as u32) ^ T[(val >> RABIN_SHIFT) as usize]], at width
    32; [None] is an out-of-range index of [T], which would panic. *)
Definition rabin_step (val b : Z) : option Z :=
  t ← get T (Z.shiftr val RABIN_SHIFT);
  Some (Z.lxor (Z.lor (as_u32 (Z.shiftl val 8)) b) t).

(** [for &b in window { val = ... }]. *)
Fixpoint rabin_fold (val : Z) (window : bytes) : option Z :=
  match window with
  | [] => Some val
  | b :: window => val ← rabin_step val b; rabin_fold val window
  end.

Definition rabin_hash (window : bytes) : option Z := rabin_fold 0 window.

(** The sliding update of the delta generator: [val ^= U[oldest]], then a step. *)
Definition rabin_roll (val oldest new_byte : Z) : option Z :=
  u ← get U oldest;
  rabin_step (Z.lxor val u) new_byte.

(** * The step as a linear map *)

Definition T_at (i : Z) : Z := default 0 (get T i).

Definition step (v b : Z) : Z := Z.lxor (Z.lxor (as_u32 (Z.shiftl v 8)) b) (T_at (Z.shiftr v 23)).

Definition in31 (v : Z) : Prop := 0 <= v < 2 ^ 31.

(** [f i] for every byte [i], by evaluation. *)
Lemma forall_byte (f : Z -> bool) :
  forallb (fun n => f (Z.of_nat n)) (seq 0 256) = true -> forall i, is_byte i -> f i = true.
Proof.
  intros H i Hi. rewrite forallb_forall in H. specialize (H (Z.to_nat i)).
  unfold is_byte in Hi. rewrite Z2Nat.id in H by lia. apply H, in_seq. lia.
Qed.

Lemma T_get i : is_byte i -> get T i = Some (T_at i).
Proof.
  intros Hi. unfold T_at. destruct (get_lt_Some T i) as [x ->]; [|done].
  unfold is_byte in Hi. change (blen T) with 256. lia.
Qed.

(** Bit 31 of [T[i]] is bit 0 of [i]: it cancels the bit shifted into position 31. *)
Lemma T_bound i : is_byte i -> 0 <= T_at i < 2 ^ 32.
Proof.
  intros Hi. apply (forall_byte (fun i => (0 <=? T_at i) && (T_at i <? 2 ^ 32))) in Hi; [lia|].
  vm_compute. reflexivity.
Qed.

Lemma T_bit31 i : is_byte i -> Z.testbit (T_at i) 31 = Z.testbit i 0.
Proof.
  intros Hi.
  apply (forall_byte (fun i => Bool.eqb (Z.testbit (T_at i) 31) (Z.testbit i 0))) in Hi.
  - by apply eqb_prop.
  - vm_compute. reflexivity.
Qed.

(** [T] is determined by its values on the powers of two. *)
Definition T_lin (i : Z) : Z :=
  let c k := if Z.testbit i k then T_at (2 ^ k) else 0 in
  Z.lxor (Z.lxor (Z.lxor (c 0) (c 1)) (Z.lxor (c 2) (c 3)))
         (Z.lxor (Z.lxor (c 4) (c 5)) (Z.lxor (c 6) (c 7))).

Lemma T_at_lin i : is_byte i -> T_at i = T_lin i.
Proof.
  intros Hi. apply (forall_byte (fun i => T_at i =? T_lin i)) in Hi; [lia|].
  vm_compute. reflexivity.
Qed.

Ltac bitwise := apply Z.bits_inj'; intros n Hn; rewrite ?Z.lxor_spec, ?Z.land_spec, ?Z.lxor_spec;
  repeat match goal with |- context [Z.testbit ?a n] => destruct (Z.testbit a n) end; reflexivity.

Lemma lxor_land_distr a b c : Z.land (Z.lxor a b) c = Z.lxor (Z.land a c) (Z.land b c).
Proof. bitwise. Qed.

Lemma lxor_swap4 a b c d : Z.lxor (Z.lxor a b) (Z.lxor c d) = Z.lxor (Z.lxor a c) (Z.lxor b d).
Proof. bitwise. Qed.

Lemma T_at_lxor i j : is_byte i -> is_byte j -> T_at (Z.lxor i j) = Z.lxor (T_at i) (T_at j).
Proof.
  intros Hi Hj. assert (Hx : is_byte (Z.lxor i j)) by (apply (lxor_bound i j 8); done || lia).
  rewrite !T_at_lin by done. unfold T_lin. cbv zeta. rewrite !Z.lxor_spec.
  assert (Hc : forall (x y : bool) c, (if xorb x y then c else 0)
    = Z.lxor (if x then c else 0) (if y then c else 0)).
  { intros [] [] c; cbn [xorb]; rewrite ?Z.lxor_nilpotent, ?Z.lxor_0_r, ?Z.lxor_0_l; done. }
  rewrite !Hc. symmetry.
  rewrite lxor_swap4. f_equal; (rewrite lxor_swap4; f_equal; apply lxor_swap4).
Qed.

Lemma shift_byte v : in31 v -> is_byte (Z.shiftr v 23).
Proof.
  unfold in31, is_byte. rewrite Z.shiftr_div_pow2 by lia. intros Hv. split.
  - apply Z.div_pos; lia.
  - apply Z.div_lt_upper_bound; lia.
Qed.

Lemma step_bound v b : in31 v -> is_byte b -> in31 (step v b).
Proof.
  intros Hv Hb. pose proof (shift_byte v Hv) as Hi. pose proof (T_bound _ Hi) as Ht.
  unfold in31, step. set (s := as_u32 (Z.shiftl v 8)).
  assert (Hs : 0 <= s < 2 ^ 32) by (apply Z.mod_pos_bound; lia).
  set (x := Z.lxor (Z.lxor s b) (T_at (Z.shiftr v 23))).
  assert (Hx : 0 <= x < 2 ^ 32).
  { apply lxor_bound; [lia| |done]. apply lxor_bound; [lia|done|]. unfold is_byte in Hb. lia. }
  assert (H31 : Z.testbit x 31 = false).
  { unfold x. rewrite !Z.lxor_spec, T_bit31, Z.shiftr_spec by (done || lia).
    replace (Z.testbit b 31) with false.
    2:{ rewrite <- (Z.mod_small b (2 ^ 8)) by done. symmetry. apply Z.mod_pow2_bits_high. lia. }
    unfold s, as_u32. rewrite Z.mod_pow2_bits_low, Z.shiftl_spec by lia.
    change (31 - 8) with (0 + 23). by destruct (Z.testbit v (0 + 23)). }
  destruct (Z_lt_dec x (2 ^ 31)) as [|Hge]; [lia|].
  assert (Z.testbit x 31 = true); [|congruence].
  apply Z.testbit_true; [lia|]. replace (x / 2 ^ 31) with 1; [done|].
  apply (Z.div_unique x (2 ^ 31) 1 (x - 2 ^ 31)); lia.
Qed.

Lemma rabin_step_eq v b : in31 v -> is_byte b -> rabin_step v b = Some (step v b).
Proof.
  intros Hv Hb. unfold rabin_step, step. rewrite T_get by (by apply shift_byte). cbn.
  do 2 f_equal. apply eq_sym, Z.lxor_lor. unfold as_u32. rewrite <- Z.land_ones by lia.
  apply Z.bits_inj'. intros n Hn. rewrite !Z.land_spec, Z.bits_0.
  destruct (Z_lt_dec n 8) as [Hlt|Hge].
  - by rewrite Z.shiftl_spec_low.
  - replace (Z.testbit b n) with false; [apply andb_false_r|].
    rewrite <- (Z.mod_small b (2 ^ 8)) by done. symmetry. apply Z.mod_pow2_bits_high. lia.
Qed.

Lemma step_linear v w b : in31 v -> in31 w -> step (Z.lxor v w) b = Z.lxor (step v 0) (step w b).
Proof.
  intros Hv Hw. unfold step, as_u32. rewrite Z.shiftl_lxor, Z.shiftr_lxor.
  rewrite T_at_lxor by (by apply shift_byte). rewrite <- !Z.land_ones by lia.
  rewrite lxor_land_distr, Z.lxor_0_r. bitwise.
Qed.

Definition fold (window : bytes) (v : Z) : Z := fold_left step window v.

Lemma fold_bound window v : in31 v -> byte_list window -> in31 (fold window v).
Proof.
  revert v. induction window as [|b window IH]; intros v Hv Hb; [done|].
  apply Forall_cons_1 in Hb as [Hb Hw]. apply IH; auto using step_bound.
Qed.

(** Hashing never indexes outside [T]. *)
Lemma rabin_fold_eq window v :
  in31 v -> byte_list window -> rabin_fold v window = Some (fold window v).
Proof.
  revert v. induction window as [|b window IH]; intros v Hv Hb; [done|].
  apply Forall_cons_1 in Hb as [Hb Hw]. cbn [rabin_fold].
  rewrite rabin_step_eq by done. cbn. apply IH; auto using step_bound.
Qed.

Lemma fold_linear window v w :
  in31 v -> in31 w -> byte_list window ->
  fold window (Z.lxor v w) = Z.lxor (fold (repeat 0 (length window)) v) (fold window w).
Proof.
  revert v w. induction window as [|b window IH]; intros v w Hv Hw Hb; [done|].
  apply Forall_cons_1 in Hb as [Hb Hwin]. cbn [fold fold_left repeat length].
  rewrite step_linear by done. apply IH; auto using step_bound.
  apply step_bound; [done|]. unfold is_byte. lia.
Qed.

(** [U[b]] is the contribution of [b] to the hash of a window it starts. *)
Lemma U_spec b : is_byte b -> get U b = Some (fold (repeat 0 15) (step 0 b)).
Proof.
  intros Hb.
  apply (forall_byte (fun b => match get U b with
    | Some u => u =? fold (repeat 0 15) (step 0 b) | None => false end)) in Hb.
  - destruct (get U b) as [u|]; [f_equal; lia|discriminate].
  - vm_compute. reflexivity.
Qed.

Lemma byte_in31 b : is_byte b -> in31 b.
Proof. unfold is_byte, in31. lia. Qed.

Lemma step_0 b : is_byte b -> step 0 b = b.
Proof. intros _. unfold step. change (T_at (Z.shiftr 0 23)) with 0. by rewrite Z.lxor_0_r. Qed.

Lemma fold_snoc window b v : fold (window ++ [b]) v = step (fold window v) b.
Proof. unfold fold. by rewrite fold_left_app. Qed.

Lemma rabin_hash_in31 window : byte_list window -> exists v, rabin_hash window = Some v /\ in31 v.
Proof.
  intros Hw. exists (fold window 0). split.
  - apply rabin_fold_eq; [unfold in31; lia|done].
  - apply fold_bound; [unfold in31; lia|done].
Qed.

(** Rolling from the window [oldest :: rest] to [rest ++ [new]]. *)
Lemma rabin_roll_fold oldest rest new :
  is_byte oldest -> byte_list rest -> is_byte new -> length rest = 15%nat ->
  rabin_roll (fold (oldest :: rest) 0) oldest new = Some (fold (rest ++ [new]) 0).
Proof.
  intros Ho Hr Hn Hlen. unfold rabin_roll. rewrite U_spec by done. cbn [mbind option_bind].
  cbn [fold fold_left]. rewrite step_0 by done.
  assert (H0 : in31 0) by (unfold in31; lia). assert (Hob : in31 oldest) by (by apply byte_in31).
  fold (fold rest oldest). rewrite <- (Z.lxor_0_r oldest) at 1.
  rewrite fold_linear, Hlen by done.
  rewrite (Z.lxor_comm (fold (repeat 0 15) oldest)), Z.lxor_assoc, Z.lxor_nilpotent, Z.lxor_0_r.
  rewrite rabin_step_eq; [by rewrite fold_snoc|by apply fold_bound|done].
Qed.

(** sliding the 16-byte window by one byte with the [U] table gives the hash
    of the new window computed from scratch, and neither computation indexes
    outside the tables. *)
Theorem rabin_rolling_hash (oldest new : Z) (rest : bytes) :
  is_byte oldest -> byte_list rest -> is_byte new -> length rest = 15%nat ->
  exists v v', rabin_hash (oldest :: rest) = Some v
    /\ rabin_roll v oldest new = Some v' /\ rabin_hash (rest ++ [new]) = Some v'
    /\ 0 <= v' < 2 ^ 31.
Proof.
  intros Ho Hr Hn Hlen. assert (H0 : in31 0) by (unfold in31; lia).
  assert (Hrn : byte_list (rest ++ [new])) by (apply Forall_app; split; auto).
  exists (fold (oldest :: rest) 0), (fold (rest ++ [new]) 0). split; [|split; [|split]].
  - apply rabin_fold_eq; auto.
  - by apply rabin_roll_fold.
  - by apply rabin_fold_eq.
  - by apply fold_bound.
Qed.

Lemma rabin_rolling_hash_witness :
  exists v v', rabin_hash [1;2;3;4;5;6;7;8;9;10;11;12;13;14;15;16] = Some v
    /\ rabin_roll v 1 255 = Some v' /\ rabin_hash [2;3;4;5;6;7;8;9;10;11;12;13;14;15;16;255] = Some v'
    /\ 0 <= v' < 2 ^ 31.
Proof.
  apply (rabin_rolling_hash 1 255 [2;3;4;5;6;7;8;9;10;11;12;13;14;15;16]);
    [unfold is_byte; lia|repeat constructor; unfold is_byte; lia|unfold is_byte; lia|reflexivity].
Defined.
