(* ===== verification/ExtendMatch.v ===== *)
(** Word-at-a-time match extension, [src/delta/encode/rabin/extend_match.rs].

    [extend_match] compares eight bytes at a time through [usize::from_ne_bytes]
    and locates the first difference from the zero bits of the exclusive or;
    [common_prefix] is what it computes.  The byte order of the target is a
    parameter, and both branches of [first_different_byte] are covered. *)

From Stdlib Require Import ZArith Lia.
From stdpp Require Import base tactics list numbers option.
From S2P Require Import Prelude.

Definition WORD_SIZE : Z := 8.

(** [usize::from_ne_bytes] for the two byte orders. *)
Fixpoint le_word (bs : bytes) : Z :=
  match bs with [] => 0 | b :: bs => b + 256 * le_word bs end.

Definition be_word (bs : bytes) : Z := fold_left (fun acc b => 256 * acc + b) bs 0.

Definition from_ne_bytes (little_endian : bool) (bs : bytes) : Z :=
  if little_endian then le_word bs else be_word bs.

(** [usize::trailing_zeros] and [usize::leading_zeros]. *)
Fixpoint pos_trailing_zeros (p : positive) : Z :=
  match p with xO p => 1 + pos_trailing_zeros p | _ => 0 end.

Definition trailing_zeros (x : Z) : Z :=
  match x with Zpos p => pos_trailing_zeros p | _ => usize_bits end.

Definition leading_zeros (x : Z) : Z :=
  if x =? 0 then usize_bits else usize_bits - 1 - Z.log2 x.

Definition first_different_byte (little_endian : bool) (diff : Z) : Z :=
  if little_endian then trailing_zeros diff / 8 else leading_zeros diff / 8.

(** The word loop and the byte loop of [extend_match]; the slices are in range
    because [i + WORD_SIZE <= max] and [i < max]. *)
Fixpoint word_loop (little_endian : bool) (fuel : nat) (src_tail tgt_tail : bytes) (max i : Z)
  : Res Empty_set (Z + Z) :=
  match fuel with
  | O => OutOfFuel
  | S fuel =>
      if i + WORD_SIZE <=? max then
        let! sw := or_panic (get_range src_tail i (i + WORD_SIZE)) in
        let! tw := or_panic (get_range tgt_tail i (i + WORD_SIZE)) in
        let diff := Z.lxor (from_ne_bytes little_endian sw) (from_ne_bytes little_endian tw) in
        if negb (diff =? 0) then Ok (inl (i + first_different_byte little_endian diff))
        else word_loop little_endian fuel src_tail tgt_tail max (i + WORD_SIZE)
      else Ok (inr i)
  end.

Fixpoint byte_loop (fuel : nat) (src_tail tgt_tail : bytes) (max i : Z) : Res Empty_set Z :=
  match fuel with
  | O => OutOfFuel
  | S fuel =>
      if i <? max then
        let! s := or_panic (get src_tail i) in
        let! t := or_panic (get tgt_tail i) in
        if negb (s =? t) then Ok i else byte_loop fuel src_tail tgt_tail max (i + 1)
      else Ok max
  end.

Definition extend_match (little_endian : bool) (src_data target : bytes)
  (ref_start data_pos max_match : Z) : Res Empty_set Z :=
  match get_range src_data ref_start (blen src_data) with
  | None => Ok 0
  | Some src_tail =>
      match get_range target data_pos (blen target) with
      | None => Ok 0
      | Some tgt_tail =>
          let max := Z.min (Z.min max_match (blen src_tail)) (blen tgt_tail) in
          let! r := word_loop little_endian (S (Z.to_nat max)) src_tail tgt_tail max 0 in
          match r with
          | inl n => Ok n
          | inr i => byte_loop (S (Z.to_nat max)) src_tail tgt_tail max i
          end
      end
  end.

(** * Reference: the length of the longest common prefix *)

Fixpoint common_prefix (xs ys : bytes) : Z :=
  match xs, ys with
  | x :: xs, y :: ys => if x =? y then 1 + common_prefix xs ys else 0
  | _, _ => 0
  end.

Lemma common_prefix_bound xs ys : 0 <= common_prefix xs ys <= Z.min (blen xs) (blen ys).
Proof.
  revert ys. induction xs as [|x xs IH]; intros [|y ys]; cbn [common_prefix];
    change (blen (@nil Z)) with 0; rewrite ?blen_cons.
  - lia.
  - pose proof (blen_nonneg ys). lia.
  - pose proof (blen_nonneg xs). lia.
  - specialize (IH ys). destruct (x =? y); lia.
Qed.

Lemma common_prefix_same xs : common_prefix xs xs = blen xs.
Proof. induction xs as [|x xs IH]; [done|]. cbn. rewrite Z.eqb_refl, IH. symmetry. apply blen_cons. Qed.

Lemma common_prefix_take n xs ys :
  common_prefix (take n xs) (take n ys) = Z.min (Z.of_nat n) (common_prefix xs ys).
Proof.
  revert xs ys. induction n as [|n IH]; intros xs ys.
  - rewrite !take_0. pose proof (common_prefix_bound xs ys). cbn. lia.
  - destruct xs as [|x xs], ys as [|y ys]; cbn [take common_prefix]; try lia.
    destruct (x =? y); [rewrite IH|]; lia.
Qed.

Lemma common_prefix_drop n xs ys :
  Z.of_nat n <= common_prefix xs ys ->
  common_prefix (drop n xs) (drop n ys) = common_prefix xs ys - Z.of_nat n.
Proof.
  revert xs ys. induction n as [|n IH]; intros xs ys Hn; [rewrite !drop_0; lia|].
  destruct xs as [|x xs], ys as [|y ys]; cbn [common_prefix drop] in *; try lia.
  destruct (x =? y); [|lia]. rewrite IH; lia.
Qed.

(** What the prefix length means. *)
Lemma common_prefix_slice xs ys n :
  0 <= n <= common_prefix xs ys -> slice xs 0 n = slice ys 0 n.
Proof.
  unfold slice. rewrite !drop_0, Z.sub_0_r. revert xs ys n.
  assert (H : forall (m : nat) xs ys, Z.of_nat m <= common_prefix xs ys -> take m xs = take m ys).
  { induction m as [|m IH]; intros xs ys Hm; [done|].
    destruct xs as [|x xs], ys as [|y ys]; cbn [common_prefix] in Hm; try lia.
    destruct (x =? y) eqn:E; [|lia]. cbn. f_equal; [lia|]. apply IH. lia. }
  intros xs ys n Hn. apply H. lia.
Qed.

(** * Comparing words *)

Lemma lxor_byte x y : is_byte x -> is_byte y -> is_byte (Z.lxor x y).
Proof. intros Hx Hy. apply (lxor_bound x y 8); done || lia. Qed.

Lemma trailing_zeros_double x : 0 < x -> trailing_zeros (2 * x) = 1 + trailing_zeros x.
Proof. destruct x as [|p|p]; [lia|reflexivity|lia]. Qed.

Lemma trailing_zeros_256 x : 0 < x -> trailing_zeros (256 * x) = 8 + trailing_zeros x.
Proof.
  intros Hx. replace (256 * x) with (2 * (2 * (2 * (2 * (2 * (2 * (2 * (2 * x)))))))) by lia.
  rewrite !trailing_zeros_double by lia. lia.
Qed.

Lemma trailing_zeros_nonneg x : 0 < x -> 0 <= trailing_zeros x.
Proof.
  destruct x as [|p|p]; [lia| |lia]. intros _. cbn. induction p; cbn [pos_trailing_zeros]; lia.
Qed.

Lemma trailing_zeros_divides x : 0 < x -> (2 ^ trailing_zeros x | x).
Proof.
  destruct x as [|p|p]; [lia| |lia]. intros _. cbn [trailing_zeros].
  induction p as [p IH|p IH|]; cbn [pos_trailing_zeros]; try apply Z.divide_1_l.
  assert (0 <= pos_trailing_zeros p) by (apply (trailing_zeros_nonneg (Zpos p)); lia).
  rewrite Z.pow_add_r by lia. change (Zpos (xO p)) with (2 ^ 1 * Zpos p).
  by apply Z.mul_divide_mono_l.
Qed.

Lemma trailing_zeros_low x : 0 < x -> x mod 256 <> 0 -> trailing_zeros x / 8 = 0.
Proof.
  intros Hx Hm. pose proof (trailing_zeros_nonneg x Hx).
  apply Z.div_small. split; [done|]. destruct (Z_lt_dec (trailing_zeros x) 8) as [|Hge]; [done|].
  exfalso. apply Hm, Z.mod_divide; [lia|].
  eapply Z.divide_trans; [|apply trailing_zeros_divides; done].
  replace (trailing_zeros x) with (8 + (trailing_zeros x - 8)) by lia.
  rewrite Z.pow_add_r by lia. apply Z.divide_factor_l.
Qed.

Lemma le_word_diff xs ys :
  byte_list xs -> byte_list ys -> length xs = length ys ->
  let d := Z.lxor (le_word xs) (le_word ys) in
  (d = 0 /\ xs = ys) \/
  (0 < d /\ common_prefix xs ys < blen xs /\ trailing_zeros d / 8 = common_prefix xs ys).
Proof.
  cbv zeta. revert ys. induction xs as [|x xs IH]; intros [|y ys] Hx Hy Hl; try discriminate.
  { left. done. }
  apply Forall_cons_1 in Hx as [Hx Hxs]. apply Forall_cons_1 in Hy as [Hy Hys].
  injection Hl as Hl. specialize (IH ys Hxs Hys Hl). cbn [le_word common_prefix].
  rewrite blen_cons. pose proof (common_prefix_bound xs ys) as Hcp.
  rewrite !(Z.mul_comm 256). change 256 with (2 ^ 8).
  rewrite lxor_digits by (done || lia). change (2 ^ 8) with 256.
  pose proof (lxor_byte x y Hx Hy) as Hd. unfold is_byte in Hd.
  destruct (x =? y) eqn:E.
  - assert (x = y) as -> by lia. rewrite Z.lxor_nilpotent, Z.add_0_l.
    destruct IH as [[-> ->]|(Hpos & Hlt & Htz)]; [left; done|]. right.
    rewrite Z.mul_comm, trailing_zeros_256 by done. repeat split; try lia.
    rewrite <- Htz. change 8 with (1 * 8) at 1. rewrite Z.div_add_l by lia. lia.
  - right. assert (Z.lxor x y <> 0) by (rewrite Z.lxor_eq_0_iff; lia).
    assert (0 <= Z.lxor (le_word xs) (le_word ys)) by (destruct IH as [[-> _]|[? _]]; lia).
    repeat split; [lia|pose proof (blen_nonneg xs); lia|]. apply trailing_zeros_low; [lia|].
    rewrite Z_mod_plus_full. rewrite Z.mod_small by lia. done.
Qed.

Lemma be_word_acc bs acc :
  fold_left (fun a b => 256 * a + b) bs acc = be_word bs + acc * 256 ^ blen bs.
Proof.
  unfold be_word. revert acc. induction bs as [|b bs IH]; intros acc; cbn [fold_left].
  - change (blen (@nil Z)) with 0. lia.
  - rewrite IH, (IH (256 * 0 + b)), blen_cons. pose proof (blen_nonneg bs).
    rewrite Z.pow_add_r by lia. lia.
Qed.

Lemma be_word_cons b bs : be_word (b :: bs) = be_word bs + b * 256 ^ blen bs.
Proof. unfold be_word at 1. cbn [fold_left]. rewrite be_word_acc. f_equal. Qed.

Lemma be_word_bound bs : byte_list bs -> 0 <= be_word bs < 256 ^ blen bs.
Proof.
  induction bs as [|b bs IH]; intros Hb; [split; done|].
  apply Forall_cons_1 in Hb as [Hb Hbs]. specialize (IH Hbs). unfold is_byte in Hb.
  rewrite be_word_cons, blen_cons. pose proof (blen_nonneg bs).
  rewrite Z.pow_add_r by lia. nia.
Qed.

Lemma be_word_diff xs ys :
  byte_list xs -> byte_list ys -> length xs = length ys ->
  let d := Z.lxor (be_word xs) (be_word ys) in
  (d = 0 /\ xs = ys) \/
  (0 < d /\ common_prefix xs ys < blen xs
   /\ (8 * blen xs - 1 - Z.log2 d) / 8 = common_prefix xs ys).
Proof.
  cbv zeta. revert ys. induction xs as [|x xs IH]; intros [|y ys] Hx Hy Hl; try discriminate.
  { left. done. }
  apply Forall_cons_1 in Hx as [Hx Hxs]. apply Forall_cons_1 in Hy as [Hy Hys].
  injection Hl as Hl. specialize (IH ys Hxs Hys Hl).
  pose proof (be_word_bound xs Hxs) as Bx. pose proof (be_word_bound ys Hys) as By.
  assert (Hlen : blen ys = blen xs) by (unfold blen; lia).
  assert (Hp : 256 ^ blen xs = 2 ^ (8 * blen xs)) by (rewrite Z.pow_mul_r by (pose proof (blen_nonneg xs); lia); done).
  pose proof (common_prefix_bound xs ys) as Hcp.
  rewrite !be_word_cons, Hlen, blen_cons. rewrite Hlen in By. rewrite Hp in *.
  assert (Hk : 0 <= 8 * blen xs) by lia.
  rewrite lxor_digits by done. cbn [common_prefix].
  pose proof (lxor_byte x y Hx Hy) as Hd. unfold is_byte in Hd.
  pose proof (lxor_bound _ _ _ Hk Bx By) as Bd.
  destruct (x =? y) eqn:E.
  - assert (x = y) as -> by lia. rewrite Z.lxor_nilpotent, Z.add_0_r.
    destruct IH as [[-> ->]|(Hpos & Hlt & Hlg)]; [left; done|]. right. repeat split; try lia.
    rewrite <- Hlg. replace (8 * (1 + blen xs) - 1 - Z.log2 _)
      with (1 * 8 + (8 * blen xs - 1 - Z.log2 (Z.lxor (be_word xs) (be_word ys)))) by lia.
    rewrite Z.div_add_l by lia. lia.
  - right. assert (Z.lxor x y <> 0) by (rewrite Z.lxor_eq_0_iff; lia).
    set (d := Z.lxor (be_word xs) (be_word ys) + Z.lxor x y * 2 ^ (8 * blen xs)).
    assert (Hd1 : 2 ^ (8 * blen xs) <= d) by (unfold d; nia).
    assert (Hd2 : d < 2 ^ (8 * blen xs + 8)).
    { rewrite Z.pow_add_r by lia. change (2 ^ 8) with 256. unfold d. nia. }
    assert (0 < d) by lia. apply Z.log2_le_pow2 in Hd1; [|done]. apply Z.log2_lt_pow2 in Hd2; [|done].
    repeat split; [done|pose proof (blen_nonneg xs); lia|]. apply Z.div_small. lia.
Qed.

(** Both byte orders locate the first difference of two eight-byte words. *)
Lemma word_diff little_endian xs ys :
  byte_list xs -> byte_list ys -> blen xs = WORD_SIZE -> blen ys = WORD_SIZE ->
  let d := Z.lxor (from_ne_bytes little_endian xs) (from_ne_bytes little_endian ys) in
  (d = 0 /\ xs = ys) \/
  (d <> 0 /\ common_prefix xs ys < WORD_SIZE
   /\ first_different_byte little_endian d = common_prefix xs ys).
Proof.
  cbv zeta. unfold WORD_SIZE. intros Hx Hy Lx Ly.
  assert (Hl : length xs = length ys) by (unfold blen in *; lia).
  destruct little_endian; cbn [from_ne_bytes first_different_byte].
  - destruct (le_word_diff xs ys Hx Hy Hl) as [?|(? & ? & ?)]; [by left|right].
    repeat split; [lia|lia|done].
  - destruct (be_word_diff xs ys Hx Hy Hl) as [?|(? & ? & Hlg)]; [by left|right].
    repeat split; [lia|lia|]. unfold leading_zeros. replace (_ =? 0) with false by lia.
    rewrite <- Hlg, Lx. reflexivity.
Qed.

(** * The loops *)

Lemma word_loop_spec little_endian fuel xs ys max i :
  byte_list xs -> byte_list ys -> max <= blen xs -> max <= blen ys ->
  0 <= i <= max -> i <= common_prefix xs ys -> max - i < Z.of_nat fuel ->
  exists r, word_loop little_endian fuel xs ys max i = Ok r /\
    match r with
    | inl n => n = common_prefix xs ys /\ n < max
    | inr j => i <= j <= max /\ j <= common_prefix xs ys
    end.
Proof.
  intros Hx Hy Mx My. revert i. induction fuel as [|fuel IH]; intros i Hi Hcp Hf; [lia|].
  cbn [word_loop]. unfold WORD_SIZE in *. destruct (i + 8 <=? max) eqn:E.
  2:{ eexists. split; [reflexivity|]. cbn. lia. }
  assert (Hg : forall l : bytes, max <= blen l ->
    get_range l i (i + 8) = Some (take 8 (drop (Z.to_nat i) l))).
  { intros l Hl. apply get_range_Some. split; [lia|]. unfold slice.
    by replace (Z.to_nat (i + 8 - i)) with 8%nat by lia. }
  rewrite !Hg by done. cbn [or_panic rbind].
  assert (Hb : forall l : bytes, byte_list l -> byte_list (take 8 (drop (Z.to_nat i) l)))
    by (intros; by apply Forall_take, Forall_drop).
  assert (Hl : forall l : bytes, max <= blen l -> blen (take 8 (drop (Z.to_nat i) l)) = WORD_SIZE).
  { intros l Hl. unfold blen, WORD_SIZE in *. rewrite length_take, length_drop. lia. }
  destruct (word_diff little_endian _ _ (Hb xs Hx) (Hb ys Hy) (Hl xs Mx) (Hl ys My))
    as [[-> Heq]|(Hne & Hlt & Hfd)].
  - cbn [Z.eqb negb].
    assert (Hcp8 : i + 8 <= common_prefix xs ys).
    { pose proof (common_prefix_same (take 8 (drop (Z.to_nat i) xs))) as Hs.
      rewrite Hl in Hs by done. unfold WORD_SIZE in Hs. rewrite Heq in Hs at 2.
      rewrite common_prefix_take, common_prefix_drop in Hs by lia. lia. }
    destruct (IH (i + 8)) as (r & -> & Hr); [lia|lia|lia|]. exists r. split; [done|].
    destruct r; lia.
  - replace (_ =? 0) with false by lia. cbn [negb]. eexists. split; [reflexivity|]. cbn.
    rewrite Hfd. unfold WORD_SIZE in Hlt.
    rewrite common_prefix_take, common_prefix_drop in * by lia. lia.
Qed.

Lemma byte_loop_spec fuel xs ys max i :
  max <= blen xs -> max <= blen ys -> 0 <= i <= max -> i <= common_prefix xs ys ->
  max - i < Z.of_nat fuel ->
  byte_loop fuel xs ys max i = Ok (Z.min max (common_prefix xs ys)).
Proof.
  intros Mx My. revert i. induction fuel as [|fuel IH]; intros i Hi Hcp Hf; [lia|].
  cbn [byte_loop]. destruct (i <? max) eqn:E; [|f_equal; lia].
  destruct (get_lt_Some xs i) as [x Hx]; [lia|]. destruct (get_lt_Some ys i) as [y Hy]; [lia|].
  rewrite Hx, Hy. cbn [or_panic rbind].
  assert (Hdrop : common_prefix xs ys - i = if x =? y then 1 + common_prefix
    (drop (S (Z.to_nat i)) xs) (drop (S (Z.to_nat i)) ys) else 0).
  { unfold get in Hx, Hy. replace (0 <=? i) with true in * by lia.
    apply drop_S in Hx, Hy. rewrite <- (Z2Nat.id i) at 1 by lia.
    rewrite <- common_prefix_drop by lia. rewrite Hx, Hy. reflexivity. }
  pose proof (common_prefix_bound (drop (S (Z.to_nat i)) xs) (drop (S (Z.to_nat i)) ys)).
  destruct (x =? y); cbn [negb]; [|f_equal; lia].
  apply IH; lia.
Qed.

Lemma extend_match_prefix (little_endian : bool) (src target : bytes)
  (ref_start data_pos max_match : Z) :
  byte_list src -> byte_list target -> 0 <= ref_start -> 0 <= data_pos -> 0 <= max_match ->
  extend_match little_endian src target ref_start data_pos max_match
  = Ok (Z.min max_match
          (common_prefix (drop (Z.to_nat ref_start) src) (drop (Z.to_nat data_pos) target))).
Proof.
  intros Hs Ht Hr Hd Hm. unfold extend_match. rewrite !get_range_tail by done.
  destruct (ref_start <=? blen src) eqn:E1.
  2:{ rewrite (drop_blen_ge src) by lia. cbn [common_prefix]. f_equal. lia. }
  destruct (data_pos <=? blen target) eqn:E2.
  2:{ rewrite (drop_blen_ge target) by lia.
      pose proof (common_prefix_bound (drop (Z.to_nat ref_start) src) []) as Hb.
      change (blen (@nil Z)) with 0 in Hb. f_equal. lia. }
  cbv zeta.
  set (xs := drop (Z.to_nat ref_start) src). set (ys := drop (Z.to_nat data_pos) target).
  pose proof (common_prefix_bound xs ys) as Hb.
  set (max := Z.min (Z.min max_match (blen xs)) (blen ys)).
  assert (Hx : byte_list xs) by (by apply Forall_drop).
  assert (Hy : byte_list ys) by (by apply Forall_drop).
  pose proof (blen_nonneg xs). pose proof (blen_nonneg ys).
  destruct (word_loop_spec little_endian (S (Z.to_nat max)) xs ys max 0) as (r & -> & Hspec);
    [done|done|lia|lia|lia|lia|lia|].
  cbn [rbind]. destruct r as [n|i].
  - f_equal. lia.
  - rewrite byte_loop_spec by lia. f_equal. lia.
Qed.

(** C28: the word-at-a-time comparison returns the length of the longest common
    prefix of the two tails, capped by [max_match], on targets of either byte
    order; it never panics, and a start beyond a buffer gives zero. *)
Theorem extend_match_correct (little_endian : bool) (src target : bytes)
  (ref_start data_pos max_match : Z) :
  byte_list src -> byte_list target -> 0 <= ref_start -> 0 <= data_pos -> 0 <= max_match ->
  extend_match little_endian src target ref_start data_pos max_match
  = Ok (Z.min max_match
          (common_prefix (drop (Z.to_nat ref_start) src) (drop (Z.to_nat data_pos) target))).
Proof. apply extend_match_prefix. Qed.

Lemma extend_match_correct_witness :
  extend_match true [1;2;3;4;5;6;7;8;9;10;11;12] [0;1;2;3;4;5;6;7;8;9;77;11] 0 1 11 = Ok 9.
Proof.
  rewrite (extend_match_correct true [1;2;3;4;5;6;7;8;9;10;11;12] [0;1;2;3;4;5;6;7;8;9;77;11] 0 1 11);
    [reflexivity|repeat constructor; unfold is_byte; lia|repeat constructor; unfold is_byte; lia|lia|lia|lia].
Defined.
