(* ===== verification/RabinIndex.v ===== *)
(** The Rabin fingerprint index, [src/delta/encode/rabin/mod.rs]
    ([create_delta_index_arc], [cull_bucket]): construction, and the invariant
    [wf_index] the delta generator relies on. *)

From Stdlib Require Import ZArith Lia.
From stdpp Require Import base tactics list numbers option.
From S2P Require Import Prelude RabinTables.

Record IndexEntry : Type := mkEntry { offset : Z; hash : Z }.

Record RabinDeltaIndex : Type := mkIndex {
  source : bytes;
  entries : list IndexEntry;
  buckets : list Z;
  hash_mask : Z
}.

(** * Construction *)

(** [while hsize < hsize_entries { hsize <<= 1 }]: 64 doublings exceed every [usize]. *)
Fixpoint grow_hsize (fuel : nat) (hsize hsize_entries : Z) : Z :=
  match fuel with
  | O => hsize
  | S fuel =>
      if hsize <? hsize_entries then grow_hsize fuel (Z.shiftl hsize 1) hsize_entries else hsize
  end.

(** [if let Some(last) = bucket.last_mut() { last.offset = off }]. *)
Fixpoint set_last_offset (bucket : list IndexEntry) (off : Z) : list IndexEntry :=
  match bucket with
  | [] => []
  | [e] => [mkEntry off (hash e)]
  | e :: bucket => e :: set_last_offset bucket off
  end.

(** Phase 1: the walk over the source from its end, one window per 16 bytes. *)
Fixpoint index_loop (fuel : nat) (src : bytes) (hmask pos prev_val : Z)
  (bucket_lists : list (list IndexEntry)) : Res Empty_set (list (list IndexEntry)) :=
  match fuel with
  | O => OutOfFuel
  | S fuel =>
      let window_start := pos + 1 in
      let window_end := window_start + RABIN_WINDOW in
      if blen src <? window_end then
        if pos =? 0 then Ok bucket_lists
        else index_loop fuel src hmask (Z.max 0 (pos - RABIN_WINDOW)) prev_val bucket_lists
      else
        let! window := or_panic (get_range src window_start window_end) in
        let! val := or_panic (rabin_hash window) in
        let h := Z.land val hmask in
        let! bucket := or_panic (get bucket_lists h) in
        let off := as_u32 (pos + RABIN_WINDOW) in
        let bucket := if val =? prev_val then set_last_offset bucket off
                      else bucket ++ [mkEntry off val] in
        let prev_val := if val =? prev_val then prev_val else val in
        let! bucket_lists := or_panic (set_index bucket_lists h bucket) in
        if pos =? 0 then Ok bucket_lists
        else index_loop fuel src hmask (Z.max 0 (pos - RABIN_WINDOW)) prev_val bucket_lists
  end.

(** [cull_bucket]'s loop over [bucket.drain(..).enumerate()]. *)
Fixpoint cull_loop {A} (total target idx : Z) (kept bucket : list A) : list A :=
  match bucket with
  | [] => kept
  | entry :: bucket =>
      let kept := if (blen kept <? target) && (idx * target / total =? blen kept)
                  then kept ++ [entry] else kept in
      cull_loop total target (idx + 1) kept bucket
  end.

Definition cull_bucket {A} (bucket : list A) : list A :=
  cull_loop (blen bucket) HASH_LIMIT 0 [] bucket.

(** Phase 2. *)
Definition cull_buckets {A} (bucket_lists : list (list A)) : list (list A) :=
  map (fun b => if HASH_LIMIT <? blen b then cull_bucket b else b) bucket_lists.

(** Phase 3: flat arrays; the last bucket start is the sentinel. *)
Fixpoint pack_loop (bucket_lists : list (list IndexEntry)) (entries_vec : list IndexEntry)
  (bucket_starts : list Z) : list IndexEntry * list Z :=
  match bucket_lists with
  | [] => (entries_vec, bucket_starts ++ [as_u32 (blen entries_vec)])
  | bucket :: bucket_lists =>
      pack_loop bucket_lists (entries_vec ++ bucket)
        (bucket_starts ++ [as_u32 (blen entries_vec)])
  end.

Definition create_delta_index_arc (src : bytes) : Res Empty_set (option RabinDeltaIndex) :=
  let src_len := blen src in
  if src_len =? 0 then Ok None
  else
    let entries_count := (src_len - 1) / RABIN_WINDOW in
    if entries_count =? 0 then Ok None
    else
      let hsize := grow_hsize 64 16 (entries_count / 4) in
      let hmask := hsize - 1 in
      let pos := entries_count * RABIN_WINDOW - RABIN_WINDOW in
      let! bucket_lists :=
        index_loop (S (Z.to_nat entries_count)) src hmask pos (2 ^ 32 - 1)
          (repeat [] (Z.to_nat hsize)) in
      let '(entries_vec, bucket_starts) := pack_loop (cull_buckets bucket_lists) [] [] in
      Ok (Some (mkIndex src entries_vec bucket_starts (as_u32 hmask))).

(** [create_delta_index] only wraps the slice in an [Arc]. *)
Definition create_delta_index (src : bytes) : Res Empty_set (option RabinDeltaIndex) :=
  create_delta_index_arc src.

(** * The index invariant *)

(** An entry points into the source, at the last byte of a window it hashes. *)
Definition entry_ok (src : bytes) (e : IndexEntry) : Prop :=
  RABIN_WINDOW <= offset e < blen src
  /\ rabin_hash (slice src (offset e - RABIN_WINDOW + 1) (offset e + 1)) = Some (hash e).

Record wf_index (idx : RabinDeltaIndex) : Prop := {
  wf_source_len : blen (source idx) < 2 ^ 32;
  wf_mask : 0 <= hash_mask idx;
  wf_buckets : forall bi, 0 <= bi <= hash_mask idx ->
    exists lo hi, get (buckets idx) bi = Some lo /\ get (buckets idx) (bi + 1) = Some hi
      /\ 0 <= lo <= hi /\ hi <= blen (entries idx);
  wf_entries : Forall (entry_ok (source idx)) (entries idx)
}.

Lemma grow_hsize_ge fuel h n : 0 < h -> h <= grow_hsize fuel h n.
Proof.
  revert h. induction fuel as [|fuel IH]; intros h Hh; cbn [grow_hsize]; [lia|].
  destruct (h <? n); [|lia]. specialize (IH (Z.shiftl h 1)).
  rewrite Z.shiftl_mul_pow2 in * by lia. lia.
Qed.

Lemma grow_hsize_le fuel h n : 0 < h -> grow_hsize fuel h n <= Z.max h (2 * n).
Proof.
  revert h. induction fuel as [|fuel IH]; intros h Hh; cbn [grow_hsize]; [lia|].
  destruct (h <? n) eqn:E; [|lia]. specialize (IH (Z.shiftl h 1)).
  rewrite Z.shiftl_mul_pow2 in * by lia. lia.
Qed.

(** The loop has reached [hsize_entries] within its 64 rounds. *)
Lemma grow_hsize_reaches fuel h n : 0 < h -> n <= h * 2 ^ Z.of_nat fuel -> n <= grow_hsize fuel h n.
Proof.
  revert h. induction fuel as [|fuel IH]; intros h Hh Hn; cbn [grow_hsize]; [cbn in Hn; lia|].
  destruct (h <? n) eqn:E; [|lia]. apply IH; rewrite Z.shiftl_mul_pow2 by lia; [lia|].
  rewrite Nat2Z.inj_succ, Z.pow_succ_r in Hn by lia. lia.
Qed.

(** * Culling *)

Lemma cull_loop_length {A} (total target idx : Z) (kept bucket : list A) :
  0 < target < total -> 0 <= idx -> idx + blen bucket = total ->
  blen kept = (if idx =? 0 then 0 else (idx - 1) * target / total + 1) ->
  blen (cull_loop total target idx kept bucket) = target.
Proof.
  intros Ht. revert idx kept. induction bucket as [|e bucket IH]; intros idx kept Hi Hsum Hk.
  - cbn. change (blen (@nil A)) with 0 in Hsum. replace (idx =? 0) with false in Hk by lia.
    rewrite Hk. replace idx with total by lia.
    rewrite <- (Z.div_unique ((total - 1) * target) total (target - 1) (total - target)); lia.
  - rewrite blen_cons in Hsum. pose proof (blen_nonneg bucket). cbn [cull_loop].
    set (q := idx * target / total).
    assert (Hq : q < target) by (apply Z.div_lt_upper_bound; nia).
    assert (Hq0 : 0 <= q) by (apply Z.div_pos; nia).
    assert (Hkq : blen kept = q \/ blen kept = q + 1).
    { destruct (idx =? 0) eqn:E; [left; rewrite Hk; unfold q; replace idx with 0 by lia; done|].
      assert (H1 : (idx - 1) * target / total <= q) by (apply Z.div_le_mono; lia).
      assert (H2 : q <= (idx - 1) * target / total + 1).
      { rewrite <- Z.div_add by lia. apply Z.div_le_mono; lia. }
      lia. }
    apply IH; [lia|lia|]. replace (idx + 1 =? 0) with false by lia.
    replace (idx + 1 - 1) with idx by lia. fold q.
    destruct ((blen kept <? target) && (q =? blen kept)) eqn:E; [rewrite blen_app, blen_cons|].
    + change (blen (@nil A)) with 0. lia.
    + lia.
Qed.

Lemma cull_loop_Forall {A} (P : A -> Prop) total target idx kept bucket :
  Forall P kept -> Forall P bucket -> Forall P (cull_loop total target idx kept bucket).
Proof.
  revert idx kept. induction bucket as [|e bucket IH]; intros idx kept Hk Hb; [done|].
  apply Forall_cons_1 in Hb as [He Hb]. cbn [cull_loop]. apply IH; [|done].
  destruct (_ && _); [|done]. apply Forall_app; split; auto.
Qed.

Lemma cull_buckets_Forall {A} (P : A -> Prop) bl :
  Forall (Forall P) bl -> Forall (Forall P) (cull_buckets bl).
Proof.
  unfold cull_buckets. intros Hbl. apply Forall_map.
  eapply Forall_impl; [|exact Hbl]. intros b Hb. destruct (_ <? _); [|done].
  apply cull_loop_Forall; auto.
Qed.

Lemma cull_buckets_total {A} (bl : list (list A)) :
  blen (concat (cull_buckets bl)) <= blen (concat bl).
Proof.
  induction bl as [|b bl IH]; [done|]. unfold cull_buckets in *. cbn [map concat].
  rewrite !blen_app. destruct (HASH_LIMIT <? blen b) eqn:E; [|lia].
  unfold cull_bucket, HASH_LIMIT in *. rewrite cull_loop_length; [lia|lia|lia|lia|reflexivity].
Qed.

(** * Filling the buckets *)

Definition last_hash (bl : list (list IndexEntry)) (hmask prev_val : Z) : Prop :=
  prev_val = 2 ^ 32 - 1 \/
  exists b e, get bl (Z.land prev_val hmask) = Some (b ++ [e]) /\ hash e = prev_val.

Lemma set_last_offset_snoc b e off : set_last_offset (b ++ [e]) off = b ++ [mkEntry off (hash e)].
Proof.
  induction b as [|x b IH]; [done|]. destruct b as [|y b]; [done|].
  transitivity (x :: set_last_offset ((y :: b) ++ [e]) off); [reflexivity|]. by rewrite IH.
Qed.

Lemma land_mask v m : 0 <= v -> 0 <= m -> 0 <= Z.land v m <= m.
Proof.
  intros Hv Hm. split; [apply Z.land_nonneg; lia|].
  assert (H : Z.land v m + Z.ldiff m v = m).
  { rewrite Z.add_nocarry_lxor.
    - apply Z.bits_inj'. intros n Hn. rewrite Z.lxor_spec, Z.land_spec, Z.ldiff_spec.
      by destruct (Z.testbit v n), (Z.testbit m n).
    - apply Z.bits_inj'. intros n Hn. rewrite !Z.land_spec, Z.ldiff_spec, Z.bits_0.
      by destruct (Z.testbit v n), (Z.testbit m n). }
  assert (0 <= Z.ldiff m v) by (apply Z.ldiff_nonneg; lia). lia.
Qed.

(** One window added to its bucket. *)
Lemma index_loop_ok fuel src hmask k prev_val bl :
  byte_list src -> blen src < 2 ^ 32 -> 0 <= hmask -> 0 <= k -> k < Z.of_nat fuel ->
  k * 16 + 17 <= blen src ->
  blen bl = hmask + 1 -> Forall (Forall (entry_ok src)) bl -> last_hash bl hmask prev_val ->
  exists bl', index_loop fuel src hmask (k * 16) prev_val bl = Ok bl'
    /\ blen bl' = blen bl /\ Forall (Forall (entry_ok src)) bl'
    /\ blen (concat bl') <= blen (concat bl) + k + 1.
Proof.
  intros Hsrc Hlen Hm. revert fuel prev_val bl.
  induction k as [k IH] using (well_founded_induction (Z.lt_wf 0)).
  intros fuel prev_val bl Hk Hf Hend Hbl Hok Hlast. destruct fuel as [|fuel]; [lia|].
  cbn [index_loop]. unfold RABIN_WINDOW. replace (blen src <? _) with false by lia.
  assert (Hg : get_range src (k * 16 + 1) (k * 16 + 1 + 16)
    = Some (slice src (k * 16 + 1) (k * 16 + 1 + 16))) by (apply get_range_Some; split; [lia|done]).
  rewrite Hg. cbn [or_panic rbind].
  destruct (rabin_hash_in31 (slice src (k * 16 + 1) (k * 16 + 1 + 16))) as (val & Hval & Hv31).
  { apply Forall_take, Forall_drop. done. }
  rewrite Hval. cbn [or_panic rbind]. unfold in31 in Hv31.
  pose proof (land_mask val hmask ltac:(lia) Hm) as Hland.
  destruct (get_lt_Some bl (Z.land val hmask)) as [bucket Hbucket]; [lia|].
  rewrite Hbucket. cbn [or_panic rbind].
  replace (as_u32 (k * 16 + 16)) with (k * 16 + 16) by (unfold as_u32; rewrite Z.mod_small; lia).
  assert (Hnew : entry_ok src (mkEntry (k * 16 + 16) val)).
  { split; cbn [offset hash]; unfold RABIN_WINDOW; [lia|].
    replace (k * 16 + 16 - 16 + 1) with (k * 16 + 1) by lia.
    replace (k * 16 + 16 + 1) with (k * 16 + 1 + 16) by lia. done. }
  set (bucket' := if val =? prev_val then _ else _).
  destruct (set_index_get bl _ bucket bucket' Hbucket) as (bl1 & Hset & Hget1 & Hbl1 & p & q & Hp & Hq).
  rewrite Hset. cbn [or_panic rbind].
  assert (Hb' : Forall (entry_ok src) bucket' /\ blen bucket' <= blen bucket + 1
    /\ exists b e, bucket' = b ++ [e] /\ hash e = val).
  { assert (Hbok : Forall (entry_ok src) bucket).
    { rewrite Hp in Hok. apply Forall_app in Hok as [_ Hok]. by apply Forall_cons_1 in Hok as [? _]. }
    unfold bucket'. destruct (val =? prev_val) eqn:E.
    - destruct Hlast as [|(b & e & Hlb & He)]; [lia|].
      assert (Hpv : prev_val = val) by lia. rewrite Hpv in Hlb, He. rewrite Hbucket in Hlb.
      injection Hlb as ->. rewrite set_last_offset_snoc. apply Forall_app in Hbok as [Hb _].
      rewrite He. split; [apply Forall_app; split; auto|].
      split; [blens|]. eauto.
    - split; [apply Forall_app; split; auto|]. split; [blens|]. eauto. }
  destruct Hb' as (Hb'ok & Hb'len & b & e & Hb'e & He).
  assert (Hok1 : Forall (Forall (entry_ok src)) bl1).
  { rewrite Hp in Hok. rewrite Hq. apply Forall_app in Hok as [? Hok].
    apply Forall_cons_1 in Hok as [_ ?]. apply Forall_app; split; auto. }
  assert (Hcat : blen (concat bl1) <= blen (concat bl) + 1).
  { rewrite Hp, Hq, !concat_app. cbn [concat]. rewrite !blen_app. lia. }
  destruct (k * 16 =? 0) eqn:E0.
  { exists bl1. split; [done|]. repeat split; auto. lia. }
  replace (Z.max 0 (k * 16 - 16)) with ((k - 1) * 16) by lia.
  destruct (IH (k - 1) ltac:(lia) fuel (if val =? prev_val then prev_val else val) bl1)
    as (bl2 & -> & H2 & H3 & H4); try lia; auto.
  - right. exists b, e. replace (if val =? prev_val then prev_val else val) with val
      by (destruct (val =? prev_val) eqn:?; lia). rewrite Hget1. split; congruence.
  - exists bl2. split; [done|]. repeat split; auto; lia.
Qed.

(** * Packing *)

Fixpoint starts (acc : Z) (bl : list (list IndexEntry)) : list Z :=
  match bl with
  | [] => [as_u32 acc]
  | b :: bl => as_u32 acc :: starts (acc + blen b) bl
  end.

Lemma pack_loop_spec bl entries_vec bucket_starts :
  pack_loop bl entries_vec bucket_starts
  = (entries_vec ++ concat bl, bucket_starts ++ starts (blen entries_vec) bl).
Proof.
  revert entries_vec bucket_starts. induction bl as [|b bl IH]; intros ev bs; cbn [pack_loop].
  - cbn [concat starts]. by rewrite app_nil_r.
  - rewrite IH. cbn [concat starts]. by rewrite blen_app, <- !app_assoc.
Qed.

Lemma starts_get bl acc i :
  0 <= acc -> acc + blen (concat bl) < 2 ^ 32 -> 0 <= i < blen bl ->
  exists lo hi, get (starts acc bl) i = Some lo /\ get (starts acc bl) (i + 1) = Some hi
    /\ acc <= lo <= hi /\ hi <= acc + blen (concat bl).
Proof.
  revert acc i. induction bl as [|b bl IH]; intros acc i Hacc Hsum Hi; [blens|].
  cbn [concat] in *. rewrite blen_app in *. rewrite blen_cons in Hi.
  pose proof (blen_nonneg b). pose proof (blen_nonneg (concat bl)).
  cbn [starts]. rewrite (get_cons_S _ _ (i + 1)) by lia. replace (i + 1 - 1) with i by lia.
  assert (Hhd : get (starts (acc + blen b) bl) 0 = Some (acc + blen b)).
  { destruct bl; cbn [starts]; rewrite get_cons_0; f_equal; apply Z.mod_small; lia. }
  destruct (Z.eq_dec i 0) as [->|Hne].
  - exists acc, (acc + blen b). rewrite get_cons_0, Hhd. repeat split; try lia.
    f_equal. apply Z.mod_small; lia.
  - rewrite get_cons_S by lia.
    destruct (IH (acc + blen b) (i - 1)) as (lo & hi & Hlo & Hhi & Hle); [lia|lia|lia|].
    replace (i - 1 + 1) with i in Hhi by lia. exists lo, hi. repeat split; auto; lia.
Qed.

(** Building an index never panics and yields a well-formed index over the whole
    source, or nothing when the source is shorter than one window. *)
Lemma create_delta_index_arc_ok src :
  byte_list src -> blen src < 2 ^ 32 ->
  (blen src <= RABIN_WINDOW /\ create_delta_index_arc src = Ok None) \/
  exists idx, create_delta_index_arc src = Ok (Some idx) /\ source idx = src /\ wf_index idx.
Proof.
  intros Hsrc Hlen. unfold create_delta_index_arc, RABIN_WINDOW. pose proof (blen_nonneg src).
  destruct (blen src =? 0) eqn:E0; [left; split; [lia|done]|].
  set (n := (blen src - 1) / 16). assert (Hn : 0 <= n) by (apply Z.div_pos; lia).
  pose proof (Z.mul_div_le (blen src - 1) 16 ltac:(lia)) as Hn16. fold n in Hn16.
  destruct (n =? 0) eqn:En.
  { left. split; [|done]. pose proof (Z.mul_succ_div_gt (blen src - 1) 16 ltac:(lia)). fold n in H0. lia. }
  right. set (hsize := grow_hsize 64 16 (n / 4)).
  assert (Hh : 16 <= hsize) by (apply grow_hsize_ge; lia).
  assert (Hh' : hsize <= Z.max 16 (2 * (n / 4))) by (apply grow_hsize_le; lia).
  assert (Hn4 : n / 4 <= n) by (apply Z.div_le_upper_bound; lia).
  replace (n * 16 - 16) with ((n - 1) * 16) by lia.
  assert (Hrep : blen (repeat (@nil IndexEntry) (Z.to_nat hsize)) = hsize - 1 + 1)
    by (unfold blen; rewrite repeat_length; lia).
  destruct (index_loop_ok (S (Z.to_nat n)) src (hsize - 1) (n - 1) (2 ^ 32 - 1)
    (repeat [] (Z.to_nat hsize))) as (bl & -> & Hbl & Hok & Htot); try lia; auto.
  { apply Forall_forall. intros x Hx. apply repeat_spec in Hx. by subst x. }
  { by left. }
  cbn [rbind]. rewrite pack_loop_spec. cbn [app].
  assert (Hcat0 : concat (repeat (@nil IndexEntry) (Z.to_nat hsize)) = []).
  { clear. induction (Z.to_nat hsize); done. }
  rewrite Hcat0 in Htot. change (blen (@nil IndexEntry)) with 0 in *.
  pose proof (cull_buckets_total bl) as Hcull.
  assert (Hlc : blen (cull_buckets bl) = hsize)
    by (unfold cull_buckets, blen in *; rewrite length_map; lia).
  eexists. split; [reflexivity|]. split; [done|]. split; cbn [source entries buckets hash_mask]; auto.
  - unfold as_u32. apply Z.mod_pos_bound. lia.
  - unfold as_u32. rewrite Z.mod_small by lia. intros bi Hbi.
    destruct (starts_get (cull_buckets bl) 0 bi) as (lo & hi & ? & ? & ?); [lia|lia|lia|].
    exists lo, hi. repeat split; auto; lia.
  - apply Forall_concat. by apply cull_buckets_Forall.
Qed.

(** a source of at most 16 bytes has no index; every longer source below
    4 GiB gets one, and it is well formed: each hash value selects a bucket that
    is a range of the entry array, and each entry points at the last byte of a
    window of the source whose hash it carries.  Building it never panics. *)
Theorem create_delta_index_wf (src : bytes) :
  byte_list src -> blen src < 2 ^ 32 ->
  if blen src <=? RABIN_WINDOW then create_delta_index src = Ok None
  else exists idx, create_delta_index src = Ok (Some idx) /\ source idx = src /\ wf_index idx.
Proof.
  intros Hs Hl. unfold create_delta_index.
  destruct (create_delta_index_arc_ok src Hs Hl) as [[Hle ->]|(idx & E & Hidx)].
  - by replace (blen src <=? RABIN_WINDOW) with true by lia.
  - destruct (blen src <=? RABIN_WINDOW) eqn:El; [|eauto]. exfalso.
    unfold create_delta_index_arc, RABIN_WINDOW in *. pose proof (blen_nonneg src).
    destruct (blen src =? 0) eqn:E0; [discriminate|].
    rewrite Z.div_small in E by lia. discriminate.
Qed.

Lemma create_delta_index_wf_witness :
  exists idx, create_delta_index [1;2;3;4;5;6;7;8;9;10;11;12;13;14;15;16;17;18] = Ok (Some idx)
    /\ source idx = [1;2;3;4;5;6;7;8;9;10;11;12;13;14;15;16;17;18] /\ wf_index idx.
Proof.
  apply (create_delta_index_wf [1;2;3;4;5;6;7;8;9;10;11;12;13;14;15;16;17;18]);
    [repeat constructor; unfold is_byte; lia|vm_compute; reflexivity].
Defined.

(** Culling an overfull bucket keeps exactly [HASH_LIMIT] of its entries. *)
Theorem cull_bucket_exact {A} (bucket : list A) (P : A -> Prop) :
  HASH_LIMIT < blen bucket -> Forall P bucket ->
  blen (cull_bucket bucket) = HASH_LIMIT /\ Forall P (cull_bucket bucket).
Proof.
  intros Hl HP. split; [|by apply cull_loop_Forall].
  unfold cull_bucket, HASH_LIMIT in *. by apply cull_loop_length; [lia|lia|lia|].
Qed.

Lemma cull_bucket_exact_witness :
  blen (cull_bucket (seqZ 0 100)) = HASH_LIMIT /\ Forall (fun x => 0 <= x) (cull_bucket (seqZ 0 100)).
Proof.
  apply (cull_bucket_exact (seqZ 0 100) (fun x => 0 <= x)); [vm_compute; reflexivity|].
  apply Forall_forall. intros x Hx. apply list_elem_of_In, elem_of_seqZ in Hx. lia.
Defined.
