(* ===== verification/RabinDelta.v ===== *)
(** The Rabin delta generator, [src/delta/encode/rabin/mod.rs]
    ([create_delta_inner] and its public entry points).

    The mutable locals of the source's loop are the fields of [Gen]; [gen_step]
    is one round of the loop and [gen_loop] the loop with its [max_size] check.
    The profiling counters ([DeltaStats]) and the capacity reservations are left
    out: neither is read by the algorithm. *)

From Stdlib Require Import ZArith Lia.
From stdpp Require Import base tactics list numbers option.
From S2P Require Import Prelude Stream DeltaUtils DeltaFormat DeltaDecode RabinTables ExtendMatch RabinIndex.

Record Gen : Type := mkGen {
  out : bytes;
  data_len_pos : Z;
  data_pos : Z;
  inscnt : Z;
  moff : Z;
  msize : Z;
  val : Z
}.

Section generator.
Variable little_endian : bool.

(** The scan of one bucket for the longest match; [break] is returning. *)
Fixpoint scan_bucket (src target : bytes) (pos hash_val : Z) (bucket : list IndexEntry)
  (msize moff : Z) : Res Empty_set (Z * Z) :=
  match bucket with
  | [] => Ok (msize, moff)
  | entry :: bucket =>
      if negb (hash entry =? hash_val) then
        scan_bucket src target pos hash_val bucket msize moff
      else
        let ref_start := offset entry in
        if blen src <? ref_start then Panic
        else
          let src_remain := blen src - ref_start in
          let trg_remain := blen target - pos in
          let max_match := Z.min src_remain trg_remain in
          if max_match <=? msize then Ok (msize, moff)
          else
            let! match_len := extend_match little_endian src target ref_start pos max_match in
            if msize <? match_len then
              let msize := as_u32 match_len in
              let moff := as_u32 ref_start in
              if 4096 <=? msize then Ok (msize, moff)
              else scan_bucket src target pos hash_val bucket msize moff
            else scan_bucket src target pos hash_val bucket msize moff
  end.

(** [while cnt < max_back && src[match_off - 1 - cnt] == target[pos - 1 - cnt]]. *)
Fixpoint back_loop (fuel : nat) (src target : bytes) (match_off pos max_back cnt : Z)
  : Res Empty_set Z :=
  match fuel with
  | O => OutOfFuel
  | S fuel =>
      if cnt <? max_back then
        let! s := or_panic (get src (match_off - 1 - cnt)) in
        let! t := or_panic (get target (pos - 1 - cnt)) in
        if s =? t then back_loop fuel src target match_off pos max_back (cnt + 1) else Ok cnt
      else Ok cnt
  end.

(** The update of the rolling hash at [data_pos]. *)
Definition roll_val (target : bytes) (data_pos val new_byte : Z) : option Z :=
  if RABIN_WINDOW <=? data_pos then
    oldest ← get target (data_pos - RABIN_WINDOW);
    rabin_roll val oldest new_byte
  else rabin_step val new_byte.

(** The bucket search, skipped once a match of 4096 bytes is at hand. *)
Definition search (idx : RabinDeltaIndex) (target : bytes) (st : Gen) (val : Z)
  : Res Empty_set (Z * Z) :=
  if msize st <? 4096 then
    let bi := Z.land val (hash_mask idx) in
    let! bucket_start := or_panic (get (buckets idx) bi) in
    let! bucket_end := or_panic (get (buckets idx) (bi + 1)) in
    let! bucket_entries := or_panic (get_range (entries idx) bucket_start bucket_end) in
    scan_bucket (source idx) target (data_pos st) val bucket_entries (msize st) (moff st)
  else Ok (msize st, moff st).

(** The branch [msize < 4]: one more literal byte. *)
Definition emit_literal (st : Gen) (new_byte moff val : Z) : Res Empty_set Gen :=
  let data_len_pos := if inscnt st =? 0 then blen (out st) else data_len_pos st in
  let out := if inscnt st =? 0 then out st ++ [0] else out st in
  let out := out ++ [new_byte] in
  let inscnt := inscnt st + 1 in
  let data_pos := data_pos st + 1 in
  if inscnt =? DATA_INS_LEN then
    let! out := or_panic (set_index out data_len_pos (as_u8 DATA_INS_LEN)) in
    Ok (mkGen out data_len_pos data_pos 0 moff 0 val)
  else Ok (mkGen out data_len_pos data_pos inscnt moff 0 val).

(** The branch [msize >= 4]: backward extension, the pending literals, a copy. *)
Definition emit_copy (src target : bytes) (st : Gen) (msize moff val : Z) : Res Empty_set Gen :=
  let max_back := Z.min (inscnt st) moff in
  let! back_extend :=
    back_loop (S (Z.to_nat max_back)) src target moff (data_pos st) max_back 0 in
  let match_off := moff - back_extend in
  let match_len := msize + back_extend in
  let data_pos := data_pos st - back_extend in
  let inscnt' := inscnt st - back_extend in
  let out' := if 0 <? back_extend
              then take (Z.to_nat (if inscnt' =? 0 then data_len_pos st
                                   else blen (out st) - back_extend)) (out st)
              else out st in
  let! out' := if 0 <? inscnt'
               then or_panic (set_index out' (data_len_pos st) (as_u8 inscnt'))
               else Ok out' in
  let remaining := as_u32 match_len in
  let remaining_off := as_u32 match_off in
  let left := Z.max 0 (remaining - 65536) in
  let remaining := remaining - left in
  let out' := push_copy_op out' remaining_off remaining in
  let data_pos := data_pos + remaining in
  let moff := remaining_off + remaining in
  if (left <? 4096) && (RABIN_WINDOW <=? data_pos) then
    let! window := or_panic (get_range target (data_pos - RABIN_WINDOW) data_pos) in
    let! val := or_panic (rabin_hash window) in
    Ok (mkGen out' (data_len_pos st) data_pos 0 moff left val)
  else Ok (mkGen out' (data_len_pos st) data_pos 0 moff left val).

(** One round of the match loop. *)
Definition gen_step (idx : RabinDeltaIndex) (target : bytes) (st : Gen) : Res Empty_set Gen :=
  let! new_byte := or_panic (get target (data_pos st)) in
  let! val := or_panic (roll_val target (data_pos st) (val st) new_byte) in
  let! '(msize, moff) := search idx target st val in
  if msize <? 4 then emit_literal st new_byte moff val
  else emit_copy (source idx) target st msize moff val.

Definition exceeds (max_size : option Z) (n : Z) : bool :=
  match max_size with Some max => max <? n | None => false end.

Fixpoint gen_loop (fuel : nat) (idx : RabinDeltaIndex) (target : bytes) (max_size : option Z)
  (st : Gen) : Res Empty_set (option Gen) :=
  match fuel with
  | O => OutOfFuel
  | S fuel =>
      if data_pos st <? blen target then
        let! st := gen_step idx target st in
        if exceeds max_size (blen (out st)) then Ok None
        else gen_loop fuel idx target max_size st
      else Ok (Some st)
  end.

Definition delta_header (idx : RabinDeltaIndex) (target : bytes) : bytes :=
  write_varint (blen (source idx)) ++ write_varint (blen target).

(** The state before the loop: the first window is a literal run. *)
Definition gen_init (idx : RabinDeltaIndex) (target : bytes) : Res Empty_set Gen :=
  let out := delta_header idx target in
  let init_count := Z.min RABIN_WINDOW (blen target) in
  let! window := or_panic (get_range target 0 init_count) in
  let! val := or_panic (rabin_hash window) in
  Ok (mkGen ((out ++ [0]) ++ window) (blen out) init_count init_count 0 0 val).

(** Every round advances [data_pos], so the target's length bounds the loop. *)
Definition create_delta_inner (idx : RabinDeltaIndex) (target : bytes) (max_size : option Z)
  : Res Empty_set (option bytes) :=
  if blen target =? 0 then Ok (Some (delta_header idx target))
  else
    let! st := gen_init idx target in
    let! r := gen_loop (S (length target)) idx target max_size st in
    match r with
    | None => Ok None
    | Some st =>
        let! out := if 0 <? inscnt st
                    then or_panic (set_index (out st) (data_len_pos st) (as_u8 (inscnt st)))
                    else Ok (out st) in
        if exceeds max_size (blen out) then Ok None else Ok (Some out)
    end.

Definition create_delta (idx : RabinDeltaIndex) (target : bytes) (max_size : option Z)
  : Res Empty_set (option bytes) :=
  create_delta_inner idx target max_size.

(** [encode_literal_only]'s chunking loop. *)
Fixpoint literal_loop (fuel : nat) (new_data : bytes) (pos : Z) (out : bytes)
  : Res Empty_set bytes :=
  match fuel with
  | O => OutOfFuel
  | S fuel =>
      if pos <? blen new_data then
        let chunk := Z.min DATA_INS_LEN (blen new_data - pos) in
        let! piece := or_panic (get_range new_data pos (pos + chunk)) in
        literal_loop fuel new_data (pos + chunk) ((out ++ [as_u8 chunk]) ++ piece)
      else Ok out
  end.

Definition encode_literal_only (source_len : Z) (new_data : bytes) : Res Empty_set bytes :=
  literal_loop (S (length new_data)) new_data 0
    (write_varint source_len ++ write_varint (blen new_data)).

Definition encode_rabin (old_data new_data : bytes) : Res Empty_set bytes :=
  if blen new_data =? 0 then Ok (write_varint (blen old_data) ++ write_varint 0)
  else if blen old_data =? 0 then encode_literal_only 0 new_data
  else
    let! index := create_delta_index old_data in
    match index with
    | Some index =>
        let! delta := create_delta index new_data None in
        or_panic delta
    | None => encode_literal_only (blen old_data) new_data
    end.

Definition encode_rabin_with_index (idx : RabinDeltaIndex) (target : bytes)
  : Res Empty_set bytes :=
  let! delta := create_delta idx target None in or_panic delta.

Definition encode_rabin_with_index_and_max_size (idx : RabinDeltaIndex) (target : bytes)
  (max_size : Z) : Res Empty_set (option bytes) :=
  if blen target =? 0
  then Ok (Some (write_varint (blen (source idx)) ++ write_varint 0))
  else create_delta idx target (Some max_size).
End generator.

(** * Invariants of the generator *)

(** The current best match: equal ranges of the source and of the target. *)
Definition match_inv (src target : bytes) (pos msize moff : Z) : Prop :=
  0 <= msize /\ 0 <= moff /\ moff + msize <= blen src /\ pos + msize <= blen target
  /\ slice src moff (moff + msize) = slice target pos (pos + msize).

(** The bytes written so far are complete opcodes [ops] for the target up to the
    pending literal run, then the run behind its length placeholder. *)
Record run_inv (src target hdr : bytes) (st : Gen) (ops : list Ins) : Prop := {
  ri_ops : Forall (ins_ok src) ops;
  ri_bytes : byte_list (delta_ops ops);
  ri_cnt : 0 <= inscnt st < DATA_INS_LEN;
  ri_pos : inscnt st <= data_pos st <= blen target;
  ri_denotes : delta_out src ops = slice target 0 (data_pos st - inscnt st);
  ri_out : out st = (hdr ++ delta_ops ops) ++
    (if inscnt st =? 0 then [] else 0 :: slice target (data_pos st - inscnt st) (data_pos st));
  ri_len_pos : 0 < inscnt st -> data_len_pos st = blen (hdr ++ delta_ops ops)
}.

(** While the index is still consulted, [val] is the hash of the last window. *)
Definition hash_inv (target : bytes) (st : Gen) : Prop :=
  in31 (val st) /\ Z.min RABIN_WINDOW (blen target) <= data_pos st
  /\ (RABIN_WINDOW <= data_pos st -> msize st < 4096 ->
      rabin_hash (slice target (data_pos st - RABIN_WINDOW) (data_pos st)) = Some (val st)).

Definition gen_inv (src target hdr : bytes) (st : Gen) : Prop :=
  (exists ops, run_inv src target hdr st ops)
  /\ match_inv src target (data_pos st) (msize st) (moff st)
  /\ hash_inv target st.

Section generator_proofs.
Variable little_endian : bool.
Variables src target : bytes.
Hypothesis Hsrc : byte_list src.
Hypothesis Htarget : byte_list target.
Hypothesis Hsrc_len : blen src < 2 ^ 32.

Lemma match_inv_prefix pos n m k :
  0 <= pos -> match_inv src target pos n m -> 0 <= k <= n -> match_inv src target pos k m.
Proof.
  intros Hp (H1 & H2 & H3 & H4 & H5) Hk. repeat split; try lia.
  by apply (slice_take_eq _ _ _ _ n).
Qed.

Lemma scan_bucket_ok pos v bucket n m :
  Forall (entry_ok src) bucket -> 0 <= pos < blen target -> match_inv src target pos n m ->
  exists n' m', scan_bucket little_endian src target pos v bucket n m = Ok (n', m')
    /\ match_inv src target pos n' m' /\ n <= n'.
Proof.
  intros Hb Hpos. revert n m. induction Hb as [|e bucket [[He1 He2] _] Hb IH]; intros n m Hm.
  { exists n, m. repeat split; auto; apply Hm || lia. }
  cbn [scan_bucket]. destruct (negb _); [by apply IH|].
  unfold RABIN_WINDOW in He1. replace (blen src <? offset e) with false by lia.
  destruct (_ <=? n) eqn:E1; [exists n, m; repeat split; auto; apply Hm || lia|].
  rewrite extend_match_prefix by (auto; lia). cbn [rbind].
  set (cp := common_prefix _ _). set (len := Z.min _ cp).
  pose proof (common_prefix_bound (drop (Z.to_nat (offset e)) src) (drop (Z.to_nat pos) target)) as Hcp.
  fold cp in Hcp. rewrite !blen_drop in Hcp by lia.
  destruct (n <? len) eqn:E2; [|by apply IH].
  unfold as_u32. rewrite !Z.mod_small by lia.
  assert (Hn : match_inv src target pos len (offset e)).
  { repeat split; try lia.
    rewrite <- (Z.add_0_r (offset e)) at 1. rewrite <- (Z.add_0_r pos) at 1.
    rewrite <- !slice_drop by lia. apply common_prefix_slice. fold cp. lia. }
  destruct (4096 <=? len) eqn:E3.
  - exists len, (offset e). split; [done|]. split; [done|]. lia.
  - destruct (IH len (offset e) Hn) as (n' & m' & -> & Hm' & Hle). exists n', m'.
    split; [done|]. split; [done|]. lia.
Qed.

Lemma back_loop_ok fuel m pos max_back cnt :
  m <= blen src -> pos <= blen target -> max_back <= m -> max_back <= pos ->
  0 <= cnt <= max_back -> max_back - cnt < Z.of_nat fuel ->
  slice src (m - cnt) m = slice target (pos - cnt) pos ->
  exists k, back_loop fuel src target m pos max_back cnt = Ok k
    /\ cnt <= k <= max_back /\ slice src (m - k) m = slice target (pos - k) pos.
Proof.
  intros Hm Hp Hbm Hbp. revert cnt. induction fuel as [|fuel IH]; intros cnt Hc Hf Heq; [lia|].
  cbn [back_loop]. destruct (cnt <? max_back) eqn:E; [|exists cnt; auto with lia].
  destruct (get_lt_Some src (m - 1 - cnt)) as [s Hs]; [lia|].
  destruct (get_lt_Some target (pos - 1 - cnt)) as [t Ht]; [lia|].
  rewrite Hs, Ht. cbn [or_panic rbind].
  destruct (s =? t) eqn:Est; [|exists cnt; auto with lia].
  destruct (IH (cnt + 1)) as (k & -> & Hk & Hkeq); [lia|lia| |exists k; auto with lia].
  replace (m - (cnt + 1)) with (m - 1 - cnt) by lia.
  replace (pos - (cnt + 1)) with (pos - 1 - cnt) by lia.
  rewrite (slice_cons src _ m s), (slice_cons target _ pos t) by (done || lia).
  replace (m - 1 - cnt + 1) with (m - cnt) by lia. replace (pos - 1 - cnt + 1) with (pos - cnt) by lia.
  rewrite Heq. f_equal. lia.
Qed.

Lemma roll_val_ok st b :
  hash_inv target st -> 0 <= data_pos st < blen target -> get target (data_pos st) = Some b ->
  exists v, roll_val target (data_pos st) (val st) b = Some v /\ in31 v
    /\ (msize st < 4096 -> rabin_hash (slice target (data_pos st + 1 - RABIN_WINDOW) (data_pos st + 1)) = Some v).
Proof.
  intros (Hv & Hmin & Hw) Hp Hb. unfold RABIN_WINDOW in *.
  assert (16 <= data_pos st) by lia. unfold roll_val, RABIN_WINDOW.
  replace (16 <=? data_pos st) with true by lia.
  destruct (get_lt_Some target (data_pos st - 16)) as [o Ho]; [lia|]. rewrite Ho. cbn [mbind option_bind].
  assert (Hbyte : forall i x, get target i = Some x -> is_byte x).
  { intros i x Hx. unfold get in Hx. destruct (0 <=? i); [|discriminate].
    by eapply Forall_lookup_1 in Hx. }
  pose proof (Hbyte _ _ Ho) as Hob. pose proof (Hbyte _ _ Hb) as Hbb.
  unfold rabin_roll. rewrite U_spec by done. cbn [mbind option_bind].
  set (u := fold (repeat 0 15) (step 0 o)).
  assert (Hu : in31 u).
  { apply fold_bound; [apply step_bound; [unfold in31; lia|done]|].
    repeat constructor; unfold is_byte; lia. }
  assert (Hx : in31 (Z.lxor (val st) u)) by (apply (lxor_bound _ _ 31); done || lia).
  rewrite rabin_step_eq by done. eexists. split; [reflexivity|]. split; [by apply step_bound|].
  intros Hms. specialize (Hw ltac:(lia) Hms).
  set (rest := slice target (data_pos st - 16 + 1) (data_pos st)).
  rewrite (slice_cons target (data_pos st - 16) (data_pos st) o) in Hw by (done || lia). fold rest in Hw.
  replace (data_pos st + 1 - 16) with (data_pos st - 16 + 1) by lia.
  rewrite (slice_snoc target _ (data_pos st) b) by (done || lia). fold rest.
  assert (Hrest : byte_list rest) by (by apply Forall_take, Forall_drop).
  assert (Hlen : length rest = 15%nat).
  { assert (blen rest = 15) by (unfold rest; rewrite blen_slice; lia). unfold blen in *. lia. }
  unfold rabin_hash in *. assert (H0 : in31 0) by (unfold in31; lia).
  rewrite rabin_fold_eq in Hw by auto. injection Hw as Hw.
  rewrite rabin_fold_eq by (auto; apply Forall_app; auto).
  pose proof (rabin_roll_fold o rest b Hob Hrest Hbb Hlen) as Hr.
  unfold rabin_roll in Hr. rewrite U_spec in Hr by done. cbn [mbind option_bind] in Hr. fold u in Hr.
  change (fold (o :: rest) 0) with (fold rest (step 0 o)) in Hr.
  rewrite Hw, rabin_step_eq in Hr by done. congruence.
Qed.

Lemma search_ok idx st v :
  wf_index idx -> source idx = src -> 0 <= data_pos st < blen target -> in31 v ->
  match_inv src target (data_pos st) (msize st) (moff st) ->
  exists n m, search little_endian idx target st v = Ok (n, m)
    /\ match_inv src target (data_pos st) n m /\ msize st <= n.
Proof.
  intros Hwf Hidx Hpos Hv Hm. unfold search. destruct (msize st <? 4096).
  2:{ exists (msize st), (moff st). split; [done|]. split; [done|lia]. }
  destruct Hwf as [_ Hmask Hbk Hent]. unfold in31 in Hv.
  pose proof (land_mask v (hash_mask idx) ltac:(lia) Hmask) as Hland.
  destruct (Hbk _ Hland) as (lo & hi & -> & -> & Hlo & Hhi). cbn [or_panic rbind].
  assert (Hg : get_range (entries idx) lo hi = Some (slice (entries idx) lo hi))
    by (apply get_range_Some; split; [lia|done]).
  rewrite Hg. cbn [or_panic rbind]. rewrite Hidx in *.
  apply scan_bucket_ok; auto. by apply Forall_take, Forall_drop.
Qed.

(** * The two branches *)

Variable hdr : bytes.

Lemma emit_literal_ok st ops b m v :
  run_inv src target hdr st ops -> data_pos st < blen target -> get target (data_pos st) = Some b ->
  exists st' ops', emit_literal st b m v = Ok st' /\ run_inv src target hdr st' ops'
    /\ data_pos st' = data_pos st + 1 /\ msize st' = 0 /\ moff st' = m /\ val st' = v.
Proof.
  intros [Hops Hby Hcnt Hpos Hden Hout Hlp] Hlt Hb. unfold emit_literal.
  set (lit := slice target (data_pos st - inscnt st) (data_pos st)) in *.
  assert (Hlit : slice target (data_pos st - inscnt st) (data_pos st + 1) = lit ++ [b])
    by (apply slice_snoc; [lia|done]).
  assert (Hblit : blen (lit ++ [b]) = inscnt st + 1).
  { rewrite <- Hlit, blen_slice by lia. lia. }
  cbv zeta. set (dlp := if inscnt st =? 0 then blen (out st) else data_len_pos st).
  assert (Hdlp : dlp = blen (hdr ++ delta_ops ops)).
  { unfold dlp. destruct (inscnt st =? 0) eqn:E; [|apply Hlp; lia]. rewrite Hout, app_nil_r. done. }
  assert (Hout1 : (if inscnt st =? 0 then out st ++ [0] else out st) ++ [b]
                  = (hdr ++ delta_ops ops) ++ 0 :: lit ++ [b]).
  { rewrite Hout. destruct (inscnt st =? 0) eqn:E.
    - unfold lit. rewrite slice_empty, app_nil_r by lia. rewrite <- !app_assoc. done.
    - rewrite <- !app_assoc. done. }
  rewrite Hout1. destruct (inscnt st + 1 =? DATA_INS_LEN) eqn:E.
  - rewrite Hdlp, set_index_app. cbn [or_panic rbind]. eexists _, (ops ++ [Data (lit ++ [b])]).
    split; [reflexivity|]. split; [|done].
    split; cbn [inscnt data_pos out data_len_pos]; unfold DATA_INS_LEN in *; try (lia || done).
    + apply Forall_app. split; [done|]. apply Forall_cons_2; [cbn; lia|done].
    + rewrite delta_ops_snoc. apply Forall_app. split; [done|]. apply ins_bytes_bytes.
      split; [|lia]. rewrite <- Hlit. by apply Forall_take, Forall_drop.
    + rewrite delta_out_snoc, Hden. cbn [ins_out]. rewrite <- Hlit, <- slice_split by lia.
      f_equal. lia.
    + rewrite delta_ops_snoc. cbn [Z.eqb ins_bytes]. rewrite app_nil_r, Hblit.
      replace (inscnt st + 1) with 127 by lia. rewrite <- !app_assoc. reflexivity.
  - eexists _, ops. split; [reflexivity|]. split; [|done].
    split; cbn [inscnt data_pos out data_len_pos]; unfold DATA_INS_LEN in *; try (lia || done).
    + rewrite Hden. f_equal. lia.
    + replace (inscnt st + 1 =? 0) with false by lia.
      replace (data_pos st + 1 - (inscnt st + 1)) with (data_pos st - inscnt st) by lia.
      by rewrite Hlit.
Qed.

(** Closing the pending run after [k] of its bytes went into a match. *)
Lemma close_run st ops k :
  run_inv src target hdr st ops -> 0 <= k <= inscnt st ->
  exists ops',
    (let inscnt' := inscnt st - k in
     let out' := if 0 <? k then take (Z.to_nat (if inscnt' =? 0 then data_len_pos st
                                                else blen (out st) - k)) (out st) else out st in
     if 0 <? inscnt' then or_panic (set_index out' (data_len_pos st) (as_u8 inscnt'))
     else Ok out') = @Ok Empty_set _ (hdr ++ delta_ops ops')
    /\ Forall (ins_ok src) ops' /\ byte_list (delta_ops ops')
    /\ delta_out src ops' = slice target 0 (data_pos st - k).
Proof.
  intros [Hops Hby Hcnt Hpos Hden Hout Hlp] Hk. cbv zeta. unfold DATA_INS_LEN in *.
  set (i' := inscnt st - k).
  set (lit := slice target (data_pos st - inscnt st) (data_pos st - k)).
  assert (Hblit : blen lit = i') by (unfold lit; rewrite blen_slice by lia; lia).
  assert (Htr : (if 0 <? k then take (Z.to_nat (if i' =? 0 then data_len_pos st
                   else blen (out st) - k)) (out st) else out st)
                = (hdr ++ delta_ops ops) ++ (if i' =? 0 then [] else 0 :: lit)).
  { destruct (0 <? k) eqn:Ek.
    - rewrite Hout. replace (inscnt st =? 0) with false by lia. destruct (i' =? 0) eqn:Ei.
      + rewrite Hlp by lia. by rewrite take_blen_app, app_nil_r.
      + rewrite (slice_split target (data_pos st - inscnt st) (data_pos st - k)) by lia. fold lit.
        set (tail := slice target (data_pos st - k) (data_pos st)).
        assert (Hbt : blen tail = k) by (unfold tail; rewrite blen_slice by lia; lia).
        rewrite app_comm_cons, app_assoc.
        replace (blen _ - k) with (blen ((hdr ++ delta_ops ops) ++ 0 :: lit)) by blens.
        apply take_blen_app.
    - assert (k = 0) by lia. subst k. unfold i', lit in *. rewrite !Z.sub_0_r in *. done. }
  rewrite Htr. destruct (0 <? i') eqn:Ei.
  - replace (i' =? 0) with false by lia. rewrite Hlp by lia. rewrite set_index_app.
    exists (ops ++ [Data lit]). cbn [or_panic]. rewrite delta_ops_snoc, delta_out_snoc.
    cbn [ins_bytes ins_out]. split; [|split; [|split]].
    + unfold as_u8. rewrite Z.mod_small, Hblit by lia. by rewrite <- app_assoc.
    + apply Forall_app. split; [done|]. apply Forall_cons_2; [cbn; lia|done].
    + apply Forall_app. split; [done|]. apply (ins_bytes_bytes (Data lit)).
      split; [by apply Forall_take, Forall_drop|lia].
    + rewrite Hden. unfold lit. rewrite <- slice_split by lia. done.
  - replace (i' =? 0) with true by lia. exists ops. rewrite app_nil_r.
    repeat split; auto. rewrite Hden. f_equal. lia.
Qed.

Lemma emit_copy_ok st ops n m v :
  run_inv src target hdr st ops -> match_inv src target (data_pos st) n m -> 4 <= n ->
  in31 v -> RABIN_WINDOW <= data_pos st ->
  exists st' ops', emit_copy src target st n m v = Ok st' /\ run_inv src target hdr st' ops'
    /\ match_inv src target (data_pos st') (msize st') (moff st') /\ hash_inv target st'
    /\ data_pos st < data_pos st'.
Proof.
  intros Hrun (Hn & Hm & Hms & Hmt & Heq) Hn4 Hv Hw. unfold RABIN_WINDOW in Hw.
  pose proof (ri_cnt _ _ _ _ _ Hrun) as Hcnt. pose proof (ri_pos _ _ _ _ _ Hrun) as Hpos.
  unfold DATA_INS_LEN in Hcnt. unfold emit_copy.
  destruct (back_loop_ok (S (Z.to_nat (Z.min (inscnt st) m))) m (data_pos st)
    (Z.min (inscnt st) m) 0) as (k & -> & Hk & Hkeq); try lia.
  { by rewrite !slice_empty by lia. }
  cbn [rbind]. destruct (close_run st ops k Hrun ltac:(lia)) as (ops' & Hc & Hok' & Hby' & Hden').
  cbv zeta in Hc |- *. rewrite Hc. cbn [rbind]. clear Hc.
  unfold as_u32. rewrite (Z.mod_small (n + k)), (Z.mod_small (m - k)) by lia.
  set (left := Z.max 0 (n + k - 65536)). set (rem := n + k - left).
  assert (Hrem : 0 < rem <= 65536) by lia. assert (Hgain : k < rem) by lia.
  rewrite push_copy_op_spec.
  assert (Hfull : slice src (m - k) (m - k + (n + k)) = slice target (data_pos st - k) (data_pos st - k + (n + k))).
  { rewrite (slice_split src (m - k) m), (slice_split target (data_pos st - k) (data_pos st)) by lia.
    rewrite Hkeq. f_equal. replace (m - k + (n + k)) with (m + n) by lia.
    replace (data_pos st - k + (n + k)) with (data_pos st + n) by lia. done. }
  destruct (slice_take_eq src target (m - k) (data_pos st - k) (n + k) ltac:(lia) ltac:(lia)
    ltac:(lia) Hfull rem ltac:(lia)) as [Hpre Hpost].
  set (p' := data_pos st - k + rem). set (ops'' := ops' ++ [Copy (m - k) rem]).
  assert (Hmatch : match_inv src target p' left (m - k + rem)).
  { repeat split; try lia. unfold p'. replace (m - k + rem + left) with (m - k + (n + k)) by lia.
    replace (data_pos st - k + rem + left) with (data_pos st - k + (n + k)) by lia. done. }
  assert (Hrun'' : forall v', run_inv src target hdr
    (mkGen ((hdr ++ delta_ops ops') ++ copy_bytes (m - k) rem) (data_len_pos st) p' 0 (m - k + rem) left v') ops'').
  { intros v'. split; cbn [inscnt data_pos out data_len_pos]; unfold DATA_INS_LEN; try lia.
    - apply Forall_app. split; [done|]. apply Forall_cons_2; [cbn; lia|done].
    - unfold ops''. rewrite delta_ops_snoc. apply Forall_app. split; [done|]. by apply (ins_bytes_bytes (Copy _ _)).
    - unfold ops''. rewrite delta_out_snoc, Hden'. cbn [ins_out]. rewrite Hpre, Z.sub_0_r.
      symmetry. apply slice_split; lia.
    - unfold ops''. rewrite delta_ops_snoc. cbn [Z.eqb ins_bytes]. by rewrite app_nil_r, <- app_assoc. }
  unfold RABIN_WINDOW. replace (16 <=? p') with true by lia. rewrite andb_true_r.
  destruct (left <? 4096) eqn:El.
  - assert (Hg : get_range target (p' - 16) p' = Some (slice target (p' - 16) p'))
      by (apply get_range_Some; split; [lia|done]).
    rewrite Hg. cbn [or_panic rbind].
    destruct (rabin_hash_in31 (slice target (p' - 16) p')) as (v' & Hv' & Hv31).
    { by apply Forall_take, Forall_drop. }
    rewrite Hv'. cbn [or_panic rbind]. eexists _, ops''. split; [reflexivity|].
    split; [apply Hrun''|]. split; [done|]. split; [|cbn; lia].
    split; [done|]. unfold RABIN_WINDOW. split; [cbn; lia|]. intros _ _. exact Hv'.
  - eexists _, ops''. split; [reflexivity|]. split; [apply Hrun''|]. split; [done|].
    split; [|cbn; lia]. split; [done|]. unfold RABIN_WINDOW. split; [cbn; lia|].
    cbn [msize]. lia.
Qed.

(** Every round keeps the invariant and advances the target position. *)
Lemma gen_step_ok idx st :
  wf_index idx -> source idx = src -> gen_inv src target hdr st -> data_pos st < blen target ->
  exists st', gen_step little_endian idx target st = Ok st' /\ gen_inv src target hdr st'
    /\ data_pos st < data_pos st'.
Proof.
  intros Hwf Hidx ((ops & Hrun) & Hmatch & Hhash) Hlt. unfold gen_step.
  pose proof (ri_cnt _ _ _ _ _ Hrun). pose proof (ri_pos _ _ _ _ _ Hrun).
  destruct (get_lt_Some target (data_pos st)) as [b Hb]; [lia|]. rewrite Hb. cbn [or_panic rbind].
  destruct (roll_val_ok st b Hhash ltac:(lia) Hb) as (v & -> & Hv & Hwin). cbn [or_panic rbind].
  destruct (search_ok idx st v Hwf Hidx ltac:(lia) Hv Hmatch) as (n & m & -> & Hm' & Hle).
  cbn [rbind]. destruct Hhash as (_ & Hmin & _). unfold RABIN_WINDOW in *.
  destruct (n <? 4) eqn:E.
  - destruct (emit_literal_ok st ops b m v Hrun Hlt Hb) as (st' & ops' & -> & Hrun' & Hp & Hs & Ho & Hv').
    exists st'. split; [done|]. rewrite Hp. split; [|lia]. split; [eauto|]. rewrite Hp, Hs, Ho. split.
    + destruct Hm' as (? & ? & ? & ? & _). repeat split; try lia. by rewrite !slice_empty by lia.
    + split; [by rewrite Hv'|]. rewrite Hp, Hs, Hv'. unfold RABIN_WINDOW. split; [lia|].
      intros _ _. apply Hwin. lia.
  - rewrite Hidx. destruct (emit_copy_ok st ops n m v Hrun Hm' ltac:(lia) Hv) as
      (st' & ops' & -> & Hrun' & Hmatch' & Hhash' & Hadv); [unfold RABIN_WINDOW; lia|].
    exists st'. split; [done|]. split; [|done]. split; [eauto|]. split; done.
Qed.

Lemma gen_loop_ok fuel idx max_size st :
  wf_index idx -> source idx = src -> gen_inv src target hdr st ->
  blen target - data_pos st < Z.of_nat fuel ->
  exists r, gen_loop little_endian fuel idx target max_size st = Ok r /\
    match r with
    | None => max_size <> None
    | Some st' => gen_inv src target hdr st' /\ data_pos st' = blen target
    end.
Proof.
  intros Hwf Hidx. revert st. induction fuel as [|fuel IH]; intros st Hinv Hf.
  { destruct Hinv as ((ops & Hrun) & _). pose proof (ri_pos _ _ _ _ _ Hrun). lia. }
  cbn [gen_loop]. destruct (data_pos st <? blen target) eqn:E.
  - destruct (gen_step_ok idx st Hwf Hidx Hinv ltac:(lia)) as (st' & -> & Hinv' & Hadv). cbn [rbind].
    destruct (exceeds max_size (blen (out st'))) eqn:Ex.
    + exists None. split; [done|]. by destruct max_size.
    + apply IH; [done|lia].
  - exists (Some st). split; [done|]. split; [done|].
    destruct Hinv as ((ops & Hrun) & _). pose proof (ri_pos _ _ _ _ _ Hrun). lia.
Qed.
End generator_proofs.

(** * Whole deltas *)

Lemma gen_init_ok idx target :
  byte_list target -> 0 < blen target ->
  exists st, gen_init idx target = Ok st
    /\ gen_inv (source idx) target (delta_header idx target) st.
Proof.
  intros Ht Hpos. unfold gen_init, RABIN_WINDOW. set (n := Z.min 16 (blen target)).
  assert (Hg : get_range target 0 n = Some (slice target 0 n)) by (apply get_range_Some; split; [lia|done]).
  rewrite Hg. cbn [or_panic rbind].
  destruct (rabin_hash_in31 (slice target 0 n)) as (v & Hv & Hv31).
  { by apply Forall_take, Forall_drop. }
  rewrite Hv. cbn [or_panic rbind]. eexists. split; [reflexivity|].
  pose proof (blen_nonneg (source idx)).
  split; [exists []|split].
  - split; cbn [inscnt data_pos out data_len_pos]; unfold DATA_INS_LEN; try constructor; try lia.
    + rewrite Z.sub_diag. by rewrite slice_empty.
    + replace (n =? 0) with false by lia. rewrite Z.sub_diag. cbn. by rewrite app_nil_r, <- app_assoc.
    + intros _. cbn. by rewrite app_nil_r.
  - repeat split; cbn [data_pos msize moff]; try lia. by rewrite !slice_empty by lia.
  - split; [done|]. cbn [data_pos val msize]. unfold RABIN_WINDOW. split; [lia|]. intros Hn _.
    replace (n - 16) with 0 by lia. done.
Qed.

Lemma create_delta_inner_ok little_endian idx target max_size :
  wf_index idx -> byte_list (source idx) -> byte_list target ->
  exists r, create_delta_inner little_endian idx target max_size = Ok r /\
    match r with
    | None => max_size <> None
    | Some delta => delta_for (source idx) target delta
        /\ (0 < blen target -> exceeds max_size (blen delta) = false)
    end.
Proof.
  intros Hwf Hs Ht. unfold create_delta_inner. pose proof (blen_nonneg target).
  destruct (blen target =? 0) eqn:E.
  { eexists. split; [reflexivity|]. split; [|lia]. exists [].
    unfold delta_header. cbn. rewrite app_nil_r. repeat split; try constructor.
    destruct target; [done|]. blens. }
  destruct (gen_init_ok idx target Ht ltac:(lia)) as (st & -> & Hinv). cbn [rbind].
  destruct (gen_loop_ok little_endian (source idx) target Hs Ht (wf_source_len _ Hwf)
    (delta_header idx target) (S (length target)) idx max_size st Hwf eq_refl Hinv) as (r & -> & Hr).
  { destruct Hinv as (_ & _ & _ & Hmin & _). unfold RABIN_WINDOW, blen in *. lia. }
  cbn [rbind]. destruct r as [st'|]; [|exists None; done]. destruct Hr as [((ops & Hrun) & _) Hend].
  destruct (close_run (source idx) target Ht (delta_header idx target) st' ops 0 Hrun) as (ops' & Hc & Hok & Hby & Hden).
  { pose proof (ri_cnt _ _ _ _ _ Hrun). lia. }
  rewrite !Z.sub_0_r, Hend in *. cbn in Hc. rewrite Hc. cbn [rbind].
  destruct (exceeds max_size _) eqn:Ex; [exists None; split; [done|by destruct max_size]|].
  eexists. split; [reflexivity|]. split; [|done].
  exists ops'. rewrite slice_full in Hden. auto.
Qed.

Lemma literal_loop_ok fuel src new_data pos hdr ops :
  byte_list new_data -> 0 <= pos <= blen new_data -> blen new_data - pos < Z.of_nat fuel ->
  Forall (ins_ok src) ops -> byte_list (delta_ops ops) -> delta_out src ops = slice new_data 0 pos ->
  exists ops', literal_loop fuel new_data pos (hdr ++ delta_ops ops) = Ok (hdr ++ delta_ops ops')
    /\ Forall (ins_ok src) ops' /\ byte_list (delta_ops ops') /\ delta_out src ops' = new_data.
Proof.
  intros Hd. revert pos ops. induction fuel as [|fuel IH]; intros pos ops Hp Hf Hok Hby Hden; [lia|].
  cbn [literal_loop]. destruct (pos <? blen new_data) eqn:E.
  - unfold DATA_INS_LEN. set (c := Z.min 127 (blen new_data - pos)).
    set (lit := slice new_data pos (pos + c)).
    assert (Hl : blen lit = c) by (unfold lit; rewrite blen_slice; lia).
    assert (Hg : get_range new_data pos (pos + c) = Some lit) by (apply get_range_Some; split; [lia|done]).
    rewrite Hg. cbn [or_panic rbind].
    replace (((hdr ++ delta_ops ops) ++ [as_u8 c]) ++ lit) with (hdr ++ delta_ops (ops ++ [Data lit])).
    2:{ rewrite delta_ops_snoc. cbn [ins_bytes]. unfold as_u8.
        rewrite Z.mod_small, Hl by lia. by rewrite <- !app_assoc. }
    apply IH; [lia|lia| | |].
    + apply Forall_app. split; [done|]. apply Forall_cons_2; [cbn; lia|done].
    + rewrite delta_ops_snoc. apply Forall_app. split; [done|]. apply (ins_bytes_bytes (Data lit)).
      split; [by apply Forall_take, Forall_drop|lia].
    + rewrite delta_out_snoc, Hden. symmetry. apply slice_split; lia.
  - exists ops. split; [done|]. repeat split; auto. rewrite Hden.
    replace pos with (blen new_data) by lia. apply slice_full.
Qed.

Lemma encode_literal_only_ok src new_data :
  byte_list new_data ->
  exists delta, encode_literal_only (blen src) new_data = Ok delta /\ delta_for src new_data delta.
Proof.
  intros Hd. unfold encode_literal_only. pose proof (blen_nonneg new_data).
  destruct (literal_loop_ok (S (length new_data)) src new_data 0
    (write_varint (blen src) ++ write_varint (blen new_data)) []) as (ops & E & Hok & Hby & Hden);
    try constructor; try done; try lia.
  - unfold blen. lia.
  - change (delta_ops []) with (@nil Z) in E. rewrite app_nil_r in E. rewrite E.
    eexists. split; [reflexivity|]. exists ops. auto.
Qed.

(** C17: decoding what the Rabin encoder produced gives back the new object, for
    every pair of objects (an object shorter than 4 GiB as the base); the encoder
    terminates and never panics on the way. *)
Theorem encode_rabin_roundtrip `{Allocator} (little_endian : bool) (old_data new_data : bytes)
  `{!AllocatorServes (blen new_data)} :
  byte_list old_data -> byte_list new_data ->
  blen old_data < 2 ^ 32 -> blen new_data <= usize_max ->
  exists delta, encode_rabin little_endian old_data new_data = Ok delta
    /\ delta_decode delta old_data = Ok new_data.
Proof.
  intros Ho Hn Hol Hnl.
  enough (Hd : exists delta, encode_rabin little_endian old_data new_data = Ok delta
                             /\ delta_for old_data new_data delta).
  { destruct Hd as (delta & -> & Hd). exists delta. split; [done|].
    apply delta_for_decodes; auto. unfold usize_max. lia. }
  unfold encode_rabin, create_delta_index, encode_rabin_with_index, create_delta.
  destruct (blen new_data =? 0) eqn:E0.
  { destruct new_data; [|blens]. eexists. split; [reflexivity|].
    exists []. cbn. rewrite app_nil_r. repeat split; constructor. }
  destruct (blen old_data =? 0) eqn:E1.
  { destruct old_data; [|blens]. by apply (encode_literal_only_ok []). }
  destruct (create_delta_index_arc_ok old_data Ho Hol) as [[_ ->]|(idx & -> & <- & Hwf)]; cbn [rbind].
  { by apply encode_literal_only_ok. }
  destruct (create_delta_inner_ok little_endian idx new_data None Hwf Ho Hn) as (r & -> & Hr).
  cbn [rbind]. destruct r as [delta|]; [|done]. exists delta. split; [done|apply Hr].
Qed.

(** A base of 34 bytes and a target that shares its middle: one literal run, one
    copy, one literal run. *)
Definition sample_old : bytes :=
  [10;11;12;13;14;15;16;17;18;19;20;21;22;23;24;25;26;27;28;29;30;31;32;33;34;35;36;37;38;39;40;41;42;43].
Definition sample_new : bytes :=
  [1;2;3;10;11;12;13;14;15;16;17;18;19;20;21;22;23;24;25;26;27;28;29;30;31;32;33;34;35;9;9].

Lemma encode_rabin_roundtrip_witness :
  exists delta, encode_rabin true sample_old sample_new = Ok delta
    /\ @delta_decode unlimited delta sample_old = Ok sample_new.
Proof.
  apply (@encode_rabin_roundtrip unlimited true sample_old sample_new (unlimited_serves _));
    [repeat constructor; unfold is_byte; lia|repeat constructor; unfold is_byte; lia
    |vm_compute; reflexivity|vm_compute; discriminate].
Defined.

(** with a pre-built index and a size limit, the encoder either gives up
    ([None]) or returns a delta that is within the limit and decodes to the
    target; without a limit it always returns one.  It never panics. *)
Theorem encode_with_index_sound `{Allocator} (little_endian : bool) (source : bytes)
  (idx : RabinDeltaIndex) (target : bytes) (max_size : Z) `{!AllocatorServes (blen target)} :
  byte_list source -> byte_list target -> blen source < 2 ^ 32 -> 0 < blen target <= usize_max ->
  create_delta_index source = Ok (Some idx) ->
  (exists delta, encode_rabin_with_index little_endian idx target = Ok delta
     /\ delta_decode delta source = Ok target)
  /\ (encode_rabin_with_index_and_max_size little_endian idx target max_size = Ok None
      \/ exists delta,
           encode_rabin_with_index_and_max_size little_endian idx target max_size = Ok (Some delta)
           /\ blen delta <= max_size /\ delta_decode delta source = Ok target).
Proof.
  intros Hs Ht Hsl Htl Hidx. unfold create_delta_index in Hidx.
  destruct (create_delta_index_arc_ok source Hs Hsl) as [[_ E]|(idx' & E & <- & Hwf)]; [congruence|].
  assert (idx' = idx) as -> by congruence.
  assert (Hdec : forall delta, delta_for (RabinIndex.source idx) target delta ->
    delta_decode delta (RabinIndex.source idx) = Ok target).
  { intros delta Hd. apply delta_for_decodes; auto; unfold usize_max in *; lia. }
  unfold encode_rabin_with_index, encode_rabin_with_index_and_max_size, create_delta. split.
  - destruct (create_delta_inner_ok little_endian idx target None Hwf Hs Ht) as (r & -> & Hr).
    cbn [rbind]. destruct r as [delta|]; [|done]. exists delta. split; [done|]. apply Hdec, Hr.
  - replace (blen target =? 0) with false by lia.
    destruct (create_delta_inner_ok little_endian idx target (Some max_size) Hwf Hs Ht) as (r & -> & Hr).
    destruct r as [delta|]; [right|by left]. exists delta. split; [done|].
    destruct Hr as [Hd Hex]. split; [|by apply Hdec]. specialize (Hex ltac:(lia)). cbn in Hex. lia.
Qed.

(** The sample base is long enough to be indexed, and the generator starts on it. *)
Lemma sample_index :
  exists idx, create_delta_index sample_old = Ok (Some idx)
    /\ exists st, gen_init idx sample_new = Ok st.
Proof.
  assert (Ho : byte_list sample_old) by (repeat constructor; unfold is_byte; lia).
  assert (Hn : byte_list sample_new) by (repeat constructor; unfold is_byte; lia).
  destruct (create_delta_index_arc_ok sample_old Ho) as [[Hs _]|(idx & E & _)]; [reflexivity|done|].
  exists idx. split; [exact E|].
  destruct (gen_init_ok idx sample_new Hn) as (st & Ei & _); [reflexivity|]. eauto.
Qed.

Lemma encode_with_index_sound_witness :
  exists idx, create_delta_index sample_old = Ok (Some idx) /\
  (exists delta, encode_rabin_with_index true idx sample_new = Ok delta
     /\ @delta_decode unlimited delta sample_old = Ok sample_new)
  /\ (encode_rabin_with_index_and_max_size true idx sample_new 15 = Ok None
      \/ exists delta,
           encode_rabin_with_index_and_max_size true idx sample_new 15 = Ok (Some delta)
           /\ blen delta <= 15 /\ @delta_decode unlimited delta sample_old = Ok sample_new).
Proof.
  destruct sample_index as (idx & E & _).
  exists idx. split; [exact E|].
  apply (@encode_with_index_sound unlimited true sample_old idx sample_new 15 (unlimited_serves _));
    [repeat constructor; unfold is_byte; lia|repeat constructor; unfold is_byte; lia
    |vm_compute; reflexivity|vm_compute; split; [reflexivity|discriminate]|exact E].
Defined.

(** The states the generator goes through on a target, from its initial state. *)
Inductive gen_reachable (little_endian : bool) (idx : RabinDeltaIndex) (target : bytes) : Gen -> Prop :=
| reach_init st : gen_init idx target = Ok st -> gen_reachable little_endian idx target st
| reach_step st st' :
    gen_reachable little_endian idx target st -> data_pos st < blen target ->
    gen_step little_endian idx target st = Ok st' -> gen_reachable little_endian idx target st'.

(** in every state the generator reaches, the bytes written are complete
    opcodes for the target up to the pending literal run, the current match is a
    common range of source and target, and, while the index is consulted, the
    rolling hash is the hash of the last window; and a further round neither
    panics nor stalls. *)
Theorem gen_reachable_inv (little_endian : bool) (source : bytes) (idx : RabinDeltaIndex)
  (target : bytes) (st : Gen) :
  byte_list source -> byte_list target -> blen source < 2 ^ 32 -> 0 < blen target ->
  create_delta_index source = Ok (Some idx) -> gen_reachable little_endian idx target st ->
  gen_inv source target (delta_header idx target) st
  /\ (data_pos st < blen target ->
      exists st', gen_step little_endian idx target st = Ok st' /\ data_pos st < data_pos st').
Proof.
  intros Hs Ht Hsl Htl Hidx Hr. unfold create_delta_index in Hidx.
  destruct (create_delta_index_arc_ok source Hs Hsl) as [[_ E]|(idx' & E & <- & Hwf)]; [congruence|].
  assert (idx' = idx) as -> by congruence.
  assert (Hinv : gen_inv (RabinIndex.source idx) target (delta_header idx target) st).
  { induction Hr as [st Hi|st st' Hr IH Hlt Hstep].
    - destruct (gen_init_ok idx target Ht Htl) as (st0 & E0 & H0). congruence.
    - destruct (gen_step_ok little_endian _ target Hs Ht Hsl _ idx st Hwf eq_refl IH Hlt) as (st2 & E2 & H2 & _).
      congruence. }
  split; [done|]. intros Hlt.
  destruct (gen_step_ok little_endian _ target Hs Ht Hsl _ idx st Hwf eq_refl Hinv Hlt) as (st2 & E2 & _ & Hadv).
  eauto.
Qed.

Lemma gen_reachable_inv_witness :
  exists idx st, create_delta_index sample_old = Ok (Some idx) /\ gen_init idx sample_new = Ok st
  /\ gen_inv sample_old sample_new (delta_header idx sample_new) st
  /\ (data_pos st < blen sample_new ->
      exists st', gen_step true idx sample_new st = Ok st' /\ data_pos st < data_pos st').
Proof.
  destruct sample_index as (idx & E & st & Ei).
  exists idx, st. split; [exact E|]. split; [exact Ei|].
  apply (gen_reachable_inv true sample_old idx sample_new st);
    [repeat constructor; unfold is_byte; lia|repeat constructor; unfold is_byte; lia
    |vm_compute; reflexivity|vm_compute; reflexivity|exact E|constructor; exact Ei].
Defined.
