(* ===== verification/DeltaRates.v ===== *)
(** The similarity rates that decide whether a delta is worth computing:
    [heuristic_encode_rate], [heuristic_encode_rate_parallel] ([src/delta/mod.rs]),
    [rabin_encode_rate] and [heuristic_encode_rate_rabin]
    ([src/delta/encode/rabin/mod.rs]).

    The rates are doubles ([Float64]).  [hash_chunk] hashes with the hasher of the
    standard library, whose algorithm is not specified: it is a parameter.  The
    sampling functions are compared with [screened_rate], the share of samples that
    match, or zero when it is below one half; they give up early, which must not change
    the result.  [rabin_encode_rate] walks over the delta it has just built; it is
    compared with the abstract instructions of that delta. *)

From Stdlib Require Import ZArith Lia.
From stdpp Require Import base tactics list numbers option gmap.
From S2P Require Import Prelude Float64 Stream DeltaUtils DeltaFormat DeltaDecode RabinTables RabinIndex RabinDelta.

Definition SAMPLE_STEP : Z := 64.
(** [MIN_DELTA_RATE] of [src/delta/mod.rs]; the one of [tables.rs] is [RABIN_MIN_DELTA_RATE]. *)
Definition MIN_DELTA_RATE : f64 := f64_half.
Definition RABIN_MIN_DELTA_RATE : f64 := f64_half.

(** [a - b] of [usize]s, which panics below zero in a checked build. *)
Definition usize_sub (a b : Z) : Res Empty_set Z := if b <=? a then Ok (a - b) else Panic.

(** * Sampling of both buffers at the same places *)

Section sampling.
Context (hash_chunk : bytes -> Z).

Fixpoint sample_loop (fuel : nat) (old_data new_data : bytes) (min_len total_samples i match_count sample_count : Z)
  : Res Empty_set f64 :=
  match fuel with
  | O => OutOfFuel
  | S fuel =>
      if i <? min_len then
        let! old_chunk := or_panic (get_range old_data i (Z.min (i + SAMPLE_STEP) (blen old_data))) in
        let! new_chunk := or_panic (get_range new_data i (Z.min (i + SAMPLE_STEP) (blen new_data))) in
        let match_count := if hash_chunk old_chunk =? hash_chunk new_chunk then match_count + 1 else match_count in
        let sample_count := sample_count + 1 in
        let! remaining_samples := usize_sub total_samples sample_count in
        let max_possible_rate := ratio (match_count + remaining_samples) total_samples in
        if f64_ltb max_possible_rate MIN_DELTA_RATE then Ok f64_zero
        else sample_loop fuel old_data new_data min_len total_samples (i + SAMPLE_STEP) match_count sample_count
      else Ok (ratio match_count sample_count)
  end.

Definition heuristic_encode_rate (old_data new_data : bytes) : Res Empty_set f64 :=
  let old_len := blen old_data in
  let new_len := blen new_data in
  if (old_len =? 0) && (new_len =? 0) then Ok f64_one
  else if (old_len =? 0) || (new_len =? 0) then Ok f64_zero
  else
    let min_len := Z.min old_len new_len in
    let total_samples := (min_len + SAMPLE_STEP - 1) / SAMPLE_STEP in
    sample_loop (S (Z.to_nat min_len)) old_data new_data min_len total_samples 0 0 0.
End sampling.

(** [chunks(n)]; [n > 0] and as many rounds as there are bytes. *)
Fixpoint byte_chunks (fuel : nat) (n : nat) (l : bytes) : list bytes :=
  match fuel, l with
  | O, _ | _, [] => []
  | S fuel, _ => take n l :: byte_chunks fuel n (drop n l)
  end.

Definition parallel_step (min_len : Z) : Z :=
  if 10000000 <? min_len then 1024
  else if 1000000 <? min_len then 512
  else if 100000 <? min_len then 128
  else 16.

(** The worker threads only count, so their order does not matter. *)
Definition heuristic_encode_rate_parallel (old_data new_data : bytes) : Res Empty_set f64 :=
  let old_len := blen old_data in
  let new_len := blen new_data in
  if (old_len =? 0) && (new_len =? 0) then Ok f64_one
  else if (old_len =? 0) || (new_len =? 0) then Ok f64_zero
  else
    let min_len := Z.min old_len new_len in
    let step := Z.to_nat (parallel_step min_len) in
    let! old_part := or_panic (get_range old_data 0 min_len) in
    let! new_part := or_panic (get_range new_data 0 min_len) in
    let chunks := zip (byte_chunks (length old_part) step old_part) (byte_chunks (length new_part) step new_part) in
    let match_count := blen (filter (fun '(a, b) => a = b) chunks) in
    let rate := ratio match_count (blen chunks) in
    Ok (if f64_ltb rate MIN_DELTA_RATE then f64_zero else rate).

(** * Sampling with Rabin hashes *)

(** The hash of the window at [pos]. *)
Definition window_hash (data : bytes) (pos : Z) : Res Empty_set Z :=
  let! window := or_panic (get_range data pos (pos + RABIN_WINDOW)) in
  or_panic (rabin_hash window).

Fixpoint collect_hashes (fuel : nat) (old_data : bytes) (step pos : Z) (old_hashes : gset Z) : Res Empty_set (gset Z) :=
  match fuel with
  | O => OutOfFuel
  | S fuel =>
      if pos + RABIN_WINDOW <=? blen old_data then
        let! val := window_hash old_data pos in
        collect_hashes fuel old_data step (pos + step) ({[val]} ∪ old_hashes)
      else Ok old_hashes
  end.

Fixpoint rate_loop (fuel : nat) (new_data : bytes) (old_hashes : gset Z) (step total_new_samples pos matches samples_done : Z)
  : Res Empty_set f64 :=
  match fuel with
  | O => OutOfFuel
  | S fuel =>
      if pos + RABIN_WINDOW <=? blen new_data then
        let! val := window_hash new_data pos in
        let matches := if bool_decide (val ∈ old_hashes) then matches + 1 else matches in
        let samples_done := samples_done + 1 in
        let pos := pos + step in
        let! remaining := usize_sub total_new_samples samples_done in
        let max_possible := ratio (matches + remaining) total_new_samples in
        if f64_ltb max_possible RABIN_MIN_DELTA_RATE then Ok f64_zero
        else rate_loop fuel new_data old_hashes step total_new_samples pos matches samples_done
      else if samples_done =? 0 then Ok f64_zero
      else Ok (ratio matches samples_done)
  end.

Definition rabin_samples (len step : Z) : Z := if RABIN_WINDOW <=? len then (len - RABIN_WINDOW) / step + 1 else 0.

Definition heuristic_encode_rate_rabin (old_data new_data : bytes) : Res Empty_set f64 :=
  let old_len := blen old_data in
  let new_len := blen new_data in
  if (old_len =? 0) && (new_len =? 0) then Ok f64_one
  else if (old_len =? 0) || (new_len =? 0) then Ok f64_zero
  else
    let step := if 1000000 <? old_len then 256 else RABIN_WINDOW in
    if rabin_samples old_len step =? 0 then Ok f64_zero
    else
      let new_samples := rabin_samples new_len step in
      if new_samples =? 0 then Ok f64_zero
      else
        let! old_hashes := collect_hashes (S (length old_data)) old_data step 0 ∅ in
        rate_loop (S (length new_data)) new_data old_hashes step new_samples 0 0 0.

(** * The rate of a delta *)

(** [while pos < delta.len() && (delta[pos] & 0x80) != 0 { pos += 1 } pos += 1]. *)
Fixpoint skip_varint (fuel : nat) (delta : bytes) (pos : Z) : Res Empty_set Z :=
  match fuel with
  | O => OutOfFuel
  | S fuel =>
      if pos <? blen delta then
        let! b := or_panic (get delta pos) in
        if negb (Z.land b 0x80 =? 0) then skip_varint fuel delta (pos + 1) else Ok (pos + 1)
      else Ok (pos + 1)
  end.

(** [for i in 0..4 { if cmd & (1 << i) != 0 { pos += 1 } }], from bit [i] on. *)
Fixpoint skip_field (n : nat) (cmd i pos : Z) : Z :=
  match n with
  | O => pos
  | S n => skip_field n cmd (i + 1) (if negb (Z.land cmd (Z.shiftl 1 i) =? 0) then pos + 1 else pos)
  end.

(** [for i in 0..3 { if cmd & (1 << (4 + i)) != 0 { sz |= (delta[pos] as usize) << (8 * i); pos += 1 } }]. *)
Fixpoint read_size_field (n : nat) (delta : bytes) (cmd i sz pos : Z) : Res Empty_set (Z * Z) :=
  match n with
  | O => Ok (sz, pos)
  | S n =>
      if negb (Z.land cmd (Z.shiftl 1 (4 + i)) =? 0) then
        let! b := or_panic (get delta pos) in
        read_size_field n delta cmd (i + 1) (Z.lor sz (Z.shiftl b (8 * i))) (pos + 1)
      else read_size_field n delta cmd (i + 1) sz pos
  end.

(** The walk over the opcodes. *)
Fixpoint walk_opcodes (fuel : nat) (delta : bytes) (new_len pos shared : Z) : Res Empty_set Z :=
  match fuel with
  | O => OutOfFuel
  | S fuel =>
      if pos <? blen delta then
        let! cmd := or_panic (get delta pos) in
        let pos := pos + 1 in
        if Z.land cmd 0x80 =? 0 then walk_opcodes fuel delta new_len (pos + cmd) shared
        else
          let pos := skip_field 4 cmd 0 pos in
          let! '(sz, pos) := read_size_field 3 delta cmd 0 0 pos in
          let sz := if sz =? 0 then 0x10000 else sz in
          walk_opcodes fuel delta new_len pos (shared + Z.min sz new_len)
      else Ok shared
  end.

Definition rabin_encode_rate (little_endian : bool) (old_data new_data : bytes) : Res Empty_set f64 :=
  if (blen new_data =? 0) && (blen old_data =? 0) then Ok f64_one
  else if (blen old_data =? 0) || (blen new_data =? 0) then Ok f64_zero
  else
    let! index := create_delta_index old_data in
    match index with
    | Some index =>
        let! delta := create_delta little_endian index new_data None in
        let! delta := or_panic delta in
        let new_len := blen new_data in
        let! pos := skip_varint (S (length delta)) delta 0 in
        let! pos := skip_varint (S (length delta)) delta pos in
        let! shared := walk_opcodes (S (length delta)) delta new_len pos 0 in
        Ok (if 0 <? new_len then ratio (Z.min shared new_len) new_len else f64_zero)
    | None => Ok f64_zero
    end.

Lemma blen_pos (l : bytes) : l <> [] -> 0 < blen l.
Proof. destruct l as [|b l]; [done|]. intros _. rewrite blen_cons. pose proof (blen_nonneg l). lia. Qed.

(** * The early exit *)

(** The reference: the share of the samples that match, or zero when it is below one half. *)
Definition matching (samples : list bool) : Z := blen (filter Is_true samples).

Definition screened_rate (samples : list bool) : f64 :=
  if 2 * matching samples <? blen samples then f64_zero else ratio (matching samples) (blen samples).

Lemma matching_cons b samples : matching (b :: samples) = (if b then 1 else 0) + matching samples.
Proof. unfold matching. rewrite filter_cons. destruct b; case_decide as Hd; try done. by rewrite blen_cons. Qed.

Lemma matching_bounds samples : 0 <= matching samples <= blen samples.
Proof.
  induction samples as [|b samples IH]; [done|]. rewrite matching_cons, blen_cons. destruct b; lia.
Qed.

(** The loop of both sampling functions on the outcomes of the samples. *)
Fixpoint early_rate (samples : list bool) (total m s : Z) : f64 :=
  match samples with
  | [] => ratio m s
  | b :: samples =>
      let m := if b then m + 1 else m in
      if f64_ltb (ratio (m + (total - (s + 1))) total) f64_half then f64_zero else early_rate samples total m (s + 1)
  end.

(** Giving up early does not change the result. *)
Lemma early_rate_screened samples total m s :
  0 <= m <= s -> total = s + blen samples -> 0 < total < 2 ^ 53 -> total <= 2 * (m + blen samples) ->
  early_rate samples total m s =
    if 2 * (m + matching samples) <? total then f64_zero else ratio (m + matching samples) total.
Proof.
  revert m s. induction samples as [|b samples IH]; intros m s Hm Htot Hlt Hup; cbn [early_rate].
  - change (matching []) with 0. rewrite !blen_nil, !Z.add_0_r in *. subst total. by replace (2 * m <? s) with false by lia.
  - rewrite blen_cons in *. pose proof (blen_nonneg samples). pose proof (matching_bounds samples) as Hk. rewrite matching_cons.
    set (m' := if b then m + 1 else m). assert (Em : m + ((if b then 1 else 0) + matching samples) = m' + matching samples) by (unfold m'; destruct b; lia).
    rewrite Em. assert (Hm' : 0 <= m' <= s + 1) by (unfold m'; destruct b; lia).
    rewrite ratio_ltb_half by lia. replace (total - (s + 1)) with (blen samples) by lia.
    destruct (2 * (m' + blen samples) <? total) eqn:E; [by replace (2 * (m' + matching samples) <? total) with true by lia|].
    apply IH; lia.
Qed.

Lemma early_rate_start samples : 0 < blen samples < 2 ^ 53 -> early_rate samples (blen samples) 0 0 = screened_rate samples.
Proof. intros H. rewrite early_rate_screened by lia. unfold screened_rate. by rewrite Z.add_0_l. Qed.

(** What a screened rate can be: a fraction, zero or at least one half, and one when every sample matches. *)
Lemma screened_rate_spec samples :
  0 < blen samples < 2 ^ 53 ->
  f64_leb f64_zero (screened_rate samples) = true /\ f64_leb (screened_rate samples) f64_one = true
  /\ (f64_ltb (screened_rate samples) f64_half = true -> screened_rate samples = f64_zero)
  /\ (Forall Is_true samples -> screened_rate samples = f64_one).
Proof.
  intros Hn. pose proof (matching_bounds samples) as Hk. unfold screened_rate.
  assert (Hall : Forall Is_true samples -> matching samples = blen samples).
  { intros Ha. unfold matching. induction Ha as [|b l Hb _ IH]; [done|]. rewrite filter_cons_True by done. rewrite !blen_cons.
    destruct (decide (l = [])) as [->|Hne]; [done|]. rewrite IH; [done| |apply matching_bounds].
    rewrite blen_cons in Hn. pose proof (blen_nonneg l). destruct l; [done|]. rewrite blen_cons in *. pose proof (blen_nonneg l). lia. }
  destruct (2 * matching samples <? blen samples) eqn:E.
  - split_and!; try done. intros Ha. rewrite Hall in E by done. lia.
  - split_and!; [apply ratio_geb_zero; lia|apply ratio_leb_one; lia| |].
    + rewrite ratio_ltb_half by lia. lia.
    + intros Ha. rewrite Hall by done. by apply ratio_self.
Qed.

(** The places of [n] samples from [i] on. *)
Fixpoint positions (n : nat) (i step : Z) : list Z :=
  match n with
  | O => []
  | S n => i :: positions n (i + step) step
  end.

Lemma length_positions n i step : length (positions n i step) = n.
Proof. revert i. induction n as [|n IH]; intros i; cbn; [done|by rewrite IH]. Qed.

Lemma blen_samples {A} (f : Z -> A) n i step : blen (map f (positions n i step)) = Z.of_nat n.
Proof. unfold blen. by rewrite length_map, length_positions. Qed.

Section sampling_proofs.
Context (hash_chunk : bytes -> Z) (old new : bytes).

(** Whether the chunks of both buffers at [i] hash alike. *)
Definition chunk_matches (i : Z) : bool :=
  hash_chunk (slice old i (Z.min (i + SAMPLE_STEP) (blen old))) =? hash_chunk (slice new i (Z.min (i + SAMPLE_STEP) (blen new))).

Lemma sample_loop_early fuel n total m s :
  (n < fuel)%nat -> 0 <= s -> total = s + Z.of_nat n -> 64 * (total - 1) < Z.min (blen old) (blen new) <= 64 * total ->
  sample_loop hash_chunk fuel old new (Z.min (blen old) (blen new)) total (64 * s) m s
    = Ok (early_rate (map chunk_matches (positions n (64 * s) 64)) total m s).
Proof.
  revert n m s. induction fuel as [|fuel IH]; intros n m s Hf Hs Htot Hmin; [lia|]. cbn [sample_loop]. unfold SAMPLE_STEP.
  destruct n as [|n]; cbn [positions map early_rate].
  - by replace (64 * s <? _) with false by lia.
  - replace (64 * s <? _) with true by lia. rewrite !get_range_ok by lia. cbn [or_panic rbind].
    unfold usize_sub. replace (s + 1 <=? total) with true by lia. cbn [rbind]. unfold MIN_DELTA_RATE. fold (chunk_matches (64 * s)).
    change (hash_chunk (slice old _ _) =? hash_chunk (slice new _ _)) with (chunk_matches (64 * s)).
    destruct (f64_ltb _ _); [done|]. replace (64 * s + 64) with (64 * (s + 1)) by lia. apply IH; lia.
Qed.

(** The sampled rate is the share of the 64-byte chunks that hash alike, or zero when this is
    below one half: the early exit only saves work.  The function returns, without a panic. *)
Theorem heuristic_encode_rate_screened :
  old <> [] -> new <> [] -> Z.min (blen old) (blen new) < 2 ^ 53 ->
  heuristic_encode_rate hash_chunk old new =
    Ok (screened_rate (map chunk_matches (positions (Z.to_nat ((Z.min (blen old) (blen new) + 63) / 64)) 0 64))).
Proof.
  intros Ho Hn Hmax. assert (0 < blen old) by (by apply blen_pos).
  assert (0 < blen new) by (by apply blen_pos).
  unfold heuristic_encode_rate. replace (blen old =? 0) with false by lia. replace (blen new =? 0) with false by lia. cbn [andb orb].
  change SAMPLE_STEP with 64. set (min := Z.min (blen old) (blen new)) in *. replace (min + 64 - 1) with (min + 63) by lia.
  set (total := (min + 63) / 64). pose proof (Z.div_mod (min + 63) 64 ltac:(lia)) as Hd. fold total in Hd.
  pose proof (Z.mod_pos_bound (min + 63) 64 ltac:(lia)). assert (Hmin : 0 < min) by lia.
  rewrite <- early_rate_start; rewrite blen_samples, Z2Nat.id by lia; [|lia].
  apply (sample_loop_early _ (Z.to_nat total) total 0 0); lia.
Qed.
End sampling_proofs.

(** ** Rabin hashes *)

Definition hash_at (data : bytes) (pos : Z) : Z := default 0 (rabin_hash (slice data pos (pos + RABIN_WINDOW))).

Lemma window_hash_ok data pos :
  byte_list data -> 0 <= pos -> pos + RABIN_WINDOW <= blen data -> window_hash data pos = Ok (hash_at data pos).
Proof.
  unfold RABIN_WINDOW. intros Hb Hp Hl. unfold window_hash, hash_at, RABIN_WINDOW. rewrite get_range_ok by lia. cbn [or_panic rbind].
  destruct (rabin_hash_in31 (slice data pos (pos + 16))) as (v & -> & _); [|done]. by apply Forall_take, Forall_drop.
Qed.

(** [n] more windows fit from [pos] on, and no more. *)
Definition windows_left (data : bytes) (step pos : Z) (n : nat) : Prop :=
  0 <= pos /\ pos + step * (Z.of_nat n - 1) + RABIN_WINDOW <= blen data < pos + step * Z.of_nat n + RABIN_WINDOW.

Lemma windows_left_step data step pos n : 0 < step -> windows_left data step pos (S n) ->
  pos + RABIN_WINDOW <= blen data /\ windows_left data step (pos + step) n.
Proof. unfold windows_left. intros Hs (Hp & Hl). split; [nia|]. split; [lia|]. nia. Qed.

Lemma windows_left_all data step : 0 < step -> RABIN_WINDOW <= blen data ->
  windows_left data step 0 (Z.to_nat (rabin_samples (blen data) step)) /\ 0 < rabin_samples (blen data) step <= blen data.
Proof.
  unfold windows_left, rabin_samples, RABIN_WINDOW. intros Hs Hl. replace (16 <=? blen data) with true by lia.
  pose proof (Z.div_mod (blen data - 16) step ltac:(lia)). pose proof (Z.mod_pos_bound (blen data - 16) step ltac:(lia)).
  pose proof (Z.div_pos (blen data - 16) step ltac:(lia) ltac:(lia)).
  rewrite Z2Nat.id by lia. split; [split; [lia|]; nia|nia].
Qed.

Lemma collect_hashes_ok fuel data step pos n acc :
  byte_list data -> 0 < step -> (n < fuel)%nat -> windows_left data step pos n ->
  collect_hashes fuel data step pos acc = Ok (list_to_set (map (hash_at data) (positions n pos step)) ∪ acc).
Proof.
  intros Hb Hs. revert pos n acc. induction fuel as [|fuel IH]; intros pos n acc Hf Hw; [lia|]. cbn [collect_hashes].
  destruct n as [|n]; cbn [positions map list_to_set].
  - destruct Hw as [_ Hw]. replace (_ <=? _) with false by lia. f_equal. set_solver.
  - destruct (windows_left_step _ _ _ _ Hs Hw) as [Hl Hw']. replace (_ <=? _) with true by lia.
    rewrite window_hash_ok by (done || apply Hw). cbn [rbind]. rewrite (IH _ n) by (done || lia). f_equal. set_solver.
Qed.

Lemma rate_loop_early fuel data hashes step total pos n m s :
  byte_list data -> 0 < step -> (n < fuel)%nat -> windows_left data step pos n -> 0 <= s -> total = s + Z.of_nat n -> 0 < total ->
  rate_loop fuel data hashes step total pos m s =
    Ok (early_rate (map (fun p => bool_decide (hash_at data p ∈ hashes)) (positions n pos step)) total m s).
Proof.
  intros Hb Hs. revert pos n m s. induction fuel as [|fuel IH]; intros pos n m s Hf Hw H0 Htot Hpos; [lia|]. cbn [rate_loop].
  destruct n as [|n]; cbn [positions map early_rate].
  - destruct Hw as [_ Hw]. replace (_ <=? _) with false by lia. by replace (s =? 0) with false by lia.
  - destruct (windows_left_step _ _ _ _ Hs Hw) as [Hl Hw']. replace (_ <=? _) with true by lia.
    rewrite window_hash_ok by (done || apply Hw). cbn [rbind]. unfold usize_sub. replace (s + 1 <=? total) with true by lia. cbn [rbind].
    unfold RABIN_MIN_DELTA_RATE. destruct (f64_ltb _ _); [done|]. apply IH; try done; lia.
Qed.

(** The windows of a buffer that are sampled, against an old buffer of [old_len] bytes. *)
Definition sample_step (old_len : Z) : Z := if 1000000 <? old_len then 256 else RABIN_WINDOW.
Definition sampled (data : bytes) (step : Z) : list Z := positions (Z.to_nat (rabin_samples (blen data) step)) 0 step.

(** Whether the hash of a sample of the new buffer is that of a sample of the old one. *)
Definition window_matches (old new : bytes) (p : Z) : bool :=
  bool_decide (hash_at new p ∈ map (hash_at old) (sampled old (sample_step (blen old)))).

Lemma sample_step_pos old_len : 0 < sample_step old_len.
Proof. unfold sample_step, RABIN_WINDOW. destruct (_ <? _); lia. Qed.


(** ** The walk over a delta *)

Lemma bit_set cmd i : 0 <= i -> negb (Z.land cmd (Z.shiftl 1 i) =? 0) = Z.testbit cmd i.
Proof.
  intros Hi. rewrite Z.shiftl_1_l. destruct (Z.testbit cmd i) eqn:E.
  - destruct (Z.land cmd (2 ^ i) =? 0) eqn:E0; [|done]. apply Z.eqb_eq in E0.
    assert (Ht : Z.testbit (Z.land cmd (2 ^ i)) i = true) by (rewrite Z.land_spec, E, Z.pow2_bits_true; done).
    by rewrite E0, Z.bits_0 in Ht.
  - replace (Z.land cmd (2 ^ i)) with 0; [done|]. symmetry. apply Z.bits_inj'. intros n Hn.
    rewrite Z.land_spec, Z.bits_0, Z.pow2_bits_eqb by done. destruct (Z.eqb_spec i n) as [->|]; [by rewrite E|apply andb_false_r].
Qed.

(** The next flag of a field, and the flags after it. *)
Lemma field_flag_next cmd bit n v hi :
  0 <= bit -> Z.shiftr cmd bit = Z.lor (field_flags (S n) v) (Z.shiftl hi (Z.of_nat (S n))) ->
  negb (Z.land cmd (Z.shiftl 1 bit) =? 0) = negb (v mod 256 =? 0)
  /\ Z.shiftr cmd (bit + 1) = Z.lor (field_flags n (v / 256)) (Z.shiftl hi (Z.of_nat n)).
Proof.
  intros Hbit Hc. rewrite bit_set by done. cbn [field_flags] in Hc. replace (Z.of_nat (S n)) with (Z.of_nat n + 1) in Hc by lia.
  rewrite <- Z.shiftl_shiftl, <- Z.lor_assoc, <- Z.shiftl_lor in Hc by lia. set (P := Z.lor (field_flags n _) _) in *.
  rewrite lor_shiftl_add in Hc by (destruct (_ =? 0); lia). change (2 ^ 1) with 2 in Hc. split.
  - replace bit with (0 + bit) by lia. rewrite <- Z.shiftr_spec, Hc, Z.bit0_odd, (Z.mul_comm P), Z.odd_add_mul_2 by lia.
    by destruct (v mod 256 =? 0).
  - rewrite <- Z.shiftr_shiftr, Hc, Z.shiftr_div_pow2 by lia. change (2 ^ 1) with 2. rewrite Z.div_add by lia.
    by destruct (v mod 256 =? 0).
Qed.

Lemma skip_field_ok n cmd bit v hi pos :
  0 <= bit -> Z.shiftr cmd bit = Z.lor (field_flags n v) (Z.shiftl hi (Z.of_nat n)) ->
  skip_field n cmd bit pos = pos + blen (field_bytes n v).
Proof.
  revert bit v pos. induction n as [|n IH]; intros bit v pos Hbit Hc; cbn [skip_field field_bytes]; [rewrite blen_nil; lia|].
  destruct (field_flag_next _ _ _ _ _ Hbit Hc) as [-> Hc']. rewrite (IH _ (v / 256)) by (done || lia). rewrite blen_app.
  destruct (v mod 256 =? 0); cbn [negb]; blens.
Qed.

Lemma read_size_field_ok n delta cmd i v hi sz pre rest :
  0 <= i -> 0 <= sz < 2 ^ (8 * i) -> Z.shiftr cmd (4 + i) = Z.lor (field_flags n v) (Z.shiftl hi (Z.of_nat n)) ->
  delta = pre ++ field_bytes n v ++ rest ->
  read_size_field n delta cmd i sz (blen pre)
    = Ok (sz + (v mod 256 ^ Z.of_nat n) * 2 ^ (8 * i), blen pre + blen (field_bytes n v)).
Proof.
  revert i v sz pre. induction n as [|n IH]; intros i v sz pre Hi Hsz Hc Hd; cbn [read_size_field field_bytes].
  { change (256 ^ Z.of_nat 0) with 1. rewrite Z.mod_1_r. change (blen (@nil Z)) with 0. do 2 f_equal; lia. }
  destruct (field_flag_next cmd (4 + i) n v hi ltac:(lia) Hc) as [-> Hc']. replace (4 + i + 1) with (4 + (i + 1)) in Hc' by lia.
  cbn [field_bytes] in Hd. pose proof (Z.mod_pos_bound v 256 eq_refl) as Hb.
  assert (Hpow : 2 ^ (8 * (i + 1)) = 256 * 2 ^ (8 * i)) by (replace (8 * (i + 1)) with (8 + 8 * i) by lia; by rewrite Z.pow_add_r by lia).
  assert (Hmod : v mod 256 ^ Z.of_nat (S n) = v mod 256 + 256 * ((v / 256) mod 256 ^ Z.of_nat n)).
  { rewrite Nat2Z.inj_succ, Z.pow_succ_r by lia. apply Z.rem_mul_r; lia. }
  assert (0 < 2 ^ (8 * i)) by (apply Z.pow_pos_nonneg; lia).
  rewrite Hmod. destruct (v mod 256 =? 0) eqn:E; cbn [negb].
  - rewrite (IH (i + 1) (v / 256) sz pre) by (done || lia || nia). rewrite Hpow. cbn [app]. do 2 f_equal. lia.
  - rewrite (get_parts delta pre (field_bytes n (v / 256) ++ rest) (v mod 256)) by (rewrite ?Hd; list_eq). cbn [or_panic rbind].
    replace (blen pre + 1) with (blen (pre ++ [v mod 256])) by blens. rewrite lor_shiftl_add by lia.
    rewrite (IH (i + 1) (v / 256) _ (pre ++ [v mod 256])); [|lia|rewrite Hpow; nia|done|rewrite Hd; list_eq].
    rewrite Hpow, !blen_app. do 2 f_equal; lia.
Qed.

(** The bytes a delta copies from its base. *)
Definition copied_size (ops : list Ins) : Z :=
  foldr (fun i n => match i with Copy _ size => size | Data _ => 0 end + n) 0 ops.

Lemma copied_size_bounds base ops : Forall (ins_ok base) ops -> 0 <= copied_size ops <= blen (delta_out base ops).
Proof.
  induction 1 as [|i ops Hi _ IH]; [done|]. unfold delta_out in *. cbn [copied_size foldr map concat]. fold (copied_size ops). rewrite blen_app.
  destruct i as [off size|lit]; cbn [ins_out ins_ok] in *; [rewrite blen_slice by lia; lia|]. pose proof (blen_nonneg lit). lia.
Qed.

Lemma walk_opcodes_ok fuel delta new_len base ops pre shared :
  Forall (ins_ok base) ops -> copied_size ops <= new_len -> (length ops < fuel)%nat -> delta = pre ++ delta_ops ops ->
  walk_opcodes fuel delta new_len (blen pre) shared = Ok (shared + copied_size ops).
Proof.
  revert ops pre shared. induction fuel as [|fuel IH]; intros ops pre shared Hok Hle Hf Hd; [lia|]. cbn [walk_opcodes].
  destruct ops as [|i ops]; [rewrite Hd; unfold delta_ops; cbn [map concat]; rewrite app_nil_r, Z.ltb_irrefl; cbn; f_equal; lia|].
  apply Forall_cons_1 in Hok as [Hi Hok]. pose proof (copied_size_bounds _ _ Hok) as Hc. cbn [copied_size foldr] in *. fold (copied_size ops) in *.
  unfold delta_ops in Hd. cbn [map concat] in Hd. fold (delta_ops ops) in Hd. cbn [length] in Hf.
  destruct i as [off size|lit]; cbn [ins_bytes ins_ok] in *.
  - unfold copy_bytes in Hd. set (cmd := copy_cmd off size) in *. pose proof (copy_cmd_bound off size) as Hcmd. fold cmd in Hcmd.
    replace (blen pre <? blen delta) with true by (rewrite Hd; blens).
    rewrite (get_parts delta pre ((field_bytes 4 off ++ field_bytes 3 size) ++ delta_ops ops) cmd) by (rewrite ?Hd; list_eq).
    cbn [or_panic rbind]. rewrite land_128_byte by (unfold is_byte; lia). replace (cmd <? 128) with false by lia. cbn [Z.eqb].
    rewrite (skip_field_ok 4 cmd 0 off (Z.lor (field_flags 3 size) (Z.shiftl 1 3))) by (rewrite ?Z.shiftr_0_r; done).
    replace (blen pre + 1 + blen (field_bytes 4 off)) with (blen (pre ++ cmd :: field_bytes 4 off)) by blens.
    rewrite (read_size_field_ok 3 delta cmd 0 size 1 0 _ (delta_ops ops)); [|lia|lia| |rewrite Hd; list_eq].
    + cbn [rbind]. change (256 ^ Z.of_nat 3) with (2 ^ 24). rewrite Z.mod_small by lia. replace (0 + size * 2 ^ (8 * 0)) with size by (cbn; lia).
      replace (size =? 0) with false by lia. rewrite Z.min_l by lia.
      rewrite <- blen_app, (IH ops _ (shared + size) Hok ltac:(lia) ltac:(lia)); [f_equal; lia|]. rewrite Hd. list_eq.
    + unfold cmd, copy_cmd. pose proof (field_flags_bound 4 off). rewrite lor_shiftl_add by lia. rewrite Z.shiftr_div_pow2 by lia.
      change (2 ^ (4 + 0)) with 16. change (2 ^ 4) with 16. rewrite Z.div_add, Z.div_small by lia. done.
  - replace (blen pre <? blen delta) with true by (rewrite Hd; blens).
    rewrite (get_parts delta pre (lit ++ delta_ops ops) (blen lit)) by (rewrite ?Hd; list_eq). cbn [or_panic rbind].
    rewrite land_128_byte by (unfold is_byte; lia). replace (blen lit <? 128) with true by lia. cbn [Z.eqb].
    replace (blen pre + 1 + blen lit) with (blen (pre ++ blen lit :: lit)) by blens.
    rewrite (IH ops _ shared Hok ltac:(lia) ltac:(lia)); [f_equal; lia|]. rewrite Hd. list_eq.
Qed.

Lemma skip_varint_loop_ok fuel f delta v pre rest :
  0 <= v < 128 ^ (Z.of_nat f + 1) -> (length (write_varint_loop (S f) v) <= fuel)%nat -> delta = pre ++ write_varint_loop (S f) v ++ rest ->
  skip_varint fuel delta (blen pre) = Ok (blen (pre ++ write_varint_loop (S f) v)).
Proof.
  revert fuel v pre. induction f as [|f IH]; intros fuel v pre Hv Hf Hd.
  all: destruct fuel as [|fuel]; [cbn in Hf; destruct (128 <=? v); cbn in Hf; lia|]; cbn [skip_varint].
  - cbn [write_varint_loop] in *. change (128 ^ (Z.of_nat 0 + 1)) with 128 in Hv. replace (128 <=? v) with false in * by lia.
    replace (blen pre <? blen delta) with true by (rewrite Hd; blens).
    rewrite (get_parts delta pre rest (as_u8 v)) by (rewrite ?Hd; list_eq). cbn [or_panic rbind].
    unfold as_u8 at 1. rewrite Z.mod_small by lia. rewrite land_128_byte by (unfold is_byte; lia). replace (v <? 128) with true by lia.
    cbn [Z.eqb negb]. f_equal. blens.
  - remember (S f) as g. cbn [write_varint_loop] in Hd, Hf |- *. destruct (128 <=? v) eqn:E.
    + replace (blen pre <? blen delta) with true by (rewrite Hd; blens). rewrite lor_u8_128 in *.
      pose proof (Z.mod_pos_bound v 128 eq_refl) as Hm.
      rewrite (get_parts delta pre (write_varint_loop g (Z.shiftr v 7) ++ rest) (v mod 128 + 128)) by (rewrite ?Hd; list_eq).
      cbn [or_panic rbind]. rewrite land_128_byte by (unfold is_byte; lia). replace (v mod 128 + 128 <? 128) with false by lia. cbn [Z.eqb negb].
      replace (blen pre + 1) with (blen (pre ++ [v mod 128 + 128])) by blens. subst g.
      rewrite (IH fuel (Z.shiftr v 7) (pre ++ [v mod 128 + 128])); [f_equal; f_equal; list_eq| |cbn [length] in Hf; lia|rewrite Hd; list_eq].
      rewrite Z.shiftr_div_pow2 by lia. change (2 ^ 7) with 128. split; [apply Z.div_pos; lia|]. apply Z.div_lt_upper_bound; [lia|].
      rewrite <- Z.pow_succ_r by lia. replace (Z.succ (Z.of_nat f + 1)) with (Z.of_nat (S f) + 1) by lia. lia.
    + replace (blen pre <? blen delta) with true by (rewrite Hd; blens).
      rewrite (get_parts delta pre rest (as_u8 v)) by (rewrite ?Hd; list_eq). cbn [or_panic rbind].
      unfold as_u8 at 1. rewrite Z.mod_small by lia. rewrite land_128_byte by (unfold is_byte; lia). replace (v <? 128) with true by lia.
      cbn [Z.eqb negb]. f_equal. blens.
Qed.

Lemma skip_varint_ok delta v pre rest :
  0 <= v <= usize_max -> delta = pre ++ write_varint v ++ rest ->
  skip_varint (S (length delta)) delta (blen pre) = Ok (blen (pre ++ write_varint v)).
Proof.
  unfold usize_max. intros Hv Hd. apply (skip_varint_loop_ok _ 9 _ _ _ rest); [change (128 ^ (Z.of_nat 9 + 1)) with (2 ^ 70); lia| |done].
  rewrite Hd. unfold write_varint. rewrite !length_app. lia.
Qed.

Lemma length_delta_ops ops : (length ops <= length (delta_ops ops))%nat.
Proof.
  induction ops as [|i ops IH]; [done|]. unfold delta_ops in *. cbn [map concat length]. rewrite length_app.
  destruct i; cbn [ins_bytes copy_bytes length]; lia.
Qed.

(** The part of [rabin_encode_rate] after the delta has been built. *)
Lemma walk_delta old new delta ops :
  delta = (write_varint (blen old) ++ write_varint (blen new)) ++ delta_ops ops ->
  Forall (ins_ok old) ops -> delta_out old ops = new -> blen old <= usize_max -> blen new <= usize_max ->
  (let! pos := skip_varint (S (length delta)) delta 0 in
   let! pos := skip_varint (S (length delta)) delta pos in
   walk_opcodes (S (length delta)) delta (blen new) pos 0) = Ok (copied_size ops).
Proof.
  intros Hd Hok Hout Ho Hn. pose proof (copied_size_bounds _ _ Hok) as Hc. rewrite Hout in Hc.
  pose proof (blen_nonneg old). pose proof (blen_nonneg new).
  pose proof (skip_varint_ok delta (blen old) [] (write_varint (blen new) ++ delta_ops ops) ltac:(lia) ltac:(rewrite Hd; list_eq)) as H1.
  change (blen (@nil Z)) with 0 in H1. rewrite H1. cbn [rbind app].
  rewrite (skip_varint_ok delta (blen new) (write_varint (blen old)) (delta_ops ops)) by (lia || rewrite Hd; list_eq). cbn [rbind].
  rewrite (walk_opcodes_ok _ _ _ old ops); try done; [lia|]. rewrite Hd, !length_app. pose proof (length_delta_ops ops). lia.
Qed.

(** The exact similarity rate is the share of the target that its Rabin delta copies: for non-empty
    buffers the walk over the delta never leaves it, and it adds up the sizes of the copy
    instructions of the very delta [encode_rabin] produces, which rebuild the target; the rate is a
    double between zero and one, and zero for a base too short to be indexed. *)
Theorem rabin_encode_rate_exact (little_endian : bool) (old new : bytes) :
  byte_list old -> byte_list new -> old <> [] -> new <> [] -> blen old < 2 ^ 32 -> blen new < 2 ^ 53 ->
  exists rate, rabin_encode_rate little_endian old new = Ok rate
  /\ f64_leb f64_zero rate = true /\ f64_leb rate f64_one = true
  /\ (blen old <= RABIN_WINDOW -> rate = f64_zero)
  /\ (RABIN_WINDOW < blen old -> exists ops delta, encode_rabin little_endian old new = Ok delta
      /\ delta = (write_varint (blen old) ++ write_varint (blen new)) ++ delta_ops ops
      /\ Forall (ins_ok old) ops /\ delta_out old ops = new /\ rate = ratio (copied_size ops) (blen new)).
Proof.
  intros Hbo Hbn Ho Hn Hlo Hln. apply blen_pos in Ho, Hn. unfold rabin_encode_rate, encode_rabin, create_delta_index.
  replace (blen old =? 0) with false by lia. replace (blen new =? 0) with false by lia. cbn [andb orb].
  destruct (Z_le_gt_dec (blen old) RABIN_WINDOW) as [Hs|Hs].
  { exists f64_zero. unfold create_delta_index_arc. replace (blen old =? 0) with false by lia. unfold RABIN_WINDOW in *.
    replace ((blen old - 1) / 16) with 0 by (symmetry; apply Z.div_small; lia). split; [done|]. split_and!; try done. lia. }
  destruct (create_delta_index_arc_ok old Hbo Hlo) as [[? _]|(idx & -> & Hsrc & Hwf)]; [lia|]. cbn [rbind].
  destruct (create_delta_inner_ok little_endian idx new None Hwf) as (r & Hr & Hrd); [by rewrite Hsrc|done|].
  unfold create_delta. rewrite Hr. cbn [rbind]. destruct r as [delta|]; [|done]. destruct Hrd as [(ops & Hd & Hok & _ & Hout) _].
  rewrite Hsrc in *. cbn [or_panic rbind].
  pose proof (walk_delta old new delta ops Hd Hok Hout ltac:(unfold usize_max; lia) ltac:(unfold usize_max; lia)) as Hw.
  destruct (skip_varint _ delta 0) as [p1|[]| |]; try discriminate Hw. cbn [rbind] in *.
  destruct (skip_varint _ delta p1) as [p2|[]| |]; try discriminate Hw. cbn [rbind] in *. rewrite Hw. cbn [rbind].
  replace (0 <? blen new) with true by lia. pose proof (copied_size_bounds _ _ Hok) as Hc. rewrite Hout in Hc. rewrite Z.min_l by lia.
  eexists. split; [done|]. split; [apply ratio_geb_zero; lia|]. split; [apply ratio_leb_one; lia|]. split; [lia|].
  intros _. exists ops, delta. done.
Qed.

Lemma rabin_encode_rate_exact_witness :
  exists rate, rabin_encode_rate true sample_old sample_new = Ok rate
  /\ f64_leb f64_zero rate = true /\ f64_leb rate f64_one = true
  /\ (blen sample_old <= RABIN_WINDOW -> rate = f64_zero)
  /\ (RABIN_WINDOW < blen sample_old -> exists ops delta, encode_rabin true sample_old sample_new = Ok delta
      /\ delta = (write_varint (blen sample_old) ++ write_varint (blen sample_new)) ++ delta_ops ops
      /\ Forall (ins_ok sample_old) ops /\ delta_out sample_old ops = sample_new /\ rate = ratio (copied_size ops) (blen sample_new)).
Proof.
  apply (rabin_encode_rate_exact true sample_old sample_new); try discriminate; try reflexivity.
  all: repeat constructor; unfold is_byte; lia.
Defined.

(** 26 of the 31 bytes of the sample are copied. *)
Example rabin_encode_rate_sample : rabin_encode_rate true sample_old sample_new = Ok (ratio 26 31).
Proof. vm_compute. reflexivity. Qed.


(** ** The parallel estimate *)

Lemma length_byte_chunks fuel n l m :
  length l = length m -> length (byte_chunks fuel n l) = length (byte_chunks fuel n m).
Proof.
  revert l m. induction fuel as [|fuel IH]; intros [|x l] [|y m] Hl; try done. cbn [byte_chunks length]. f_equal. apply IH.
  rewrite !length_drop. by rewrite Hl.
Qed.

(** The parallel estimate is the share of equal chunks, or zero below one half; equal buffers rate one. *)
Theorem parallel_rate_screened (old new : bytes) :
  old <> [] -> new <> [] -> Z.min (blen old) (blen new) < 2 ^ 53 ->
  let n := Z.to_nat (Z.min (blen old) (blen new)) in
  let step := Z.to_nat (parallel_step (Z.min (blen old) (blen new))) in
  let samples := zip_with (fun a b => bool_decide (a = b)) (byte_chunks n step (take n old)) (byte_chunks n step (take n new)) in
  0 < blen samples /\ heuristic_encode_rate_parallel old new = Ok (screened_rate samples)
  /\ (old = new -> heuristic_encode_rate_parallel old new = Ok f64_one).
Proof.
  intros Ho Hn Hmax n step samples. apply blen_pos in Ho, Hn. set (min := Z.min (blen old) (blen new)) in *.
  assert (Hlo : length (take n old) = n) by (rewrite length_take; unfold n, min, blen; lia).
  assert (Hln : length (take n new) = n) by (rewrite length_take; unfold n, min, blen; lia).
  assert (Hpos : 0 < blen samples).
  { unfold samples. unfold blen. rewrite length_zip_with, (length_byte_chunks n step (take n new) (take n old)) by congruence.
    rewrite Nat.min_id. destruct n as [|k] eqn:En; [lia|]. destruct (take (S k) old); [cbn in Hlo; lia|]. cbn [byte_chunks length]. lia. }
  assert (Hup : forall fuel l, (length (byte_chunks fuel step l) <= fuel)%nat).
  { intros fuel. induction fuel as [|fuel IH]; intros [|x l]; cbn [byte_chunks length]; try lia. specialize (IH (drop step (x :: l))). lia. }
  assert (Hbl : blen samples < 2 ^ 53).
  { unfold samples, blen. rewrite length_zip_with. specialize (Hup n (take n old)). lia. }
  assert (E : heuristic_encode_rate_parallel old new = Ok (screened_rate samples)).
  { unfold heuristic_encode_rate_parallel. fold min. replace (blen old =? 0) with false by lia. replace (blen new =? 0) with false by lia.
    cbn [andb orb]. rewrite !get_range_ok by lia. cbn [or_panic rbind]. unfold slice. rewrite Z.sub_0_r. change (Z.to_nat 0) with 0%nat. rewrite !drop_0. change (Z.to_nat min) with n. change (Z.to_nat (parallel_step min)) with step.
    rewrite Hlo, Hln. set (ch := zip _ _). assert (Hs : samples = map (fun '(a, b) => bool_decide (a = b)) ch).
    { unfold samples, ch. rewrite zip_with_zip. apply map_ext. by intros []. }
    assert (Hc : blen ch = blen samples) by (rewrite Hs; unfold blen; by rewrite length_map).
    assert (Hm : blen (filter (fun '(a, b) => a = b) ch) = matching samples).
    { rewrite Hs. clear. induction ch as [|[a b] ch IH]; [done|]. cbn [map]. rewrite matching_cons, <- IH.
      destruct (decide (a = b)) as [->|Hne]; [rewrite bool_decide_true by done|rewrite bool_decide_false by done].
      - rewrite filter_cons_True by done. by rewrite blen_cons.
      - rewrite filter_cons_False by done. lia. }
    pose proof (matching_bounds samples). rewrite Hm, Hc. unfold MIN_DELTA_RATE, screened_rate. rewrite ratio_ltb_half by lia. done. }
  split; [done|]. split; [done|]. intros ->. rewrite E. f_equal. apply screened_rate_spec; [lia|].
  unfold samples. apply Forall_lookup_2. intros i b Hb. apply lookup_zip_with_Some in Hb as (x & y & -> & Hx & Hy). assert (x = y) as -> by congruence.
  by apply bool_decide_pack.
Qed.
