(* ===== verification/DeltaEncode.v ===== *)
(** The edit-script delta encoder, [src/delta/encode/mod.rs] ([DeltaDiff]) and
    [pack_name_hash] of [src/delta/mod.rs].

    [DeltaDiff] is the visitor of a diff algorithm of the [diffs] crate: the
    algorithm calls [equal] and [insert] for the ranges it finds.  The algorithm is
    a parameter here, the list of the calls it makes ([list Callback]); what the
    encoder relies on is [valid_script]: the calls describe the new data from left
    to right, range by range, each range non-empty, and a range reported as equal is
    equal.  The similarity rate [ssam_r] is a double. *)

From Stdlib Require Import ZArith Lia.
From stdpp Require Import base tactics list numbers option.
From S2P Require Import Prelude Float64 Stream DeltaUtils DeltaFormat DeltaDecode RabinTables.

Inductive Optype : Type := OpData | OpCopy.

#[export] Instance Optype_eq_dec : EqDecision Optype.
Proof. solve_decision. Defined.

Record DeltaOp : Type := mkDeltaOp { op_kind : Optype; op_begin : Z; op_len : Z }.

Record DeltaDiff : Type := mkDeltaDiff {
  ops : list DeltaOp;
  old_data : bytes;
  new_data : bytes;
  ssam : Z;
  ssam_r : f64
}.

(** The calls a diff algorithm makes on its visitor. *)
Inductive Callback : Type :=
| CbEqual (old new len : Z)
| CbInsert (old new len : Z).

Section visitor.
Implicit Types d : DeltaDiff.

Definition with_ops d (l : list DeltaOp) : DeltaDiff :=
  mkDeltaDiff l (old_data d) (new_data d) (ssam d) (ssam_r d).

Definition push_op d (op : DeltaOp) : DeltaDiff := with_ops d (ops d ++ [op]).

Definition equal d (old new len : Z) : DeltaDiff :=
  let d := mkDeltaDiff (ops d) (old_data d) (new_data d) (ssam d + len) (ssam_r d) in
  match split_last (ops d) with
  | Some (front, tail) =>
      if (op_begin tail + op_len tail =? old) && bool_decide (op_kind tail = OpCopy)
      then with_ops d (front ++ [mkDeltaOp (op_kind tail) (op_begin tail) (op_len tail + len)])
      else push_op d (mkDeltaOp OpCopy old len)
  | None => push_op d (mkDeltaOp OpCopy old len)
  end.

(** [while len > DATA_INS_LEN], then the remainder. *)
Fixpoint insert_chunks (fuel : nat) d (new len : Z) : Res Empty_set DeltaDiff :=
  match fuel with
  | O => OutOfFuel
  | S fuel =>
      if DATA_INS_LEN <? len
      then insert_chunks fuel (push_op d (mkDeltaOp OpData new DATA_INS_LEN))
             (new + DATA_INS_LEN) (len - DATA_INS_LEN)
      else Ok (push_op d (mkDeltaOp OpData new len))
  end.

Definition insert d (old new len : Z) : Res Empty_set DeltaDiff :=
  if DATA_INS_LEN <? len then insert_chunks (S (Z.to_nat len)) d new len
  else
    match split_last (ops d) with
    | Some (front, tail) =>
        if (op_begin tail + op_len tail =? new) && bool_decide (op_kind tail = OpData)
           && (op_len tail + len <? DATA_INS_LEN)
        then Ok (with_ops d (front ++ [mkDeltaOp (op_kind tail) (op_begin tail) (op_len tail + len)]))
        else Ok (push_op d (mkDeltaOp OpData new len))
    | None => Ok (push_op d (mkDeltaOp OpData new len))
    end.

Definition finish d : DeltaDiff :=
  mkDeltaDiff (ops d) (old_data d) (new_data d) (ssam d) (ratio (ssam d) (blen (new_data d))).

Definition visit d (cb : Callback) : Res Empty_set DeltaDiff :=
  match cb with
  | CbEqual old new len => Ok (equal d old new len)
  | CbInsert old new len => insert d old new len
  end.

Fixpoint visit_all d (script : list Callback) : Res Empty_set DeltaDiff :=
  match script with
  | [] => Ok d
  | cb :: script => let! d := visit d cb in visit_all d script
  end.

(** [DeltaDiff::new], given the calls the diff algorithm makes before [finish]. *)
Definition DeltaDiff_new (diff : bytes -> bytes -> list Callback) (old new : bytes)
  : Res Empty_set DeltaDiff :=
  let! d := visit_all (mkDeltaDiff [] old new 0 f64_zero) (diff old new) in
  Ok (finish d).

Definition get_ssam_rate d : f64 := ssam_r d.
End visitor.

Fixpoint write_size_loop (fuel : nat) (number : Z) (num : bytes) : Res Empty_set bytes :=
  match fuel with
  | O => OutOfFuel
  | S fuel =>
      if 0 <? Z.shiftr number 7
      then write_size_loop fuel (Z.shiftr number 7) (num ++ [Z.lor (as_u8 (Z.land number 0x7f)) 0x80])
      else Ok (num ++ [as_u8 (Z.land number 0x7f)])
  end.

(** A [usize] has at most ten groups of seven bits. *)
Definition write_size_encoding (number : Z) : Res Empty_set bytes := write_size_loop 10 number [].

(** The two [for] loops of the copy branch are the loops of [push_copy_op]. *)
Definition encode_op (new : bytes) (op : DeltaOp) : Res Empty_set bytes :=
  match op_kind op with
  | OpData =>
      let instruct := as_u8 (Z.land (op_len op) 0x7f) in
      let! lit := or_panic (get_range new (op_begin op) (op_begin op + op_len op)) in
      Ok ([instruct] ++ lit)
  | OpCopy =>
      let '(instruct, copy_data) := push_field 4 0 (op_begin op) 0x80 [] in
      let '(instruct, copy_data) := push_field 3 4 (op_len op) instruct copy_data in
      Ok ([instruct] ++ copy_data)
  end.

Fixpoint encode_ops (new : bytes) (l : list DeltaOp) (result : bytes) : Res Empty_set bytes :=
  match l with
  | [] => Ok result
  | op :: l => let! b := encode_op new op in encode_ops new l (result ++ b)
  end.

Definition DeltaDiff_encode (d : DeltaDiff) : Res Empty_set bytes :=
  let! a := write_size_encoding (blen (old_data d)) in
  let! b := write_size_encoding (blen (new_data d)) in
  encode_ops (new_data d) (ops d) (a ++ b).

(** [encode] and [encode_rate] of [src/delta/mod.rs]. *)
Definition encode (diff : bytes -> bytes -> list Callback) (old new : bytes) : Res Empty_set bytes :=
  let! differ := DeltaDiff_new diff old new in DeltaDiff_encode differ.

Definition encode_rate (diff : bytes -> bytes -> list Callback) (old new : bytes)
  : Res Empty_set f64 :=
  let! differ := DeltaDiff_new diff old new in Ok (get_ssam_rate differ).

(** Git's name hash: only the last path component counts, blanks are skipped. *)
Fixpoint rposition (p : Z -> bool) (l : bytes) : option Z :=
  match l with
  | [] => None
  | b :: l =>
      match rposition p l with
      | Some i => Some (i + 1)
      | None => if p b then Some 0 else None
      end
  end.

Definition last_component (path_bytes : bytes) : Res Empty_set bytes :=
  let start := match rposition (Z.eqb 47) path_bytes with Some i => i + 1 | None => 0 end in
  or_panic (get_range path_bytes start (blen path_bytes)).

Definition name_hash_step (hash c : Z) : Z :=
  if (c =? 32) || (c =? 9) || (c =? 10) || (c =? 13) then hash
  else as_u32 (Z.shiftr hash 2 + as_u32 (Z.shiftl c 24)).

Definition pack_name_hash (path_bytes : bytes) : Res Empty_set Z :=
  let! name := last_component path_bytes in
  Ok (fold_left name_hash_step name 0).

(** * The encoder writes the common delta format *)

Lemma write_size_loop_varint fuel n num :
  0 <= n < 128 ^ Z.of_nat fuel * 128 ->
  write_size_loop (S fuel) n num = Ok (num ++ write_varint_loop (S fuel) n).
Proof.
  revert n num. induction fuel as [|fuel IH]; intros n num Hn.
  all: cbn [write_size_loop write_varint_loop]; rewrite land_127.
  all: assert (Hdiv : Z.shiftr n 7 = n / 128) by (rewrite Z.shiftr_div_pow2 by lia; done).
  all: pose proof (Z.div_mod n 128 ltac:(lia)); pose proof (Z.mod_pos_bound n 128 ltac:(lia)).
  all: rewrite Hdiv; replace (0 <? n / 128) with (128 <=? n) by lia.
  all: destruct (128 <=? n) eqn:E;
    [|do 3 f_equal; unfold as_u8; by rewrite (Z.mod_small n 128) by lia].
  - change (128 ^ Z.of_nat 0) with 1 in Hn. lia.
  - change (write_size_loop (S fuel) (n / 128) (num ++ [Z.lor (as_u8 (n mod 128)) 128])
            = Ok (num ++ Z.lor (as_u8 n) 128 :: write_varint_loop (S fuel) (n / 128))).
    rewrite IH, <- app_assoc.
    + rewrite !lor_u8_128, Z.mod_mod by lia. reflexivity.
    + rewrite Nat2Z.inj_succ, Z.pow_succ_r in Hn by lia.
      split; [lia|]. apply Z.div_lt_upper_bound; lia.
Qed.

Lemma write_size_encoding_varint n :
  0 <= n <= usize_max -> write_size_encoding n = Ok (write_varint n).
Proof.
  intros Hn. unfold write_size_encoding, write_varint.
  by rewrite write_size_loop_varint by (unfold usize_max in Hn; lia).
Qed.

(** The instruction an operation stands for. *)
Definition op_ins (new : bytes) (op : DeltaOp) : Ins :=
  match op_kind op with
  | OpData => Data (slice new (op_begin op) (op_begin op + op_len op))
  | OpCopy => Copy (op_begin op) (op_len op)
  end.

Definition op_ok (old new : bytes) (op : DeltaOp) : Prop :=
  0 <= op_begin op /\ 0 < op_len op /\
  match op_kind op with
  | OpData => op_len op < 128 /\ op_begin op + op_len op <= blen new
  | OpCopy => op_begin op + op_len op <= blen old
  end.

Lemma encode_op_copy new b n : encode_op new (mkDeltaOp OpCopy b n) = Ok (copy_bytes b n).
Proof.
  pose proof (push_copy_op_spec [] b n) as H. unfold push_copy_op in H. unfold encode_op.
  cbn [op_kind op_begin op_len].
  destruct (push_field 4 0 b 128 []) as [c e]. destruct (push_field 3 4 n c e) as [c' e'].
  rewrite !app_nil_l in H. by rewrite <- H.
Qed.

Lemma op_ok_ins old new op : blen old < 2 ^ 24 -> op_ok old new op -> ins_ok old (op_ins new op).
Proof.
  destruct op as [[] b n]; unfold op_ok, op_ins; cbn; intros.
  - rewrite blen_slice; lia.
  - lia.
Qed.

Lemma encode_op_ok old new op :
  op_ok old new op -> encode_op new op = Ok (ins_bytes (op_ins new op)).
Proof.
  destruct op as [[] b n]; intros Hok; [|apply encode_op_copy].
  unfold op_ok in Hok; cbn in Hok. unfold encode_op, op_ins. cbn [op_kind op_begin op_len ins_bytes].
  replace (get_range new b (b + n)) with (Some (slice new b (b + n)))
    by (symmetry; apply get_range_Some; split; [lia|done]).
  cbn [or_panic rbind]. rewrite land_127, blen_slice by lia. unfold as_u8.
  replace (b + n - b) with n by lia. by rewrite (Z.mod_small n 128), Z.mod_small by lia.
Qed.

Lemma encode_ops_ok old new l result :
  Forall (op_ok old new) l ->
  encode_ops new l result = Ok (result ++ delta_ops (map (op_ins new) l)).
Proof.
  intros H. revert result. induction H as [|op l Hop _ IH]; intros result.
  - cbn. by rewrite app_nil_r.
  - cbn [encode_ops]. rewrite (encode_op_ok old) by done. cbn [rbind]. rewrite IH.
    unfold delta_ops. cbn [map concat]. by rewrite <- app_assoc.
Qed.

(** * What the visitor builds *)

(** A diff algorithm's calls from position [p] of the new data on. *)
Inductive valid_script (old new : bytes) : Z -> list Callback -> Prop :=
| valid_done : valid_script old new (blen new) []
| valid_equal o p n script :
    0 < n -> 0 <= o -> o + n <= blen old -> p + n <= blen new ->
    slice old o (o + n) = slice new p (p + n) ->
    valid_script old new (p + n) script -> valid_script old new p (CbEqual o p n :: script)
| valid_insert o p n script :
    0 < n -> p + n <= blen new ->
    valid_script old new (p + n) script -> valid_script old new p (CbInsert o p n :: script).

(** The operations collected so far produce the new data up to [p]. *)
Record diff_inv (old new : bytes) (p : Z) (d : DeltaDiff) : Prop := {
  di_old : old_data d = old;
  di_new : new_data d = new;
  di_pos : 0 <= p <= blen new;
  di_ops : Forall (op_ok old new) (ops d);
  di_out : delta_out old (map (op_ins new) (ops d)) = slice new 0 p
}.

Section visitor_proofs.
Variables old new : bytes.

Lemma ops_out_snoc l op :
  delta_out old (map (op_ins new) (l ++ [op]))
  = delta_out old (map (op_ins new) l) ++ ins_out old (op_ins new op).
Proof. rewrite map_app. apply delta_out_snoc. Qed.

(** One more operation that produces the next [n] bytes. *)
Lemma diff_inv_push p n d op :
  diff_inv old new p d -> 0 <= n -> p + n <= blen new -> op_ok old new op ->
  ins_out old (op_ins new op) = slice new p (p + n) ->
  diff_inv old new (p + n) (push_op d op).
Proof.
  intros [] Hn Hp Hok Hout. split; cbn [ops old_data new_data with_ops push_op]; auto; [lia| |].
  - apply Forall_app. split; [done|]. by apply Forall_cons_2.
  - rewrite ops_out_snoc, di_out0, Hout. symmetry. apply slice_split; lia.
Qed.

(** The last operation extended by [n] bytes. *)
Lemma diff_inv_extend p n d front tail :
  diff_inv old new p d -> 0 < n -> p + n <= blen new -> ops d = front ++ [tail] ->
  let tail' := mkDeltaOp (op_kind tail) (op_begin tail) (op_len tail + n) in
  op_ok old new tail' ->
  ins_out old (op_ins new tail') = ins_out old (op_ins new tail) ++ slice new p (p + n) ->
  diff_inv old new (p + n) (with_ops d (front ++ [tail'])).
Proof.
  intros [] Hn Hp Hops tail' Hok Hout. rewrite Hops in *.
  apply Forall_app in di_ops0 as [Hf _].
  rewrite ops_out_snoc in di_out0.
  split; cbn [ops old_data new_data with_ops]; auto; [lia| |].
  - apply Forall_app. split; [done|]. by apply Forall_cons_2.
  - rewrite ops_out_snoc, Hout, app_assoc, di_out0. symmetry. apply slice_split; lia.
Qed.

Lemma equal_ok p o n d :
  diff_inv old new p d -> 0 < n -> 0 <= o -> o + n <= blen old -> p + n <= blen new ->
  slice old o (o + n) = slice new p (p + n) -> diff_inv old new (p + n) (equal d o p n).
Proof.
  intros Hinv Hn Ho Hol Hpl Heq. unfold equal.
  set (d' := mkDeltaDiff (ops d) (old_data d) (new_data d) (ssam d + n) (ssam_r d)).
  assert (Hinv' : diff_inv old new p d') by (destruct Hinv; by split).
  assert (Hpush : diff_inv old new (p + n) (push_op d' (mkDeltaOp OpCopy o n))).
  { apply diff_inv_push; auto; [lia|]. unfold op_ok; cbn. lia. }
  destruct (split_last (ops d')) as [[front tail]|] eqn:El; [|done].
  apply split_last_Some in El. destruct (_ && _) eqn:E; [|done].
  apply andb_true_iff in E as [Eb Ek]. apply bool_decide_eq_true in Ek.
  assert (Htail : op_ok old new tail).
  { destruct Hinv'. rewrite El in di_ops0. apply Forall_app in di_ops0 as [_ Ht].
    by apply Forall_cons_1 in Ht as [? _]. }
  apply diff_inv_extend; auto; destruct tail as [[] b m]; try done;
    unfold op_ok, op_ins in *; cbn in *; [lia|].
  assert (b + m = o) as Hbm by lia. subst o. rewrite <- Heq.
  rewrite Z.add_assoc. apply slice_split; lia.
Qed.

Lemma push_data_ok p n d :
  diff_inv old new p d -> 0 < n < 128 -> p + n <= blen new ->
  diff_inv old new (p + n) (push_op d (mkDeltaOp OpData p n)).
Proof.
  intros Hinv Hn Hp. pose proof (di_pos _ _ _ _ Hinv).
  apply diff_inv_push; auto; [lia|]. unfold op_ok; cbn. lia.
Qed.

Lemma insert_chunks_ok fuel p n d :
  diff_inv old new p d -> 0 < n -> p + n <= blen new -> n < Z.of_nat fuel ->
  exists d', insert_chunks fuel d p n = Ok d' /\ diff_inv old new (p + n) d' /\ ssam d' = ssam d.
Proof.
  revert p n d. induction fuel as [|fuel IH]; intros p n d Hinv Hn Hp Hf; [lia|].
  cbn [insert_chunks]. unfold DATA_INS_LEN in *. destruct (127 <? n) eqn:E.
  - destruct (IH (p + 127) (n - 127) (push_op d (mkDeltaOp OpData p 127))) as (d' & E' & H' & Hs);
      [apply push_data_ok; auto; lia|lia|lia|lia|].
    exists d'. split; [exact E'|]. by replace (p + n) with (p + 127 + (n - 127)) by lia.
  - eexists. split; [reflexivity|]. split; [|done]. apply push_data_ok; auto; lia.
Qed.

Lemma insert_ok p o n d :
  diff_inv old new p d -> 0 < n -> p + n <= blen new ->
  exists d', insert d o p n = Ok d' /\ diff_inv old new (p + n) d' /\ ssam d' = ssam d.
Proof.
  intros Hinv Hn Hp. unfold insert. destruct (DATA_INS_LEN <? n) eqn:E.
  { apply insert_chunks_ok; auto; lia. }
  unfold DATA_INS_LEN in *.
  assert (Hpush := push_data_ok p n d Hinv ltac:(lia) Hp).
  destruct (split_last (ops d)) as [[front tail]|] eqn:El; [|by eauto].
  apply split_last_Some in El. destruct (_ && _) eqn:Ec; [|by eauto].
  apply andb_true_iff in Ec as [Ec Hlen]. apply andb_true_iff in Ec as [Eb Ek].
  apply bool_decide_eq_true in Ek. eexists. split; [reflexivity|]. split; [|done].
  assert (Htail : op_ok old new tail).
  { destruct Hinv. rewrite El in di_ops0. apply Forall_app in di_ops0 as [_ Ht].
    by apply Forall_cons_1 in Ht as [? _]. }
  apply diff_inv_extend; auto; destruct tail as [[] b m]; try done;
    unfold op_ok, op_ins in *; cbn in *; [lia|].
  assert (b + m = p) as Hbm by lia. subst p.
  rewrite Z.add_assoc. apply slice_split; lia.
Qed.

Lemma equal_ssam d o p n : ssam (equal d o p n) = ssam d + n.
Proof. unfold equal. by destruct (split_last _) as [[front tail]|]; [destruct (_ && _)|]. Qed.

Lemma visit_all_ok p script d :
  valid_script old new p script -> diff_inv old new p d ->
  exists d', visit_all d script = Ok d' /\ diff_inv old new (blen new) d'
    /\ ssam d <= ssam d' <= ssam d + (blen new - p).
Proof.
  intros Hv. revert d. induction Hv as [|o p n script Hn Ho Hol Hpl Heq Hv IH|o p n script Hn Hpl Hv IH];
    intros d Hinv; cbn [visit_all visit rbind].
  - exists d. split; [done|]. split; [done|lia].
  - destruct (IH (equal d o p n)) as (d' & E & H & Hs); [by apply equal_ok|].
    rewrite equal_ssam in Hs. exists d'. split; [done|]. split; [done|lia].
  - destruct (insert_ok p o n d Hinv Hn Hpl) as (d1 & -> & H1 & Hs1).
    destruct (IH d1 H1) as (d' & E & H & Hs). exists d'. split; [done|]. split; [done|lia].
Qed.

Lemma DeltaDiff_new_ok diff :
  valid_script old new 0 (diff old new) ->
  exists d, DeltaDiff_new diff old new = Ok d /\ diff_inv old new (blen new) d
    /\ 0 <= ssam d <= blen new /\ get_ssam_rate d = ratio (ssam d) (blen new).
Proof.
  intros Hv. pose proof (blen_nonneg new). unfold DeltaDiff_new.
  destruct (visit_all_ok 0 (diff old new) (mkDeltaDiff [] old new 0 f64_zero) Hv) as (d & -> & Hd & Hs).
  { by split. }
  cbn [rbind]. eexists. split; [reflexivity|]. destruct Hd. cbn in Hs. repeat split; cbn; auto; try lia.
  by rewrite di_new0.
Qed.
End visitor_proofs.

Lemma op_ins_bytes old new op :
  byte_list new -> op_ok old new op -> byte_list (ins_bytes (op_ins new op)).
Proof.
  intros Hn Hok. apply ins_bytes_bytes. destruct op as [[] b n]; [|exact I].
  unfold op_ok, op_ins in *. cbn in *. split; [by apply Forall_take, Forall_drop|].
  rewrite blen_slice; lia.
Qed.

(** Bytes beyond a field's width are dropped. *)
Lemma field_mod n v :
  field_flags n (v mod 256 ^ Z.of_nat n) = field_flags n v
  /\ field_bytes n (v mod 256 ^ Z.of_nat n) = field_bytes n v.
Proof.
  revert v. induction n as [|n IH]; intros v; [done|].
  rewrite Nat2Z.inj_succ, Z.pow_succ_r by lia. cbn [field_flags field_bytes].
  assert (Hp : 0 < 256 ^ Z.of_nat n) by (apply Z.pow_pos_nonneg; lia).
  rewrite Z.rem_mul_r by lia.
  pose proof (Z.mod_pos_bound v 256 ltac:(lia)).
  assert (Hm : (v mod 256 + 256 * ((v / 256) mod 256 ^ Z.of_nat n)) mod 256 = v mod 256).
  { rewrite Z.mul_comm, Z_mod_plus_full. apply Z.mod_mod. lia. }
  assert (Hd : (v mod 256 + 256 * ((v / 256) mod 256 ^ Z.of_nat n)) / 256
               = (v / 256) mod 256 ^ Z.of_nat n).
  { rewrite Z.mul_comm, Z.div_add, Z.div_small by lia. lia. }
  rewrite Hm, Hd. destruct (IH (v / 256)) as [-> ->]. done.
Qed.

Lemma copy_bytes_mod b n : copy_bytes b (n mod 2 ^ 24) = copy_bytes b n.
Proof.
  unfold copy_bytes, copy_cmd. destruct (field_mod 3 n) as [Hf Hb].
  change (256 ^ Z.of_nat 3) with (2 ^ 24) in *. by rewrite Hf, Hb.
Qed.

(** A copy of [2^24] bytes or more is decoded as a shorter one. *)
Lemma large_copy_denotes base n :
  2 ^ 24 <= n -> n <= blen base ->
  exists size, 0 < size < n /\ denotes base (copy_bytes 0 n) (slice base 0 size).
Proof.
  intros Hn Hb. rewrite <- copy_bytes_mod.
  pose proof (Z.mod_pos_bound n (2 ^ 24) ltac:(lia)). set (m := n mod 2 ^ 24) in *.
  destruct (Z.eq_dec m 0) as [->|Hm].
  - exists 65536. split; [lia|].
    pose proof (den_copy base 128 [] 0 [] 0 [] 65536 []) as Hd.
    rewrite app_nil_r in Hd. apply Hd; try lia; try reflexivity. constructor.
  - exists m. split; [lia|].
    pose proof (denotes_ins base (Copy 0 m) [] []) as Hd. cbn [ins_bytes ins_out ins_ok] in Hd.
    rewrite !app_nil_r in Hd. apply Hd; [lia|constructor|constructor].
Qed.

(** * Correctness *)

Lemma encode_delta_for (diff : bytes -> bytes -> list Callback) (old new : bytes) :
  byte_list new -> blen old < 2 ^ 24 -> blen new <= usize_max -> valid_script old new 0 (diff old new) ->
  exists delta, encode diff old new = Ok delta /\ delta_for old new delta.
Proof.
  intros Hb Hold Hnew Hv. pose proof (blen_nonneg old). pose proof (blen_nonneg new).
  unfold encode. destruct (DeltaDiff_new_ok old new diff Hv) as (d & -> & Hd & _).
  destruct Hd. cbn [rbind]. unfold DeltaDiff_encode.
  rewrite di_old0, di_new0, !write_size_encoding_varint by (unfold usize_max in *; lia).
  cbn [rbind]. rewrite (encode_ops_ok old) by done. eexists. split; [reflexivity|].
  exists (map (op_ins new) (ops d)). split; [done|]. split; [|split].
  - apply Forall_map. eapply Forall_impl; [|exact di_ops0]. intros op Hop. by apply op_ok_ins.
  - unfold delta_ops. apply Forall_concat. rewrite !Forall_map.
    eapply Forall_impl; [|exact di_ops0]. intros op Hop. by apply (op_ins_bytes old).
  - rewrite di_out0. apply slice_full.
Qed.

(** for a base below 16 MiB, the delta that [DeltaDiff] writes for any valid
    edit script decodes to the new data. *)
Theorem encode_script_roundtrip `{Allocator} (diff : bytes -> bytes -> list Callback)
  (old new : bytes) `{!AllocatorServes (blen new)} :
  byte_list new -> blen old < 2 ^ 24 -> blen new <= usize_max ->
  valid_script old new 0 (diff old new) ->
  exists delta, encode diff old new = Ok delta /\ delta_decode delta old = Ok new.
Proof.
  intros Hb Hold Hnew Hv. destruct (encode_delta_for diff old new) as (delta & -> & Hd); try done.
  exists delta. split; [done|]. apply delta_for_decodes; auto. unfold usize_max. lia.
Qed.

(** A diff that copies the first half of [old] and inserts the rest of [new]. *)
Definition sample_diff (old new : bytes) : list Callback :=
  [CbEqual 0 0 2; CbEqual 2 2 2; CbInsert 4 4 1; CbInsert 4 5 2].

Lemma sample_diff_valid : valid_script [1; 2; 3; 4; 5] [1; 2; 3; 4; 9; 8; 7] 0
  (sample_diff [1; 2; 3; 4; 5] [1; 2; 3; 4; 9; 8; 7]).
Proof.
  unfold sample_diff. repeat (constructor; try lia; try reflexivity); vm_compute; discriminate.
Qed.

Lemma encode_script_roundtrip_witness :
  exists delta, encode sample_diff [1; 2; 3; 4; 5] [1; 2; 3; 4; 9; 8; 7] = Ok delta
    /\ @delta_decode unlimited delta [1; 2; 3; 4; 5] = Ok [1; 2; 3; 4; 9; 8; 7].
Proof.
  apply (@encode_script_roundtrip unlimited sample_diff _ _ (unlimited_serves _));
    [repeat constructor; unfold is_byte; lia|vm_compute; reflexivity|vm_compute; discriminate
    |exact sample_diff_valid].
Defined.

(** above that bound the encoder is wrong: for an unchanged object of 16 MiB
    or more that the diff reports as one equal range, the stream it writes is
    rejected by the decoder, since [encode_op] drops the size's fourth byte. *)
Theorem encode_large_copy_rejected `{Allocator} (diff : bytes -> bytes -> list Callback)
  (data : bytes) `{!AllocatorServes (blen data)} :
  2 ^ 24 <= blen data -> blen data <= usize_max -> diff data data = [CbEqual 0 0 (blen data)] ->
  exists delta size, encode diff data data = Ok delta /\ 0 < size < blen data
    /\ delta_decode delta data = Err (decoder_error (MsgResultLen (blen data) size)).
Proof.
  intros Hlo Hhi Hdiff.
  assert (Hnew : DeltaDiff_new diff data data = Ok (mkDeltaDiff [mkDeltaOp OpCopy 0 (blen data)]
    data data (blen data) (ratio (blen data) (blen data)))).
  { unfold DeltaDiff_new. by rewrite Hdiff. }
  unfold encode. rewrite Hnew. cbn [rbind]. unfold DeltaDiff_encode. cbn [ops old_data new_data].
  rewrite !write_size_encoding_varint by lia. cbn [rbind encode_ops].
  rewrite encode_op_copy. cbn [rbind encode_ops].
  destruct (large_copy_denotes data (blen data) Hlo ltac:(lia)) as (size & Hsize & Hd).
  eexists _, size. split; [reflexivity|]. split; [done|].
  unfold delta_decode. rewrite <- app_assoc, read_size_write_varint by lia. cbn [map_err rbind].
  rewrite Z.eqb_refl. cbn [negb]. rewrite read_size_write_varint by lia. cbn [map_err rbind].
  rewrite (denotes_decode_loop _ data _ [] _ (slice data 0 size)); auto; try lia.
  - cbn [app rbind]. rewrite blen_slice by lia. replace (size - 0 =? blen data) with false by lia.
    cbn [negb]. by replace (size - 0) with size by lia.
  - apply (ins_bytes_bytes (Copy 0 (blen data)) I).
  - rewrite blen_slice by lia. change (blen (@nil Z)) with 0. lia.
Qed.

Lemma encode_large_copy_rejected_witness :
  let data := repeat 0 (Z.to_nat (2 ^ 24)) in
  exists delta size, encode (fun old _ => [CbEqual 0 0 (blen old)]) data data = Ok delta
    /\ 0 < size < blen data
    /\ @delta_decode unlimited delta data = Err (decoder_error (MsgResultLen (blen data) size)).
Proof.
  intros data.
  assert (Hlen : blen data = 2 ^ 24) by (unfold blen, data; rewrite repeat_length; lia).
  apply (@encode_large_copy_rejected unlimited (fun old _ => [CbEqual 0 0 (blen old)]) data
           (unlimited_serves _)); [lia|rewrite Hlen; vm_compute; discriminate|reflexivity].
Defined.

(** The similarity rate is the share of the new data that is copied, a fraction between zero and
    one; of empty new data it is not a number, which no comparison accepts. *)
Theorem encode_rate_fraction (diff : bytes -> bytes -> list Callback) (old new : bytes) :
  valid_script old new 0 (diff old new) -> blen new < 2 ^ 53 ->
  exists shared rate, encode_rate diff old new = Ok rate /\ 0 <= shared <= blen new /\ rate = ratio shared (blen new)
    /\ (new <> [] -> f64_leb f64_zero rate = true /\ f64_leb rate f64_one = true)
    /\ (new = [] -> forall x, f64_ltb x rate = false /\ f64_ltb rate x = false).
Proof.
  intros Hv Hl. unfold encode_rate.
  destruct (DeltaDiff_new_ok old new diff Hv) as (d & -> & _ & Hs & Hr). cbn [rbind]. rewrite Hr.
  exists (ssam d), (ratio (ssam d) (blen new)). split; [done|]. split; [done|]. split; [done|]. split.
  - intros Hne. assert (0 < blen new) by (destruct new; [done|]; rewrite blen_cons; pose proof (blen_nonneg new); lia).
    split; [apply ratio_geb_zero|apply ratio_leb_one]; lia.
  - intros ->. rewrite blen_nil in *. replace (ssam d) with 0 by lia. intros [[]|[]| |[]]; done.
Qed.

Lemma encode_rate_fraction_witness :
  exists shared rate, encode_rate sample_diff [1; 2; 3; 4; 5] [1; 2; 3; 4; 9; 8; 7] = Ok rate
    /\ 0 <= shared <= 7 /\ rate = ratio shared 7
    /\ ([1; 2; 3; 4; 9; 8; 7] <> [] -> f64_leb f64_zero rate = true /\ f64_leb rate f64_one = true)
    /\ ([1; 2; 3; 4; 9; 8; 7] = [] -> forall x, f64_ltb x rate = false /\ f64_ltb rate x = false).
Proof. apply (encode_rate_fraction sample_diff _ _ sample_diff_valid). reflexivity. Defined.

(** * Name hashes *)

Lemma rposition_app_none p dir name :
  rposition p name = None ->
  rposition p (dir ++ name) = rposition p dir.
Proof. intros Hn. induction dir as [|b dir IH]; [done|]. cbn. by rewrite IH. Qed.

Lemma rposition_snoc p dir b : p b = true -> rposition p (dir ++ [b]) = Some (blen dir).
Proof.
  intros Hb. induction dir as [|c dir IH]; [cbn; by rewrite Hb|].
  cbn [app rposition]. rewrite IH, blen_cons. f_equal. lia.
Qed.

Lemma rposition_none name : Forall (fun b => b <> 47) name -> rposition (Z.eqb 47) name = None.
Proof.
  induction 1 as [|b name Hb _ IH]; [done|]. cbn [rposition].
  rewrite IH, (proj2 (Z.eqb_neq 47 b)); [done|congruence].
Qed.

Lemma last_component_path dir name :
  Forall (fun b => b <> 47) name -> last_component (dir ++ [47] ++ name) = Ok name.
Proof.
  intros Hn. unfold last_component. rewrite app_assoc.
  rewrite rposition_app_none, rposition_snoc by (done || by apply rposition_none).
  pose proof (blen_nonneg dir). pose proof (blen_nonneg name).
  rewrite get_range_tail, !blen_app by lia.
  replace (_ <=? _) with true by (change (blen [47]) with 1; lia).
  replace (blen dir + 1) with (blen (dir ++ [47])) by (rewrite blen_app; done).
  by rewrite drop_blen_app.
Qed.

Lemma name_hash_u32 name h : 0 <= h < 2 ^ 32 -> 0 <= fold_left name_hash_step name h < 2 ^ 32.
Proof.
  revert h. induction name as [|c name IH]; intros h Hh; [done|]. cbn [fold_left]. apply IH.
  unfold name_hash_step. destruct (_ || _); [done|]. unfold as_u32. apply Z.mod_pos_bound. lia.
Qed.

(** [pack_name_hash] ignores the directory and fits 32 bits: files with the
    same name hash alike wherever they are. *)
Theorem pack_name_hash_basename (dir dir' name : bytes) :
  Forall (fun b => b <> 47) name ->
  exists h, pack_name_hash (dir ++ [47] ++ name) = Ok h
    /\ pack_name_hash (dir' ++ [47] ++ name) = Ok h /\ pack_name_hash name = Ok h
    /\ 0 <= h < 2 ^ 32.
Proof.
  intros Hn. unfold pack_name_hash. exists (fold_left name_hash_step name 0).
  rewrite !last_component_path by done. repeat split; try apply name_hash_u32; try lia.
  unfold last_component.
  rewrite rposition_none by done.
  pose proof (blen_nonneg name). rewrite get_range_tail by lia. by replace (0 <=? blen name) with true by lia.
Qed.

Lemma pack_name_hash_basename_witness :
  exists h, pack_name_hash ([115; 114; 99] ++ [47] ++ [97; 32; 98]) = Ok h
    /\ pack_name_hash ([] ++ [47] ++ [97; 32; 98]) = Ok h /\ pack_name_hash [97; 32; 98] = Ok h
    /\ 0 <= h < 2 ^ 32.
Proof. apply (pack_name_hash_basename [115; 114; 99] [] [97; 32; 98]). repeat constructor; lia. Defined.
