(* ===== verification/PackUtils.v ===== *)
(** Readers of the pack format, [src/internal/pack/utils.rs], and the entry-header
    writers of [src/internal/pack/encode/header.rs].

    Arithmetic that can overflow follows the build: with overflow checks it panics,
    without them it wraps ([Build]).  The zlib compressor is a parameter. *)

From Stdlib Require Import ZArith Lia String.
From stdpp Require Import base tactics list numbers option.
From S2P Require Import Prelude Stream Text Errors ObjectTypes DeltaUtils DeltaFormat.

(** Whether the crate is compiled with overflow checks ([debug] builds are). *)
Class Build := overflow_checks : bool.

Definition overflow `{Build} {E} (wrapped : Z) : Res E Z :=
  if overflow_checks then Panic else Ok wrapped.

(** [x << s] on [u64]: bits shifted out are lost; a count of 64 or more overflows. *)
Definition shl_u64 `{Build} {E} (x s : Z) : Res E Z :=
  if s <? 64 then Ok (as_u64 (Z.shiftl x s)) else overflow (as_u64 (Z.shiftl x (s mod 64))).

(** [x + y] on [u64]. *)
Definition add_u64 `{Build} {E} (x y : Z) : Res E Z :=
  if x + y <? 2 ^ 64 then Ok (x + y) else overflow (as_u64 (x + y)).

(** [is_eof] reads one byte; [true] when there is none. *)
Definition is_eof (s : bytes) : bool * bytes :=
  match s with
  | [] => (true, [])
  | _ :: s => (false, s)
  end.

Definition read_byte_and_check_continuation (s : bytes) : Res IoError ((Z * bool) * bytes) :=
  let! '(byte, s) := read_u8 s in
  let value := Z.land byte 127 in
  let msb := 128 <=? byte in
  Ok ((value, msb), s).

Section readers.
Context `{Build}.

(** [while more_bytes]; every round reads a byte, so the stream's length bounds it. *)
Fixpoint type_size_loop (fuel : nat) (size shift : Z) (more_bytes : bool) (offset : Z) (s : bytes)
  : Res IoError ((Z * Z) * bytes) :=
  match fuel with
  | O => OutOfFuel
  | S fuel =>
      if more_bytes then
        let! '((next_byte, continuation), s) := read_byte_and_check_continuation s in
        let offset := offset + 1 in
        let! part := shl_u64 next_byte shift in
        type_size_loop fuel (Z.lor size part) (shift + 7) continuation offset s
      else Ok ((size, offset), s)
  end.

(** The result is the type bits, the size, the advanced [offset] and the rest. *)
Definition read_type_and_varint_size (offset : Z) (s : bytes)
  : Res IoError (((Z * Z) * Z) * bytes) :=
  let! '((first_byte, continuation), s) := read_byte_and_check_continuation s in
  let offset := offset + 1 in
  let type_bits := Z.shiftr (Z.land first_byte 0x70) 4 in
  let size := Z.land first_byte 0x0f in
  let! '((size, offset), s) := type_size_loop (S (S (length s))) size 4 continuation offset s in
  Ok (((type_bits, size), offset), s).

(** One byte a round; the shift guard precedes the accumulation. *)
Fixpoint varint_le_loop (value shift offset : Z) (s : bytes) : Res IoError ((Z * Z) * bytes) :=
  match s with
  | [] => Err UnexpectedEof
  | byte :: s =>
      if 63 <? shift then Err (InvalidData "VarInt too long")
      else
        let byte_value := Z.land byte 0x7f in
        let! part := shl_u64 byte_value shift in
        let value := Z.lor value part in
        let offset := offset + 1 in
        if Z.land byte 0x80 =? 0 then Ok ((value, offset), s)
        else varint_le_loop value (shift + 7) offset s
  end.

Definition read_varint_le (s : bytes) : Res IoError ((Z * Z) * bytes) := varint_le_loop 0 0 0 s.

Fixpoint offset_loop (fuel : nat) (value offset : Z) (s : bytes) : Res IoError ((Z * Z) * bytes) :=
  match fuel with
  | O => OutOfFuel
  | S fuel =>
      let! '((byte_value, more_bytes), s) := read_byte_and_check_continuation s in
      let offset := offset + 1 in
      let! shifted := shl_u64 value 7 in
      let value := Z.lor shifted byte_value in
      if negb more_bytes then Ok ((value, offset), s)
      else
        let! value := add_u64 value 1 in
        offset_loop fuel value offset s
  end.

Definition read_offset_encoding (s : bytes) : Res IoError ((Z * Z) * bytes) :=
  offset_loop (S (length s)) 0 0 s.

Definition read_delta_object_size (s : bytes) : Res IoError ((Z * Z) * bytes) :=
  let! '((base_size, _), s) := read_varint_le s in
  let! '((result_size, _), s) := read_varint_le s in
  Ok ((base_size, result_size), s).

End readers.

(** [decimal_usize_bytes] fills the buffer from its end; running out of room panics. *)
Fixpoint decimal_loop (fuel : nat) (value cursor : Z) (buf : bytes) : Res Empty_set (Z * bytes) :=
  match fuel with
  | O => OutOfFuel
  | S fuel =>
      if 0 <? value then
        if cursor =? 0 then Panic
        else
          let cursor := cursor - 1 in
          let! buf := or_panic (set_index buf cursor (48 + as_u8 (value mod 10))) in
          decimal_loop fuel (value / 10) cursor buf
      else Ok (cursor, buf)
  end.

Definition decimal_usize_bytes (value : Z) (buf : bytes) : Res Empty_set bytes :=
  if value =? 0 then Ok (str "0")
  else
    let! '(cursor, buf) := decimal_loop (S (length buf)) value (blen buf) buf in
    or_panic (get_range buf cursor (blen buf)).

(** * Entry-header writers *)

(** [encode_header]: the two [assert]s panic. *)
Definition be32 (n : Z) : bytes :=
  [Z.shiftr n 24 mod 256; Z.shiftr n 16 mod 256; Z.shiftr n 8 mod 256; n mod 256].

Definition encode_header (object_number : Z) : Res Empty_set bytes :=
  let result := str "PACK" ++ [0; 0; 0; 2] in
  if object_number =? 0 then Panic
  else if negb (object_number <=? u32_max) then Panic
  else Ok (result ++ be32 (as_u32 object_number)).

Fixpoint encode_offset_loop (fuel : nat) (value : Z) (out : bytes) : Res Empty_set bytes :=
  match fuel with
  | O => OutOfFuel
  | S fuel =>
      if negb (value =? 0) then
        let value := value - 1 in
        let byte := Z.lor (as_u8 (Z.land value 0x7f)) 0x80 in
        encode_offset_loop fuel (Z.shiftr value 7) (out ++ [byte])
      else Ok out
  end.

(** At most ten groups of seven bits in a [usize]. *)
Definition encode_offset (value : Z) : Res Empty_set bytes :=
  if value =? 0 then Panic
  else
    let out := [as_u8 (Z.land value 0x7f)] in
    let! out := encode_offset_loop 11 (Z.shiftr value 7) out in
    Ok (reverse out).

Fixpoint header_size_loop (fuel : nat) (size : Z) (header_data : bytes) : Res Empty_set bytes :=
  match fuel with
  | O => OutOfFuel
  | S fuel =>
      if 0 <? size then
        if 0 <? Z.shiftr size 7
        then header_size_loop fuel (Z.shiftr size 7) (header_data ++ [as_u8 (Z.lor 0x80 size)])
        else Ok (header_data ++ [as_u8 size])
      else Ok header_data
  end.

Definition encode_entry_header (obj_type_number obj_data_len : Z) : Res Empty_set bytes :=
  let header_data :=
    [Z.lor 0x80 (Z.shiftl obj_type_number 4) + as_u8 (Z.land obj_data_len 0x0f)] in
  let size := Z.shiftr obj_data_len 4 in
  if 0 <? size then header_size_loop 10 size header_data else Ok (header_data ++ [0]).

(** [encode_one_object], given the zlib compressor. *)
Definition encode_one_object (compress : bytes -> bytes) (obj_type : ObjectType.t) (obj_data : bytes)
  (offset : option Z) : Res GitError bytes :=
  let! obj_type_number := ObjectType.to_pack_type_u8 obj_type in
  let! encoded_data := unwrap (encode_entry_header obj_type_number (blen obj_data)) in
  let! encoded_data :=
    match obj_type with
    | ObjectType.OffsetDelta | ObjectType.OffsetZstdelta =>
        let! offset := or_panic offset in
        let! offset_data := unwrap (encode_offset offset) in
        Ok (encoded_data ++ offset_data)
    | ObjectType.HashDelta => Panic
    | _ => Ok encoded_data
    end in
  Ok (encoded_data ++ compress obj_data).

(** * Offsets *)

(** The continuation groups [encode_offset] writes, first byte first. *)
Fixpoint offset_groups (fuel : nat) (w : Z) : bytes :=
  match fuel with
  | O => []
  | S fuel =>
      if w =? 0 then []
      else offset_groups fuel (Z.shiftr (w - 1) 7) ++ [Z.lor (as_u8 (Z.land (w - 1) 0x7f)) 0x80]
  end.

Lemma shiftr_7 v : Z.shiftr v 7 = v / 128.
Proof. rewrite Z.shiftr_div_pow2 by lia. done. Qed.

Lemma encode_offset_loop_groups fuel w out :
  0 <= w < 128 ^ Z.of_nat fuel ->
  encode_offset_loop (S fuel) w out = Ok (out ++ reverse (offset_groups fuel w)).
Proof.
  revert w out. induction fuel as [|fuel IH]; intros w out Hw.
  { change (128 ^ Z.of_nat 0) with 1 in Hw. assert (w = 0) as -> by lia. by rewrite app_nil_r. }
  remember (S fuel) as f eqn:Hf. cbn [encode_offset_loop]. subst f. cbn [offset_groups].
  destruct (w =? 0) eqn:E; cbn [negb]; [by rewrite app_nil_r|].
  rewrite Nat2Z.inj_succ, Z.pow_succ_r in Hw by lia. rewrite shiftr_7.
  rewrite IH; [|split; [apply Z.div_pos|apply Z.div_lt_upper_bound]; lia].
  by rewrite reverse_snoc, <- app_assoc.
Qed.

Lemma read_byte_continued b s :
  read_byte_and_check_continuation (Z.lor (as_u8 (Z.land b 0x7f)) 0x80 :: s)
  = Ok ((b mod 128, true), s).
Proof.
  unfold read_byte_and_check_continuation. cbn [read_u8 rbind]. rewrite lor_u8_128, !land_127, Z.mod_mod by lia.
  pose proof (Z.mod_pos_bound b 128 ltac:(lia)).
  replace ((b mod 128 + 128) mod 128) with (b mod 128) by (rewrite Z.add_mod, Z.mod_same, Z.add_0_r, !Z.mod_mod; lia).
  by replace (128 <=? b mod 128 + 128) with true by lia.
Qed.

Lemma read_byte_last b s : 0 <= b < 128 -> read_byte_and_check_continuation (b :: s) = Ok ((b, false), s).
Proof.
  intros Hb. unfold read_byte_and_check_continuation. cbn [read_u8 rbind].
  rewrite land_127, Z.mod_small by lia. by replace (128 <=? b) with false by lia.
Qed.

Lemma shl_u64_small `{Build} {E} x s :
  0 <= x -> 0 <= s < 64 -> x * 2 ^ s < 2 ^ 64 -> shl_u64 (E := E) x s = Ok (x * 2 ^ s).
Proof.
  intros Hx Hs Hb. unfold shl_u64, as_u64. replace (s <? 64) with true by lia.
  rewrite Z.shiftl_mul_pow2 by lia. rewrite Z.mod_small; [done|]. nia.
Qed.

Lemma offset_step_value w b : 0 <= b < 128 -> Z.lor (w * 2 ^ 7) b = w * 128 + b.
Proof.
  intros Hb. rewrite Z.lor_comm, <- Z.shiftl_mul_pow2 by lia. rewrite lor_shiftl_add by lia. lia.
Qed.

Section offset_reader.
Context `{Build}.

Lemma offset_loop_groups f w n off s :
  0 <= w < 2 ^ 57 -> w < 128 ^ Z.of_nat f ->
  offset_loop (length (offset_groups f w) + n) 0 off (offset_groups f w ++ s)
  = offset_loop n w (off + blen (offset_groups f w)) s.
Proof.
  revert w n off s. induction f as [|f IH]; intros w n off s Hw Hf.
  { change (128 ^ Z.of_nat 0) with 1 in Hf. assert (w = 0) as -> by lia.
    cbn [offset_groups length app Nat.add]. f_equal. change (blen (@nil Z)) with 0. lia. }
  cbn [offset_groups]. destruct (w =? 0) eqn:E.
  { cbn [length app Nat.add]. change (blen (@nil Z)) with 0. f_equal; lia. }
  rewrite Nat2Z.inj_succ, Z.pow_succ_r in Hf by lia. rewrite shiftr_7.
  pose proof (Z.div_mod (w - 1) 128 ltac:(lia)). pose proof (Z.mod_pos_bound (w - 1) 128 ltac:(lia)).
  set (w' := (w - 1) / 128) in *. assert (0 <= w' < 2 ^ 57) by lia.
  set (b := Z.lor _ _). rewrite length_app, <- app_assoc, <- Nat.add_assoc.
  change (length [b] + n)%nat with (S n). rewrite IH by lia. cbn [app offset_loop].
  unfold b. rewrite read_byte_continued. cbn [rbind].
  rewrite shl_u64_small by lia. cbn [rbind negb]. rewrite offset_step_value by lia.
  replace (w' * 128 + (w - 1) mod 128) with (w - 1) by lia.
  unfold add_u64. replace (w - 1 + 1 <? 2 ^ 64) with true by lia. cbn [rbind].
  rewrite blen_app. f_equal; [lia|]. change (blen [_]) with 1. lia.
Qed.

Lemma encode_offset_reads v :
  0 < v <= usize_max ->
  exists enc, encode_offset v = Ok enc /\ forall rest,
    read_offset_encoding (enc ++ rest) = Ok ((v, blen enc), rest).
Proof.
  intros Hv. unfold usize_max in Hv. unfold encode_offset. replace (v =? 0) with false by lia.
  rewrite shiftr_7, land_127.
  pose proof (Z.div_mod v 128 ltac:(lia)). pose proof (Z.mod_pos_bound v 128 ltac:(lia)).
  assert (Hw : 0 <= v / 128 < 2 ^ 57) by lia.
  rewrite encode_offset_loop_groups by (change (128 ^ Z.of_nat 10) with (2 ^ 70); lia).
  cbn [rbind]. eexists. split; [reflexivity|]. intros rest.
  rewrite reverse_app, reverse_involutive. change (reverse [?x]) with [x].
  set (g := offset_groups 10 (v / 128)). unfold as_u8. rewrite Z.mod_small by lia.
  unfold read_offset_encoding. rewrite <- app_assoc.
  replace (S (length (g ++ [v mod 128] ++ rest))) with (length g + S (S (length rest)))%nat
    by (rewrite !length_app; cbn; lia).
  unfold g. rewrite offset_loop_groups by (try change (128 ^ Z.of_nat 10) with (2 ^ 70); lia).
  fold g. cbn [app offset_loop]. rewrite read_byte_last by lia. cbn [rbind].
  rewrite shl_u64_small by lia. cbn [rbind negb]. rewrite offset_step_value by lia.
  rewrite blen_app. change (blen [v mod 128]) with 1. do 3 f_equal. lia.
Qed.

End offset_reader.

(** * Entry headers *)

(** The size field is the varint of the delta format, without its empty case. *)
Lemma header_size_loop_varint fuel size hd :
  0 < size < 128 ^ Z.of_nat fuel ->
  header_size_loop fuel size hd = Ok (hd ++ write_varint_loop fuel size).
Proof.
  revert size hd. induction fuel as [|fuel IH]; intros size hd Hs.
  { change (128 ^ Z.of_nat 0) with 1 in Hs. lia. }
  cbn [header_size_loop write_varint_loop]. rewrite shiftr_7.
  replace (0 <? size) with true by lia.
  replace (0 <? size / 128) with (128 <=? size).
  2:{ pose proof (Z.div_mod size 128 ltac:(lia)). pose proof (Z.mod_pos_bound size 128 ltac:(lia)). lia. }
  destruct (128 <=? size) eqn:E; [|done].
  rewrite Nat2Z.inj_succ, Z.pow_succ_r in Hs by lia.
  rewrite IH; [|split; [apply Z.div_str_pos|apply Z.div_lt_upper_bound]; lia].
  rewrite <- app_assoc. cbn [app]. do 3 f_equal. rewrite Z.lor_comm. unfold as_u8.
  rewrite <- !Z.land_ones by lia. change 128 with (Z.land 128 (Z.ones 8)) at 2.
  apply Z.land_lor_distr_l.
Qed.

Section header_reader.
Context `{Build}.

Lemma type_size_loop_varint f v fuel size shift off rest :
  0 <= v < 128 ^ Z.of_nat f -> 0 <= shift < 64 -> 0 <= size < 2 ^ shift ->
  size + v * 2 ^ shift < 2 ^ 64 -> (length (write_varint_loop f v) < fuel)%nat ->
  write_varint_loop f v <> [] ->
  type_size_loop fuel size shift true off (write_varint_loop f v ++ rest)
  = Ok ((size + v * 2 ^ shift, off + blen (write_varint_loop f v)), rest).
Proof.
  revert v fuel size shift off. induction f as [|f IH]; intros v fuel size shift off Hv Hsh Hsz Hb Hf Hne; [done|].
  destruct fuel as [|fuel]; [lia|]. cbn [write_varint_loop type_size_loop] in *.
  assert (0 < 2 ^ shift) by (apply Z.pow_pos_nonneg; lia).
  rewrite Nat2Z.inj_succ, Z.pow_succ_r in Hv by lia.
  assert (Hlor : forall x, 0 <= x -> Z.lor size (x * 2 ^ shift) = size + x * 2 ^ shift).
  { intros x Hx. transitivity (Z.lor size (Z.shiftl x shift)).
    - by rewrite Z.shiftl_mul_pow2 by lia.
    - apply lor_shiftl_add; lia. }
  destruct (128 <=? v) eqn:E.
  - pose proof (Z.div_mod v 128 ltac:(lia)). pose proof (Z.mod_pos_bound v 128 ltac:(lia)).
    assert (Hbyte : Z.lor (as_u8 v) 128 = Z.lor (as_u8 (Z.land (v mod 128) 127)) 128).
    { rewrite land_127, !lor_u8_128, !Z.mod_mod by lia. done. }
    cbn [app]. rewrite Hbyte, read_byte_continued, Z.mod_mod by lia. cbn [rbind].
    rewrite shl_u64_small by nia. cbn [rbind]. rewrite Hlor by lia. rewrite shiftr_7 in *.
    assert (Hp : 2 ^ (shift + 7) = 2 ^ shift * 128) by (rewrite Z.pow_add_r by lia; done).
    assert (1 <= v / 128) by (apply Z.div_le_lower_bound; lia).
    assert (Hsh' : shift + 7 < 64).
    { apply Znot_ge_lt. intros Hge. assert (2 ^ 64 <= 2 ^ (shift + 7)) by (apply Z.pow_le_mono_r; lia). nia. }
    cbn [length] in Hf. rewrite IH; [| |lia|rewrite Hp; nia|rewrite Hp; nia|lia|].
    + rewrite blen_cons. do 3 f_equal; [rewrite Hp; nia|lia].
    + split; [lia|]. apply Z.div_lt_upper_bound; lia.
    + destruct f as [|f]; [|cbn [write_varint_loop]; destruct (128 <=? v / 128); discriminate].
      change (128 * 128 ^ Z.of_nat 0) with 128 in Hv. lia.
  - unfold as_u8. rewrite Z.mod_small by lia. cbn [app]. rewrite read_byte_last by lia. cbn [rbind].
    rewrite shl_u64_small by lia. cbn [rbind]. rewrite Hlor by lia. cbn [length] in Hf.
    destruct fuel as [|fuel]; [lia|]. cbn [type_size_loop]. done.
Qed.

Lemma type_size_loop_offset fuel size shift more offset s size' offset' rest :
  type_size_loop fuel size shift more offset s = Ok ((size', offset'), rest) -> offset <= offset'.
Proof.
  revert size shift more offset s. induction fuel as [|fuel IH]; intros size shift more offset s; [discriminate|].
  cbn [type_size_loop]. destruct more; [|intros [= _ <- _]; lia]. intros Hl. ok_inv. apply IH in Hl. lia.
Qed.

(** The header byte holds a continuation bit, the type and four size bits. *)
Lemma header_byte n len :
  0 <= n < 8 -> Z.lor 0x80 (Z.shiftl n 4) + as_u8 (Z.land len 0x0f) = 128 + (n * 16 + len mod 16).
Proof.
  intros Hn. rewrite land_15. unfold as_u8. pose proof (Z.mod_pos_bound len 16 ltac:(lia)).
  rewrite (Z.mod_small (len mod 16)) by lia.
  rewrite Z.shiftl_mul_pow2 by lia. rewrite Z.lor_comm, lor_128 by lia. lia.
Qed.

Lemma read_header_byte n r s :
  0 <= n < 8 -> 0 <= r < 16 ->
  read_byte_and_check_continuation (128 + (n * 16 + r) :: s) = Ok ((n * 16 + r, true), s)
  /\ Z.shiftr (Z.land (n * 16 + r) 0x70) 4 = n /\ Z.land (n * 16 + r) 0x0f = r.
Proof.
  intros Hn Hr. split; [|split].
  - unfold read_byte_and_check_continuation. cbn [read_u8 rbind]. rewrite land_127.
    replace ((128 + (n * 16 + r)) mod 128) with (n * 16 + r)
      by (apply (Z.mod_unique _ _ 1); lia).
    by replace (128 <=? 128 + (n * 16 + r)) with true by lia.
  - change 0x70 with (Z.shiftl 7 4). rewrite Z.shiftr_land, Z.shiftr_shiftl_l by lia.
    rewrite Z.shiftr_div_pow2 by lia. change (2 ^ 4) with 16. rewrite Z.add_comm, Z.div_add, Z.div_small by lia.
    change (Z.shiftl 7 (4 - 4)) with (2 ^ 3 - 1). rewrite land_low, Z.mod_small by lia. lia.
  - rewrite land_15, Z.add_comm, Z_mod_plus_full, Z.mod_small by lia. done.
Qed.

Lemma encode_entry_header_reads n len :
  0 <= n < 8 -> 0 <= len <= usize_max ->
  exists enc, encode_entry_header n len = Ok enc /\ forall off rest,
    read_type_and_varint_size off (enc ++ rest) = Ok (((n, len), off + blen enc), rest).
Proof.
  intros Hn Hlen. unfold usize_max in Hlen. unfold encode_entry_header. rewrite header_byte by done.
  assert (Hsh : Z.shiftr len 4 = len / 16) by (rewrite Z.shiftr_div_pow2 by lia; done). rewrite Hsh.
  pose proof (Z.div_mod len 16 ltac:(lia)) as Hdm. pose proof (Z.mod_pos_bound len 16 ltac:(lia)) as Hm.
  assert (Hq : 0 <= len / 16 < 2 ^ 60) by lia.
  assert (Hread : forall enc f, write_varint_loop f (len / 16) <> [] -> len / 16 < 128 ^ Z.of_nat f ->
    enc = (128 + (n * 16 + len mod 16)) :: write_varint_loop f (len / 16) -> forall off rest,
    read_type_and_varint_size off (enc ++ rest) = Ok (((n, len), off + blen enc), rest)).
  { intros enc f Hne Hf -> off rest. unfold read_type_and_varint_size. cbn [app].
    destruct (read_header_byte n (len mod 16) (write_varint_loop f (len / 16) ++ rest) Hn ltac:(lia)) as (E1 & E2 & E3).
    rewrite E1. cbn [rbind]. rewrite E2, E3. rewrite (type_size_loop_varint f (len / 16)); auto; try lia.
    - cbn [rbind]. rewrite blen_cons. do 3 f_equal; [f_equal; change (2 ^ 4) with 16; lia|lia].
    - rewrite length_app. lia. }
  destruct (0 <? len / 16) eqn:E.
  - rewrite header_size_loop_varint by (change (128 ^ Z.of_nat 10) with (2 ^ 70); lia).
    eexists. split; [reflexivity|]. apply (Hread _ 10%nat); [|change (128 ^ Z.of_nat 10) with (2 ^ 70); lia|done].
    cbn [write_varint_loop]. destruct (128 <=? len / 16); discriminate.
  - eexists. split; [reflexivity|]. assert (Hz : len / 16 = 0) by lia.
    apply (Hread _ 1%nat); rewrite Hz; done.
Qed.

End header_reader.

(** * Correctness *)

(** The kinds of entries the pack encoder writes, with the offset they need. *)
Definition packable (obj_type : ObjectType.t) (offset : option Z) : Prop :=
  match obj_type with
  | ObjectType.Commit | ObjectType.Tree | ObjectType.Blob | ObjectType.Tag => True
  | ObjectType.OffsetDelta | ObjectType.OffsetZstdelta =>
      match offset with Some v => 0 < v <= usize_max | None => False end
  | _ => False
  end.

(** What [encode_one_object] computes on such entries. *)
Lemma encode_one_object_packable compress obj_type obj_data offset :
  packable obj_type offset ->
  exists n, 0 <= n < 8 /\ ObjectType.from_pack_type_u8 n = Ok obj_type /\
  encode_one_object compress obj_type obj_data offset =
  let! hdr := unwrap (encode_entry_header n (blen obj_data)) in
  let! distance :=
    match obj_type with
    | ObjectType.OffsetDelta | ObjectType.OffsetZstdelta =>
        let! v := or_panic offset in unwrap (encode_offset v)
    | _ => Ok []
    end in
  Ok ((hdr ++ distance) ++ compress obj_data).
Proof.
  intros Hp. exists (ObjectType.to_u8 obj_type).
  destruct obj_type; try done; cbn [ObjectType.to_u8]; (split; [lia|split; [reflexivity|]]).
  all: unfold encode_one_object; cbn [ObjectType.to_pack_type_u8 rbind].
  all: destruct (encode_entry_header _ _); cbn [unwrap rbind]; try done; try (by rewrite app_nil_r).
  all: destruct offset; cbn [or_panic rbind]; try done.
  all: destruct (encode_offset _); done.
Qed.

Lemma entry_reads `{Build} (compress : bytes -> bytes) (obj_type : ObjectType.t)
  (obj_data : bytes) (offset : option Z) :
  packable obj_type offset -> blen obj_data <= usize_max ->
  exists enc n, encode_one_object compress obj_type obj_data offset = Ok enc
    /\ ObjectType.from_pack_type_u8 n = Ok obj_type
    /\ forall off rest, exists payload off',
      read_type_and_varint_size off (enc ++ rest) = Ok (((n, blen obj_data), off'), payload)
      /\ match obj_type with
         | ObjectType.OffsetDelta | ObjectType.OffsetZstdelta =>
             exists v, offset = Some v
             /\ read_offset_encoding payload
                = Ok ((v, off + blen enc - off' - blen (compress obj_data)), compress obj_data ++ rest)
         | _ => payload = compress obj_data ++ rest
                /\ off + blen enc = off' + blen (compress obj_data)
         end.
Proof.
  intros Hpack Hlen. pose proof (blen_nonneg obj_data).
  destruct (encode_one_object_packable compress obj_type obj_data offset Hpack) as (n & Hn & Hfrom & ->).
  destruct (encode_entry_header_reads n (blen obj_data) Hn ltac:(lia)) as (hdr & -> & Hhdr).
  cbn [unwrap rbind].
  assert (Hdist : exists dist, match obj_type with
      | ObjectType.OffsetDelta | ObjectType.OffsetZstdelta => let! v := or_panic offset in unwrap (encode_offset v)
      | _ => Ok [] end = Ok (E := GitError) dist
    /\ match obj_type with
      | ObjectType.OffsetDelta | ObjectType.OffsetZstdelta =>
          exists v, offset = Some v /\ forall rest, read_offset_encoding (dist ++ rest) = Ok ((v, blen dist), rest)
      | _ => dist = [] end).
  { destruct obj_type; try done; cbn in Hpack; eauto; (destruct offset as [v|]; [|done]);
      destruct (encode_offset_reads v Hpack) as (oe & E & Hoe);
      exists oe; cbn [or_panic rbind]; rewrite E; eauto. }
  destruct Hdist as (dist & -> & Hdist). cbn [rbind]. eexists _, n. split; [reflexivity|].
  split; [done|]. intros off rest. rewrite <- !app_assoc, Hhdr. eexists _, _. split; [reflexivity|].
  rewrite !blen_app.
  destruct obj_type; try done; first [subst dist; split; [done|change (blen (@nil Z)) with 0; lia]
    |destruct Hdist as (v & Hv & Hd); exists v; split; [done|rewrite Hd; do 3 f_equal; lia]].
Qed.

(** a pack entry reads back: the header gives the type and the size of the
    data, an offset delta's header is followed by its distance, and what remains is
    the compressed data; in builds with and without overflow checks. *)
Theorem encode_one_object_reads `{Build} (compress : bytes -> bytes) (obj_type : ObjectType.t)
  (obj_data : bytes) (offset : option Z) :
  packable obj_type offset -> blen obj_data <= usize_max ->
  exists enc n, encode_one_object compress obj_type obj_data offset = Ok enc
    /\ ObjectType.from_pack_type_u8 n = Ok obj_type
    /\ forall off rest, exists payload off',
      read_type_and_varint_size off (enc ++ rest) = Ok (((n, blen obj_data), off'), payload)
      /\ match obj_type with
         | ObjectType.OffsetDelta | ObjectType.OffsetZstdelta =>
             exists v, offset = Some v
             /\ read_offset_encoding payload
                = Ok ((v, off + blen enc - off' - blen (compress obj_data)), compress obj_data ++ rest)
         | _ => payload = compress obj_data ++ rest
                /\ off + blen enc = off' + blen (compress obj_data)
         end.
Proof. apply entry_reads. Qed.

Lemma encode_one_object_reads_witness :
  exists enc n, encode_one_object (fun d => d) ObjectType.OffsetDelta [7; 8; 9] (Some 300) = Ok enc
    /\ ObjectType.from_pack_type_u8 n = Ok ObjectType.OffsetDelta
    /\ forall off rest, exists payload off',
      @read_type_and_varint_size true off (enc ++ rest) = Ok (((n, 3), off'), payload)
      /\ exists v, Some 300 = Some v
             /\ @read_offset_encoding true payload
                = Ok ((v, off + blen enc - off' - 3), [7; 8; 9] ++ rest).
Proof.
  apply (@encode_one_object_reads true (fun d => d) ObjectType.OffsetDelta [7; 8; 9] (Some 300));
    [cbn; unfold usize_max; lia|vm_compute; discriminate].
Defined.

Lemma varint_le_loop_size `{Build} value shift off s v rest :
  0 <= shift -> read_size_loop value shift s = Ok (v, rest) ->
  varint_le_loop value shift off s = Ok ((v, off + (blen s - blen rest)), rest).
Proof.
  revert value shift off. induction s as [|byte s IH]; intros value shift off Hsh Hr; [discriminate|].
  cbn [read_size_loop varint_le_loop] in *. unfold split_var_int_byte in Hr.
  change (Z.lxor 255 VAR_INT_CONTINUE_FLAG) with 127 in Hr.
  change VAR_INT_CONTINUE_FLAG with 128 in Hr.
  change VAR_INT_ENCODING_BITS with 7 in Hr. unfold usize_bits in Hr. unfold shl_u64.
  destruct ((64 <=? shift) || _) eqn:E; [discriminate|]. apply orb_false_iff in E as [E _].
  replace (63 <? shift) with false by lia. replace (shift <? 64) with true by lia. cbn [rbind].
  rewrite blen_cons. destruct (Z.land byte 128 =? 0); cbn [negb] in Hr.
  - injection Hr as <- <-. do 2 f_equal; f_equal; lia.
  - rewrite (fun Hs => IH _ _ (off + 1) Hs Hr) by lia. do 2 f_equal; f_equal; lia.
Qed.

Lemma varint_le_loop_returns `{Build} value shift off s :
  0 <= shift -> returns (varint_le_loop value shift off s).
Proof.
  revert value shift off. induction s as [|byte s IH]; intros value shift off Hsh; [exact I|].
  cbn [varint_le_loop]. destruct (63 <? shift) eqn:E; [exact I|].
  unfold shl_u64. replace (shift <? 64) with true by lia. cbn [rbind].
  destruct (Z.land byte 128 =? 0); [exact I|]. apply IH. lia.
Qed.

Lemma read_varint_le_agrees `{Build} s v rest :
  read_size_encoding s = Ok (v, rest) -> read_varint_le s = Ok ((v, blen s - blen rest), rest).
Proof.
  intros Hs. unfold read_varint_le. rewrite (varint_le_loop_size 0 0 0 s v rest); [done|lia|done].
Qed.

Lemma read_delta_object_size_agrees `{Build} s a b rest rest' :
  read_size_encoding s = Ok (a, rest) -> read_size_encoding rest = Ok (b, rest') ->
  read_delta_object_size s = Ok ((a, b), rest').
Proof.
  intros Ha Hb. unfold read_delta_object_size.
  rewrite (read_varint_le_agrees _ _ _ Ha). cbn [rbind]. by rewrite (read_varint_le_agrees _ _ _ Hb).
Qed.

(** [read_varint_le] returns on every input in every build, and reads every
    size that [read_size_encoding] of the delta decoder reads, with the same value
    and the number of bytes it consumed: the two size readers agree, so the sizes
    [read_delta_object_size] announces are the ones [delta_decode] checks. *)
Theorem varint_readers_agree `{Build} (s : bytes) :
  returns (read_varint_le s)
  /\ (forall v rest, read_size_encoding s = Ok (v, rest) ->
      read_varint_le s = Ok ((v, blen s - blen rest), rest))
  /\ (forall a b rest rest', read_size_encoding s = Ok (a, rest) -> read_size_encoding rest = Ok (b, rest') ->
      read_delta_object_size s = Ok ((a, b), rest')).
Proof.
  split; [apply varint_le_loop_returns; lia|]. split; [apply read_varint_le_agrees|].
  apply read_delta_object_size_agrees.
Qed.

(** An entry header whose size field runs over 64 bits. *)
Definition overlong_header : bytes := 0x90 :: repeat 0x80 9 ++ [0x01].

(** [read_type_and_varint_size], unlike the other size readers, has no guard
    on the length of its field: on an overlong header it panics in a build with
    overflow checks and otherwise returns a size that is not the encoded one. *)
Theorem overlong_header_size (off : Z) (rest : bytes) :
  @read_type_and_varint_size true off (overlong_header ++ rest) = Panic
  /\ @read_type_and_varint_size false off (overlong_header ++ rest)
     = Ok (((1, 2 ^ 3), off + 11), rest)
  /\ 2 ^ 3 <> 1 * 2 ^ (4 + 7 * 9).
Proof.
  split; [|split].
  - reflexivity.
  - transitivity (Ok (E := IoError) (((1, 2 ^ 3), off+1+1+1+1+1+1+1+1+1+1+1), rest)); [reflexivity|].
    do 3 f_equal. lia.
  - vm_compute. discriminate.
Qed.

(** * Pack headers and decimal lengths *)

Lemma decimal_loop_ok fuel n cursor pre suf :
  0 <= n < 10 ^ cursor -> blen pre = cursor -> (length pre < fuel)%nat ->
  exists pre', decimal_loop fuel n cursor (pre ++ suf)
    = Ok (blen pre', pre' ++ (if n =? 0 then [] else show_dec n) ++ suf)
    /\ blen pre' + blen (if n =? 0 then [] else show_dec n) = cursor.
Proof.
  revert n cursor pre suf. induction fuel as [|fuel IH]; intros n cursor pre suf Hn Hc Hf; [lia|].
  cbn [decimal_loop]. destruct (0 <? n) eqn:E.
  2:{ assert (n = 0) as -> by lia. exists pre. cbn [Z.eqb app]. split; [by rewrite Hc|]. blens. }
  destruct (cursor =? 0) eqn:E0.
  { assert (cursor = 0) as -> by lia. change (10 ^ 0) with 1 in Hn. lia. }
  destruct (split_last pre) as [[front x]|] eqn:El.
  2:{ apply split_last_None in El. subst pre. change (blen (@nil Z)) with 0 in Hc. lia. }
  apply split_last_Some in El. subst pre. rewrite blen_app in Hc. change (blen [x]) with 1 in Hc.
  rewrite <- app_assoc. cbn [app]. replace (cursor - 1) with (blen front) by lia.
  rewrite set_index_app. cbn [or_panic rbind].
  pose proof (Z.mod_pos_bound n 10 ltac:(lia)). unfold as_u8. rewrite Z.mod_small by lia.
  rewrite length_app in Hf. cbn in Hf.
  destruct (IH (n / 10) (blen front) front ((48 + n mod 10) :: suf)) as (pre' & E' & Hp').
  { split; [apply Z.div_pos; lia|]. apply Z.div_lt_upper_bound; [lia|].
    rewrite <- Z.pow_succ_r by apply blen_nonneg. replace (Z.succ (blen front)) with cursor by lia. lia. }
  { done. }
  { lia. }
  rewrite E'. exists pre'. rewrite (show_dec_step n) by lia. replace (n =? 0) with false by lia.
  split; [by rewrite <- !app_assoc|]. rewrite blen_app. change (blen [_]) with 1. lia.
Qed.

Lemma decimal_usize_bytes_show n buf :
  0 <= n < 10 ^ blen buf -> decimal_usize_bytes n buf = Ok (show_dec n).
Proof.
  intros Hn. unfold decimal_usize_bytes. destruct (n =? 0) eqn:E.
  { assert (n = 0) as -> by lia. reflexivity. }
  destruct (decimal_loop_ok (S (length buf)) n (blen buf) buf [] Hn eq_refl ltac:(lia)) as (pre & E' & Hp).
  rewrite app_nil_r in E'. rewrite E'. cbn [rbind]. rewrite E, app_nil_r in *.
  pose proof (blen_nonneg (show_dec n)). pose proof (blen_nonneg pre).
  rewrite get_range_tail, blen_app by lia. replace (_ <=? _) with true by lia.
  by rewrite drop_blen_app.
Qed.

Lemma be32_value n : 0 <= n < 2 ^ 32 ->
  byte_list (be32 n) /\ fold_left (fun acc b => acc * 256 + b) (be32 n) 0 = n.
Proof.
  intros Hn. unfold be32. cbn [fold_left]. rewrite !Z.shiftr_div_pow2 by lia.
  change (2 ^ 24) with (256 * (256 * 256)). change (2 ^ 16) with (256 * 256). change (2 ^ 8) with 256.
  rewrite <- !Z.div_div by lia.
  split; [|Z.to_euclidean_division_equations; lia].
  repeat constructor; unfold is_byte; apply Z.mod_pos_bound; lia.
Qed.

(** the pack header is the signature, version 2 and the big-endian object
    count, and the two assertions are the only way it fails; the length written
    into a loose-object header is the decimal numeral of every [usize]. *)
Theorem encode_header_spec (n : Z) (buf : bytes) :
  0 <= n <= usize_max -> blen buf = 20 ->
  (0 < n < 2 ^ 32 -> exists count, encode_header n = Ok (str "PACK" ++ [0; 0; 0; 2] ++ count)
     /\ blen count = 4 /\ fold_left (fun acc b => acc * 256 + b) count 0 = n)
  /\ (n = 0 \/ 2 ^ 32 <= n -> encode_header n = Panic)
  /\ decimal_usize_bytes n buf = Ok (show_dec n)
  /\ parse_dec usize_max (show_dec n) = Some n.
Proof.
  intros Hn Hbuf. split; [|split; [|split]].
  - intros Hlt. unfold encode_header, u32_max. replace (n =? 0) with false by lia.
    replace (n <=? 2 ^ 32 - 1) with true by lia. cbn [negb].
    unfold as_u32. rewrite Z.mod_small by lia. exists (be32 n). split; [by rewrite <- app_assoc|].
    split; [done|]. apply be32_value; lia.
  - intros Hbad. unfold encode_header, u32_max. destruct (n =? 0) eqn:E; [done|].
    by replace (n <=? 2 ^ 32 - 1) with false by lia.
  - apply decimal_usize_bytes_show. rewrite Hbuf. unfold usize_max in Hn. lia.
  - by apply parse_dec_show.
Qed.

Lemma encode_header_spec_witness :
  (0 < 70000 < 2 ^ 32 -> exists count, encode_header 70000 = Ok (str "PACK" ++ [0; 0; 0; 2] ++ count)
     /\ blen count = 4 /\ fold_left (fun acc b => acc * 256 + b) count 0 = 70000)
  /\ (70000 = 0 \/ 2 ^ 32 <= 70000 -> encode_header 70000 = Panic)
  /\ decimal_usize_bytes 70000 (repeat 0 20) = Ok (show_dec 70000)
  /\ parse_dec usize_max (show_dec 70000) = Some 70000.
Proof.
  apply (encode_header_spec 70000 (repeat 0 20)); [unfold usize_max; lia|reflexivity].
Defined.

(** * The reader of partial integers *)

(** [x * y] on [u8]. *)
Definition mul_u8 `{Build} {E} (x y : Z) : Res E Z :=
  if x * y <? 256 then Ok (x * y) else overflow (as_u8 (x * y)).

Definition pack_read_bytes (n : nat) (stream : bytes) : Res IoError (bytes * bytes) := read_exact (Z.of_nat n) stream.

(** The copy of [read_partial_int] in [pack/utils.rs]: the loop from [byte_index] on, [todo] more bytes. *)
Fixpoint pack_partial_loop `{Build} (todo : nat) (byte_index value present_bytes : Z) (stream : bytes)
  : Res IoError ((Z * Z) * bytes) :=
  match todo with
  | O => Ok ((value, present_bytes), stream)
  | S todo =>
      let! '(value, stream) :=
        if negb (Z.land present_bytes 1 =? 0) then
          let! '(read, stream) := pack_read_bytes 1 stream in
          let! byte := or_panic (get read 0) in
          let! shift := mul_u8 byte_index 8 in
          let! shifted := shl_u64 byte shift in
          Ok (Z.lor value shifted, stream)
        else Ok (value, stream) in
      pack_partial_loop todo (byte_index + 1) value (Z.shiftr present_bytes 1) stream
  end.

Definition pack_read_partial_int `{Build} (bytes_ : nat) (present_bytes : Z) (stream : bytes) : Res IoError ((Z * Z) * bytes) :=
  pack_partial_loop bytes_ 0 0 present_bytes stream.

Lemma pack_partial_loop_eq `{Build} todo i value present stream :
  0 <= i -> 0 <= present < 2 ^ Z.max 0 (8 - i) -> Forall (fun b => 0 <= b < 256) stream ->
  pack_partial_loop todo i value present stream = read_partial_loop todo i value present stream.
Proof.
  revert i value present stream. induction todo as [|todo IH]; intros i value present stream Hi Hp Hs; [done|].
  cbn [pack_partial_loop read_partial_loop].
  assert (Hp' : 0 <= Z.shiftr present 1 < 2 ^ Z.max 0 (8 - (i + 1))).
  { rewrite Z.shiftr_div_pow2 by lia. change (2 ^ 1) with 2. split; [apply Z.div_pos; lia|]. apply Z.div_lt_upper_bound; [lia|].
    rewrite <- Z.pow_succ_r by lia. eapply Z.lt_le_trans; [apply Hp|]. apply Z.pow_le_mono_r; lia. }
  destruct (Z.land present 1 =? 0) eqn:E; cbn [negb]; [cbn [rbind]; apply IH; auto; lia|].
  assert (i < 8). { destruct (Z_lt_dec i 8); [done|]. rewrite (Z.max_l 0 (8 - i)) in Hp by lia. change (2 ^ 0) with 1 in Hp. by replace present with 0 in E by lia. }
  destruct stream as [|b stream]; [done|]. apply Forall_cons_1 in Hs as [Hb Hs]. unfold pack_read_bytes.
  change (b :: stream) with ([b] ++ stream) at 1. rewrite (read_exact_app (Z.of_nat 1) [b] stream) by done.
  cbn [rbind app read_u8]. change (get [b] 0) with (Some b). cbn [or_panic rbind]. unfold mul_u8, shl_u64.
  replace (i * 8 <? 256) with true by lia. cbn [rbind]. replace (i * 8 <? 64) with true by lia. cbn [rbind].
  unfold as_u64. rewrite Z.mod_small; [apply IH; auto; lia|]. rewrite Z.shiftl_mul_pow2 by lia.
  split; [apply Z.mul_nonneg_nonneg; lia|]. apply Z.lt_le_trans with (2 ^ 8 * 2 ^ (i * 8)).
  - apply Z.mul_lt_mono_pos_r; lia.
  - rewrite <- Z.pow_add_r by lia. apply Z.pow_le_mono_r; lia.
Qed.

(** The two copies of [read_partial_int] agree, and neither overflows: after eight bytes no bit of the flags is left. *)
Theorem pack_read_partial_int_eq `{Build} (n : nat) (present_bytes : Z) (stream : bytes) :
  0 <= present_bytes < 256 -> Forall (fun b => 0 <= b < 256) stream ->
  pack_read_partial_int n present_bytes stream = read_partial_int n present_bytes stream.
Proof. intros Hp Hs. apply pack_partial_loop_eq; auto; lia. Qed.
