(* ===== verification/ObjectUtils.v ===== *)
(** The size helpers of [src/internal/object/utils.rs]: the decimal size of a loose object, and
    an older reader of entry headers, compared with the one the pack decoder uses.
    [compress_zlib] only calls the zlib encoder and is not modelled. *)

From Stdlib Require Import ZArith Lia String.
From stdpp Require Import base tactics list numbers option gmap.
From S2P Require Import Prelude Stream Text Errors ObjectTypes DeltaUtils DeltaFormat PackUtils.

(** The boxed errors of [parse_size_from_bytes]. *)
Inductive SizeError : Type := SizeUtf8 | SizeParseInt.

Definition parse_size_from_bytes (b : bytes) : Res SizeError Z :=
  if negb (utf8_valid b) then Err SizeUtf8
  else match parse_dec usize_max b with Some n => Ok n | None => Err SizeParseInt end.

Definition TYPE_BITS : Z := 3.
Definition VAR_INT_ENCODING_BITS : Z := 7.
Definition TYPE_BYTE_SIZE_BITS : Z := VAR_INT_ENCODING_BITS - TYPE_BITS.
Definition VAR_INT_CONTINUE_FLAG : Z := Z.shiftl 1 VAR_INT_ENCODING_BITS.

Definition keep_bits (value bits : Z) : Z := Z.land value (Z.shiftl 1 bits - 1).

(** [byte & !VAR_INT_CONTINUE_FLAG] on [u8]. *)
Definition read_var_int_byte (s : bytes) : Res IoError ((Z * bool) * bytes) :=
  let! '(b, s) := read_exact 1 s in
  let! byte := or_panic (get b 0) in
  let value := Z.land byte (255 - VAR_INT_CONTINUE_FLAG) in
  let more_bytes := negb (Z.land byte VAR_INT_CONTINUE_FLAG =? 0) in
  Ok ((value, more_bytes), s).

Section readers.
Context `{Build}.

(** [length += VAR_INT_ENCODING_BITS] on [u8]. *)
Definition add_u8 {E} (x y : Z) : Res E Z := if x + y <? 2 ^ 8 then Ok (x + y) else overflow (as_u8 (x + y)).

(** The [loop]; every round takes a byte, or panics in [unwrap]. *)
Fixpoint size_encoding_loop (fuel : nat) (value length : Z) (s : bytes) : Res IoError (Z * bytes) :=
  match fuel with
  | O => OutOfFuel
  | S fuel =>
      let! '((byte_value, more_bytes), s) := unwrap (read_var_int_byte s) in
      let! part := shl_u64 byte_value length in
      let value := Z.lor value part in
      if negb more_bytes then Ok (value, s)
      else
        let! length := add_u8 length VAR_INT_ENCODING_BITS in
        size_encoding_loop fuel value length s
  end.

Definition read_size_encoding (s : bytes) : Res IoError (Z * bytes) := size_encoding_loop (S (length s)) 0 0 s.

Definition read_type_and_size (s : bytes) : Res IoError ((Z * Z) * bytes) :=
  let! '(value, s) := read_size_encoding s in
  let object_type := as_u8 (keep_bits (Z.shiftr value TYPE_BYTE_SIZE_BITS) TYPE_BITS) in
  let! high := shl_u64 (Z.shiftr value VAR_INT_ENCODING_BITS) TYPE_BYTE_SIZE_BITS in
  let size := Z.lor (keep_bits value TYPE_BYTE_SIZE_BITS) high in
  Ok ((object_type, size), s).

End readers.

(** * The decimal size *)

(** The printed size of every object reads back. *)
Lemma parse_size_shown n : 0 <= n <= usize_max -> parse_size_from_bytes (show_dec n) = Ok n.
Proof.
  intros Hn. unfold parse_size_from_bytes. rewrite utf8_ascii; [cbn [negb]; by rewrite parse_dec_show|].
  eapply Forall_impl; [apply show_dec_digits; lia|]. unfold is_digit. intros b Hb. lia.
Qed.

(** * The two readers of entry headers *)

Section agreement.
Context `{Build}.

Lemma read_var_int_byte_eq b s : is_byte b -> read_var_int_byte (b :: s) = read_byte_and_check_continuation (b :: s).
Proof.
  intros Hb. unfold is_byte in Hb. unfold read_var_int_byte, read_byte_and_check_continuation.
  change (b :: s) with ([b] ++ s) at 1. rewrite (read_exact_app 1 [b] s) by done. cbn [rbind app read_u8]. change (get [b] 0) with (Some b). cbn [or_panic rbind].
  change (255 - VAR_INT_CONTINUE_FLAG) with 127. change VAR_INT_CONTINUE_FLAG with 128. rewrite land_128_byte by done.
  do 4 f_equal. destruct (b <? 128) eqn:E; cbn; lia.
Qed.

Lemma shifted_byte v k : 0 <= v < 128 -> 0 <= k -> 0 <= v * 2 ^ k < 2 ^ (7 + k).
Proof. intros Hv Hk. rewrite Z.pow_add_r by lia. assert (0 < 2 ^ k) by (apply Z.pow_pos_nonneg; lia). change (2 ^ 7) with 128. nia. Qed.

Lemma shl_byte {E} v k : 0 <= v < 128 -> 0 <= k <= 57 -> shl_u64 (E := E) v k = Ok (v * 2 ^ k).
Proof.
  intros Hv Hk. pose proof (shifted_byte v k Hv ltac:(lia)). apply shl_u64_small; [lia|lia|].
  assert (2 ^ (7 + k) <= 2 ^ 64) by (apply Z.pow_le_mono_r; lia). lia.
Qed.

(** The two loops, after the first byte [base]: [x] holds the size bits beyond it. *)
Lemma loops_agree fuel fuel' base x s n off size' off' rest :
  byte_list s -> 0 <= base < 128 -> 7 <= n -> 0 <= x < 2 ^ (n - 7) -> (fuel <= S fuel')%nat ->
  type_size_loop fuel (Z.lor (Z.land base 15) (Z.shiftl x 4)) (n - 3) true off s = Ok ((size', off'), rest) ->
  n + 7 * (off' - off) <= 63 ->
  exists x', size_encoding_loop fuel' (Z.lor base (Z.shiftl x 7)) n s = Ok (Z.lor base (Z.shiftl x' 7), rest)
    /\ size' = Z.lor (Z.land base 15) (Z.shiftl x' 4) /\ 0 <= x' < 2 ^ 56.
Proof.
  revert fuel' x s n off. induction fuel as [|fuel IH]; intros fuel' x s n off Hb Hbase Hn Hx Hf Hl Hmax; [discriminate|]. cbn [type_size_loop] in Hl.
  destruct s as [|b s]; [discriminate|]. apply Forall_cons_1 in Hb as [Hby Hb]. apply bind_Ok_inv in Hl as ([[v more] r] & Er & Hl).
  pose proof Er as Er'. unfold read_byte_and_check_continuation in Er'. cbn [read_u8 rbind] in Er'. injection Er' as Hv Hm <-.
  assert (Hvb : 0 <= v < 128) by (rewrite <- Hv, land_127; apply Z.mod_pos_bound; lia).
  apply bind_Ok_inv in Hl as (part & Ep & Hl). destruct fuel as [|fuel]; [discriminate|]. destruct fuel' as [|fuel']; [lia|].
  assert (Hoff : off + 1 <= off').
  { destruct more; [|injection Hl as _ <- _; lia]. apply type_size_loop_offset in Hl. lia. }
  rewrite shl_byte in Ep by lia.
  injection Ep as <-.
  set (x1 := Z.lor x (Z.shiftl v (n - 7))).
  assert (Hx1 : 0 <= x1 < 2 ^ n).
  { unfold x1. pose proof (shifted_byte v (n - 7) Hvb ltac:(lia)) as Hsh. replace (7 + (n - 7)) with n in Hsh by lia. assert (2 ^ (n - 7) <= 2 ^ n) by (apply Z.pow_le_mono_r; lia).
    apply lor_bound; [lia|lia|]. by rewrite Z.shiftl_mul_pow2 by lia. }
  assert (Hs1 : Z.lor (Z.lor (Z.land base 15) (Z.shiftl x 4)) (v * 2 ^ (n - 3)) = Z.lor (Z.land base 15) (Z.shiftl x1 4)).
  { unfold x1. rewrite Z.shiftl_lor, Z.shiftl_shiftl, <- Z.lor_assoc by lia. do 2 f_equal. rewrite Z.shiftl_mul_pow2 by lia. do 2 f_equal. lia. }
  assert (Hv1 : Z.lor (Z.lor base (Z.shiftl x 7)) (v * 2 ^ n) = Z.lor base (Z.shiftl x1 7)).
  { unfold x1. rewrite Z.shiftl_lor, Z.shiftl_shiftl, <- Z.lor_assoc by lia. do 2 f_equal. rewrite Z.shiftl_mul_pow2 by lia. do 2 f_equal. lia. }
  remember (S fuel) as f1. cbn [size_encoding_loop]. rewrite read_var_int_byte_eq, Er by done. cbn [unwrap rbind].
  rewrite shl_byte by lia. cbn [rbind]. rewrite Hv1. rewrite Hs1 in Hl. destruct more; cbn [negb].
  - unfold add_u8, VAR_INT_ENCODING_BITS. replace (n + 7 <? 2 ^ 8) with true by lia. cbn [rbind].
    replace (n - 3 + 7) with (n + 7 - 3) in Hl by lia. eapply (IH fuel' x1 s (n + 7)); try done; try lia.
    by replace (n + 7 - 7) with n by lia.
  - subst f1. cbn in Hl. injection Hl as <- _ <-. exists x1. split; [done|]. split; [done|].
    assert (2 ^ n <= 2 ^ 56) by (apply Z.pow_le_mono_r; lia). lia.
Qed.

(** The fields of a value that starts with the seven bits [base]. *)
Lemma value_fields base x : 0 <= base < 128 -> 0 <= x ->
  keep_bits (Z.shiftr (Z.lor base (Z.shiftl x 7)) 4) 3 = Z.shiftr (Z.land base 0x70) 4
  /\ keep_bits (Z.lor base (Z.shiftl x 7)) 4 = Z.land base 15 /\ Z.shiftr (Z.lor base (Z.shiftl x 7)) 7 = x.
Proof.
  intros Hb Hx. unfold keep_bits. change (Z.shiftl 1 3 - 1) with 7. change (Z.shiftl 1 4 - 1) with 15. split_and!.
  - rewrite Z.shiftr_lor, Z.shiftr_shiftl_l, Z.land_lor_distr_l by lia. change 7 with (2 ^ 3 - 1) at 3. rewrite (land_low (Z.shiftl x (7 - 4))) by lia.
    rewrite Z.shiftl_mul_pow2, Z.mod_mul, Z.lor_0_r by lia. rewrite Z.shiftr_land. done.
  - rewrite Z.land_lor_distr_l. change 15 with (2 ^ 4 - 1) at 2. rewrite (land_low (Z.shiftl x 7)) by lia.
    rewrite Z.shiftl_mul_pow2 by lia. replace (x * 2 ^ 7) with (x * 8 * 2 ^ 4) by lia. by rewrite Z.mod_mul, Z.lor_0_r by lia.
  - rewrite Z.shiftr_lor, Z.shiftr_shiftl_l by lia. change (7 - 7) with 0. rewrite Z.shiftl_0_r, Z.shiftr_div_pow2, Z.div_small by lia. done.
Qed.

End agreement.

(** the two readers of entry headers agree: whenever the pack decoder's reader accepts a header
    of at most nine bytes (every size below [2 ^ 60]), [read_type_and_size] reads the same type,
    the same size and the same bytes, in builds with and without overflow checks. *)
Theorem header_readers_agree `{Build} (s : bytes) (off bits size off' : Z) (rest : bytes) :
  byte_list s -> read_type_and_varint_size off s = Ok (((bits, size), off'), rest) -> off' - off <= 9 ->
  read_type_and_size s = Ok ((bits, size), rest).
Proof.
  intros Hb Hr Hn. unfold read_type_and_varint_size in Hr. destruct s as [|b s]; [discriminate|]. apply Forall_cons_1 in Hb as [Hby Hb].
  apply bind_Ok_inv in Hr as ([[v more] r] & Er & Hr). pose proof Er as Er'. unfold read_byte_and_check_continuation in Er'.
  cbn [read_u8 rbind] in Er'. injection Er' as Hv Hm <-. assert (Hvb : 0 <= v < 128) by (rewrite <- Hv, land_127; apply Z.mod_pos_bound; lia).
  apply bind_Ok_inv in Hr as ([[size1 off1] r1] & El & [= <- <- <- <-]).
  assert (Hval : exists x, read_size_encoding (b :: s) = Ok (Z.lor v (Z.shiftl x 7), r1) /\ size1 = Z.lor (Z.land v 15) (Z.shiftl x 4) /\ 0 <= x < 2 ^ 56).
  { unfold read_size_encoding. remember (length (b :: s)) as f eqn:Hf. cbn [size_encoding_loop]. rewrite read_var_int_byte_eq, Er by done. cbn [unwrap rbind].
    rewrite shl_byte by lia. cbn [rbind]. rewrite Z.mul_1_r. change (Z.lor 0 v) with v. destruct more; cbn [negb].
    - change (add_u8 0 VAR_INT_ENCODING_BITS) with (@Ok IoError Z 7). cbn [rbind].
      destruct (loops_agree (S (S (length s))) f v 0 s 7 (off + 1) size1 off1 r1) as (x & Hx & ? & ?); try done; try lia; [cbn in Hf; lia|by rewrite Z.shiftl_0_l, Z.lor_0_r|].
      rewrite Z.shiftl_0_l, Z.lor_0_r in Hx. by exists x.
    - cbn in El. injection El as <- _ <-. exists 0. rewrite !Z.shiftl_0_l, !Z.lor_0_r. done. }
  destruct Hval as (x & Hval & -> & Hx). unfold read_type_and_size. rewrite Hval. cbn [rbind].
  destruct (value_fields v x) as (E1 & E2 & E3); [done|lia|].
  change TYPE_BYTE_SIZE_BITS with 4. change TYPE_BITS with 3. change VAR_INT_ENCODING_BITS with 7. rewrite E1, E2, E3.
  rewrite shl_u64_small by lia. cbn [rbind]. rewrite Z.shiftl_mul_pow2 by lia. do 3 f_equal. unfold as_u8. rewrite Z.mod_small; [done|].
  change 0x70 with (Z.shiftl 7 4). rewrite Z.shiftr_land, Z.shiftr_shiftl_l by lia. change (Z.shiftl 7 (4 - 4)) with (2 ^ 3 - 1).
  rewrite land_low by lia. pose proof (Z.mod_pos_bound (Z.shiftr v 4) (2 ^ 3) ltac:(lia)). lia.
Qed.

(** A commit of 300 bytes. *)
Lemma header_readers_agree_witness : @read_type_and_size true [0x9C; 0x12; 7] = Ok ((1, 300), [7]).
Proof.
  apply (@header_readers_agree true [0x9C; 0x12; 7] 12 1 300 14 [7]); [|vm_compute; reflexivity|lia].
  repeat constructor; unfold is_byte; lia.
Defined.

(** A header that is cut off makes the older reader panic where its type promises an error; the
    pack decoder's reader reports it. *)
Theorem cut_header_panics `{Build} (n : nat) (off : Z) :
  (n <= 8)%nat -> read_type_and_size (repeat 0x80 n) = Panic /\ read_type_and_varint_size off (repeat 0x80 n) = Err UnexpectedEof.
Proof. intros Hn. do 9 (destruct n as [|n]; [done|]). lia. Qed.

