(* ===== verification/Hash.v ===== *)
(** Object identifiers, [src/hash.rs], the digest factory [HashAlgorithm] of
    [src/utils.rs] and the loose-object hashing of [src/internal/pack/utils.rs].

    The digest functions are those of the sha1, sha2 and blake3 crates: an interface
    [Hasher] with the streaming operations the code calls, and [HasherLaws] for what
    it relies on.  A fixed-size array is a byte list whose length the invariant
    [hash_wf] records.  The thread-local kind of the legacy entry points is an
    explicit argument [current]. *)

From Stdlib Require Import ZArith Lia String.
From stdpp Require Import base tactics list numbers option.
From S2P Require Import Prelude Stream Text Errors ObjectTypes PackUtils.

Module HashKind.

Inductive t : Type := Sha1 | Sha256 | Blake3.

#[global] Instance eq_dec : EqDecision t.
Proof. solve_decision. Defined.

Definition ACCEPTED_TAGS : bytes := str "sha1|sha256|blake3".
Definition ACCEPTED_TAG_LENS : bytes := str "4|6".

Definition size (k : t) : Z :=
  match k with
  | Sha1 => 20
  | Sha256 => 32
  | Blake3 => 32
  end.

Definition hex_len (k : t) : Z := size k * 2.

Definition as_str (k : t) : bytes :=
  match k with
  | Sha1 => str "sha1"
  | Sha256 => str "sha256"
  | Blake3 => str "blake3"
  end.

Definition is_git_standard (k : t) : bool :=
  match k with
  | Sha1 | Sha256 => true
  | Blake3 => false
  end.

Definition to_ascii_lowercase (s : bytes) : bytes :=
  map (fun c => if (65 <=? c) && (c <=? 90) then c + 32 else c) s.

Definition from_str (s : bytes) : Res bytes t :=
  let s := to_ascii_lowercase s in
  if bool_decide (s = str "sha1") then Ok Sha1
  else if bool_decide (s = str "sha256") then Ok Sha256
  else if bool_decide (s = str "blake3") then Ok Blake3
  else Err (str "Invalid hash kind").

End HashKind.

(** [hex::FromHexError]. *)
Inductive FromHexError : Type :=
| OddLength
| InvalidHexCharacter (c index : Z).

(** The hex crate: [hex::encode] and [hex::decode], with what it documents:
    lower-case output, two characters a byte, and a decoder that inverts it. *)
Class HexCrate := {
  hex_encode : bytes -> bytes;
  hex_decode : bytes -> Res FromHexError bytes
}.

Class HexLaws `{HexCrate} : Prop := {
  hex_decode_encode : forall l, byte_list l -> hex_decode (hex_encode l) = Ok l;
  hex_encode_length : forall l, blen (hex_encode l) = 2 * blen l;
  hex_encode_lower : forall l, byte_list l -> Forall is_hex_lower (hex_encode l);
  hex_decode_returns : forall s, returns (hex_decode s);
  hex_decode_Ok : forall s l, hex_decode s = Ok l -> byte_list l /\ blen s = 2 * blen l
}.

Inductive HashError : Type :=
| InvalidLength (operation : bytes) (kind : HashKind.t) (expected actual : Z)
| InvalidHex (operation : bytes) (kind : HashKind.t) (expected actual : Z) (source : FromHexError)
| KindMismatch (operation : bytes) (expected actual : HashKind.t) (expected_len actual_len : Z)
| UnknownKind (operation tag expected_tags expected_tag_lens : bytes) (actual hex_len : Z)
| UnsupportedObjectType (operation : bytes) (kind : HashKind.t) (object_type : ObjectType.t)
    (expected actual payload_len : Z)
| Io (operation : bytes) (kind : HashKind.t) (expected actual : Z) (error : IoError).

(** [From<HashError> for io::Error]: the kind of the resulting error. *)
Inductive IoKind : Type := KindUnexpectedEof | KindInvalidData | KindOf (e : IoError).

Definition HashError_io_kind (e : HashError) : IoKind :=
  match e with
  | InvalidLength op _ _ _ =>
      if bool_decide (op = str "from_stream_for_kind") then KindUnexpectedEof else KindInvalidData
  | Io _ _ _ _ err => KindOf err
  | _ => KindInvalidData
  end.

Module ObjectHash.

Inductive t : Type :=
| Sha1 (bytes : list Z)
| Sha256 (bytes : list Z)
| Blake3 (bytes : list Z).

#[global] Instance eq_dec : EqDecision t.
Proof. solve_decision. Defined.

Definition as_ref (h : t) : bytes :=
  match h with
  | Sha1 b => b
  | Sha256 b => b
  | Blake3 b => b
  end.

Definition default : t := Sha1 (repeat 0 20).

(** [Display]. *)
Definition fmt `{HexCrate} (h : t) : bytes := hex_encode (as_ref h).

Definition zero_for_kind (kind : HashKind.t) : t :=
  match kind with
  | HashKind.Sha1 => Sha1 (repeat 0 20)
  | HashKind.Sha256 => Sha256 (repeat 0 32)
  | HashKind.Blake3 => Blake3 (repeat 0 32)
  end.

Definition zero_str `{HexCrate} (kind : HashKind.t) : bytes := fmt (zero_for_kind kind).

Definition kind (h : t) : HashKind.t :=
  match h with
  | Sha1 _ => HashKind.Sha1
  | Sha256 _ => HashKind.Sha256
  | Blake3 _ => HashKind.Blake3
  end.

Definition size (h : t) : Z := HashKind.size (kind h).

Definition ensure_kind (h : t) (expected : HashKind.t) : Res HashError unit :=
  let actual := kind h in
  if bool_decide (actual = expected) then Ok tt
  else Err (KindMismatch (str "ensure_kind") expected actual
              (HashKind.size expected) (HashKind.size actual)).

Definition from_bytes_for_kind (kind : HashKind.t) (b : bytes) : Res HashError t :=
  let expected := HashKind.size kind in
  if negb (blen b =? expected)
  then Err (InvalidLength (str "from_bytes_for_kind") kind expected (blen b))
  else Ok (match kind with
           | HashKind.Sha1 => Sha1 b
           | HashKind.Sha256 => Sha256 b
           | HashKind.Blake3 => Blake3 b
           end).

(** [from_bytes_for_kind] only fails on the length: the last arm is never taken. *)
Definition from_bytes (current : HashKind.t) (b : bytes) : Res bytes t :=
  map_err (fun e => match e with
    | InvalidLength _ _ expected actual =>
        str "Invalid byte length: got " ++ show_dec actual ++ str ", expected " ++ show_dec expected
    | _ => []
    end) (from_bytes_for_kind current b).

Definition from_hex_for_kind `{HexCrate} (kind : HashKind.t) (hex_str : bytes) : Res HashError t :=
  let expected := HashKind.hex_len kind in
  if negb (blen hex_str =? expected)
  then Err (InvalidLength (str "from_hex_for_kind") kind expected (blen hex_str))
  else
    let! b := map_err (fun source => InvalidHex (str "from_hex_for_kind") kind expected (blen hex_str) source)
                (hex_decode hex_str) in
    from_bytes_for_kind kind b.

(** [FromStr]: the kind is inferred from the length, never BLAKE3. *)
Inductive ParseError : Type :=
| BadLength
| BadHex (source : FromHexError)
| BadBytes (source : HashError).

Definition from_str `{HexCrate} (s : bytes) : Res ParseError t :=
  let! kind :=
    match blen s with
    | 40 => Ok HashKind.Sha1
    | 64 => Ok HashKind.Sha256
    | _ => Err BadLength
    end in
  let! b := map_err BadHex (hex_decode s) in
  map_err BadBytes (from_bytes_for_kind kind b).

Definition to_tagged_string `{HexCrate} (h : t) : bytes := HashKind.as_str (kind h) ++ str ":" ++ fmt h.

Definition from_tagged_str `{HexCrate} (tagged : bytes) : Res HashError t :=
  let! '(tag, hex_str) :=
    ok_or (split_at 58 tagged)
      (UnknownKind (str "from_tagged_str") tagged HashKind.ACCEPTED_TAGS HashKind.ACCEPTED_TAG_LENS
         (blen tagged) 0) in
  let! kind :=
    map_err (fun _ => UnknownKind (str "from_tagged_str") tag HashKind.ACCEPTED_TAGS
                        HashKind.ACCEPTED_TAG_LENS (blen tag) (blen hex_str))
      (HashKind.from_str tag) in
  from_hex_for_kind kind hex_str.

Definition from_bytes_infer_kind (b : bytes) : Res bytes t :=
  match blen b with
  | 20 => Ok (Sha1 b)
  | 32 => Ok (Sha256 b)
  | other => Err (str "Invalid byte length: got " ++ show_dec other
                  ++ str ", expected 20 (SHA-1) or 32 (SHA-256)")
  end.

Definition to_data (h : t) : bytes := as_ref h.

(** [from_stream]: [read_exact] of [kind.size()] bytes, whose conversion cannot fail. *)
Definition from_stream (current : HashKind.t) (s : bytes) : Res IoError (t * bytes) :=
  let! '(b, s) := read_exact (HashKind.size current) s in
  let! h := map_err (fun _ => InvalidData "hash") (from_bytes_for_kind current b) in
  Ok (h, s).

End ObjectHash.

Definition hash_wf (h : ObjectHash.t) : Prop :=
  blen (ObjectHash.as_ref h) = ObjectHash.size h /\ byte_list (ObjectHash.as_ref h).

(** * Streaming digests *)

(** The streaming digests of the hash crates. *)
Class Hasher := {
  hasher : HashKind.t -> Type;
  hasher_new : forall k, hasher k;
  hasher_update : forall {k}, hasher k -> bytes -> hasher k;
  hasher_finalize : forall {k}, hasher k -> bytes
}.

(** What the crates document: updating piecewise is updating with the
    concatenation, and a digest has the size of its algorithm. *)
Class HasherLaws `{Hasher} : Prop := {
  hasher_update_app : forall k (st : hasher k) a b,
    hasher_update (hasher_update st a) b = hasher_update st (a ++ b);
  hasher_finalize_size : forall k (st : hasher k),
    blen (hasher_finalize st) = HashKind.size k /\ byte_list (hasher_finalize st)
}.

(** [HashAlgorithm]: a hasher together with its kind. *)
Definition HashAlgorithm `{Hasher} : Type := { k : HashKind.t & hasher k }.

Section algorithm.
Context `{Hasher}.

Definition HashAlgorithm_new_for_kind (kind : HashKind.t) : HashAlgorithm :=
  existT kind (hasher_new kind).

Definition HashAlgorithm_kind (h : HashAlgorithm) : HashKind.t := projT1 h.

Definition HashAlgorithm_update (h : HashAlgorithm) (data : bytes) : HashAlgorithm :=
  existT (projT1 h) (hasher_update (projT2 h) data).

Definition HashAlgorithm_finalize (h : HashAlgorithm) : bytes := hasher_finalize (projT2 h).

Definition HashAlgorithm_finalize_object_hash (h : HashAlgorithm) : ObjectHash.t :=
  match projT1 h with
  | HashKind.Sha1 => ObjectHash.Sha1 (hasher_finalize (projT2 h))
  | HashKind.Sha256 => ObjectHash.Sha256 (hasher_finalize (projT2 h))
  | HashKind.Blake3 => ObjectHash.Blake3 (hasher_finalize (projT2 h))
  end.

Definition ObjectHash_new_for_kind (kind : HashKind.t) (data : bytes) : ObjectHash.t :=
  HashAlgorithm_finalize_object_hash (HashAlgorithm_update (HashAlgorithm_new_for_kind kind) data).

Definition ObjectHash_new (current : HashKind.t) (data : bytes) : ObjectHash.t :=
  ObjectHash_new_for_kind current data.

Definition from_type_and_data_for_kind (kind : HashKind.t) (object_type : ObjectType.t) (data : bytes)
  : Res HashError ObjectHash.t :=
  let! type_bytes :=
    ok_or (ObjectType.to_bytes object_type)
      (UnsupportedObjectType (str "from_type_and_data_for_kind") kind object_type
         (HashKind.size kind) 0 (blen data)) in
  let h := HashAlgorithm_new_for_kind kind in
  let h := HashAlgorithm_update h type_bytes in
  let h := HashAlgorithm_update h (str " ") in
  let h := HashAlgorithm_update h (show_dec (blen data)) in
  let h := HashAlgorithm_update h [0] in
  let h := HashAlgorithm_update h data in
  Ok (HashAlgorithm_finalize_object_hash h).

(** The legacy entry point: [to_data().unwrap()] panics on a delta type. *)
Definition from_type_and_data (current : HashKind.t) (object_type : ObjectType.t) (data : bytes)
  : Res Empty_set ObjectHash.t :=
  let! ty := unwrap (ObjectType.to_data object_type) in
  let d := ((((ty ++ str " ") ++ show_dec (blen data)) ++ [0]) ++ data) in
  Ok (ObjectHash_new_for_kind current d).

Definition hash_loose_object (h : HashAlgorithm) (type_bytes data : bytes) : Res Empty_set ObjectHash.t :=
  let! len_bytes := decimal_usize_bytes (blen data) (repeat 0 20) in
  let h := HashAlgorithm_update h type_bytes in
  let h := HashAlgorithm_update h (str " ") in
  let h := HashAlgorithm_update h len_bytes in
  let h := HashAlgorithm_update h [0] in
  let h := HashAlgorithm_update h data in
  Ok (HashAlgorithm_finalize_object_hash h).

Definition calculate_object_hash_for_kind (kind : HashKind.t) (obj_type : ObjectType.t) (data : bytes)
  : Res HashError ObjectHash.t :=
  let! type_bytes :=
    ok_or (ObjectType.to_bytes obj_type)
      (UnsupportedObjectType (str "calculate_object_hash_for_kind") kind obj_type
         (HashKind.size kind) 0 (blen data)) in
  unwrap (hash_loose_object (HashAlgorithm_new_for_kind kind) type_bytes data).

Definition calculate_object_hash (current : HashKind.t) (obj_type : ObjectType.t) (data : bytes)
  : Res Empty_set ObjectHash.t :=
  let! type_bytes := or_panic (ObjectType.to_bytes obj_type) in
  hash_loose_object (HashAlgorithm_new_for_kind current) type_bytes data.

End algorithm.

(** * Reading identifiers from a stream *)

(** What successive calls of [Read::read] meet: data (of which a call takes as much
    as its buffer holds), an interruption, a failure; nothing left is end of file. *)
Inductive ReadEvent : Type :=
| Chunk (d : bytes)
| Interrupted
| Failed (e : IoError).

Inductive ReadResult : Type :=
| Got (d : bytes)
| GotInterrupted
| GotError (e : IoError).

Definition read_some (n : Z) (evs : list ReadEvent) : ReadResult * list ReadEvent :=
  match evs with
  | [] => (Got [], [])
  | Interrupted :: evs => (GotInterrupted, evs)
  | Failed e :: evs => (GotError e, evs)
  | Chunk d :: evs =>
      if blen d <=? n then (Got d, evs)
      else (Got (take (Z.to_nat n) d), Chunk (drop (Z.to_nat n) d) :: evs)
  end.

(** [while filled < expected]; every round consumes an event or completes the buffer. *)
Fixpoint fill_loop (fuel : nat) (kind : HashKind.t) (expected : Z) (buf : bytes) (evs : list ReadEvent)
  : Res HashError (bytes * list ReadEvent) :=
  match fuel with
  | O => OutOfFuel
  | S fuel =>
      if blen buf <? expected then
        match read_some (expected - blen buf) evs with
        | (Got [], evs) => Ok (buf, evs)
        | (Got d, evs) => fill_loop fuel kind expected (buf ++ d) evs
        | (GotInterrupted, evs) => fill_loop fuel kind expected buf evs
        | (GotError e, evs) => Err (Io (str "from_stream_for_kind") kind expected (blen buf) e)
        end
      else Ok (buf, evs)
  end.

Definition from_stream_for_kind (kind : HashKind.t) (evs : list ReadEvent)
  : Res HashError (ObjectHash.t * list ReadEvent) :=
  let expected := HashKind.size kind in
  let! '(buf, evs) := fill_loop (S (S (length evs))) kind expected [] evs in
  if negb (blen buf =? expected)
  then Err (InvalidLength (str "from_stream_for_kind") kind expected (blen buf))
  else
    let! h := ObjectHash.from_bytes_for_kind kind buf in
    Ok (h, evs).

(** * Textual forms *)

(** A hex crate, for concrete runs. *)
Fixpoint hex_read (index : Z) (s : bytes) : Res FromHexError bytes :=
  match s with
  | [] => Ok []
  | [_] => Err OddLength
  | a :: b :: s =>
      let! x := ok_or (hex_val a) (InvalidHexCharacter a index) in
      let! y := ok_or (hex_val b) (InvalidHexCharacter b (index + 1)) in
      let! l := hex_read (index + 2) s in
      Ok (16 * x + y :: l)
  end.

Definition hex_reference : HexCrate := {| hex_encode := hex_print; hex_decode := hex_read 0 |}.

Lemma hex_val_bound c x : hex_val c = Some x -> 0 <= x < 16.
Proof. unfold hex_val. repeat case_match; intros [= <-]; lia. Qed.

Lemma hex_read_print i l : byte_list l -> hex_read i (hex_print l) = Ok l.
Proof.
  intros Hl. revert i. induction Hl as [|b l Hb _ IH]; intros i; [done|].
  cbn [hex_print hex_read]. unfold is_byte in Hb.
  pose proof (Z.div_mod b 16 ltac:(lia)). pose proof (Z.mod_pos_bound b 16 ltac:(lia)).
  rewrite (proj1 (hex_val_digit (b / 16) ltac:(lia))), (proj1 (hex_val_digit (b mod 16) ltac:(lia))).
  cbn [ok_or rbind]. rewrite IH. cbn [rbind]. do 2 f_equal. lia.
Qed.

Lemma hex_read_Ok i s l : hex_read i s = Ok l -> byte_list l /\ blen s = 2 * blen l.
Proof.
  revert i l. induction s as [s IH] using (well_founded_induction (well_founded_ltof _ (@length Z))).
  unfold ltof in IH. intros i l Hs. destruct s as [|a [|b s]]; cbn [hex_read] in Hs.
  - injection Hs as <-. split; [constructor|done].
  - discriminate.
  - destruct (hex_val a) as [x|] eqn:Ea; [|discriminate]. destruct (hex_val b) as [y|] eqn:Eb; [|discriminate].
    cbn [ok_or rbind] in Hs. destruct (hex_read (i + 2) s) as [l'| | |] eqn:El; try discriminate.
    cbn [rbind] in Hs. injection Hs as <-. destruct (IH s ltac:(cbn; lia) _ _ El) as [Hl Hlen].
    apply hex_val_bound in Ea, Eb. split.
    + apply Forall_cons_2; [unfold is_byte; lia|done].
    + rewrite !blen_cons. lia.
Qed.

Lemma hex_read_returns i s : returns (hex_read i s).
Proof.
  revert i. induction s as [s IH] using (well_founded_induction (well_founded_ltof _ (@length Z))).
  unfold ltof in IH. intros i. destruct s as [|a [|b s]]; [exact I..|]. cbn [hex_read].
  repeat (apply returns_bind; [auto with git|intros ? _]); [|exact I]. apply IH. cbn. lia.
Qed.

Lemma hex_reference_laws : @HexLaws hex_reference.
Proof.
  split; cbn.
  - intros l. apply hex_read_print.
  - apply hex_print_length.
  - apply hex_print_lower.
  - apply hex_read_returns.
  - apply hex_read_Ok.
Qed.

Lemma from_bytes_for_kind_wf h :
  hash_wf h -> ObjectHash.from_bytes_for_kind (ObjectHash.kind h) (ObjectHash.as_ref h) = Ok h.
Proof.
  intros [Hlen _]. unfold ObjectHash.from_bytes_for_kind. unfold ObjectHash.size in Hlen.
  rewrite Hlen, Z.eqb_refl. by destruct h.
Qed.

(** Every failure of [from_bytes_for_kind] is about the length. *)
Lemma from_bytes_for_kind_Ok k b h :
  ObjectHash.from_bytes_for_kind k b = Ok h <->
  blen b = HashKind.size k /\ ObjectHash.kind h = k /\ ObjectHash.as_ref h = b.
Proof.
  unfold ObjectHash.from_bytes_for_kind. destruct (blen b =? HashKind.size k) eqn:E; cbn [negb].
  - split; [intros [= <-]; by destruct k; repeat split; lia|].
    intros (_ & Hk & Hb). by destruct h; cbn in Hk, Hb; subst.
  - split; [discriminate|lia].
Qed.

Lemma fmt_length `{HexLaws} h : hash_wf h -> blen (ObjectHash.fmt h) = HashKind.hex_len (ObjectHash.kind h).
Proof.
  intros [Hlen _]. unfold ObjectHash.fmt, HashKind.hex_len, ObjectHash.size in *.
  rewrite hex_encode_length, Hlen. lia.
Qed.

Lemma from_hex_for_kind_fmt `{HexLaws} h :
  hash_wf h -> ObjectHash.from_hex_for_kind (ObjectHash.kind h) (ObjectHash.fmt h) = Ok h.
Proof.
  intros Hwf. unfold ObjectHash.from_hex_for_kind. rewrite fmt_length, Z.eqb_refl by done. cbn [negb].
  unfold ObjectHash.fmt at 1. rewrite hex_decode_encode by apply Hwf. cbn [map_err rbind].
  by apply from_bytes_for_kind_wf.
Qed.

Lemma from_hex_for_kind_Ok `{HexLaws} k s h :
  ObjectHash.from_hex_for_kind k s = Ok h ->
  ObjectHash.kind h = k /\ hash_wf h /\ hex_decode s = Ok (ObjectHash.as_ref h).
Proof.
  unfold ObjectHash.from_hex_for_kind. destruct (negb _); [discriminate|].
  destruct (hex_decode s) as [b| | |] eqn:E; cbn [map_err rbind]; try discriminate.
  intros Hb. apply from_bytes_for_kind_Ok in Hb as (Hlen & Hk & <-).
  split; [done|]. split; [|done]. split; [|by apply (hex_decode_Ok s)].
  unfold ObjectHash.size. by rewrite Hk.
Qed.

Lemma from_hex_for_kind_returns `{HexLaws} k s : returns (ObjectHash.from_hex_for_kind k s).
Proof.
  unfold ObjectHash.from_hex_for_kind. destruct (negb _); [exact I|].
  apply returns_bind; [apply returns_map_err, hex_decode_returns|intros b _].
  unfold ObjectHash.from_bytes_for_kind. destruct (negb _); exact I.
Qed.

Lemma kind_tag k hex :
  split_at 58 (HashKind.as_str k ++ str ":" ++ hex) = Some (HashKind.as_str k, hex)
  /\ HashKind.from_str (HashKind.as_str k) = Ok k.
Proof.
  split; [|by destruct k; vm_compute].
  change (str ":" ++ hex) with (58 :: hex). apply split_at_app.
  destruct k; decide_closed.
Qed.

(** an identifier survives every textual and binary form that carries or is
    given its algorithm; the length-inferring parser reads back SHA-1 and SHA-256
    identifiers and turns a BLAKE3 one into the SHA-256 identifier of the same bytes. *)
Theorem object_hash_roundtrip `{HexLaws} (h : ObjectHash.t) :
  hash_wf h ->
  ObjectHash.from_bytes_for_kind (ObjectHash.kind h) (ObjectHash.to_data h) = Ok h
  /\ ObjectHash.from_hex_for_kind (ObjectHash.kind h) (ObjectHash.fmt h) = Ok h
  /\ ObjectHash.from_tagged_str (ObjectHash.to_tagged_string h) = Ok h
  /\ ObjectHash.from_str (ObjectHash.fmt h)
     = Ok (match h with ObjectHash.Blake3 b => ObjectHash.Sha256 b | _ => h end).
Proof.
  intros Hwf. split; [by apply from_bytes_for_kind_wf|]. split; [by apply from_hex_for_kind_fmt|]. split.
  - unfold ObjectHash.from_tagged_str, ObjectHash.to_tagged_string.
    destruct (kind_tag (ObjectHash.kind h) (ObjectHash.fmt h)) as [-> Hk]. cbn [ok_or rbind].
    rewrite Hk. cbn [map_err rbind]. by apply from_hex_for_kind_fmt.
  - unfold ObjectHash.from_str. rewrite fmt_length by done. destruct Hwf as [Hlen Hb].
    unfold ObjectHash.size in Hlen. unfold ObjectHash.fmt.
    destruct h as [b|b|b]; cbn in *; rewrite hex_decode_encode by done; cbn [map_err rbind];
      unfold ObjectHash.from_bytes_for_kind; rewrite Hlen; done.
Qed.

Lemma object_hash_roundtrip_witness :
  let h := ObjectHash.Blake3 (repeat 171 32) in
  ObjectHash.from_bytes_for_kind (ObjectHash.kind h) (ObjectHash.to_data h) = Ok h
  /\ @ObjectHash.from_hex_for_kind hex_reference (ObjectHash.kind h) (@ObjectHash.fmt hex_reference h) = Ok h
  /\ @ObjectHash.from_tagged_str hex_reference (@ObjectHash.to_tagged_string hex_reference h) = Ok h
  /\ @ObjectHash.from_str hex_reference (@ObjectHash.fmt hex_reference h)
     = Ok (ObjectHash.Sha256 (repeat 171 32)).
Proof.
  apply (@object_hash_roundtrip hex_reference hex_reference_laws (ObjectHash.Blake3 (repeat 171 32))).
  split; [reflexivity|]. repeat constructor; unfold is_byte; lia.
Defined.

(** parsing fails closed: whatever an explicit-kind parser accepts is a
    well-formed identifier of the requested kind, whatever the tagged parser accepts
    carries the kind its tag names, and [ensure_kind] accepts no other kind. *)
Theorem object_hash_fail_closed `{HexLaws} (k : HashKind.t) (s : bytes) (h : ObjectHash.t) :
  (ObjectHash.from_hex_for_kind k s = Ok h -> ObjectHash.kind h = k /\ hash_wf h)
  /\ (ObjectHash.from_bytes_for_kind k s = Ok h -> ObjectHash.kind h = k /\ ObjectHash.to_data h = s)
  /\ (ObjectHash.from_tagged_str s = Ok h ->
      exists tag hex, s = tag ++ str ":" ++ hex /\ HashKind.from_str tag = Ok (ObjectHash.kind h) /\ hash_wf h)
  /\ (ObjectHash.ensure_kind h k = Ok tt <-> ObjectHash.kind h = k).
Proof.
  split; [|split; [|split]].
  - intros Hp. by apply from_hex_for_kind_Ok in Hp as (? & ? & _).
  - intros Hp. by apply from_bytes_for_kind_Ok in Hp as (_ & ? & ?).
  - unfold ObjectHash.from_tagged_str. destruct (split_at 58 s) as [[tag hex]|] eqn:E; [|discriminate].
    cbn [ok_or rbind]. destruct (HashKind.from_str tag) as [k'| | |] eqn:Ek; cbn [map_err rbind]; try discriminate.
    intros Hp. apply from_hex_for_kind_Ok in Hp as (Hk & Hwf & _). apply split_at_Some in E as [-> _].
    exists tag, hex. rewrite Hk. done.
  - unfold ObjectHash.ensure_kind. case_bool_decide; [done|]. split; [discriminate|done].
Qed.

Lemma object_hash_fail_closed_witness :
  let h := ObjectHash.Sha1 (repeat 10 20) in
  let s := @ObjectHash.to_tagged_string hex_reference h in
  (@ObjectHash.from_hex_for_kind hex_reference HashKind.Sha1 s = Ok h ->
   ObjectHash.kind h = HashKind.Sha1 /\ hash_wf h)
  /\ (ObjectHash.from_bytes_for_kind HashKind.Sha1 s = Ok h ->
      ObjectHash.kind h = HashKind.Sha1 /\ ObjectHash.to_data h = s)
  /\ (@ObjectHash.from_tagged_str hex_reference s = Ok h ->
      exists tag hex, s = tag ++ str ":" ++ hex /\ HashKind.from_str tag = Ok (ObjectHash.kind h) /\ hash_wf h)
  /\ (ObjectHash.ensure_kind h HashKind.Sha1 = Ok tt <-> ObjectHash.kind h = HashKind.Sha1).
Proof. apply (@object_hash_fail_closed hex_reference hex_reference_laws). Defined.

(** * Object identifiers *)

(** The bytes whose digest is an object's identifier. *)
Definition loose_object (label data : bytes) : bytes :=
  label ++ str " " ++ show_dec (blen data) ++ [0] ++ data.

Section object_ids.
Context `{HasherLaws}.

Lemma update_app h a b :
  HashAlgorithm_update (HashAlgorithm_update h a) b = HashAlgorithm_update h (a ++ b).
Proof. unfold HashAlgorithm_update. cbn. by rewrite hasher_update_app. Qed.

Lemma from_type_and_data_for_kind_eq k ty data label :
  ObjectType.to_bytes ty = Some label ->
  from_type_and_data_for_kind k ty data = Ok (ObjectHash_new_for_kind k (loose_object label data)).
Proof.
  intros E. unfold from_type_and_data_for_kind. rewrite E. cbn [ok_or rbind].
  rewrite !update_app. reflexivity.
Qed.

Lemma hash_loose_object_eq k label data :
  blen data <= usize_max ->
  hash_loose_object (HashAlgorithm_new_for_kind k) label data
  = Ok (ObjectHash_new_for_kind k (loose_object label data)).
Proof.
  intros Hlen. unfold hash_loose_object. pose proof (blen_nonneg data).
  rewrite decimal_usize_bytes_show by (change (blen (repeat 0 20)) with 20; unfold usize_max in Hlen; lia).
  cbn [rbind]. rewrite !update_app. reflexivity.
Qed.

Lemma to_data_to_bytes ty :
  match ObjectType.to_bytes ty with
  | Some l => ObjectType.to_data ty = Ok l
  | None => exists e, ObjectType.to_data ty = Err e
  end.
Proof. destruct ty; cbn; eauto. Qed.

Lemma ObjectHash_new_for_kind_wf k data :
  ObjectHash.kind (ObjectHash_new_for_kind k data) = k /\ hash_wf (ObjectHash_new_for_kind k data).
Proof.
  unfold ObjectHash_new_for_kind, HashAlgorithm_finalize_object_hash.
  pose proof (hasher_finalize_size k (hasher_update (hasher_new k) data)) as [Hs Hb].
  destruct k; cbn in *; split; try done; split; cbn; done.
Qed.

End object_ids.

(** the four ways the crate computes an object identifier agree: each is the
    digest of ["<type> <length>\0<data>"], of the requested kind and well formed.
    A delta type has no identifier: the fallible functions refuse it, the legacy
    ones panic. *)
Theorem object_ids_agree `{HasherLaws} (k : HashKind.t) (ty : ObjectType.t) (data : bytes) :
  blen data <= usize_max ->
  match ObjectType.to_bytes ty with
  | Some label =>
      exists id, id = ObjectHash_new_for_kind k (loose_object label data)
        /\ ObjectHash.kind id = k /\ hash_wf id
        /\ from_type_and_data_for_kind k ty data = Ok id
        /\ calculate_object_hash_for_kind k ty data = Ok id
        /\ from_type_and_data k ty data = Ok id
        /\ calculate_object_hash k ty data = Ok id
  | None =>
      (exists e, from_type_and_data_for_kind k ty data = Err e)
      /\ (exists e, calculate_object_hash_for_kind k ty data = Err e)
      /\ from_type_and_data k ty data = Panic /\ calculate_object_hash k ty data = Panic
  end.
Proof.
  intros Hlen. pose proof (to_data_to_bytes ty) as Htd.
  destruct (ObjectType.to_bytes ty) as [label|] eqn:E.
  - eexists. split; [reflexivity|].
    destruct (ObjectHash_new_for_kind_wf k (loose_object label data)) as [Hk Hwf].
    split; [done|]. split; [done|]. split; [by apply from_type_and_data_for_kind_eq|].
    unfold calculate_object_hash_for_kind, calculate_object_hash, from_type_and_data.
    rewrite E, Htd. cbn [ok_or or_panic unwrap rbind].
    rewrite hash_loose_object_eq by done. cbn [unwrap].
    split; [done|]. split; [|done]. by rewrite <- !app_assoc.
  - destruct Htd as [e He].
    unfold from_type_and_data_for_kind, calculate_object_hash_for_kind, calculate_object_hash, from_type_and_data.
    rewrite E, He. cbn. split; [by eexists|]. split; [by eexists|]. done.
Qed.

(** A hasher that keeps its input and truncates or pads it. *)
Definition toy_hasher : Hasher := {|
  hasher := fun _ => bytes;
  hasher_new := fun _ => [];
  hasher_update := fun _ st d => st ++ d;
  hasher_finalize := fun k st =>
    take (Z.to_nat (HashKind.size k)) (map (fun b => b mod 256) st ++ repeat 0 32)
|}.

Lemma toy_hasher_laws : @HasherLaws toy_hasher.
Proof.
  split.
  - intros k st a b. cbn. by rewrite app_assoc.
  - intros k st. cbn [hasher_finalize toy_hasher]. split.
    + unfold blen. rewrite length_take, length_app, repeat_length. destruct k; cbn [HashKind.size]; lia.
    + apply Forall_take, Forall_app. split.
      * apply Forall_map, Forall_true. intros b. apply mod_byte.
      * repeat constructor; unfold is_byte; lia.
Qed.

Lemma object_ids_agree_witness :
  exists id, id = @ObjectHash_new_for_kind toy_hasher HashKind.Sha1 (loose_object (str "blob") [104; 105])
    /\ ObjectHash.kind id = HashKind.Sha1 /\ hash_wf id
    /\ @from_type_and_data_for_kind toy_hasher HashKind.Sha1 ObjectType.Blob [104; 105] = Ok id
    /\ @calculate_object_hash_for_kind toy_hasher HashKind.Sha1 ObjectType.Blob [104; 105] = Ok id
    /\ @from_type_and_data toy_hasher HashKind.Sha1 ObjectType.Blob [104; 105] = Ok id
    /\ @calculate_object_hash toy_hasher HashKind.Sha1 ObjectType.Blob [104; 105] = Ok id.
Proof.
  apply (@object_ids_agree toy_hasher toy_hasher_laws HashKind.Sha1 ObjectType.Blob [104; 105]).
  vm_compute. discriminate.
Defined.

(** * Streams *)

(** The data a sequence of read events delivers; interruptions deliver none. *)
Fixpoint stream_data (evs : list ReadEvent) : bytes :=
  match evs with
  | Chunk d :: evs => d ++ stream_data evs
  | Interrupted :: evs => stream_data evs
  | Failed _ :: _ | [] => []
  end.

(** No failure, and no empty chunk (which a reader uses for end of file). *)
Definition calm (ev : ReadEvent) : Prop :=
  match ev with Chunk d => d <> [] | Interrupted => True | Failed _ => False end.

Lemma fill_loop_calm fuel k expected buf evs :
  Forall calm evs -> blen buf <= expected -> (S (length evs) < fuel)%nat ->
  exists evs', fill_loop fuel k expected buf evs
    = Ok (buf ++ take (Z.to_nat (expected - blen buf)) (stream_data evs), evs')
    /\ stream_data evs' = drop (Z.to_nat (expected - blen buf)) (stream_data evs).
Proof.
  intros Hc. revert buf fuel. induction Hc as [|ev evs Hev Hc IH]; intros buf fuel Hb Hf;
    (destruct fuel as [|fuel]; [lia|]); cbn [fill_loop].
  - exists []. destruct (blen buf <? expected) eqn:E; cbn; rewrite take_nil, drop_nil, app_nil_r; done.
  - destruct (blen buf <? expected) eqn:E.
    2:{ exists (ev :: evs). replace (Z.to_nat (expected - blen buf)) with 0%nat by lia.
        by rewrite take_0, drop_0, app_nil_r. }
    cbn [length] in Hf. destruct ev as [d| |e]; cbn [read_some stream_data calm] in *; [| |done].
    2:{ apply IH; lia. }
    set (n := Z.to_nat (expected - blen buf)). assert (Hn : (0 < n)%nat) by lia.
    destruct (blen d <=? expected - blen buf) eqn:Ed.
    + assert (Hd : (length d <= n)%nat) by (unfold n, blen in *; lia).
      rewrite take_app_ge, drop_app_ge by done.
      replace (n - length d)%nat with (Z.to_nat (expected - blen (buf ++ d)))
        by (rewrite blen_app; unfold n, blen in *; lia).
      destruct (IH (buf ++ d) fuel) as (evs' & E1 & E2); [rewrite blen_app; lia|lia|].
      exists evs'. split; [|done]. rewrite <- app_assoc in E1. destruct d; done.
    + assert (Hd : (n < length d)%nat) by (unfold n, blen in *; lia).
      rewrite take_app_le, drop_app_le by lia.
      assert (Htake : length (take n d) = n) by (rewrite length_take; lia).
      assert (Hfull : blen (buf ++ take n d) = expected) by (rewrite blen_app; unfold n, blen in *; lia).
      exists (Chunk (drop n d) :: evs). split; [|done].
      destruct (take n d) as [|x t] eqn:Et; [cbn in Htake; lia|].
      destruct fuel as [|fuel]; [lia|]. cbn [fill_loop].
      by replace (blen (buf ++ x :: t) <? expected) with false by lia.
Qed.

(** reading an identifier does not depend on how the reader cuts its data
    into pieces or on interruptions: it takes exactly the bytes of the kind's size
    and leaves the others, or reports how many bytes there were. *)
Theorem from_stream_for_kind_chunks (k : HashKind.t) (evs : list ReadEvent) :
  Forall calm evs ->
  if HashKind.size k <=? blen (stream_data evs)
  then exists h evs', from_stream_for_kind k evs = Ok (h, evs')
       /\ ObjectHash.kind h = k /\ stream_data evs = ObjectHash.as_ref h ++ stream_data evs'
       /\ blen (ObjectHash.as_ref h) = HashKind.size k
  else from_stream_for_kind k evs
       = Err (InvalidLength (str "from_stream_for_kind") k (HashKind.size k) (blen (stream_data evs))).
Proof.
  intros Hc. unfold from_stream_for_kind.
  assert (Hk : 0 < HashKind.size k) by (destruct k; cbn; lia).
  destruct (fill_loop_calm (S (S (length evs))) k (HashKind.size k) [] evs Hc) as (evs' & -> & Hrest);
    [change (blen (@nil Z)) with 0; lia|lia|].
  cbn [rbind app]. change (blen (@nil Z)) with 0 in *. rewrite Z.sub_0_r in *.
  set (n := Z.to_nat (HashKind.size k)) in *. set (d := stream_data evs) in *.
  destruct (HashKind.size k <=? blen d) eqn:E.
  - assert (Hl : blen (take n d) = HashKind.size k) by (unfold blen in *; rewrite length_take; lia).
    rewrite Hl, Z.eqb_refl. cbn [negb].
    destruct (ObjectHash.from_bytes_for_kind k (take n d)) as [h| | |] eqn:Eh;
      [|exfalso; unfold ObjectHash.from_bytes_for_kind in Eh; rewrite Hl, Z.eqb_refl in Eh; discriminate..].
    apply from_bytes_for_kind_Ok in Eh as (_ & Hkind & Href). cbn [rbind].
    exists h, evs'. rewrite Href, Hrest, take_drop. done.
  - assert (Ht : take n d = d) by (apply take_ge; unfold blen in *; lia). rewrite Ht.
    by replace (blen d =? HashKind.size k) with false by lia.
Qed.

Lemma from_stream_for_kind_chunks_witness :
  let evs := [Chunk (repeat 1 7); Interrupted; Chunk (repeat 2 20)] in
  exists h evs', from_stream_for_kind HashKind.Sha1 evs = Ok (h, evs')
    /\ ObjectHash.kind h = HashKind.Sha1
    /\ stream_data evs = ObjectHash.as_ref h ++ stream_data evs'
    /\ blen (ObjectHash.as_ref h) = HashKind.size HashKind.Sha1.
Proof.
  apply (from_stream_for_kind_chunks HashKind.Sha1 [Chunk (repeat 1 7); Interrupted; Chunk (repeat 2 20)]).
  repeat constructor; discriminate.
Defined.

(** * Text conversions the object parsers call *)

(** [Display] of a [HashError] (generated by thiserror) and of a [FromUtf8Error],
    [{:?}] of a string, [String::from_utf8_lossy], and encoding_rs' GBK decoder,
    which fails on malformed input.  They only shape error texts and foreign names. *)
Class TextEnv := {
  hash_error_text : HashError -> bytes;
  utf8_error_text : bytes -> bytes;
  debug_str : bytes -> bytes;
  from_utf8_lossy : bytes -> bytes;
  gbk_decode : bytes -> option bytes
}.

(** [From<HashError> for GitError]. *)
Definition GitError_from `{TextEnv} (err : HashError) : GitError := InvalidHashValue (hash_error_text err).

(** An environment for concrete runs. *)
Definition plain_texts : TextEnv := {|
  hash_error_text := fun _ => [];
  utf8_error_text := fun _ => [];
  debug_str := fun s => s;
  from_utf8_lossy := fun s => s;
  gbk_decode := fun _ => None
|}.
