(* ===== verification/Inflate.v ===== *)
(** The inflating and hashing reader, [ReadBoxed] of [src/internal/zlib/stream/inflate.rs].

    The inner [BufRead] is the sequence of events its [fill_buf] meets ([ReadEvent]);
    the zlib decompressor of the flate2 crate is a parameter ([Decompress]) with the
    behaviour zlib documents ([DecompressLaws]): what it has still to read and to
    write shrinks with every call, it reports the end of the stream when both are
    done, and it makes progress when it has input and room. *)

From Stdlib Require Import ZArith Lia String.
From stdpp Require Import base tactics list numbers option.
From S2P Require Import Prelude Stream Text Errors ObjectTypes PackUtils Hash.

(** * The decompressor *)

(** [Result<Status, DecompressError>]. *)
Inductive Status : Type := StatusOk | StatusBufError | StatusStreamEnd | DecompressError.

#[export] Instance Status_eq_dec : EqDecision Status.
Proof. solve_decision. Defined.

(** [decompress st input room finish] is the next state, the bytes written, the number
    of input bytes consumed ([total_in] and [total_out] before and after), and the status. *)
Class Decompress := {
  inflater : Type;
  inflater_new : inflater;
  decompress : inflater -> bytes -> Z -> bool -> inflater * bytes * Z * Status
}.

(** [pending st z out]: in state [st] the compressed bytes [z] are still to be read and
    the bytes [out] still to be written. *)
Class DecompressLaws `{Decompress} (deflated : bytes -> bytes -> Prop)
  (pending : inflater -> bytes -> bytes -> Prop) : Prop := {
  pending_new : forall z out, deflated z out -> pending inflater_new z out;
  decompress_step : forall st z out input more rest room finish st' w c ret,
    pending st z out -> z ++ rest = input ++ more -> 0 <= room ->
    decompress st input room finish = (st', w, c, ret) ->
    exists z1 z' out', z = z1 ++ z' /\ c = blen z1 /\ c <= blen input
      /\ out = w ++ out' /\ blen w <= room /\ pending st' z' out'
      /\ ret <> DecompressError /\ (ret = StatusStreamEnd <-> z' = [] /\ out' = [])
      /\ (ret <> StatusStreamEnd -> 0 < room -> input <> [] \/ z = [] -> 0 < c \/ w <> [])
}.

(** * The inner reader *)

(** [BufRead::fill_buf]: the bytes buffered, which stay until they are consumed. *)
Definition fill_buf (rd : list ReadEvent) : ReadResult * list ReadEvent :=
  match rd with
  | [] => (Got [], [])
  | Chunk d :: _ => (Got d, rd)
  | Interrupted :: rd => (GotInterrupted, rd)
  | Failed e :: rd => (GotError e, rd)
  end.

(** [BufRead::consume]. *)
Definition consume (n : Z) (rd : list ReadEvent) : list ReadEvent :=
  match rd with
  | Chunk d :: rd' =>
      if blen d <=? n then rd' else Chunk (drop (Z.to_nat n) d) :: rd'
  | _ => rd
  end.

Inductive ReadFail : Type := FailInterrupted | FailIo (e : IoError).

Section reader.
Context `{Decompress}.

(** The loop of [read]; a failure leaves the reader and the decompressor where they are. *)
Fixpoint read_loop (fuel : nat) (rd : list ReadEvent) (state : inflater) (room : Z) (total_written : bytes)
  : Res ReadFail bytes * (list ReadEvent * inflater) :=
  match fuel with
  | O => (OutOfFuel, (rd, state))
  | S fuel =>
      match fill_buf rd with
      | (GotInterrupted, rd) => (Err FailInterrupted, (rd, state))
      | (GotError e, rd) => (Err (FailIo e), (rd, state))
      | (Got input, rd) =>
          let eof := bool_decide (input = []) in
          let '(state, written, consumed, ret) := decompress state input room eof in
          if room <? blen written then (Panic, (rd, state))
          else
            let total_written := total_written ++ written in
            let room := room - blen written in
            let rd := consume consumed rd in
            match ret with
            | StatusStreamEnd => (Ok total_written, (rd, state))
            | StatusOk | StatusBufError =>
                if eof || (room =? 0) then (Ok total_written, (rd, state))
                else if negb (consumed =? 0) || negb (blen written =? 0)
                then read_loop fuel rd state room total_written
                else (Panic, (rd, state))
            | DecompressError => (Err (FailIo (OtherIo "corrupt deflate stream")), (rd, state))
            end
      end
  end.

(** [read] into a buffer of [room] bytes.  Every round that goes on has consumed input
    or filled part of the buffer, which bounds the fuel. *)
Definition read (rd : list ReadEvent) (state : inflater) (room : Z)
  : Res ReadFail bytes * (list ReadEvent * inflater) :=
  read_loop (S (length (stream_data rd) + Z.to_nat room)) rd state room [].

Context `{TextEnv} `{Hasher}.

Record ReadBoxed : Type := mkReadBoxed {
  rb_inner : list ReadEvent;
  rb_decompressor : inflater;
  count_hash : bool;
  rb_hash : HashAlgorithm
}.

Definition with_header (inner : list ReadEvent) (hash : HashAlgorithm) (type_bytes : bytes) (size : Z) : ReadBoxed :=
  let hash := HashAlgorithm_update hash type_bytes in
  let hash := HashAlgorithm_update hash (str " ") in
  let hash := HashAlgorithm_update hash (show_dec size) in
  let hash := HashAlgorithm_update hash [0] in
  mkReadBoxed inner inflater_new true hash.

Definition ReadBoxed_new_with_kind (inner : list ReadEvent) (obj_type : ObjectType.t) (size : Z) (kind : HashKind.t)
  : Res GitError ReadBoxed :=
  let! type_bytes :=
    ok_or (ObjectType.to_bytes obj_type)
      (GitError_from (UnsupportedObjectType (str "ReadBoxed::new_with_kind") kind obj_type
         (HashKind.size kind) 0 size)) in
  Ok (with_header inner (HashAlgorithm_new_for_kind kind) type_bytes size).

Definition ReadBoxed_new (current : HashKind.t) (inner : list ReadEvent) (obj_type : ObjectType.t) (size : Z)
  : Res Empty_set ReadBoxed :=
  let! type_bytes := or_panic (ObjectType.to_bytes obj_type) in
  Ok (with_header inner (HashAlgorithm_new_for_kind current) type_bytes size).

Definition new_for_delta_with_kind (inner : list ReadEvent) (kind : HashKind.t) : ReadBoxed :=
  mkReadBoxed inner inflater_new false (HashAlgorithm_new_for_kind kind).

Definition new_for_delta (current : HashKind.t) (inner : list ReadEvent) : ReadBoxed :=
  new_for_delta_with_kind inner current.

Definition hash_kind (r : ReadBoxed) : HashKind.t := HashAlgorithm_kind (rb_hash r).

(** [Read::read]: what was delivered is hashed when [count_hash] is set. *)
Definition rb_read (r : ReadBoxed) (room : Z) : Res ReadFail bytes * ReadBoxed :=
  let '(o, (inner, dec)) := read (rb_inner r) (rb_decompressor r) room in
  match o with
  | Ok d => (Ok d, mkReadBoxed inner dec (count_hash r)
                     (if count_hash r then HashAlgorithm_update (rb_hash r) d else rb_hash r))
  | e => (e, mkReadBoxed inner dec (count_hash r) (rb_hash r))
  end.

(** [Read::read_to_end]: reads until nothing is delivered, and again after an
    interruption; [rooms k] is the spare capacity offered to the [k]-th call. *)
Fixpoint read_to_end (fuel : nat) (rooms : nat -> Z) (r : ReadBoxed) (acc : bytes)
  : Res IoError bytes * ReadBoxed :=
  match fuel with
  | O => (OutOfFuel, r)
  | S fuel =>
      match rb_read r (rooms O) with
      | (Ok d, r) =>
          if bool_decide (d = []) then (Ok acc, r)
          else read_to_end fuel (fun k => rooms (S k)) r (acc ++ d)
      | (Err FailInterrupted, r) => read_to_end fuel (fun k => rooms (S k)) r acc
      | (Err (FailIo e), r) => (Err e, r)
      | (Panic, r) => (Panic, r)
      | (OutOfFuel, r) => (OutOfFuel, r)
      end
  end.

End reader.

(** * Reading a whole stream *)

(** Only data, in pieces that are not empty. *)
Definition steady (ev : ReadEvent) : Prop := match ev with Chunk d => d <> [] | _ => False end.

Lemma fill_buf_steady rd :
  Forall steady rd ->
  exists input more, fill_buf rd = (Got input, rd) /\ stream_data rd = input ++ more
    /\ (input = [] -> rd = [] /\ stream_data rd = [])
    /\ forall c, 0 <= c <= blen input ->
       Forall steady (consume c rd) /\ stream_data (consume c rd) = drop (Z.to_nat c) (stream_data rd).
Proof.
  intros [|ev rd' Hev Hrd].
  - exists [], []. split; [done|]. split; [done|]. split; [done|]. intros c _. cbn. by rewrite drop_nil.
  - destruct ev as [d| |e]; try done. cbn [steady] in Hev. exists d, (stream_data rd').
    split; [done|]. split; [done|]. split; [done|]. intros c Hc. cbn [consume stream_data].
    destruct (blen d <=? c) eqn:E.
    + split; [done|]. rewrite drop_app_ge by (unfold blen in *; lia).
      by replace (Z.to_nat c - length d)%nat with 0%nat by (unfold blen in *; lia).
    + assert ((Z.to_nat c < length d)%nat) by (unfold blen in *; lia). split.
      * constructor; [|done]. cbn. intros Hnil. apply (f_equal length) in Hnil. rewrite length_drop in Hnil. cbn in Hnil. lia.
      * cbn [stream_data]. by rewrite drop_app_le by lia.
Qed.

Section reading.
Context `{DecompressLaws deflated pending}.

(** One call of [read] delivers the next bytes of the output, and delivers nothing only
    at the end of the stream. *)
Lemma read_loop_ok fuel rd st z out rest room acc :
  Forall steady rd -> stream_data rd = z ++ rest -> pending st z out -> 0 < room ->
  (length (stream_data rd) + Z.to_nat room < fuel)%nat ->
  exists d rd' st' z' out', read_loop fuel rd st room acc = (Ok (acc ++ d), (rd', st'))
    /\ out = d ++ out' /\ Forall steady rd' /\ stream_data rd' = z' ++ rest /\ pending st' z' out'
    /\ (acc ++ d = [] -> z' = [] /\ out' = []) /\ blen d <= room.
Proof.
  revert rd st z out room acc. induction fuel as [|fuel IH]; intros rd st z out room acc Hrd Hz Hp Hroom Hf; [lia|].
  destruct (fill_buf_steady rd Hrd) as (input & more & Hfill & Hin & Hempty & Hcons).
  cbn [read_loop]. rewrite Hfill.
  destruct (decompress st input room (bool_decide (input = []))) as [[[st1 w] c] ret] eqn:Hd.
  destruct (decompress_step st z out input more rest room (bool_decide (input = [])) st1 w c ret Hp) as
    (z1 & z' & out' & -> & Hc & Hci & -> & Hw & Hp' & Herr & Hend & Hprog); [congruence|lia|done|].
  assert (Hc0 : 0 <= c <= blen input) by (subst c; pose proof (blen_nonneg z1); lia).
  destruct (Hcons c Hc0) as [Hrd' Hz']. clear Hcons.
  assert (Hrest : stream_data (consume c rd) = z' ++ rest).
  { rewrite Hz', Hz, <- app_assoc, Hc. apply drop_blen_app. }
  replace (room <? blen w) with false by lia.
  destruct (decide (ret = StatusStreamEnd)) as [->|Hne].
  { exists w, (consume c rd), st1, z', out'. destruct Hend as [Hend _]. repeat split; try done; by apply Hend. }
  assert (Hgo : input <> [] \/ z1 ++ z' = []).
  { destruct (decide (input = [])) as [->|]; [right|by left]. destruct Hempty as [_ Hnil]; [done|].
    rewrite Hz in Hnil. by apply app_eq_nil in Hnil as [? _]. }
  specialize (Hprog Hne Hroom Hgo).
  destruct (bool_decide (input = []) || (room - blen w =? 0)) eqn:Hstop.
  - exists w, (consume c rd), st1, z', out'. split; [by destruct ret|]. do 4 (split; [done|]).
    split; [|done]. intros Hnil. apply app_eq_nil in Hnil as [_ ->]. exfalso. apply orb_true_iff in Hstop as [Hs|Hs].
    + apply bool_decide_eq_true_1 in Hs as ->. change (blen (@nil Z)) with 0 in Hci. destruct Hprog; [lia|done].
    + change (blen (@nil Z)) with 0 in Hs. lia.
  - assert (Hpos : negb (c =? 0) || negb (blen w =? 0) = true).
    { destruct Hprog as [?|Hw']; [lia|]. destruct w; [done|]. rewrite blen_cons. pose proof (blen_nonneg w). lia. }
    rewrite Hpos. destruct (IH (consume c rd) st1 z' out' (room - blen w) (acc ++ w)) as
      (d & rd' & st' & z'' & out'' & E & -> & ? & ? & ? & Hnil & Hd'); try done.
    + apply orb_false_iff in Hstop as [_ ?]. lia.
    + rewrite Hz', length_drop. pose proof (blen_nonneg w).
      rewrite Hin, length_app in *. unfold blen in *. lia.
    + exists (w ++ d), rd', st', z'', out''. rewrite !app_assoc. split; [destruct ret; done|].
      rewrite <- !app_assoc in *. do 5 (split; [done|]). rewrite blen_app. lia.
Qed.

Context `{TextEnv} `{HasherLaws}.

Lemma read_to_end_ok fuel rooms (r : ReadBoxed) z out rest acc :
  Forall steady (rb_inner r) -> stream_data (rb_inner r) = z ++ rest ->
  pending (rb_decompressor r) z out -> (forall k, 0 < rooms k) -> (length out < fuel)%nat ->
  exists r', read_to_end fuel rooms r acc = (Ok (acc ++ out), r')
    /\ Forall steady (rb_inner r') /\ stream_data (rb_inner r') = rest /\ count_hash r' = count_hash r
    /\ rb_hash r' = if count_hash r then HashAlgorithm_update (rb_hash r) out else rb_hash r.
Proof.
  revert rooms r z out acc. induction fuel as [|fuel IH]; intros rooms r z out acc Hrd Hz Hp Hrooms Hf; [lia|].
  cbn [read_to_end]. unfold rb_read, read.
  destruct (read_loop_ok (S (length (stream_data (rb_inner r)) + Z.to_nat (rooms O))) (rb_inner r)
    (rb_decompressor r) z out rest (rooms O) []) as (d & rd' & st' & z' & out' & -> & -> & Hrd' & Hz' & Hp' & Hnil & _);
    [done..|lia|].
  cbn [app] in *. case_bool_decide as Hd.
  - destruct (Hnil Hd) as [-> ->]. subst d. cbn [app] in *. rewrite app_nil_r.
    eexists. split; [reflexivity|]. cbn. done.
  - destruct (IH (fun k => rooms (S k))
      (mkReadBoxed rd' st' (count_hash r) (if count_hash r then HashAlgorithm_update (rb_hash r) d else rb_hash r))
      z' out' (acc ++ d)) as (r' & E & Hs & Hrest & Hch & Hh); try done.
    { rewrite length_app in Hf. destruct d; [done|]. cbn [length] in Hf. lia. }
    exists r'. rewrite E, <- app_assoc. do 4 (split; [done|]). rewrite Hh. cbn [count_hash rb_hash].
    destruct (count_hash r); [|done]. by rewrite update_app.
Qed.

End reading.

(** the inflating reader delivers exactly the data of its stream, whatever pieces
    the compressed bytes arrive in and whatever buffers the caller offers; it leaves
    the bytes after the stream in the inner reader, and hashes the data exactly when
    it reads an object that is not a delta. *)
Theorem inflate_exact `{DecompressLaws deflated pending} `{HasherLaws} (r : ReadBoxed) (z out rest : bytes)
  (rooms : nat -> Z) (fuel : nat) :
  deflated z out -> rb_decompressor r = inflater_new ->
  Forall steady (rb_inner r) -> stream_data (rb_inner r) = z ++ rest ->
  (forall k, 0 < rooms k) -> (length out < fuel)%nat ->
  exists r', read_to_end fuel rooms r [] = (Ok out, r')
    /\ stream_data (rb_inner r') = rest
    /\ rb_hash r' = if count_hash r then HashAlgorithm_update (rb_hash r) out else rb_hash r.
Proof.
  intros Hz Hnew Hrd Hdata Hrooms Hfuel.
  destruct (read_to_end_ok fuel rooms r z out rest []) as (r' & E & _ & Hrest & _ & Hh); try done.
  - rewrite Hnew. by apply pending_new.
  - by exists r'.
Qed.

(** A compressed format for concrete runs: one byte with the length, then the data. *)
Inductive Stored : Type := StoredStart | StoredBody (n : Z).

Definition stored_body (n : Z) (input : bytes) (room c : Z) : Stored * bytes * Z * Status :=
  let k := Z.min n (Z.min (blen input) room) in
  (StoredBody (n - k), take (Z.to_nat k) input, c + k, if n - k =? 0 then StatusStreamEnd else StatusOk).

Definition stored_inflater : Decompress := {|
  inflater := Stored;
  inflater_new := StoredStart;
  decompress := fun st input room _ =>
    match st, input with
    | StoredStart, [] => (StoredStart, [], 0, StatusBufError)
    | StoredStart, n :: input => stored_body n input room 1
    | StoredBody n, _ => stored_body n input room 0
    end
|}.

Definition stored (z out : bytes) : Prop := z = blen out :: out.

Definition stored_pending (st : @inflater stored_inflater) (z out : bytes) : Prop :=
  match st with StoredStart => stored z out | StoredBody n => z = out /\ n = blen out end.

Lemma stored_body_step (out input more rest : bytes) room :
  out ++ rest = input ++ more -> 0 <= room ->
  let k := Z.min (blen out) (Z.min (blen input) room) in
  exists w out', out = w ++ out' /\ take (Z.to_nat k) input = w /\ k = blen w
    /\ blen out - k = blen out' /\ ((blen out - k =? 0) = true <-> out' = []).
Proof.
  intros Heq Hroom k. pose proof (blen_nonneg out). pose proof (blen_nonneg input).
  assert (Htake : take (Z.to_nat k) input = take (Z.to_nat k) out).
  { rewrite <- (take_app_le input more), <- (take_app_le out rest) by (unfold k, blen in *; lia). by rewrite Heq. }
  exists (take (Z.to_nat k) out), (drop (Z.to_nat k) out). rewrite take_drop, Htake.
  assert (Hk : blen (take (Z.to_nat k) out) = k) by (unfold k, blen in *; rewrite length_take; lia).
  assert (Hd : blen (drop (Z.to_nat k) out) = blen out - k) by (apply blen_drop; unfold k; lia).
  repeat split; try done.
  - intros Hz. destruct (drop _ _); [done|]. rewrite blen_cons in Hd. pose proof (blen_nonneg l). lia.
  - intros Hz. rewrite Hz in Hd. change (blen (@nil Z)) with 0 in Hd. lia.
Qed.

Lemma stored_body_ok (z out rest input more input0 : bytes) room c0 st' w c ret :
  0 <= room -> out ++ rest = input0 ++ more -> 0 <= c0 -> (c0 = 0 -> z = out) ->
  input = take (Z.to_nat c0) z ++ input0 -> blen (take (Z.to_nat c0) z) = c0 -> z = take (Z.to_nat c0) z ++ out ->
  stored_body (blen out) input0 room c0 = (st', w, c, ret) ->
  exists z1 z' out', z = z1 ++ z' /\ c = blen z1 /\ c <= blen input
    /\ out = w ++ out' /\ blen w <= room /\ stored_pending st' z' out'
    /\ ret <> DecompressError /\ (ret = StatusStreamEnd <-> z' = [] /\ out' = [])
    /\ (ret <> StatusStreamEnd -> 0 < room -> input <> [] \/ z = [] -> 0 < c \/ w <> []).
Proof.
  intros Hroom Heq0 Hc0 Hz0 Hin Hlen Hz Hb. unfold stored_body in Hb.
  destruct (stored_body_step out input0 more rest room Heq0 Hroom) as (w' & out' & Ho & Hw & Hk & Hrem & Hend).
  set (k := Z.min (blen out) (Z.min (blen input0) room)) in *.
  injection Hb as <- <- <- <-. rewrite Hw. exists (take (Z.to_nat c0) z ++ w'), out', out'.
  pose proof (blen_nonneg w'). split; [rewrite <- app_assoc, <- Ho; done|].
  split; [rewrite blen_app; lia|]. split; [rewrite Hin, blen_app; unfold k in *; lia|].
  split; [done|]. split; [lia|]. split; [done|].
  destruct (blen out - k =? 0) eqn:E; split; try done; split; try tauto; try done.
  - split; [done|]. intros [_ Hn]. apply Hend in Hn. discriminate.
  - intros _ Hr Hgo. destruct (decide (c0 = 0)) as [->|]; [|lia]. right. intros ->.
    change (blen (@nil Z)) with 0 in Hk. assert (Hin0 : input0 = input) by done.
    rewrite Hin0 in *. rewrite (Hz0 eq_refl) in Hgo.
    destruct out as [|y out]; [change (blen (@nil Z)) with 0 in E; lia|].
    destruct input as [|x input]; [destruct Hgo; done|].
    unfold k in Hk. rewrite Hin0, !blen_cons in Hk. pose proof (blen_nonneg input). pose proof (blen_nonneg out). lia.
Qed.

Lemma stored_laws : @DecompressLaws stored_inflater stored stored_pending.
Proof.
  split; [done|]. intros st z out input more rest room finish st' w c ret Hp Heq Hroom Hd.
  destruct st as [|n]; cbn [stored_pending] in Hp.
  - unfold stored in Hp. subst z. destruct input as [|x input]; cbn in Hd.
    + injection Hd as <- <- <- <-. exists [], (blen out :: out), out. change (blen (@nil Z)) with 0.
      split; [done|]. split; [done|]. split; [lia|]. split; [done|]. split; [lia|]. split; [done|]. split; [done|].
      split; [split; [done|by intros [? _]]|]. by intros _ _ [?|?].
    + cbn [app] in Heq. injection Heq as <- Heq.
      by apply (stored_body_ok (blen out :: out) out rest (blen out :: input) more input room 1).
  - destruct Hp as [-> ->]. by apply (stored_body_ok out out rest input more input room 0).
Qed.

Definition sample_stream : list ReadEvent := [Chunk [4; 10]; Chunk [11; 12; 13; 77]; Chunk [78]].

Lemma inflate_exact_witness :
  exists r', @read_to_end stored_inflater toy_hasher 9 (fun _ => 3)
      (@mkReadBoxed stored_inflater toy_hasher sample_stream StoredStart true
         (@HashAlgorithm_new_for_kind toy_hasher HashKind.Sha1)) []
    = (Ok [10; 11; 12; 13], r')
    /\ stream_data (rb_inner r') = [77; 78]
    /\ rb_hash r' = @HashAlgorithm_update toy_hasher (@HashAlgorithm_new_for_kind toy_hasher HashKind.Sha1) [10; 11; 12; 13].
Proof.
  apply (@inflate_exact stored_inflater stored stored_pending stored_laws toy_hasher toy_hasher_laws
    (@mkReadBoxed stored_inflater toy_hasher sample_stream StoredStart true
         (@HashAlgorithm_new_for_kind toy_hasher HashKind.Sha1))
    [4; 10; 11; 12; 13] [10; 11; 12; 13] [77; 78] (fun _ => 3) 9); try reflexivity.
  - repeat constructor; discriminate.
  - cbn. lia.
Defined.

(** an interruption of the inner reader, which [read_to_end] answers with another
    call, loses data: bytes already inflated by the interrupted call of [read] are
    dropped, so the content returned without an error is not the stream's. *)
Theorem inflate_interrupted_loses :
  exists (evs : list ReadEvent) (z out content : bytes) r',
    Forall calm evs /\ stream_data evs = z /\ stored z out
    /\ @read_to_end stored_inflater toy_hasher 9 (fun _ => 32)
         (@new_for_delta_with_kind stored_inflater toy_hasher evs HashKind.Sha1) [] = (Ok content, r')
    /\ content <> out.
Proof.
  exists [Chunk [4; 10; 11]; Interrupted; Chunk [12; 13]], [4; 10; 11; 12; 13], [10; 11; 12; 13], [12; 13].
  eexists. split; [repeat constructor; discriminate|]. split; [reflexivity|]. split; [reflexivity|].
  split; [vm_compute; reflexivity|discriminate].
Qed.
