(* ===== verification/ChannelReader.v ===== *)
(** The reader at the end of a channel, [src/internal/pack/channel_reader.rs], through which
    [decode_stream] hands the chunks of an asynchronous stream to the decoder. *)

From Stdlib Require Import ZArith Lia.
From stdpp Require Import base tactics list numbers option gmap.
From S2P Require Import Prelude.

(** The messages still in the channel, whose sender is gone after them, and what is left of the
    current one. *)
Record StreamBufReader : Type := mkStreamBufReader { receiver : list bytes; sbr_buffer : bytes }.

Definition StreamBufReader_new (receiver : list bytes) : StreamBufReader := mkStreamBufReader receiver [].

(** When the buffer has been read completely, the next message takes its place; [false] when
    the channel is closed. *)
Definition refill (r : StreamBufReader) : bool * StreamBufReader :=
  match sbr_buffer r with
  | [] => match receiver r with d :: ds => (true, mkStreamBufReader ds d) | [] => (false, r) end
  | _ => (true, r)
  end.

Definition sbr_consume (amt : Z) (r : StreamBufReader) : StreamBufReader :=
  mkStreamBufReader (receiver r) (drop (Z.to_nat amt) (sbr_buffer r)).

Definition sbr_fill_buf (r : StreamBufReader) : bytes * StreamBufReader :=
  match refill r with
  | (true, r) => (sbr_buffer r, r)
  | (false, r) => ([], r)
  end.

(** [read] into [room] bytes. *)
Definition sbr_read (room : Z) (r : StreamBufReader) : bytes * StreamBufReader :=
  match refill r with
  | (true, r) => (take (Z.to_nat room) (sbr_buffer r), sbr_consume room r)
  | (false, r) => ([], r)
  end.

(** The forwarding task of [decode_stream]: a failed chunk panics, which closes the channel. *)
Fixpoint forward {E} (stream : list (Res E bytes)) : list bytes :=
  match stream with
  | Ok data :: stream => data :: forward stream
  | _ => []
  end.

(** * What a client of the reader gets *)

(** Reads of the given sizes until one delivers nothing, which stands for the end. *)
Fixpoint read_until_end (fuel : nat) (rooms : nat -> Z) (r : StreamBufReader) : option bytes :=
  match fuel with
  | O => None
  | S fuel =>
      match sbr_read (rooms fuel) r with
      | ([], _) => Some []
      | (d, r) => (app d) <$> read_until_end fuel rooms r
      end
  end.

(** The same through [fill_buf] and [consume], [amt] bytes of the buffer at a time at most. *)
Fixpoint fill_until_end (fuel : nat) (amts : nat -> Z) (r : StreamBufReader) : option bytes :=
  match fuel with
  | O => None
  | S fuel =>
      match sbr_fill_buf r with
      | ([], _) => Some []
      | (buf, r) =>
          let n := Z.min (amts fuel) (blen buf) in
          (app (take (Z.to_nat n) buf)) <$> fill_until_end fuel amts (sbr_consume n r)
      end
  end.

(** The messages before the first empty one. *)
Fixpoint until_empty (ds : list bytes) : bytes :=
  match ds with
  | [] | [] :: _ => []
  | d :: ds => d ++ until_empty ds
  end.

Definition rest_of (r : StreamBufReader) : bytes :=
  match sbr_buffer r with [] => until_empty (receiver r) | b => b ++ until_empty (receiver r) end.

(** One step of either client: nothing at the end, otherwise a part of what is to come. *)
Lemma read_step room r : 0 < room ->
  match sbr_read room r with
  | ([], _) => rest_of r = []
  | (d, r') => rest_of r = d ++ rest_of r'
  end.
Proof.
  intros Hroom. destruct r as [ds b]. unfold sbr_read, refill, rest_of. cbn [sbr_buffer receiver].
  assert (Hgen : forall x (b : bytes) ds, take (Z.to_nat room) (x :: b) ++ match drop (Z.to_nat room) (x :: b) with [] => until_empty ds | y :: c => (y :: c) ++ until_empty ds end
    = (x :: b) ++ until_empty ds).
  { intros x b' ds'. rewrite <- (take_drop (Z.to_nat room) (x :: b')) at 3. rewrite <- app_assoc. f_equal. by destruct (drop _ _). }
  assert (Hpos : forall x (b : bytes), exists t, take (Z.to_nat room) (x :: b) = x :: t).
  { intros x b'. destruct (Z.to_nat room) eqn:E; [lia|]. by eexists. }
  destruct b as [|x b].
  - destruct ds as [|[|x d] ds]; cbn [sbr_consume sbr_buffer receiver]; [done|by destruct (Z.to_nat room)|].
    destruct (Hpos x d) as [t Ht]. rewrite Ht. cbn [until_empty]. rewrite <- (Hgen x d ds), Ht. done.
  - cbn [sbr_consume sbr_buffer receiver]. destruct (Hpos x b) as [t Ht]. rewrite Ht. rewrite <- (Hgen x b ds), Ht. done.
Qed.

(** [fill_buf] and [consume] amount to a [read]. *)
Lemma fill_step amt r : 0 < amt ->
  match sbr_fill_buf r with
  | ([], _) => rest_of r = []
  | (buf, r') => let n := Z.min amt (blen buf) in rest_of r = take (Z.to_nat n) buf ++ rest_of (sbr_consume n r') /\ take (Z.to_nat n) buf <> []
  end.
Proof.
  intros Hamt. destruct (sbr_fill_buf r) as [buf r'] eqn:E. set (n := Z.min amt (blen buf)).
  assert (Hread : forall m, sbr_read m r = (take (Z.to_nat m) buf, sbr_consume m r') \/ buf = [] /\ sbr_read m r = ([], r')).
  { intros m. unfold sbr_fill_buf in E. unfold sbr_read. destruct (refill r) as [[] r1]; injection E as <- <-; auto. }
  destruct buf as [|x buf].
  - pose proof (read_step 1 r ltac:(lia)) as Hs. destruct (Hread 1) as [Hr|[_ Hr]]; rewrite Hr in Hs; [by rewrite take_nil in Hs|done].
  - assert (Hn : 0 < n) by (unfold n; rewrite blen_cons; pose proof (blen_nonneg buf); lia).
    pose proof (read_step n r Hn) as Hs. destruct (Hread n) as [Hr|[? _]]; [|done]. rewrite Hr in Hs.
    destruct (Z.to_nat n) as [|k] eqn:Ek; [lia|]. cbn zeta. fold n. rewrite Ek. cbn [take] in *. done.
Qed.

Lemma read_until_end_ok fuel rooms r :
  (forall i, 0 < rooms i) -> (length (rest_of r) < fuel)%nat -> read_until_end fuel rooms r = Some (rest_of r).
Proof.
  intros Hrooms. revert r. induction fuel as [|fuel IH]; intros r Hf; [lia|]. cbn [read_until_end].
  pose proof (read_step (rooms fuel) r (Hrooms fuel)) as Hs. destruct (sbr_read (rooms fuel) r) as [[|x d] r']; rewrite Hs in *; [done|].
  rewrite length_app in Hf. cbn in Hf. rewrite IH by lia. done.
Qed.

Lemma fill_until_end_ok fuel amts r :
  (forall i, 0 < amts i) -> (length (rest_of r) < fuel)%nat -> fill_until_end fuel amts r = Some (rest_of r).
Proof.
  intros Hamts. revert r. induction fuel as [|fuel IH]; intros r Hf; [lia|]. cbn [fill_until_end].
  pose proof (fill_step (amts fuel) r (Hamts fuel)) as Hs. destruct (sbr_fill_buf r) as [[|x d] r']; [by rewrite Hs|]. cbn zeta in Hs.
  set (n := Z.min _ _) in *. destruct Hs as [Hs Hne]. rewrite Hs in Hf |- *. rewrite length_app in Hf.
  assert (0 < length (take (Z.to_nat n) (x :: d)))%nat by (destruct (take _ _); [done|cbn; lia]). rewrite IH by lia. done.
Qed.

(** the channel reader delivers the messages in order, whatever sizes its client reads or
    consumes, but only up to the first empty message: an empty chunk of the stream is taken for
    the end of the pack. *)
Theorem channel_stops_at_empty {E} (stream : list (Res E bytes)) (sizes : nat -> Z) (fuel : nat) :
  (forall i, 0 < sizes i) -> (length (until_empty (forward stream)) < fuel)%nat ->
  read_until_end fuel sizes (StreamBufReader_new (forward stream)) = Some (until_empty (forward stream))
  /\ fill_until_end fuel sizes (StreamBufReader_new (forward stream)) = Some (until_empty (forward stream)).
Proof. intros Hs Hf. split; [by apply read_until_end_ok|by apply fill_until_end_ok]. Qed.

(** A stream that is cut short by an empty chunk. *)
Lemma channel_stops_at_empty_witness :
  let stream := [@Ok bytes bytes [1; 2; 3]; Ok [4]; Ok []; Ok [5; 6]] in
  read_until_end 10 (fun _ => 2) (StreamBufReader_new (forward stream)) = Some [1; 2; 3; 4]
  /\ fill_until_end 10 (fun _ => 2) (StreamBufReader_new (forward stream)) = Some [1; 2; 3; 4].
Proof.
  apply (@channel_stops_at_empty bytes [Ok [1; 2; 3]; Ok [4]; Ok []; Ok [5; 6]] (fun _ => 2) 10); [reflexivity|vm_compute; lia].
Defined.
