(* ===== verification/PackIndex.v ===== *)
(** Pack index files, [src/internal/pack/pack_index.rs] and [index_entry.rs]: the
    version 2 writer [IdxBuilder], the verifying readers [parse_idx_v2] and
    [parse_idx_v1].

    The writer's asynchronous channel is the list of messages its receiver has got,
    with the number of messages after which the receiver goes away, if it does.  The
    reader is an in-memory one; both hash what they write or read as they go. *)

From Stdlib Require Import ZArith Lia String Permutation Sorted.
From stdpp Require Import base tactics list numbers option gmap.
From S2P Require Import Prelude Stream Text Errors ObjectTypes PackUtils Hash.

Definition IDX_MAGIC : Z := 0xff744f63.
Definition IDX_VERSION_V2 : Z := 2.

(** Objects decoded from a pack and what is known of their place in it ([entry.rs],
    [metadata/mod.rs], [metadata/entry_meta.rs]). *)
Record Entry : Type := mkEntry {
  entry_type : ObjectType.t;
  entry_data : bytes;
  entry_hash : ObjectHash.t;
  chain_len : Z
}.

(** [PartialEq for Entry]. *)
Definition Entry_eq (e other : Entry) : bool :=
  bool_decide (entry_type e = entry_type other) && bool_decide (entry_hash e = entry_hash other).

Record EntryMeta : Type := mkEntryMeta {
  file_path : option bytes;
  pack_id : option bytes;
  pack_offset : option Z;
  meta_crc32 : option Z;
  is_delta : option bool
}.

Definition EntryMeta_new : EntryMeta := mkEntryMeta None None None None None.

Definition set_pack_id (m : EntryMeta) (id : bytes) : EntryMeta :=
  mkEntryMeta (file_path m) (Some id) (pack_offset m) (meta_crc32 m) (is_delta m).

Definition set_crc32 (m : EntryMeta) (crc : Z) : EntryMeta :=
  mkEntryMeta (file_path m) (pack_id m) (pack_offset m) (Some crc) (is_delta m).

Record MetaAttached (T M : Type) : Type := mkMetaAttached { ma_inner : T; ma_meta : M }.
Arguments ma_inner {T M} m.
Arguments ma_meta {T M} m.

(** [MetadataExt]; a mutable reference to the metadata is the value with the way to put another one in its place. *)
Class MetadataExt (T M : Type) := {
  metadata : T -> option M;
  metadata_mut : T -> option (M * (M -> T));
  set_metadata : T -> M -> T
}.

#[export] Instance MetaAttached_ext T M : MetadataExt (MetaAttached T M) M := {
  metadata := fun x => Some (ma_meta x);
  metadata_mut := fun x => Some (ma_meta x, mkMetaAttached _ _ (ma_inner x));
  set_metadata := fun x m => mkMetaAttached _ _ (ma_inner x) m
}.

(** [Display for MetaAttached], given the texts of the value and of its metadata. *)
Definition MetaAttached_fmt {T M} (display : T -> bytes) (debug : M -> bytes) (x : MetaAttached T M) : bytes :=
  display (ma_inner x) ++ str " | meta: " ++ debug (ma_meta x).

(** The CRC-32 of the crc32fast crate. *)
Class Crc32 := calculate_crc32 : bytes -> Z.

(** [index_entry.rs]. *)
Record IndexEntry : Type := mkIndexEntry { ie_hash : ObjectHash.t; crc32 : Z; ie_offset : Z }.

Definition IndexEntry_try_from `{Crc32} (pack_entry : MetaAttached Entry EntryMeta) : Res GitError IndexEntry :=
  let! offset := ok_or (pack_offset (ma_meta pack_entry)) (ConversionError (str "empty offset in pack entry")) in
  let crc := match meta_crc32 (ma_meta pack_entry) with
             | Some crc => crc
             | None => calculate_crc32 (entry_data (ma_inner pack_entry))
             end in
  Ok (mkIndexEntry (entry_hash (ma_inner pack_entry)) crc offset).

Definition IndexEntry_new `{Crc32} (entry : Entry) (offset : Z) : IndexEntry :=
  mkIndexEntry (entry_hash entry) (calculate_crc32 (entry_data entry)) offset.

Record IdxV2 : Type := mkIdxV2 { idx_entries : list IndexEntry; idx_pack_hash : ObjectHash.t; idx_hash : ObjectHash.t }.

(** [u32::to_be_bytes] is [be32]. *)
Definition be64 (n : Z) : bytes := be32 (Z.shiftr n 32) ++ be32 n.

(** [from_be_bytes]. *)
Definition from_be (b : bytes) : Z := fold_left (fun acc x => acc * 256 + x) b 0.

(** [x + y] on [u32]. *)
Definition add_u32 `{Build} {E} (x y : Z) : Res E Z :=
  if x + y <? 2 ^ 32 then Ok (x + y) else overflow (as_u32 (x + y)).

(** The order of byte slices, and the derived order of [ObjectHash]: variants in the
    order of their declaration, then the bytes. *)
Fixpoint bytes_lt (a b : bytes) : bool :=
  match a, b with
  | _, [] => false
  | [], _ :: _ => true
  | x :: a, y :: b => (x <? y) || ((x =? y) && bytes_lt a b)
  end.

Definition variant (h : ObjectHash.t) : Z :=
  match h with ObjectHash.Sha1 _ => 0 | ObjectHash.Sha256 _ => 1 | ObjectHash.Blake3 _ => 2 end.

Definition hash_lt (a b : ObjectHash.t) : bool :=
  (variant a <? variant b)
  || ((variant a =? variant b) && bytes_lt (ObjectHash.as_ref a) (ObjectHash.as_ref b)).

(** [sort_by_key(|entry| entry.hash)], a stable sort. *)
Fixpoint insert_entry (x : IndexEntry) (l : list IndexEntry) : list IndexEntry :=
  match l with
  | [] => [x]
  | y :: l' => if hash_lt (ie_hash y) (ie_hash x) then y :: insert_entry x l' else x :: l
  end.

Definition sort_entries (l : list IndexEntry) : list IndexEntry := foldr insert_entry [] l.

(** [table[byte as usize] += 1]. *)
Definition bump `{Build} {E} (table : list Z) (byte : Z) : Res E (list Z) :=
  let! n := or_panic (get table byte) in
  let! n := add_u32 n 1 in
  or_panic (set_index table byte n).

(** * The writer *)

Section writer.
Context `{Build} `{TextEnv} `{Hasher}.

Record IdxBuilder : Type := mkIdxBuilder {
  sender : bool;
  received : list bytes;
  receiver_leaves : option nat;
  inner_hash : HashAlgorithm;
  object_number : Z;
  pack_hash : ObjectHash.t
}.

(** [new], given a channel whose receiver leaves after [leaves] messages. *)
Definition IdxBuilder_new (object_number : Z) (leaves : option nat) (pack_hash : ObjectHash.t) : IdxBuilder :=
  mkIdxBuilder true [] leaves (HashAlgorithm_new_for_kind (ObjectHash.kind pack_hash)) object_number pack_hash.

Definition idx_hash_kind (b : IdxBuilder) : HashKind.t := ObjectHash.kind (pack_hash b).

Definition drop_sender (b : IdxBuilder) : IdxBuilder :=
  mkIdxBuilder false (received b) (receiver_leaves b) (inner_hash b) (object_number b) (pack_hash b).

(** [sender.send(data).await]; tokio reports a channel without receiver. *)
Definition channel_send (b : IdxBuilder) (h : HashAlgorithm) (data : bytes) : Res GitError IdxBuilder :=
  match receiver_leaves b with
  | Some O => Err (IOError (OtherIo "Failed to send idx data: channel closed"))
  | leaves => Ok (mkIdxBuilder (sender b) (received b ++ [data]) (option_map pred leaves) h
                    (object_number b) (pack_hash b))
  end.

Definition send_data (b : IdxBuilder) (data : bytes) : Res GitError IdxBuilder :=
  if sender b then channel_send b (HashAlgorithm_update (inner_hash b) data) data else Ok b.

Definition send_data_without_update_hash (b : IdxBuilder) (data : bytes) : Res GitError IdxBuilder :=
  if sender b then channel_send b (inner_hash b) data else Ok b.

Definition send_u32 (b : IdxBuilder) (v : Z) : Res GitError IdxBuilder := send_data b (be32 v).
Definition send_u64 (b : IdxBuilder) (v : Z) : Res GitError IdxBuilder := send_data b (be64 v).

Definition write_header (b : IdxBuilder) : Res GitError IdxBuilder :=
  send_data b [0xFF; 0x74; 0x4F; 0x63; 0; 0; 0; 2].

Fixpoint count_loop (table : list Z) (entries : list IndexEntry) : Res GitError (list Z) :=
  match entries with
  | [] => Ok table
  | e :: entries =>
      let! byte := or_panic (get (ObjectHash.to_data (ie_hash e)) 0) in
      let! table := bump table byte in
      count_loop table entries
  end.

(** [for i in 1..fanout.len() { fanout[i] += fanout[i - 1] }]. *)
Fixpoint cumulate (prev : Z) (table : list Z) : Res GitError (list Z) :=
  match table with
  | [] => Ok []
  | n :: table =>
      let! n := add_u32 n prev in
      let! table := cumulate n table in
      Ok (n :: table)
  end.

Definition cumulative (table : list Z) : Res GitError (list Z) :=
  match table with
  | [] => Ok []
  | n :: table => let! table := cumulate n table in Ok (n :: table)
  end.

(** The loops of [send_data] and [send_u32] over a table. *)
Fixpoint send_all (b : IdxBuilder) (l : list bytes) : Res GitError IdxBuilder :=
  match l with
  | [] => Ok b
  | d :: l => let! b := send_data b d in send_all b l
  end.

(** Also returns the entries, which it sorts in place. *)
Definition write_fanout (b : IdxBuilder) (entries : list IndexEntry) : Res GitError (IdxBuilder * list IndexEntry) :=
  let entries := sort_entries entries in
  let! fanout := count_loop (repeat 0 256) entries in
  let! fanout := cumulative fanout in
  let! b := send_all b (map be32 fanout) in
  Ok (b, entries).

Definition write_names (b : IdxBuilder) (entries : list IndexEntry) : Res GitError IdxBuilder :=
  send_all b (map (fun e => ObjectHash.to_data (ie_hash e)) entries).

Definition write_crc32 (b : IdxBuilder) (entries : list IndexEntry) : Res GitError IdxBuilder :=
  send_all b (map (fun e => be32 (crc32 e)) entries).

Fixpoint offsets_loop (b : IdxBuilder) (entries : list IndexEntry) (large : list Z)
  : Res GitError (IdxBuilder * list Z) :=
  match entries with
  | [] => Ok (b, large)
  | e :: entries =>
      if ie_offset e <=? 0x7FFFFFFF then
        let! b := send_u32 b (as_u32 (ie_offset e)) in
        offsets_loop b entries large
      else
        let marker := Z.lor 0x80000000 (as_u32 (blen large)) in
        let! b := send_u32 b marker in
        offsets_loop b entries (large ++ [ie_offset e])
  end.

Definition write_offsets (b : IdxBuilder) (entries : list IndexEntry) : Res GitError IdxBuilder :=
  let! '(b, large) := offsets_loop b entries [] in
  send_all b (map be64 large).

Definition write_trailer (b : IdxBuilder) : Res GitError IdxBuilder :=
  let! b := send_data b (ObjectHash.to_data (pack_hash b)) in
  send_data_without_update_hash b (HashAlgorithm_finalize (inner_hash b)).

Fixpoint ensure_entries (kind : HashKind.t) (entries : list IndexEntry) : Res GitError unit :=
  match entries with
  | [] => Ok tt
  | e :: entries =>
      let! _ := map_err GitError_from (ObjectHash.ensure_kind (ie_hash e) kind) in
      ensure_entries kind entries
  end.

Definition write_idx (b : IdxBuilder) (entries : list IndexEntry) : Res GitError IdxBuilder :=
  if negb (blen entries =? object_number b)
  then Err (ConversionError (str "entries length " ++ show_dec (blen entries) ++ str " != object_number "
              ++ show_dec (object_number b)))
  else
    let! _ := ensure_entries (idx_hash_kind b) entries in
    let! b := write_header b in
    let! '(b, entries) := write_fanout b entries in
    let! b := write_names b entries in
    let! b := write_crc32 b entries in
    let! b := write_offsets b entries in
    let! b := write_trailer b in
    Ok (drop_sender b).

End writer.

(** * The version 2 reader *)

(** [{x:#010x}] of a [u32] and [{x:#04x}] of a byte. *)
Definition show_hex (b : bytes) : bytes := str "0x" ++ hex_print b.

Definition validate_idx_v2_header (magic version : Z) (kind : HashKind.t) (context : bytes) : Res GitError unit :=
  if negb (magic =? IDX_MAGIC)
  then Err (InvalidPackFile (str "Invalid pack index magic " ++ show_hex (be32 magic) ++ str " for " ++ context
              ++ str " (" ++ HashKind.as_str kind ++ str " repository)"))
  else if negb (version =? IDX_VERSION_V2)
  then Err (InvalidPackFile (str "Only pack index v2 is supported for " ++ context ++ str ": got version "
              ++ show_dec version ++ str " (this crate reads and writes v2 only; " ++ HashKind.as_str kind
              ++ str " repository, " ++ show_dec (HashKind.size kind) ++ str "-byte object names)"))
  else Ok tt.

(** The error of [read_exact] on an in-memory reader. *)
Definition read_index_error (_ : IoError) : GitError :=
  InvalidPackFile (str "Read index error: failed to fill whole buffer").

Section reader.
Context `{Build} `{TextEnv} `{HexCrate} `{Hasher}.

Record IdxHashingReader : Type := mkReader { ir_inner : bytes; ir_hasher : HashAlgorithm }.

Definition read_exact_hashed (n : Z) (r : IdxHashingReader) : Res GitError (bytes * IdxHashingReader) :=
  let! '(buf, inner) := map_err read_index_error (read_exact n (ir_inner r)) in
  Ok (buf, mkReader inner (HashAlgorithm_update (ir_hasher r) buf)).

Definition read_u32_hashed (r : IdxHashingReader) : Res GitError (Z * IdxHashingReader) :=
  let! '(buf, r) := read_exact_hashed 4 r in
  Ok (from_be buf, r).

(** [n] entries of the fan-out table remain, [fanout] holds the ones read. *)
Fixpoint fanout_loop (n : nat) (fanout : list Z) (r : IdxHashingReader)
  : Res GitError (list Z * IdxHashingReader) :=
  match n with
  | O => Ok (fanout, r)
  | S n =>
      let i := blen fanout in
      let! '(v, r) := read_u32_hashed r in
      if match get fanout (i - 1) with Some p => v <? p | None => false end
      then Err (InvalidPackFile (str "Pack index fanout is not monotonic at entry " ++ show_dec i))
      else fanout_loop n (fanout ++ [v]) r
  end.

(** [n] names remain. *)
Fixpoint names_loop (n : nat) (kind : HashKind.t) (entries : list IndexEntry) (per_first_byte : list Z)
  (r : IdxHashingReader) : Res GitError (list IndexEntry * list Z * IdxHashingReader) :=
  match n with
  | O => Ok (entries, per_first_byte, r)
  | S n =>
      let i := blen entries in
      let! '(name, r) := read_exact_hashed (HashKind.size kind) r in
      let! hash := map_err (fun e => InvalidPackFile (str "Pack index object name " ++ show_dec i ++ str ": "
                              ++ hash_error_text e)) (ObjectHash.from_bytes_for_kind kind name) in
      if match get entries (i - 1) with
         | Some prev => negb (bytes_lt (ObjectHash.as_ref (ie_hash prev)) name)
         | None => false
         end
      then Err (InvalidPackFile (str "Pack index object names are not strictly ascending at entry " ++ show_dec i))
      else
        let! byte := or_panic (get name 0) in
        let! per_first_byte := bump per_first_byte byte in
        names_loop n kind (entries ++ [mkIndexEntry hash 0 0]) per_first_byte r
  end.

Fixpoint check_fanout (fanout counts : list Z) (byte running : Z) : Res GitError unit :=
  match counts with
  | [] => Ok tt
  | count :: counts =>
      let! running := add_u32 running count in
      let! f := or_panic (get fanout byte) in
      if negb (f =? running)
      then Err (InvalidPackFile (str "Pack index fanout[" ++ show_hex [byte] ++ str "] is " ++ show_dec f
                  ++ str " but " ++ show_dec running ++ str " object names start at or below it"))
      else check_fanout fanout counts (byte + 1) running
  end.

Fixpoint crc_loop (entries : list IndexEntry) (r : IdxHashingReader)
  : Res GitError (list IndexEntry * IdxHashingReader) :=
  match entries with
  | [] => Ok ([], r)
  | e :: entries =>
      let! '(crc, r) := read_u32_hashed r in
      let! '(entries, r) := crc_loop entries r in
      Ok (mkIndexEntry (ie_hash e) crc (ie_offset e) :: entries, r)
  end.

(** The 4-byte offsets, from entry [i] on, with the entries that refer to the 8-byte table. *)
Fixpoint offset_table (i : Z) (entries : list IndexEntry) (r : IdxHashingReader)
  : Res GitError (list IndexEntry * list (Z * Z) * IdxHashingReader) :=
  match entries with
  | [] => Ok ([], [], r)
  | e :: entries =>
      let! '(raw_offset, r) := read_u32_hashed r in
      let! '(entries, large_slots, r) := offset_table (i + 1) entries r in
      if Z.land raw_offset 0x80000000 =? 0
      then Ok (mkIndexEntry (ie_hash e) (crc32 e) raw_offset :: entries, large_slots, r)
      else Ok (e :: entries, (i, Z.land raw_offset 0x7fffffff) :: large_slots, r)
  end.

(** [map(slot + 1).max().unwrap_or(0)]. *)
Definition large_count (large_slots : list (Z * Z)) : Z :=
  foldr (fun s acc => Z.max (snd s + 1) acc) 0 large_slots.

Fixpoint large_loop (n : nat) (large_offsets : list Z) (r : IdxHashingReader)
  : Res GitError (list Z * IdxHashingReader) :=
  match n with
  | O => Ok (large_offsets, r)
  | S n =>
      let! '(buf, r) := read_exact_hashed 8 r in
      large_loop n (large_offsets ++ [from_be buf]) r
  end.

Fixpoint assign_large (large_slots : list (Z * Z)) (large_offsets : list Z) (entries : list IndexEntry)
  : Res GitError (list IndexEntry) :=
  match large_slots with
  | [] => Ok entries
  | (i, slot) :: large_slots =>
      let! offset := or_panic (get large_offsets slot) in
      let! e := or_panic (get entries i) in
      let! entries := or_panic (set_index entries i (mkIndexEntry (ie_hash e) (crc32 e) offset)) in
      assign_large large_slots large_offsets entries
  end.

Fixpoint unique_loop (seen_offsets : gset Z) (entries : list IndexEntry) : Res GitError unit :=
  match entries with
  | [] => Ok tt
  | e :: entries =>
      if bool_decide (ie_offset e ∈ seen_offsets)
      then Err (InvalidPackFile (str "Pack index lists offset " ++ show_dec (ie_offset e) ++ str " more than once"))
      else unique_loop ({[ie_offset e]} ∪ seen_offsets) entries
  end.

(** From the end of the offset tables on: both checksums, and nothing after them. *)
Definition parse_trailer (kind : HashKind.t) (entries : list IndexEntry) (r : IdxHashingReader)
  : Res GitError IdxV2 :=
  let! '(pack_hash_buf, r) := read_exact_hashed (HashKind.size kind) r in
  let! pack_hash := map_err (fun e => InvalidPackFile (str "Pack index pack checksum: " ++ hash_error_text e))
                      (ObjectHash.from_bytes_for_kind kind pack_hash_buf) in
  let computed := HashAlgorithm_finalize_object_hash (ir_hasher r) in
  let! '(idx_hash_buf, inner) := map_err read_index_error (read_exact (HashKind.size kind) (ir_inner r)) in
  let! idx_hash := map_err (fun e => InvalidPackFile (str "Pack index checksum: " ++ hash_error_text e))
                     (ObjectHash.from_bytes_for_kind kind idx_hash_buf) in
  if negb (bool_decide (computed = idx_hash))
  then Err (InvalidPackFile (str "Pack index checksum " ++ ObjectHash.fmt idx_hash
              ++ str " does not match calculated checksum " ++ ObjectHash.fmt computed ++ str " ("
              ++ HashKind.as_str kind ++ str ")"))
  else if negb (blen (take 1 inner) =? 0)
  then Err (InvalidPackFile (str "Pack index has trailing data after checksum"))
  else Ok (mkIdxV2 entries pack_hash idx_hash).

(** The names, CRCs and offsets of [object_num] objects; [declared] is the size of the
    index without its 8-byte offsets. *)
Definition parse_tables (kind : HashKind.t) (fanout : list Z) (object_num declared total_len : Z)
  (r : IdxHashingReader) : Res GitError (list IndexEntry * IdxHashingReader) :=
  let! '(entries, per_first_byte, r) := names_loop (Z.to_nat object_num) kind [] (repeat 0 256) r in
  let! _ := check_fanout fanout per_first_byte 0 0 in
  let! '(entries, r) := crc_loop entries r in
  let! '(entries, large_slots, r) := offset_table 0 entries r in
  let large_count := large_count large_slots in
  if blen large_slots <? large_count
  then Err (InvalidPackFile (str "Pack index references large-offset slot " ++ show_dec (large_count - 1)
              ++ str " but only " ++ show_dec (blen large_slots) ++ str " objects use the large table"))
  else if total_len <? declared + large_count * 8
  then Err (InvalidPackFile (str "Pack index is truncated before its large-offset table"))
  else
    let! '(large_offsets, r) := large_loop (Z.to_nat large_count) [] r in
    let! entries := assign_large large_slots large_offsets entries in
    let! _ := unique_loop ∅ entries in
    Ok (entries, r).

Definition parse_idx_v2_from (data : bytes) (kind : HashKind.t) (total_len : Z) : Res GitError IdxV2 :=
  let hs := HashKind.size kind in
  let r := mkReader data (HashAlgorithm_new_for_kind kind) in
  let! '(magic, r) := read_u32_hashed r in
  let! '(version, r) := read_u32_hashed r in
  let! _ := validate_idx_v2_header magic version kind (str "index parsing") in
  let! '(fanout, r) := fanout_loop 256 [] r in
  let! object_num := or_panic (get fanout 255) in
  let fixed := 8 + 256 * 4 + 2 * hs in
  let per_object := hs + 4 + 4 in
  let declared := fixed + per_object * object_num in
  if total_len <? declared
  then Err (InvalidPackFile (str "Pack index declares " ++ show_dec object_num ++ str " objects ("
              ++ show_dec declared ++ str " bytes) but is only " ++ show_dec total_len ++ str " bytes long"))
  else
    let! '(entries, r) := parse_tables kind fanout object_num declared total_len r in
    parse_trailer kind entries r.

Definition parse_idx_v2 (data : bytes) (kind : HashKind.t) : Res GitError IdxV2 :=
  parse_idx_v2_from data kind (blen data).

End reader.

(** * The version 1 reader *)

Definition FANOUT_LEN : Z := 256 * 4.
Definition ENTRY_LEN : Z := 4 + 20.
Definition TRAILER_LEN : Z := 20 + 20.

(** [as_chunks::<4>().0], each chunk as a number. *)
Fixpoint be_chunks (n : nat) (b : bytes) : list Z :=
  match n with
  | O => []
  | S n => from_be (take 4 b) :: be_chunks n (drop 4 b)
  end.

(** [windows(2)] with [pair[0] <= pair[1]]. *)
Fixpoint monotonic (l : list Z) : bool :=
  match l with
  | a :: (b :: _) as l' => (a <=? b) && monotonic l'
  | _ => true
  end.

Fixpoint v1_entries (n : nat) (index : Z) (data : bytes) : Res GitError (list IndexEntry) :=
  match n with
  | O => Ok []
  | S n =>
      let start := FANOUT_LEN + index * ENTRY_LEN in
      let! offset := or_panic (get_range data start (start + 4)) in
      let! name := or_panic (get_range data (start + 4) (start + ENTRY_LEN)) in
      let! entries := v1_entries n (index + 1) data in
      Ok (mkIndexEntry (ObjectHash.Sha1 name) 0 (from_be offset) :: entries)
  end.

(** The slices have the lengths their conversions expect, so those cannot fail; with a
    count below [2 ^ 32] the expected length does not overflow. *)
Definition parse_idx_v1 `{Hasher} (data : bytes) : Res GitError IdxV2 :=
  if blen data <? FANOUT_LEN + TRAILER_LEN
  then Err (InvalidPackFile (str "pack index v1 is too short"))
  else
    let! table := or_panic (get_range data 0 FANOUT_LEN) in
    let fanout := be_chunks 256 table in
    if negb (monotonic fanout)
    then Err (InvalidPackFile (str "pack index v1 fanout table is not monotonic"))
    else
      let! object_count := or_panic (get fanout 255) in
      let expected_len := FANOUT_LEN + object_count * ENTRY_LEN + TRAILER_LEN in
      if negb (blen data =? expected_len)
      then Err (InvalidPackFile (str "pack index v1 length " ++ show_dec (blen data)
                  ++ str " does not match fanout object count " ++ show_dec object_count))
      else
        let trailer_start := FANOUT_LEN + object_count * ENTRY_LEN in
        let! hashed := or_panic (get_range data 0 (trailer_start + 20)) in
        let computed := HashAlgorithm_finalize_object_hash
                          (HashAlgorithm_update (HashAlgorithm_new_for_kind HashKind.Sha1) hashed) in
        let! idx_hash_bytes := or_panic (get_range data (trailer_start + 20) (trailer_start + 40)) in
        if negb (bool_decide (ObjectHash.as_ref computed = idx_hash_bytes))
        then Err (InvalidPackFile (str "pack index v1 checksum mismatch"))
        else
          let! pack_hash_bytes := or_panic (get_range data trailer_start (trailer_start + 20)) in
          let! entries := v1_entries (Z.to_nat object_count) 0 data in
          Ok (mkIdxV2 entries (ObjectHash.Sha1 pack_hash_bytes) (ObjectHash.Sha1 idx_hash_bytes)).

(** * The order of object names *)

Lemma bytes_lt_irrefl a : bytes_lt a a = false.
Proof. induction a as [|x a IH]; cbn; [done|]. rewrite IH. lia. Qed.

Lemma bytes_lt_trans a b c : bytes_lt a b = true -> bytes_lt b c = true -> bytes_lt a c = true.
Proof.
  revert b c. induction a as [|x a IH]; intros [|y b] [|z c]; cbn; try done.
  intros H1 H2. destruct (x <? z) eqn:E; [done|]. destruct (x <? y) eqn:E1, (y <? z) eqn:E2; try lia.
  cbn in H1, H2. apply andb_true_iff in H1 as [H1 H1'], H2 as [H2 H2'].
  rewrite (IH b c) by done. lia.
Qed.

Lemma bytes_lt_total a b : bytes_lt a b = false -> a <> b -> bytes_lt b a = true.
Proof.
  revert b. induction a as [|x a IH]; intros [|y b]; cbn; try done.
  intros H Hne. destruct (y <? x) eqn:E; [done|]. destruct (x <? y) eqn:E1; [done|]. cbn in *.
  assert (x = y) as -> by lia. rewrite Z.eqb_refl in *. apply IH; [done|congruence].
Qed.

Definition name_of (e : IndexEntry) : bytes := ObjectHash.as_ref (ie_hash e).

(** Entries in the order of an index file. *)
Definition name_lt (a b : IndexEntry) : Prop := bytes_lt (name_of a) (name_of b) = true.

Lemma hash_lt_same_kind a b :
  ObjectHash.kind a = ObjectHash.kind b -> hash_lt a b = bytes_lt (ObjectHash.as_ref a) (ObjectHash.as_ref b).
Proof. unfold hash_lt. destruct a, b; cbn; done. Qed.

Lemma same_kind_names a b :
  ObjectHash.kind a = ObjectHash.kind b -> ObjectHash.as_ref a = ObjectHash.as_ref b -> a = b.
Proof. destruct a, b; cbn; congruence. Qed.

Lemma insert_entry_perm x l : Permutation (insert_entry x l) (x :: l).
Proof.
  induction l as [|y l IH]; cbn; [done|]. destruct (hash_lt _ _); [|done]. rewrite IH. apply perm_swap.
Qed.

Lemma sort_entries_perm l : Permutation (sort_entries l) l.
Proof. induction l as [|x l IH]; cbn; [done|]. by rewrite insert_entry_perm, IH. Qed.

Lemma insert_entry_sorted x l :
  StronglySorted name_lt l ->
  Forall (fun y => ObjectHash.kind (ie_hash y) = ObjectHash.kind (ie_hash x) /\ ie_hash y <> ie_hash x) l ->
  StronglySorted name_lt (insert_entry x l).
Proof.
  induction 1 as [|y l Hs IH Hy]; intros Hx; cbn; [repeat constructor|].
  apply Forall_cons_1 in Hx as [[Hk Hne] Hx]. rewrite hash_lt_same_kind by done.
  destruct (bytes_lt _ _) eqn:E.
  - constructor; [by apply IH|]. apply (Permutation_Forall (Permutation_sym (insert_entry_perm x l))).
    by constructor.
  - assert (Hxy : name_lt x y).
    { apply bytes_lt_total; [done|]. intros Heq. apply Hne. by apply same_kind_names. }
    constructor; [by constructor|]. constructor; [done|].
    eapply Forall_impl; [exact Hy|]. intros z. by apply bytes_lt_trans.
Qed.

Lemma sort_entries_sorted kind l :
  Forall (fun e => ObjectHash.kind (ie_hash e) = kind) l -> NoDup (map ie_hash l) ->
  StronglySorted name_lt (sort_entries l).
Proof.
  induction l as [|x l IH]; intros Hk Hnd; cbn; [constructor|].
  apply Forall_cons_1 in Hk as [Hkx Hk]. cbn in Hnd. apply NoDup_cons in Hnd as [Hni Hnd].
  apply insert_entry_sorted; [by apply IH|].
  apply (Permutation_Forall (Permutation_sym (sort_entries_perm l))).
  apply Forall_forall. intros y Hy. split.
  - rewrite Forall_forall in Hk. rewrite Hkx. by apply Hk.
  - intros Heq. apply Hni. rewrite <- Heq. by apply list_elem_of_In, in_map, list_elem_of_In.
Qed.

(** * Tables *)

Fixpoint sumZ (l : list Z) : Z := match l with [] => 0 | x :: l => x + sumZ l end.

Fixpoint prefix_sums (running : Z) (l : list Z) : list Z :=
  match l with [] => [] | x :: l => (running + x) :: prefix_sums (running + x) l end.

Lemma sumZ_nonneg l : Forall (fun x => 0 <= x) l -> 0 <= sumZ l.
Proof. induction 1; cbn; lia. Qed.

Lemma sumZ_app l m : sumZ (l ++ m) = sumZ l + sumZ m.
Proof. induction l; cbn; lia. Qed.

Lemma prefix_sums_length running l : length (prefix_sums running l) = length l.
Proof. revert running. induction l; intros; cbn; auto. Qed.

Lemma prefix_sums_last running l x : prefix_sums running (l ++ [x]) = prefix_sums running l ++ [running + sumZ l + x].
Proof.
  revert running. induction l as [|y l IH]; intros running; cbn; [by rewrite Z.add_0_r|].
  rewrite IH. do 3 f_equal. lia.
Qed.

Lemma from_be_be32 n : 0 <= n < 2 ^ 32 -> from_be (be32 n) = n.
Proof. intros Hn. by apply be32_value. Qed.

Lemma from_be_be64 n : 0 <= n < 2 ^ 64 -> from_be (be64 n) = n.
Proof.
  intros Hn. unfold be64, from_be. rewrite fold_left_app.
  pose proof (be32_value (Z.shiftr n 32)) as [_ Hhi].
  { rewrite Z.shiftr_div_pow2 by lia. split; [apply Z.div_pos; lia|apply Z.div_lt_upper_bound; lia]. }
  rewrite Hhi, Z.shiftr_div_pow2 by lia. unfold be32. cbn [fold_left].
  rewrite !Z.shiftr_div_pow2 by lia. Z.to_euclidean_division_equations; lia.
Qed.

Lemma be32_length n : blen (be32 n) = 4.
Proof. reflexivity. Qed.

Lemma blen_concat_map {A} (f : A -> bytes) c l :
  (forall x, blen (f x) = c) -> blen (concat (map f l)) = c * blen l.
Proof.
  intros Hf. induction l as [|x l IH]; cbn [map concat]; [change (blen (@nil Z)) with 0; change (blen (@nil A)) with 0; lia|].
  rewrite blen_app, Hf, IH, blen_cons. lia.
Qed.

(** * What the writer sends *)

Section written.
Context `{Build} `{TextEnv} `{HasherLaws}.

(** The builder has an attentive receiver, and has sent and hashed [data]. *)
Record wrote (n : Z) (p : ObjectHash.t) (b : IdxBuilder) (data : bytes) : Prop := {
  w_sender : sender b = true;
  w_leaves : receiver_leaves b = None;
  w_hash : inner_hash b = HashAlgorithm_update (HashAlgorithm_new_for_kind (ObjectHash.kind p)) data;
  w_received : concat (received b) = data;
  w_number : object_number b = n;
  w_pack : pack_hash b = p
}.

Lemma send_data_wrote n p b data d :
  wrote n p b data -> exists b', send_data b d = Ok b' /\ wrote n p b' (data ++ d).
Proof.
  intros [Hs Hl Hh Hr Hn Hp]. unfold send_data, channel_send. rewrite Hs, Hl. eexists. split; [reflexivity|].
  split; cbn; try done.
  - by rewrite Hh, update_app.
  - by rewrite concat_app, Hr; cbn; rewrite app_nil_r.
Qed.

Lemma send_all_wrote n p b data l :
  wrote n p b data -> exists b', send_all b l = Ok b' /\ wrote n p b' (data ++ concat l).
Proof.
  revert b data. induction l as [|d l IH]; intros b data Hw; cbn [send_all concat].
  - exists b. by rewrite app_nil_r.
  - destruct (send_data_wrote _ _ _ _ d Hw) as (b1 & -> & Hw1). cbn [rbind].
    destruct (IH _ _ Hw1) as (b2 & -> & Hw2). exists b2. by rewrite app_assoc.
Qed.

Definition small (e : IndexEntry) : bool := ie_offset e <=? 0x7FFFFFFF.

(** The 4-byte offsets when [k] entries already use the 8-byte table, and the latter. *)
Fixpoint raw_offsets (k : Z) (l : list IndexEntry) : list Z :=
  match l with
  | [] => []
  | e :: l => if small e then ie_offset e :: raw_offsets k l else (2 ^ 31 + k) :: raw_offsets (k + 1) l
  end.

Fixpoint larges (l : list IndexEntry) : list Z :=
  match l with
  | [] => []
  | e :: l => if small e then larges l else ie_offset e :: larges l
  end.

Lemma larges_length l : blen (larges l) <= blen l.
Proof.
  induction l as [|e l IH]; cbn [larges]; [done|]. rewrite blen_cons. destruct (small e); [lia|].
  rewrite blen_cons. lia.
Qed.

Lemma lor_marker k : 0 <= k < 2 ^ 31 -> Z.lor 0x80000000 k = 2 ^ 31 + k.
Proof.
  intros Hk. rewrite Z.lor_comm. etransitivity; [exact (lor_shiftl_add k 1 31 ltac:(lia) Hk)|]. lia.
Qed.

Lemma offsets_loop_wrote n p b data l large :
  wrote n p b data -> Forall (fun e => 0 <= ie_offset e) l -> blen large + blen l < 2 ^ 31 ->
  exists b', offsets_loop b l large = Ok (b', large ++ larges l)
    /\ wrote n p b' (data ++ concat (map be32 (raw_offsets (blen large) l))).
Proof.
  intros Hw Hl. revert b data large Hw. induction Hl as [|e l He Hl IH]; intros b data large Hw Hlen;
    cbn [offsets_loop larges raw_offsets].
  - exists b. cbn. by rewrite !app_nil_r.
  - rewrite blen_cons in Hlen. blen_nonnegs. unfold small. destruct (ie_offset e <=? 0x7FFFFFFF) eqn:E.
    + unfold send_u32, as_u32. rewrite Z.mod_small by lia.
      destruct (send_data_wrote _ _ _ _ (be32 (ie_offset e)) Hw) as (b1 & -> & Hw1). cbn [rbind].
      destruct (IH _ _ large Hw1) as (b2 & -> & Hw2); [lia|]. exists b2. split; [done|].
      cbn [map concat]. by rewrite app_assoc.
    + unfold send_u32, as_u32. rewrite (Z.mod_small (blen large)), lor_marker by lia.
      destruct (send_data_wrote _ _ _ _ (be32 (2 ^ 31 + blen large)) Hw) as (b1 & -> & Hw1). cbn [rbind].
      destruct (IH _ _ (large ++ [ie_offset e]) Hw1) as (b2 & -> & Hw2); [rewrite blen_app; change (blen [ie_offset e]) with 1; lia|].
      exists b2. rewrite <- app_assoc. split; [done|]. rewrite blen_app in Hw2.
      change (blen [ie_offset e]) with 1 in Hw2. cbn [map concat]. by rewrite app_assoc.
Qed.

Definition first_byte_ok (e : IndexEntry) : Prop := exists x rest, name_of e = x :: rest /\ is_byte x.

Lemma bump_ok {E} (t : list Z) x :
  length t = 256%nat -> is_byte x -> Forall (fun c => 0 <= c) t -> sumZ t + 1 < 2 ^ 32 ->
  exists t', bump (E := E) t x = Ok t' /\ length t' = 256%nat /\ Forall (fun c => 0 <= c) t' /\ sumZ t' = sumZ t + 1.
Proof.
  intros Hlen Hx Hnn Hsum. unfold is_byte in Hx.
  destruct (get_lt_Some t x) as [c Hc]; [unfold blen; lia|].
  assert (Hi : t !! Z.to_nat x = Some c).
  { unfold get in Hc. destruct (0 <=? x); [done|discriminate]. }
  apply list_elem_of_split_length in Hi as (l1 & l2 & -> & Hl1).
  apply Forall_app in Hnn as [Hl Hr]. apply Forall_cons_1 in Hr as [Hc0 Hr].
  pose proof (sumZ_nonneg _ Hl). pose proof (sumZ_nonneg _ Hr). rewrite sumZ_app in Hsum. cbn [sumZ] in Hsum.
  unfold bump. rewrite Hc. cbn [or_panic rbind]. unfold add_u32. replace (c + 1 <? 2 ^ 32) with true by lia.
  cbn [rbind]. replace x with (blen l1) by (unfold blen; lia). rewrite set_index_app. cbn [or_panic].
  exists (l1 ++ (c + 1) :: l2). split; [done|]. rewrite !length_app in *. cbn [length] in *.
  split; [done|]. split; [|rewrite !sumZ_app; cbn [sumZ]; lia].
  apply Forall_app. split; [done|]. constructor; [lia|done].
Qed.

Lemma count_loop_ok l t :
  length t = 256%nat -> Forall (fun c => 0 <= c) t -> Forall first_byte_ok l -> sumZ t + blen l < 2 ^ 32 ->
  exists t', count_loop t l = Ok t' /\ length t' = 256%nat /\ Forall (fun c => 0 <= c) t' /\ sumZ t' = sumZ t + blen l.
Proof.
  intros Hlen Hnn Hl. revert t Hlen Hnn. induction Hl as [|e l (x & rest & Hname & Hx) Hl IH]; intros t Hlen Hnn Hsum.
  - exists t. cbn. rewrite Z.add_0_r. done.
  - rewrite blen_cons in Hsum. pose proof (blen_nonneg l). cbn [count_loop].
    unfold ObjectHash.to_data. unfold name_of in Hname. rewrite Hname, get_cons_0. cbn [or_panic rbind].
    destruct (bump_ok (E := GitError) t x) as (t1 & -> & Ht1 & Ht2 & Ht3); [done..|lia|]. cbn [rbind].
    destruct (IH t1) as (t2 & -> & ? & ? & ?); [done..|lia|]. exists t2. rewrite blen_cons. repeat split; try done. lia.
Qed.

Lemma cumulate_prefix_sums prev t :
  0 <= prev -> Forall (fun c => 0 <= c) t -> prev + sumZ t < 2 ^ 32 -> cumulate prev t = Ok (prefix_sums prev t).
Proof.
  intros Hp Ht. revert prev Hp. induction Ht as [|c t Hc Ht IH]; intros prev Hp Hsum; cbn [cumulate prefix_sums]; [done|].
  cbn [sumZ] in Hsum. pose proof (sumZ_nonneg _ Ht). unfold add_u32. replace (c + prev <? 2 ^ 32) with true by lia.
  cbn [rbind]. rewrite Z.add_comm, IH by lia. done.
Qed.

Lemma cumulative_prefix_sums t :
  Forall (fun c => 0 <= c) t -> sumZ t < 2 ^ 32 -> cumulative t = Ok (prefix_sums 0 t).
Proof.
  intros Ht Hsum. destruct Ht as [|c t Hc Ht]; cbn [cumulative prefix_sums]; [done|]. cbn [sumZ] in Hsum.
  rewrite cumulate_prefix_sums by (try done; lia). by rewrite Z.add_0_l.
Qed.

End written.

(** * What the reader makes of it *)

Section parsed.
Context `{Build} `{TextEnv} `{HexCrate} `{HasherLaws}.
Variable kind : HashKind.t.

(** The reader after [pre], before [rest]. *)
Definition rd (pre rest : bytes) : IdxHashingReader :=
  mkReader rest (HashAlgorithm_update (HashAlgorithm_new_for_kind kind) pre).

Lemma read_exact_hashed_rd pre d rest n :
  n = blen d -> read_exact_hashed n (rd pre (d ++ rest)) = Ok (d, rd (pre ++ d) rest).
Proof.
  intros Hn. unfold read_exact_hashed, rd. cbn [ir_inner ir_hasher].
  rewrite read_exact_app by done. cbn [map_err rbind]. by rewrite update_app.
Qed.

Lemma read_u32_hashed_rd pre v rest :
  0 <= v < 2 ^ 32 -> read_u32_hashed (rd pre (be32 v ++ rest)) = Ok (v, rd (pre ++ be32 v) rest).
Proof.
  intros Hv. unfold read_u32_hashed. rewrite read_exact_hashed_rd by done. cbn [rbind]. by rewrite from_be_be32.
Qed.

Lemma fanout_loop_rd counts acc running pre rest :
  Forall (fun c => 0 <= c) counts -> 0 <= running -> running + sumZ counts < 2 ^ 32 ->
  acc = [] \/ get acc (blen acc - 1) = Some running ->
  fanout_loop (length counts) acc (rd pre (concat (map be32 (prefix_sums running counts)) ++ rest))
  = Ok (acc ++ prefix_sums running counts, rd (pre ++ concat (map be32 (prefix_sums running counts))) rest).
Proof.
  intros Hc. revert acc running pre. induction Hc as [|c counts Hc Hcs IH]; intros acc running pre Hr Hsum Hacc;
    cbn [length fanout_loop prefix_sums map concat sumZ] in *; [by rewrite !app_nil_r|].
  pose proof (sumZ_nonneg _ Hcs). rewrite <- app_assoc, read_u32_hashed_rd by lia. cbn [rbind].
  assert (Hmono : match get acc (blen acc - 1) with Some p => running + c <? p | None => false end = false).
  { destruct Hacc as [-> | ->]; [done|lia]. }
  rewrite Hmono, IH; [by rewrite <- !app_assoc|lia|lia|].
  right. rewrite blen_app. change (blen [running + c]) with 1. rewrite get_app_r by lia.
  by replace (blen acc + 1 - 1 - blen acc) with 0 by lia.
Qed.

(** The entry as the reader knows it after each table. *)
Definition named (e : IndexEntry) : IndexEntry := mkIndexEntry (ie_hash e) 0 0.
Definition with_crc (e : IndexEntry) : IndexEntry := mkIndexEntry (ie_hash e) (crc32 e) 0.
Definition with_small (e : IndexEntry) : IndexEntry :=
  if small e then e else mkIndexEntry (ie_hash e) (crc32 e) 0.

Definition names_bytes (l : list IndexEntry) : bytes := concat (map name_of l).

Lemma names_loop_rd l acc t t' pre rest :
  Forall (fun e => ObjectHash.kind (ie_hash e) = kind /\ hash_wf (ie_hash e)) l ->
  StronglySorted name_lt l ->
  (forall p, get acc (blen acc - 1) = Some p -> Forall (name_lt p) l) ->
  count_loop t l = Ok t' ->
  names_loop (length l) kind acc t (rd pre (names_bytes l ++ rest))
  = Ok (acc ++ map named l, t', rd (pre ++ names_bytes l) rest).
Proof.
  intros Hl Hs. revert acc t pre. induction Hs as [|e l Hs IH He]; intros acc t pre Hacc Hcount.
  { cbn in Hcount. injection Hcount as <-. unfold names_bytes. cbn. by rewrite !app_nil_r. }
  apply Forall_cons_1 in Hl as [[Hk Hwf] Hl]. cbn [length names_loop]. unfold names_bytes. cbn [map concat].
  rewrite <- app_assoc, read_exact_hashed_rd; cycle 1.
  { destruct Hwf as [Hsz _]. unfold name_of. rewrite Hsz. unfold ObjectHash.size. by rewrite Hk. }
  cbn [rbind]. pose proof (from_bytes_for_kind_wf _ Hwf) as Hfrom. rewrite Hk in Hfrom.
  unfold ObjectHash.to_data in Hfrom. unfold name_of at 1. rewrite Hfrom. cbn [map_err rbind].
  assert (Hasc : match get acc (blen acc - 1) with
                 | Some prev => negb (bytes_lt (ObjectHash.as_ref (ie_hash prev)) (name_of e))
                 | None => false end = false).
  { destruct (get acc (blen acc - 1)) as [p|]; [|done]. specialize (Hacc p eq_refl).
    apply Forall_cons_1 in Hacc as [Hp _]. unfold name_lt, name_of in *. by rewrite Hp. }
  rewrite Hasc. cbn [count_loop] in Hcount. unfold ObjectHash.to_data in Hcount. unfold name_of at 1.
  destruct (get (ObjectHash.as_ref (ie_hash e)) 0) as [x|]; [|discriminate Hcount]. cbn [or_panic rbind] in *.
  destruct (bump t x) as [t1| | |] eqn:Hb; try discriminate Hcount. cbn [rbind] in *.
  unfold names_bytes in IH. rewrite IH; try done.
  - by rewrite <- !app_assoc.
  - intros p. rewrite blen_app. change (blen [mkIndexEntry (ie_hash e) 0 0]) with 1. rewrite get_app_r by lia.
    replace (blen acc + 1 - 1 - blen acc) with 0 by lia. rewrite get_cons_0. intros [= <-]. done.
Qed.

Lemma check_fanout_ok counts pre running :
  Forall (fun c => 0 <= c) counts -> 0 <= running -> running + sumZ counts < 2 ^ 32 ->
  check_fanout (pre ++ prefix_sums running counts) counts (blen pre) running = Ok tt.
Proof.
  intros Hc. revert pre running. induction Hc as [|c counts Hc Hcs IH]; intros pre running Hr Hsum;
    cbn [check_fanout prefix_sums sumZ] in *; [done|].
  pose proof (sumZ_nonneg _ Hcs). unfold add_u32. replace (running + c <? 2 ^ 32) with true by lia. cbn [rbind].
  rewrite get_app_r, Z.sub_diag, get_cons_0 by lia. cbn [or_panic rbind]. rewrite Z.eqb_refl. cbn [negb].
  specialize (IH (pre ++ [running + c]) (running + c)). rewrite blen_app, <- app_assoc in IH.
  change (blen [running + c]) with 1 in IH. apply IH; lia.
Qed.

Lemma crc_loop_rd l pre rest :
  Forall (fun e => 0 <= crc32 e < 2 ^ 32) l ->
  crc_loop (map named l) (rd pre (concat (map (fun e => be32 (crc32 e)) l) ++ rest))
  = Ok (map with_crc l, rd (pre ++ concat (map (fun e => be32 (crc32 e)) l)) rest).
Proof.
  intros Hl. revert pre. induction Hl as [|e l He Hl IH]; intros pre; cbn [map crc_loop concat];
    [by rewrite app_nil_r|].
  rewrite <- app_assoc, read_u32_hashed_rd by done. cbn [rbind]. rewrite IH. cbn [rbind]. by rewrite <- app_assoc.
Qed.

(** The entries that use the 8-byte table, from entry [i] and slot [k] on. *)
Fixpoint slots (i k : Z) (l : list IndexEntry) : list (Z * Z) :=
  match l with
  | [] => []
  | e :: l => if small e then slots (i + 1) k l else (i, k) :: slots (i + 1) (k + 1) l
  end.

Lemma slots_length i k l : blen (slots i k l) = blen (larges l).
Proof.
  revert i k. induction l as [|e l IH]; intros i k; cbn [slots larges]; [done|].
  destruct (small e); [done|]. by rewrite !blen_cons, IH.
Qed.

Lemma large_count_slots i k l :
  0 <= k -> large_count (slots i k l) = match larges l with [] => 0 | _ => k + blen (larges l) end.
Proof.
  revert i k. induction l as [|e l IH]; intros i k Hk; cbn [slots larges]; [done|].
  destruct (small e); [by apply IH|]. cbn [large_count foldr snd].
  change (foldr _ 0 (slots (i + 1) (k + 1) l)) with (large_count (slots (i + 1) (k + 1) l)).
  rewrite IH by lia. rewrite blen_cons. destruct (larges l) as [|x m]; [change (blen (@nil Z)) with 0; lia|].
  pose proof (blen_nonneg (x :: m)). lia.
Qed.

Lemma land_small v : 0 <= v < 2 ^ 31 -> Z.land v 0x80000000 = 0.
Proof.
  intros Hv. apply Z.bits_inj'. intros i Hi. rewrite Z.land_spec, Z.bits_0.
  change 0x80000000 with (2 ^ 31). destruct (decide (i = 31)) as [->|].
  - rewrite Z.testbit_eqb, Z.div_small by lia. done.
  - rewrite Z.pow2_bits_false by lia. apply andb_false_r.
Qed.

Lemma land_large k : 0 <= k < 2 ^ 31 ->
  Z.land (2 ^ 31 + k) 0x80000000 <> 0 /\ Z.land (2 ^ 31 + k) 0x7fffffff = k.
Proof.
  intros Hk. rewrite <- (lor_marker k Hk). split.
  - intros Hz. apply (f_equal (fun z => Z.testbit z 31)) in Hz.
    rewrite Z.land_spec, Z.lor_spec, Z.bits_0 in Hz. discriminate Hz.
  - rewrite lor_marker by done. change 0x7fffffff with (2 ^ 31 - 1). rewrite land_low by lia.
    rewrite <- Z.add_mod_idemp_l, Z.mod_same, Z.add_0_l by lia. apply Z.mod_small; lia.
Qed.

Lemma offset_table_rd l i k pre rest :
  Forall (fun e => 0 <= ie_offset e) l -> 0 <= k -> k + blen l < 2 ^ 31 ->
  offset_table i (map with_crc l) (rd pre (concat (map be32 (raw_offsets k l)) ++ rest))
  = Ok (map with_small l, slots i k l, rd (pre ++ concat (map be32 (raw_offsets k l))) rest).
Proof.
  intros Hl. revert i k pre. induction Hl as [|e l He Hl IH]; intros i k pre Hk Hlen;
    cbn [map offset_table raw_offsets slots concat]; [by rewrite app_nil_r|].
  rewrite blen_cons in Hlen. pose proof (blen_nonneg l). unfold with_small at 1.
  destruct (small e) eqn:E; unfold small in E; cbn [map concat].
  - rewrite <- app_assoc, read_u32_hashed_rd by lia. cbn [rbind]. rewrite IH by lia. cbn [rbind].
    rewrite land_small by lia. cbn [Z.eqb]. rewrite <- app_assoc. by destruct e.
  - destruct (land_large k) as [Hne Hlow]; [lia|].
    rewrite <- app_assoc, read_u32_hashed_rd by lia. cbn [rbind]. rewrite IH by lia. cbn [rbind].
    replace (Z.land (2 ^ 31 + k) 0x80000000 =? 0) with false by lia.
    rewrite Hlow, <- app_assoc. done.
Qed.

Lemma large_loop_rd l acc pre rest :
  Forall (fun v => 0 <= v < 2 ^ 64) l ->
  large_loop (length l) acc (rd pre (concat (map be64 l) ++ rest)) = Ok (acc ++ l, rd (pre ++ concat (map be64 l)) rest).
Proof.
  intros Hl. revert acc pre. induction Hl as [|v l Hv Hl IH]; intros acc pre; cbn [length large_loop map concat];
    [by rewrite !app_nil_r|].
  rewrite <- app_assoc, read_exact_hashed_rd by done. cbn [rbind]. rewrite IH, from_be_be64 by done.
  by rewrite <- !app_assoc.
Qed.

Lemma assign_large_ok l ep lp :
  assign_large (slots (blen ep) (blen lp) l) (lp ++ larges l) (ep ++ map with_small l) = Ok (ep ++ l).
Proof.
  revert ep lp. induction l as [|e l IH]; intros ep lp; cbn [slots larges map assign_large]; [done|].
  unfold with_small at 1. destruct (small e) eqn:E.
  - specialize (IH (ep ++ [e]) lp). rewrite blen_app, <- !app_assoc in IH. exact IH.
  - cbn [assign_large]. rewrite get_app_r, Z.sub_diag, get_cons_0 by lia. cbn [or_panic rbind].
    rewrite get_app_r, Z.sub_diag, get_cons_0 by lia. cbn [or_panic rbind]. rewrite set_index_app. cbn [or_panic rbind].
    specialize (IH (ep ++ [e]) (lp ++ [ie_offset e])). rewrite !blen_app, <- !app_assoc in IH.
    cbn [ie_hash crc32]. destruct e. exact IH.
Qed.

Lemma unique_loop_ok l seen :
  NoDup (map ie_offset l) -> (forall e, In e l -> ie_offset e ∉ seen) -> unique_loop seen l = Ok tt.
Proof.
  revert seen. induction l as [|e l IH]; intros seen Hnd Hseen; cbn [unique_loop]; [done|].
  cbn [map] in Hnd. apply NoDup_cons in Hnd as [Hni Hnd].
  rewrite bool_decide_false by (apply Hseen; by left). apply IH; [done|].
  intros e' He'. apply not_elem_of_union. split; [|apply Hseen; by right].
  intros Heq%elem_of_singleton. apply Hni. rewrite <- Heq. by apply list_elem_of_In, in_map.
Qed.

End parsed.

(** * Writing and reading back *)

Definition entry_wf (kind : HashKind.t) (e : IndexEntry) : Prop :=
  (ObjectHash.kind (ie_hash e) = kind /\ hash_wf (ie_hash e)) /\ 0 <= crc32 e < 2 ^ 32 /\ 0 <= ie_offset e < 2 ^ 64.

(** An index file up to its own checksum. *)
Definition idx_tables (counts : list Z) (s : list IndexEntry) : list bytes :=
  [concat (map be32 (prefix_sums 0 counts)); names_bytes s; concat (map (fun e => be32 (crc32 e)) s);
   concat (map be32 (raw_offsets 0 s)); concat (map be64 (larges s))].

Definition idx_body (counts : list Z) (s : list IndexEntry) (pack : ObjectHash.t) : bytes :=
  ([0xFF; 0x74; 0x4F; 0x63] ++ [0; 0; 0; 2]) ++ concat (idx_tables counts s) ++ ObjectHash.as_ref pack.

Section index_files.
Context `{Build} `{TextEnv} `{HexCrate} `{HasherLaws}.

Lemma entry_first_byte kind e : entry_wf kind e -> first_byte_ok e.
Proof.
  intros [[Hk [Hlen Hb]] _]. unfold first_byte_ok, name_of.
  destruct (ObjectHash.as_ref (ie_hash e)) as [|x rest] eqn:E.
  - unfold ObjectHash.size in Hlen. destruct (ObjectHash.kind (ie_hash e)); discriminate Hlen.
  - apply Forall_cons_1 in Hb as [Hx _]. eauto.
Qed.

Lemma ensure_entries_ok kind l : Forall (entry_wf kind) l -> ensure_entries kind l = Ok tt.
Proof.
  induction 1 as [|e l [[Hk _] _] Hl IH]; cbn [ensure_entries]; [done|].
  unfold ObjectHash.ensure_kind. by rewrite bool_decide_true.
Qed.

Lemma write_tables_wrote n p b data l counts :
  let s := sort_entries l in
  wrote n p b data -> count_loop (repeat 0 256) s = Ok counts -> Forall (fun c => 0 <= c) counts ->
  sumZ counts < 2 ^ 31 -> Forall (fun e => 0 <= ie_offset e) s -> blen s < 2 ^ 31 ->
  exists b1 b2 b3 b4, write_fanout b l = Ok (b1, s) /\ write_names b1 s = Ok b2 /\ write_crc32 b2 s = Ok b3
    /\ write_offsets b3 s = Ok b4 /\ wrote n p b4 (data ++ concat (idx_tables counts s)).
Proof.
  intros s Hw Hcount Hcnn Hcsum Hoff Hlen. unfold write_fanout. fold s. rewrite Hcount. cbn [rbind].
  rewrite cumulative_prefix_sums by (try done; lia). cbn [rbind].
  destruct (send_all_wrote _ _ _ _ (map be32 (prefix_sums 0 counts)) Hw) as (b1 & -> & Hw1).
  destruct (send_all_wrote _ _ _ _ (map (fun e => ObjectHash.to_data (ie_hash e)) s) Hw1) as (b2 & E2 & Hw2).
  destruct (send_all_wrote _ _ _ _ (map (fun e => be32 (crc32 e)) s) Hw2) as (b3 & E3 & Hw3).
  destruct (offsets_loop_wrote _ _ _ _ s [] Hw3) as (b4 & E4 & Hw4); [done|change (blen (@nil Z)) with 0; lia|].
  destruct (send_all_wrote _ _ _ _ (map be64 (larges s)) Hw4) as (b5 & E5 & Hw5).
  exists b1, b2, b3, b5. split; [done|]. split; [done|]. split; [done|].
  split; [unfold write_offsets; rewrite E4; exact E5|].
  unfold idx_tables. cbn [concat]. rewrite app_nil_r. rewrite <- !app_assoc in Hw5. exact Hw5.
Qed.

(** The writer's output. *)
Lemma write_idx_ok pack l :
  Forall (entry_wf (ObjectHash.kind pack)) l -> blen l < 2 ^ 31 ->
  exists b counts, let body := idx_body counts (sort_entries l) pack in
    write_idx (IdxBuilder_new (blen l) None pack) l = Ok b /\ sender b = false
    /\ count_loop (repeat 0 256) (sort_entries l) = Ok counts
    /\ length counts = 256%nat /\ Forall (fun c => 0 <= c) counts /\ sumZ counts = blen l
    /\ concat (received b) = body ++ ObjectHash.as_ref (ObjectHash_new_for_kind (ObjectHash.kind pack) body).
Proof.
  intros Hl Hlen. pose proof (sort_entries_perm l) as Hperm.
  assert (Hs : Forall (entry_wf (ObjectHash.kind pack)) (sort_entries l))
    by exact (Permutation_Forall (Permutation_sym Hperm) Hl).
  assert (Hslen : blen (sort_entries l) = blen l) by (unfold blen; by rewrite Hperm).
  destruct (count_loop_ok (sort_entries l) (repeat 0 256)) as (counts & Hcount & Hclen & Hcnn & Hcsum);
    [done|repeat constructor; lia|eapply Forall_impl; [exact Hs|]; apply entry_first_byte|
     change (sumZ (repeat 0 256)) with 0; lia|].
  change (sumZ (repeat 0 256)) with 0 in Hcsum.
  unfold write_idx. cbn [object_number IdxBuilder_new]. rewrite Z.eqb_refl. cbn [negb].
  change (idx_hash_kind _) with (ObjectHash.kind pack). rewrite ensure_entries_ok by done. cbn [rbind].
  destruct (write_header (IdxBuilder_new (blen l) None pack)) as [b0| | |] eqn:Hb0; try discriminate Hb0.
  assert (Hw0 : wrote (blen l) pack b0 ([0xFF; 0x74; 0x4F; 0x63] ++ [0; 0; 0; 2]))
    by (injection Hb0 as <-; split; reflexivity).
  cbn [rbind]. destruct (write_tables_wrote _ _ _ _ l counts Hw0) as (b1 & b2 & b3 & b4 & -> & E2 & E3 & E4 & Hw4);
    [done|done|lia| |lia|].
  { eapply Forall_impl; [exact Hs|]. intros e (_ & _ & He). lia. }
  cbn [rbind]. rewrite E2. cbn [rbind]. rewrite E3. cbn [rbind]. rewrite E4. cbn [rbind].
  unfold write_trailer. destruct (send_data_wrote _ _ _ _ (ObjectHash.to_data (pack_hash b4)) Hw4) as (b5 & -> & Hw5).
  rewrite (w_pack _ _ _ _ Hw4), <- app_assoc in Hw5. cbn [rbind].
  unfold send_data_without_update_hash, channel_send. rewrite (w_sender _ _ _ _ Hw5), (w_leaves _ _ _ _ Hw5).
  cbn [rbind]. eexists _, counts. split; [reflexivity|]. cbn [drop_sender sender received].
  do 4 (split; [done|]). split; [lia|].
  rewrite concat_app, (w_received _ _ _ _ Hw5), (w_hash _ _ _ _ Hw5). cbn [concat]. rewrite app_nil_r.
  f_equal. unfold ObjectHash_new_for_kind. by destruct (ObjectHash.kind pack).
Qed.

Lemma parse_tables_rd kind s counts declared total pre rest :
  Forall (entry_wf kind) s -> StronglySorted name_lt s -> NoDup (map ie_offset s) -> blen s < 2 ^ 31 ->
  count_loop (repeat 0 256) s = Ok counts -> Forall (fun c => 0 <= c) counts -> sumZ counts < 2 ^ 32 ->
  declared + 8 * blen (larges s) <= total ->
  parse_tables kind (prefix_sums 0 counts) (blen s) declared total
    (rd kind pre (concat (drop 1 (idx_tables counts s)) ++ rest))
  = Ok (s, rd kind (pre ++ concat (drop 1 (idx_tables counts s))) rest).
Proof.
  intros Hs Hsort Hnd Hlen Hcount Hcnn Hsum Htotal.
  assert (Hoff : Forall (fun e => 0 <= ie_offset e) s)
    by (eapply Forall_impl; [exact Hs|]; intros e (_ & _ & He); lia).
  unfold parse_tables. unfold blen at 1. rewrite Nat2Z.id. cbn [idx_tables drop concat].
  rewrite app_nil_r, <- !app_assoc.
  rewrite (names_loop_rd kind s [] (repeat 0 256) counts);
    [|eapply Forall_impl; [exact Hs|]; by intros e [He _]|done|by intros p Hp|done].
  cbn [rbind app]. rewrite (check_fanout_ok counts [] 0) by (try done; lia). cbn [rbind].
  rewrite crc_loop_rd by (eapply Forall_impl; [exact Hs|]; by intros e (_ & He & _)). cbn [rbind].
  rewrite (offset_table_rd kind s 0 0) by (try done; lia). cbn [rbind].
  rewrite large_count_slots, slots_length by lia.
  replace (match larges s with [] => 0 | _ => 0 + blen (larges s) end) with (blen (larges s))
    by (destruct (larges s); done).
  rewrite Z.ltb_irrefl. replace (total <? declared + blen (larges s) * 8) with false by lia.
  unfold blen at 1. rewrite Nat2Z.id, large_loop_rd; cycle 1.
  { clear -Hs. induction Hs as [|e s (_ & _ & He) Hs IH]; cbn [larges]; [constructor|].
    destruct (small e); [done|]. by constructor. }
  cbn [rbind app]. change (assign_large (slots 0 0 s) (larges s) (map with_small s))
    with (assign_large (slots (blen (@nil IndexEntry)) (blen (@nil Z)) s) ([] ++ larges s) ([] ++ map with_small s)).
  rewrite assign_large_ok. cbn [rbind app].
  rewrite unique_loop_ok by (try done; intros; set_solver). cbn [rbind]. by rewrite <- !app_assoc.
Qed.

Lemma idx_body_length kind counts s pack :
  Forall (entry_wf kind) s -> length counts = 256%nat -> blen (ObjectHash.as_ref pack) = HashKind.size kind ->
  blen (idx_body counts s pack)
  = 8 + 256 * 4 + HashKind.size kind + (HashKind.size kind + 4 + 4) * blen s + 8 * blen (larges s).
Proof.
  intros Hs Hclen Hplen. unfold idx_body. rewrite !blen_app, Hplen. cbn [idx_tables concat].
  rewrite app_nil_r, !blen_app, !(blen_concat_map be32 4), (blen_concat_map be64 8),
      (blen_concat_map (fun e => be32 (crc32 e)) 4) by done.
  assert (Hnames : blen (names_bytes s) = HashKind.size kind * blen s).
  { clear -Hs. unfold names_bytes. induction Hs as [|e s [[Hk [Hsz _]] _] Hs IH]; cbn [map concat].
    - change (blen (@nil Z)) with 0. change (blen (@nil IndexEntry)) with 0. lia.
    - rewrite blen_app, IH, blen_cons. unfold name_of. rewrite Hsz. unfold ObjectHash.size. rewrite Hk. lia. }
  assert (Hraw : forall k, blen (raw_offsets k s) = blen s).
  { clear. induction s as [|e s IH]; intros k; cbn [raw_offsets]; [done|]. destruct (small e); by rewrite !blen_cons, IH. }
  rewrite Hnames, Hraw. replace (blen (prefix_sums 0 counts)) with 256
    by (unfold blen; by rewrite prefix_sums_length, Hclen).
  change (blen [0xFF; 0x74; 0x4F; 0x63]) with 4. change (blen [0; 0; 0; 2]) with 4. lia.
Qed.

Lemma prefix_sums_get l n : length l = S n -> get (prefix_sums 0 l) (Z.of_nat n) = Some (sumZ l).
Proof.
  intros Hl. destruct (split_last l) as [[cs c]|] eqn:E.
  - apply split_last_Some in E as ->. rewrite length_app in Hl. cbn in Hl. rewrite prefix_sums_last, sumZ_app.
    apply (get_parts _ (prefix_sums 0 cs) []); [cbn [sumZ]; do 3 f_equal; lia|].
    unfold blen. rewrite prefix_sums_length. lia.
  - apply split_last_None in E as ->. discriminate Hl.
Qed.

Lemma parse_trailer_rd kind s pack pre :
  ObjectHash.kind pack = kind -> hash_wf pack ->
  let idx := ObjectHash_new_for_kind kind (pre ++ ObjectHash.as_ref pack) in
  parse_trailer kind s (rd kind pre (ObjectHash.as_ref pack ++ ObjectHash.as_ref idx)) = Ok (mkIdxV2 s pack idx).
Proof.
  intros Hk Hpwf idx. destruct (ObjectHash_new_for_kind_wf kind (pre ++ ObjectHash.as_ref pack)) as [Hik Hiwf].
  fold idx in Hik, Hiwf. pose proof (from_bytes_for_kind_wf _ Hpwf) as Hp. pose proof (from_bytes_for_kind_wf _ Hiwf) as Hi.
  destruct Hpwf as [Hplen _], Hiwf as [Hilen _]. unfold ObjectHash.size in *. rewrite Hk in *. rewrite Hik in *.
  unfold parse_trailer. rewrite read_exact_hashed_rd by done. cbn [rbind]. rewrite Hp. cbn [map_err rbind ir_inner rd].
  rewrite <- (app_nil_r (ObjectHash.as_ref idx)), read_exact_app by done. cbn [map_err rbind]. rewrite Hi.
  cbn [map_err rbind ir_hasher]. rewrite bool_decide_true by done. done.
Qed.

Lemma parse_body kind counts s pack :
  ObjectHash.kind pack = kind -> hash_wf pack ->
  Forall (entry_wf kind) s -> StronglySorted name_lt s -> NoDup (map ie_offset s) -> blen s < 2 ^ 31 ->
  count_loop (repeat 0 256) s = Ok counts -> length counts = 256%nat -> Forall (fun c => 0 <= c) counts ->
  sumZ counts = blen s ->
  let body := idx_body counts s pack in
  parse_idx_v2 (body ++ ObjectHash.as_ref (ObjectHash_new_for_kind kind body)) kind
  = Ok (mkIdxV2 s pack (ObjectHash_new_for_kind kind body)).
Proof.
  intros Hk Hpwf Hs Hsort Hnd Hlen Hcount Hclen Hcnn Hcsum body.
  destruct (ObjectHash_new_for_kind_wf kind body) as [Hik [Hilen _]].
  set (idx := ObjectHash_new_for_kind kind body) in *. unfold ObjectHash.size in Hilen. rewrite Hik in Hilen.
  assert (Hplen : blen (ObjectHash.as_ref pack) = HashKind.size kind)
    by (destruct Hpwf as [-> _]; unfold ObjectHash.size; by rewrite Hk).
  pose proof (blen_nonneg s). pose proof (blen_nonneg (larges s)).
  pose proof (prefix_sums_get counts 255 Hclen) as Hget. change (Z.of_nat 255) with 255 in Hget. rewrite Hcsum in Hget.
  assert (Hbody : body = [0xFF; 0x74; 0x4F; 0x63] ++ be32 2 ++ concat (map be32 (prefix_sums 0 counts))
                         ++ concat (drop 1 (idx_tables counts s)) ++ ObjectHash.as_ref pack).
  { unfold body, idx_body. cbn [idx_tables drop concat]. by rewrite <- !app_assoc. }
  unfold parse_idx_v2. rewrite (blen_app body), Hilen. unfold body at 2.
  rewrite (idx_body_length kind) by done. rewrite Hbody at 1. rewrite <- !app_assoc. unfold parse_idx_v2_from.
  unfold read_u32_hashed at 1, read_exact_hashed at 1. cbn [ir_inner ir_hasher].
  rewrite read_exact_app by done. cbn [map_err rbind].
  change (mkReader ?rest (HashAlgorithm_update _ ?pre)) with (rd kind pre rest).
  rewrite read_u32_hashed_rd by lia. cbn [rbind].
  change (validate_idx_v2_header _ _ _ _) with (@Ok GitError unit tt). cbn [rbind].
  rewrite <- Hclen, (fanout_loop_rd kind counts [] 0) by (try done; try lia; by left). cbn [rbind].
  change ([] ++ ?l) with l. rewrite Hget. cbn [or_panic rbind].
  match goal with |- context [if ?t <? ?d then _ else _] => replace (t <? d) with false by lia end.
  rewrite parse_tables_rd by (try done; lia). cbn [rbind].
  match goal with |- parse_trailer _ _ (rd _ ?pre _) = _ =>
    assert (Hpre : body = pre ++ ObjectHash.as_ref pack) by (rewrite Hbody, <- !app_assoc; done) end.
  unfold idx. rewrite Hpre. by apply parse_trailer_rd.
Qed.

End index_files.

(** Writing an index and reading it. *)
Lemma written_index_reads `{Build} `{TextEnv} `{HexCrate} `{HasherLaws} (pack : ObjectHash.t) (l : list IndexEntry) :
  hash_wf pack -> Forall (entry_wf (ObjectHash.kind pack)) l ->
  NoDup (map ie_hash l) -> NoDup (map ie_offset l) -> blen l < 2 ^ 31 ->
  exists b i, write_idx (IdxBuilder_new (blen l) None pack) l = Ok b /\ sender b = false
    /\ parse_idx_v2 (concat (received b)) (ObjectHash.kind pack) = Ok i
    /\ idx_pack_hash i = pack /\ Permutation (idx_entries i) l /\ StronglySorted name_lt (idx_entries i).
Proof.
  intros Hpack Hl Hnh Hno Hlen. pose proof (sort_entries_perm l) as Hperm.
  destruct (write_idx_ok pack l Hl Hlen) as (b & counts & Hw & Hsend & Hcount & Hclen & Hcnn & Hcsum & Hrec).
  assert (Hsorted : StronglySorted name_lt (sort_entries l)).
  { apply (sort_entries_sorted (ObjectHash.kind pack)); [|done]. eapply Forall_impl; [exact Hl|]. by intros e [[? _] _]. }
  assert (Hslen : blen (sort_entries l) = blen l) by (unfold blen; by rewrite Hperm).
  eexists b, _. split; [done|]. split; [done|]. rewrite Hrec. split.
  - apply parse_body; try done.
    + by apply (Permutation_Forall (Permutation_sym Hperm)).
    + by rewrite Hperm.
    + lia.
    + lia.
  - done.
Qed.

Lemma written_index_magic `{Build} `{TextEnv} `{HexCrate} `{HasherLaws} pack l b :
  Forall (entry_wf (ObjectHash.kind pack)) l -> blen l < 2 ^ 31 -> write_idx (IdxBuilder_new (blen l) None pack) l = Ok b ->
  exists rest, concat (received b) = be32 IDX_MAGIC ++ rest.
Proof.
  intros Hl Hlen Hb. destruct (write_idx_ok pack l Hl Hlen) as (b' & counts & Hw & _ & _ & _ & _ & _ & Hrec).
  assert (b' = b) as -> by congruence. rewrite Hrec. eexists. unfold idx_body. rewrite <- !app_assoc. reflexivity.
Qed.

(** C19: an index written by [IdxBuilder] reads back: for entries of the pack's kind with
    distinct names and offsets, [write_idx] succeeds, and [parse_idx_v2] accepts what
    the receiver got and returns the pack's checksum and exactly the entries, in the
    order of their names, whatever mix of 4-byte and 8-byte offsets they need. *)
Theorem idx_roundtrip `{Build} `{TextEnv} `{HexCrate} `{HasherLaws} (pack : ObjectHash.t) (l : list IndexEntry) :
  hash_wf pack -> Forall (entry_wf (ObjectHash.kind pack)) l ->
  NoDup (map ie_hash l) -> NoDup (map ie_offset l) -> blen l < 2 ^ 31 ->
  exists b i, write_idx (IdxBuilder_new (blen l) None pack) l = Ok b /\ sender b = false
    /\ parse_idx_v2 (concat (received b)) (ObjectHash.kind pack) = Ok i
    /\ idx_pack_hash i = pack /\ Permutation (idx_entries i) l /\ StronglySorted name_lt (idx_entries i).
Proof. apply written_index_reads. Qed.

Definition sample_name (b : Z) : ObjectHash.t := ObjectHash.Sha1 (b :: repeat 7 19).

Definition sample_entries : list IndexEntry :=
  [mkIndexEntry (sample_name 9) 5 77; mkIndexEntry (sample_name 3) 6 0x123456789;
   mkIndexEntry (sample_name 200) 0xffffffff 0x7fffffff].

Lemma idx_roundtrip_witness :
  exists b i, @write_idx true plain_texts toy_hasher (@IdxBuilder_new toy_hasher 3 None (sample_name 1)) sample_entries = Ok b
    /\ sender b = false
    /\ @parse_idx_v2 true plain_texts hex_reference toy_hasher (concat (received b)) HashKind.Sha1 = Ok i
    /\ idx_pack_hash i = sample_name 1 /\ Permutation (idx_entries i) sample_entries
    /\ StronglySorted name_lt (idx_entries i).
Proof.
  apply (@idx_roundtrip true plain_texts hex_reference toy_hasher toy_hasher_laws (sample_name 1) sample_entries).
  - split; [reflexivity|]. repeat constructor; unfold is_byte; lia.
  - repeat constructor; unfold is_byte; cbn; try lia.
  - decide_closed.
  - decide_closed.
  - reflexivity.
Defined.

(** An index file with one object, of which the toy digest is the prefix. *)
Definition sample_idx : bytes :=
  match @write_idx true plain_texts toy_hasher (@IdxBuilder_new toy_hasher 1 None (sample_name 1))
          [mkIndexEntry (sample_name 0) 5 77] with
  | Ok b => concat (received b)
  | _ => []
  end.

(** * What the reader accepts *)

Definition hash_before (a b : ObjectHash.t) : Prop := bytes_lt (ObjectHash.as_ref a) (ObjectHash.as_ref b) = true.

Lemma sorted_hashes l : StronglySorted name_lt l <-> StronglySorted hash_before (map ie_hash l).
Proof.
  induction l as [|e l IH]; cbn [map]; [split; constructor|]. split; intros Hs; inversion Hs as [|? ? Hs' He]; subst;
    (constructor; [by apply IH|]).
  - apply Forall_map. exact He.
  - exact (proj1 (Forall_map _ _ _) He).
Qed.

Lemma sorted_snoc l h :
  StronglySorted hash_before l -> (forall p, get l (blen l - 1) = Some p -> hash_before p h) ->
  StronglySorted hash_before (l ++ [h]).
Proof.
  induction 1 as [|x l Hs IH Hx]; intros Hp; cbn [app]; [repeat constructor|].
  rewrite blen_cons in Hp. replace (1 + blen l - 1) with (blen l) in Hp by lia.
  assert (Hxh : hash_before x h).
  { destruct (split_last l) as [[l' y]|] eqn:E.
    - apply split_last_Some in E as ->. apply Forall_app in Hx as [_ Hy]. apply Forall_cons_1 in Hy as [Hy _].
      eapply bytes_lt_trans; [exact Hy|]. apply Hp. apply (get_parts _ (x :: l') []); [done|].
      rewrite blen_app, (blen_cons x). change (blen [y]) with 1. lia.
    - apply split_last_None in E as ->. by apply Hp. }
  constructor.
  - apply IH. intros p Hget. apply Hp. destruct l as [|y l]; [discriminate Hget|].
    rewrite get_cons_S by (rewrite blen_cons; pose proof (blen_nonneg l); lia). done.
  - apply Forall_app. split; [done|]. by constructor.
Qed.

Lemma from_be_bound b : byte_list b -> 0 <= from_be b < 256 ^ blen b.
Proof.
  unfold from_be. assert (Hgen : forall acc, 0 <= acc -> byte_list b ->
    0 <= fold_left (fun a x => a * 256 + x) b acc < (acc + 1) * 256 ^ blen b).
  { induction b as [|x b IH]; intros acc Hacc Hb; cbn [fold_left].
    - change (blen (@nil Z)) with 0. lia.
    - apply Forall_cons_1 in Hb as [Hx Hb]. unfold is_byte in Hx. specialize (IH (acc * 256 + x) ltac:(lia) Hb).
      rewrite blen_cons, Z.pow_add_r by (pose proof (blen_nonneg b); lia).
      assert (0 <= 256 ^ blen b) by (apply Z.pow_nonneg; lia). nia. }
  intros Hb. specialize (Hgen 0 ltac:(lia) Hb). lia.
Qed.

Section accepted.
Context `{Build} `{TextEnv} `{HexCrate} `{HasherLaws}.
Variables (kind : HashKind.t) (data : bytes).
Hypothesis data_bytes : byte_list data.

(** The reader has hashed exactly what it has read of [data]. *)
Definition tracks (r : IdxHashingReader) : Prop := exists pre, data = pre ++ ir_inner r /\ r = rd kind pre (ir_inner r).

Lemma read_exact_hashed_sound n r :
  tracks r -> 0 <= n ->
  sound (read_exact_hashed n r) (fun '(buf, r') => tracks r' /\ blen buf = n /\ byte_list buf).
Proof.
  intros (pre & Hd & ->) Hn. unfold read_exact_hashed. cbn [ir_inner rd] in *.
  destruct (read_exact n (ir_inner r)) as [[buf rest]|e| |] eqn:E; cbn; try done;
    try (unfold read_exact in E; destruct (n <=? _); discriminate E).
  apply read_exact_Ok in E as [Hs Hlen]; [|done]. split; [|split; [done|]].
  - exists (pre ++ buf). cbn. split; [by rewrite <- app_assoc, <- Hs|]. by rewrite update_app.
  - rewrite Hd, Hs, !Forall_app in data_bytes. tauto.
Qed.

Lemma read_u32_hashed_sound r :
  tracks r -> sound (read_u32_hashed r) (fun '(v, r') => tracks r' /\ 0 <= v < 2 ^ 32).
Proof.
  intros Hr. unfold read_u32_hashed. eapply sound_bind; [by apply read_exact_hashed_sound|].
  intros [buf r'] (Hr' & Hlen & Hb). cbn. split; [done|].
  pose proof (from_be_bound buf Hb) as Hbd. rewrite Hlen in Hbd. done.
Qed.

Definition u32_list (l : list Z) : Prop := Forall (fun v => 0 <= v < 2 ^ 32) l.

Lemma fanout_loop_sound n acc r :
  tracks r -> u32_list acc ->
  sound (fanout_loop n acc r) (fun '(f, r') => tracks r' /\ length f = (n + length acc)%nat /\ u32_list f).
Proof.
  revert acc r. induction n as [|n IH]; intros acc r Hr Hacc; cbn [fanout_loop]; [done|].
  eapply sound_bind; [by apply read_u32_hashed_sound|]. intros [v r'] [Hr' Hv].
  destruct (match get _ _ with Some _ => _ | None => _ end); [done|].
  eapply sound_mono; [apply IH; [done|]|].
  - apply Forall_app. split; [done|by constructor].
  - intros [f r''] (? & Hlen & ?). rewrite length_app in Hlen. cbn in Hlen. repeat split; try done. lia.
Qed.

(** Entries named in order, all of the repository's kind. *)
Definition names_ok (es : list IndexEntry) : Prop :=
  StronglySorted hash_before (map ie_hash es)
  /\ Forall (fun h => ObjectHash.kind h = kind /\ hash_wf h) (map ie_hash es).

Definition counts_ok (t : list Z) (n : Z) : Prop :=
  length t = 256%nat /\ Forall (fun c => 0 <= c) t /\ sumZ t = n.

Lemma from_bytes_sound b :
  byte_list b -> blen b = HashKind.size kind ->
  sound (ObjectHash.from_bytes_for_kind kind b)
    (fun h => ObjectHash.kind h = kind /\ hash_wf h /\ ObjectHash.as_ref h = b).
Proof.
  intros Hb Hlen. unfold ObjectHash.from_bytes_for_kind. rewrite Hlen, Z.eqb_refl. cbn.
  destruct kind; repeat split; done.
Qed.

Lemma names_loop_sound n es t r :
  tracks r -> names_ok es -> counts_ok t (blen es) -> blen es + Z.of_nat n < 2 ^ 32 ->
  sound (names_loop n kind es t r)
    (fun '(es', t', r') => tracks r' /\ names_ok es' /\ counts_ok t' (blen es') /\ blen es' = blen es + Z.of_nat n).
Proof.
  revert es t r. induction n as [|n IH]; intros es t r Hr Hes Ht Hlen; cbn [names_loop].
  { cbn. repeat split; try apply Ht; try apply Hes; try done. lia. }
  eapply sound_bind; [apply read_exact_hashed_sound; [done|destruct kind; cbn; lia]|].
  intros [name r'] (Hr' & Hnlen & Hnb). eapply sound_bind; [apply sound_map_err; by apply from_bytes_sound|].
  intros h (Hk & Hwf & Hname). subst name.
  destruct (match get es _ with Some _ => _ | None => _ end) eqn:Hasc; [done|].
  destruct (ObjectHash.as_ref h) as [|x nm] eqn:Enm; [destruct kind; discriminate Hnlen|].
  rewrite get_cons_0. cbn [or_panic rbind]. apply Forall_cons_1 in Hnb as [Hx _].
  destruct Ht as (Ht1 & Ht2 & Ht3).
  destruct (bump_ok (E := GitError) t x) as (t' & -> & Hb1 & Hb2 & Hb3); [done..|lia|]. cbn [rbind].
  assert (Hlen1 : blen (es ++ [mkIndexEntry h 0 0]) = blen es + 1) by (rewrite blen_app; done).
  eapply sound_mono; [apply (IH (es ++ [mkIndexEntry h 0 0]) t' r'); [done| |split; [done|split; [done|lia]]|lia]|].
  - destruct Hes as [Hs Hkind]. unfold names_ok. rewrite map_app. cbn [map ie_hash]. split.
    + apply sorted_snoc; [done|]. intros p Hp. unfold hash_before. rewrite Enm.
      replace (blen (map ie_hash es)) with (blen es) in Hp by (unfold blen; by rewrite length_map).
      unfold get in Hp, Hasc. destruct (0 <=? blen es - 1); [|discriminate Hp].
      change (map ie_hash es) with (ie_hash <$> es) in Hp. rewrite list_lookup_fmap in Hp. destruct (es !! _) as [e|]; [|discriminate Hp].
      injection Hp as <-. by destruct (bytes_lt _ _).
    + apply Forall_app. split; [done|]. by constructor.
  - intros [[es' t''] r''] (? & ? & ? & ?). do 3 (split; [done|]). lia.
Qed.

Lemma check_fanout_sound fanout counts byte running :
  Forall (fun c => 0 <= c) counts -> 0 <= running -> running + sumZ counts < 2 ^ 32 ->
  0 <= byte -> byte + blen counts <= blen fanout -> sound (check_fanout fanout counts byte running) (fun _ => True).
Proof.
  intros Hc. revert byte running. induction Hc as [|c counts Hc Hcs IH]; intros byte running Hr Hsum Hb Hlen;
    cbn [check_fanout sumZ] in *; [done|].
  pose proof (sumZ_nonneg _ Hcs). rewrite blen_cons in Hlen. pose proof (blen_nonneg counts).
  unfold add_u32. replace (running + c <? 2 ^ 32) with true by lia. cbn [rbind].
  destruct (get_lt_Some fanout byte) as [f ->]; [lia|]. cbn [or_panic rbind].
  destruct (negb (f =? running + c)); [done|]. apply IH; lia.
Qed.

Lemma crc_loop_sound es r :
  tracks r -> sound (crc_loop es r) (fun '(es', r') => tracks r' /\ map ie_hash es' = map ie_hash es).
Proof.
  revert r. induction es as [|e es IH]; intros r Hr; cbn [crc_loop]; [done|].
  eapply sound_bind; [by apply read_u32_hashed_sound|]. intros [crc r1] [Hr1 _].
  eapply sound_bind; [by apply IH|]. intros [es' r2] [Hr2 Hm]. cbn. by rewrite Hm.
Qed.

(** Entries and slots that the offset table refers to. *)
Definition slots_ok (lo hi : Z) (slots : list (Z * Z)) : Prop :=
  Forall (fun s => lo <= fst s < hi /\ 0 <= snd s) slots.

Lemma offset_table_sound i es r :
  tracks r ->
  sound (offset_table i es r)
    (fun '(es', sl, r') => tracks r' /\ map ie_hash es' = map ie_hash es /\ slots_ok i (i + blen es) sl).
Proof.
  revert i r. induction es as [|e es IH]; intros i r Hr; cbn [offset_table]; [cbn; split; [done|split; constructor]|].
  eapply sound_bind; [by apply read_u32_hashed_sound|]. intros [raw r1] [Hr1 Hraw].
  eapply sound_bind; [by apply (IH (i + 1))|]. intros [[es' sl] r2] (Hr2 & Hm & Hsl).
  rewrite blen_cons. pose proof (blen_nonneg es).
  assert (Hsl' : slots_ok i (i + (1 + blen es)) sl).
  { eapply Forall_impl; [exact Hsl|]. intros s [? ?]. lia. }
  destruct (Z.land raw 0x80000000 =? 0); cbn; rewrite Hm; (split; [done|]); (split; [done|]); [done|].
  constructor; [|done]. cbn [fst snd]. split; [lia|]. apply Z.land_nonneg. lia.
Qed.

Lemma large_loop_sound n acc r :
  tracks r -> sound (large_loop n acc r) (fun '(l, r') => tracks r' /\ blen l = blen acc + Z.of_nat n).
Proof.
  revert acc r. induction n as [|n IH]; intros acc r Hr; cbn [large_loop]; [cbn; split; [done|lia]|].
  eapply sound_bind; [by apply read_exact_hashed_sound|]. intros [buf r1] (Hr1 & _).
  eapply sound_mono; [by apply IH|]. intros [l r2] [? Hlen]. rewrite blen_app in Hlen.
  change (blen [from_be buf]) with 1 in Hlen. split; [done|lia].
Qed.

Lemma large_count_bound sl : Forall (fun s => snd s < large_count sl) sl.
Proof.
  induction sl as [|s sl IH]; constructor; cbn [large_count foldr]; [lia|].
  eapply Forall_impl; [exact IH|]. intros s' Hs'. cbn beta in Hs'. unfold large_count in Hs'. lia.
Qed.

Lemma map_set_index (es es' : list IndexEntry) i e e' :
  get es i = Some e -> ie_hash e' = ie_hash e -> set_index es i e' = Some es' ->
  map ie_hash es' = map ie_hash es /\ blen es' = blen es.
Proof.
  intros Hg He Hs. unfold get in Hg. destruct (0 <=? i) eqn:E0; [|discriminate Hg].
  apply list_elem_of_split_length in Hg as (l1 & l2 & -> & Hl1).
  replace i with (blen l1) in Hs by (unfold blen; lia). rewrite set_index_app in Hs. injection Hs as <-.
  rewrite !map_app. cbn [map]. rewrite He. split; [done|]. by rewrite !blen_app, !blen_cons.
Qed.

Lemma assign_large_sound sl large es :
  slots_ok 0 (blen es) sl -> Forall (fun s => snd s < blen large) sl ->
  sound (assign_large sl large es) (fun es' => map ie_hash es' = map ie_hash es).
Proof.
  intros Hsl Hlt. revert es Hsl. induction Hlt as [|[i k] sl Hk Hlt IH]; intros es Hsl; cbn [assign_large]; [done|].
  apply Forall_cons_1 in Hsl as [[Hi Hk0] Hsl]. cbn [fst snd] in *.
  destruct (get_lt_Some large k) as [off ->]; [lia|]. cbn [or_panic rbind].
  destruct (get_lt_Some es i) as [e Hget]; [lia|]. rewrite Hget. cbn [or_panic rbind].
  set (e' := mkIndexEntry (ie_hash e) (crc32 e) off).
  destruct (set_index es i e') as [es'|] eqn:Hset.
  - destruct (map_set_index es es' i e e' Hget eq_refl Hset) as [Hm Hlen]. cbn [or_panic rbind].
    rewrite <- Hm. apply IH. by rewrite Hlen.
  - unfold set_index in Hset. destruct ((0 <=? i) && (i <? blen es)) eqn:E; [discriminate Hset|]. lia.
Qed.

Lemma unique_loop_sound seen es :
  sound (unique_loop seen es) (fun _ => NoDup (map ie_offset es) /\ forall e, In e es -> ie_offset e ∉ seen).
Proof.
  revert seen. induction es as [|e es IH]; intros seen; cbn [unique_loop map]; [cbn; split; [constructor|done]|].
  case_bool_decide as Hin; [done|]. eapply sound_mono; [apply IH|]. intros _ [Hnd Hseen]. split.
  - constructor; [|done]. intros Hel. apply list_elem_of_In, in_map_iff in Hel as (e' & Heq & Hel).
    apply (Hseen e' Hel). rewrite Heq. set_solver.
  - intros e' [<-|Hel]; [done|]. specialize (Hseen e' Hel). set_solver.
Qed.

Lemma parse_tables_sound fanout n declared total r :
  tracks r -> length fanout = 256%nat -> 0 <= n < 2 ^ 32 ->
  sound (parse_tables kind fanout n declared total r)
    (fun '(es, r') => tracks r' /\ names_ok es /\ NoDup (map ie_offset es) /\ blen es = n).
Proof.
  intros Hr Hf Hn. unfold parse_tables. eapply sound_bind.
  { apply names_loop_sound; [done|split; constructor|repeat split; repeat constructor; lia|].
    change (blen (@nil IndexEntry)) with 0. lia. }
  intros [[es t] r1] (Hr1 & Hes & (Ht1 & Ht2 & Ht3) & Hlen). change (blen (@nil IndexEntry)) with 0 in Hlen.
  eapply sound_bind; [apply check_fanout_sound; try done; try lia; unfold blen; lia|]. intros _ _.
  eapply sound_bind; [by apply crc_loop_sound|]. intros [es1 r2] [Hr2 Hm1].
  eapply sound_bind; [by apply (offset_table_sound 0)|]. intros [[es2 sl] r3] (Hr3 & Hm2 & Hsl).
  destruct (blen sl <? large_count sl); [done|]. destruct (total <? _); [done|].
  eapply sound_bind; [by apply large_loop_sound|]. intros [large r4] [Hr4 Hll].
  change (blen (@nil Z)) with 0 in Hll.
  assert (Hlens : forall a b : list IndexEntry, map ie_hash a = map ie_hash b -> blen a = blen b).
  { intros a b Hab. unfold blen. by rewrite <- (length_map ie_hash a), Hab, length_map. }
  eapply sound_bind.
  { apply assign_large_sound.
    - rewrite (Hlens _ _ Hm2). exact Hsl.
    - eapply Forall_impl; [apply large_count_bound|]. intros s Hs. cbn beta in Hs. lia. }
  intros es3 Hm3. eapply sound_bind; [apply unique_loop_sound|]. intros _ [Hnd _]. cbn.
  rewrite Hm2, Hm1 in Hm3. split; [done|]. split; [unfold names_ok; by rewrite Hm3|]. split; [done|].
  rewrite (Hlens _ _ Hm3). lia.
Qed.

Lemma parse_trailer_sound es r :
  tracks r ->
  sound (parse_trailer kind es r) (fun i => idx_entries i = es /\ exists front,
    data = (front ++ ObjectHash.as_ref (idx_pack_hash i)) ++ ObjectHash.as_ref (idx_hash i)
    /\ ObjectHash.kind (idx_pack_hash i) = kind
    /\ idx_hash i = ObjectHash_new_for_kind kind (front ++ ObjectHash.as_ref (idx_pack_hash i))).
Proof.
  intros (pre & Hd & ->). unfold parse_trailer.
  assert (Hsz : 0 <= HashKind.size kind) by (destruct kind; cbn; lia).
  unfold read_exact_hashed. cbn [rd ir_inner ir_hasher] in *.
  destruct (read_exact (HashKind.size kind) (ir_inner r)) as [[pbuf rest]|e| |] eqn:E1; cbn [map_err rbind]; try done;
    try (unfold read_exact in E1; destruct (_ <=? _); discriminate E1).
  apply read_exact_Ok in E1 as [Hs1 Hl1]; [|done].
  destruct (ObjectHash.from_bytes_for_kind kind pbuf) as [ph| | |] eqn:Eph; cbn [map_err rbind]; try done;
    try (unfold ObjectHash.from_bytes_for_kind in Eph; destruct (negb _); discriminate Eph).
  apply from_bytes_for_kind_Ok in Eph as (_ & Hpk & Hpb). cbn [ir_inner ir_hasher].
  destruct (read_exact (HashKind.size kind) rest) as [[ibuf rest']|e| |] eqn:E2; cbn [map_err rbind ir_inner]; try done;
    try (unfold read_exact in E2; destruct (_ <=? _); discriminate E2).
  apply read_exact_Ok in E2 as [Hs2 Hl2]; [|done].
  destruct (ObjectHash.from_bytes_for_kind kind ibuf) as [ih| | |] eqn:Eih; cbn [map_err rbind]; try done;
    try (unfold ObjectHash.from_bytes_for_kind in Eih; destruct (negb _); discriminate Eih).
  apply from_bytes_for_kind_Ok in Eih as (_ & Hik & Hib).
  case_bool_decide as Hsum; cbn [negb]; [|done].
  destruct rest' as [|x rest']; [|done]. change (negb (blen (take 1 []) =? 0)) with false.
  cbn [sound idx_entries idx_pack_hash idx_hash]. split; [done|]. exists pre. rewrite Hpb, Hib.
  split; [rewrite Hd, Hs1, Hs2, app_nil_r, <- app_assoc; done|]. split; [done|].
  rewrite <- Hsum. cbn [ir_hasher]. by rewrite update_app.
Qed.

End accepted.

(** the index reader fails closed: on every input, whatever length is announced, it
    returns a result or an error; what it accepts has strictly ascending names, all of the
    repository's kind, and distinct offsets, and ends with the pack's checksum and the verified checksum of everything before. *)
Theorem idx_parser_sound `{Build} `{TextEnv} `{HexCrate} `{HasherLaws} (data : bytes) (kind : HashKind.t)
  (total_len : Z) :
  byte_list data ->
  match parse_idx_v2_from data kind total_len with
  | Ok i => StronglySorted name_lt (idx_entries i)
      /\ Forall (fun e => ObjectHash.kind (ie_hash e) = kind /\ hash_wf (ie_hash e)) (idx_entries i)
      /\ NoDup (map ie_offset (idx_entries i))
      /\ exists front,
           data = (front ++ ObjectHash.as_ref (idx_pack_hash i)) ++ ObjectHash.as_ref (idx_hash i)
           /\ ObjectHash.kind (idx_pack_hash i) = kind
           /\ idx_hash i = ObjectHash_new_for_kind kind (front ++ ObjectHash.as_ref (idx_pack_hash i))
  | Err _ => True
  | Panic | OutOfFuel => False
  end.
Proof.
  intros Hb. change (sound (parse_idx_v2_from data kind total_len) (fun i =>
    StronglySorted name_lt (idx_entries i)
    /\ Forall (fun e => ObjectHash.kind (ie_hash e) = kind /\ hash_wf (ie_hash e)) (idx_entries i)
    /\ NoDup (map ie_offset (idx_entries i)) /\ exists front,
         data = (front ++ ObjectHash.as_ref (idx_pack_hash i)) ++ ObjectHash.as_ref (idx_hash i)
         /\ ObjectHash.kind (idx_pack_hash i) = kind
         /\ idx_hash i = ObjectHash_new_for_kind kind (front ++ ObjectHash.as_ref (idx_pack_hash i)))).
  unfold parse_idx_v2_from.
  eapply (sound_bind _ _ (fun '(_, r) => tracks kind data r)).
  { unfold read_u32_hashed, read_exact_hashed. cbn [ir_inner ir_hasher].
    destruct (read_exact 4 data) as [[buf rest]|e| |] eqn:E; cbn; try done;
      try (unfold read_exact in E; destruct (_ <=? _); discriminate E).
    apply read_exact_Ok in E as [Hs _]; [|lia]. exists buf. done. }
  intros [magic r] Hr. eapply sound_bind; [by apply read_u32_hashed_sound|]. intros [version r1] [Hr1 _].
  eapply (sound_bind _ _ (fun _ => True)).
  { unfold validate_idx_v2_header. destruct (negb _); [done|]. by destruct (negb _). }
  intros _ _. eapply sound_bind; [apply (fanout_loop_sound kind data Hb 256); [done|constructor]|].
  intros [fanout r2] (Hr2 & Hflen & Hf). rewrite Nat.add_0_r in Hflen.
  destruct (get_lt_Some fanout 255) as [n Hn]; [unfold blen; rewrite Hflen; lia|].
  assert (Hnb : 0 <= n < 2 ^ 32).
  { unfold u32_list in Hf. rewrite Forall_forall in Hf. apply Hf. unfold get in Hn. cbn in Hn. by apply list_elem_of_lookup_2 in Hn. }
  rewrite Hn. cbn [or_panic rbind]. destruct (total_len <? _); [done|].
  eapply sound_bind; [by apply (parse_tables_sound kind data Hb)|]. intros [es r3] (Hr3 & [Hsort Hkinds] & Hnd & _).
  eapply sound_mono; [by apply (parse_trailer_sound kind data)|]. intros i (-> & Htr).
  split; [by apply sorted_hashes|]. split; [exact (proj1 (Forall_map _ _ _) Hkinds)|]. done.
Qed.

Lemma idx_parser_sound_witness :
  exists i, @parse_idx_v2_from true plain_texts hex_reference toy_hasher sample_idx HashKind.Sha1 1104 = Ok i
    /\ StronglySorted name_lt (idx_entries i).
Proof.
  pose proof (@idx_parser_sound true plain_texts hex_reference toy_hasher toy_hasher_laws sample_idx HashKind.Sha1 1104) as Hs.
  destruct (@parse_idx_v2_from true plain_texts hex_reference toy_hasher sample_idx HashKind.Sha1 1104) as [i| | |] eqn:E.
  - exists i. split; [reflexivity|]. apply Hs. decide_closed.
  - vm_compute in E. discriminate E.
  - vm_compute in E. discriminate E.
  - vm_compute in E. discriminate E.
Defined.

(** * Version 1 *)

Lemma be_chunks_get n b i :
  (i < n)%nat -> be_chunks n b !! i = Some (from_be (take 4 (drop (4 * i) b))).
Proof.
  revert b i. induction n as [|n IH]; intros b [|i] Hi; cbn [be_chunks]; try lia; [done|].
  cbn [lookup list_lookup]. rewrite IH by lia. rewrite drop_drop. do 4 f_equal. lia.
Qed.

Lemma v1_entries_sound n index data :
  0 <= index -> FANOUT_LEN + (index + Z.of_nat n) * ENTRY_LEN <= blen data ->
  sound (v1_entries n index data) (fun es => length es = n).
Proof.
  revert index. induction n as [|n IH]; intros index Hi Hlen; cbn [v1_entries]; [done|].
  assert (He : ENTRY_LEN = 24) by done. assert (Hf : FANOUT_LEN = 1024) by done. rewrite He, Hf in *.
  rewrite !get_range_ok by lia.
  cbn [or_panic rbind]. eapply sound_bind; [apply IH; lia|]. intros es Hes. cbn. by rewrite Hes.
Qed.

(** The version 1 reader returns on every input; what it accepts has exactly the length its
    object count announces and a verified checksum. *)
Theorem idx_v1_sound `{HasherLaws} (data : bytes) :
  byte_list data ->
  match parse_idx_v1 data with
  | Ok i => blen data = FANOUT_LEN + blen (idx_entries i) * ENTRY_LEN + TRAILER_LEN
      /\ idx_hash i = ObjectHash_new_for_kind HashKind.Sha1 (slice data 0 (blen data - 20))
      /\ data = slice data 0 (blen data - 20) ++ ObjectHash.as_ref (idx_hash i)
  | Err _ => True
  | Panic | OutOfFuel => False
  end.
Proof.
  intros Hb. unfold parse_idx_v1. assert (Hf : FANOUT_LEN = 1024) by done. assert (He : ENTRY_LEN = 24) by done.
  assert (Ht : TRAILER_LEN = 40) by done. destruct (blen data <? _) eqn:E0; [done|].
  rewrite get_range_ok by lia. cbn [or_panic rbind]. set (table := slice data 0 FANOUT_LEN).
  destruct (negb (monotonic _)); [done|].
  assert (Hget : get (be_chunks 256 table) 255 = Some (from_be (take 4 (drop (4 * 255) table)))).
  { unfold get. change (0 <=? 255) with true. change (Z.to_nat 255) with 255%nat. by rewrite be_chunks_get by lia. }
  rewrite Hget. cbn [or_panic rbind]. set (n := from_be _).
  assert (Hn : 0 <= n).
  { apply from_be_bound. apply Forall_take, Forall_drop. by apply Forall_take, Forall_drop. }
  destruct (blen data =? FANOUT_LEN + n * ENTRY_LEN + TRAILER_LEN) eqn:Elen; cbn [negb]; [|done].
  rewrite !get_range_ok by lia. cbn [or_panic rbind]. case_bool_decide as Hsum; cbn [negb]; [|done].
  cbn [or_panic rbind].
  pose proof (v1_entries_sound (Z.to_nat n) 0 data ltac:(lia) ltac:(lia)) as Hes.
  destruct (v1_entries (Z.to_nat n) 0 data) as [es| | |]; cbn [sound] in Hes; try done. cbn [rbind idx_entries idx_hash].
  replace (FANOUT_LEN + n * ENTRY_LEN + 20) with (blen data - 20) in * by lia.
  replace (FANOUT_LEN + n * ENTRY_LEN + 40) with (blen data) in * by lia.
  split; [replace (blen es) with n by (unfold blen; lia); lia|]. cbn [ObjectHash.as_ref]. split.
  - by rewrite <- Hsum.
  - rewrite <- slice_split by lia. symmetry. apply slice_full.
Qed.
