(* ===== verification/PackDecode.v ===== *)
(** Decoding the entries of a pack, [src/internal/pack/decode.rs] with the object
    records of [cache_object.rs]: the pack header, inflating an entry, decoding an
    entry into a [CacheObject], rebuilding deltas, the dependency scan that counts
    how often each object is needed, and the reader that keeps the trailer out of
    the payload hash.

    The pack is an in-memory reader.  flate2's [ZlibDecoder], crc32fast, and the
    zstd-based delta format are parameters.  The caches are in [Caches], the threads that
    decode in [Pipeline]. *)

From Stdlib Require Import ZArith Lia String.
From stdpp Require Import base tactics list numbers option gmap.
From S2P Require Import Prelude Stream Text Errors ObjectTypes DeltaUtils DeltaFormat DeltaDecode PackUtils Hash Inflate PackIndex.

(** * Records *)

Inductive CacheObjectInfo : Type :=
| BaseObject (t : ObjectType.t) (h : ObjectHash.t)
| OffsetDelta (base_offset final_size : Z)
| OffsetZstdelta (base_offset final_size : Z)
| HashDelta (base : ObjectHash.t) (final_size : Z).

(** Without [mem_recorder], which only counts memory. *)
Record CacheObject : Type := mkCacheObject {
  info : CacheObjectInfo;
  co_offset : Z;
  co_crc32 : Z;
  data_decompressed : bytes;
  is_delta_in_pack : bool;
  known_hash : option ObjectHash.t
}.

Definition object_type (o : CacheObject) : ObjectType.t :=
  match info o with
  | BaseObject t _ => t
  | OffsetDelta _ _ => ObjectType.OffsetDelta
  | OffsetZstdelta _ _ => ObjectType.OffsetZstdelta
  | HashDelta _ _ => ObjectType.HashDelta
  end.

Definition base_object_hash (o : CacheObject) : option ObjectHash.t :=
  match info o with BaseObject _ h => Some h | _ => None end.

Definition to_entry (o : CacheObject) : Res Empty_set Entry :=
  match info o with
  | BaseObject t h => Ok (mkEntry t (data_decompressed o) h 0)
  | _ => Panic
  end.

Definition to_entry_metadata (o : CacheObject) : Res Empty_set (MetaAttached Entry EntryMeta) :=
  match info o with
  | BaseObject t h =>
      Ok (mkMetaAttached _ _ (mkEntry t (data_decompressed o) h 0)
            (mkEntryMeta None None (Some (co_offset o)) (Some (co_crc32 o)) (Some (is_delta_in_pack o))))
  | _ => Panic
  end.

(** * Dependency counts *)

#[export] Instance ObjectHash_countable : Countable ObjectHash.t.
Proof.
  refine (inj_countable' (fun h => (variant h, ObjectHash.as_ref h))
    (fun '(v, b) => if v =? 0 then ObjectHash.Sha1 b else if v =? 1 then ObjectHash.Sha256 b else ObjectHash.Blake3 b) _).
  by intros [].
Defined.

Record DecodeRetention : Type := mkRetention {
  offset_remaining : gmap Z Z;
  hash_remaining : gmap ObjectHash.t Z
}.

Definition DecodeRetention_default : DecodeRetention := mkRetention ∅ ∅.

(** [entry(k).and_modify(+1).or_insert(1)]. *)
Definition add_dependency `{Countable K} (m : gmap K Z) (k : K) : gmap K Z :=
  match m !! k with Some count => <[k := count + 1]> m | None => <[k := 1]> m end.

(** [get_mut(k)], decrement, remove at zero. *)
Definition consume_dependency `{Countable K} (m : gmap K Z) (k : K) : gmap K Z :=
  match m !! k with
  | Some count => if count - 1 =? 0 then delete k m else <[k := count - 1]> m
  | None => m
  end.

Definition add_offset_dependency (r : DecodeRetention) (offset : Z) : DecodeRetention :=
  mkRetention (add_dependency (offset_remaining r) offset) (hash_remaining r).

Definition add_hash_dependency (r : DecodeRetention) (hash : ObjectHash.t) : DecodeRetention :=
  mkRetention (offset_remaining r) (add_dependency (hash_remaining r) hash).

Definition consume_offset_dependency (r : DecodeRetention) (offset : Z) : DecodeRetention :=
  mkRetention (consume_dependency (offset_remaining r) offset) (hash_remaining r).

Definition consume_hash_dependency (r : DecodeRetention) (hash : ObjectHash.t) : DecodeRetention :=
  mkRetention (offset_remaining r) (consume_dependency (hash_remaining r) hash).

Definition should_retain (r : DecodeRetention) (offset : Z) (hash : ObjectHash.t) : bool :=
  bool_decide (is_Some (offset_remaining r !! offset)) || bool_decide (is_Some (hash_remaining r !! hash)).

(** * Reading *)

(** [Display] of the I/O errors met here. *)
Definition io_error_text (e : IoError) : bytes :=
  match e with
  | UnexpectedEof => str "failed to fill whole buffer"
  | InvalidData m => str m
  | OtherIo m => str m
  end.

Definition invalid_pack (prefix : string) (e : IoError) : GitError := InvalidPackFile (str prefix ++ io_error_text e).

Definition read_field (prefix : string) (s : bytes) : Res GitError (bytes * bytes) :=
  map_err (invalid_pack prefix) (read_exact 4 s).

Definition show_magic (b : bytes) : bytes :=
  match b with
  | [a; b; c; d] => show_dec a ++ str "," ++ show_dec b ++ str "," ++ show_dec c ++ str "," ++ show_dec d
  | _ => []
  end.

Definition check_header (pack : bytes) : Res GitError ((Z * bytes) * bytes) :=
  let! '(magic, pack) := read_field "Error reading magic identifier: " pack in
  let header_data := magic in
  if negb (bool_decide (magic = str "PACK")) then Err (InvalidPackHeader (show_magic magic))
  else
    let! '(version_bytes, pack) := read_field "Error reading version number: " pack in
    let header_data := header_data ++ version_bytes in
    let version := from_be version_bytes in
    if negb (version =? 2)
    then Err (InvalidPackFile (str "Version Number is " ++ show_dec version ++ str ", not 2"))
    else
      let! '(object_num_bytes, pack) := read_field "Error reading object number: " pack in
      let header_data := header_data ++ object_num_bytes in
      Ok ((from_be object_num_bytes, header_data), pack).

(** flate2's [ZlibDecoder] over an in-memory reader: what a [read] into [room] bytes
    delivers, the next state and the input left. *)
Class ZlibDecoder := {
  zdec : Type;
  zdec_new : zdec;
  zdec_read : zdec -> bytes -> Z -> Res IoError bytes * (zdec * bytes)
}.

(** The documented behaviour on a stream [z] that inflates to [out]: successive reads
    deliver [out], a read delivers nothing only at the end, and at the end exactly the
    stream has been consumed. *)
Class ZlibLaws `{ZlibDecoder} (deflated : bytes -> bytes -> Prop)
  (zpending : zdec -> bytes -> bytes -> Prop) : Prop := {
  zpending_new : forall z out, deflated z out -> zpending zdec_new z out;
  zdec_read_ok : forall st z out rest room, zpending st z out -> 0 < room ->
    exists d out' z' st', zdec_read st (z ++ rest) room = (Ok d, (st', z' ++ rest))
      /\ out = d ++ out' /\ blen d <= room /\ zpending st' z' out' /\ (d = [] -> out = [] /\ z' = [])
}.

Section decoding.
Context `{Build} `{TextEnv} `{HexCrate} `{Hasher} `{ZlibDecoder} `{Crc32}.

(** [Read::read_exact] of [n] more bytes. *)
Fixpoint zdec_read_exact (fuel : nat) (st : zdec) (input : bytes) (n : Z) (acc : bytes)
  : Res IoError (bytes * (zdec * bytes)) :=
  match fuel with
  | O => OutOfFuel
  | S fuel =>
      if n <=? 0 then Ok (acc, (st, input))
      else
        match zdec_read st input n with
        | (Ok d, (st, input)) =>
            if bool_decide (d = []) then Err UnexpectedEof
            else zdec_read_exact fuel st input (n - blen d) (acc ++ d)
        | (Err e, _) => Err e
        | (Panic, _) => Panic
        | (OutOfFuel, _) => OutOfFuel
        end
  end.

Definition too_large (expected_size : Z) : GitError :=
  InvalidPackFile (str "The object size exceeds the expected size " ++ show_dec expected_size).

(** The final read of one byte, which must deliver nothing. *)
Definition check_extra (st : zdec) (input : bytes) (expected_size : Z) : Res GitError bytes :=
  match zdec_read st input 1 with
  | (Ok extra, (_, input)) => if bool_decide (extra = []) then Ok input else Err (too_large expected_size)
  | (Err e, _) => Err (invalid_pack "Decompression error: " e)
  | (Panic, _) => Panic
  | (OutOfFuel, _) => OutOfFuel
  end.

(** The data, the number of compressed bytes and the rest; [vec![0; expected_size]] panics
    beyond [isize::MAX]. *)
Definition decompress_data (pack : bytes) (expected_size : Z) : Res GitError ((bytes * Z) * bytes) :=
  if isize_max <? expected_size then Panic
  else
    let! '(buf, (st, input)) :=
      map_err (invalid_pack "Decompression error: ")
        (zdec_read_exact (S (Z.to_nat expected_size)) zdec_new pack expected_size []) in
    let! input := check_extra st input expected_size in
    Ok ((buf, blen pack - blen input), input).

Definition SKIP_INFLATE_BUFFER_SIZE : Z := 20 * 1024.

(** The loop of [skip_compressed_data] and [hash_compressed_object]: [each] sees the pieces,
    which are of at most [buffer] bytes. *)
Fixpoint drain_loop {A} (buffer : Z) (each : A -> bytes -> A) (fuel : nat) (st : zdec) (input : bytes)
  (expected_size remaining : Z) (a : A) : Res GitError (A * (zdec * bytes)) :=
  match fuel with
  | O => OutOfFuel
  | S fuel =>
      if 0 <? remaining then
        let chunk_len := Z.min remaining buffer in
        match zdec_read st input chunk_len with
        | (Ok d, (st, input)) =>
            if bool_decide (d = [])
            then Err (InvalidPackFile (str "The object size is smaller than the expected size " ++ show_dec expected_size))
            else drain_loop buffer each fuel st input expected_size (remaining - blen d) (each a d)
        | (Err e, _) => Err (invalid_pack "Decompression error: " e)
        | (Panic, _) => Panic
        | (OutOfFuel, _) => OutOfFuel
        end
      else Ok (a, (st, input))
  end.

Definition skip_compressed_data (pack : bytes) (expected_size : Z) : Res GitError (Z * bytes) :=
  let! '(_, (st, input)) :=
    drain_loop SKIP_INFLATE_BUFFER_SIZE (fun (a : unit) _ => a) (S (Z.to_nat expected_size)) zdec_new pack expected_size expected_size tt in
  let! input := check_extra st input expected_size in
  Ok (blen pack - blen input, input).

Definition hash_compressed_object (pack : bytes) (obj_type : ObjectType.t) (expected_size : Z) (kind : HashKind.t)
  : Res GitError ((ObjectHash.t * Z) * bytes) :=
  let! type_bytes :=
    ok_or (ObjectType.to_bytes obj_type)
      (InvalidObjectType (ObjectType.fmt obj_type
         ++ str " has no loose-object header and cannot be hashed as a base object")) in
  let hasher := HashAlgorithm_new_for_kind kind in
  let hasher := HashAlgorithm_update hasher type_bytes in
  let hasher := HashAlgorithm_update hasher (str " ") in
  let hasher := HashAlgorithm_update hasher (show_dec expected_size) in
  let hasher := HashAlgorithm_update hasher [0] in
  let! '(hasher, (st, input)) :=
    drain_loop SKIP_INFLATE_BUFFER_SIZE HashAlgorithm_update (S (Z.to_nat expected_size)) zdec_new pack expected_size expected_size hasher in
  let! input := check_extra st input expected_size in
  Ok ((HashAlgorithm_finalize_object_hash hasher, blen pack - blen input), input).

(** * Entries *)

Definition verify_known_crc (track_crc : bool) (offset computed : Z) (known_crc : option Z) : Res GitError unit :=
  match known_crc with
  | Some expected =>
      if track_crc && negb (computed =? expected)
      then Err (InvalidPackFile (str "Object at offset " ++ show_dec offset ++ str " has CRC32 "
                  ++ show_hex (be32 computed) ++ str " but the pack index records " ++ show_hex (be32 expected)))
      else Ok tt
  | None => Ok tt
  end.

Definition verify_known_hash (offset : Z) (computed : ObjectHash.t) (known : option ObjectHash.t) : Res GitError unit :=
  match known with
  | Some expected =>
      if negb (bool_decide (expected = computed))
      then Err (InvalidPackFile (str "Object at offset " ++ show_dec offset ++ str " hashes to "
                  ++ ObjectHash.fmt computed ++ str " (" ++ HashKind.as_str (ObjectHash.kind computed)
                  ++ str ") but the pack index names it " ++ ObjectHash.fmt expected ++ str " ("
                  ++ HashKind.as_str (ObjectHash.kind expected) ++ str ")"))
      else Ok tt
  | None => Ok tt
  end.

Definition should_skip_no_callback_object (skip_unneeded_objects : bool) (known : option ObjectHash.t)
  (retention : option DecodeRetention) (offset : Z) : bool :=
  if negb skip_unneeded_objects then false
  else
    match known, retention with
    | Some hash, Some retention => negb (should_retain retention offset hash)
    | _, _ => false
    end.

(** [CrcCountingReader]: the CRC of the bytes taken from [pack] so far, if it is tracked. *)
Definition reader_crc32 (track_crc : bool) (pack rest : bytes) : Z :=
  if track_crc then calculate_crc32 (take (length pack - length rest) pack) else 0.

(** [from_stream_for_kind] on an in-memory reader. *)
Definition read_object_id (kind : HashKind.t) (s : bytes) : Res HashError (ObjectHash.t * bytes) :=
  let! '(h, evs) := from_stream_for_kind kind (match s with [] => [] | _ => [Chunk s] end) in
  Ok (h, stream_data evs).

(** The arm of the base objects: [offset] is where the payload starts, [init_offset] and
    [pack] where the entry does. *)
Definition decode_base (kind : HashKind.t) (pack payload : bytes) (init_offset offset : Z) (t : ObjectType.t) (size : Z)
  (track_crc skip_unneeded_objects emit_skipped_base_callback : bool) (known : option ObjectHash.t)
  (known_crc : option Z) (retention : option DecodeRetention) : Res GitError ((option CacheObject * Z) * bytes) :=
  if should_skip_no_callback_object skip_unneeded_objects known retention init_offset then
    let! '(raw_size, rest) :=
      match known with
      | Some expected =>
          let! '((computed, raw_size), rest) := hash_compressed_object payload t size kind in
          let! _ := verify_known_hash init_offset computed (Some expected) in
          Ok (raw_size, rest)
      | None => skip_compressed_data payload size
      end in
    let offset := offset + raw_size in
    let crc := reader_crc32 track_crc pack rest in
    let! _ := verify_known_crc track_crc init_offset crc known_crc in
    if emit_skipped_base_callback then
      let! hash := ok_or known (InvalidPackFile (str "Missing object hash for skipped callback entry")) in
      Ok ((Some (mkCacheObject (BaseObject t hash) init_offset crc [] false None), offset), rest)
    else Ok ((None, offset), rest)
  else
    let! '((data, raw_size), rest) := decompress_data payload size in
    let offset := offset + raw_size in
    let crc := reader_crc32 track_crc pack rest in
    let! _ := verify_known_crc track_crc init_offset crc known_crc in
    let! hash := map_err GitError_from (calculate_object_hash_for_kind kind t data) in
    let! _ := verify_known_hash init_offset hash known in
    Ok ((Some (mkCacheObject (BaseObject t hash) init_offset crc data false None), offset), rest).

(** The common end of the delta arms: the payload, the size it announces, the CRC. *)
Definition decode_delta (pack payload : bytes) (init_offset offset size : Z) (mk_info : Z -> CacheObjectInfo)
  (track_crc : bool) (known : option ObjectHash.t) (known_crc : option Z)
  : Res GitError ((option CacheObject * Z) * bytes) :=
  let! '((data, raw_size), rest) := decompress_data payload size in
  let offset := offset + raw_size in
  let! '((_, final_size), _) := map_err IOError (read_delta_object_size data) in
  let crc := reader_crc32 track_crc pack rest in
  let! _ := verify_known_crc track_crc init_offset crc known_crc in
  Ok ((Some (mkCacheObject (mk_info final_size) init_offset crc data true known), offset), rest).

(** The object, the offset after the entry and the rest of the pack. *)
Definition decode_pack_object_with_crc (kind : HashKind.t) (pack : bytes) (offset : Z)
  (track_crc skip_unneeded_objects emit_skipped_base_callback : bool) (known : option ObjectHash.t)
  (known_crc : option Z) (retention : option DecodeRetention) : Res GitError ((option CacheObject * Z) * bytes) :=
  let init_offset := offset in
  let! '(((type_bits, size), offset), s) :=
    map_err (invalid_pack "Read error: ") (read_type_and_varint_size offset pack) in
  let! t := ObjectType.from_pack_type_u8 type_bits in
  match t with
  | ObjectType.Commit | ObjectType.Tree | ObjectType.Blob | ObjectType.Tag =>
      decode_base kind pack s init_offset offset t size track_crc skip_unneeded_objects emit_skipped_base_callback
        known known_crc retention
  | ObjectType.OffsetDelta | ObjectType.OffsetZstdelta =>
      let! '((delta_offset, n), s) := map_err (invalid_pack "Read offset-delta base error: ") (read_offset_encoding s) in
      let offset := offset + n in
      if init_offset <? delta_offset then Err (InvalidObjectInfo (str "Invalid OffsetDelta offset"))
      else
        let base_offset := init_offset - delta_offset in
        decode_delta pack s init_offset offset size
          (match t with ObjectType.OffsetDelta => OffsetDelta base_offset | _ => OffsetZstdelta base_offset end)
          track_crc known known_crc
  | ObjectType.HashDelta =>
      let! '(ref_sha, s) :=
        map_err (fun e => InvalidPackFile (str "Read hash-delta base hash error: " ++ hash_error_text e))
          (read_object_id kind s) in
      let offset := offset + HashKind.size kind in
      decode_delta pack s init_offset offset size (HashDelta ref_sha) track_crc known known_crc
  | other => Err (InvalidPackFile (str "AI object type `" ++ ObjectType.fmt other ++ str "` cannot appear in a pack file"))
  end.

Definition decode_pack_object_with_kind (kind : HashKind.t) (pack : bytes) (offset : Z)
  : Res GitError ((option CacheObject * Z) * bytes) :=
  decode_pack_object_with_crc kind pack offset true false false None None None.

(** * Rebuilding deltas *)

(** [to_string] of a delta error; zstd's delta format. *)
Context (delta_error_text : GitDeltaError -> bytes) (zstdelta_apply : bytes -> bytes -> Res bytes bytes).
Context `{Allocator}.

(** The common end of [rebuild_delta_with_hash] and [rebuild_zstdelta_with_hash]. *)
Definition rebuilt (delta_obj base_obj : CacheObject) (known : option ObjectHash.t) (result : bytes)
  : Res GitError CacheObject :=
  let! base_hash := ok_or (base_object_hash base_obj)
                      (DeltaObjectError (str "delta base is not a resolved base object")) in
  let kind := ObjectHash.kind base_hash in
  let! hash := map_err GitError_from (calculate_object_hash_for_kind kind (object_type base_obj) result) in
  let! _ := verify_known_hash (co_offset delta_obj) hash known in
  Ok (mkCacheObject (BaseObject (object_type base_obj) hash) (co_offset delta_obj) (co_crc32 delta_obj) result
        (is_delta_in_pack delta_obj) None).

Definition rebuild_delta_with_hash (delta_obj base_obj : CacheObject) (known : option ObjectHash.t)
  : Res GitError CacheObject :=
  let! result := map_err (fun e => DeltaObjectError (delta_error_text e))
                   (delta_decode (data_decompressed delta_obj) (data_decompressed base_obj)) in
  rebuilt delta_obj base_obj known result.

Definition rebuild_delta (delta_obj base_obj : CacheObject) : Res GitError CacheObject :=
  rebuild_delta_with_hash delta_obj base_obj None.

Definition rebuild_zstdelta_with_hash (delta_obj base_obj : CacheObject) (known : option ObjectHash.t)
  : Res GitError CacheObject :=
  let! result := map_err (fun e => DeltaObjectError (str "Failed to apply zstdelta: " ++ e))
                   (zstdelta_apply (data_decompressed base_obj) (data_decompressed delta_obj)) in
  rebuilt delta_obj base_obj known result.

Definition rebuild_zstdelta (delta_obj base_obj : CacheObject) : Res GitError CacheObject :=
  rebuild_zstdelta_with_hash delta_obj base_obj None.

(** The [match] of [process_delta]. *)
Definition rebuild (delta_obj base_obj : CacheObject) : Res GitError CacheObject :=
  match info delta_obj with
  | OffsetDelta _ _ | HashDelta _ _ => rebuild_delta_with_hash delta_obj base_obj (known_hash delta_obj)
  | OffsetZstdelta _ _ => rebuild_zstdelta_with_hash delta_obj base_obj (known_hash delta_obj)
  | BaseObject _ _ => Panic
  end.

(** * The dependency scan *)

(** The base an entry refers to is counted; returns the rest and the number of bytes read. *)
Definition scan_reference (init_offset : Z) (kind : HashKind.t) (t : ObjectType.t) (s : bytes) (retention : DecodeRetention)
  : Res GitError ((DecodeRetention * Z) * bytes) :=
  match t with
  | ObjectType.OffsetDelta | ObjectType.OffsetZstdelta =>
      let! '((delta_offset, n), s) := map_err (invalid_pack "Read error: ") (read_offset_encoding s) in
      if init_offset <? delta_offset then Err (InvalidObjectInfo (str "Invalid OffsetDelta offset"))
      else Ok ((add_offset_dependency retention (init_offset - delta_offset), n), s)
  | ObjectType.HashDelta =>
      let! '(ref_sha, s) := map_err (fun e => InvalidPackFile (str "Read error: " ++ hash_error_text e))
                              (read_object_id kind s) in
      Ok ((add_hash_dependency retention ref_sha, HashKind.size kind), s)
  | ObjectType.Commit | ObjectType.Tree | ObjectType.Blob | ObjectType.Tag => Ok ((retention, 0), s)
  | other => Err (InvalidPackFile (str "AI object type `" ++ ObjectType.fmt other ++ str "` cannot appear in a pack file"))
  end.

Definition scan_object_dependency (pack : bytes) (init_offset : Z) (retention : DecodeRetention) (kind : HashKind.t)
  : Res GitError DecodeRetention :=
  let! '(((type_bits, _), _), s) := map_err (invalid_pack "Read error: ") (read_type_and_varint_size init_offset pack) in
  let! obj_type := ObjectType.from_pack_type_u8 type_bits in
  let! '((retention, _), _) := scan_reference init_offset kind obj_type s retention in
  Ok retention.

(** [for _ in 0..object_num]. *)
Fixpoint scan_loop (n : nat) (kind : HashKind.t) (pack : bytes) (offset : Z) (retention : DecodeRetention)
  : Res GitError ((DecodeRetention * Z) * bytes) :=
  match n with
  | O => Ok ((retention, offset), pack)
  | S n =>
      let init_offset := offset in
      let! '(((type_bits, size), offset), s) :=
        map_err (invalid_pack "Read error: ") (read_type_and_varint_size offset pack) in
      let! obj_type := ObjectType.from_pack_type_u8 type_bits in
      let! '((retention, bytes_read), s) := scan_reference init_offset kind obj_type s retention in
      let offset := offset + bytes_read in
      let! '(raw_size, s) := skip_compressed_data s size in
      scan_loop n kind s (offset + raw_size) retention
  end.

Definition scan_decode_retention (pack : bytes) (kind : HashKind.t) : Res GitError DecodeRetention :=
  let! '((object_num, _), pack) := check_header pack in
  let! '((retention, _), pack) := scan_loop (Z.to_nat object_num) kind pack 12 DecodeRetention_default in
  let! '(_, pack) := map_err (invalid_pack "Read error: ") (read_exact (HashKind.size kind) pack) in
  if negb (fst (is_eof pack)) then Err (InvalidPackFile (str "The pack file is not at the end"))
  else Ok retention.

End decoding.

(** * The trailer *)

Section tee.
Context `{TextEnv} `{Hasher}.

(** The hashing part of [TeeReader]. *)
Record PackTee : Type := mkTee { payload_hash : HashAlgorithm; hash_tail : bytes; hash_size : Z }.

Definition record_pack_bytes (t : PackTee) (b : bytes) : Res Empty_set PackTee :=
  if bool_decide (b = []) then Ok t
  else
    let total_len := blen (hash_tail t) + blen b in
    if total_len <=? hash_size t then Ok (mkTee (payload_hash t) (hash_tail t ++ b) (hash_size t))
    else
      let hash_len := total_len - hash_size t in
      if hash_len <=? blen (hash_tail t) then
        let! front := or_panic (get_range (hash_tail t) 0 hash_len) in
        let! back := or_panic (get_range (hash_tail t) hash_len (blen (hash_tail t))) in
        Ok (mkTee (HashAlgorithm_update (payload_hash t) front) (back ++ b) (hash_size t))
      else
        let tail_len := blen (hash_tail t) in
        let payload := if bool_decide (hash_tail t = []) then payload_hash t
                       else HashAlgorithm_update (payload_hash t) (hash_tail t) in
        let bytes_hash_len := hash_len - tail_len in
        let! front := or_panic (get_range b 0 bytes_hash_len) in
        let! back := or_panic (get_range b bytes_hash_len (blen b)) in
        Ok (mkTee (HashAlgorithm_update payload front) back (hash_size t)).

Definition tee_new (kind : HashKind.t) : PackTee :=
  mkTee (HashAlgorithm_new_for_kind kind) [] (HashKind.size kind).

(** The successive [read]s and [consume]s of one pack. *)
Fixpoint record_all (t : PackTee) (chunks : list bytes) : Res Empty_set PackTee :=
  match chunks with
  | [] => Ok t
  | c :: chunks => let! t := record_pack_bytes t c in record_all t chunks
  end.

Record PackHashCheck : Type := mkHashCheck { check_payload : ObjectHash.t; check_trailer : ObjectHash.t }.

Definition finish_pack_hash_check (t : PackTee) : Res GitError PackHashCheck :=
  if negb (blen (hash_tail t) =? hash_size t)
  then Err (InvalidPackFile (str "Pack file is too small to contain a trailer hash"))
  else
    let kind := HashAlgorithm_kind (payload_hash t) in
    let! trailer := map_err (fun e => InvalidPackFile (str "Read pack file error: " ++ hash_error_text e))
                      (ObjectHash.from_bytes_for_kind kind (hash_tail t)) in
    Ok (mkHashCheck (HashAlgorithm_finalize_object_hash (payload_hash t)) trailer).

Definition verify_pack_hash_check `{HexCrate} (c : PackHashCheck) (signature : ObjectHash.t) : Res GitError unit :=
  if negb (bool_decide (check_trailer c = signature))
  then Err (InvalidPackFile (str "The pack file trailer hash " ++ ObjectHash.fmt (check_trailer c)
              ++ str " does not match decoded trailer hash " ++ ObjectHash.fmt signature))
  else if negb (bool_decide (check_payload c = signature))
  then Err (InvalidPackFile (str "The pack file hash " ++ ObjectHash.fmt (check_payload c)
              ++ str " does not match the trailer hash " ++ ObjectHash.fmt signature))
  else Ok tt.

End tee.

(** * Inflating entries *)

Section inflating.
Context `{Build} `{TextEnv} `{HexCrate} `{HasherLaws} `{ZlibLaws deflated zpending}.

Lemma zdec_read_exact_ok fuel st z a b rest acc :
  zpending st z (a ++ b) -> (length a < fuel)%nat ->
  exists st' z', zdec_read_exact fuel st (z ++ rest) (blen a) acc = Ok (acc ++ a, (st', z' ++ rest))
    /\ zpending st' z' b.
Proof.
  revert st z a acc. induction fuel as [|fuel IH]; intros st z a acc Hp Hf; [lia|]. cbn [zdec_read_exact].
  destruct a as [|x a]; [exists st, z; change (blen (@nil Z)) with 0; rewrite app_nil_r; done|].
  set (l := x :: a) in *. assert (Hpos : 0 < blen l) by (unfold l; rewrite blen_cons; pose proof (blen_nonneg a); lia).
  replace (blen l <=? 0) with false by lia.
  destruct (zdec_read_ok st z (l ++ b) rest (blen l) Hp Hpos) as (d & out' & z' & st' & -> & Heq & Hd & Hp' & Hend).
  case_bool_decide as Hnil; [destruct (Hend Hnil) as [Hz _]; unfold l in Hz; discriminate Hz|].
  assert (Hld : exists l', l = d ++ l' /\ out' = l' ++ b).
  { exists (drop (length d) l). assert (Hlen : (length d <= length l)%nat) by (unfold blen in Hd; lia).
    pose proof (f_equal (take (length d)) Heq) as Ht. pose proof (f_equal (drop (length d)) Heq) as Hdr.
    rewrite take_app_le, take_app_length in Ht by done. rewrite drop_app_le, drop_app_length in Hdr by done.
    split; [|done]. rewrite <- Ht at 1. by rewrite take_drop. }
  destruct Hld as (l' & Hl & ->). rewrite Hl in Hf |- *. rewrite blen_app. replace (blen d + blen l' - blen d) with (blen l') by lia.
  destruct (IH st' z' l' (acc ++ d) Hp') as (st2 & z2 & E & Hp2).
  { rewrite length_app in Hf. destruct d; [done|]. cbn in Hf. lia. }
  exists st2, z2. by rewrite E, <- app_assoc.
Qed.

Lemma check_extra_ok st z rest n : zpending st z [] -> check_extra st (z ++ rest) n = Ok rest.
Proof.
  intros Hp. unfold check_extra. destruct (zdec_read_ok st z [] rest 1 Hp) as (d & out' & z' & st' & -> & Heq & _ & _ & Hend);
    [lia|]. symmetry in Heq. apply app_eq_nil in Heq as [-> _]. destruct (Hend eq_refl) as [_ ->]. done.
Qed.

Lemma decompress_data_ok z data rest :
  deflated z data -> blen data <= isize_max ->
  decompress_data (z ++ rest) (blen data) = Ok ((data, blen z), rest).
Proof.
  intros Hz Hlen. unfold decompress_data. replace (isize_max <? blen data) with false by lia.
  destruct (zdec_read_exact_ok (S (Z.to_nat (blen data))) zdec_new z data [] rest []) as (st & z' & -> & Hp).
  { rewrite app_nil_r. by apply zpending_new. } { unfold blen. lia. }
  cbn [map_err rbind app]. rewrite check_extra_ok by done. cbn [rbind]. rewrite blen_app. do 3 f_equal. lia.
Qed.

Lemma drain_loop_ok {A} buffer (each : A -> bytes -> A) fuel st z out rest n a :
  0 < buffer -> zpending st z out -> (length out < fuel)%nat ->
  exists ds st' z', concat ds = out
    /\ drain_loop buffer each fuel st (z ++ rest) n (blen out) a = Ok (fold_left each ds a, (st', z' ++ rest))
    /\ zpending st' z' [].
Proof.
  revert st z out a. induction fuel as [|fuel IH]; intros st z out a Hbuf Hp Hf; [lia|]. cbn [drain_loop].
  destruct (0 <? blen out) eqn:E.
  - destruct (zdec_read_ok st z out rest (Z.min (blen out) buffer) Hp)
      as (d & out' & z' & st' & -> & -> & _ & Hp' & Hend); [lia|].
    case_bool_decide as Hnil; [destruct (Hend Hnil) as [Hz _]; rewrite Hz in E; discriminate E|].
    rewrite blen_app. replace (blen d + blen out' - blen d) with (blen out') by lia.
    destruct (IH st' z' out' (each a d) Hbuf Hp') as (ds & st2 & z2 & <- & E2 & Hp2).
    { rewrite length_app in Hf. destruct d; [done|]. cbn in Hf. lia. }
    exists (d :: ds), st2, z2. done.
  - destruct out as [|x out]; [|rewrite blen_cons in E; pose proof (blen_nonneg out); lia].
    exists [], st, z. done.
Qed.

Lemma fold_update ds h p :
  fold_left HashAlgorithm_update ds (HashAlgorithm_update h p) = HashAlgorithm_update h (p ++ concat ds).
Proof.
  revert p. induction ds as [|d ds IH]; intros p; cbn [fold_left concat]; [by rewrite app_nil_r|].
  by rewrite update_app, IH, app_assoc.
Qed.

Lemma hash_compressed_object_ok z data rest t label kind :
  deflated z data -> ObjectType.to_bytes t = Some label ->
  hash_compressed_object (z ++ rest) t (blen data) kind
  = Ok ((ObjectHash_new_for_kind kind (loose_object label data), blen z), rest).
Proof.
  intros Hz Ht. unfold hash_compressed_object. rewrite Ht. cbn [ok_or rbind].
  destruct (drain_loop_ok SKIP_INFLATE_BUFFER_SIZE HashAlgorithm_update (S (Z.to_nat (blen data))) zdec_new z data rest (blen data)
    (HashAlgorithm_update (HashAlgorithm_update (HashAlgorithm_update (HashAlgorithm_update
       (HashAlgorithm_new_for_kind kind) label) (str " ")) (show_dec (blen data))) [0]))
    as (ds & st & z' & Hds & -> & Hp); [done|by apply zpending_new|unfold blen; lia|].
  cbn [rbind]. rewrite check_extra_ok by done. cbn [rbind]. rewrite !update_app, fold_update, Hds, blen_app.
  unfold ObjectHash_new_for_kind, loose_object. rewrite <- !app_assoc. do 3 f_equal. lia.
Qed.

Lemma skip_compressed_data_ok z data rest :
  deflated z data -> skip_compressed_data (z ++ rest) (blen data) = Ok (blen z, rest).
Proof.
  intros Hz. unfold skip_compressed_data.
  destruct (drain_loop_ok SKIP_INFLATE_BUFFER_SIZE (fun (a : unit) _ => a) (S (Z.to_nat (blen data))) zdec_new z data rest (blen data) tt)
    as (ds & st & z' & _ & -> & Hp); [done|by apply zpending_new|unfold blen; lia|].
  cbn [rbind]. rewrite check_extra_ok by done. cbn [rbind]. rewrite blen_app. do 2 f_equal. lia.
Qed.

End inflating.

(** * What decoding an entry gives *)

Lemma reader_crc32_entry `{Crc32} track enc rest :
  reader_crc32 track (enc ++ rest) rest = if track then calculate_crc32 enc else 0.
Proof.
  unfold reader_crc32. destruct track; [|done]. rewrite length_app.
  replace (length enc + length rest - length rest)%nat with (length enc) by lia. by rewrite take_app_length.
Qed.

Lemma verify_known_hash_spec `{HexCrate} off id known :
  match verify_known_hash off id known with
  | Ok _ => known = None \/ known = Some id
  | Err _ => ~ (known = None \/ known = Some id)
  | Panic | OutOfFuel => False
  end.
Proof.
  unfold verify_known_hash. destruct known as [e|]; [|by left]. case_bool_decide as Hd; cbn [negb].
  - right. congruence.
  - intros [?|?]; congruence.
Qed.

Lemma verify_known_crc_spec track off crc known_crc :
  match verify_known_crc track off crc known_crc with
  | Ok _ => track = false \/ known_crc = None \/ known_crc = Some crc
  | Err _ => ~ (track = false \/ known_crc = None \/ known_crc = Some crc)
  | Panic | OutOfFuel => False
  end.
Proof.
  unfold verify_known_crc. destruct known_crc as [e|]; [|by right; left]. destruct track; [|by left]. cbn [andb].
  destruct (crc =? e) eqn:E; cbn [negb].
  - right. right. f_equal. lia.
  - intros [?|[?|Heq]]; try discriminate. injection Heq as ->. lia.
Qed.

Lemma calculate_object_hash_ok `{HasherLaws} kind t label data :
  ObjectType.to_bytes t = Some label -> blen data <= usize_max ->
  calculate_object_hash_for_kind kind t data = Ok (ObjectHash_new_for_kind kind (loose_object label data)).
Proof.
  intros Ht Hlen. unfold calculate_object_hash_for_kind. rewrite Ht. cbn [ok_or rbind].
  by rewrite hash_loose_object_eq.
Qed.

Section entries.
Context `{Build} `{TextEnv} `{HexCrate} `{HasherLaws} `{ZlibLaws deflated zpending} `{Crc32}.

Lemma decode_base_ok kind enc payload t label data init off rest (track skip emit : bool) known known_crc retention :
  ObjectType.to_bytes t = Some label -> blen data <= isize_max -> deflated payload data ->
  let id := ObjectHash_new_for_kind kind (loose_object label data) in
  let crc := if track then calculate_crc32 enc else 0 in
  let good := (known = None \/ known = Some id) /\ (track = false \/ known_crc = None \/ known_crc = Some crc) in
  let skipped := should_skip_no_callback_object skip known retention init in
  match decode_base kind (enc ++ rest) (payload ++ rest) init off t (blen data) track skip emit known known_crc retention with
  | Ok r => good /\ r = ((if skipped && negb emit then None
                          else Some (mkCacheObject (BaseObject t id) init crc (if skipped then [] else data) false None),
                          off + blen payload), rest)
  | Err _ => ~ good
  | Panic | OutOfFuel => False
  end.
Proof.
  intros Ht Hlen Hz id crc good skipped. unfold decode_base. fold skipped.
  assert (Hu : blen data <= usize_max) by (unfold isize_max, usize_max in *; lia).
  pose proof (verify_known_hash_spec init id known) as Hh. pose proof (verify_known_crc_spec track init crc known_crc) as Hc.
  destruct skipped eqn:Hsk.
  - assert (Hknown : exists e, known = Some e).
    { unfold skipped, should_skip_no_callback_object in Hsk. destruct skip, known; try discriminate Hsk; eauto. }
    destruct Hknown as [e ->]. rewrite (hash_compressed_object_ok payload data rest t label kind) by done.
    cbn [rbind]. fold id. destruct (verify_known_hash init id (Some e)) as [[]| | |]; cbn [rbind]; try done; [|by intros [? ?]].
    rewrite reader_crc32_entry. fold crc. destruct (verify_known_crc track init crc known_crc) as [[]| | |]; cbn [rbind];
      try done; [|by intros [? ?]].
    assert (e = id) as -> by (destruct Hh; congruence). by destruct emit.
  - rewrite decompress_data_ok by done. cbn [rbind]. rewrite reader_crc32_entry. fold crc.
    destruct (verify_known_crc track init crc known_crc) as [[]| | |]; cbn [rbind]; try done; [|by intros [? ?]].
    rewrite (calculate_object_hash_ok kind t label data) by done. cbn [map_err rbind]. fold id.
    destruct (verify_known_hash init id known) as [[]| | |]; cbn [rbind]; try done. by intros [? ?].
Qed.

End entries.

(** What an entry of a base object decodes to, without an index. *)
Lemma base_entry_object `{Build} `{TextEnv} `{HexCrate} `{HasherLaws} `{ZlibLaws deflated zpending} `{Crc32}
  (compress : bytes -> bytes) kind t label data rest init (track skip emit : bool) :
  ObjectType.is_base t = true -> ObjectType.to_bytes t = Some label -> blen data <= isize_max ->
  deflated (compress data) data ->
  exists enc, encode_one_object compress t data None = Ok enc
    /\ decode_pack_object_with_crc kind (enc ++ rest) init track skip emit None None None
       = Ok ((Some (mkCacheObject (BaseObject t (ObjectHash_new_for_kind kind (loose_object label data))) init
                      (if track then calculate_crc32 enc else 0) data false None), init + blen enc), rest).
Proof.
  intros Hbase Ht Hlen Hz. assert (Hu : blen data <= usize_max) by (unfold isize_max, usize_max in *; lia).
  destruct (entry_reads compress t data None ltac:(by destruct t) Hu) as (enc & n & Henc & Hn & Hread). exists enc. split; [done|].
  destruct (Hread init rest) as (payload & off' & Hr & Hpay). unfold decode_pack_object_with_crc. rewrite Hr.
  cbn [map_err rbind]. rewrite Hn. cbn [rbind].
  assert (Hp : payload = compress data ++ rest /\ init + blen enc = off' + blen (compress data)) by (destruct t; done).
  destruct Hp as [-> Hoff]. rewrite Hoff.
  pose proof (decode_base_ok kind enc (compress data) t label data init off' rest track skip emit None None None Ht Hlen Hz) as Hgoal.
  cbn zeta in Hgoal. replace (should_skip_no_callback_object skip None None init) with false in Hgoal by (by destruct skip).
  destruct (decode_base _ _ _ _ _ _ _ _ _ _ None None None) as [r|e| |]; try done; [|exfalso; apply Hgoal; auto].
  destruct Hgoal as [_ ->]. by destruct t.
Qed.

(** an entry of a base object decodes to that object: whatever [encode_one_object] wrote,
    the decoder gives the type, the data, the identifier and the CRC, and stops right after
    the entry; a name or a CRC from an index that does not fit makes it fail, also when the
    object is not needed and its data are only hashed and dropped. *)
Theorem base_entry_decodes `{Build} `{TextEnv} `{HexCrate} `{HasherLaws} `{ZlibLaws deflated zpending} `{Crc32}
  (compress : bytes -> bytes) (kind : HashKind.t) (t : ObjectType.t) (label data rest : bytes) (init : Z)
  (track skip emit : bool) (known : option ObjectHash.t) (known_crc : option Z) (retention : option DecodeRetention) :
  ObjectType.is_base t = true -> ObjectType.to_bytes t = Some label -> blen data <= isize_max ->
  deflated (compress data) data ->
  exists enc, encode_one_object compress t data None = Ok enc /\
  let id := ObjectHash_new_for_kind kind (loose_object label data) in
  let crc := if track then calculate_crc32 enc else 0 in
  let good := (known = None \/ known = Some id) /\ (track = false \/ known_crc = None \/ known_crc = Some crc) in
  let skipped := should_skip_no_callback_object skip known retention init in
  match decode_pack_object_with_crc kind (enc ++ rest) init track skip emit known known_crc retention with
  | Ok r => good /\ r = ((if skipped && negb emit then None
                          else Some (mkCacheObject (BaseObject t id) init crc (if skipped then [] else data) false None),
                          init + blen enc), rest)
  | Err _ => ~ good
  | Panic | OutOfFuel => False
  end.
Proof.
  intros Hbase Ht Hlen Hz. assert (Hu : blen data <= usize_max) by (unfold isize_max, usize_max in *; lia).
  assert (Hpack : packable t None) by (destruct t; done).
  destruct (entry_reads compress t data None Hpack Hu) as (enc & n & Henc & Hn & Hread). exists enc. split; [done|].
  destruct (Hread init rest) as (payload & off' & Hr & Hpay). unfold decode_pack_object_with_crc. rewrite Hr.
  cbn [map_err rbind]. rewrite Hn. cbn [rbind].
  assert (Hp : payload = compress data ++ rest /\ init + blen enc = off' + blen (compress data)) by (destruct t; done).
  destruct Hp as [-> Hoff]. rewrite Hoff.
  pose proof (decode_base_ok kind enc (compress data) t label data init off' rest track skip emit known known_crc
    retention Ht Hlen Hz) as Hgoal.
  destruct t; try done; exact Hgoal.
Qed.

(** Sizes announced by an accepted delta. *)
Lemma delta_decode_sizes `{Build} `{Allocator} stream base out :
  delta_decode stream base = Ok out -> exists rest, read_delta_object_size stream = Ok ((blen base, blen out), rest).
Proof.
  unfold delta_decode. intros Hd. ok_inv. destruct (negb (blen base =? z)) eqn:E1; [discriminate|]. ok_inv.
  destruct (negb (blen a =? z0)) eqn:E3; [discriminate|]. injection Hd as <-. exists l0.
  apply negb_false_iff, Z.eqb_eq in E1, E3. subst. by eapply read_delta_object_size_agrees.
Qed.

(** What an offset-delta entry decodes to. *)
Lemma delta_entry_object `{Build} `{TextEnv} `{HexCrate} `{HasherLaws} `{ZlibLaws deflated zpending} `{Crc32}
  `{Allocator} (compress : bytes -> bytes) kind base delta new_data rest init v (track skip emit : bool) known retention :
  0 < v <= init -> init <= usize_max -> blen delta <= isize_max -> deflated (compress delta) delta ->
  delta_decode delta base = Ok new_data ->
  exists enc, encode_one_object compress ObjectType.OffsetDelta delta (Some v) = Ok enc
    /\ decode_pack_object_with_crc kind (enc ++ rest) init track skip emit known None retention
       = Ok ((Some (mkCacheObject (OffsetDelta (init - v) (blen new_data)) init
                      (if track then calculate_crc32 enc else 0) delta true known), init + blen enc), rest).
Proof.
  intros Hv Hinit Hlen Hz Hdec. assert (Hu : blen delta <= usize_max) by (unfold isize_max, usize_max in *; lia).
  destruct (entry_reads compress ObjectType.OffsetDelta delta (Some v)) as (enc & n & Henc & Hn & Hread);
    [cbn; lia|done|].
  destruct (Hread init rest) as (payload & off' & Hr & v' & Hv' & Hoff). injection Hv' as <-.
  destruct (delta_decode_sizes _ _ _ Hdec) as (drest & Hsizes). exists enc. split; [done|].
  unfold decode_pack_object_with_crc. rewrite Hr. cbn [map_err rbind]. rewrite Hn. cbn [rbind]. rewrite Hoff.
  cbn [map_err rbind]. replace (init <? v) with false by lia. unfold decode_delta.
  rewrite decompress_data_ok by done. cbn [rbind]. rewrite Hsizes. cbn [map_err rbind verify_known_crc].
  rewrite reader_crc32_entry. do 3 f_equal. lia.
Qed.

(** Rebuilding it on its base. *)
Lemma rebuild_offset_delta `{Build} `{TextEnv} `{HexCrate} `{HasherLaws} `{Allocator} delta_error_text zstdelta_apply
  base bt bh label delta new_data init boff n crc known :
  info base = BaseObject bt bh -> ObjectType.to_bytes bt = Some label -> blen new_data <= usize_max ->
  delta_decode delta (data_decompressed base) = Ok new_data ->
  let id := ObjectHash_new_for_kind (ObjectHash.kind bh) (loose_object label new_data) in
  match rebuild delta_error_text zstdelta_apply (mkCacheObject (OffsetDelta boff n) init crc delta true known) base with
  | Ok r => (known = None \/ known = Some id) /\ r = mkCacheObject (BaseObject bt id) init crc new_data true None
  | Err _ => ~ (known = None \/ known = Some id)
  | Panic | OutOfFuel => False
  end.
Proof.
  intros Hbase Hlabel Hnew Hdec. cbn zeta. unfold rebuild. cbn [info known_hash].
  unfold rebuild_delta_with_hash. cbn [data_decompressed]. rewrite Hdec. cbn [map_err rbind].
  unfold rebuilt, base_object_hash, object_type. rewrite Hbase. cbn [ok_or rbind].
  rewrite (calculate_object_hash_ok _ bt label) by done. cbn [map_err rbind co_offset].
  pose proof (verify_known_hash_spec init (ObjectHash_new_for_kind (ObjectHash.kind bh) (loose_object label new_data)) known) as Hh.
  by destruct (verify_known_hash init _ known) as [[]| | |].
Qed.

(** an offset-delta entry resolves: what [encode_one_object] wrote for a delta decodes to
    a delta object that refers to the base [v] bytes before it and knows the size of its
    result, and rebuilding it on that base gives the object the delta stands for, under
    the identifier of its own data; a name from an index that does not fit is refused. *)
Theorem delta_entry_resolves `{Build} `{TextEnv} `{HexCrate} `{HasherLaws} `{ZlibLaws deflated zpending} `{Crc32}
  `{Allocator} (delta_error_text : GitDeltaError -> bytes) (zstdelta_apply : bytes -> bytes -> Res bytes bytes)
  (compress : bytes -> bytes) (kind : HashKind.t) (base : CacheObject) (bt : ObjectType.t) (bh : ObjectHash.t)
  (label delta new_data rest : bytes) (init v : Z) (track skip emit : bool) (known : option ObjectHash.t)
  (retention : option DecodeRetention) :
  0 < v <= init -> init <= usize_max -> blen delta <= isize_max -> deflated (compress delta) delta ->
  info base = BaseObject bt bh -> ObjectType.to_bytes bt = Some label -> blen new_data <= usize_max ->
  delta_decode delta (data_decompressed base) = Ok new_data ->
  exists enc o, encode_one_object compress ObjectType.OffsetDelta delta (Some v) = Ok enc
    /\ decode_pack_object_with_crc kind (enc ++ rest) init track skip emit known None retention
       = Ok ((Some o, init + blen enc), rest)
    /\ info o = OffsetDelta (init - v) (blen new_data)
    /\ let id := ObjectHash_new_for_kind (ObjectHash.kind bh) (loose_object label new_data) in
       let crc := if track then calculate_crc32 enc else 0 in
       match rebuild delta_error_text zstdelta_apply o base with
       | Ok r => (known = None \/ known = Some id) /\ r = mkCacheObject (BaseObject bt id) init crc new_data true None
       | Err _ => ~ (known = None \/ known = Some id)
       | Panic | OutOfFuel => False
       end.
Proof.
  intros Hv Hinit Hlen Hz Hbase Hlabel Hnew Hdec.
  destruct (delta_entry_object compress kind _ delta new_data rest init v track skip emit known retention Hv Hinit Hlen Hz Hdec)
    as (enc & Henc & Hd).
  exists enc. eexists. split; [done|]. split; [exact Hd|]. split; [done|]. by apply rebuild_offset_delta.
Qed.

(** * Concrete runs *)

(** A decoder for the stored format. *)
Definition stored_zlib : ZlibDecoder := {|
  zdec := Stored;
  zdec_new := StoredStart;
  zdec_read := fun st input room =>
    let '(o, (evs, st)) := @read stored_inflater (match input with [] => [] | _ => [Chunk input] end) st room in
    (map_err (fun f => match f with FailIo e => e | FailInterrupted => OtherIo "interrupted" end) o, (st, stream_data evs))
|}.

Lemma stored_zlib_laws : @ZlibLaws stored_zlib stored stored_pending.
Proof.
  split; [done|]. intros st z out rest room Hp Hroom. cbn [zdec_read stored_zlib].
  set (rd := match z ++ rest with [] => [] | _ => [Chunk (z ++ rest)] end).
  assert (Hs : Forall steady rd /\ stream_data rd = z ++ rest).
  { unfold rd. destruct (z ++ rest) as [|x l]; [by split; constructor|]. cbn. rewrite app_nil_r.
    split; [|done]. by repeat constructor. }
  destruct Hs as [Hsteady Hdata]. unfold read.
  destruct (@read_loop_ok stored_inflater stored stored_pending stored_laws
    (S (length (stream_data rd) + Z.to_nat room)) rd st z out rest room []) as
    (d & rd' & st' & z' & out' & -> & -> & _ & Hz' & Hp' & Hnil & Hd); try done; [lia|].
  cbn [app map_err] in *. exists d, out', z', st'. rewrite Hz'. do 4 (split; [done|]).
  intros Hempty. destruct (Hnil Hempty) as [-> ->]. by rewrite Hempty.
Qed.


Definition stored_compress (d : bytes) : bytes := blen d :: d.

#[local] Definition sample_crc : Crc32 := fun b => fold_left Z.add b 0.

Definition sample_base_id : ObjectHash.t :=
  @ObjectHash_new_for_kind toy_hasher HashKind.Sha1 (loose_object (str "blob") [1; 2; 3]).

Lemma base_entry_decodes_witness :
  exists enc, encode_one_object stored_compress ObjectType.Blob [1; 2; 3] None = Ok enc /\
  let id := sample_base_id in
  let good := (Some id = None \/ Some id = Some id)
              /\ (true = false \/ @None Z = None \/ @None Z = Some (@calculate_crc32 sample_crc enc)) in
  match @decode_pack_object_with_crc true plain_texts hex_reference toy_hasher stored_zlib sample_crc
          HashKind.Sha1 (enc ++ [9; 9]) 12 true false false (Some id) None None with
  | Ok r => good /\ r = ((Some (mkCacheObject (BaseObject ObjectType.Blob id) 12 (@calculate_crc32 sample_crc enc)
                                  [1; 2; 3] false None), 12 + blen enc), [9; 9])
  | Err _ => ~ good
  | Panic | OutOfFuel => False
  end.
Proof.
  apply (@base_entry_decodes true plain_texts hex_reference toy_hasher toy_hasher_laws stored_zlib stored stored_pending
    stored_zlib_laws sample_crc stored_compress HashKind.Sha1 ObjectType.Blob (str "blob") [1; 2; 3] [9; 9] 12
    true false false (Some sample_base_id) None None); [reflexivity|reflexivity|vm_compute; discriminate|reflexivity].
Defined.

Definition sample_base : CacheObject :=
  mkCacheObject (BaseObject ObjectType.Blob sample_base_id) 12 0 [1; 2; 3] false None.

(** Copy two bytes of the base, then the literal 7. *)
Definition sample_delta : bytes := [3; 3; 0x90; 2; 1; 7].

Lemma delta_entry_resolves_witness :
  exists enc o, encode_one_object stored_compress ObjectType.OffsetDelta sample_delta (Some 30) = Ok enc
    /\ @decode_pack_object_with_crc true plain_texts hex_reference toy_hasher stored_zlib sample_crc
         HashKind.Sha1 (enc ++ []) 42 false false false None None None = Ok ((Some o, 42 + blen enc), [])
    /\ info o = OffsetDelta 12 3
    /\ let id := @ObjectHash_new_for_kind toy_hasher HashKind.Sha1 (loose_object (str "blob") [1; 2; 7]) in
       match @rebuild plain_texts hex_reference toy_hasher (fun _ => []) (fun _ _ => Err []) unlimited o sample_base with
       | Ok r => (@None ObjectHash.t = None \/ None = Some id)
                 /\ r = mkCacheObject (BaseObject ObjectType.Blob id) 42 0 [1; 2; 7] true None
       | Err _ => ~ (@None ObjectHash.t = None \/ None = Some id)
       | Panic | OutOfFuel => False
       end.
Proof.
  apply (@delta_entry_resolves true plain_texts hex_reference toy_hasher toy_hasher_laws stored_zlib stored stored_pending
    stored_zlib_laws sample_crc unlimited (fun _ => []) (fun _ _ => Err []) stored_compress HashKind.Sha1 sample_base
    ObjectType.Blob sample_base_id (str "blob") sample_delta [1; 2; 7] [] 42 30 false false false None None);
    try reflexivity; try lia; vm_compute; try discriminate; split; try discriminate; reflexivity.
Defined.

(** a declared size beyond [isize::MAX] makes the decoder panic: [decompress_data] allocates
    what the entry header announces before it has seen any data, in every build. *)
Theorem huge_size_panics `{Build} `{TextEnv} `{HexCrate} `{Hasher} `{ZlibDecoder} `{Crc32} (kind : HashKind.t) (rest : bytes)
  (init : Z) (track emit : bool) (known : option ObjectHash.t) (known_crc : option Z) (retention : option DecodeRetention) :
  decode_pack_object_with_crc kind ([0xB0; 0x80; 0x80; 0x80; 0x80; 0x80; 0x80; 0x80; 0x80; 0x08] ++ rest) init track false emit
    known known_crc retention = Panic.
Proof.
  unfold decode_pack_object_with_crc.
  assert (Hread : exists off, read_type_and_varint_size init
    ([0xB0; 0x80; 0x80; 0x80; 0x80; 0x80; 0x80; 0x80; 0x80; 0x08] ++ rest) = Ok (((3, 2 ^ 63), off), rest))
    by (eexists; reflexivity).
  destruct Hread as [off ->]. reflexivity.
Qed.

(** * The trailer stays out of the payload hash *)

Section tee_proofs.
Context `{TextEnv} `{HasherLaws}.

Definition fed (h : HashAlgorithm) (p : bytes) : HashAlgorithm := if bool_decide (p = []) then h else HashAlgorithm_update h p.

Lemma fed_update h p q : q <> [] -> HashAlgorithm_update (fed h p) q = fed h (p ++ q).
Proof.
  intros Hq. unfold fed. rewrite (bool_decide_false (p ++ q = [])) by (intros [? ?]%app_eq_nil; done).
  case_bool_decide as Hp; [by subst|]. by rewrite update_app.
Qed.

(** [data] was seen: all but its last [hash_size] bytes are hashed. *)
Definition tee_inv (kind : HashKind.t) (data : bytes) (t : PackTee) : Prop :=
  hash_size t = HashKind.size kind
  /\ exists p, data = p ++ hash_tail t /\ payload_hash t = fed (HashAlgorithm_new_for_kind kind) p
     /\ blen (hash_tail t) <= hash_size t /\ (p <> [] -> blen (hash_tail t) = hash_size t).

Lemma record_pack_bytes_inv kind data t b :
  tee_inv kind data t -> exists t', record_pack_bytes t b = Ok t' /\ tee_inv kind (data ++ b) t'.
Proof.
  intros (Hsz & p & Hd & Hh & Hle & Hfull). unfold record_pack_bytes.
  assert (Hpos : 0 < HashKind.size kind) by (destruct kind; cbn; lia).
  case_bool_decide as Hb; [exists t; subst b; rewrite app_nil_r; split; [done|]; split; [done|]; by exists p|].
  assert (Hb0 : 0 < blen b) by (destruct b; [done|]; rewrite blen_cons; pose proof (blen_nonneg b); lia).
  pose proof (blen_nonneg (hash_tail t)).
  destruct (blen (hash_tail t) + blen b <=? hash_size t) eqn:E1.
  { eexists. split; [reflexivity|]. split; [done|]. exists p. cbn [hash_tail payload_hash hash_size].
    split; [by rewrite Hd, app_assoc|]. split; [done|]. rewrite blen_app. split; [lia|]. intros Hp. specialize (Hfull Hp). lia. }
  set (n := blen (hash_tail t) + blen b - hash_size t).
  destruct (n <=? blen (hash_tail t)) eqn:E2.
  - rewrite !get_range_ok by lia. cbn [or_panic rbind]. eexists. split; [reflexivity|]. split; [done|].
    set (front := slice (hash_tail t) 0 n). set (back := slice (hash_tail t) n (blen (hash_tail t))).
    assert (Hsplit : hash_tail t = front ++ back) by (unfold front, back; rewrite <- slice_split, slice_full by lia; done).
    assert (Hfl : blen front = n) by (unfold front; rewrite blen_slice by lia; lia).
    assert (Hbl : blen back = blen (hash_tail t) - n) by (unfold back; rewrite blen_slice by lia; lia).
    exists (p ++ front). cbn [hash_tail payload_hash hash_size]. rewrite blen_app.
    split; [rewrite Hd, Hsplit at 1; by rewrite <- !app_assoc|].
    split; [rewrite Hh; apply fed_update; intros Hn; rewrite Hn in Hfl; change (blen (@nil Z)) with 0 in Hfl; lia|].
    split; lia.
  - rewrite !get_range_ok by lia. cbn [or_panic rbind]. eexists. split; [reflexivity|]. split; [done|].
    set (k := n - blen (hash_tail t)). set (front := slice b 0 k). set (back := slice b k (blen b)).
    assert (Hsplit : b = front ++ back) by (unfold front, back; rewrite <- slice_split, slice_full by lia; done).
    assert (Hfl : blen front = k) by (unfold front; rewrite blen_slice by lia; lia).
    assert (Hbl : blen back = blen b - k) by (unfold back; rewrite blen_slice by lia; lia).
    assert (Hf : front <> []) by (intros Hn; rewrite Hn in Hfl; change (blen (@nil Z)) with 0 in Hfl; lia).
    exists (p ++ hash_tail t ++ front). cbn [hash_tail payload_hash hash_size].
    split; [rewrite Hd, Hsplit at 1; by rewrite <- !app_assoc|]. split; [|lia].
    rewrite Hh. case_bool_decide as Ht; [rewrite Ht; by apply fed_update|].
    rewrite fed_update by done. rewrite fed_update by done. by rewrite <- app_assoc.
Qed.

Lemma record_all_inv kind data t chunks :
  tee_inv kind data t -> exists t', record_all t chunks = Ok t' /\ tee_inv kind (data ++ concat chunks) t'.
Proof.
  revert data t. induction chunks as [|c chunks IH]; intros data t Hinv; cbn [record_all concat].
  - exists t. by rewrite app_nil_r.
  - destruct (record_pack_bytes_inv kind data t c Hinv) as (t1 & -> & H1'). cbn [rbind].
    destruct (IH _ _ H1') as (t2 & -> & H2'). exists t2. by rewrite app_assoc.
Qed.

End tee_proofs.

(** however the bytes of a pack arrive, the copying reader separates the trailer from the
    payload: it accepts a pack of more bytes than a trailer, takes the last bytes as the
    trailer and hashes exactly the others, and [verify_pack_hash_check] accepts a signature
    exactly when it is both. *)
Theorem tee_separates_trailer `{TextEnv} `{HexCrate} `{HasherLaws} (kind : HashKind.t) (chunks : list bytes)
  (signature : ObjectHash.t) :
  HashKind.size kind < blen (concat chunks) ->
  exists t c payload, record_all (tee_new kind) chunks = Ok t /\ finish_pack_hash_check t = Ok c
    /\ concat chunks = payload ++ ObjectHash.as_ref (check_trailer c)
    /\ ObjectHash.kind (check_trailer c) = kind
    /\ check_payload c = ObjectHash_new_for_kind kind payload
    /\ (verify_pack_hash_check c signature = Ok tt
        <-> check_trailer c = signature /\ check_payload c = signature).
Proof.
  intros Hlen. destruct (record_all_inv kind [] (tee_new kind) chunks) as (t & Ht & Hsz & p & Hd & Hh & Hle & Hfull).
  { split; [done|]. exists []. split; [done|]. split; [done|]. change (blen (hash_tail (tee_new kind))) with 0.
    split; [destruct kind; cbn; lia|done]. }
  cbn [app] in Hd.
  assert (Hp : p <> []) by (intros ->; cbn [app] in Hd; rewrite Hd in Hlen; lia).
  specialize (Hfull Hp). unfold fed in Hh. rewrite bool_decide_false in Hh by done.
  exists t. unfold finish_pack_hash_check. rewrite Hfull, Z.eqb_refl, Hh. cbn [negb].
  change (HashAlgorithm_kind _) with kind.
  destruct (ObjectHash.from_bytes_for_kind kind (hash_tail t)) as [tr| | |] eqn:Etr; cbn [map_err rbind];
    try (unfold ObjectHash.from_bytes_for_kind in Etr; rewrite Hfull, Hsz, Z.eqb_refl in Etr; discriminate Etr).
  apply from_bytes_for_kind_Ok in Etr as (_ & Hk & Hb). eexists _, p. split; [done|]. split; [reflexivity|].
  cbn [check_trailer check_payload]. split; [by rewrite Hb|]. split; [done|]. split; [done|].
  unfold verify_pack_hash_check. cbn [check_trailer check_payload].
  do 2 case_bool_decide; cbn [negb]; split; try done; by intros [? ?].
Qed.

Lemma tee_separates_trailer_witness :
  exists t c payload, @record_all toy_hasher (@tee_new toy_hasher HashKind.Sha1) [repeat 1 7; []; repeat 2 16] = Ok t
    /\ @finish_pack_hash_check plain_texts toy_hasher t = Ok c
    /\ concat [repeat 1 7; []; repeat 2 16] = payload ++ ObjectHash.as_ref (check_trailer c)
    /\ ObjectHash.kind (check_trailer c) = HashKind.Sha1
    /\ check_payload c = @ObjectHash_new_for_kind toy_hasher HashKind.Sha1 payload
    /\ (@verify_pack_hash_check hex_reference c sample_base_id = Ok tt
        <-> check_trailer c = sample_base_id /\ check_payload c = sample_base_id).
Proof.
  apply (@tee_separates_trailer plain_texts hex_reference toy_hasher toy_hasher_laws HashKind.Sha1
    [repeat 1 7; []; repeat 2 16] sample_base_id). reflexivity.
Defined.

(** * Retention *)

Fixpoint occurrences {K} `{EqDecision K} (k : K) (l : list K) : Z :=
  match l with [] => 0 | x :: l => (if bool_decide (x = k) then 1 else 0) + occurrences k l end.

(** A map of counters that holds [n k] for each key, without zeros. *)
Definition counts `{Countable K} (m : gmap K Z) (n : K -> Z) : Prop :=
  forall k, m !! k = if 0 <? n k then Some (n k) else None.

Lemma add_dependency_counts `{Countable K} (m : gmap K Z) n k0 :
  counts m n -> (forall k, 0 <= n k) ->
  counts (add_dependency m k0) (fun k => n k + if bool_decide (k0 = k) then 1 else 0).
Proof.
  intros Hm Hn k. unfold add_dependency. pose proof (Hm k0) as H0. pose proof (Hn k0).
  case_bool_decide as Hk; [subst k0|rewrite Z.add_0_r].
  - replace (0 <? n k + 1) with true by lia. rewrite H0.
    destruct (0 <? n k) eqn:E; rewrite lookup_insert_eq; f_equal. lia.
  - rewrite H0. destruct (0 <? n k0); rewrite lookup_insert_ne by done; apply Hm.
Qed.

Lemma consume_dependency_counts `{Countable K} (m : gmap K Z) n k0 :
  counts m n -> counts (consume_dependency m k0) (fun k => n k - if bool_decide (k0 = k) then 1 else 0).
Proof.
  intros Hm k. unfold consume_dependency. pose proof (Hm k0) as H0. rewrite H0.
  case_bool_decide as Hk; [subst k0|rewrite Z.sub_0_r].
  - destruct (0 <? n k) eqn:E; [|rewrite H0; by replace (0 <? n k - 1) with false by lia].
    destruct (n k - 1 =? 0) eqn:E1.
    + rewrite lookup_delete_eq. by replace (0 <? n k - 1) with false by lia.
    + rewrite lookup_insert_eq. by replace (0 <? n k - 1) with true by lia.
  - destruct (0 <? n k0); [|apply Hm].
    destruct (n k0 - 1 =? 0); [rewrite lookup_delete_ne by done|rewrite lookup_insert_ne by done]; apply Hm.
Qed.

(** One reference to a base, by offset or by name. *)
Inductive Dependency : Type := OnOffset (o : Z) | OnHash (h : ObjectHash.t).

#[export] Instance Dependency_eq_dec : EqDecision Dependency.
Proof. solve_decision. Defined.

Definition add_dep (r : DecodeRetention) (d : Dependency) : DecodeRetention :=
  match d with OnOffset o => add_offset_dependency r o | OnHash h => add_hash_dependency r h end.

Definition consume_dep (r : DecodeRetention) (d : Dependency) : DecodeRetention :=
  match d with OnOffset o => consume_offset_dependency r o | OnHash h => consume_hash_dependency r h end.

Definition retains (r : DecodeRetention) (n : Dependency -> Z) : Prop :=
  counts (offset_remaining r) (fun o => n (OnOffset o)) /\ counts (hash_remaining r) (fun h => n (OnHash h)).

Lemma add_dep_retains r n d :
  retains r n -> (forall d, 0 <= n d) -> retains (add_dep r d) (fun x => n x + if bool_decide (d = x) then 1 else 0).
Proof.
  intros [Ho Hh] Hn. destruct d as [o|h]; split; cbn [add_dep add_offset_dependency add_hash_dependency
    offset_remaining hash_remaining].
  1: pose proof (add_dependency_counts _ _ o Ho (fun k => Hn _)) as Hc. 4: pose proof (add_dependency_counts _ _ h Hh (fun k => Hn _)) as Hc.
  all: intros k; rewrite ?Hc; cbn beta; try (rewrite (bool_decide_false (_ = _)) by done; rewrite Z.add_0_r; auto).
  all: do 2 case_bool_decide; congruence.
Qed.

Lemma consume_dep_retains r n d :
  retains r n -> retains (consume_dep r d) (fun x => n x - if bool_decide (d = x) then 1 else 0).
Proof.
  intros [Ho Hh]. destruct d as [o|h]; split; cbn [consume_dep consume_offset_dependency consume_hash_dependency
    offset_remaining hash_remaining].
  1: pose proof (consume_dependency_counts _ _ o Ho) as Hc. 4: pose proof (consume_dependency_counts _ _ h Hh) as Hc.
  all: intros k; rewrite ?Hc; cbn beta; try (rewrite (bool_decide_false (_ = _)) by done; rewrite Z.sub_0_r; auto).
  all: do 2 case_bool_decide; congruence.
Qed.

Lemma occurrences_nonneg {K} `{EqDecision K} (k : K) l : 0 <= occurrences k l.
Proof. induction l as [|x l IH]; cbn; [lia|]. case_bool_decide; lia. Qed.

Lemma retains_ext r n n' : (forall d, n d = n' d) -> retains r n -> retains r n'.
Proof. intros He [Ho Hh]. split; intros k; rewrite <- He; auto. Qed.

Lemma add_all_retains ds r n :
  retains r n -> (forall d, 0 <= n d) -> retains (fold_left add_dep ds r) (fun d => n d + occurrences d ds).
Proof.
  revert r n. induction ds as [|d ds IH]; intros r n Hr Hn; cbn [fold_left occurrences].
  - eapply retains_ext; [|exact Hr]. intros d. cbn beta. lia.
  - eapply retains_ext; [|apply IH; [by apply add_dep_retains|]].
    + intros x. cbn beta. lia.
    + intros x. cbn beta. specialize (Hn x). case_bool_decide; lia.
Qed.

Lemma consume_all_retains cs r n :
  retains r n -> retains (fold_left consume_dep cs r) (fun d => n d - occurrences d cs).
Proof.
  revert r n. induction cs as [|c cs IH]; intros r n Hr; cbn [fold_left occurrences].
  - eapply retains_ext; [|exact Hr]. intros d. cbn beta. lia.
  - eapply retains_ext; [|apply IH; by apply consume_dep_retains]. intros x. cbn beta. lia.
Qed.

(** an object is retained exactly as long as a delta may still ask for it: after the scan
    has counted the references [ds] and the decoder has consumed [cs], [should_retain] holds
    for an object exactly when more references to its offset or to its name were counted
    than consumed. *)
Theorem retention_exact (ds cs : list Dependency) (offset : Z) (hash : ObjectHash.t) :
  should_retain (fold_left consume_dep cs (fold_left add_dep ds DecodeRetention_default)) offset hash = true
  <-> occurrences (OnOffset offset) cs < occurrences (OnOffset offset) ds
      \/ occurrences (OnHash hash) cs < occurrences (OnHash hash) ds.
Proof.
  assert (Hinit : retains DecodeRetention_default (fun _ => 0)) by (split; intros k; apply lookup_empty).
  pose proof (consume_all_retains cs _ _ (add_all_retains ds _ _ Hinit (fun _ => Z.le_refl 0))) as [Ho Hh].
  unfold should_retain. rewrite orb_true_iff, !bool_decide_eq_true, Ho, Hh. cbn beta.
  assert (Hs : forall n, is_Some (if 0 <? n then Some n else None) <-> 0 < n).
  { intros n. destruct (0 <? n) eqn:E; split; intros Hx; try lia; eauto. by destruct Hx. }
  rewrite !Hs. lia.
Qed.
