(* ===== verification/TeeReader.v ===== *)
(** The copying reader [TeeReader] of [src/internal/pack/decode.rs], through which the
    dependency scan of a stream writes the pack to a temporary file while it reads it.

    The reader underneath cuts its data into pieces, is interrupted or fails ([ReadEvent]);
    the writer is given by the outcomes of its successive [write_all] calls, where a
    failing call may have written a part of its bytes.  A caller is any sequence of [read], [fill_buf] and
    [consume].  [consume] cannot report an error: it stores it for the next call. *)

From Stdlib Require Import ZArith Lia String.
From stdpp Require Import base tactics list numbers option gmap.
From S2P Require Import Prelude Stream Text Errors ObjectTypes PackUtils Hash PackIndex PackDecode.

(** ** The writer *)

(** What it holds, and the outcomes of the calls to come: success, or the number of bytes
    written before an error; calls beyond the list succeed. *)
Record Writer : Type := mkWriter { wr_out : bytes; wr_plan : list (option (nat * IoError)) }.

Definition write_all (w : Writer) (d : bytes) : option IoError * Writer :=
  match wr_plan w with
  | Some (k, e) :: plan => (Some e, mkWriter (wr_out w ++ take k d) plan)
  | None :: plan => (None, mkWriter (wr_out w ++ d) plan)
  | [] => (None, mkWriter (wr_out w ++ d) [])
  end.

(** ** The buffered reader underneath *)

Definition fill_inner (evs : list ReadEvent) : Res IoError bytes * list ReadEvent :=
  match evs with
  | Chunk d :: _ => (Ok d, evs)
  | Interrupted :: evs => (Err (OtherIo "interrupted"), evs)
  | Failed e :: evs => (Err e, evs)
  | [] => (Ok [], [])
  end.

Definition consume_inner (amt : Z) (evs : list ReadEvent) : list ReadEvent :=
  match evs with
  | Chunk d :: rest => if blen d <=? amt then rest else Chunk (drop (Z.to_nat amt) d) :: rest
  | _ => evs
  end.

Section tee.
Context `{Hasher}.

Record TeeReader : Type := mkTeeReader {
  tee_reader : list ReadEvent;
  tee_writer : Writer;
  write_error : option IoError;
  tee_hash : PackTee
}.

(** [check_write_error] takes the stored error. *)
Definition check_write_error (t : TeeReader) : option IoError * TeeReader :=
  (write_error t, mkTeeReader (tee_reader t) (tee_writer t) None (tee_hash t)).

(** What a call answers; [Taken] carries the bytes that [consume] took from the reader. *)
Inductive Answer : Type :=
| Data (d : bytes)
| Retry
| Fault (e : IoError)
| Shown (d : bytes)
| Taken (d : bytes).

Definition TeeReader_read (n : Z) (t : TeeReader) : Res Empty_set (Answer * TeeReader) :=
  match check_write_error t with
  | (Some e, t) => Ok (Fault e, t)
  | (None, t) =>
      match read_some n (tee_reader t) with
      | (Got d, evs) =>
          if bool_decide (d = []) then Ok (Data [], mkTeeReader evs (tee_writer t) None (tee_hash t))
          else
            match write_all (tee_writer t) d with
            | (Some e, w) => Ok (Fault e, mkTeeReader evs w None (tee_hash t))
            | (None, w) =>
                let! h := record_pack_bytes (tee_hash t) d in
                Ok (Data d, mkTeeReader evs w None h)
            end
      | (GotInterrupted, evs) => Ok (Retry, mkTeeReader evs (tee_writer t) None (tee_hash t))
      | (GotError e, evs) => Ok (Fault e, mkTeeReader evs (tee_writer t) None (tee_hash t))
      end
  end.

Definition TeeReader_fill_buf (t : TeeReader) : Answer * TeeReader :=
  match check_write_error t with
  | (Some e, t) => (Fault e, t)
  | (None, t) =>
      match fill_inner (tee_reader t) with
      | (Ok d, evs) => (Shown d, mkTeeReader evs (tee_writer t) None (tee_hash t))
      | (Err e, evs) => (Fault e, mkTeeReader evs (tee_writer t) None (tee_hash t))
      | (_, evs) => (Shown [], mkTeeReader evs (tee_writer t) None (tee_hash t))
      end
  end.

Definition TeeReader_consume (amt : Z) (t : TeeReader) : Res Empty_set (Answer * TeeReader) :=
  match write_error t with
  | Some e => Ok (Taken [], mkTeeReader (consume_inner amt (tee_reader t)) (tee_writer t) (Some e) (tee_hash t))
  | None =>
      match fill_inner (tee_reader t) with
      | (Ok buf, evs) =>
          let consumed := Z.min amt (blen buf) in
          let! d := or_panic (get_range buf 0 consumed) in
          match write_all (tee_writer t) d with
          | (Some e, w) => Ok (Taken d, mkTeeReader (consume_inner consumed evs) w (Some e) (tee_hash t))
          | (None, w) =>
              let! h := record_pack_bytes (tee_hash t) d in
              Ok (Taken d, mkTeeReader (consume_inner consumed evs) w None h)
          end
      | (Err e, evs) => Ok (Taken [], mkTeeReader (consume_inner 0 evs) (tee_writer t) (Some e) (tee_hash t))
      | (_, evs) => Panic
      end
  end.

(** The calls of a client. *)
Inductive Op : Type := OpRead (n : Z) | OpFillBuf | OpConsume (amt : Z).

Definition tee_step (op : Op) (t : TeeReader) : Res Empty_set (Answer * TeeReader) :=
  match op with
  | OpRead n => TeeReader_read n t
  | OpFillBuf => Ok (TeeReader_fill_buf t)
  | OpConsume amt => TeeReader_consume amt t
  end.

Fixpoint tee_run (ops : list Op) (t : TeeReader) : Res Empty_set (list Answer * TeeReader) :=
  match ops with
  | [] => Ok ([], t)
  | op :: ops =>
      let! '(a, t) := tee_step op t in
      let! '(answers, t) := tee_run ops t in
      Ok (a :: answers, t)
  end.

(** The reader as [scan_decode_retention_and_copy] makes it. *)
Definition tee_start (kind : HashKind.t) (evs : list ReadEvent) (plan : list (option (nat * IoError))) : TeeReader :=
  mkTeeReader evs (mkWriter [] plan) None (tee_new kind).
End tee.

(** ** What arrives at the writer *)

Definition is_fault (a : Answer) : Prop := match a with Fault _ => True | _ => False end.

(** The bytes the client has taken, by [read] or [consume]. *)
Definition taken (a : Answer) : bytes := match a with Data d | Taken d => d | _ => [] end.

Section proofs.
Context `{HasherLaws}.
Context (kind : HashKind.t) (evs0 : list ReadEvent).

(** Everything taken so far has been written and recorded, in order, and nothing was skipped. *)
Record copied_all (seen : bytes) (t : TeeReader) : Prop := {
  ca_out : wr_out (tee_writer t) = seen;
  ca_rest : seen ++ stream_data (tee_reader t) = stream_data evs0;
  ca_hash : tee_inv kind seen (tee_hash t)
}.

(** An error is stored, or nothing was lost. *)
Definition tee_ok (seen : bytes) (t : TeeReader) : Prop := write_error t <> None \/ copied_all seen t.

Lemma write_all_ok w d w' : write_all w d = (None, w') -> wr_out w' = wr_out w ++ d.
Proof. unfold write_all. destruct (wr_plan w) as [|[[k e]|] plan]; intros Hw; by simplify_eq. Qed.

Lemma read_some_data n evs d evs' : 0 <= n -> read_some n evs = (Got d, evs') -> d ++ stream_data evs' = stream_data evs.
Proof.
  intros Hn. destruct evs as [|[c| |e] evs]; cbn [read_some stream_data]; try (intros; by simplify_eq).
  destruct (blen c <=? n); intros [= <- <-]; [done|]. cbn [stream_data]. by rewrite app_assoc, take_drop.
Qed.

Definition op_valid (op : Op) : Prop := match op with OpRead n => 0 <= n | OpFillBuf => True | OpConsume amt => 0 <= amt end.

(** The hashing part is in order, whatever was written. *)
Definition hash_ok (t : TeeReader) : Prop := exists s, tee_inv kind s (tee_hash t).

(** A step that took [d] from the reader and wrote it. *)
Lemma copied_all_step seen t d evs w h :
  copied_all seen t -> d ++ stream_data evs = stream_data (tee_reader t) -> write_all (tee_writer t) d = (None, w) ->
  tee_inv kind (seen ++ d) h -> copied_all (seen ++ d) (mkTeeReader evs w None h).
Proof.
  intros [Ho Hr Hh] Hd Hw Hi. split; cbn; [|by rewrite <- app_assoc, Hd|done]. rewrite (write_all_ok _ _ _ Hw). by rewrite Ho.
Qed.

Lemma record_taken t d :
  hash_ok t -> exists h, record_pack_bytes (tee_hash t) d = Ok h /\ (exists s, tee_inv kind s h)
    /\ forall seen, tee_inv kind seen (tee_hash t) -> tee_inv kind (seen ++ d) h.
Proof.
  intros [s Hs]. destruct (record_pack_bytes_inv kind s (tee_hash t) d Hs) as (h & Eh & Hh). exists h. split; [done|]. split; [by eexists|].
  intros seen Hi. destruct (record_pack_bytes_inv kind seen (tee_hash t) d Hi) as (h' & Eh' & Hh'). congruence.
Qed.

(** What a step may do to what is known of the copy. *)
Definition keeps (seen : bytes) (t : TeeReader) (a : Answer) (t' : TeeReader) : Prop :=
  hash_ok t' /\ (tee_ok seen t -> ~ is_fault a -> tee_ok (seen ++ taken a) t').

Lemma keeps_nothing seen t a t' : hash_ok t' -> taken a = [] -> (tee_ok seen t -> tee_ok seen t') -> keeps seen t a t'.
Proof. intros Hh Ha Hk. split; [done|]. intros Hok _. rewrite Ha, app_nil_r. auto. Qed.

Lemma keeps_fault seen t e t' : hash_ok t' -> keeps seen t (Fault e) t'.
Proof. intros Hh. split; [done|]. by intros _ []. Qed.

Lemma keeps_stored seen t a t' : hash_ok t' -> write_error t' <> None -> keeps seen t a t'.
Proof. intros Hh He. split; [done|]. intros _ _. by left. Qed.

Lemma keeps_copied seen t a d evs w h :
  taken a = d -> write_error t = None -> d ++ stream_data evs = stream_data (tee_reader t) -> write_all (tee_writer t) d = (None, w) ->
  (exists s, tee_inv kind s h) -> (forall seen, tee_inv kind seen (tee_hash t) -> tee_inv kind (seen ++ d) h) ->
  keeps seen t a (mkTeeReader evs w None h).
Proof.
  intros <- He Hd Hw Hs Hi. split; [done|]. intros [?|Hok] _; [done|]. right. eapply copied_all_step; try done. apply Hi, Hok.
Qed.

Lemma read_keeps n seen t : 0 <= n -> hash_ok t -> exists a t', TeeReader_read n t = Ok (a, t') /\ keeps seen t a t'.
Proof.
  intros Hn Hh. unfold TeeReader_read, check_write_error. destruct (write_error t) as [e|] eqn:Ee; [eexists _, _; split; [done|by apply keeps_fault]|].
  cbn [tee_reader tee_writer tee_hash]. destruct (read_some n (tee_reader t)) as [[d| |e] evs] eqn:Er.
  - pose proof (read_some_data _ _ _ _ Hn Er) as Hd. case_bool_decide as Hemp.
    { subst d. eexists _, _. split; [done|]. apply keeps_nothing; try done. intros [?|[Ho Hr Hi]]; [done|]. right. split; cbn; try done. by rewrite <- Hr, <- Hd. }
    destruct (write_all (tee_writer t) d) as [[e|] w] eqn:Ew; [eexists _, _; split; [done|by apply keeps_fault]|].
    destruct (record_taken t d Hh) as (h & -> & Hs & Hi). cbn [rbind]. eexists _, _. split; [done|]. by apply (keeps_copied seen t (Data d) d).
  - eexists _, _. split; [done|]. apply keeps_nothing; try done. intros [?|[Ho Hr Hi]]; [done|]. right. split; cbn; try done.
    rewrite <- Hr. f_equal. destruct (tee_reader t) as [|[c| |e] l]; cbn [read_some stream_data] in *; try destruct (blen c <=? n); by simplify_eq.
  - eexists _, _. split; [done|by apply keeps_fault].
Qed.

Lemma fill_buf_keeps seen t : hash_ok t -> keeps seen t (TeeReader_fill_buf t).1 (TeeReader_fill_buf t).2.
Proof.
  intros Hh. unfold TeeReader_fill_buf, check_write_error. destruct (write_error t) as [e|] eqn:Ee; [by apply keeps_fault|].
  cbn [tee_reader tee_writer tee_hash]. destruct (tee_reader t) as [|[c| |e] l] eqn:Et; cbn [fill_inner fst snd]; try by apply keeps_fault.
  all: apply keeps_nothing; try done; intros [?|[Ho Hr Hi]]; [done|]; right; rewrite Et in Hr; by split.
Qed.

(** What [fill_inner] shows is the front of the data, and nothing is taken. *)
Lemma fill_inner_Ok evs buf evs' : fill_inner evs = (Ok buf, evs') -> evs' = evs /\ (evs = [] /\ buf = [] \/ exists l, evs = Chunk buf :: l).
Proof.
  destruct evs as [|[c| |e] l]; cbn [fill_inner]; intros [= <- <-]; (split; [done|]); [by left|right; by eexists].
Qed.

Lemma consume_inner_data evs buf k :
  evs = [] /\ buf = [] \/ (exists l, evs = Chunk buf :: l) -> 0 <= k <= blen buf ->
  slice buf 0 k ++ stream_data (consume_inner k evs) = stream_data evs.
Proof.
  intros He Hk. unfold slice. rewrite Z.sub_0_r. change (drop (Z.to_nat 0) buf) with buf. destruct He as [[-> ->]|[l ->]]; [cbn; by rewrite take_nil|].
  cbn [consume_inner stream_data]. destruct (blen buf <=? k) eqn:E; [by rewrite take_ge by (unfold blen in *; lia)|].
  cbn [stream_data]. by rewrite app_assoc, take_drop.
Qed.

Lemma consume_keeps amt seen t : 0 <= amt -> hash_ok t -> exists a t', TeeReader_consume amt t = Ok (a, t') /\ keeps seen t a t'.
Proof.
  intros Ha Hh. unfold TeeReader_consume. destruct (write_error t) as [e|] eqn:Ee; [eexists _, _; split; [done|by apply keeps_stored]|].
  destruct (fill_inner (tee_reader t)) as [[buf|e| |] evs] eqn:Ef.
  - destruct (fill_inner_Ok _ _ _ Ef) as [-> Hr]. pose proof (blen_nonneg buf). rewrite get_range_ok by lia. cbn [or_panic rbind].
    destruct (write_all (tee_writer t) _) as [[e|] w] eqn:Ew; [eexists _, _; split; [done|by apply keeps_stored]|].
    destruct (record_taken t (slice buf 0 (Z.min amt (blen buf))) Hh) as (h & -> & Hs & Hi). cbn [rbind]. eexists _, _. split; [done|].
    eapply keeps_copied; try done. apply consume_inner_data; [done|lia].
  - eexists _, _. split; [done|by apply keeps_stored].
  - destruct (tee_reader t) as [|[]]; discriminate Ef.
  - destruct (tee_reader t) as [|[]]; discriminate Ef.
Qed.

Lemma tee_step_keeps op seen t : op_valid op -> hash_ok t -> exists a t', tee_step op t = Ok (a, t') /\ keeps seen t a t'.
Proof.
  destruct op as [n| |amt]; cbn [op_valid tee_step]; [by apply read_keeps| |by apply consume_keeps].
  intros _ Hh. pose proof (fill_buf_keeps seen t Hh) as Hf. destruct (TeeReader_fill_buf t) as [a t']. by exists a, t'.
Qed.

Lemma tee_run_keeps ops seen t :
  Forall op_valid ops -> hash_ok t -> exists answers t', tee_run ops t = Ok (answers, t')
    /\ (tee_ok seen t -> Forall (fun a => ~ is_fault a) answers -> tee_ok (seen ++ concat (map taken answers)) t').
Proof.
  intros Hops. revert seen t. induction Hops as [|op ops Hop _ IH]; intros seen t Hh; cbn [tee_run].
  { exists [], t. split; [done|]. intros Hok _. cbn. by rewrite app_nil_r. }
  destruct (tee_step_keeps op seen t Hop Hh) as (a & t1 & -> & Hh1 & Hok1). cbn [rbind].
  destruct (IH (seen ++ taken a) t1 Hh1) as (answers & t2 & -> & Hok2). cbn [rbind]. eexists _, _. split; [done|].
  intros Hok Hf. apply Forall_cons_1 in Hf as [Ha Hf]. cbn [map concat]. rewrite app_assoc. auto.
Qed.
End proofs.

(** C16: the copying reader loses nothing silently: for every sequence of calls, every reader and every
    outcome of the writes, no call panics, and when no call has answered with an error and the final
    check finds none stored, the writer holds exactly the bytes taken, in order, which are the front of the stream,
    and the hashes are those of exactly these bytes. *)
Theorem tee_copies `{HasherLaws} (kind : HashKind.t) (evs : list ReadEvent) (plan : list (option (nat * IoError))) (ops : list Op) :
  Forall op_valid ops ->
  exists answers t, tee_run ops (tee_start kind evs plan) = Ok (answers, t)
  /\ (Forall (fun a => ~ is_fault a) answers -> (check_write_error t).1 = None ->
      let copy := concat (map taken answers) in
      wr_out (tee_writer t) = copy /\ copy ++ stream_data (tee_reader t) = stream_data evs
      /\ tee_inv kind copy (tee_hash t)).
Proof.
  intros Hops. assert (Hinv : tee_inv kind [] (tee_new kind)).
  { split; [done|]. exists []. split; [done|]. split; [done|]. change (blen (hash_tail (tee_new kind))) with 0. split; [destruct kind; cbn; lia|done]. }
  destruct (tee_run_keeps kind evs ops [] (tee_start kind evs plan) Hops) as (answers & t & -> & Hok); [by exists []|].
  exists answers, t. split; [done|]. intros Hf He. destruct Hok as [?|[Ho Hr Hi]]; [|done|done|done].
  by right.
Qed.

(** Two bytes taken by [consume], one by [read]. *)
Lemma tee_copies_witness :
  exists answers t, @tee_run toy_hasher [OpFillBuf; OpConsume 2; OpRead 1; OpFillBuf] (@tee_start toy_hasher HashKind.Sha1 [Chunk [1; 2; 3]; Interrupted] [])
    = Ok (answers, t)
  /\ (Forall (fun a => ~ is_fault a) answers -> (check_write_error t).1 = None ->
      let copy := concat (map taken answers) in
      wr_out (tee_writer t) = copy /\ copy ++ stream_data (tee_reader t) = stream_data [Chunk [1; 2; 3]; Interrupted]
      /\ tee_inv HashKind.Sha1 copy (tee_hash t)).
Proof.
  apply (@tee_copies toy_hasher toy_hasher_laws). repeat constructor; cbn; lia.
Defined.
