(* ===== verification/Caches.v ===== *)
(** The object cache of the pack decoder, [src/internal/pack/cache.rs], with the
    disk form of the objects of [cache_object.rs]: a map from offsets to names,
    an LRU of the objects in memory, and a directory the evicted objects are
    spilled to; or, without a memory limit, two maps that hold everything.

    [lru_mem]'s cache is a parameter with its documented behaviour.  The
    directory is a map from paths to the serialised objects.  The spill of an
    evicted object, queued on a pool, is done when it is evicted: a reader waits
    for the file in any case.  Threads that save at the same time, and write errors, are in
    [SpillFiles]; the memory counter is in [MemRecorder]. *)

From Stdlib Require Import ZArith Lia String.
From stdpp Require Import base tactics list numbers option gmap.
From S2P Require Import Prelude Text ObjectTypes Hash PackDecode.

(** * Objects on disk *)

Definition path : Type := list bytes.

(** What is written to a spill file: an object without its memory recorder and its expected
    name. *)
Record CacheObjectOnDisk : Type := mkOnDisk {
  od_info : CacheObjectInfo;
  od_offset : Z;
  od_crc32 : Z;
  od_data : bytes;
  od_is_delta : bool
}.

Definition CacheObjectOnDiskRef_from (o : CacheObject) : CacheObjectOnDisk :=
  mkOnDisk (info o) (co_offset o) (co_crc32 o) (data_decompressed o) (is_delta_in_pack o).

Definition CacheObject_from (d : CacheObjectOnDisk) : CacheObject :=
  mkCacheObject (od_info d) (od_offset d) (od_crc32 d) (od_data d) (od_is_delta d) None.

Abbreviation files := (gmap path CacheObjectOnDisk).

(** [f_load]; [None] is the error [NotFound]. *)
Definition f_load (p : path) (fs : files) : option CacheObject := CacheObject_from <$> fs !! p.

(** [f_save] never replaces a file. *)
Definition f_save (o : CacheObject) (p : path) (fs : files) : files :=
  match fs !! p with Some _ => fs | None => <[p := CacheObjectOnDiskRef_from o]> fs end.

(** An object as the LRU holds it: where to spill it when it is dropped. *)
Record ArcWrapper : Type := mkArcWrapper { aw_data : CacheObject; store_path : option path }.

Definition ArcWrapper_new (data : CacheObject) : ArcWrapper := mkArcWrapper data None.
Definition set_store_path (w : ArcWrapper) (p : path) : ArcWrapper := mkArcWrapper (aw_data w) (Some p).

Definition ArcWrapper_drop (complete_signal : bool) (fs : files) (w : ArcWrapper) : files :=
  if complete_signal then fs else match store_path w with Some p => f_save (aw_data w) p fs | None => fs end.

(** * [lru_mem] *)

Class LruCache := {
  lru : Type;
  lru_new : Z -> lru;
  lru_view : lru -> gmap ObjectHash.t ArcWrapper;
  max_size : lru -> Z;
  current_size : lru -> Z;
  entry_size : ObjectHash.t -> ArcWrapper -> Z;
  lru_get : ObjectHash.t -> lru -> option ArcWrapper * lru;
  (** The dropped values, the new cache; [None] is [EntryTooLarge], which drops the new value. *)
  lru_insert : ObjectHash.t -> ArcWrapper -> lru -> option (list ArcWrapper * lru);
  lru_remove : ObjectHash.t -> lru -> option ArcWrapper * lru;
  remove_lru : lru -> option ((ObjectHash.t * ArcWrapper) * lru);
  lru_clear : lru -> lru
}.

(** What the cache relies on: the operations act on the finite map [lru_view] as their names
    say, an insertion fails only for an entry larger than the whole cache, and it evicts other
    entries only when the sizes do not fit. *)
Class LruLaws `{LruCache} : Prop := {
  view_new m : lru_view (lru_new m) = ∅;
  max_new m : max_size (lru_new m) = m;
  current_empty l : lru_view l = ∅ -> current_size l = 0;
  current_size_pos l : 0 <= current_size l;
  entry_size_pos h w : 0 <= entry_size h w;
  get_view h l : (lru_get h l).1 = lru_view l !! h /\ lru_view (lru_get h l).2 = lru_view l
    /\ max_size (lru_get h l).2 = max_size l /\ current_size (lru_get h l).2 = current_size l;
  insert_too_large h w l : max_size l < entry_size h w -> lru_insert h w l = None;
  insert_fits h w l : entry_size h w <= max_size l -> exists dropped l', lru_insert h w l = Some (dropped, l')
    /\ max_size l' = max_size l /\ current_size l' <= current_size l + entry_size h w
    /\ lru_view l' !! h = Some w
    /\ (forall h' w', lru_view l !! h' = Some w' -> w' ∈ dropped \/ h' <> h /\ lru_view l' !! h' = Some w')
    /\ (forall h' w', h' <> h -> lru_view l' !! h' = Some w' -> lru_view l !! h' = Some w')
    /\ (forall w', w' ∈ dropped -> exists h', lru_view l !! h' = Some w')
    /\ (current_size l + entry_size h w <= max_size l -> lru_view l' = <[h := w]> (lru_view l));
  remove_view h l : (lru_remove h l).1 = lru_view l !! h /\ lru_view (lru_remove h l).2 = delete h (lru_view l)
    /\ max_size (lru_remove h l).2 = max_size l /\ current_size (lru_remove h l).2 <= current_size l;
  remove_lru_view l :
    match remove_lru l with
    | Some ((h, w), l') => lru_view l !! h = Some w /\ lru_view l' = delete h (lru_view l)
        /\ max_size l' = max_size l /\ current_size l' <= current_size l
    | None => lru_view l = ∅
    end;
  clear_view l : lru_view (lru_clear l) = ∅
}.

(** * The cache *)

Section caches.
Context `{HexCrate} `{LruCache}.

Record Caches : Type := mkCaches {
  map_offset : gmap Z ObjectHash.t;
  hash_set : gset ObjectHash.t;
  resident_hash_set : gset ObjectHash.t;
  lru_cache : lru;
  unbounded_cache : option (gmap ObjectHash.t CacheObject);
  unbounded_offset_cache : option (gmap Z CacheObject);
  mem_size : option Z;
  tmp_path : path;
  complete_signal : bool;
  tmp_files : files
}.

Definition set_lru (c : Caches) (l : lru) (resident : gset ObjectHash.t) (fs : files) : Caches :=
  mkCaches (map_offset c) (hash_set c) resident l (unbounded_cache c) (unbounded_offset_cache c) (mem_size c)
    (tmp_path c) (complete_signal c) fs.

Definition set_maps (c : Caches) (mo : gmap Z ObjectHash.t) (hs : gset ObjectHash.t)
  (uc : option (gmap ObjectHash.t CacheObject)) (oc : option (gmap Z CacheObject)) : Caches :=
  mkCaches mo hs (resident_hash_set c) (lru_cache c) uc oc (mem_size c) (tmp_path c) (complete_signal c) (tmp_files c).

Definition Caches_new (mem_size : option Z) (tmp : path) : Caches :=
  mkCaches ∅ ∅ ∅ (lru_new (default usize_max mem_size))
    (match mem_size with None => Some ∅ | Some _ => None end)
    (match mem_size with None => Some ∅ | Some _ => None end) mem_size tmp false ∅.

Definition CACHE_LAYOUT_VERSION : bytes := str "rkyv-v2".

(** [<tmp>/<layout>/<2 hex>/<kind>-<hex>]; the creation of the directory is not modelled. *)
Definition generate_temp_path (c : Caches) (hash : ObjectHash.t) : path :=
  let hash_str := ObjectHash.fmt hash in
  tmp_path c ++ [CACHE_LAYOUT_VERSION; take 2 hash_str; HashKind.as_str (ObjectHash.kind hash) ++ str "-" ++ hash_str].

(** Only from memory. *)
Definition try_get (c : Caches) (hash : ObjectHash.t) : option CacheObject * Caches :=
  let '(r, l) := lru_get hash (lru_cache c) in
  (aw_data <$> r, set_lru c l (resident_hash_set c) (tmp_files c)).

(** [while map.current_size() + size > map.max_size()]; every turn removes an entry. *)
Fixpoint evict_loop (fuel : nat) (size : Z) (c : Caches) : Caches :=
  match fuel with
  | O => c
  | S fuel =>
      if max_size (lru_cache c) <? current_size (lru_cache c) + size then
        match remove_lru (lru_cache c) with
        | Some ((evicted, w), l) =>
            evict_loop fuel size
              (set_lru c l (resident_hash_set c ∖ {[evicted]}) (ArcWrapper_drop (complete_signal c) (tmp_files c) w))
        | None => c
        end
      else c
  end.

Definition insert_lru_resident (c : Caches) (hash : ObjectHash.t) (obj : ArcWrapper) : Caches :=
  let size' := entry_size hash obj in
  let c := if size' <=? max_size (lru_cache c) then evict_loop (S (size (lru_view (lru_cache c)))) size' c else c in
  match lru_insert hash obj (lru_cache c) with
  | Some (dropped, l) =>
      set_lru c l ({[hash]} ∪ resident_hash_set c) (fold_left (ArcWrapper_drop (complete_signal c)) dropped (tmp_files c))
  | None =>
      set_lru c (lru_cache c) (resident_hash_set c ∖ {[hash]}) (ArcWrapper_drop (complete_signal c) (tmp_files c) obj)
  end.

(** Reads the spilled object and makes it resident again.  [OutOfFuel] stands for the loop
    that waits for the file when there is none. *)
Definition get_fallback (c : Caches) (hash : ObjectHash.t) : Res Empty_set (CacheObject * Caches) :=
  let p := generate_temp_path c hash in
  match f_load p (tmp_files c) with
  | Some obj => Ok (obj, insert_lru_resident c hash (set_store_path (ArcWrapper_new obj) p))
  | None => OutOfFuel
  end.

Definition insert (c : Caches) (offset : Z) (hash : ObjectHash.t) (obj : CacheObject) : Caches :=
  match unbounded_cache c with
  | Some cache =>
      let c := set_maps c (map_offset c) (hash_set c) (Some (<[hash := obj]> cache))
                 (match unbounded_offset_cache c with Some oc => Some (<[offset := obj]> oc) | None => None end) in
      insert_lru_resident c hash (ArcWrapper_new obj)
  | None =>
      let a_obj := ArcWrapper_new obj in
      let a_obj := match mem_size c with Some _ => set_store_path a_obj (generate_temp_path c hash) | None => a_obj end in
      let c := insert_lru_resident c hash a_obj in
      set_maps c (<[offset := hash]> (map_offset c)) ({[hash]} ∪ hash_set c) (unbounded_cache c) (unbounded_offset_cache c)
  end.

Definition get_by_hash (c : Caches) (hash : ObjectHash.t) : Res Empty_set (option CacheObject * Caches) :=
  match mem_size c with
  | None =>
      match unbounded_cache c with
      | Some cache => match cache !! hash with None => Ok (None, c) | Some _ => Ok (try_get c hash) end
      | None => Ok (try_get c hash)
      end
  | Some _ =>
      if bool_decide (hash ∈ hash_set c) then
        if bool_decide (hash ∉ resident_hash_set c) then
          let! '(o, c) := get_fallback c hash in Ok (Some o, c)
        else
          match try_get c hash with
          | (Some x, c) => Ok (Some x, c)
          | (None, c) => let! '(o, c) := get_fallback c hash in Ok (Some o, c)
          end
      else Ok (None, c)
  end.

Definition get_by_offset (c : Caches) (offset : Z) : Res Empty_set (option CacheObject * Caches) :=
  match unbounded_offset_cache c with
  | Some cache =>
      match cache !! offset ≫= base_object_hash with
      | Some hash => Ok (try_get c hash)
      | None => Ok (None, c)
      end
  | None =>
      match map_offset c !! offset with
      | Some hash => get_by_hash c hash
      | None => Ok (None, c)
      end
  end.

Definition get_hash (c : Caches) (offset : Z) : option ObjectHash.t :=
  match unbounded_offset_cache c with
  | Some cache => cache !! offset ≫= base_object_hash
  | None => map_offset c !! offset
  end.

Definition remove_unbounded (c : Caches) (offset : Z) (hash : ObjectHash.t) : Caches :=
  let c :=
    match unbounded_cache c with
    | Some _ =>
        let '(r, l) := lru_remove hash (lru_cache c) in
        match r with
        | Some w => set_lru c l (resident_hash_set c ∖ {[hash]}) (ArcWrapper_drop (complete_signal c) (tmp_files c) w)
        | None => set_lru c l (resident_hash_set c) (tmp_files c)
        end
    | None => c
    end in
  set_maps c (map_offset c) (hash_set c) (delete hash <$> unbounded_cache c) (delete offset <$> unbounded_offset_cache c).

Definition total_inserted (c : Caches) : Z :=
  match mem_size c, unbounded_offset_cache c with
  | Some _, _ => Z.of_nat (size (hash_set c))
  | None, Some cache => Z.of_nat (size cache)
  | None, None => Z.of_nat (size (map_offset c))
  end.

(** [shutdown]: nothing is spilled once the signal is set. *)
Definition shutdown (c : Caches) : Caches :=
  mkCaches ∅ ∅ ∅ (lru_clear (lru_cache c)) ((fun _ => ∅) <$> unbounded_cache c) ((fun _ => ∅) <$> unbounded_offset_cache c)
    (mem_size c) (tmp_path c) true (tmp_files c).

End caches.

(** * Names of spill files *)

Section proofs.
Context `{HexCrate} `{!HexLaws} `{LruCache} `{!LruLaws}.

(** Distinct names, of any kinds, spill to distinct files. *)
Lemma generate_temp_path_inj c h1 h2 :
  hash_wf h1 -> hash_wf h2 -> generate_temp_path c h1 = generate_temp_path c h2 -> h1 = h2.
Proof.
  intros [Hl1 Hb1] [Hl2 Hb2] He. unfold generate_temp_path in He. apply app_inv_head in He.
  injection He as _ He.
  assert (Hx : forall x y, byte_list x -> byte_list y -> hex_encode x = hex_encode y -> x = y).
  { intros x y Hx Hy E. pose proof (hex_decode_encode x Hx) as Ex. rewrite E, hex_decode_encode in Ex by done.
    by injection Ex. }
  unfold ObjectHash.fmt in He.
  destruct h1, h2; cbn in He; try discriminate He; injection He as He; f_equal; by apply Hx.
Qed.

(** * The invariant *)

(** An object the decoder stores: resolved, with a well-formed name and no expected name. *)
Definition resolved (o : CacheObject) : Prop :=
  exists h, base_object_hash o = Some h /\ hash_wf h /\ known_hash o = None.

(** [o] was stored under the name [h]. *)
Definition keyed (log : list CacheObject) (h : ObjectHash.t) (o : CacheObject) : Prop :=
  o ∈ log /\ base_object_hash o = Some h.

Definition spill_path (c : Caches) (h : ObjectHash.t) : option path :=
  match mem_size c with Some _ => Some (generate_temp_path c h) | None => None end.

Definition available (c : Caches) (h : ObjectHash.t) : Prop :=
  h ∈ resident_hash_set c \/ is_Some (tmp_files c !! generate_temp_path c h).

(** The LRU and the files only hold stored objects, under their names. *)
Record lru_inv (c : Caches) (log : list CacheObject) : Prop := {
  li_log : Forall resolved log;
  li_signal : complete_signal c = false;
  li_entries h w : lru_view (lru_cache c) !! h = Some w -> keyed log h (aw_data w) /\ store_path w = spill_path c h;
  li_files h d : hash_wf h -> tmp_files c !! generate_temp_path c h = Some d ->
                 exists o, keyed log h o /\ d = CacheObjectOnDiskRef_from o;
  li_resident : resident_hash_set c ⊆ dom (lru_view (lru_cache c))
}.

(** The fields [set_lru] leaves alone. *)
Record same_maps (c c' : Caches) : Prop := {
  sm_offset : map_offset c' = map_offset c;
  sm_hash : hash_set c' = hash_set c;
  sm_unbounded : unbounded_cache c' = unbounded_cache c;
  sm_unbounded_offset : unbounded_offset_cache c' = unbounded_offset_cache c;
  sm_mem : mem_size c' = mem_size c;
  sm_path : tmp_path c' = tmp_path c;
  sm_max : max_size (lru_cache c') = max_size (lru_cache c)
}.

#[local] Instance same_maps_refl : Reflexive same_maps.
Proof. by split. Qed.

#[local] Instance same_maps_trans : Transitive same_maps.
Proof. intros x y z [] []. split; congruence. Qed.

Lemma same_maps_path c c' h : same_maps c c' -> generate_temp_path c' h = generate_temp_path c h.
Proof. intros Hs. unfold generate_temp_path. by rewrite (sm_path _ _ Hs). Qed.

Lemma same_maps_spill c c' h : same_maps c c' -> spill_path c' h = spill_path c h.
Proof. intros Hs. unfold spill_path. by rewrite (sm_mem _ _ Hs), (same_maps_path _ _ _ Hs). Qed.

Lemma keyed_wf log h o : Forall resolved log -> keyed log h o -> hash_wf h /\ known_hash o = None.
Proof.
  intros Hf [Hin Hh]. rewrite Forall_forall in Hf. destruct (Hf _ Hin) as (h' & Hh' & Hwf & Hk). split; [|done].
  congruence.
Qed.

(** An object comes back from the disk as it was. *)
Lemma disk_roundtrip log h o :
  Forall resolved log -> keyed log h o -> CacheObject_from (CacheObjectOnDiskRef_from o) = o.
Proof. intros Hf Ho. destruct (keyed_wf _ _ _ Hf Ho) as [_ Hk]. destruct o. cbn in *. by subst. Qed.

(** ** Dropping an entry *)

Lemma drop_file c fs w p :
  ArcWrapper_drop (complete_signal c) fs w !! p = fs !! p \/
  (complete_signal c = false /\ store_path w = Some p /\ fs !! p = None
   /\ ArcWrapper_drop (complete_signal c) fs w !! p = Some (CacheObjectOnDiskRef_from (aw_data w))).
Proof.
  unfold ArcWrapper_drop, f_save. destruct (complete_signal c); [by left|].
  destruct (store_path w) as [q|]; [|by left]. destruct (fs !! q) eqn:Eq; [by left|].
  destruct (decide (q = p)) as [-> | Hne]; [right; by rewrite lookup_insert_eq|left; by rewrite lookup_insert_ne].
Qed.

Lemma drop_keeps sig fs w p : is_Some (fs !! p) -> is_Some (ArcWrapper_drop sig fs w !! p).
Proof.
  unfold ArcWrapper_drop, f_save. intros Hp. destruct sig; [done|]. destruct (store_path w) as [q|]; [|done].
  destruct (fs !! q); [done|]. destruct (decide (q = p)) as [-> | Hne]; [by rewrite lookup_insert_eq|].
  by rewrite lookup_insert_ne.
Qed.

Lemma drop_saves fs w p : store_path w = Some p -> is_Some (ArcWrapper_drop false fs w !! p).
Proof.
  intros E. unfold ArcWrapper_drop, f_save. rewrite E. destruct (fs !! p) eqn:Ep; [by rewrite Ep|].
  by rewrite lookup_insert_eq.
Qed.

(** Spilling a keyed object keeps the files in order. *)
Definition files_ok (c : Caches) (log : list CacheObject) (fs : files) : Prop :=
  forall h d, hash_wf h -> fs !! generate_temp_path c h = Some d ->
  exists o, keyed log h o /\ d = CacheObjectOnDiskRef_from o.

Lemma drop_files_ok c log fs h w :
  Forall resolved log -> files_ok c log fs -> keyed log h (aw_data w) -> store_path w = spill_path c h ->
  files_ok c log (ArcWrapper_drop (complete_signal c) fs w).
Proof.
  intros Hl Hf Hk Hs h' d Hwf Hd.
  destruct (drop_file c fs w (generate_temp_path c h')) as [Hsame | (_ & Hp & _ & He)].
  - rewrite Hsame in Hd. by apply Hf.
  - rewrite He in Hd. injection Hd as <-. exists (aw_data w). split; [|done].
    rewrite Hs in Hp. unfold spill_path in Hp. destruct (mem_size c); [|done]. injection Hp as Hp.
    destruct (keyed_wf _ _ _ Hl Hk). by rewrite <- (generate_temp_path_inj c h h').
Qed.

Lemma drops_files_ok c log ws fs :
  Forall resolved log -> files_ok c log fs ->
  (forall w, w ∈ ws -> exists h, keyed log h (aw_data w) /\ store_path w = spill_path c h) ->
  files_ok c log (fold_left (ArcWrapper_drop (complete_signal c)) ws fs).
Proof.
  intros Hl. revert fs. induction ws as [|w ws IH]; intros fs Hf Hw; [done|]. cbn [fold_left].
  destruct (Hw w) as (h & Hk & Hs); [set_solver|]. apply IH; [by eapply drop_files_ok|]. set_solver.
Qed.

Lemma drops_keep sig ws fs p : is_Some (fs !! p) -> is_Some (fold_left (ArcWrapper_drop sig) ws fs !! p).
Proof. revert fs. induction ws as [|w ws IH]; intros fs Hp; cbn; [done|]. by apply IH, drop_keeps. Qed.

Lemma drops_save ws fs w p :
  w ∈ ws -> store_path w = Some p -> is_Some (fold_left (ArcWrapper_drop false) ws fs !! p).
Proof.
  revert fs. induction ws as [|w' ws IH]; intros fs Hw Hp; [set_solver|]. cbn.
  apply elem_of_cons in Hw as [<- | Hw]; [by apply drops_keep, drop_saves|by apply IH].
Qed.

(** ** The LRU *)

(** What a step that only touches the LRU promises: the maps are untouched, the invariant
    holds, and with a memory limit nothing is lost. *)
Record lru_step (log : list CacheObject) (c c' : Caches) : Prop := {
  ls_inv : lru_inv c' log;
  ls_maps : same_maps c c';
  ls_kept : forall h, is_Some (mem_size c) -> available c h -> available c' h
}.

Lemma lru_step_refl log c : lru_inv c log -> lru_step log c c.
Proof. by split. Qed.

Lemma lru_step_trans log c1 c2 c3 : lru_step log c1 c2 -> lru_step log c2 c3 -> lru_step log c1 c3.
Proof.
  intros [? Hm1 Hk1] [? Hm2 Hk2]. split; [done|by etrans|]. intros h Hm Ha. apply Hk2; [|by apply Hk1].
  by rewrite (sm_mem _ _ Hm1).
Qed.

Lemma evict_step log c h w l :
  lru_inv c log -> remove_lru (lru_cache c) = Some ((h, w), l) ->
  lru_step log c (set_lru c l (resident_hash_set c ∖ {[h]}) (ArcWrapper_drop (complete_signal c) (tmp_files c) w)).
Proof.
  intros Hi Hr. pose proof (remove_lru_view (lru_cache c)) as Hv. rewrite Hr in Hv. destruct Hv as (Hh & Hview & Hmax & _).
  destruct (li_entries _ _ Hi _ _ Hh) as [Hk Hs].
  assert (Hm : same_maps c (set_lru c l (resident_hash_set c ∖ {[h]})
    (ArcWrapper_drop (complete_signal c) (tmp_files c) w))) by by split.
  split; [|done|].
  - split; [apply Hi|apply Hi| | |].
    + intros h' w'. cbn. rewrite Hview. intros Hl. apply lookup_delete_Some in Hl as [_ Hl].
      rewrite (same_maps_spill _ _ _ Hm). by apply (li_entries _ _ Hi).
    + intros h' d Hwf. rewrite (same_maps_path _ _ _ Hm). cbn. revert h' d Hwf. fold (files_ok c log).
      eapply drop_files_ok; [apply Hi|exact (li_files _ _ Hi)|done|done].
    + cbn. rewrite Hview, dom_delete_L. pose proof (li_resident _ _ Hi) as Hres. set_solver.
  - intros h' Hmem. unfold available. rewrite (same_maps_path _ _ _ Hm). cbn.
    destruct (decide (h' = h)) as [-> | Hne].
    + intros _. right. rewrite (li_signal _ _ Hi). apply drop_saves. rewrite Hs. unfold spill_path.
      by destruct Hmem as [m ->].
    + intros [? | ?]; [left; set_solver|right; by apply drop_keeps].
Qed.

Lemma evict_loop_ok log fuel sz c :
  lru_inv c log -> (size (lru_view (lru_cache c)) < fuel)%nat -> 0 <= sz <= max_size (lru_cache c) ->
  let c' := evict_loop fuel sz c in
  lru_step log c c' /\ current_size (lru_cache c') + sz <= max_size (lru_cache c').
Proof.
  cbv zeta. revert c. induction fuel as [|fuel IH]; intros c Hi Hf Hsz; [lia|]. cbn [evict_loop].
  destruct (max_size (lru_cache c) <? current_size (lru_cache c) + sz) eqn:E; [|split; [by apply lru_step_refl|lia]].
  pose proof (remove_lru_view (lru_cache c)) as Hv.
  destruct (remove_lru (lru_cache c)) as [[[h w] l]|] eqn:Er.
  - destruct Hv as (Hh & Hview & Hmax & _). pose proof (evict_step _ _ _ _ _ Hi Er) as Hstep.
    destruct (IH _ (ls_inv _ _ _ Hstep)) as [Hs Hc]; cbn [lru_cache set_lru].
    + rewrite Hview, map_size_delete, Hh. cbn. assert (size (lru_view (lru_cache c)) <> 0%nat); [|lia].
      intros Hz. apply map_size_empty_inv in Hz. by rewrite Hz, lookup_empty in Hh.
    + by rewrite Hmax.
    + split; [by eapply lru_step_trans|done].
  - rewrite (current_empty _ Hv) in E. lia.
Qed.

Lemma evict_loop_id fuel sz c :
  current_size (lru_cache c) + sz <= max_size (lru_cache c) -> evict_loop fuel sz c = c.
Proof. intros Hle. destruct fuel; [done|]. cbn. by replace (_ <? _) with false by lia. Qed.

(** The insertion itself, when there is room for the entry. *)
Lemma lru_insert_step log c h w :
  lru_inv c log -> keyed log h (aw_data w) -> store_path w = spill_path c h ->
  current_size (lru_cache c) + entry_size h w <= max_size (lru_cache c) -> entry_size h w <= max_size (lru_cache c) ->
  exists dropped l, lru_insert h w (lru_cache c) = Some (dropped, l)
    /\ let c' := set_lru c l ({[h]} ∪ resident_hash_set c)
                   (fold_left (ArcWrapper_drop (complete_signal c)) dropped (tmp_files c)) in
       lru_step log c c' /\ available c' h /\ lru_view l = <[h := w]> (lru_view (lru_cache c))
       /\ current_size l <= current_size (lru_cache c) + entry_size h w.
Proof.
  intros Hi Hk Hs Hroom Hfit. destruct (insert_fits h w (lru_cache c) Hfit) as
    (dropped & l & Hl & Hmax & Hcur & Hh & _ & _ & Hdrop & Hexact). specialize (Hexact Hroom).
  exists dropped, l. split; [done|]. cbv zeta. set (c' := set_lru _ _ _ _).
  assert (Hm : same_maps c c') by by split.
  split; [|split; [|done]].
  - split; [|done|].
    + split; [apply Hi|apply Hi| | |].
      * intros h' w'. rewrite (same_maps_spill _ _ _ Hm). cbn. rewrite Hexact. intros Hlk.
        apply lookup_insert_Some in Hlk as [[<- <-] | [_ Hlk]]; [done|by apply (li_entries _ _ Hi)].
      * intros h' d. rewrite (same_maps_path _ _ _ Hm). cbn. revert h' d. fold (files_ok c log).
        apply drops_files_ok; [apply Hi|exact (li_files _ _ Hi)|].
        intros w' Hw. destruct (Hdrop _ Hw) as [h' Hh']. exists h'. by apply (li_entries _ _ Hi).
      * cbn. rewrite Hexact, dom_insert_L. pose proof (li_resident _ _ Hi) as Hres. set_solver.
    + intros h' _. unfold available. rewrite (same_maps_path _ _ _ Hm). cbn.
      intros [? | ?]; [left; set_solver|right; by apply drops_keep].
  - left. cbn. set_solver.
Qed.

(** An entry too large for the cache goes straight to its file. *)
Lemma lru_reject_step log c h w :
  lru_inv c log -> keyed log h (aw_data w) -> store_path w = spill_path c h -> is_Some (mem_size c) ->
  let c' := set_lru c (lru_cache c) (resident_hash_set c ∖ {[h]}) (ArcWrapper_drop (complete_signal c) (tmp_files c) w) in
  lru_step log c c' /\ available c' h.
Proof.
  intros Hi Hk Hs [m Hmem] c'. assert (Hm : same_maps c c') by by split.
  assert (Ha : available c' h).
  { right. rewrite (same_maps_path _ _ _ Hm). cbn. rewrite (li_signal _ _ Hi). apply drop_saves.
    rewrite Hs. unfold spill_path. by rewrite Hmem. }
  split; [split; [|done|]|done].
  - split; [apply Hi|apply Hi| | |].
    + intros h' w'. rewrite (same_maps_spill _ _ _ Hm). apply (li_entries _ _ Hi).
    + intros h' d. rewrite (same_maps_path _ _ _ Hm). cbn. revert h' d. fold (files_ok c log).
      eapply drop_files_ok; [apply Hi|exact (li_files _ _ Hi)|done|done].
    + cbn. pose proof (li_resident _ _ Hi) as Hres. set_solver.
  - intros h' _. destruct (decide (h' = h)) as [-> | Hne]; [done|].
    intros [? | ?]; [left; cbn; set_solver|right]. rewrite (same_maps_path _ _ _ Hm). by apply drop_keeps.
Qed.

Lemma insert_lru_resident_bounded log c h w :
  lru_inv c log -> keyed log h (aw_data w) -> store_path w = spill_path c h -> is_Some (mem_size c) ->
  lru_step log c (insert_lru_resident c h w) /\ available (insert_lru_resident c h w) h.
Proof.
  intros Hi Hk Hs Hmem. unfold insert_lru_resident. pose proof (entry_size_pos h w).
  destruct (entry_size h w <=? max_size (lru_cache c)) eqn:E.
  - destruct (evict_loop_ok log (S (size (lru_view (lru_cache c)))) (entry_size h w) c Hi) as [Hst Hroom]; [lia|lia|].
    cbv zeta in *. set (c1 := evict_loop _ _ _) in *. pose proof (sm_max _ _ (ls_maps _ _ _ Hst)).
    destruct (lru_insert_step log c1 h w) as (dropped & l & -> & Hst' & Ha & _); [apply Hst|done| |lia|lia|].
    + by rewrite (same_maps_spill _ _ _ (ls_maps _ _ _ Hst)).
    + split; [by eapply lru_step_trans|done].
  - rewrite insert_too_large by lia. by apply lru_reject_step.
Qed.

Lemma insert_lru_resident_roomy log c h w :
  lru_inv c log -> keyed log h (aw_data w) -> store_path w = spill_path c h ->
  current_size (lru_cache c) + entry_size h w <= max_size (lru_cache c) ->
  let c' := insert_lru_resident c h w in
  lru_step log c c' /\ lru_view (lru_cache c') = <[h := w]> (lru_view (lru_cache c))
  /\ current_size (lru_cache c') <= current_size (lru_cache c) + entry_size h w.
Proof.
  intros Hi Hk Hs Hroom. cbv zeta. pose proof (current_size_pos (lru_cache c)) as Hpos. unfold insert_lru_resident. rewrite evict_loop_id by done.
  replace (if _ <=? _ then c else c) with c by by destruct (_ <=? _).
  destruct (lru_insert_step log c h w) as (dropped & l & -> & Hst & _ & Hv & Hc); [done..|lia|]. done.
Qed.

(** ** The whole cache *)

(** The sizes of the stored objects. *)
Definition footprint (log : list CacheObject) : Z :=
  foldr (fun o n => match base_object_hash o with Some h => entry_size h (ArcWrapper_new o) | None => 0 end + n) 0 log.

Lemma footprint_pos log : 0 <= footprint log.
Proof.
  unfold footprint. induction log as [|o log IH]; cbn; [lia|]. destruct (base_object_hash o); [|lia].
  pose proof (entry_size_pos t (ArcWrapper_new o)). lia.
Qed.

(** The objects of [log] have been stored, and are all there. *)
Record cache_inv (c : Caches) (log : list CacheObject) : Prop := {
  ci_lru : lru_inv c log;
  ci_bounded : is_Some (mem_size c) ->
    unbounded_cache c = None /\ unbounded_offset_cache c = None
    /\ (forall h, h ∈ hash_set c <-> exists o, keyed log h o)
    /\ (forall h, h ∈ hash_set c -> available c h)
    /\ (forall off h, map_offset c !! off = Some h -> exists o, keyed log h o /\ co_offset o = off)
    /\ (forall o, o ∈ log -> is_Some (map_offset c !! co_offset o));
  ci_unbounded : mem_size c = None -> exists uc oc,
    unbounded_cache c = Some uc /\ unbounded_offset_cache c = Some oc
    /\ (forall h, is_Some (uc !! h) <-> exists o, keyed log h o)
    /\ (forall h, is_Some (uc !! h) -> is_Some (lru_view (lru_cache c) !! h))
    /\ (forall off o, oc !! off = Some o -> o ∈ log /\ co_offset o = off)
    /\ (forall o, o ∈ log -> is_Some (oc !! co_offset o))
    /\ current_size (lru_cache c) <= footprint log /\ max_size (lru_cache c) = usize_max
}.

(** A later object does not disturb the earlier ones. *)
Lemma lru_inv_cons c log o : lru_inv c log -> resolved o -> lru_inv c (o :: log).
Proof.
  intros Hi Ho. destruct Hi as [Hl Hsig He Hf Hres]. split; [by constructor|done| | |done].
  - intros h w Hw. destruct (He _ _ Hw) as [[Hin Hh] Hs]. split; [|done]. split; [set_solver|done].
  - intros h d Hwf Hd. destruct (Hf _ _ Hwf Hd) as (o' & [Hin Hh] & ->). exists o'. split; [|done]. split; [set_solver|done].
Qed.

Lemma keyed_cons log o h : base_object_hash o = Some h -> keyed (o :: log) h o.
Proof. split; [set_solver|done]. Qed.

Lemma keyed_cons_iff log o h h' :
  base_object_hash o = Some h -> (exists x, keyed (o :: log) h' x) <-> h' = h \/ exists x, keyed log h' x.
Proof.
  intros Ho. split.
  - intros (x & Hin & Hx). apply elem_of_cons in Hin as [-> | Hin]; [left; congruence|right; by exists x].
  - intros [-> | (x & Hin & Hx)]; [exists o; by apply keyed_cons|]. exists x. split; [set_solver|done].
Qed.

(** Storing an object with a memory limit. *)
Lemma insert_bounded c log o h m :
  cache_inv c log -> resolved o -> base_object_hash o = Some h -> mem_size c = Some m ->
  cache_inv (insert c (co_offset o) h o) (o :: log) /\ mem_size (insert c (co_offset o) h o) = Some m.
Proof.
  intros [Hi Hb _] Ho Hh Em. pose proof (lru_inv_cons _ _ _ Hi Ho) as Hi'. unfold insert. rewrite Em in *.
  destruct Hb as (Huc & Hoc & Hhs & Hav & Hmo & Hmo'); [done|]. rewrite Huc.
  destruct (insert_lru_resident_bounded (o :: log) c h (set_store_path (ArcWrapper_new o) (generate_temp_path c h)) Hi')
    as [[Hi2 Hsm Hkeep] Hah]; [by apply keyed_cons|cbn; unfold spill_path; by rewrite Em|by rewrite Em|].
  set (c2 := insert_lru_resident _ _ _) in *. cbn. rewrite (sm_mem _ _ Hsm), Em. split; [|done].
  split; [by destruct Hi2; split| |cbn; rewrite (sm_mem _ _ Hsm); congruence].
  intros _. cbn. rewrite (sm_unbounded _ _ Hsm), (sm_unbounded_offset _ _ Hsm), (sm_hash _ _ Hsm), (sm_offset _ _ Hsm).
  split; [done|]. split; [done|]. split; [|split; [|split]].
  + intros h'. rewrite (keyed_cons_iff log o h) by done. rewrite <- Hhs. set_solver.
  + intros h' Hin. destruct (decide (h' = h)) as [-> | Hne]; [done|].
    apply Hkeep; [done|]. apply Hav. set_solver.
  + intros off h' Hl. apply lookup_insert_Some in Hl as [[<- <-] | [_ Hl]]; [exists o; split; [by apply keyed_cons|done]|].
    destruct (Hmo _ _ Hl) as (x & [Hin Hx] & Hoff). exists x. split; [split; [set_solver|done]|done].
  + intros x Hx. destruct (decide (co_offset o = co_offset x)) as [-> | Hne]; [by rewrite lookup_insert_eq|].
    rewrite lookup_insert_ne by done. apply Hmo'. apply elem_of_cons in Hx as [-> | Hx]; [congruence|done].
Qed.

(** Storing an object without a limit. *)
Lemma insert_unbounded c log o h :
  cache_inv c log -> resolved o -> base_object_hash o = Some h -> mem_size c = None ->
  footprint (o :: log) <= usize_max ->
  cache_inv (insert c (co_offset o) h o) (o :: log) /\ mem_size (insert c (co_offset o) h o) = None.
Proof.
  intros [Hi _ Hu] Ho Hh Em Hmem. pose proof (lru_inv_cons _ _ _ Hi Ho) as Hi'. unfold insert.
  destruct Hu as (uc & oc & -> & -> & Huc & Hview & Hoc & Hoc' & Hcur & Hmax); [done|].
  set (c1 := set_maps _ _ _ _ _).
  assert (Hi1 : lru_inv c1 (o :: log)) by (destruct Hi'; by split).
  cbn in Hmem. rewrite Hh in Hmem.
  destruct (insert_lru_resident_roomy (o :: log) c1 h (ArcWrapper_new o) Hi1) as ([Hi2 Hsm _] & Hv & Hc);
    [by apply keyed_cons|unfold spill_path; cbn; by rewrite Em|cbn; fold (footprint log) in Hmem; lia|].
  cbn in Hv, Hc. set (c2 := insert_lru_resident _ _ _) in *.
  assert (Em2 : mem_size c2 = None) by (rewrite (sm_mem _ _ Hsm); done).
  split; [|done]. split; [done|rewrite Em2; by intros []|]. intros _.
  exists (<[h := o]> uc), (<[co_offset o := o]> oc).
  rewrite (sm_unbounded _ _ Hsm), (sm_unbounded_offset _ _ Hsm), (sm_max _ _ Hsm), Hv. do 2 (split; [done|]).
  split_and!.
  + intros h'. split; intros Hx; [apply keyed_cons_iff with h; [done|]|].
    * apply lookup_insert_is_Some in Hx as [<- | [_ Hx]]; [by left|]. right. by apply Huc.
    * apply (keyed_cons_iff _ _ h) in Hx as [-> | Hx]; [by rewrite lookup_insert_eq| |done].
      apply lookup_insert_is_Some'. right. by apply Huc.
  + intros h' Hx. apply lookup_insert_is_Some'. apply lookup_insert_is_Some' in Hx as [<- | Hx]; [by left|].
    right. by apply Hview.
  + intros off x Hx. apply lookup_insert_Some in Hx as [[<- <-] | [_ Hl]]; [set_solver|].
    destruct (Hoc _ _ Hl). set_solver.
  + intros x Hx. apply lookup_insert_is_Some'. apply elem_of_cons in Hx as [-> | Hx]; [by left|right; by apply Hoc'].
  + cbn. rewrite Hh. fold (footprint log). lia.
  + done.
Qed.

Lemma cache_insert_ok c log o h :
  cache_inv c log -> resolved o -> base_object_hash o = Some h ->
  (mem_size c = None -> footprint (o :: log) <= usize_max) ->
  cache_inv (insert c (co_offset o) h o) (o :: log) /\ mem_size (insert c (co_offset o) h o) = mem_size c.
Proof.
  intros Hc Ho Hh Hmem. destruct (mem_size c) eqn:Em; [by apply insert_bounded|apply insert_unbounded; auto].
Qed.

(** ** Lookups *)

Lemma lru_step_cache_inv c c' log :
  cache_inv c log -> lru_step log c c' -> is_Some (mem_size c) -> cache_inv c' log.
Proof.
  intros [Hi Hb Hu] [Hi' Hsm Hkeep] Hm. split; [done| |].
  - intros _. destruct (Hb Hm) as (? & ? & ? & Hav & ? & ?).
    rewrite (sm_unbounded _ _ Hsm), (sm_unbounded_offset _ _ Hsm), (sm_hash _ _ Hsm), (sm_offset _ _ Hsm).
    split_and!; auto.
  - rewrite (sm_mem _ _ Hsm). intros E. rewrite E in Hm. by destruct Hm.
Qed.

Lemma try_get_ok c log h :
  cache_inv c log ->
  exists c', try_get c h = (aw_data <$> lru_view (lru_cache c) !! h, c') /\ cache_inv c' log /\ mem_size c' = mem_size c
    /\ tmp_files c' = tmp_files c /\ tmp_path c' = tmp_path c.
Proof.
  intros [Hi Hb Hu]. unfold try_get. destruct (get_view h (lru_cache c)) as (Hg & Hv & Hx & Hc).
  destruct (lru_get h (lru_cache c)) as [r l]. cbn in *. rewrite Hg. eexists. split; [done|].
  split; [|done]. split.
  - destruct Hi. split; cbn; rewrite ?Hv; done.
  - intros Hm. destruct (Hb Hm) as (? & ? & ? & Hav & ? & ?). split_and!; done.
  - intros Hm. destruct (Hu Hm) as (uc & oc & ?). exists uc, oc. cbn. by rewrite Hv, Hx, Hc.
Qed.

(** What a lookup by name answers. *)
Definition answers_hash (log : list CacheObject) (h : ObjectHash.t) (r : option CacheObject) : Prop :=
  match r with Some o => keyed log h o | None => ~ exists o, keyed log h o end.

Lemma get_fallback_ok c log h o0 :
  cache_inv c log -> is_Some (mem_size c) -> keyed log h o0 -> is_Some (tmp_files c !! generate_temp_path c h) ->
  exists o c', get_fallback c h = Ok (o, c') /\ cache_inv c' log /\ mem_size c' = mem_size c /\ keyed log h o.
Proof.
  intros Hc Hm Hk [d Hd]. pose proof (ci_lru _ _ Hc) as Hi. unfold get_fallback, f_load. rewrite Hd. cbn.
  destruct (keyed_wf _ _ _ (li_log _ _ Hi) Hk) as [Hwf _].
  destruct (li_files _ _ Hi _ _ Hwf Hd) as (o & Ho & ->). rewrite (disk_roundtrip _ _ _ (li_log _ _ Hi) Ho).
  eexists _, _. split; [done|].
  destruct (insert_lru_resident_bounded log c h (set_store_path (ArcWrapper_new o) (generate_temp_path c h)) Hi) as [Hs _];
    [done|unfold spill_path; by destruct Hm as [m ->]|done|].
  split; [by eapply lru_step_cache_inv|]. split; [apply (sm_mem _ _ (ls_maps _ _ _ Hs))|done].
Qed.

(** A lookup by name finds an object exactly when one was stored under the name, wherever it
    is now. *)
Lemma get_by_hash_ok c log h :
  cache_inv c log ->
  exists r c', get_by_hash c h = Ok (r, c') /\ cache_inv c' log /\ mem_size c' = mem_size c /\ answers_hash log h r.
Proof.
  intros Hc. pose proof Hc as [Hi Hb Hu]. unfold get_by_hash.
  destruct (try_get_ok c log h Hc) as (ct & Ht & Hct & Hmt & Hft & Hpt). rewrite Ht.
  destruct (mem_size c) as [m|] eqn:Em.
  - destruct Hb as (_ & _ & Hhs & Hav & _); [done|].
    case_bool_decide as Hin; [|exists None, c; rewrite Em; split_and!; try done; cbn; by rewrite <- Hhs].
    destruct (proj1 (Hhs h) Hin) as [o0 Ho0]. specialize (Hav h Hin).
    case_bool_decide as Hres.
    + destruct (get_fallback_ok c log h o0) as (o & c' & -> & ? & ? & ?); [done|by rewrite Em|done|by destruct Hav|].
      exists (Some o), c'. cbn. split_and!; try done. congruence.
    + assert (Hv : is_Some (lru_view (lru_cache c) !! h)).
      { apply elem_of_dom. apply (li_resident _ _ Hi). destruct (decide (h ∈ resident_hash_set c)); tauto. }
      destruct Hv as [w Hw]. rewrite Hw. exists (Some (aw_data w)), ct. cbn. split_and!; try done.
      by apply (li_entries _ _ Hi).
  - destruct Hu as (uc & oc & -> & _ & Huc & Hview & _); [done|].
    destruct (uc !! h) as [o|] eqn:Eo.
    + destruct (Hview h) as [w Hw]; [by rewrite Eo|]. rewrite Hw. exists (Some (aw_data w)), ct. split_and!; try done.
      by apply (li_entries _ _ Hi).
    + exists None, c. rewrite Em. split_and!; try done. cbn. rewrite <- Huc, Eo. by intros [].
Qed.

(** A lookup by offset answers with an object of the same name as the one stored at the
    offset. *)
Definition answers_offset (log : list CacheObject) (off : Z) (r : option CacheObject) : Prop :=
  match r with
  | Some o => exists h o', keyed log h o /\ keyed log h o' /\ co_offset o' = off
  | None => forall o, o ∈ log -> co_offset o <> off
  end.

Lemma get_by_offset_ok c log off :
  cache_inv c log ->
  exists r c', get_by_offset c off = Ok (r, c') /\ cache_inv c' log /\ mem_size c' = mem_size c /\ answers_offset log off r.
Proof.
  intros Hc. pose proof Hc as [Hi Hb Hu]. unfold get_by_offset. destruct (mem_size c) as [m|] eqn:Em.
  - destruct Hb as (_ & -> & _ & _ & Hmo & Hmo'); [done|].
    destruct (map_offset c !! off) as [h|] eqn:Eo.
    + destruct (Hmo _ _ Eo) as (o' & Ho' & Hoff). destruct (get_by_hash_ok c log h Hc) as (r & c' & -> & ? & Hm & Ha).
      exists r, c'. rewrite Hm. split_and!; try done. destruct r as [o|]; [by exists h, o'|]. destruct Ha. by exists o'.
    + exists None, c. split_and!; try done. intros o Ho Hoff. destruct (Hmo' o Ho) as [h Hh]. congruence.
  - destruct Hu as (uc & oc & Euc & -> & Huc & Hview & Hoc & Hoc' & _); [done|].
    destruct (oc !! off) as [o'|] eqn:Eo.
    + destruct (Hoc _ _ Eo) as [Hin Hoff]. pose proof (li_log _ _ Hi) as Hl. rewrite Forall_forall in Hl.
      destruct (Hl _ Hin) as (h & Hh & _). cbn. rewrite Hh.
      destruct (try_get_ok c log h Hc) as (ct & Ht & Hct & Hmt & _). rewrite Ht.
      destruct (Hview h) as [w Hw]; [apply Huc; by exists o'|]. rewrite Hw.
      exists (Some (aw_data w)), ct. cbn. rewrite Hmt. split_and!; try done. exists h, o'. split; [|done].
      by apply (li_entries _ _ Hi).
    + exists None, c. cbn. split_and!; try done. intros o Ho Hoff. destruct (Hoc' o Ho) as [h Hh]. congruence.
Qed.

(** No more objects are counted than were stored. *)
Lemma size_le_length `{Countable K} (X : gset K) (l : list K) : (forall x, x ∈ X -> x ∈ l) -> (size X <= length l)%nat.
Proof.
  intros Hx. change (size X) with (length (elements X)). apply submseteq_length, NoDup_submseteq; [apply NoDup_elements|].
  intros x Hin. apply Hx. by apply elem_of_elements.
Qed.

Lemma total_inserted_le c log : cache_inv c log -> total_inserted c <= blen log.
Proof.
  intros [Hi Hb Hu]. unfold total_inserted, blen. apply Z.le_trans with (Z.of_nat (length log)); [|done].
  destruct (mem_size c) as [m|].
  - destruct Hb as (_ & _ & Hhs & _); [done|].
    rewrite <- (length_map (fun o => default ObjectHash.default (base_object_hash o)) log). apply inj_le, size_le_length.
    intros h Hin. apply Hhs in Hin as (o & Hin & Ho). apply list_elem_of_fmap. exists o. by rewrite Ho.
  - destruct Hu as (uc & oc & _ & -> & _ & _ & Hoc & _); [done|].
    rewrite <- size_dom, <- (length_map co_offset log). apply inj_le, size_le_length.
    intros off Hin. apply elem_of_dom in Hin as [o Ho]. destruct (Hoc _ _ Ho) as [Hin <-]. by apply list_elem_of_fmap_2.
Qed.

Lemma Caches_new_ok mem tmp : cache_inv (Caches_new mem tmp) [].
Proof.
  assert (Hi : lru_inv (Caches_new mem tmp) []).
  { by split; cbn; rewrite ?view_new. }
  split; [done| |]; cbn.
  - intros [m ->]. cbn. split_and!; try done.
    + intros h. split; [set_solver|]. intros (o & Hin & _). set_solver.
    + intros o. set_solver.
  - intros ->. exists ∅, ∅. cbn. rewrite max_new. split_and!; try done.
    + intros h. rewrite lookup_empty. split; [by intros []|]. intros (o & Hin & _). set_solver.
    + intros h. rewrite lookup_empty. by intros [].
    + intros o. set_solver.
    + rewrite current_empty; [done|apply view_new].
Qed.

End proofs.

(** * Sequences of operations *)

Inductive CacheOp : Type := OpInsert (o : CacheObject) | OpGetByHash (h : ObjectHash.t) | OpGetByOffset (off : Z).

Section histories.
Context `{HexCrate} `{LruCache}.

(** One call, as the decoder makes it: an object is stored under its own offset and name. *)
Definition run_op (c : Caches) (op : CacheOp) : Res Empty_set Caches :=
  match op with
  | OpInsert o => let! h := or_panic (base_object_hash o) in Ok (insert c (co_offset o) h o)
  | OpGetByHash h => let! '(_, c) := get_by_hash c h in Ok c
  | OpGetByOffset off => let! '(_, c) := get_by_offset c off in Ok c
  end.

Fixpoint run_ops (c : Caches) (ops : list CacheOp) : Res Empty_set Caches :=
  match ops with [] => Ok c | op :: ops => let! c := run_op c op in run_ops c ops end.

(** The objects stored, the latest first. *)
Fixpoint stored_objects (log : list CacheObject) (ops : list CacheOp) : list CacheObject :=
  match ops with
  | [] => log
  | OpInsert o :: ops => stored_objects (o :: log) ops
  | _ :: ops => stored_objects log ops
  end.

Lemma footprint_mono `{!LruLaws} ops log : footprint log <= footprint (stored_objects log ops).
Proof.
  revert log. induction ops as [|[o|h|off] ops IH]; intros log; cbn [stored_objects]; [lia| |apply IH..].
  etrans; [|apply IH]. cbn. fold (footprint log). destruct (base_object_hash o); [|lia].
  pose proof (entry_size_pos t (ArcWrapper_new o)). lia.
Qed.

Lemma run_ops_ok `{!HexLaws} `{!LruLaws} c log ops :
  cache_inv c log -> (forall o, OpInsert o ∈ ops -> resolved o) ->
  (mem_size c = None -> footprint (stored_objects log ops) <= usize_max) ->
  exists c', run_ops c ops = Ok c' /\ cache_inv c' (stored_objects log ops) /\ mem_size c' = mem_size c.
Proof.
  revert c log. induction ops as [|op ops IH]; intros c log Hc Hr Hm; [by exists c|]. cbn [run_ops].
  destruct op as [o|h|off]; cbn [run_op stored_objects] in *.
  - destruct (Hr o) as (h & Hh & Hrest); [set_solver|]. rewrite Hh. cbn.
    destruct (cache_insert_ok c log o h) as [Hc' Hm']; [done|by exists h|done|intros E; etrans; [apply footprint_mono|by apply Hm]|].
    rewrite <- Hm'. apply IH; [done|set_solver|by rewrite Hm'].
  - destruct (get_by_hash_ok c log h Hc) as (r & c' & -> & Hc' & Hm' & _). cbn. rewrite <- Hm'.
    apply IH; [done|set_solver|by rewrite Hm'].
  - destruct (get_by_offset_ok c log off Hc) as (r & c' & -> & Hc' & Hm' & _). cbn. rewrite <- Hm'.
    apply IH; [done|set_solver|by rewrite Hm'].
Qed.

End histories.

(** C20: the cache loses nothing, whatever its memory limit and whatever is evicted on the
    way: after any calls, a lookup by name finds an object stored under that name exactly when
    one was stored, a lookup by offset an object of the same name as the one stored at that
    offset, and no lookup waits for a file that is never written. *)
Theorem caches_keep_objects `{HexCrate} `{!HexLaws} `{LruCache} `{!LruLaws} (mem : option Z) (tmp : path) (ops : list CacheOp) :
  (forall o, OpInsert o ∈ ops -> resolved o) ->
  (mem = None -> footprint (stored_objects [] ops) <= usize_max) ->
  exists c, run_ops (Caches_new mem tmp) ops = Ok c
    /\ (forall h, exists r c', get_by_hash c h = Ok (r, c') /\ answers_hash (stored_objects [] ops) h r)
    /\ (forall off, exists r c', get_by_offset c off = Ok (r, c') /\ answers_offset (stored_objects [] ops) off r)
    /\ total_inserted c <= blen (stored_objects [] ops).
Proof.
  intros Hr Hm. destruct (run_ops_ok (Caches_new mem tmp) [] ops (Caches_new_ok mem tmp) Hr Hm) as (c & -> & Hc & _).
  exists c. split; [done|]. split; [|split].
  - intros h. destruct (get_by_hash_ok c _ h Hc) as (r & c' & ? & _ & _ & ?). by exists r, c'.
  - intros off. destruct (get_by_offset_ok c _ off Hc) as (r & c' & ? & _ & _ & ?). by exists r, c'.
  - by apply total_inserted_le.
Qed.

(** ** A cache that satisfies the laws *)

(** The entries with a capacity; it evicts an arbitrary entry. *)
Definition entry_weight (h : ObjectHash.t) (w : ArcWrapper) : Z := 1 + blen (data_decompressed (aw_data w)).

Definition weight (m : gmap ObjectHash.t ArcWrapper) : Z := map_fold (fun h w n => entry_weight h w + n) 0 m.

Definition toy_lru : LruCache := {|
  lru := Z * gmap ObjectHash.t ArcWrapper;
  lru_new := fun m => (m, ∅);
  lru_view := snd;
  max_size := fst;
  current_size := fun l => weight l.2;
  entry_size := entry_weight;
  lru_get := fun h l => (l.2 !! h, l);
  lru_insert := fun h w l =>
    if l.1 <? entry_weight h w then None
    else if l.1 <? weight l.2 + entry_weight h w
    then Some ((map_to_list l.2).*2, (l.1, {[h := w]}))
    else Some (option_list (l.2 !! h), (l.1, <[h := w]> l.2));
  lru_remove := fun h l => (l.2 !! h, (l.1, delete h l.2));
  remove_lru := fun l => match map_to_list l.2 with [] => None | (h, w) :: _ => Some ((h, w), (l.1, delete h l.2)) end;
  lru_clear := fun l => (l.1, ∅)
|}.

Lemma weight_insert m h w : m !! h = None -> weight (<[h := w]> m) = entry_weight h w + weight m.
Proof. intros Hm. unfold weight. rewrite map_fold_insert_L; [done| |done]. intros. lia. Qed.

Lemma weight_delete m h w : m !! h = Some w -> weight m = entry_weight h w + weight (delete h m).
Proof. intros Hm. rewrite <- weight_insert by apply lookup_delete_eq. by rewrite insert_delete_id. Qed.

Lemma entry_weight_pos h w : 0 < entry_weight h w.
Proof. unfold entry_weight, blen. lia. Qed.

Lemma weight_pos m : 0 <= weight m.
Proof.
  unfold weight. apply (map_fold_weak_ind (fun n _ => 0 <= n)); [lia|]. intros h w m' n _ Hn.
  pose proof (entry_weight_pos h w). lia.
Qed.

Lemma weight_delete_le m h : weight (delete h m) <= weight m.
Proof.
  destruct (m !! h) as [w|] eqn:E; [|by rewrite delete_id].
  rewrite (weight_delete m h w E). pose proof (entry_weight_pos h w). lia.
Qed.

Lemma weight_insert_le m h w : weight (<[h := w]> m) <= weight m + entry_weight h w.
Proof.
  rewrite <- insert_delete_eq, weight_insert by apply lookup_delete_eq. pose proof (weight_delete_le m h). lia.
Qed.

Lemma toy_lru_laws : @LruLaws toy_lru.
Proof.
  split; cbn; try done.
  - intros l ->. unfold weight. apply map_fold_empty.
  - intros l. apply weight_pos.
  - intros h w. pose proof (entry_weight_pos h w). lia.
  - intros h w l Hlt. by replace (_ <? _) with true by lia.
  - intros h w [m l] Hle. cbn in *. replace (m <? _) with false by lia. destruct (m <? weight l + _) eqn:E.
    + eexists _, _. split; [done|]. cbn. split; [done|].
      split; [|split; [by rewrite lookup_singleton_eq|split; [|split; [|split]]]].
      * rewrite <- insert_empty, weight_insert by apply lookup_empty. pose proof (weight_pos l).
        unfold weight at 1. rewrite map_fold_empty. lia.
      * intros h' w' Hw. left. apply list_elem_of_fmap. exists (h', w'). split; [done|]. by apply elem_of_map_to_list.
      * intros h' w' Hne. by rewrite lookup_singleton_ne.
      * intros w' Hw. apply list_elem_of_fmap in Hw as ([h' w''] & -> & Hw). exists h'. by apply elem_of_map_to_list.
      * lia.
    + eexists _, _. split; [done|]. cbn. split; [done|].
      split; [apply weight_insert_le|split; [by rewrite lookup_insert_eq|split; [|split; [|split]]]].
      * intros h' w' Hw. destruct (decide (h' = h)) as [-> | Hne]; [left; rewrite Hw; set_solver|right].
        by rewrite lookup_insert_ne.
      * intros h' w' Hne. by rewrite lookup_insert_ne.
      * intros w' Hw. exists h. destruct (l !! h) as [w0|]; cbn in Hw; set_solver.
      * done.
  - intros h [m l]. cbn. split_and!; try done. apply weight_delete_le.
  - intros [m l]. cbn. destruct (map_to_list l) as [|[h w] rest] eqn:E; [by apply map_to_list_empty_iff|].
    cbn. split_and!; try done; [|apply weight_delete_le]. apply elem_of_map_to_list. rewrite E. set_solver.
Qed.

Definition sample_other : CacheObject :=
  mkCacheObject (BaseObject ObjectType.Blob (ObjectHash.Sha256 (repeat 7 32))) 90 0 (repeat 1 9) false None.

Definition sample_ops : list CacheOp :=
  [OpInsert sample_base; OpInsert sample_other; OpGetByHash sample_base_id; OpGetByOffset 90].

Lemma caches_keep_objects_witness :
  exists c, @run_ops hex_reference toy_lru (@Caches_new toy_lru (Some 8) []) sample_ops = Ok c
    /\ (forall h, exists r c', @get_by_hash hex_reference toy_lru c h = Ok (r, c')
        /\ answers_hash (stored_objects [] sample_ops) h r)
    /\ (forall off, exists r c', @get_by_offset hex_reference toy_lru c off = Ok (r, c')
        /\ answers_offset (stored_objects [] sample_ops) off r)
    /\ @total_inserted toy_lru c <= blen (stored_objects [] sample_ops).
Proof.
  apply (@caches_keep_objects hex_reference hex_reference_laws toy_lru toy_lru_laws (Some 8) [] sample_ops); [|done].
  intros o Ho. unfold sample_ops in Ho. rewrite !elem_of_cons in Ho.
  destruct Ho as [[= ->] | [[= ->] | [[=] | [[=] | Ho]]]]; [..|set_solver].
  - exists sample_base_id. split; [reflexivity|]. split; [|reflexivity]. split; [reflexivity|decide_closed].
  - exists (ObjectHash.Sha256 (repeat 7 32)). split; [reflexivity|]. split; [|reflexivity]. split; [reflexivity|decide_closed].
Defined.
