(* ===== verification/SpillFiles.v ===== *)
(** Spill files, [FileLoadStore] of [src/internal/pack/cache_object.rs]: threads of the pool save
    objects at the same time, each through a temporary file that gets its final name only if there
    is no such file yet.

    A thread that saves is at one of the points [Saving] of [f_save] and [write_bytes_atomically];
    a step is one access to the file system, whose answer may be any that it documents.  Dropping a
    temporary file removes it.  The serialised form of an object comes from rkyv, the parameter
    [Rkyv]. *)

From Stdlib Require Import ZArith Lia String.
From stdpp Require Import base tactics list numbers option gmap.
From S2P Require Import Prelude Text ObjectTypes Hash PackDecode Caches.

(** An [io::Error]: whether its kind is [AlreadyExists], and its text. *)
Record FsError : Type := mkFsError { already_exists : bool; fs_text : bytes }.

(** [to_bytes] and [from_bytes] of rkyv; an error is given by its text. *)
Class Rkyv (T : Type) := {
  rkyv_to_bytes : T -> Res bytes bytes;
  rkyv_from_bytes : bytes -> Res bytes T
}.

Definition other_error (text : bytes) : FsError := mkFsError false text.

Section spill.
Context {T : Type} `{Rkyv T}.

(** * The threads *)

(** Where a thread is: before the first check, before the check of [write_bytes_atomically] with the
    bytes to write, before it creates its temporary file, while it writes it, before it gives it
    its name, after it found the name taken, and at the end. *)
Inductive Saving : Type :=
| CheckFirst
| Serialise
| CheckAgain (data : bytes)
| CreateTemp (data : bytes)
| WriteTemp (tmp : nat) (rest : bytes)
| Persist (tmp : nat)
| Clash (err : FsError)
| Saved (r : Res FsError unit).

Record Saver : Type := mkSaver { sv_path : path; sv_object : T; sv_at : Saving }.

Record Spill : Type := mkSpill {
  sp_files : gmap path bytes;
  sp_temps : gmap nat bytes;
  sp_savers : list Saver
}.

Definition saver_new (p : path) (o : T) : Saver := mkSaver p o CheckFirst.

Definition exists_path (fs : gmap path bytes) (p : path) : bool := bool_decide (is_Some (fs !! p)).

(** One step of one thread: the files and temporary files before and after. *)
Inductive save_step (p : path) (o : T) : gmap path bytes -> gmap nat bytes -> Saving -> gmap path bytes -> gmap nat bytes -> Saving -> Prop :=
| check_first fs ts :
    save_step p o fs ts CheckFirst fs ts (if exists_path fs p then Saved (Ok tt) else Serialise)
| serialise fs ts :
    save_step p o fs ts Serialise fs ts
      (match rkyv_to_bytes o with Ok data => CheckAgain data | Err text => Saved (Err (other_error text))
       | Panic => Saved Panic | OutOfFuel => Saved OutOfFuel end)
| check_again fs ts data :
    save_step p o fs ts (CheckAgain data) fs ts (if exists_path fs p then Saved (Ok tt) else CreateTemp data)
| create_temp fs ts data n :
    ts !! n = None -> save_step p o fs ts (CreateTemp data) fs (<[n := []]> ts) (WriteTemp n data)
| create_fails fs ts data err : save_step p o fs ts (CreateTemp data) fs ts (Saved (Err err))
| write_some fs ts n rest written k :
    (0 < k <= length rest)%nat -> ts !! n = Some written ->
    save_step p o fs ts (WriteTemp n rest) fs (<[n := written ++ take k rest]> ts) (WriteTemp n (drop k rest))
| write_done fs ts n : save_step p o fs ts (WriteTemp n []) fs ts (Persist n)
| write_fails fs ts n rest err : save_step p o fs ts (WriteTemp n rest) fs (delete n ts) (Saved (Err err))
| persist_new fs ts n data :
    fs !! p = None -> ts !! n = Some data -> save_step p o fs ts (Persist n) (<[p := data]> fs) (delete n ts) (Saved (Ok tt))
| persist_taken fs ts n err :
    is_Some (fs !! p) -> already_exists err = true -> save_step p o fs ts (Persist n) fs (delete n ts) (Clash err)
| persist_fails fs ts n err :
    already_exists err = false -> save_step p o fs ts (Persist n) fs (delete n ts) (Saved (Err err))
| clash fs ts err : save_step p o fs ts (Clash err) fs ts (Saved (if exists_path fs p then Ok tt else Err err)).

(** Any thread takes the next step. *)
Inductive spill_step : Spill -> Spill -> Prop :=
| saver_steps before p o at_ after fs ts fs' ts' at' :
    save_step p o fs ts at_ fs' ts' at' ->
    spill_step (mkSpill fs ts (before ++ mkSaver p o at_ :: after)) (mkSpill fs' ts' (before ++ mkSaver p o at' :: after)).

(** [f_load]. *)
Definition load_file (fs : gmap path bytes) (not_found : FsError) (p : path) : Res FsError T :=
  let! data := ok_or (fs !! p) not_found in
  map_err other_error (rkyv_from_bytes data).

(** * The invariant *)

Definition held_temp (s : Saver) : option nat :=
  match sv_at s with WriteTemp n _ | Persist n => Some n | _ => None end.

(** What a thread knows at its point. *)
Definition saver_ok (fs : gmap path bytes) (ts : gmap nat bytes) (s : Saver) : Prop :=
  match sv_at s with
  | CheckAgain data | CreateTemp data => rkyv_to_bytes (sv_object s) = Ok data
  | WriteTemp n rest => exists written, ts !! n = Some written /\ rkyv_to_bytes (sv_object s) = Ok (written ++ rest)
  | Persist n => exists data, ts !! n = Some data /\ rkyv_to_bytes (sv_object s) = Ok data
  | Clash _ | Saved (Ok _) => is_Some (fs !! sv_path s)
  | _ => True
  end.

(** A file holds the whole serialised form of an object some thread saves there. *)
Definition whole (savers : list Saver) (p : path) (data : bytes) : Prop :=
  exists s, s ∈ savers /\ sv_path s = p /\ rkyv_to_bytes (sv_object s) = Ok data.

Record spill_inv (fs0 : gmap path bytes) (st : Spill) : Prop := {
  si_files : forall p data, sp_files st !! p = Some data -> fs0 !! p = Some data \/ whole (sp_savers st) p data;
  si_kept : fs0 ⊆ sp_files st;
  si_savers : Forall (saver_ok (sp_files st) (sp_temps st)) (sp_savers st);
  si_owners : NoDup (omap held_temp (sp_savers st))
}.

Definition spill_init (fs0 : gmap path bytes) (jobs : list (path * T)) : Spill :=
  mkSpill fs0 ∅ (map (fun '(p, o) => saver_new p o) jobs).

Lemma spill_init_inv fs0 jobs : spill_inv fs0 (spill_init fs0 jobs).
Proof.
  split; cbn; [by left|done| |].
  - apply Forall_fmap, Forall_true. by intros [p o].
  - replace (omap held_temp _) with (@nil nat); [constructor|]. induction jobs as [|[p o] jobs IH]; [done|]. cbn. exact IH.
Qed.

(** A step keeps what another thread knows: files only appear, and temporary files that another
    thread holds stay as they are. *)
Lemma saver_ok_other fs ts fs' ts' s :
  fs ⊆ fs' -> (forall n, held_temp s = Some n -> ts' !! n = ts !! n) -> saver_ok fs ts s -> saver_ok fs' ts' s.
Proof.
  intros Hfs Hts. unfold saver_ok, held_temp in *. destruct (sv_at s) as [| |d|d|n rest|n|e|[[]|e| |]]; try done.
  - by rewrite Hts.
  - by rewrite Hts.
  - intros [d Hd]. exists d. by eapply lookup_weaken.
  - intros [d Hd]. exists d. by eapply lookup_weaken.
Qed.

(** What one step of one thread does, given what it knows. *)
Lemma save_step_ok p o fs ts at_ fs' ts' at' :
  save_step p o fs ts at_ fs' ts' at' -> saver_ok fs ts (mkSaver p o at_) ->
  saver_ok fs' ts' (mkSaver p o at') /\ fs ⊆ fs'
  /\ (forall q data, fs' !! q = Some data -> fs !! q = Some data \/ q = p /\ rkyv_to_bytes o = Ok data)
  /\ (forall n, ts' !! n <> ts !! n -> held_temp (mkSaver p o at_) = Some n \/ ts !! n = None)
  /\ (forall n, held_temp (mkSaver p o at') = Some n -> held_temp (mkSaver p o at_) = Some n \/ ts !! n = None).
Proof.
  intros Hs Hk. unfold saver_ok, held_temp in *. cbn [sv_at sv_path sv_object] in *.
  assert (Hdel : forall n, (forall m, delete n ts !! m <> ts !! m -> Some n = Some m \/ ts !! m = None)).
  { intros n m. destruct (decide (n = m)) as [->|Hn]; [by left|]. by rewrite lookup_delete_ne. }
  destruct Hs as [fs ts|fs ts|fs ts data|fs ts data n Hn|fs ts data err|fs ts n rest written k Hlt Hw|fs ts n|fs ts n rest err
    |fs ts n data Hnew Hd|fs ts n err Ht He|fs ts n err He|fs ts err]; cbn in *.
  - destruct (exists_path fs p) eqn:E; split_and!; try done; try by left. by apply bool_decide_eq_true in E.
  - destruct (rkyv_to_bytes o) eqn:E; split_and!; try done; by left.
  - destruct (exists_path fs p) eqn:E; split_and!; try done; try by left. by apply bool_decide_eq_true in E.
  - split_and!; [exists []; by rewrite lookup_insert_eq|done|by left| |].
    + intros m. destruct (decide (n = m)) as [<-|Hm]; [by right|]. by rewrite lookup_insert_ne.
    + intros m [= <-]. by right.
  - split_and!; try done; by left.
  - destruct Hk as (w & Hw' & Hr). rewrite Hw in Hw'. injection Hw' as <-. split_and!; [|done|by left| |by left].
    + exists (written ++ take k rest). rewrite lookup_insert_eq, <- app_assoc, take_drop. done.
    + intros m. destruct (decide (n = m)) as [<-|Hm]; [by left|]. by rewrite lookup_insert_ne.
  - destruct Hk as (w & Hw & Hr). rewrite app_nil_r in Hr. split_and!; [by exists w|done|by left|done|by left].
  - split_and!; naive_solver.
  - destruct Hk as (d & Hd' & Hr). rewrite Hd in Hd'. injection Hd' as <-. split_and!; [|by apply insert_subseteq| |apply Hdel|done].
    + rewrite lookup_insert_eq. by exists data.
    + intros q d. destruct (decide (p = q)) as [<-|Hq]; [|rewrite lookup_insert_ne by done; by left].
      rewrite lookup_insert_eq. intros [= <-]. by right.
  - split_and!; naive_solver.
  - split_and!; naive_solver.
  - destruct (exists_path fs p) eqn:E; split_and!; try done; by left.
Qed.
Lemma held_elem (s : Saver) (savers : list Saver) n : s ∈ savers -> held_temp s = Some n -> n ∈ omap held_temp savers.
Proof. intros Hs Hn. apply list_elem_of_omap. by exists s. Qed.

(** A temporary file that nobody created is held by nobody. *)
Lemma held_exists fs ts (savers : list Saver) n : Forall (saver_ok fs ts) savers -> ts !! n = None -> n ∉ omap held_temp savers.
Proof.
  intros Hok Hn (s & Hs & Hh)%list_elem_of_omap. rewrite Forall_forall in Hok. specialize (Hok s Hs).
  unfold saver_ok, held_temp in *. destruct (sv_at s); simplify_eq; destruct Hok as (d & Hd & _); congruence.
Qed.

Lemma whole_moves before p o at_ at' after q data :
  whole (before ++ mkSaver p o at_ :: after) q data -> whole (before ++ mkSaver p o at' :: after) q data.
Proof.
  intros (s & Hs & Hp & Hd). apply elem_of_app in Hs as [Hs|Hs]; [exists s; set_solver|].
  apply elem_of_cons in Hs as [->|Hs]; [|exists s; set_solver]. exists (mkSaver p o at'). set_solver.
Qed.

(** One thread gives up its temporary file and takes another. *)
Lemma replace_owner (before after : list nat) (old new : option nat) :
  NoDup (before ++ match old with Some n => n :: after | None => after end) ->
  (forall n, new = Some n -> n ∉ before /\ n ∉ after) ->
  NoDup (before ++ match new with Some n => n :: after | None => after end).
Proof.
  intros (Hb & Hdis & Ha)%NoDup_app Hnew.
  assert (Hafter : NoDup after /\ forall m, m ∈ before -> m ∉ after).
  { destruct old; [|done]. apply NoDup_cons in Ha as [_ Ha]. split; [done|]. intros m Hm Hm'. apply (Hdis m Hm). by right. }
  destruct Hafter as [Ha' Hdis']. apply NoDup_app. split; [done|]. destruct new as [n|]; [|done]. destruct (Hnew n eq_refl) as [Hnb Hna].
  split; [|by apply NoDup_cons]. intros m Hm [->|Hm']%elem_of_cons; [done|by apply (Hdis' m)].
Qed.

Lemma spill_step_inv fs0 st st' : spill_step st st' -> spill_inv fs0 st -> spill_inv fs0 st' /\ sp_files st ⊆ sp_files st'.
Proof.
  intros [before p o at_ after fs ts fs' ts' at' Hs] [Hf Hk Hok Hnd]. cbn [sp_files sp_temps sp_savers] in *.
  pose proof Hok as [Hb [Hme Ha]%Forall_cons_1]%Forall_app.
  destruct (save_step_ok _ _ _ _ _ _ _ _ Hs Hme) as (Hme' & Hsub & Hnew & Htemps & Hheld).
  rewrite omap_app in Hnd. cbn [omap list_omap] in Hnd.
  assert (Hfree : forall n, ts !! n = None -> n ∉ omap held_temp before /\ n ∉ omap held_temp after).
  { intros n Hn. split; by eapply held_exists. }
  assert (Hothers : forall n, n ∈ omap held_temp before \/ n ∈ omap held_temp after -> held_temp (mkSaver p o at_) <> Some n /\ is_Some (ts !! n)).
  { intros n Hn. split.
    - intros E. rewrite E in Hnd. apply NoDup_app in Hnd as (_ & Hdis & Hc). apply NoDup_cons in Hc as [Hc _]. destruct Hn as [Hn|Hn]; [|done].
      by apply (Hdis n Hn), list_elem_of_here.
    - destruct (ts !! n) eqn:E; [by eexists|]. destruct (Hfree n E). tauto. }
  assert (Hsame : forall n, n ∈ omap held_temp before \/ n ∈ omap held_temp after -> ts' !! n = ts !! n).
  { intros n Hn. destruct (decide (ts' !! n = ts !! n)) as [|Hd]; [done|]. destruct (Hothers n Hn) as [H1 [d H2]].
    destruct (Htemps n Hd) as [?|?]; congruence. }
  split; [|done]. split; cbn [sp_files sp_temps sp_savers].
  - intros q data Hq. destruct (Hnew q data Hq) as [Hold|[-> Hd]].
    + destruct (Hf q data Hold) as [|Hw]; [by left|right; by eapply whole_moves].
    + right. exists (mkSaver p o at'). split; [set_solver|done].
  - by trans fs.
  - apply Forall_app. split; [|apply Forall_cons; split; [done|]].
    all: rewrite Forall_forall in Hb, Ha |- *; intros s Hin; eapply saver_ok_other; [done| |by auto];
      intros n Hn; apply Hsame; eauto using held_elem.
  - rewrite omap_app. apply (replace_owner _ _ (held_temp (mkSaver p o at_))); [done|].
    intros n Hn. destruct (Hheld n Hn) as [Hh|Hh]; [|by apply Hfree]. split; intros Hin; destruct (Hothers n); eauto.
Qed.
(** * Progress *)

Definition serialised_size (o : T) : nat := match rkyv_to_bytes o with Ok data => length data | _ => O end.

(** Steps a thread has still to do, at most. *)
Definition save_cost (s : Saver) : nat :=
  match sv_at s with
  | CheckFirst => 7 + serialised_size (sv_object s)
  | Serialise => 6 + serialised_size (sv_object s)
  | CheckAgain data => 5 + length data
  | CreateTemp data => 4 + length data
  | WriteTemp _ rest => 3 + length rest
  | Persist _ => 2
  | Clash _ => 1
  | Saved _ => 0
  end.

Definition spill_cost (st : Spill) : nat := sum_list_with save_cost (sp_savers st).

Lemma save_step_cost p o fs ts at_ fs' ts' at' :
  save_step p o fs ts at_ fs' ts' at' -> (save_cost (mkSaver p o at') < save_cost (mkSaver p o at_))%nat.
Proof.
  intros Hs. unfold save_cost, serialised_size. destruct Hs; cbn; try (destruct (exists_path _ _)); try destruct (rkyv_to_bytes o); cbn;
    rewrite ?length_drop; lia.
Qed.

Lemma spill_step_cost st st' : spill_step st st' -> (spill_cost st' < spill_cost st)%nat.
Proof.
  intros [before p o at_ after fs ts fs' ts' at' Hs%save_step_cost]. unfold spill_cost. cbn [sp_savers].
  rewrite !sum_list_with_app. cbn. lia.
Qed.

Lemma spill_init_cost fs0 jobs : spill_cost (spill_init fs0 jobs) = sum_list_with (fun j => 7 + serialised_size j.2)%nat jobs.
Proof. unfold spill_cost. cbn [sp_savers spill_init]. induction jobs as [|[p o] jobs IH]; [done|]. cbn [map sum_list_with]. by rewrite IH. Qed.

(** A thread that is not done can take a step. *)
Lemma saver_progress fs ts s : saver_ok fs ts s -> (forall r, sv_at s <> Saved r) ->
  exists fs' ts' at', save_step (sv_path s) (sv_object s) fs ts (sv_at s) fs' ts' at'.
Proof.
  intros Hok Hr. unfold saver_ok in Hok. destruct (sv_at s) as [| |d|d|n rest|n|e|r].
  - do 3 eexists. apply check_first.
  - do 3 eexists. apply serialise.
  - do 3 eexists. apply check_again.
  - do 3 eexists. apply (create_fails _ _ _ _ _ (other_error [])).
  - do 3 eexists. apply (write_fails _ _ _ _ _ _ (other_error [])).
  - do 3 eexists. apply (persist_fails _ _ _ _ _ (other_error [])). done.
  - do 3 eexists. apply clash.
  - by destruct (Hr r).
Qed.

(** What each thread saves does not change. *)
Lemma spill_step_jobs st st' : spill_step st st' ->
  map (fun s => (sv_path s, sv_object s)) (sp_savers st') = map (fun s => (sv_path s, sv_object s)) (sp_savers st).
Proof. intros [before p o at_ after fs ts fs' ts' at' _]. cbn [sp_savers]. by rewrite !map_app. Qed.

Lemma spill_steps_inv fs0 jobs k st : nsteps spill_step k (spill_init fs0 jobs) st ->
  spill_inv fs0 st /\ map (fun s => (sv_path s, sv_object s)) (sp_savers st) = jobs
  /\ (k + spill_cost st <= spill_cost (spill_init fs0 jobs))%nat.
Proof.
  intros Hn. remember (spill_init fs0 jobs) as st0 eqn:E.
  assert (H0 : spill_inv fs0 st0 /\ map (fun s => (sv_path s, sv_object s)) (sp_savers st0) = jobs).
  { subst. split; [apply spill_init_inv|]. cbn. rewrite map_map. rewrite <- (map_id jobs) at 2. apply map_ext. by intros [p o]. }
  clear E. destruct H0 as [Hi Hj]. induction Hn as [st0|k st0 st1 st2 Hs _ IH]; [split_and!; [done|done|lia]|].
  destruct IH as (Hi' & Hj' & Hc).
  - by apply (spill_step_inv fs0 _ _ Hs).
  - by rewrite (spill_step_jobs _ _ Hs).
  - split_and!; [done|done|]. apply spill_step_cost in Hs. lia.
Qed.

Lemma spill_files_grow fs0 st st' : rtc spill_step st st' -> spill_inv fs0 st -> sp_files st ⊆ sp_files st'.
Proof.
  induction 1 as [st|st st1 st2 Hs _ IH]; intros Hi; [done|]. destruct (spill_step_inv fs0 _ _ Hs Hi) as [Hi1 Hsub]. trans (sp_files st1); auto.
Qed.
End spill.

(** C31: spilling is atomic and never replaces a file.  However the threads interleave and whichever
    calls of the file system fail: the run is bounded; files that were there stay; a file that
    appears loads as an object some thread was asked to save there, whole, and is never changed
    again; a thread that reports success has a file; and when no thread can go on, all have ended. *)
Theorem spill_files_whole {T} `{Rkyv T} (fs0 : gmap path bytes) (jobs : list (path * T)) (k : nat) (st : Spill) :
  (forall o data, rkyv_to_bytes o = Ok data -> rkyv_from_bytes data = Ok o) ->
  nsteps spill_step k (spill_init fs0 jobs) st ->
  (k <= sum_list_with (fun j => 7 + serialised_size j.2) jobs)%nat
  /\ fs0 ⊆ sp_files st
  /\ (forall p not_found, fs0 !! p = None -> is_Some (sp_files st !! p) ->
        exists o, (p, o) ∈ jobs /\ load_file (sp_files st) not_found p = Ok o)
  /\ (forall st', rtc spill_step st st' -> sp_files st ⊆ sp_files st')
  /\ (forall s, s ∈ sp_savers st -> sv_at s = Saved (Ok tt) -> is_Some (sp_files st !! sv_path s))
  /\ ((forall st', ~ spill_step st st') -> forall s, s ∈ sp_savers st -> exists r, sv_at s = Saved r).
Proof.
  intros Hlaw Hn. destruct (spill_steps_inv fs0 jobs k st Hn) as (Hi & Hj & Hc). split_and!.
  - rewrite <- (spill_init_cost fs0). lia.
  - apply (si_kept _ _ Hi).
  - intros p nf Hp [data Hd]. destruct (si_files _ _ Hi p data Hd) as [|(s & Hs & Hsp & Hb)]; [congruence|].
    exists (sv_object s). split.
    + rewrite <- Hj. apply list_elem_of_fmap. exists s. by rewrite <- Hsp.
    + unfold load_file. rewrite Hd. cbn. by rewrite (Hlaw _ _ Hb).
  - intros st' Hr. by eapply spill_files_grow.
  - intros s Hs Ha. pose proof (si_savers _ _ Hi) as Hok. rewrite Forall_forall in Hok. specialize (Hok s Hs). unfold saver_ok in Hok. by rewrite Ha in Hok.
  - intros Hstuck s Hs. destruct (sv_at s) as [| | | | | | |r] eqn:Ea; try (by exists r); exfalso.
    all: pose proof (si_savers _ _ Hi) as Hok; rewrite Forall_forall in Hok; destruct (saver_progress _ _ s (Hok s Hs)) as (fs' & ts' & at' & Hst);
      [by rewrite Ea|]; apply list_elem_of_split in Hs as (before & after & Hs); destruct st as [fs ts savers], s as [p o a]; cbn in *; subst;
      eapply Hstuck; by constructor.
Qed.

(** Two threads save different objects under one name; the first is done before the second looks. *)
#[local] Instance plain_rkyv : Rkyv bytes := {| rkyv_to_bytes := fun b => Ok b; rkyv_from_bytes := fun b => Ok b |}.

Definition spill_jobs : list (path * bytes) := [([str "a"], [7; 8]); ([str "a"], [9])].

Definition spilled : Spill := Eval vm_compute in
  mkSpill {[ [str "a"] := [7; 8] ]} ∅ [mkSaver [str "a"] [7; 8] (Saved (Ok tt)); mkSaver [str "a"] [9] CheckFirst].

Lemma spill_files_whole_witness :
  (8 <= 17)%nat /\ ∅ ⊆ sp_files spilled
  /\ (forall p not_found, (∅ : gmap path bytes) !! p = None -> is_Some (sp_files spilled !! p) ->
        exists o, (p, o) ∈ spill_jobs /\ load_file (sp_files spilled) not_found p = Ok o)
  /\ (forall st', rtc spill_step spilled st' -> sp_files spilled ⊆ sp_files st')
  /\ (forall s, s ∈ sp_savers spilled -> sv_at s = Saved (Ok tt) -> is_Some (sp_files spilled !! sv_path s))
  /\ ((forall st', ~ spill_step spilled st') -> forall s, s ∈ sp_savers spilled -> exists r, sv_at s = Saved r).
Proof.
  apply (@spill_files_whole bytes plain_rkyv ∅ spill_jobs 8 spilled).
  - intros o data [= ->]. reflexivity.
  - eapply nsteps_l; [apply (saver_steps [] [str "a"] [7; 8] CheckFirst), check_first|].
    eapply nsteps_l; [apply (saver_steps [] [str "a"] [7; 8] Serialise), serialise|].
    eapply nsteps_l; [apply (saver_steps [] [str "a"] [7; 8] (CheckAgain [7; 8])), check_again|].
    eapply nsteps_l; [apply (saver_steps [] [str "a"] [7; 8] (CreateTemp [7; 8])), (create_temp _ _ _ _ _ 0%nat); reflexivity|].
    eapply nsteps_l; [apply (saver_steps [] [str "a"] [7; 8] (WriteTemp 0 [7; 8])), (write_some _ _ _ _ _ _ [] 1); [cbn; lia|reflexivity]|].
    eapply nsteps_l; [apply (saver_steps [] [str "a"] [7; 8] (WriteTemp 0 [8])), (write_some _ _ _ _ _ _ [7] 1); [cbn; lia|reflexivity]|].
    eapply nsteps_l; [apply (saver_steps [] [str "a"] [7; 8] (WriteTemp 0 [])), write_done|].
    eapply nsteps_l; [apply (saver_steps [] [str "a"] [7; 8] (Persist 0)), (persist_new _ _ _ _ _ [7; 8]); reflexivity|].
    apply nsteps_O.
Defined.
