(* ===== verification/MemRecorder.v ===== *)
(** The memory counter of the pack decoder, [MemSizeRecorder], [HeapSize], [Clone] and [Drop] of
    [CacheObject] in [src/internal/pack/cache_object.rs]: every object that carries the recorder has
    added its size to a shared counter, and takes it off when it goes.

    The counter is an [AtomicUsize], which wraps.  The heap size of a [Vec] is its capacity, which
    the allocator chooses; lru_mem adds the size of the value itself, a constant. *)

From Stdlib Require Import ZArith Lia String.
From stdpp Require Import base tactics list numbers option gmap.
From S2P Require Import Prelude Stream Text Errors ObjectTypes PackUtils Hash PackIndex PackDecode.

Section recorder.
Context `{Build} (value_size : Z).

(** An object, the capacity of its data, and whether it has the recorder. *)
Record Tracked : Type := mkTracked { tr_object : CacheObject; tr_capacity : Z; tr_recorder : bool }.

Definition heap_size (o : Tracked) : Res Empty_set Z :=
  match info (tr_object o) with
  | BaseObject _ _ => Ok (tr_capacity o)
  | OffsetDelta _ delta_final_size | OffsetZstdelta _ delta_final_size | HashDelta _ delta_final_size =>
      add_u64 (tr_capacity o) delta_final_size
  end.

(** [lru_mem::MemSize::mem_size]. *)
Definition mem_size (o : Tracked) : Res Empty_set Z := let! heap := heap_size o in add_u64 value_size heap.

Definition fetch_add (counter n : Z) : Z := as_u64 (counter + n).
Definition fetch_sub (counter n : Z) : Z := as_u64 (counter - n).

Definition record_mem_size (o : Tracked) (counter : Z) : Res Empty_set Z :=
  if tr_recorder o then let! m := mem_size o in Ok (fetch_add counter m) else Ok counter.

Definition set_mem_recorder (o : Tracked) : Tracked := mkTracked (tr_object o) (tr_capacity o) true.

(** The copy of the data has a capacity of its own. *)
Definition clone (capacity : Z) (o : Tracked) (counter : Z) : Res Empty_set (Tracked * Z) :=
  let obj := mkTracked (tr_object o) capacity (tr_recorder o) in
  let! counter := record_mem_size obj counter in
  Ok (obj, counter).

Definition drop_object (o : Tracked) (counter : Z) : Res Empty_set Z :=
  if tr_recorder o then let! m := mem_size o in Ok (fetch_sub counter m) else Ok counter.

(** The recorder is taken out, so that the drop at the end does nothing. *)
Definition into_entry_metadata (o : Tracked) (counter : Z) : Res Empty_set (MetaAttached Entry EntryMeta * Z) :=
  let! recorded_size := mem_size o in
  let counter := if tr_recorder o then fetch_sub counter recorded_size else counter in
  let! entry := to_entry_metadata (tr_object o) in
  Ok (entry, counter).

(** * The life of objects *)

(** The counter and the objects that are alive, in no particular order of creation. *)
Record Memory : Type := mkMemory { cache_objs_mem : Z; alive : list Tracked }.

(** Objects are made without the recorder, in the decoder or from a file; the decoder gives an object
    the recorder and records it at once; objects are cloned, turned into entries and dropped. *)
Inductive mem_step : Memory -> Memory -> Prop :=
| mem_make c l o capacity : mem_step (mkMemory c l) (mkMemory c (mkTracked o capacity false :: l))
| mem_track c before o after c' :
    tr_recorder o = false -> record_mem_size (set_mem_recorder o) c = Ok c' ->
    mem_step (mkMemory c (before ++ o :: after)) (mkMemory c' (before ++ set_mem_recorder o :: after))
| mem_load c before o after c' :
    record_mem_size o c = Ok c' -> tr_recorder o = false ->
    mem_step (mkMemory c (before ++ o :: after)) (mkMemory c' (before ++ o :: after))
| mem_clone c before o after capacity o' c' :
    clone capacity o c = Ok (o', c') ->
    mem_step (mkMemory c (before ++ o :: after)) (mkMemory c' (o' :: before ++ o :: after))
| mem_drop c before o after c' :
    drop_object o c = Ok c' -> mem_step (mkMemory c (before ++ o :: after)) (mkMemory c' (before ++ after))
| mem_deliver c before o after entry c' :
    into_entry_metadata o c = Ok (entry, c') ->
    mem_step (mkMemory c (before ++ o :: after)) (mkMemory c' (before ++ after)).

(** * The invariant *)

(** The size an object has recorded. *)
Definition recorded (o : Tracked) : Z :=
  if tr_recorder o then match mem_size o with Ok m => m | _ => 0 end else 0.

Fixpoint recorded_total (l : list Tracked) : Z :=
  match l with [] => 0 | o :: l => recorded o + recorded_total l end.

Lemma recorded_total_app l l' : recorded_total (l ++ l') = recorded_total l + recorded_total l'.
Proof. induction l as [|o l IH]; cbn [app recorded_total]; [done|]. rewrite IH. lia. Qed.

Lemma as_u64_add_l a b : as_u64 (as_u64 a + b) = as_u64 (a + b).
Proof. unfold as_u64. by rewrite Zplus_mod_idemp_l. Qed.

Lemma as_u64_sub_l a b : as_u64 (as_u64 a - b) = as_u64 (a - b).
Proof. unfold as_u64. by rewrite Zminus_mod_idemp_l. Qed.

(** The counter is the sum of what the objects that are alive have recorded. *)
Definition mem_inv (m : Memory) : Prop := cache_objs_mem m = as_u64 (recorded_total (alive m)).

Lemma record_ok o c c' : record_mem_size o c = Ok c' -> c = as_u64 c -> c' = as_u64 (c + recorded o).
Proof.
  unfold record_mem_size, recorded. destruct (tr_recorder o); [|intros [= ->] Hc; by rewrite Z.add_0_r].
  destruct (mem_size o); cbn; intros [= <-] _. done.
Qed.

Lemma drop_ok o c c' : drop_object o c = Ok c' -> c = as_u64 c -> c' = as_u64 (c - recorded o).
Proof.
  unfold drop_object, recorded. destruct (tr_recorder o); [|intros [= ->] Hc; by rewrite Z.sub_0_r].
  destruct (mem_size o); cbn; intros [= <-] _. done.
Qed.

Lemma deliver_ok o c entry c' : into_entry_metadata o c = Ok (entry, c') -> c = as_u64 c -> c' = as_u64 (c - recorded o).
Proof.
  unfold into_entry_metadata, recorded. destruct (mem_size o) as [m| | |]; cbn; try discriminate.
  destruct (to_entry_metadata _); cbn; try discriminate. destruct (tr_recorder o); intros [= _ <-] Hc; [done|by rewrite Z.sub_0_r].
Qed.

Lemma mem_step_inv m m' : mem_step m m' -> mem_inv m -> mem_inv m'.
Proof.
  unfold mem_inv. intros Hs Hc. assert (Hw : cache_objs_mem m = as_u64 (cache_objs_mem m)).
  { rewrite Hc at 1. rewrite Hc. unfold as_u64. by rewrite Zmod_mod. }
  destruct Hs as [c l o cap|c before o after c' Hr Hrec|c before o after c' Hrec Hr|c before o after cap o' c' Hcl|c before o after c' Hd|c before o after entry c' Hd];
    cbn [cache_objs_mem alive] in *; rewrite ?recorded_total_app in *; cbn [recorded_total] in *.
  - unfold recorded at 1. cbn [tr_recorder]. by rewrite Z.add_0_l.
  - apply record_ok in Hrec as ->; [|done]. rewrite Hc, as_u64_add_l. f_equal. assert (E : recorded o = 0) by (unfold recorded; by rewrite Hr). lia.
  - apply record_ok in Hrec as ->; [|done]. rewrite Hc, as_u64_add_l. f_equal. assert (E : recorded o = 0) by (unfold recorded; by rewrite Hr). lia.
  - unfold clone in Hcl. destruct (record_mem_size _ c) as [c1| | |] eqn:Er; cbn in Hcl; try discriminate. injection Hcl as <- <-.
    apply record_ok in Er as ->; [|done]. rewrite Hc, as_u64_add_l. f_equal. rewrite recorded_total_app. cbn [recorded_total]. lia.
  - apply drop_ok in Hd as ->; [|done]. rewrite Hc, as_u64_sub_l. f_equal. lia.
  - apply deliver_ok in Hd as ->; [|done]. rewrite Hc, as_u64_sub_l. f_equal. lia.
Qed.

(** C32: the memory counter is exact: after every sequence of making, tracking, loading, cloning,
    delivering and dropping objects, it is the sum of the sizes that the objects still alive have
    recorded, modulo the width of the counter; so it is zero once no tracked object is alive,
    as the decoder asserts at its end. *)
Theorem mem_counter_exact (m : Memory) :
  rtc mem_step (mkMemory 0 []) m ->
  cache_objs_mem m = as_u64 (recorded_total (alive m))
  /\ (Forall (fun o => tr_recorder o = false) (alive m) -> cache_objs_mem m = 0).
Proof.
  intros Hr. assert (Hi : mem_inv m).
  { remember (mkMemory 0 []) as m0 eqn:E. assert (H0 : mem_inv m0) by (by subst). clear E.
    induction Hr as [m|m1 m2 m3 Hs _ IH]; [done|]. apply IH. by eapply mem_step_inv. }
  split; [exact Hi|]. intros Hn. rewrite Hi. replace (recorded_total (alive m)) with 0; [done|].
  clear -Hn. induction Hn as [|o l Ho _ IH]; [done|]. cbn [recorded_total]. rewrite <- IH. unfold recorded. by rewrite Ho.
Qed.

End recorder.

(** ** A concrete life *)

Definition toy_blob : CacheObject :=
  mkCacheObject (BaseObject ObjectType.Blob (ObjectHash.Sha1 (repeat 0 20))) 12 0 [1; 2; 3] false None.

Lemma mem_counter_exact_witness :
  let m := mkMemory 0 [mkTracked toy_blob 8 false] in
  cache_objs_mem m = as_u64 (@recorded_total true 100 (alive m))
  /\ (Forall (fun o => tr_recorder o = false) (alive m) -> cache_objs_mem m = 0).
Proof.
  apply (@mem_counter_exact true 100 (mkMemory 0 [mkTracked toy_blob 8 false])).
  eapply rtc_l; [apply (mem_make 100 0 [] toy_blob 8)|].
  eapply rtc_l; [apply (mem_track 100 0 [] (mkTracked toy_blob 8 false) [] 108); reflexivity|].
  eapply rtc_l; [apply (mem_make 100 108 [mkTracked toy_blob 8 true] toy_blob 8)|].
  eapply rtc_l; [eapply (mem_deliver 100 108 [mkTracked toy_blob 8 false] (mkTracked toy_blob 8 true) [] _ 0); reflexivity|].
  apply rtc_refl.
Defined.

(** A delta may declare any size for its result: recording an object that declares 2^64 - 1 bytes
    overflows, which is a panic in a build that checks for it. *)
Lemma declared_size_overflows :
  let payload := [3; 255; 255; 255; 255; 255; 255; 255; 255; 255; 1] in
  exists base_size final_size rest,
    @read_delta_object_size true payload = Ok ((base_size, final_size), rest) /\ final_size = 2 ^ 64 - 1
    /\ let o := mkTracked (mkCacheObject (OffsetDelta 12 final_size) 40 0 payload true None) 11 false in
       @record_mem_size true 100 (set_mem_recorder o) 0 = Panic.
Proof. do 3 eexists. split; [vm_compute; reflexivity|]. vm_compute. split; reflexivity. Qed.
