(* ===== verification/Zstdelta.v ===== *)
(** Deltas made with zstd, [src/zstdelta/mod.rs]: the parameters chosen for a pair of buffers, and the
    error paths of [diff] and [apply] around the calls of the zstd library.

    The library is the parameter [Zstd], with its constants; [ZstdLaws] is what zstd documents: a
    frame compressed with parameters in range and with its content size decompresses, with the
    same dictionary, in a context that allows its window. *)

From Stdlib Require Import ZArith Lia String.
From stdpp Require Import base tactics list numbers option gmap.
From S2P Require Import Prelude Stream Text.

(** [ZSTD_compressionParameters] with the "fast" strategy, and [ZSTD_frameParameters]. *)
Record CParams : Type := mkCParams {
  windowLog : Z;
  chainLog : Z;
  hashLog : Z;
  searchLog : Z;
  minMatch : Z;
  targetLength : Z
}.

Record FParams : Type := mkFParams { contentSizeFlag : bool; checksumFlag : bool; noDictIDFlag : bool }.

Class Zstd := {
  ZSTD_WINDOWLOG_MIN : Z;
  ZSTD_HASHLOG_MIN : Z;
  ZSTD_CHAINLOG_MIN : Z;
  ZSTD_SEARCHLOG_MIN : Z;
  ZSTD_CONTENTSIZE_ERROR : Z;
  ZSTD_CONTENTSIZE_UNKNOWN : Z;
  (** Whether a context can be created. *)
  createCCtx : bool;
  createDCtx : bool;
  compressBound : Z -> Z;
  (** Capacity, data, dictionary: the frame, or an error code. *)
  compress_advanced : CParams -> FParams -> Z -> bytes -> bytes -> Res Z bytes;
  findDecompressedSize : bytes -> Z;
  (** Largest window, capacity, frame, dictionary. *)
  decompress_usingDict : Z -> Z -> bytes -> bytes -> Res Z bytes;
  getErrorName : Z -> bytes
}.

Definition ZSTD_WINDOWLOG_MAX : Z := 30.
Definition ZSTD_HASHLOG_MAX : Z := 30.

Definition leading_zeros (x : Z) : Z := if x =? 0 then 64 else 63 - Z.log2 x.

Definition log_base2 (x : Z) : Z := 64 - leading_zeros x.

Definition clamp (v min max : Z) : Z := Z.max min (Z.min v max).

Section zstdelta.
Context `{Zstd}.

Definition explain_error (code : Z) : bytes := getErrorName code.

Definition diff_params (base data : bytes) : CParams :=
  let log := log_base2 (blen data + blen base + 1) in
  let wlog := clamp log ZSTD_WINDOWLOG_MIN ZSTD_WINDOWLOG_MAX in
  let hlog := clamp log ZSTD_HASHLOG_MIN ZSTD_HASHLOG_MAX in
  mkCParams wlog ZSTD_CHAINLOG_MIN hlog ZSTD_SEARCHLOG_MIN 7 0.

Definition frame_params : FParams := mkFParams true false true.

(** An error of [io::Error::other] is given by its text. *)
Definition diff (base data : bytes) : Res bytes bytes :=
  if negb createCCtx then Err (str "cannot create CCtx")
  else
    let max_outsize := compressBound (blen data) in
    map_err (fun code => str "cannot compress (" ++ explain_error code ++ str ")")
      (compress_advanced (diff_params base data) frame_params max_outsize data base).

Definition apply (base delta : bytes) : Res bytes bytes :=
  if negb createDCtx then Err (str "cannot create DCtx")
  else
    let size := findDecompressedSize delta in
    if (size =? ZSTD_CONTENTSIZE_ERROR) || (size =? ZSTD_CONTENTSIZE_UNKNOWN) then Err (str "cannot get decompress size")
    else
      let! buf := map_err (fun code => str "cannot decompress (" ++ explain_error code ++ str ")")
                    (decompress_usingDict (Z.shiftl 1 ZSTD_WINDOWLOG_MAX) size delta base) in
      if negb (blen buf =? size)
      then Err (str "decompress size mismatch (expected " ++ show_dec size ++ str ", got " ++ show_dec (blen buf) ++ str ")")
      else Ok buf.

(** * What the calls rely on *)

Definition valid_params (p : CParams) : Prop :=
  ZSTD_WINDOWLOG_MIN <= windowLog p <= ZSTD_WINDOWLOG_MAX /\ ZSTD_HASHLOG_MIN <= hashLog p <= ZSTD_HASHLOG_MAX
  /\ chainLog p = ZSTD_CHAINLOG_MIN /\ searchLog p = ZSTD_SEARCHLOG_MIN /\ 3 <= minMatch p <= 7 /\ 0 <= targetLength p.

Class ZstdLaws : Prop := {
  zstd_limits : 0 <= ZSTD_WINDOWLOG_MIN <= 30 /\ 0 <= ZSTD_HASHLOG_MIN <= 30;
  zstd_sizes : 2 ^ 63 <= ZSTD_CONTENTSIZE_ERROR /\ 2 ^ 63 <= ZSTD_CONTENTSIZE_UNKNOWN;
  content_size : forall p fp cap data dict frame, valid_params p -> contentSizeFlag fp = true ->
    compress_advanced p fp cap data dict = Ok frame -> findDecompressedSize frame = blen data;
  frame_reads : forall p fp cap data dict frame max, valid_params p -> compress_advanced p fp cap data dict = Ok frame ->
    2 ^ windowLog p <= max -> decompress_usingDict max (blen data) frame dict = Ok data
}.

(** * Proofs *)

Context `{!ZstdLaws}.

Lemma log_base2_spec x : 0 <= x -> x < 2 ^ log_base2 x /\ (0 < x -> 2 ^ (log_base2 x - 1) <= x).
Proof.
  intros Hx. unfold log_base2, leading_zeros. destruct (x =? 0) eqn:E; [apply Z.eqb_eq in E; subst; cbn; lia|].
  apply Z.eqb_neq in E. assert (Hp : 0 < x) by lia. destruct (Z.log2_spec x Hp) as [Hl Hu].
  replace (64 - (63 - Z.log2 x)) with (Z.succ (Z.log2 x)) by lia. split; [done|]. intros _. by replace (Z.succ (Z.log2 x) - 1) with (Z.log2 x) by lia.
Qed.

(** The parameters are valid for all buffers, and for buffers below 1 GiB together the window spans
    both of them. *)
Lemma diff_params_valid base data :
  valid_params (diff_params base data)
  /\ (blen data + blen base + 1 < 2 ^ 30 -> blen data + blen base < 2 ^ windowLog (diff_params base data)).
Proof.
  destruct zstd_limits as [Hw Hh]. unfold valid_params, diff_params, clamp, ZSTD_WINDOWLOG_MAX, ZSTD_HASHLOG_MAX. cbn. split; [lia|].
  intros Hs. pose proof (blen_nonneg data). pose proof (blen_nonneg base).
  destruct (log_base2_spec (blen data + blen base + 1)) as [Hlt Hle]; [lia|]. specialize (Hle ltac:(lia)).
  assert (log_base2 (blen data + blen base + 1) <= 30).
  { destruct (Z.le_gt_cases (log_base2 (blen data + blen base + 1)) 30); [done|].
    assert (2 ^ 30 <= 2 ^ (log_base2 (blen data + blen base + 1) - 1)) by (apply Z.pow_le_mono_r; lia). lia. }
  rewrite Z.min_l by lia. eapply Z.lt_le_trans; [|apply Z.pow_le_mono_r; [lia|apply Z.le_max_r]]. lia.
Qed.

(** [apply] undoes [diff], for all buffers that a [Vec] can hold. *)
Lemma zstd_delta_roundtrip base data delta :
  createDCtx = true -> blen data < 2 ^ 63 -> diff base data = Ok delta -> apply base delta = Ok data.
Proof.
  intros Hd Hn. destruct (diff_params_valid base data) as [Hv _]. unfold diff, apply. rewrite Hd. destruct createCCtx; [|discriminate]. cbn [negb].
  destruct (compress_advanced _ _ _ _ _) as [frame| | |] eqn:Hframe; cbn [map_err]; try discriminate. intros [= <-].
  rewrite (content_size _ frame_params _ _ _ _ Hv eq_refl Hframe). destruct zstd_sizes as [He Hu].
  rewrite (proj2 (Z.eqb_neq _ _)), (proj2 (Z.eqb_neq _ _)) by lia. cbn [orb].
  rewrite (frame_reads _ _ _ _ _ _ _ Hv Hframe).
  - cbn [map_err rbind]. rewrite Z.eqb_refl. done.
  - rewrite Z.shiftl_1_l. destruct Hv as (Hw & _). apply Z.pow_le_mono_r; [lia|]. apply Hw.
Qed.

End zstdelta.

(** ** A library that stores *)

#[local] Instance storing_zstd : Zstd := {|
  ZSTD_WINDOWLOG_MIN := 10;
  ZSTD_HASHLOG_MIN := 6;
  ZSTD_CHAINLOG_MIN := 6;
  ZSTD_SEARCHLOG_MIN := 1;
  ZSTD_CONTENTSIZE_ERROR := 2 ^ 64 - 2;
  ZSTD_CONTENTSIZE_UNKNOWN := 2 ^ 64 - 1;
  createCCtx := true;
  createDCtx := true;
  compressBound := fun n => n + 1;
  compress_advanced := fun p _ _ data _ => Ok (windowLog p :: data);
  findDecompressedSize := fun frame => blen (tail frame);
  decompress_usingDict := fun max _ frame _ =>
    match frame with w :: data => if 2 ^ w <=? max then Ok data else Err 16 | [] => Err 20 end;
  getErrorName := fun _ => str "error"
|}.

Lemma storing_zstd_laws : ZstdLaws.
Proof.
  split; cbn; try lia.
  - intros p fp cap data dict frame _ _ [= <-]. done.
  - intros p fp cap data dict frame max _ [= <-] Hw. by rewrite (proj2 (Z.leb_le _ _) Hw).
Qed.

Lemma zstd_delta_roundtrip_witness :
  exists delta, diff [1; 2; 3] [1; 2; 4] = Ok delta /\ apply [1; 2; 3] delta = Ok [1; 2; 4].
Proof.
  eexists. split; [reflexivity|]. apply (@zstd_delta_roundtrip storing_zstd storing_zstd_laws); reflexivity.
Defined.
