(* ===== verification/Pipeline.v ===== *)
(** The concurrent decoding of a pack, [decode_inner] of [src/internal/pack/decode.rs]
    with [waitlist.rs]: the reading thread decodes the entries one after the other and
    hands them to a pool; a delta whose base is not there yet waits for it in the
    waitlist, and whoever stores the base takes the waiting deltas out.

    The code of each thread is a [prog]: a tree of accesses to the shared state, each
    of them atomic (an operation of a concurrent map, of the cache, of the error slot
    or of the pool).  A state of the machine holds the program of the reading thread,
    the queued tasks, the programs of the running workers and the shared state; a step
    is one access of one thread, so that the runs are the interleavings.

    A lookup or an insertion of the cache is one access.  Any queued task may start,
    and any number may run: the pool's order and size only restrict the runs.  The
    waiting loop on the memory limit is added in [BackPressure], the memory counter is in
    [MemRecorder]; logging is left out. *)

From Stdlib Require Import ZArith Lia String.
From stdpp Require Import base tactics list numbers option gmap.
From S2P Require Import Prelude Text Errors ObjectTypes DeltaUtils DeltaFormat DeltaDecode PackUtils Hash PackIndex PackDecode Caches.

(** * The waitlist *)

Record Waitlist : Type := mkWaitlist {
  wl_offset : gmap Z (list CacheObject);
  wl_ref : gmap ObjectHash.t (list CacheObject)
}.

Definition Waitlist_new : Waitlist := mkWaitlist ∅ ∅.

(** [entry(k).or_default().push(obj)]. *)
Definition push_waiting `{Countable K} (m : gmap K (list CacheObject)) (k : K) (obj : CacheObject) : gmap K (list CacheObject) :=
  <[k := default [] (m !! k) ++ [obj]]> m.

Definition insert_offset (w : Waitlist) (offset : Z) (obj : CacheObject) : Waitlist :=
  mkWaitlist (push_waiting (wl_offset w) offset obj) (wl_ref w).

Definition insert_ref (w : Waitlist) (hash : ObjectHash.t) (obj : CacheObject) : Waitlist :=
  mkWaitlist (wl_offset w) (push_waiting (wl_ref w) hash obj).

(** The two halves of [take]. *)
Definition take_offset (w : Waitlist) (offset : Z) : list CacheObject * Waitlist :=
  (default [] (wl_offset w !! offset), mkWaitlist (delete offset (wl_offset w)) (wl_ref w)).

Definition take_ref (w : Waitlist) (hash : ObjectHash.t) : list CacheObject * Waitlist :=
  (default [] (wl_ref w !! hash), mkWaitlist (wl_offset w) (delete hash (wl_ref w))).

(** * Programs *)

(** The closures given to the pool: of [decode_inner] and of [process_delta]. *)
Inductive Task : Type :=
| TDecoded (obj : CacheObject)
| TRebuild (delta_obj base_obj : CacheObject).

Inductive prog : Type :=
| Done
| Panicked
| Return (r : Res GitError unit)
| GetByOffset (offset : Z) (k : option CacheObject -> prog)
| GetByHash (hash : ObjectHash.t) (k : option CacheObject -> prog)
| CacheInsert (offset : Z) (hash : ObjectHash.t) (obj : CacheObject) (k : prog)
| RemoveUnbounded (offset : Z) (hash : ObjectHash.t) (k : prog)
| InsertOffset (offset : Z) (obj : CacheObject) (k : prog)
| InsertRef (hash : ObjectHash.t) (obj : CacheObject) (k : prog)
| TakeOffset (offset : Z) (k : list CacheObject -> prog)
| TakeRef (hash : ObjectHash.t) (k : list CacheObject -> prog)
| WaitsOffset (offset : Z) (k : bool -> prog)
| WaitsRef (hash : ObjectHash.t) (k : bool -> prog)
| ConsumeOffset (offset : Z) (k : prog)
| ConsumeHash (hash : ObjectHash.t) (k : prog)
| RetainsOffset (offset : Z) (k : bool -> prog)
| RetainsHash (hash : ObjectHash.t) (k : bool -> prog)
| ReadRetention (k : DecodeRetention -> prog)
| Callback (entry : MetaAttached Entry EntryMeta) (k : prog)
| PackIdCallback (id : ObjectHash.t) (k : prog)
| SetError (e : GitError) (k : prog)
| TakeError (k : option GitError -> prog)
| Execute (t : Task) (k : prog)
| Join (k : prog)
| Pending (k : Waitlist -> prog)
| TotalInserted (k : Z -> prog)
| Shutdown (k : prog).

(** The constant part of [SharedParams]: whether there is a callback and a retention table,
    and the constant [low_memory_callback_entries]. *)
Record SharedParams : Type := mkParams {
  callback : bool;
  retention : bool;
  skip_unneeded_objects : bool;
  low_memory : bool
}.

Record DecodeOptions : Type := mkOptions {
  known_hashes : option (list ObjectHash.t);
  known_crcs : option (list Z);
  known_offsets : option (list Z);
  expected_pack_hash : option ObjectHash.t;
  verify_pack_stream_hash : bool;
  sync_base_callbacks : bool
}.

(** [DecodeOptions::streaming]; its retention mode is [none]. *)
Definition streaming : DecodeOptions := mkOptions None None None None true false.

(** The mutable part of [SharedParams] and of the pack, with the entries and identifiers the
    callbacks were called with. *)
Record Shared `{LruCache} : Type := mkShared {
  waitlist : Waitlist;
  caches : Caches;
  remaining : DecodeRetention;
  decode_error : option GitError;
  delivered : list (MetaAttached Entry EntryMeta);
  pack_ids : list ObjectHash.t
}.

Section code.
Context `{Build} `{TextEnv} `{HexCrate} `{Hasher} `{ZlibDecoder} `{Crc32} `{LruCache} `{Allocator}.
Context (delta_error_text : GitDeltaError -> bytes) (zstdelta_apply : bytes -> bytes -> Res bytes bytes).
Context (p : SharedParams).

(** ** Callback entries *)

Definition low_memory_entry (obj : CacheObject) : Res Empty_set (MetaAttached Entry EntryMeta) :=
  let! hash := or_panic (base_object_hash obj) in
  Ok (mkMetaAttached _ _ (mkEntry (object_type obj) [] hash 0)
        (mkEntryMeta None None (Some (co_offset obj)) (Some (co_crc32 obj)) (Some (is_delta_in_pack obj)))).

Definition callback_entry_ref (obj : CacheObject) : Res Empty_set (MetaAttached Entry EntryMeta) :=
  if negb (low_memory p) then to_entry_metadata obj else low_memory_entry obj.

(** [into_entry_metadata] moves the data where [to_entry_metadata] copies it. *)
Definition callback_entry_owned (obj : CacheObject) : Res Empty_set (MetaAttached Entry EntryMeta) :=
  if negb (low_memory p) then to_entry_metadata obj else low_memory_entry obj.

Definition call_back (entry : Res Empty_set (MetaAttached Entry EntryMeta)) (k : prog) : prog :=
  match entry with Ok e => Callback e k | _ => Panicked end.

(** ** Retention and the waitlist *)

(** [offset_remaining.contains_key(..) || hash_remaining.contains_key(..)]. *)
Definition should_retain_now (offset : Z) (hash : ObjectHash.t) (k : bool -> prog) : prog :=
  RetainsOffset offset (fun b => if b then k true else RetainsHash hash k).

Definition has_waiters (offset : Z) (hash : ObjectHash.t) (k : bool -> prog) : prog :=
  WaitsOffset offset (fun b => if b then k true else WaitsRef hash k).

Definition take_waiting (offset : Z) (hash : ObjectHash.t) (k : list CacheObject -> prog) : prog :=
  TakeOffset offset (fun a => TakeRef hash (fun b => k (a ++ b))).

Definition maybe_remove_released_base (base_obj : CacheObject) (k : prog) : prog :=
  if retention p then
    match base_object_hash base_obj with
    | Some hash => should_retain_now (co_offset base_obj) hash
                     (fun keep => if keep then k else RemoveUnbounded (co_offset base_obj) hash k)
    | None => k
    end
  else k.

Definition release_offset_dependency (base_offset : Z) (base_obj : CacheObject) (k : prog) : prog :=
  if retention p then ConsumeOffset base_offset (maybe_remove_released_base base_obj k) else k.

Definition release_hash_dependency (base_hash : ObjectHash.t) (base_obj : CacheObject) (k : prog) : prog :=
  if retention p then ConsumeHash base_hash (maybe_remove_released_base base_obj k) else k.

(** ** Deltas and their bases *)

Definition process_delta (delta_obj base_obj : CacheObject) (k : prog) : prog := Execute (TRebuild delta_obj base_obj) k.

Definition process_waitlist_objects (wait_objs : list CacheObject) (base_obj : CacheObject) (k : prog) : prog :=
  foldr (fun obj k => process_delta obj base_obj k) k wait_objs.

Definition process_waitlist (base_obj : CacheObject) (k : prog) : prog :=
  match base_object_hash base_obj with
  | Some hash => take_waiting (co_offset base_obj) hash (fun wait_objs => process_waitlist_objects wait_objs base_obj k)
  | None => Panicked
  end.

Definition process_delta_dependency (obj : CacheObject) (k : prog) : prog :=
  match info obj with
  | OffsetDelta base_offset _ | OffsetZstdelta base_offset _ =>
      GetByOffset base_offset (fun r =>
        match r with
        | Some base_obj => release_offset_dependency base_offset base_obj (process_delta obj base_obj k)
        | None =>
            InsertOffset base_offset obj
              (let recheck := GetByOffset base_offset (fun r =>
                 match r with
                 | Some base_obj => maybe_remove_released_base base_obj (process_waitlist base_obj k)
                 | None => k
                 end) in
               if retention p then ConsumeOffset base_offset recheck else recheck)
        end)
  | HashDelta base_ref _ =>
      GetByHash base_ref (fun r =>
        match r with
        | Some base_obj => release_hash_dependency base_ref base_obj (process_delta obj base_obj k)
        | None =>
            InsertRef base_ref obj
              (let recheck := GetByHash base_ref (fun r =>
                 match r with
                 | Some base_obj => maybe_remove_released_base base_obj (process_waitlist base_obj k)
                 | None => k
                 end) in
               if retention p then ConsumeHash base_ref recheck else recheck)
        end)
  | BaseObject _ _ => Panicked
  end.

Definition call_back_if (entry : Res Empty_set (MetaAttached Entry EntryMeta)) (k : prog) : prog :=
  if callback p then call_back entry k else k.

Definition cache_obj_and_process_waitlist (new_obj : CacheObject) (k : prog) : prog :=
  if retention p then
    match base_object_hash new_obj with
    | None => Panicked
    | Some hash =>
        let offset := co_offset new_obj in
        should_retain_now offset hash (fun keep =>
          if keep then
            call_back_if (callback_entry_ref new_obj)
              (CacheInsert offset hash new_obj
                 (take_waiting offset hash (fun wait_objs => process_waitlist_objects wait_objs new_obj k)))
          else
            take_waiting offset hash (fun wait_objs =>
              match wait_objs with
              | _ :: _ =>
                  call_back_if (callback_entry_ref new_obj) (process_waitlist_objects wait_objs new_obj k)
              | [] => call_back_if (callback_entry_owned new_obj) k
              end))
    end
  else
    call_back_if (callback_entry_ref new_obj)
      (match base_object_hash new_obj with
       | None => Panicked
       | Some hash => CacheInsert (co_offset new_obj) hash new_obj (process_waitlist new_obj k)
       end).

(** ** The tasks of the pool *)

Definition task_prog (t : Task) : prog :=
  match t with
  | TDecoded obj =>
      match info obj with
      | BaseObject _ _ => cache_obj_and_process_waitlist obj Done
      | _ => process_delta_dependency obj Done
      end
  | TRebuild delta_obj base_obj =>
      match rebuild delta_error_text zstdelta_apply delta_obj base_obj with
      | Ok new_obj => cache_obj_and_process_waitlist new_obj Done
      | Err error => SetError error Done
      | Panic | OutOfFuel => Panicked
      end
  end.

(** ** The reading thread *)

Definition is_base (obj : CacheObject) : bool := match info obj with BaseObject _ _ => true | _ => false end.

Definition try_process_skipped_low_memory_callback_object (obj : CacheObject) (low_memory_callback_entries : bool)
  (k : option CacheObject -> prog) : prog :=
  if negb low_memory_callback_entries || negb (bool_decide (data_decompressed obj = [])) then k (Some obj)
  else if negb (callback p && retention p) then k (Some obj)
  else
    let kept (hash : ObjectHash.t) (no : prog) : prog :=
      should_retain_now (co_offset obj) hash (fun keep =>
        if keep then k (Some obj)
        else has_waiters (co_offset obj) hash (fun waits => if waits then k (Some obj) else no)) in
    match info obj with
    | BaseObject _ hash => kept hash (call_back (callback_entry_owned obj) (k None))
    | _ =>
        match known_hash obj with
        | None => k (Some obj)
        | Some hash => kept hash (process_delta_dependency obj (k None))
        end
    end.

Definition should_drop_no_callback_base (base_obj : CacheObject) (k : bool -> prog) : prog :=
  if callback p then k false
  else if negb (retention p) then k false
  else
    match base_object_hash base_obj with
    | None => k false
    | Some hash =>
        should_retain_now (co_offset base_obj) hash (fun keep =>
          if keep then k false else has_waiters (co_offset base_obj) hash (fun waits => k (negb waits)))
    end.

Definition abort_decode (e : GitError) : prog := Join (Shutdown (Return (Err e))).

Context (kind : HashKind.t) (options : DecodeOptions).

(** What the reading thread does with an entry. *)
Definition dispatch (obj : CacheObject) (continue : prog) : prog :=
  try_process_skipped_low_memory_callback_object obj (low_memory p) (fun r =>
    match r with
    | None => continue
    | Some obj =>
        let keep := if is_base obj && (negb (callback p) || sync_base_callbacks options)
                    then cache_obj_and_process_waitlist obj continue
                    else Execute (TDecoded obj) continue in
        if is_base obj then should_drop_no_callback_base obj (fun drop => if drop then continue else keep) else keep
    end).

Definition track_crc : bool := callback p || bool_decide (is_Some (known_crcs options)).

(** [while i < self.number]; [n] is what is left of it. *)
Fixpoint decode_objects (n : nat) (i : Z) (pack : bytes) (offset : Z) (k : bytes -> prog) : prog :=
  match n with
  | O => k pack
  | S n =>
      let known_hash := known_hashes options ≫= fun l => get l i in
      let known_crc := known_crcs options ≫= fun l => get l i in
      let decode_one :=
        ReadRetention (fun counts =>
          match decode_pack_object_with_crc kind pack offset track_crc (skip_unneeded_objects p)
                  (callback p && low_memory p) known_hash known_crc (if retention p then Some counts else None) with
          | Ok ((Some obj, offset), rest) => dispatch obj (decode_objects n (i + 1) rest offset k)
          | Ok ((None, offset), rest) => decode_objects n (i + 1) rest offset k
          | Err e => abort_decode e
          | Panic | OutOfFuel => Panicked
          end) in
      match known_offsets options ≫= fun l => get l i with
      | Some expected =>
          if negb (expected =? offset) then
            abort_decode (InvalidPackFile (str "Pack object " ++ show_dec i ++ str " starts at offset " ++ show_dec offset
              ++ str " but the pack index records offset " ++ show_dec expected))
          else decode_one
      | None => decode_one
      end
  end.

(** The trailer and the end of the stream, after the entries: [pack] is the whole stream. *)
Definition read_trailer (pack rest : bytes) : Res GitError ObjectHash.t :=
  let render_hash := ObjectHash_new_for_kind kind (slice pack 0 (blen pack - blen rest)) in
  let! '(signature, rest) :=
    map_err (fun e => InvalidPackFile (str "Error reading pack trailer hash: " ++ hash_error_text e)) (read_object_id kind rest) in
  let! _ :=
    match expected_pack_hash options with
    | Some expected =>
        if negb (bool_decide (expected = signature))
        then Err (InvalidPackFile (str "The pack index hash " ++ ObjectHash.fmt expected
                    ++ str " does not match the trailer hash " ++ ObjectHash.fmt signature))
        else Ok tt
    | None => Ok tt
    end in
  if verify_pack_stream_hash options && negb (bool_decide (render_hash = signature))
  then Err (InvalidPackFile (str "The pack file hash " ++ ObjectHash.fmt render_hash
              ++ str " does not match the trailer hash " ++ ObjectHash.fmt signature))
  else if negb (fst (is_eof rest)) then Err (InvalidPackFile (str "The pack file is not at the end"))
  else Ok signature.

(** The message names one of the missing bases of each map, in the map's order. *)
Definition thin_pack (w : Waitlist) : GitError :=
  let first_offset :=
    match map_to_list (wl_offset w) with (o, _) :: _ => str "; first missing base offset " ++ show_dec o | [] => [] end in
  let first_ref :=
    match map_to_list (wl_ref w) with (h, _) :: _ => str "; first missing base object " ++ ObjectHash.fmt h | [] => [] end in
  InvalidPackFile (str "Pack references bases that are not in the pack (thin pack?): "
    ++ show_dec (Z.of_nat (size (wl_offset w))) ++ str " offset-delta and "
    ++ show_dec (Z.of_nat (size (wl_ref w))) ++ str " ref-delta object(s) unresolved" ++ first_offset ++ first_ref).

(** The checks on a pack whose tasks are done: nothing waits, and no more objects were stored
    than declared. *)
Definition check_decoded (number : Z) : prog :=
  Pending (fun w =>
    if bool_decide (wl_offset w = ∅) && bool_decide (wl_ref w = ∅) then
      TotalInserted (fun total =>
        if number <? total
        then abort_decode (InvalidPackFile (str "Pack header declares " ++ show_dec number ++ str " objects but "
               ++ show_dec total ++ str " were decoded"))
        else Shutdown (Return (Ok tt)))
    else abort_decode (thin_pack w)).

(** From [pool.join()] on. *)
Definition finish_decode (number : Z) (pack_id_callback : bool) (signature : ObjectHash.t) : prog :=
  Join (TakeError (fun e =>
    match e with
    | Some error => abort_decode error
    | None =>
        if pack_id_callback then PackIdCallback signature (check_decoded number) else check_decoded number
    end)).

Definition decode_inner (pack_id_callback : bool) (pack : bytes) : prog :=
  match check_header pack with
  | Ok ((object_num, _), entries) =>
      decode_objects (Z.to_nat object_num) 0 entries 12 (fun rest =>
        match read_trailer pack rest with
        | Ok signature => finish_decode object_num pack_id_callback signature
        | Err e => abort_decode e
        | Panic | OutOfFuel => Panicked
        end)
  | Err e => Return (Err e)
  | Panic | OutOfFuel => Panicked
  end.

(** * The machine *)

Definition with_waitlist (s : Shared) (w : Waitlist) : Shared :=
  mkShared _ w (caches s) (remaining s) (decode_error s) (delivered s) (pack_ids s).
Definition with_caches (s : Shared) (c : Caches) : Shared :=
  mkShared _ (waitlist s) c (remaining s) (decode_error s) (delivered s) (pack_ids s).
Definition with_remaining (s : Shared) (r : DecodeRetention) : Shared :=
  mkShared _ (waitlist s) (caches s) r (decode_error s) (delivered s) (pack_ids s).
Definition with_error (s : Shared) (e : option GitError) : Shared :=
  mkShared _ (waitlist s) (caches s) (remaining s) e (delivered s) (pack_ids s).

(** One access: the new shared state, the rest of the program and the tasks handed to the
    pool.  [None] for a program that is over, waits for the pool, or waits for a spilled
    object. *)
Definition exec (q : prog) (s : Shared) : option ((Shared * prog) * list Task) :=
  match q with
  | Done | Panicked | Return _ | Join _ => None
  | GetByOffset offset k =>
      match get_by_offset (caches s) offset with Ok (r, c) => Some (with_caches s c, k r, []) | _ => None end
  | GetByHash hash k =>
      match get_by_hash (caches s) hash with Ok (r, c) => Some (with_caches s c, k r, []) | _ => None end
  | CacheInsert offset hash obj k => Some (with_caches s (insert (caches s) offset hash obj), k, [])
  | RemoveUnbounded offset hash k => Some (with_caches s (remove_unbounded (caches s) offset hash), k, [])
  | InsertOffset offset obj k => Some (with_waitlist s (insert_offset (waitlist s) offset obj), k, [])
  | InsertRef hash obj k => Some (with_waitlist s (insert_ref (waitlist s) hash obj), k, [])
  | TakeOffset offset k => let '(l, w) := take_offset (waitlist s) offset in Some (with_waitlist s w, k l, [])
  | TakeRef hash k => let '(l, w) := take_ref (waitlist s) hash in Some (with_waitlist s w, k l, [])
  | WaitsOffset offset k => Some (s, k (bool_decide (is_Some (wl_offset (waitlist s) !! offset))), [])
  | WaitsRef hash k => Some (s, k (bool_decide (is_Some (wl_ref (waitlist s) !! hash))), [])
  | ConsumeOffset offset k => Some (with_remaining s (consume_offset_dependency (remaining s) offset), k, [])
  | ConsumeHash hash k => Some (with_remaining s (consume_hash_dependency (remaining s) hash), k, [])
  | RetainsOffset offset k => Some (s, k (bool_decide (is_Some (offset_remaining (remaining s) !! offset))), [])
  | RetainsHash hash k => Some (s, k (bool_decide (is_Some (hash_remaining (remaining s) !! hash))), [])
  | ReadRetention k => Some (s, k (remaining s), [])
  | Callback entry k =>
      Some (mkShared _ (waitlist s) (caches s) (remaining s) (decode_error s) (delivered s ++ [entry]) (pack_ids s), k, [])
  | PackIdCallback id k =>
      Some (mkShared _ (waitlist s) (caches s) (remaining s) (decode_error s) (delivered s) (pack_ids s ++ [id]), k, [])
  | SetError e k =>
      Some (with_error s (match decode_error s with None => Some e | Some e' => Some e' end), k, [])
  | TakeError k => Some (with_error s None, k (decode_error s), [])
  | Execute t k => Some (s, k, [t])
  | Pending k => Some (s, k (waitlist s), [])
  | TotalInserted k => Some (s, k (total_inserted (caches s)), [])
  | Shutdown k => Some (with_caches s (shutdown (caches s)), k, [])
  end.

Record State : Type := mkState {
  main : prog;
  queued : list Task;
  running : list prog;
  shared : Shared
}.

(** A worker that panics is replaced, its task is lost. *)
Definition over (q : prog) : bool := match q with Done | Panicked => true | _ => false end.

Inductive step : State -> State -> Prop :=
| step_main m qs rs s s' m' ts :
    exec m s = Some ((s', m'), ts) -> step (mkState m qs rs s) (mkState m' (qs ++ ts) rs s')
| step_join k s : step (mkState (Join k) [] [] s) (mkState k [] [] s)
| step_start m qs1 t qs2 rs s :
    step (mkState m (qs1 ++ t :: qs2) rs s) (mkState m (qs1 ++ qs2) (task_prog t :: rs) s)
| step_run m qs rs1 q rs2 s s' q' ts :
    exec q s = Some ((s', q'), ts) ->
    step (mkState m qs (rs1 ++ q :: rs2) s) (mkState m (qs ++ ts) (rs1 ++ q' :: rs2) s')
| step_exit m qs rs1 q rs2 s :
    over q = true -> step (mkState m qs (rs1 ++ q :: rs2) s) (mkState m qs (rs1 ++ rs2) s).

Inductive steps : nat -> State -> State -> Prop :=
| steps_O st : steps 0 st st
| steps_S n st1 st2 st3 : step st1 st2 -> steps n st2 st3 -> steps (S n) st1 st3.

Definition initial (mem : option Z) (tmp : path) (counts : DecodeRetention) (pack_id_callback : bool) (pack : bytes) : State :=
  mkState (decode_inner pack_id_callback pack) [] []
    (mkShared _ Waitlist_new (Caches_new mem tmp) counts None [] []).

(** A schedule: what moves at each point. *)
Inductive Choice : Type := Main | Start (i : nat) | Run (i : nat).

Definition move (st : State) (c : Choice) : option State :=
  match c with
  | Main =>
      match main st with
      | Join k => match queued st, running st with [], [] => Some (mkState k [] [] (shared st)) | _, _ => None end
      | m => match exec m (shared st) with
             | Some ((s, m), ts) => Some (mkState m (queued st ++ ts) (running st) s)
             | None => None
             end
      end
  | Start i =>
      match queued st !! i with
      | Some t => Some (mkState (main st) (delete i (queued st)) (task_prog t :: running st) (shared st))
      | None => None
      end
  | Run i =>
      match running st !! i with
      | Some q =>
          if over q then Some (mkState (main st) (queued st) (delete i (running st)) (shared st))
          else match exec q (shared st) with
               | Some ((s, q), ts) => Some (mkState (main st) (queued st ++ ts) (<[i := q]> (running st)) s)
               | None => None
               end
      | None => None
      end
  end.

Fixpoint run_schedule (st : State) (cs : list Choice) : option State :=
  match cs with [] => Some st | c :: cs => match move st c with Some st => run_schedule st cs | None => None end end.

End code.
