(* ===== verification/PipelineProofs.v ===== *)
(** Why the concurrent decoder is right, for a stream (no retention table): every
    schedule ends, and the result and the objects delivered do not depend on it.

    The programs a thread can be in are the points of [Pc]; [pc_prog] gives the
    program of a point.  The invariant [Inv] accounts for every entry of the pack,
    wherever it is (unread, in a thread, in a task, waiting, stored, failed), and says
    that a delta only waits for a base that is not stored, or that some thread is about
    to look again. *)

From Stdlib Require Import ZArith Lia String.
From stdpp Require Import base tactics list numbers option gmap.
From S2P Require Import Prelude Text Errors ObjectTypes DeltaUtils DeltaFormat DeltaDecode PackUtils Hash PackIndex PackDecode Caches Pipeline.

(** * Occurrences *)

Definition occ (x : Z) (l : list Z) : nat := count_occ Z.eq_dec l x.

Lemma occ_app x l1 l2 : occ x (l1 ++ l2) = (occ x l1 + occ x l2)%nat.
Proof. apply count_occ_app. Qed.

Lemma occ_cons x y l : occ x (y :: l) = (occ x [y] + occ x l)%nat.
Proof. by rewrite <- occ_app. Qed.

Lemma occ_perm l1 l2 : (forall x, occ x l1 = occ x l2) <-> Permutation l1 l2.
Proof. split; intros Hp; by apply (Permutation_count_occ Z.eq_dec). Qed.

Definition offsets (l : list CacheObject) : list Z := map co_offset l.

Lemma offsets_app l1 l2 : offsets (l1 ++ l2) = offsets l1 ++ offsets l2.
Proof. apply map_app. Qed.

(** * Waiting objects *)

Definition values {K A} `{Countable K} (m : gmap K (list A)) : list A := concat (map_to_list m).*2.

Lemma values_delete {K A} `{Countable K} (m : gmap K (list A)) k :
  Permutation (values m) (default [] (m !! k) ++ values (delete k m)).
Proof.
  unfold values. destruct (m !! k) as [l|] eqn:E; cbn [default].
  - rewrite <- (map_to_list_delete m k l E). done.
  - by rewrite delete_id.
Qed.

Lemma values_insert {K A} `{Countable K} (m : gmap K (list A)) k l :
  Permutation (values (<[k := l]> m)) (l ++ values (delete k m)).
Proof. rewrite (values_delete _ k), lookup_insert_eq. cbn. by rewrite delete_insert_eq. Qed.

Lemma push_waiting_values `{Countable K} (m : gmap K (list CacheObject)) k o :
  Permutation (values (push_waiting m k o)) (o :: values m).
Proof.
  unfold push_waiting. rewrite values_insert, (values_delete m k). rewrite <- app_assoc. cbn. by rewrite Permutation_middle.
Qed.

(** What waits for a base, and the accesses to it. *)
Definition waits (w : Waitlist) (d : Dependency) : option (list CacheObject) :=
  match d with OnOffset o => wl_offset w !! o | OnHash h => wl_ref w !! h end.

Definition waiting (w : Waitlist) : list CacheObject := values (wl_offset w) ++ values (wl_ref w).

Definition push (w : Waitlist) (d : Dependency) (o : CacheObject) : Waitlist :=
  match d with OnOffset off => insert_offset w off o | OnHash h => insert_ref w h o end.

Definition drop_waits (w : Waitlist) (d : Dependency) : Waitlist :=
  match d with
  | OnOffset off => mkWaitlist (delete off (wl_offset w)) (wl_ref w)
  | OnHash h => mkWaitlist (wl_offset w) (delete h (wl_ref w))
  end.

Lemma waiting_push w d o : Permutation (waiting (push w d o)) (o :: waiting w).
Proof.
  destruct d as [off|h]; unfold waiting; cbn; rewrite push_waiting_values; [done|]. by rewrite Permutation_middle.
Qed.

Lemma waiting_drop w d : Permutation (waiting w) (default [] (waits w d) ++ waiting (drop_waits w d)).
Proof.
  destruct d as [off|h]; unfold waiting; cbn.
  - by rewrite (values_delete (wl_offset w) off) at 1; rewrite <- app_assoc.
  - rewrite (values_delete (wl_ref w) h) at 1. rewrite !app_assoc. apply Permutation_app_tail, Permutation_app_comm.
Qed.

Lemma waits_push w d o d' : waits (push w d o) d' = if decide (d = d') then Some (default [] (waits w d) ++ [o]) else waits w d'.
Proof.
  destruct d as [off|h], d' as [off'|h']; cbn; try by rewrite decide_False.
  all: unfold push_waiting; destruct (decide _) as [E|E]; [injection E as <-; by rewrite lookup_insert_eq|].
  all: rewrite lookup_insert_ne; [done|congruence].
Qed.

Lemma waits_drop w d d' : waits (drop_waits w d) d' = if decide (d = d') then None else waits w d'.
Proof.
  destruct d as [off|h], d' as [off'|h']; cbn; try by rewrite decide_False.
  all: destruct (decide _) as [E|E]; [injection E as <-; by rewrite lookup_delete_eq|].
  all: rewrite lookup_delete_ne; [done|congruence].
Qed.

Lemma waiting_nil w : (forall d l, waits w d = Some l -> l <> []) ->
  waiting w = [] <-> wl_offset w = ∅ /\ wl_ref w = ∅.
Proof.
  intros Hne. assert (Hv : forall K `{Countable K} (m : gmap K (list CacheObject)),
    (forall k l, m !! k = Some l -> l <> []) -> values m = [] <-> m = ∅).
  { intros K ? ? m Hm. split; [|by intros ->]. intros Hv. apply map_empty. intros k.
    destruct (m !! k) as [l|] eqn:E; [|done]. specialize (Hm _ _ E). pose proof (values_delete m k) as Hp.
    rewrite Hv, E in Hp. cbn in Hp. apply Permutation_nil in Hp. by destruct l. }
  unfold waiting. split.
  - intros Hw. apply app_eq_nil in Hw as [H1 H2]. split; eapply Hv; eauto.
    + intros k l. apply (Hne (OnOffset k)).
    + intros k l. apply (Hne (OnHash k)).
  - by intros [-> ->].
Qed.

(** * Resolving *)

Definition dep_of (o : CacheObject) : option Dependency :=
  match info o with
  | OffsetDelta b _ | OffsetZstdelta b _ => Some (OnOffset b)
  | HashDelta h _ => Some (OnHash h)
  | BaseObject _ _ => None
  end.

Definition provides (r : CacheObject) (d : Dependency) : Prop :=
  match d with OnOffset o => co_offset r = o | OnHash h => base_object_hash r = Some h end.

(** The objects a pack of the entries [objs] stands for: a base object is itself; a delta
    is what [rebuild] makes of it and of what its base stands for. *)
Inductive resolves (rebuild : CacheObject -> CacheObject -> Res GitError CacheObject) (objs : list CacheObject)
  : CacheObject -> CacheObject -> Prop :=
| resolves_base o : o ∈ objs -> is_base o = true -> resolves rebuild objs o o
| resolves_delta d dep b b' r :
    d ∈ objs -> dep_of d = Some dep -> resolves rebuild objs b b' -> provides b' dep -> rebuild d b' = Ok r ->
    resolves rebuild objs d r.

(** A delta whose base resolves, but which does not apply to it. *)
Definition fails (rebuild : CacheObject -> CacheObject -> Res GitError CacheObject) (objs : list CacheObject)
  (d : CacheObject) (e : GitError) : Prop :=
  exists dep b b', d ∈ objs /\ dep_of d = Some dep /\ resolves rebuild objs b b' /\ provides b' dep /\ rebuild d b' = Err e.

(** What the decoder relies on: entries at distinct offsets, base objects with a name,
    deltas that rebuild to an object at their offset or fail, and no two entries that stand
    for objects of the same name. *)
Record pack_ok (rebuild : CacheObject -> CacheObject -> Res GitError CacheObject) (objs : list CacheObject) : Prop := {
  po_offsets : NoDup (offsets objs);
  po_base o : o ∈ objs -> is_base o = true -> resolved o;
  po_rebuild d b : d ∈ objs -> is_base d = false -> resolved b ->
    match rebuild d b with Ok r => resolved r /\ co_offset r = co_offset d | Err _ => True | Panic | OutOfFuel => False end;
  po_names o1 r1 o2 r2 : resolves rebuild objs o1 r1 -> resolves rebuild objs o2 r2 ->
    base_object_hash r1 = base_object_hash r2 -> co_offset o1 = co_offset o2
}.

Section resolving.
Context (rebuild : CacheObject -> CacheObject -> Res GitError CacheObject) (objs : list CacheObject).
Context (Hok : pack_ok rebuild objs).
Abbreviation resolves := (resolves rebuild objs).

Lemma dep_of_base o : dep_of o = None <-> is_base o = true.
Proof. unfold dep_of, is_base. by destruct (info o). Qed.

Lemma delta_not_base d dep : dep_of d = Some dep -> is_base d = false.
Proof. unfold dep_of, is_base. by destruct (info d). Qed.

Lemma resolves_in o r : resolves o r -> o ∈ objs.
Proof. by destruct 1. Qed.

Lemma resolves_resolved o r : resolves o r -> resolved r /\ co_offset r = co_offset o.
Proof.
  induction 1 as [o Hin Hb|d dep b b' r Hd Hdep Hb [IH _] Hp Hr].
  - split; [|done]. by apply (po_base _ _ Hok).
  - pose proof (po_rebuild _ _ Hok d b' Hd (delta_not_base _ _ Hdep) IH) as Hx. by rewrite Hr in Hx.
Qed.

Lemma same_offset_same o1 o2 : o1 ∈ objs -> o2 ∈ objs -> co_offset o1 = co_offset o2 -> o1 = o2.
Proof.
  pose proof (po_offsets _ _ Hok) as Hnd. unfold offsets in Hnd. intros H1 H2 E.
  apply list_elem_of_lookup in H1 as [i Hi]. apply list_elem_of_lookup in H2 as [j Hj].
  assert (i = j) as ->; [|congruence].
  eapply NoDup_lookup; [exact Hnd| |]; rewrite list_lookup_fmap; [by rewrite Hi|]. rewrite Hj. cbn. by rewrite E.
Qed.

(** Names determine objects, and so do offsets. *)
Lemma resolves_det o1 r1 o2 r2 : resolves o1 r1 -> resolves o2 r2 -> co_offset o1 = co_offset o2 -> r1 = r2.
Proof.
  intros H1. revert o2 r2. induction H1 as [o Hin Hb|d dep b b' r Hd Hdep Hb IH Hp Hr]; intros o2 r2 H2 E.
  - destruct H2 as [o2 Hin2 Hb2|d2 dep2 c c' r2 Hd2 Hdep2 Hc Hp2 Hr2]; [by apply same_offset_same|].
    rewrite (same_offset_same o d2) in Hb by done. apply delta_not_base in Hdep2. congruence.
  - destruct H2 as [o2 Hin2 Hb2|d2 dep2 c c' r2 Hd2 Hdep2 Hc Hp2 Hr2].
    + rewrite <- (same_offset_same d o2) in Hb2 by done. apply delta_not_base in Hdep. congruence.
    + rewrite <- (same_offset_same d d2) in Hdep2, Hr2 by done. assert (dep2 = dep) as -> by congruence.
      assert (b' = c') as <-; [|congruence]. apply (IH c); [done|].
      destruct (resolves_resolved _ _ Hb) as [_ Ob], (resolves_resolved _ _ Hc) as [_ Oc].
      destruct dep as [off|h]; cbn in Hp, Hp2; [congruence|]. apply (po_names _ _ Hok b b' c c'); congruence.
Qed.

Lemma provides_same o1 r1 o2 r2 d : resolves o1 r1 -> resolves o2 r2 -> provides r1 d -> provides r2 d -> r1 = r2.
Proof.
  intros H1 H2 P1 P2. apply (resolves_det o1 r1 o2 r2 H1 H2).
  destruct (resolves_resolved _ _ H1) as [_ O1], (resolves_resolved _ _ H2) as [_ O2].
  destruct d as [off|h]; cbn in *; [congruence|]. apply (po_names _ _ Hok o1 r1 o2 r2); congruence.
Qed.

(** A delta that fails has nothing it stands for. *)
Lemma fails_not_resolves d e r : fails rebuild objs d e -> resolves d r -> False.
Proof.
  intros (dep & b & b' & Hd & Hdep & Hb & Hp & He) Hr. destruct Hr as [o Hin Hbase|d dep2 c c' r Hd2 Hdep2 Hc Hp2 Hr2].
  - apply delta_not_base in Hdep. congruence.
  - assert (dep2 = dep) as -> by congruence. rewrite (provides_same _ _ _ _ _ Hb Hc Hp Hp2) in He. congruence.
Qed.

End resolving.

(** * Points of the programs *)

(** The accesses to the cache, by the reference of a delta. *)
Definition lookup_base `{HexCrate} `{LruCache} (c : Caches) (d : Dependency) : Res Empty_set (option CacheObject * Caches) :=
  match d with OnOffset o => get_by_offset c o | OnHash h => get_by_hash c h end.

Definition Lookup (d : Dependency) (k : option CacheObject -> prog) : prog :=
  match d with OnOffset o => GetByOffset o k | OnHash h => GetByHash h k end.

Inductive Pc : Type :=
| PIdle
| PDispatch (obj : CacheObject)
| PLookup (obj : CacheObject)
| PEnqueue (obj : CacheObject) (d : Dependency)
| PRecheck (d : Dependency)
| PTakeOffset (base : CacheObject)
| PTakeRef (base : CacheObject) (l : list CacheObject)
| PFork (base : CacheObject) (obj : CacheObject) (l : list CacheObject)
| PPublish (new : CacheObject)
| PInsert (new : CacheObject)
| PFail (d : CacheObject) (e : GitError).

#[export] Instance idle_dec pc : Decision (pc = PIdle).
Proof. destruct pc; (left; reflexivity) || (right; discriminate). Defined.

Definition recheck (d : Dependency) (k : prog) : prog :=
  Lookup d (fun r => match r with Some b => process_waitlist b k | None => k end).

Definition enqueue (d : Dependency) (obj : CacheObject) (k : prog) : prog :=
  match d with OnOffset o => InsertOffset o obj k | OnHash h => InsertRef h obj k end.

Definition after_hash (o : CacheObject) (k : ObjectHash.t -> prog) : prog :=
  match base_object_hash o with Some h => k h | None => Panicked end.

Definition pc_prog (p : SharedParams) (pc : Pc) (k : prog) : prog :=
  match pc with
  | PIdle => k
  | PDispatch obj => Execute (TDecoded obj) k
  | PLookup obj => process_delta_dependency p obj k
  | PEnqueue obj d => enqueue d obj (recheck d k)
  | PRecheck d => recheck d k
  | PTakeOffset base => process_waitlist base k
  | PTakeRef base l => after_hash base (fun h => TakeRef h (fun l2 => process_waitlist_objects (l ++ l2) base k))
  | PFork base obj l => process_waitlist_objects (obj :: l) base k
  | PPublish new => cache_obj_and_process_waitlist p new k
  | PInsert new => after_hash new (fun h => CacheInsert (co_offset new) h new (process_waitlist new k))
  | PFail _ e => SetError e k
  end.

Definition fork (base : CacheObject) (l : list CacheObject) : Pc :=
  match l with [] => PIdle | obj :: l => PFork base obj l end.

(** Where [cache_obj_and_process_waitlist] starts. *)
Definition publish (p : SharedParams) (new : CacheObject) : Pc := if callback p then PPublish new else PInsert new.

Definition deliver `{LruCache} (s : Shared) (e : MetaAttached Entry EntryMeta) : Shared :=
  mkShared _ (waitlist s) (caches s) (remaining s) (decode_error s) (delivered s ++ [e]) (pack_ids s).

Definition record_error `{LruCache} (s : Shared) (e : GitError) : Shared :=
  with_error s (match decode_error s with None => Some e | Some e' => Some e' end).

Inductive pc_step `{HexCrate} `{LruCache} (p : SharedParams) : Shared -> Pc -> Shared -> Pc -> list Task -> Prop :=
| pcs_dispatch s o : pc_step p s (PDispatch o) s PIdle [TDecoded o]
| pcs_found s o d b c : dep_of o = Some d -> lookup_base (caches s) d = Ok (Some b, c) ->
    pc_step p s (PLookup o) (with_caches s c) (PFork b o []) []
| pcs_missing s o d c : dep_of o = Some d -> lookup_base (caches s) d = Ok (None, c) ->
    pc_step p s (PLookup o) (with_caches s c) (PEnqueue o d) []
| pcs_enqueue s o d : pc_step p s (PEnqueue o d) (with_waitlist s (push (waitlist s) d o)) (PRecheck d) []
| pcs_recheck_found s d b c : lookup_base (caches s) d = Ok (Some b, c) ->
    pc_step p s (PRecheck d) (with_caches s c) (PTakeOffset b) []
| pcs_recheck_missing s d c : lookup_base (caches s) d = Ok (None, c) ->
    pc_step p s (PRecheck d) (with_caches s c) PIdle []
| pcs_take_offset s b h : base_object_hash b = Some h ->
    pc_step p s (PTakeOffset b) (with_waitlist s (drop_waits (waitlist s) (OnOffset (co_offset b))))
      (PTakeRef b (default [] (waits (waitlist s) (OnOffset (co_offset b))))) []
| pcs_take_ref s b h l : base_object_hash b = Some h ->
    pc_step p s (PTakeRef b l) (with_waitlist s (drop_waits (waitlist s) (OnHash h)))
      (fork b (l ++ default [] (waits (waitlist s) (OnHash h)))) []
| pcs_fork s b o l : pc_step p s (PFork b o l) s (fork b l) [TRebuild o b]
| pcs_publish s r e : callback p = true -> callback_entry_ref p r = Ok e ->
    pc_step p s (PPublish r) (deliver s e) (PInsert r) []
| pcs_insert s r h : base_object_hash r = Some h ->
    pc_step p s (PInsert r) (with_caches s (insert (caches s) (co_offset r) h r)) (PTakeOffset r) []
| pcs_fail s d e : pc_step p s (PFail d e) (record_error s e) PIdle [].

Section points.
Context `{HexCrate} `{LruCache} (p : SharedParams) (Hret : retention p = false).

Lemma pc_prog_fork b l k : pc_prog p (fork b l) k = process_waitlist_objects l b k.
Proof. by destruct l. Qed.

Lemma pc_prog_publish new k : pc_prog p (publish p new) k = cache_obj_and_process_waitlist p new k.
Proof. unfold publish. destruct (callback p) eqn:E; [done|]. cbn. unfold cache_obj_and_process_waitlist, call_back_if. by rewrite Hret, E. Qed.

Lemma exec_Lookup d k s :
  exec (Lookup d k) s = match lookup_base (caches s) d with Ok (r, c) => Some (with_caches s c, k r, []) | _ => None end.
Proof. by destruct d. Qed.

Lemma process_delta_dependency_Lookup o d k : dep_of o = Some d ->
  process_delta_dependency p o k =
  Lookup d (fun r => match r with Some b => process_waitlist_objects [o] b k | None => enqueue d o (recheck d k) end).
Proof.
  unfold dep_of, process_delta_dependency, release_offset_dependency, release_hash_dependency, maybe_remove_released_base,
    recheck, enqueue. rewrite Hret. by destruct (info o); intros [= <-].
Qed.

(** A thread at a point makes the steps of the point. *)
Lemma exec_point pc k s s' q ts :
  (pc = PIdle -> False) -> (forall r, pc = PPublish r -> callback p = true) ->
  exec (pc_prog p pc k) s = Some ((s', q), ts) ->
  exists pc', pc_step p s pc s' pc' ts /\ q = pc_prog p pc' k.
Proof.
  intros Hni Hcb Hx. destruct pc as [|o|o|o d|d|b|b l|b o l|r|r|d e]; cbn [pc_prog] in Hx.
  - by destruct Hni.
  - injection Hx as <- <- <-. exists PIdle. split; [constructor|done].
  - destruct (dep_of o) as [d|] eqn:Ed.
    + rewrite (process_delta_dependency_Lookup _ _ _ Ed), exec_Lookup in Hx.
      destruct (lookup_base (caches s) d) as [[[b|] c]| | |] eqn:El; try discriminate Hx; injection Hx as <- <- <-.
      * exists (PFork b o []). split; [by econstructor|done].
      * exists (PEnqueue o d). split; [by econstructor|done].
    + unfold dep_of, process_delta_dependency in *. by destruct (info o).
  - exists (PRecheck d). destruct d; injection Hx as <- <- <-; (split; [constructor|done]).
  - unfold recheck in Hx. rewrite exec_Lookup in Hx.
    destruct (lookup_base (caches s) d) as [[[b|] c]| | |] eqn:El; try discriminate Hx; injection Hx as <- <- <-.
    + exists (PTakeOffset b). split; [by econstructor|done].
    + exists PIdle. split; [by econstructor|done].
  - unfold process_waitlist in Hx. destruct (base_object_hash b) as [h|] eqn:Eh; [|done]. injection Hx as <- <- <-.
    eexists. split; [by econstructor|]. cbn. unfold after_hash. by rewrite Eh.
  - unfold after_hash in Hx. destruct (base_object_hash b) as [h|] eqn:Eh; [|done]. injection Hx as <- <- <-.
    eexists. split; [by econstructor|]. by rewrite pc_prog_fork.
  - injection Hx as <- <- <-. exists (fork b l). split; [constructor|]. by rewrite pc_prog_fork.
  - specialize (Hcb r eq_refl). unfold cache_obj_and_process_waitlist, call_back_if in Hx. rewrite Hret, Hcb in Hx.
    destruct (callback_entry_ref p r) as [e| | |] eqn:Ee; try discriminate Hx. injection Hx as <- <- <-.
    exists (PInsert r). split; [by constructor|done].
  - unfold after_hash in Hx. destruct (base_object_hash r) as [h|] eqn:Eh; [|done]. injection Hx as <- <- <-.
    exists (PTakeOffset r). split; [by econstructor|done].
  - injection Hx as <- <- <-. exists PIdle. split; [constructor|done].
Qed.

End points.

(** * The invariant *)

(** The offsets of the entries a thread or a task is responsible for. *)
Definition held (pc : Pc) : list Z :=
  match pc with
  | PIdle | PRecheck _ | PTakeOffset _ => []
  | PDispatch o | PLookup o | PEnqueue o _ => [co_offset o]
  | PTakeRef _ l => offsets l
  | PFork _ o l => offsets (o :: l)
  | PPublish r | PInsert r => [co_offset r]
  | PFail d _ => [co_offset d]
  end.

Definition task_held (t : Task) : list Z := match t with TDecoded o => [co_offset o] | TRebuild d _ => [co_offset d] end.

(** The bases a thread will look for waiting deltas of. *)
Definition covers (pc : Pc) (d : Dependency) : Prop :=
  match pc with
  | PRecheck d' => d = d'
  | PTakeOffset b => provides b d
  | PTakeRef b _ => match d with OnHash _ => provides b d | OnOffset _ => False end
  | _ => False
  end.

(** Objects delivered but not stored yet. *)
Definition inserting (pc : Pc) : list CacheObject := match pc with PInsert r => [r] | _ => [] end.

Section invariant.
Context (rebuild : CacheObject -> CacheObject -> Res GitError CacheObject) (objs : list CacheObject) (p : SharedParams).
Abbreviation resolves := (resolves rebuild objs).

(** [x] is a delta of the pack that needs [b]. *)
Definition served (b x : CacheObject) : Prop := x ∈ objs /\ exists d, dep_of x = Some d /\ provides b d.

Definition known (r : CacheObject) : Prop := exists o, resolves o r.

Definition pc_ok (log : list CacheObject) (pc : Pc) : Prop :=
  match pc with
  | PIdle | PRecheck _ => True
  | PDispatch o => o ∈ objs
  | PLookup o => o ∈ objs /\ is_base o = false
  | PEnqueue o d => o ∈ objs /\ dep_of o = Some d
  | PTakeOffset b => b ∈ log
  | PTakeRef b l => b ∈ log /\ Forall (served b) l
  | PFork b o l => known b /\ Forall (served b) (o :: l)
  | PPublish r => callback p = true /\ known r
  | PInsert r => known r
  | PFail d e => fails rebuild objs d e
  end.

Definition task_ok (t : Task) : Prop :=
  match t with TDecoded o => o ∈ objs | TRebuild d b => known b /\ served b d end.

Context `{HexCrate} `{LruCache}.

Record Inv (mem : option Z) (unread : list CacheObject) (pcs : list Pc) (qs : list Task) (s : Shared)
  (log failed : list CacheObject) : Prop := {
  inv_cache : cache_inv (caches s) log;
  inv_mem : mem_size (caches s) = mem;
  inv_log : Forall known log;
  inv_pcs : Forall (pc_ok log) pcs;
  inv_tasks : Forall task_ok qs;
  inv_unread : Forall (fun o => o ∈ objs) unread;
  inv_waits d l : waits (waitlist s) d = Some l -> l <> [] /\ Forall (fun x => x ∈ objs /\ dep_of x = Some d) l;
  inv_cover d : is_Some (waits (waitlist s) d) ->
    Exists (fun pc => covers pc d) pcs \/ forall r, r ∈ log -> ~ provides r d;
  inv_count x : occ x (offsets objs) =
    (occ x (offsets unread) + occ x (pcs ≫= held) + occ x (qs ≫= task_held) + occ x (offsets (waiting (waitlist s)))
     + occ x (offsets log) + occ x (offsets failed))%nat;
  inv_failed : Forall (fun d => exists e, fails rebuild objs d e) failed;
  inv_error : match decode_error s with
              | Some e => exists d, d ∈ failed /\ fails rebuild objs d e
              | None => failed = []
              end;
  inv_delivered : if callback p
    then Permutation (map Ok (delivered s)) (map (callback_entry_ref p) (log ++ (pcs ≫= inserting)))
    else delivered s = []
}.

Lemma Inv_pcs_perm mem unread pcs pcs' qs s log failed :
  Permutation pcs pcs' -> Inv mem unread pcs qs s log failed -> Inv mem unread pcs' qs s log failed.
Proof.
  intros Hp [? ? ? ? ? ? ? Hc Hn ? ? Hd]. split; try done.
  - by rewrite <- Hp.
  - intros d Hd'. destruct (Hc d Hd') as [Hex | ?]; [left|by right]. by rewrite <- Hp.
  - intros x. rewrite Hn. rewrite (proj2 (occ_perm (pcs ≫= held) (pcs' ≫= held))); [done|by rewrite Hp].
  - destruct (callback p); [|done]. rewrite Hd. apply Permutation_map. by rewrite Hp.
Qed.

Lemma Inv_tasks_perm mem unread pcs qs qs' s log failed :
  Permutation qs qs' -> Inv mem unread pcs qs s log failed -> Inv mem unread pcs qs' s log failed.
Proof.
  intros Hp [? ? ? ? ? ? ? Hc Hn ? ? Hd]. split; try done.
  - by rewrite <- Hp.
  - intros x. rewrite Hn. rewrite (proj2 (occ_perm (qs ≫= task_held) (qs' ≫= task_held))); [done|by rewrite Hp].
Qed.

(** The accounting of a step that leaves the store, the deliveries and the failures alone:
    the point changes, the waitlist may change, and tasks may be handed over. *)
Lemma Inv_move mem unread pc pcs qs s log failed pc' ts w :
  Inv mem unread (pc :: pcs) qs s log failed ->
  inserting pc = [] -> inserting pc' = [] ->
  pc_ok log pc' -> Forall task_ok ts ->
  (forall d l, waits w d = Some l -> l <> [] /\ Forall (fun x => x ∈ objs /\ dep_of x = Some d) l) ->
  (forall d, is_Some (waits w d) ->
     covers pc' d \/ (is_Some (waits (waitlist s) d) /\ (covers pc d -> forall r, r ∈ log -> ~ provides r d))) ->
  Permutation (held pc ++ offsets (waiting (waitlist s))) (held pc' ++ (ts ≫= task_held) ++ offsets (waiting w)) ->
  Inv mem unread (pc' :: pcs) (ts ++ qs) (with_waitlist s w) log failed.
Proof.
  intros [? ? ? Hpcs ? ? ? Hc Hn ? ? Hd] Hi Hi' Hpc' Hts Hw Hcov Hperm.
  apply Forall_cons in Hpcs as [_ Hpcs]. split; try done.
  - by constructor.
  - by apply Forall_app.
  - intros d Hsome. rewrite Exists_cons. destruct (Hcov d Hsome) as [? | [Hold Hno]]; [by left; left|].
    destruct (Hc d Hold) as [Hex | ?]; [|by right]. apply Exists_cons in Hex as [Hx | Hx]; [right; by apply Hno|].
    by left; right.
  - intros x. rewrite Hn, !bind_cons, bind_app, !occ_app. cbn [waitlist with_waitlist].
    pose proof (proj2 (occ_perm _ _) Hperm x) as Hx. rewrite !occ_app in Hx. lia.
  - cbn in Hd |- *. rewrite Hi in Hd. rewrite Hi'. done.
Qed.

(** A lookup only moves objects between memory and disk. *)
Lemma Inv_with_caches mem unread pcs qs s log failed c :
  Inv mem unread pcs qs s log failed -> cache_inv c log -> mem_size c = mem ->
  Inv mem unread pcs qs (with_caches s c) log failed.
Proof. intros [] Hc Hm. by split. Qed.

Lemma with_waitlist_id (s : Shared) : with_waitlist s (waitlist s) = s.
Proof. by destruct s. Qed.

End invariant.

(** * Every step keeps the invariant *)

Section preservation.
Context `{HexCrate} `{!HexLaws} `{LruCache} `{!LruLaws}.
Context (rebuild : CacheObject -> CacheObject -> Res GitError CacheObject) (objs : list CacheObject) (p : SharedParams).
Context (Hok : pack_ok rebuild objs).
Context (mem : option Z).
(** Without a memory limit, the objects of the pack fit in memory. *)
Context (Hfits : mem = None -> forall rs, Forall (known rebuild objs) rs -> NoDup (offsets rs) -> footprint rs <= usize_max).
Abbreviation known := (known rebuild objs).
Abbreviation Inv := (Inv rebuild objs p mem).
Abbreviation pc_ok := (pc_ok rebuild objs p).

Lemma known_resolved r : known r -> resolved r.
Proof. intros [o Ho]. by apply (resolves_resolved _ _ Hok) in Ho as [? _]. Qed.

(** A lookup finds the object the reference means, when it is stored. *)
Lemma lookup_base_ok c log d :
  cache_inv c log -> Forall known log ->
  exists r c', lookup_base c d = Ok (r, c') /\ cache_inv c' log /\ mem_size c' = mem_size c
    /\ match r with Some b => b ∈ log /\ provides b d | None => forall r, r ∈ log -> ~ provides r d end.
Proof.
  intros Hc Hl. rewrite Forall_forall in Hl. destruct d as [off|h]; cbn [lookup_base].
  - destruct (get_by_offset_ok c log off Hc) as (r & c' & -> & Hc' & Hm & Ha). exists r, c'. split_and!; try done.
    destruct r as [b|]; [|exact Ha]. destruct Ha as (h & b' & [Hin Hb] & [Hin' Hb'] & Hoff). split; [done|].
    destruct (Hl _ Hin) as [o Ho], (Hl _ Hin') as [o' Ho']. cbn.
    by rewrite (resolves_det _ _ Hok o b o' b' Ho Ho' (po_names _ _ Hok _ _ _ _ Ho Ho' (eq_trans Hb (eq_sym Hb')))).
  - destruct (get_by_hash_ok c log h Hc) as (r & c' & -> & Hc' & Hm & Ha). exists r, c'. split_and!; try done.
    destruct r as [b|]; [done|]. intros r Hin Hr. apply Ha. by exists r.
Qed.

Lemma Inv_lookup unread pcs qs s log failed d :
  Inv unread pcs qs s log failed ->
  exists r c, lookup_base (caches s) d = Ok (r, c) /\ Inv unread pcs qs (with_caches s c) log failed
    /\ match r with Some b => b ∈ log /\ provides b d | None => forall r, r ∈ log -> ~ provides r d end.
Proof.
  intros Hi. destruct (lookup_base_ok (caches s) log d) as (r & c & E & Hc & Hm & Hr); [apply Hi|apply Hi|].
  exists r, c. split_and!; try done. apply Inv_with_caches; [done|done|]. rewrite Hm. apply Hi.
Qed.

Lemma pc_ok_mono log log' pc : (forall x, x ∈ log -> x ∈ log') -> pc_ok log pc -> pc_ok log' pc.
Proof. intros Hsub. destruct pc; cbn; naive_solver. Qed.

Lemma known_entry r : known r -> exists e, callback_entry_ref p r = Ok e.
Proof.
  intros Hk. destruct (known_resolved _ Hk) as (h & Hh & _). unfold callback_entry_ref, low_memory_entry, to_entry_metadata.
  rewrite Hh. unfold base_object_hash in Hh. destruct (info r); try done. destruct (low_memory p); eauto.
Qed.

Lemma Inv_dispatch unread pcs qs s log failed o :
  Inv unread (PDispatch o :: pcs) qs s log failed -> Inv unread (PIdle :: pcs) (TDecoded o :: qs) s log failed.
Proof.
  intros Hi. pose proof (inv_pcs _ _ _ _ _ _ _ _ _ _ Hi) as Hp. apply Forall_cons in Hp as [Ho _].
  rewrite <- (with_waitlist_id s). apply (Inv_move _ _ _ _ _ _ _ _ _ _ _ PIdle [TDecoded o] _ Hi); try done.
  - by constructor.
  - apply (inv_waits _ _ _ _ _ _ _ _ _ _ Hi).
  - right. by split.
Qed.

Lemma Inv_found unread pcs qs s log failed o d b :
  Inv unread (PLookup o :: pcs) qs s log failed -> dep_of o = Some d -> b ∈ log -> provides b d ->
  Inv unread (PFork b o [] :: pcs) qs s log failed.
Proof.
  intros Hi Hd Hb Hpr. pose proof (inv_pcs _ _ _ _ _ _ _ _ _ _ Hi) as Hp. apply Forall_cons in Hp as [[Ho _] _].
  pose proof (inv_log _ _ _ _ _ _ _ _ _ _ Hi) as Hl. rewrite Forall_forall in Hl.
  rewrite <- (with_waitlist_id s). apply (Inv_move _ _ _ _ _ _ _ _ _ _ _ (PFork b o []) [] _ Hi); try done.
  - split; [by apply Hl|]. constructor; [|done]. split; [done|]. by exists d.
  - apply (inv_waits _ _ _ _ _ _ _ _ _ _ Hi).
  - right. by split.
Qed.

Lemma Inv_missing unread pcs qs s log failed o d :
  Inv unread (PLookup o :: pcs) qs s log failed -> dep_of o = Some d -> Inv unread (PEnqueue o d :: pcs) qs s log failed.
Proof.
  intros Hi Hd. pose proof (inv_pcs _ _ _ _ _ _ _ _ _ _ Hi) as Hp. apply Forall_cons in Hp as [[Ho _] _].
  rewrite <- (with_waitlist_id s). apply (Inv_move _ _ _ _ _ _ _ _ _ _ _ (PEnqueue o d) [] _ Hi); try done.
  - apply (inv_waits _ _ _ _ _ _ _ _ _ _ Hi).
  - right. by split.
Qed.

Lemma Inv_enqueue unread pcs qs s log failed o d :
  Inv unread (PEnqueue o d :: pcs) qs s log failed ->
  Inv unread (PRecheck d :: pcs) qs (with_waitlist s (push (waitlist s) d o)) log failed.
Proof.
  intros Hi. pose proof (inv_pcs _ _ _ _ _ _ _ _ _ _ Hi) as Hp. apply Forall_cons in Hp as [[Ho Hd] _].
  apply (Inv_move _ _ _ _ _ _ _ _ _ _ _ (PRecheck d) [] _ Hi); try done.
  - intros d' l. rewrite waits_push. destruct (decide (d = d')) as [<- | Hne]; [|apply (inv_waits _ _ _ _ _ _ _ _ _ _ Hi)].
    intros [= <-]. split; [by destruct (default [] _)|]. apply Forall_app. split; [|by repeat constructor].
    destruct (waits (waitlist s) d) as [l|] eqn:E; [|constructor]. by apply (inv_waits _ _ _ _ _ _ _ _ _ _ Hi) in E as [_ ?].
  - intros d'. rewrite waits_push. destruct (decide (d = d')) as [<- | Hne]; [by left|right]. by split.
  - cbn. unfold offsets. by rewrite waiting_push.
Qed.

Lemma Inv_recheck_found unread pcs qs s log failed d b :
  Inv unread (PRecheck d :: pcs) qs s log failed -> b ∈ log -> provides b d ->
  Inv unread (PTakeOffset b :: pcs) qs s log failed.
Proof.
  intros Hi Hb Hp. rewrite <- (with_waitlist_id s). apply (Inv_move _ _ _ _ _ _ _ _ _ _ _ (PTakeOffset b) [] _ Hi); try done.
  - apply (inv_waits _ _ _ _ _ _ _ _ _ _ Hi).
  - intros d' Hw. cbn. destruct (decide (d' = d)) as [-> | Hne]; [by left|right]. split; [done|]. by intros ->.
Qed.

Lemma Inv_recheck_missing unread pcs qs s log failed d :
  Inv unread (PRecheck d :: pcs) qs s log failed -> (forall r, r ∈ log -> ~ provides r d) ->
  Inv unread (PIdle :: pcs) qs s log failed.
Proof.
  intros Hi Hno. rewrite <- (with_waitlist_id s). apply (Inv_move _ _ _ _ _ _ _ _ _ _ _ PIdle [] _ Hi); try done.
  - apply (inv_waits _ _ _ _ _ _ _ _ _ _ Hi).
  - intros d' Hw. right. split; [done|]. cbn. intros ->. exact Hno.
Qed.

(** The deltas that wait for [d] all need the object that provides it. *)
Lemma waits_served unread pcs qs s log failed b d :
  Inv unread pcs qs s log failed -> provides b d -> Forall (served objs b) (default [] (waits (waitlist s) d)).
Proof.
  intros Hi Hp. destruct (waits (waitlist s) d) as [l|] eqn:E; [|constructor]. cbn.
  apply (inv_waits _ _ _ _ _ _ _ _ _ _ Hi) in E as [_ Hf]. eapply Forall_impl; [exact Hf|].
  intros x [Hx Hd]. split; [done|]. by exists d.
Qed.

Lemma drop_waits_ok unread pcs qs s log failed d :
  Inv unread pcs qs s log failed ->
  forall d' l, waits (drop_waits (waitlist s) d) d' = Some l -> l <> [] /\ Forall (fun x => x ∈ objs /\ dep_of x = Some d') l.
Proof.
  intros Hi d' l. rewrite waits_drop. destruct (decide _); [done|]. apply (inv_waits _ _ _ _ _ _ _ _ _ _ Hi).
Qed.

Lemma Inv_take_offset unread pcs qs s log failed b :
  Inv unread (PTakeOffset b :: pcs) qs s log failed ->
  Inv unread (PTakeRef b (default [] (waits (waitlist s) (OnOffset (co_offset b)))) :: pcs) qs
    (with_waitlist s (drop_waits (waitlist s) (OnOffset (co_offset b)))) log failed.
Proof.
  intros Hi. pose proof (inv_pcs _ _ _ _ _ _ _ _ _ _ Hi) as Hp. apply Forall_cons in Hp as [Hb _].
  apply (Inv_move _ _ _ _ _ _ _ _ _ _ _ (PTakeRef b _) [] _ Hi); try done.
  - split; [done|]. eapply waits_served; [exact Hi|done].
  - eapply drop_waits_ok; exact Hi.
  - intros d Hw. rewrite waits_drop in Hw. destruct (decide _) as [<- | Hne]; [by destruct Hw|]. cbn.
    destruct d as [off|h]; [|destruct (decide (base_object_hash b = Some h)); [by left|right]].
    + right. split; [done|]. intros E. by rewrite E in Hne.
    + by split.
  - cbn. rewrite <- offsets_app. unfold offsets. by rewrite <- (waiting_drop (waitlist s) (OnOffset (co_offset b))).
Qed.

Lemma Inv_take_ref unread pcs qs s log failed b l h :
  Inv unread (PTakeRef b l :: pcs) qs s log failed -> base_object_hash b = Some h ->
  Inv unread (fork b (l ++ default [] (waits (waitlist s) (OnHash h))) :: pcs) qs
    (with_waitlist s (drop_waits (waitlist s) (OnHash h))) log failed.
Proof.
  intros Hi Hh. pose proof (inv_pcs _ _ _ _ _ _ _ _ _ _ Hi) as Hp. apply Forall_cons in Hp as [[Hb Hl] _].
  pose proof (inv_log _ _ _ _ _ _ _ _ _ _ Hi) as Hk. rewrite Forall_forall in Hk.
  assert (Hall : Forall (served objs b) (l ++ default [] (waits (waitlist s) (OnHash h)))).
  { apply Forall_app. split; [done|]. by eapply waits_served. }
  apply (Inv_move _ _ _ _ _ _ _ _ _ _ _ (fork b _) [] _ Hi); try done.
  - by destruct (l ++ _).
  - destruct (l ++ _); [done|]. split; [by apply Hk|done].
  - eapply drop_waits_ok; exact Hi.
  - intros d Hw. rewrite waits_drop in Hw. destruct (decide _) as [<- | Hne]; [by destruct Hw|].
    right. split; [done|]. destruct d as [off|h']; [done|]. cbn. rewrite Hh. by intros [= ->].
  - replace (held (fork b _)) with (offsets (l ++ default [] (waits (waitlist s) (OnHash h)))) by by destruct (l ++ _).
    cbn. rewrite offsets_app, <- app_assoc. apply Permutation_app_head. rewrite <- offsets_app. unfold offsets.
    by rewrite <- (waiting_drop (waitlist s) (OnHash h)).
Qed.

Lemma Inv_fork unread pcs qs s log failed b o l :
  Inv unread (PFork b o l :: pcs) qs s log failed -> Inv unread (fork b l :: pcs) (TRebuild o b :: qs) s log failed.
Proof.
  intros Hi. pose proof (inv_pcs _ _ _ _ _ _ _ _ _ _ Hi) as Hp. apply Forall_cons in Hp as [[Hb Hl] _].
  apply Forall_cons in Hl as [Ho Hl]. rewrite <- (with_waitlist_id s).
  apply (Inv_move _ _ _ _ _ _ _ _ _ _ _ (fork b l) [TRebuild o b] _ Hi); try done.
  - by destruct l.
  - by destruct l.
  - constructor; [by split|constructor].
  - apply (inv_waits _ _ _ _ _ _ _ _ _ _ Hi).
  - right. by split.
  - replace (held (fork b l)) with (offsets l) by by destruct l. cbn. by rewrite Permutation_middle.
Qed.

Lemma Inv_publish unread pcs qs s log failed r e :
  Inv unread (PPublish r :: pcs) qs s log failed -> callback p = true -> callback_entry_ref p r = Ok e ->
  Inv unread (PInsert r :: pcs) qs (deliver s e) log failed.
Proof.
  intros [? ? ? Hpcs ? ? ? Hc Hn ? ? Hd] Hcb He. apply Forall_cons in Hpcs as [[_ Hr] Hpcs]. split; try done.
  - by constructor.
  - intros d Hw. destruct (Hc d Hw) as [Hx | ?]; [left|by right]. apply Exists_cons in Hx as [[] | Hx]. by right.
  - rewrite Hcb in *. cbn. rewrite map_app, Hd, !map_app. cbn. rewrite He.
    rewrite <- app_assoc. by rewrite (Permutation_app_comm (map _ (pcs ≫= inserting))).
Qed.

Lemma Inv_insert unread pcs qs s log failed r h :
  Inv unread (PInsert r :: pcs) qs s log failed -> base_object_hash r = Some h ->
  Inv unread (PTakeOffset r :: pcs) qs (with_caches s (insert (caches s) (co_offset r) h r)) (r :: log) failed.
Proof.
  intros [Hcache Hmem Hl Hpcs ? ? ? Hc Hn ? ? Hd] Hh. apply Forall_cons in Hpcs as [Hr Hpcs].
  assert (Hl' : Forall known (r :: log)) by by constructor.
  assert (Hnd : NoDup (offsets (r :: log))).
  { rewrite NoDup_ListNoDup. apply (NoDup_count_occ Z.eq_dec). intros x. fold (occ x (offsets (r :: log))).
    pose proof (po_offsets _ _ Hok) as Hno. rewrite NoDup_ListNoDup in Hno.
    pose proof (proj1 (NoDup_count_occ Z.eq_dec _) Hno x) as Hle. fold (occ x (offsets objs)) in Hle. rewrite Hn in Hle.
    rewrite bind_cons, occ_app in Hle. cbn [held] in Hle. cbn [offsets map]. rewrite occ_cons. unfold offsets in *. lia. }
  destruct (cache_insert_ok (caches s) log r h Hcache (known_resolved _ Hr) Hh) as [Hc' Hm'].
  { rewrite Hmem. intros ->. by apply Hfits. }
  split; try done; cbn [caches with_caches].
  - by rewrite Hm'.
  - constructor; [cbn; set_solver|]. eapply Forall_impl; [exact Hpcs|]. intros pc. apply pc_ok_mono. set_solver.
  - intros d Hw. rewrite Exists_cons. cbn [covers]. destruct (Hc d Hw) as [Hx | Hno].
    + apply Exists_cons in Hx as [[] | Hx]. by left; right.
    + destruct d as [off|h']; cbn in *.
      * destruct (decide (co_offset r = off)); [by left; left|right]. intros x. rewrite elem_of_cons. intros [-> | ?]; auto.
      * destruct (decide (base_object_hash r = Some h')); [by left; left|right]. intros x. rewrite elem_of_cons.
        intros [-> | ?]; auto.
  - intros x. rewrite Hn, !bind_cons, !occ_app. cbn [held offsets map]. rewrite (occ_cons x (co_offset r) (map co_offset log)).
    unfold offsets. change (occ x []) with 0%nat. cbn [with_caches waitlist]. lia.
  - destruct (callback p); [|done]. cbn in Hd |- *. by rewrite Hd, <- Permutation_middle.
Qed.

Lemma Inv_fail unread pcs qs s log failed d e :
  Inv unread (PFail d e :: pcs) qs s log failed -> Inv unread (PIdle :: pcs) qs (record_error s e) log (d :: failed).
Proof.
  intros [? ? ? Hpcs ? ? ? Hc Hn Hf He Hd]. apply Forall_cons in Hpcs as [Hx Hpcs]. cbn in Hx. split; try done.
  - by constructor.
  - intros d' Hw. destruct (Hc d' Hw) as [Hex | ?]; [left|by right]. apply Exists_cons in Hex as [[] | Hex]. by right.
  - intros x. rewrite Hn, !bind_cons, !occ_app. cbn [held offsets map]. rewrite (occ_cons x (co_offset d) (map co_offset failed)).
    unfold offsets. change (occ x []) with 0%nat. cbn [record_error with_error waitlist]. lia.
  - constructor; [by exists e|done].
  - cbn. destruct (decode_error s) as [e'|].
    + destruct He as (d' & Hin & Hfl). exists d'. split; [set_solver|done].
    + exists d. split; [set_solver|done].
Qed.

(** One step of a thread. *)
Lemma Inv_pc_step unread pc pcs qs s log failed s' pc' ts :
  Inv unread (pc :: pcs) qs s log failed -> pc_step p s pc s' pc' ts ->
  exists log' failed', Inv unread (pc' :: pcs) (ts ++ qs) s' log' failed'.
Proof.
  intros Hi Hst. destruct Hst as [s o|s o d b c Hd El|s o d c Hd El|s o d|s d b c El|s d c El|s b h Hh|s b h l Hh|s b o l
    |s r e Hcb He|s r h Hh|s d e]; cbn [app].
  2, 3, 5, 6: destruct (Inv_lookup _ _ _ _ _ _ d Hi) as (r & c' & E & Hi' & Hr); rewrite E in El; injection El as -> ->.
  - eexists _, _. by apply Inv_dispatch.
  - destruct Hr. eexists _, _. by eapply Inv_found.
  - eexists _, _. by eapply Inv_missing.
  - destruct Hr. eexists _, _. by eapply Inv_recheck_found.
  - eexists _, _. by eapply Inv_recheck_missing.
  - eexists _, _. by apply Inv_enqueue.
  - eexists _, _. by apply Inv_take_offset.
  - eexists _, _. by apply Inv_take_ref.
  - eexists _, _. by apply Inv_fork.
  - eexists _, _. by eapply Inv_publish.
  - eexists _, _. by apply Inv_insert.
  - eexists _, _. by apply Inv_fail.
Qed.

(** Progress: a thread that is not idle can move. *)
Lemma point_progress unread pc pcs qs s log failed k :
  retention p = false -> Inv unread (pc :: pcs) qs s log failed -> pc <> PIdle ->
  exists s' q ts, exec (pc_prog p pc k) s = Some ((s', q), ts).
Proof.
  intros Hret Hi Hne. pose proof (inv_pcs _ _ _ _ _ _ _ _ _ _ Hi) as Hp. apply Forall_cons in Hp as [Hpc _].
  pose proof (inv_log _ _ _ _ _ _ _ _ _ _ Hi) as Hl. rewrite Forall_forall in Hl.
  destruct pc as [|o|o|o d|d|b|b l|b o l|r|r|d e]; cbn [pc_prog PipelineProofs.pc_ok] in *.
  - done.
  - eexists _, _, _. done.
  - destruct Hpc as [_ Hb]. destruct (dep_of o) as [d|] eqn:Ed; [|apply dep_of_base in Ed; congruence].
    rewrite (process_delta_dependency_Lookup p Hret _ _ _ Ed), exec_Lookup.
    destruct (Inv_lookup _ _ _ _ _ _ d Hi) as (r & c & -> & _). eexists _, _, _. done.
  - destruct d; eexists _, _, _; done.
  - unfold recheck. rewrite exec_Lookup. destruct (Inv_lookup _ _ _ _ _ _ d Hi) as (r & c & -> & _). eexists _, _, _. done.
  - destruct (known_resolved _ (Hl _ Hpc)) as (h & Hh & _). unfold process_waitlist. rewrite Hh. eexists _, _, _. done.
  - destruct Hpc as [Hpc _]. destruct (known_resolved _ (Hl _ Hpc)) as (h & Hh & _). unfold after_hash. rewrite Hh.
    eexists _, _, _. done.
  - eexists _, _, _. done.
  - destruct Hpc as [Hcb Hk]. destruct (known_entry _ Hk) as [e He].
    unfold cache_obj_and_process_waitlist, call_back_if. rewrite Hret, Hcb, He. eexists _, _, _. done.
  - destruct (known_resolved _ Hpc) as (h & Hh & _). unfold after_hash. rewrite Hh. eexists _, _, _. done.
  - eexists _, _, _. done.
Qed.

(** An idle thread counts for nothing. *)
Lemma Inv_idle unread pcs qs s log failed : Inv unread (PIdle :: pcs) qs s log failed <-> Inv unread pcs qs s log failed.
Proof.
  split; intros [? ? ? Hpcs ? ? ? Hc Hn ? ? Hd]; split; try done.
  - by apply Forall_cons in Hpcs as [_ ?].
  - intros d Hw. destruct (Hc d Hw) as [Hx | ?]; [left|by right]. by apply Exists_cons in Hx as [[] | Hx].
  - by constructor.
  - intros d Hw. destruct (Hc d Hw) as [Hx | ?]; [left; by right|by right].
Qed.

(** A thread starts on an entry, from the queue or from the pack. *)
Lemma Inv_start unread pcs qs t pc s log failed :
  Inv unread pcs (t :: qs) s log failed -> pc_ok log pc -> held pc = task_held t ->
  (callback p = true -> inserting pc = []) -> Inv unread (pc :: pcs) qs s log failed.
Proof.
  intros [? ? ? Hpcs Hts ? ? Hc Hn ? ? Hd] Hpc Hheld Hins. apply Forall_cons in Hts as [_ Hts]. split; try done.
  - by constructor.
  - intros d Hw. destruct (Hc d Hw) as [Hx | ?]; [left; by right|by right].
  - intros x. rewrite Hn, !bind_cons, !occ_app, Hheld. lia.
  - destruct (callback p); [|done]. rewrite bind_cons, Hins by done. done.
Qed.

Lemma Inv_read unread o pcs qs pc s log failed :
  Inv (o :: unread) (PIdle :: pcs) qs s log failed -> pc_ok log pc -> held pc = [co_offset o] ->
  (callback p = true -> inserting pc = []) -> Inv unread (pc :: pcs) qs s log failed.
Proof.
  intros Hi Hpc Hheld Hins. destruct (proj1 (Inv_idle _ _ _ _ _ _) Hi) as [? ? ? Hpcs ? Hu ? Hc Hn ? ? Hd].
  apply Forall_cons in Hu as [_ Hu]. split; try done.
  - by constructor.
  - intros d Hw. destruct (Hc d Hw) as [Hx | ?]; [left; by right|by right].
  - intros x. rewrite Hn, !bind_cons, !occ_app, Hheld. cbn [offsets map]. rewrite (occ_cons x (co_offset o) (map _ _)).
    unfold offsets. lia.
  - destruct (callback p); [|done]. rewrite bind_cons, Hins by done. done.
Qed.

(** ** Where a task starts *)

Definition start_pc (t : Task) : Pc :=
  match t with
  | TDecoded o => if is_base o then publish p o else PLookup o
  | TRebuild d b => match rebuild d b with Ok r => publish p r | Err e => PFail d e | _ => PIdle end
  end.

Lemma publish_ok log r : known r -> pc_ok log (publish p r).
Proof. unfold publish. destruct (callback p) eqn:E; by cbn. Qed.

Lemma publish_held r : held (publish p r) = [co_offset r].
Proof. unfold publish. by destruct (callback p). Qed.

Lemma publish_inserting r : callback p = true -> inserting (publish p r) = [].
Proof. unfold publish. by intros ->. Qed.

Lemma served_delta b d : served objs b d -> is_base d = false.
Proof. intros (_ & dep & Hd & _). by eapply delta_not_base. Qed.

Lemma served_rebuild b d : known b -> served objs b d ->
  match rebuild d b with
  | Ok r => known r /\ co_offset r = co_offset d
  | Err e => fails rebuild objs d e
  | Panic | OutOfFuel => False
  end.
Proof.
  intros Hb Hs. pose proof (served_delta _ _ Hs) as Hnb. pose proof (known_resolved _ Hb) as Hrb.
  destruct Hs as (Hin & dep & Hd & Hp). destruct Hb as [o Ho].
  pose proof (po_rebuild _ _ Hok d b Hin Hnb Hrb) as Hx. destruct (rebuild d b) as [r|e| |] eqn:E; try done.
  - split; [|apply Hx]. exists d. by econstructor.
  - exists dep, o, b. split_and!; done.
Qed.

Lemma Inv_start_task unread pcs qs t s log failed :
  Inv unread pcs (t :: qs) s log failed -> Inv unread (start_pc t :: pcs) qs s log failed.
Proof.
  intros Hi. pose proof (inv_tasks _ _ _ _ _ _ _ _ _ _ Hi) as Ht. apply Forall_cons in Ht as [Ht _].
  destruct t as [o|d b]; cbn [start_pc task_ok] in *.
  - destruct (is_base o) eqn:Eb; (eapply Inv_start; [exact Hi| | |]); auto using publish_held, publish_inserting; try done.
    apply publish_ok. exists o. by constructor.
  - destruct Ht as [Hb Hs]. pose proof (served_rebuild _ _ Hb Hs) as Hr. destruct (rebuild d b) as [r|e| |]; try done.
    + destruct Hr as [Hk Ho]. eapply Inv_start; [exact Hi|by apply publish_ok| |by apply publish_inserting].
      rewrite publish_held. cbn. by rewrite Ho.
    + eapply Inv_start; [exact Hi|done..].
Qed.

End preservation.

(** * The machine *)

(** How many more steps a thread, a task or a waiting object can cause. *)
Definition cost (pc : Pc) : nat :=
  match pc with
  | PIdle => 0
  | PFail _ _ => 1
  | PTakeOffset _ => 2
  | PTakeRef _ l => 1 + 8 * length l
  | PFork _ _ l => 8 * S (length l)
  | PInsert _ | PRecheck _ => 3
  | PPublish _ => 4
  | PEnqueue _ _ => 12
  | PLookup _ => 13
  | PDispatch _ => 16
  end.

Definition task_cost (t : Task) : nat := match t with TDecoded _ => 15 | TRebuild _ _ => 7 end.

Definition total {A} (f : A -> nat) (l : list A) : nat := foldr (fun x n => f x + n)%nat 0%nat l.

Lemma total_app {A} (f : A -> nat) l1 l2 : total f (l1 ++ l2) = (total f l1 + total f l2)%nat.
Proof. unfold total. induction l1 as [|x l1 IH]; cbn; [done|]. rewrite IH. lia. Qed.

Lemma total_cons {A} (f : A -> nat) x l : total f (x :: l) = (f x + total f l)%nat.
Proof. done. Qed.

Lemma cost_fork b l : cost (fork b l) = (8 * length l)%nat.
Proof. by destruct l. Qed.

Lemma pc_step_cost `{HexCrate} `{LruCache} p s pc s' pc' ts :
  pc_step p s pc s' pc' ts ->
  (cost pc' + total task_cost ts + 8 * length (waiting (waitlist s')) < cost pc + 8 * length (waiting (waitlist s)))%nat.
Proof.
  intros Hst. destruct Hst as [s o|s o d b c Hd El|s o d c Hd El|s o d|s d b c El|s d c El|s b h Hh|s b h l Hh|s b o l
    |s r e Hcb He|s r h Hh|s d e]; cbn [waitlist with_waitlist with_caches deliver record_error with_error]; rewrite ?cost_fork.
  4: rewrite waiting_push; cbn; lia.
  6: pose proof (Permutation_length (waiting_drop (waitlist s) (OnOffset (co_offset b)))) as Hl; rewrite length_app in Hl;
    unfold total; cbn [cost foldr]; lia.
  6: pose proof (Permutation_length (waiting_drop (waitlist s) (OnHash h))) as Hl; rewrite length_app in Hl;
    rewrite length_app; unfold total; cbn [cost foldr]; lia.
  all: cbn; lia.
Qed.

(** The sequential reading of the entries of a stream. *)
Fixpoint read_objects `{Build} `{TextEnv} `{HexCrate} `{Hasher} `{ZlibDecoder} `{Crc32} (p : SharedParams)
  (kind : HashKind.t) (n : nat) (pack : bytes) (offset : Z) : Res GitError (list CacheObject * bytes) :=
  match n with
  | O => Ok ([], pack)
  | S n =>
      let! '((obj, offset), rest) :=
        decode_pack_object_with_crc kind pack offset (callback p) (skip_unneeded_objects p) (callback p && low_memory p)
          None None None in
      let! '(l, rest) := read_objects p kind n rest offset in
      Ok (option_list obj ++ l, rest)
  end.

(** A program of the reading thread that returns [r] in at most [n] steps, once the pool is
    empty, without reading an entry or calling the callback. *)
Inductive leads `{HexCrate} `{LruCache} : nat -> prog -> Shared -> Res GitError unit -> Prop :=
| leads_return n s r : leads n (Return r) s r
| leads_exec n q s s' q' r :
    (forall k, q <> ReadRetention k) -> exec q s = Some ((s', q'), []) -> delivered s' = delivered s -> leads n q' s' r -> leads (S n) q s r
| leads_join n k s r : leads n k s r -> leads (S n) (Join k) s r.

Section machine.
Context `{Build} `{TextEnv} `{HexCrate} `{!HexLaws} `{Hasher} `{ZlibDecoder} `{Crc32} `{LruCache} `{!LruLaws} `{Allocator}.
Context (delta_error_text : GitDeltaError -> bytes) (zstdelta_apply : bytes -> bytes -> Res bytes bytes).
Context (p : SharedParams) (Hret : retention p = false) (kind : HashKind.t) (mem : option Z).
Abbreviation rb := (rebuild delta_error_text zstdelta_apply).
Abbreviation step := (step delta_error_text zstdelta_apply p).

Context (objs : list CacheObject) (Hok : pack_ok rb objs).
Context (Hfits : mem = None -> forall rs, Forall (known rb objs) rs -> NoDup (offsets rs) -> footprint rs <= usize_max).

(** The trailer was read: [number] objects are declared. *)
Context (number : Z) (Hnumber : blen objs <= number) (pack_id_callback : bool) (signature : ObjectHash.t).
Context (tail : bytes -> prog) (rest : bytes) (Htail : tail rest = finish_decode number pack_id_callback signature).

(** What the whole decoding achieves. *)
Definition all_resolve : Prop := forall o, o ∈ objs -> exists r, resolves rb objs o r.

Definition outcome (r : Res GitError unit) (entries : list (MetaAttached Entry EntryMeta)) : Prop :=
  match r with
  | Ok _ => exists rs, Forall2 (resolves rb objs) objs rs
              /\ if callback p then Permutation (map Ok entries) (map (callback_entry_ref p) rs) else entries = []
  | Err _ => ~ all_resolve
  | Panic | OutOfFuel => False
  end.

Lemma task_prog_start t : task_ok rb objs t ->
  task_prog delta_error_text zstdelta_apply p t = pc_prog p (start_pc rb p t) Done.
Proof.
  destruct t as [o|d b]; cbn [task_prog start_pc].
  - unfold is_base. destruct (info o) eqn:E; cbn; try done. by rewrite pc_prog_publish.
  - intros [Hb Hs]. pose proof (served_rebuild _ _ Hok _ _ Hb Hs) as Hr. destruct (rb d b) eqn:E; try done.
    by rewrite pc_prog_publish.
Qed.

(** ** Quiescence *)

(** Everything is somewhere. *)
Lemma quiescent_count s log failed :
  Inv rb objs p mem [] [] [] s log failed ->
  Permutation (offsets objs) (offsets (waiting (waitlist s) ++ log ++ failed)).
Proof.
  intros Hi. apply occ_perm. intros x. rewrite (inv_count _ _ _ _ _ _ _ _ _ _ Hi x), !offsets_app, !occ_app. cbn. lia.
Qed.

Lemma offset_known o r : o ∈ objs -> known rb objs r -> co_offset r = co_offset o -> resolves rb objs o r.
Proof.
  intros Hin [o' Ho'] E. destruct (resolves_resolved _ _ Hok _ _ Ho') as [_ Eo].
  rewrite <- (same_offset_same _ _ Hok o' o); [done|by eapply resolves_in|done|congruence].
Qed.

Lemma waiting_delta s log failed x :
  Inv rb objs p mem [] [] [] s log failed -> x ∈ waiting (waitlist s) ->
  x ∈ objs /\ exists d, dep_of x = Some d /\ forall b, b ∈ log -> ~ provides b d.
Proof.
  intros Hi Hx. assert (exists d l, waits (waitlist s) d = Some l /\ x ∈ l) as (d & l & Hw & Hl).
  { apply elem_of_app in Hx. unfold values in Hx. rewrite !list_elem_of_In, !in_concat in Hx.
    destruct Hx as [(l & Hl & Hx) | (l & Hl & Hx)]; apply list_elem_of_In in Hl, Hx;
      apply list_elem_of_fmap in Hl as ([k l'] & -> & Hl);
      apply elem_of_map_to_list in Hl; [exists (OnOffset k)|exists (OnHash k)]; by exists l'. }
  destruct (inv_waits _ _ _ _ _ _ _ _ _ _ Hi d l Hw) as [_ Hf]. rewrite Forall_forall in Hf. destruct (Hf _ Hl) as [Hin Hd].
  split; [done|]. exists d. split; [done|].
  destruct (inv_cover _ _ _ _ _ _ _ _ _ _ Hi d) as [Hex | Hno]; [by exists l|by apply Exists_nil in Hex|done].
Qed.

(** What resolves has been stored, when nothing failed. *)
Lemma quiescent_stored s log o r :
  Inv rb objs p mem [] [] [] s log [] -> resolves rb objs o r -> r ∈ log.
Proof.
  intros Hi Hr. pose proof (quiescent_count _ _ _ Hi) as Hperm. rewrite app_nil_r in Hperm.
  pose proof (inv_log _ _ _ _ _ _ _ _ _ _ Hi) as Hlog. rewrite Forall_forall in Hlog.
  assert (Hplace : forall o r, resolves rb objs o r -> o ∈ waiting (waitlist s) \/ r ∈ log).
  { intros o1 r1 Hr1. pose proof (resolves_in _ _ _ _ Hr1) as Hin.
    assert (Hx : co_offset o1 ∈ offsets objs) by by apply list_elem_of_fmap_2.
    rewrite Hperm, offsets_app, elem_of_app in Hx. unfold offsets in Hx. rewrite !list_elem_of_fmap in Hx.
    destruct Hx as [(x & E & Hx) | (x & E & Hx)].
    - left. destruct (waiting_delta _ _ _ _ Hi Hx) as [Hxo _]. by rewrite (same_offset_same _ _ Hok o1 x).
    - right. rewrite (resolves_det _ _ Hok o1 r1 o1 x); [done|done| |done]. apply offset_known; [done|by apply Hlog|done]. }
  induction Hr as [o Hin Hb|d dep b b' r Hd Hdep Hb IH Hp Hr].
  - destruct (Hplace o o) as [Hx | Hx]; [by constructor| |done]. destruct (waiting_delta _ _ _ _ Hi Hx) as (_ & d & Hd & _).
    apply dep_of_base in Hb. congruence.
  - destruct (Hplace d r) as [Hx | Hx]; [by econstructor| |done]. destruct (waiting_delta _ _ _ _ Hi Hx) as (_ & d' & Hd' & Hno).
    assert (d' = dep) as -> by congruence. by destruct (Hno b').
Qed.

(** When the pool is empty and nothing failed, something waits exactly when something does
    not resolve. *)
Lemma quiescent_complete s log :
  Inv rb objs p mem [] [] [] s log [] -> waiting (waitlist s) = [] <-> all_resolve.
Proof.
  intros Hi. pose proof (quiescent_count _ _ _ Hi) as Hperm. rewrite app_nil_r in Hperm. split.
  - intros Hw o Ho. rewrite Hw in Hperm. assert (Hx : co_offset o ∈ offsets objs) by by apply list_elem_of_fmap_2.
    rewrite Hperm in Hx. apply list_elem_of_fmap in Hx as (r & E & Hr). exists r. apply offset_known; [done| |done].
    pose proof (inv_log _ _ _ _ _ _ _ _ _ _ Hi) as Hlog. rewrite Forall_forall in Hlog. by apply Hlog.
  - intros Hall. destruct (waiting (waitlist s)) as [|x l] eqn:Ew; [done|]. exfalso.
    destruct (waiting_delta s log [] x Hi) as (Hin & d & Hd & Hno); [rewrite Ew; set_solver|].
    destruct (Hall x Hin) as [r Hr]. destruct Hr as [o _ Hb|x dep b b' r _ Hdep Hb Hp Hr].
    + apply dep_of_base in Hb. congruence.
    + assert (dep = d) as -> by congruence. apply (Hno b'); [|done]. by eapply quiescent_stored.
Qed.

(** The stored objects are what the entries stand for. *)
Lemma quiescent_objects s log :
  Inv rb objs p mem [] [] [] s log [] -> waiting (waitlist s) = [] ->
  exists rs, Forall2 (resolves rb objs) objs rs /\ Permutation log rs.
Proof.
  intros Hi Hw. pose proof (quiescent_count _ _ _ Hi) as Hperm. rewrite app_nil_r, Hw in Hperm. cbn in Hperm.
  destruct (Permutation_map_inv _ _ Hperm) as (rs & E & Hp). exists rs. split; [|done].
  pose proof (inv_log _ _ _ _ _ _ _ _ _ _ Hi) as Hlog. rewrite Hp in Hlog. clear Hp Hperm.
  assert (Hall : forall l rs, Forall (fun o => o ∈ objs) l -> map co_offset l = map co_offset rs ->
    Forall (known rb objs) rs -> Forall2 (resolves rb objs) l rs).
  { induction l as [|o l IH]; intros [|r rs'] Hl E' Hk; try discriminate E'; [constructor|].
    injection E' as Eo E'. apply Forall_cons in Hl as [Ho Hl], Hk as [Hr Hk]. constructor; [by apply offset_known|by apply IH]. }
  apply Hall; [by apply Forall_forall|done|done].
Qed.

(** ** The end of the decoding *)

Lemma leads_abort n (e : GitError) (s : Shared) : leads (S (S n)) (abort_decode e) s (Err e).
Proof. apply leads_join. eapply leads_exec; [done..|]. apply leads_return. Qed.

Lemma leads_mono n m q (s : Shared) r : leads n q s r -> (n <= m)%nat -> leads m q s r.
Proof.
  intros Hl. revert m. induction Hl; intros m Hm; [constructor|..]; (destruct m as [|m]; [lia|]).
  - eapply leads_exec; [done..|]. apply IHHl. lia.
  - apply leads_join, IHHl. lia.
Qed.

(** The verdict on a state where no task is left. *)
Definition verdict (w : Waitlist) : Res GitError unit :=
  if bool_decide (wl_offset w = ∅) && bool_decide (wl_ref w = ∅) then Ok tt else Err (thin_pack w).

Lemma check_decoded_leads s w :
  waitlist s = w -> total_inserted (caches s) <= number -> leads 5 (check_decoded number) s (verdict w).
Proof.
  intros <- Hle. eapply leads_exec; [done..|]. unfold verdict. destruct (_ && _); [|apply leads_abort].
  eapply leads_exec; [done..|]. replace (number <? _) with false by lia. eapply leads_exec; [done..|]. apply leads_return.
Qed.

Lemma verdict_outcome s log : Inv rb objs p mem [] [] [] s log [] -> outcome (verdict (waitlist s)) (delivered s).
Proof.
  intros Hi. pose proof (quiescent_complete _ _ Hi) as Hq.
  pose proof (waiting_nil (waitlist s) (fun d l Hw => proj1 (inv_waits _ _ _ _ _ _ _ _ _ _ Hi d l Hw))) as Hnil.
  unfold verdict. destruct (bool_decide (wl_offset _ = ∅) && _) eqn:E.
  - apply andb_true_iff in E as [E1 E2]. apply bool_decide_eq_true in E1, E2.
    assert (Hw : waiting (waitlist s) = []) by by apply Hnil. destruct (quiescent_objects _ _ Hi Hw) as (rs & Hrs & Hp).
    exists rs. split; [done|]. pose proof (inv_delivered _ _ _ _ _ _ _ _ _ _ Hi) as Hd.
    destruct (callback p); [|done]. by rewrite Hd, app_nil_r, Hp.
  - cbn. rewrite <- Hq, Hnil. intros [E1 E2]. apply andb_false_iff in E as [E | E]; apply bool_decide_eq_false in E; done.
Qed.

Lemma finish_leads s log failed :
  Inv rb objs p mem [] [] [] s log failed ->
  exists k r, finish_decode number pack_id_callback signature = Join k /\ leads 7 k s r /\ outcome r (delivered s).
Proof.
  intros Hi. unfold finish_decode. eexists. pose proof (inv_error _ _ _ _ _ _ _ _ _ _ Hi) as He.
  destruct (decode_error s) as [e|] eqn:Ee.
  - exists (Err e). split; [done|]. split.
    + eapply leads_exec; [done..|]. cbn. rewrite Ee. apply leads_abort.
    + destruct He as (d & Hd & Hf). intros Hall. destruct (Hall d) as [r Hr]; [by destruct Hf as (? & ? & ? & ? & _)|].
      by eapply (fails_not_resolves _ _ Hok d e r).
  - subst failed. exists (verdict (waitlist s)). split; [done|]. split; [|by eapply verdict_outcome].
    assert (Hle : total_inserted (caches s) <= number).
    { pose proof (total_inserted_le _ _ (inv_cache _ _ _ _ _ _ _ _ _ _ Hi)) as Hle.
      pose proof (Permutation_length (quiescent_count _ _ _ Hi)) as Hlen. unfold offsets in Hlen.
      rewrite !length_map, !length_app in Hlen. unfold blen in *. lia. }
    eapply leads_exec; [done..|]. cbn. rewrite Ee. destruct pack_id_callback.
    + eapply leads_exec; [done..|]. by apply check_decoded_leads.
    + eapply leads_mono; [by apply check_decoded_leads|lia].
Qed.

(** ** The invariant of the machine *)

(** The states of a run, with a bound on the steps left. *)
Inductive machine_inv (m : nat) (st : State) : Prop :=
| mi_reading pc n i entries offset unread pcs log failed :
    main st = pc_prog p pc (decode_objects p kind streaming n i entries offset tail) ->
    read_objects p kind n entries offset = Ok (unread, rest) ->
    running st = map (fun pc => pc_prog p pc Done) pcs ->
    Inv rb objs p mem unread (pc :: pcs) (queued st) (shared st) log failed ->
    (17 * n + cost pc + total (fun pc => S (cost pc)) pcs + total task_cost (queued st)
       + 8 * length (waiting (waitlist (shared st))) + 8 <= m)%nat ->
    machine_inv m st
| mi_finishing r :
    queued st = [] -> running st = [] -> leads m (main st) (shared st) r -> outcome r (delivered (shared st)) ->
    machine_inv m st.

(** What the reading thread does with an entry. *)
Lemma dispatch_point o k :
  dispatch p streaming o k = pc_prog p (if is_base o && negb (callback p) then PInsert o else PDispatch o) k.
Proof.
  unfold dispatch, try_process_skipped_low_memory_callback_object, should_drop_no_callback_base.
  rewrite Hret, andb_false_r. destruct (_ || _); cbn [negb]; rewrite ?orb_false_r;
    (destruct (is_base o), (callback p) eqn:Ec; cbn [andb negb]; try done);
    unfold cache_obj_and_process_waitlist, call_back_if; by rewrite Hret, Ec.
Qed.

(** A step of a thread at a point. *)
Lemma Inv_exec unread pc pcs qs s log failed k s' q ts :
  Inv rb objs p mem unread (pc :: pcs) qs s log failed -> pc <> PIdle ->
  exec (pc_prog p pc k) s = Some ((s', q), ts) ->
  exists pc' log' failed', q = pc_prog p pc' k /\ Inv rb objs p mem unread (pc' :: pcs) (qs ++ ts) s' log' failed'
    /\ (cost pc' + total task_cost (qs ++ ts) + 8 * length (waiting (waitlist s'))
         < cost pc + total task_cost qs + 8 * length (waiting (waitlist s)))%nat.
Proof.
  intros Hi Hne Hx. destruct (exec_point p Hret pc k s s' q ts) as (pc' & Hst & ->); [done| |done|].
  { intros r ->. pose proof (inv_pcs _ _ _ _ _ _ _ _ _ _ Hi) as Hp. by apply Forall_cons in Hp as [[? _] _]. }
  destruct (Inv_pc_step _ _ _ Hok _ Hfits _ _ _ _ _ _ _ _ _ _ Hi Hst) as (log' & failed' & Hi').
  pose proof (pc_step_cost _ _ _ _ _ _ Hst) as Hc. exists pc', log', failed'. split; [done|].
  split; [|rewrite total_app; lia]. eapply Inv_tasks_perm; [|exact Hi']. apply Permutation_app_comm.
Qed.

(** A step of the reading thread between two entries. *)
Lemma Inv_next n i entries offset unread pcs qs s log failed s' q ts :
  read_objects p kind (S n) entries offset = Ok (unread, rest) ->
  Inv rb objs p mem unread (PIdle :: pcs) qs s log failed ->
  exec (decode_objects p kind streaming (S n) i entries offset tail) s = Some ((s', q), ts) ->
  exists pc entries' offset' unread', s' = s /\ ts = [] /\ (cost pc <= 16)%nat
    /\ q = pc_prog p pc (decode_objects p kind streaming n (i + 1) entries' offset' tail)
    /\ read_objects p kind n entries' offset' = Ok (unread', rest)
    /\ Inv rb objs p mem unread' (pc :: pcs) qs s log failed.
Proof.
  intros Hread Hi Hx. cbn in Hread, Hx. injection Hx as <- <- <-. unfold track_crc. cbn. rewrite Hret, orb_false_r.
  destruct (decode_pack_object_with_crc _ _ _ _ _ _ _ _ _) as [[[o off] rest']| | |]; try discriminate Hread. cbn in Hread.
  destruct (read_objects p kind n rest' off) as [[l r0]| | |] eqn:El; try discriminate Hread. cbn in Hread.
  injection Hread as <- <-. destruct o as [o|].
  - exists (if is_base o && negb (callback p) then PInsert o else PDispatch o), rest', off, l.
    rewrite dispatch_point. split_and!; try done; [by destruct (_ && _); cbn; lia|].
    pose proof (inv_unread _ _ _ _ _ _ _ _ _ _ Hi) as Hu. apply Forall_cons in Hu as [Ho _].
    eapply Inv_read; [exact Hi| | |]; destruct (is_base o) eqn:Eb, (callback p) eqn:Ec; try done.
    cbn. exists o. by constructor.
  - exists PIdle, rest', off, l. split_and!; try done. cbn. lia.
Qed.

Lemma start_cost t : task_ok rb objs t -> (S (cost (start_pc rb p t)) < task_cost t)%nat.
Proof.
  destruct t as [o|d b]; cbn [start_pc task_cost].
  - intros _. unfold publish. destruct (is_base o), (callback p); cbn; lia.
  - intros _. unfold publish. destruct (rb d b), (callback p); cbn; lia.
Qed.

(** A thread that cannot move is idle. *)
Lemma stuck_idle unread pc pcs qs s log failed k :
  Inv rb objs p mem unread (pc :: pcs) qs s log failed -> exec (pc_prog p pc k) s = None -> pc = PIdle.
Proof.
  intros Hi Hx. destruct (decide (cost pc = 0%nat)) as [Hz | Hz]; [by destruct pc|].
  destruct (point_progress _ _ _ Hok mem unread pc pcs qs s log failed k Hret Hi) as (s' & q & ts & E); [by intros ->|].
  congruence.
Qed.

Lemma map_split {A B} (f : A -> B) l l1 y l2 :
  map f l = l1 ++ y :: l2 -> exists k1 x k2, l = k1 ++ x :: k2 /\ l1 = map f k1 /\ y = f x /\ l2 = map f k2.
Proof.
  intros E. apply map_eq_app in E as (k1 & k & -> & <- & E). destruct k as [|x k2]; [done|].
  cbn in E. injection E as <- <-. by exists k1, x, k2.
Qed.

Lemma machine_main m m0 qs rs s s' m' ts :
  machine_inv m (mkState m0 qs rs s) -> exec m0 s = Some ((s', m'), ts) ->
  exists m1, (m1 < m)%nat /\ machine_inv m1 (mkState m' (qs ++ ts) rs s').
Proof.
  intros [pc n i entries off unread pcs log failed Hm Hread Hrun Hi Hcost | r Hq Hrun Hl Ho] Hx; cbn [main queued running shared] in *.
  - subst m0. destruct (decide (pc = PIdle)) as [-> | Hne]; [destruct n as [|n]|].
    + cbn in Hread, Hx. injection Hread as <- ->. by rewrite Htail in Hx.
    + destruct (Inv_next _ _ _ _ _ _ _ _ _ _ _ _ _ Hread Hi Hx) as (pc & e' & o' & u' & -> & -> & Hc & -> & Hr' & Hi').
      rewrite app_nil_r. exists (pred m). split; [lia|]. eapply mi_reading; try done; cbn [main queued running shared] in *; lia.
    + destruct (Inv_exec _ _ _ _ _ _ _ _ _ _ _ Hi Hne Hx) as (pc' & log' & failed' & -> & Hi' & Hc).
      exists (pred m). split; [lia|]. eapply mi_reading; try done; cbn [main queued running shared] in *; lia.
  - subst qs rs. inversion Hl as [|n q ? s1 q1 ? Hnr Hx1 Hd Hl1|]; subst; try discriminate Hx.
    rewrite Hx1 in Hx. injection Hx as <- <- <-. exists n. split; [lia|]. eapply mi_finishing; try done. cbn. by rewrite Hd.
Qed.

Lemma machine_join m k s :
  machine_inv m (mkState (Join k) [] [] s) -> exists m1, (m1 < m)%nat /\ machine_inv m1 (mkState k [] [] s).
Proof.
  intros [pc n i entries off unread pcs log failed Hm Hread Hrun Hi Hcost | r Hq Hrun Hl Ho]; cbn [main queued running shared] in *.
  - assert (pc = PIdle) as ->. { eapply stuck_idle; [exact Hi|]. by rewrite <- Hm. }
    destruct n as [|n]; [|discriminate Hm]. cbn in Hread, Hm. injection Hread as <- ->. rewrite Htail in Hm.
    symmetry in Hrun. apply map_eq_nil in Hrun as ->. apply (proj1 (Inv_idle _ _ _ _ _ _ _ _ _ _)) in Hi.
    destruct (finish_leads _ _ _ Hi) as (k' & r & Ek & Hl & Ho). rewrite Ek in Hm. injection Hm as <-.
    exists 7%nat. split; [lia|]. by eapply mi_finishing.
  - inversion Hl as [| |n k' ? ? Hl1]; subst; [done|]. exists n. split; [lia|]. by eapply mi_finishing.
Qed.

Lemma machine_start m m0 qs1 t qs2 rs s :
  machine_inv m (mkState m0 (qs1 ++ t :: qs2) rs s) ->
  exists m1, (m1 < m)%nat /\
    machine_inv m1 (mkState m0 (qs1 ++ qs2) (task_prog delta_error_text zstdelta_apply p t :: rs) s).
Proof.
  intros [pc n i entries off unread pcs log failed Hm Hread Hrun Hi Hcost | r Hq Hrun Hl Ho]; cbn [main queued running shared] in *; [|by destruct qs1].
  assert (Hi2 : Inv rb objs p mem unread (pc :: pcs) (t :: qs1 ++ qs2) s log failed).
  { eapply Inv_tasks_perm; [|exact Hi]. by rewrite Permutation_middle. }
  pose proof (inv_tasks _ _ _ _ _ _ _ _ _ _ Hi2) as Ht. apply Forall_cons in Ht as [Ht _].
  pose proof (start_cost t Ht) as Hc. rewrite !total_app, total_cons in Hcost.
  exists (pred m). split; [lia|]. eapply (mi_reading _ _ pc n i entries off unread (start_pc rb p t :: pcs)); try done; cbn [main queued running shared].
  - by rewrite (task_prog_start t Ht), Hrun.
  - eapply Inv_pcs_perm; [|apply (Inv_start_task _ _ _ Hok _ _ _ _ _ _ _ _ Hi2)]. constructor.
  - rewrite total_app. rewrite total_cons. lia.
Qed.

Lemma machine_run m m0 qs rs1 q rs2 s s' q' ts :
  machine_inv m (mkState m0 qs (rs1 ++ q :: rs2) s) -> exec q s = Some ((s', q'), ts) ->
  exists m1, (m1 < m)%nat /\ machine_inv m1 (mkState m0 (qs ++ ts) (rs1 ++ q' :: rs2) s').
Proof.
  intros [pc n i entries off unread pcs log failed Hm Hread Hrun Hi Hcost | r Hq Hrun Hl Ho] Hx; cbn [main queued running shared] in *; [|by destruct rs1].
  symmetry in Hrun. apply map_split in Hrun as (k1 & x & k2 & -> & -> & -> & ->).
  assert (Hi2 : Inv rb objs p mem unread (x :: pc :: k1 ++ k2) qs s log failed).
  { eapply Inv_pcs_perm; [|exact Hi]. rewrite <- Permutation_middle. constructor. }
  destruct (Inv_exec _ _ _ _ _ _ _ _ _ _ _ Hi2 ltac:(by intros ->) Hx) as (pc' & log' & failed' & -> & Hi' & Hc).
  rewrite !total_app, total_cons in Hcost.
  exists (pred m). split; [lia|]. eapply (mi_reading _ _ pc n i entries off unread (k1 ++ pc' :: k2)); try done; cbn [main queued running shared].
  - by rewrite map_app.
  - eapply Inv_pcs_perm; [|exact Hi']. rewrite <- Permutation_middle. constructor.
  - rewrite !total_app, total_cons. rewrite total_app in Hc. lia.
Qed.

Lemma machine_exit m m0 qs rs1 q rs2 s :
  machine_inv m (mkState m0 qs (rs1 ++ q :: rs2) s) -> over q = true ->
  exists m1, (m1 < m)%nat /\ machine_inv m1 (mkState m0 qs (rs1 ++ rs2) s).
Proof.
  intros [pc n i entries off unread pcs log failed Hm Hread Hrun Hi Hcost | r Hq Hrun Hl Ho] Hx; cbn [main queued running shared] in *; [|by destruct rs1].
  symmetry in Hrun. apply map_split in Hrun as (k1 & x & k2 & -> & -> & -> & ->).
  assert (Hi2 : Inv rb objs p mem unread (x :: pc :: k1 ++ k2) qs s log failed).
  { eapply Inv_pcs_perm; [|exact Hi]. rewrite <- Permutation_middle. constructor. }
  assert (x = PIdle) as ->. { apply (stuck_idle _ _ _ _ _ _ _ Done Hi2). revert Hx; by destruct (pc_prog p x Done). }
  apply (proj1 (Inv_idle _ _ _ _ _ _ _ _ _ _)) in Hi2. rewrite !total_app, total_cons in Hcost.
  exists (pred m). split; [lia|]. eapply (mi_reading _ _ pc n i entries off unread (k1 ++ k2)); try done; cbn [main queued running shared].
  - by rewrite map_app.
  - rewrite !total_app. lia.
Qed.

Lemma machine_step m st st' : machine_inv m st -> step st st' -> exists m', (m' < m)%nat /\ machine_inv m' st'.
Proof.
  intros Hi Hst. destruct Hst; [by eapply machine_main|by apply machine_join|by apply machine_start
    |by eapply machine_run|by eapply machine_exit].
Qed.

Lemma machine_steps k m st st' : machine_inv m st -> steps delta_error_text zstdelta_apply p k st st' ->
  exists m', (m' + k <= m)%nat /\ machine_inv m' st'.
Proof.
  intros Hi Hst. revert m Hi. induction Hst as [st|k st1 st2 st3 H12 H23 IH]; intros m Hi; [exists m; by rewrite Nat.add_0_r|].
  destruct (machine_step _ _ _ Hi H12) as (m1 & Hlt & Hi1). destruct (IH _ Hi1) as (m' & Hle & Hi'). exists m'. split; [lia|done].
Qed.

(** Once the reading thread has returned, the result is there. *)
Lemma machine_returned m st r : machine_inv m st -> main st = Return r -> outcome r (delivered (shared st)).
Proof.
  destruct st as [m0 qs rs s]. intros [pc n i entries off unread pcs log failed Hm Hread Hrun Hi Hcost | r' Hq Hrun Hl Ho] Hr;
    cbn [main queued running shared] in *; subst m0.
  - exfalso. assert (Hx : exec (pc_prog p pc (decode_objects p kind streaming n i entries off tail)) s = None) by by rewrite Hr.
    rewrite (stuck_idle _ _ _ _ _ _ _ _ Hi Hx) in Hr.
    destruct n as [|n]; cbn in Hread, Hr; [|done]. injection Hread as <- ->. by rewrite Htail in Hr.
  - inversion Hl as [|? ? ? ? ? ? ? Hx1|]; subst; [done|discriminate Hx1].
Qed.

(** While the reading thread is about to read an entry, every delta that waits is an entry of the pack, each
    waiting once. *)
Lemma machine_waiting m st k : machine_inv m st -> main st = ReadRetention k ->
  NoDup (waiting (waitlist (shared st))) /\ Forall (fun x => x ∈ objs /\ is_base x = false) (waiting (waitlist (shared st))).
Proof.
  intros [pc n i entries off unread pcs log failed Hm Hread Hrun Hi Hcost | r Hq Hrun Hl Ho] Hk.
  2:{ exfalso. inversion Hl as [|? ? ? ? ? ? Hnr|]; subst; congruence. }
  destruct Hi as [_ _ _ _ _ _ Hw _ Hc _ _ _]. split.
  - apply (NoDup_fmap_1 co_offset). change (NoDup (offsets (waiting (waitlist (shared st))))). apply NoDup_ListNoDup, (NoDup_count_occ Z.eq_dec). intros x.
    pose proof (proj1 (NoDup_count_occ Z.eq_dec (offsets objs)) (proj1 (NoDup_ListNoDup _) (po_offsets _ _ Hok)) x) as Hle.
    specialize (Hc x). unfold occ in Hc. lia.
  - assert (Hv : forall d l x, waits (waitlist (shared st)) d = Some l -> x ∈ l -> x ∈ objs /\ is_base x = false).
    { intros d l x Hl Hx. destruct (Hw d l Hl) as [_ Hf]. rewrite Forall_forall in Hf. destruct (Hf x Hx) as [Ho Hd]. split; [done|].
      unfold dep_of, is_base in *. by destruct (info x). }
    unfold waiting, values. apply Forall_app. split; apply Forall_concat, Forall_fmap, Forall_forall; intros [key l] Hin; cbn;
      apply elem_of_map_to_list in Hin; apply Forall_forall; intros x Hx; [by apply (Hv (OnOffset key) l)|by apply (Hv (OnHash key) l)].
Qed.

(** Workers that can neither go on nor leave are not there. *)
Lemma machine_idle m st : machine_inv m st -> (forall q, q ∈ running st -> over q = false /\ exec q (shared st) = None) ->
  queued st = [] -> running st = [].
Proof.
  destruct st as [m0 qs rs s]. cbn [main queued running shared]. intros Hi Hstuck ->. destruct rs as [|q rs]; [done|]. exfalso.
  destruct Hi as [pc n i entries off unread pcs log failed Hm Hread Hrun Hi Hcost|]; [|done].
  cbn [main queued running shared] in *. destruct pcs as [|x pcs]; [done|]. injection Hrun as -> ->.
  assert (Hi2 : Inv rb objs p mem unread (x :: pc :: pcs) [] s log failed).
  { eapply Inv_pcs_perm; [|exact Hi]. constructor. }
  destruct (Hstuck (pc_prog p x Done)) as [Ho Hx]; [left|]. rewrite (stuck_idle _ _ _ _ _ _ _ _ Hi2 Hx) in Ho. discriminate Ho.
Qed.

(** A run that cannot be continued is over. *)
Lemma machine_final m st : machine_inv m st -> (forall st', ~ step st st') ->
  exists r, main st = Return r /\ queued st = [] /\ running st = [] /\ outcome r (delivered (shared st)).
Proof.
  intros Hi Hno. destruct st as [m0 qs rs s].
  assert (qs = []) as ->. { destruct qs as [|t qs]; [done|]. exfalso. eapply Hno. by apply (step_start _ _ _ m0 [] t qs). }
  assert (rs = []) as ->.
  { apply (machine_idle _ _ Hi); [|done]. intros q Hq. cbn [running shared] in *. apply list_elem_of_split in Hq as (l1 & l2 & ->). split.
    - destruct (over q) eqn:E; [|done]. exfalso. eapply Hno. by apply (step_exit _ _ _ m0 [] l1 q l2).
    - destruct (exec q s) as [[[s' q'] ts]|] eqn:E; [|done]. exfalso. eapply Hno. by apply (step_run _ _ _ m0 [] l1 q l2). }
  assert (Hmain : exec m0 s = None /\ forall k, m0 <> Join k).
  { split; [|intros k ->; eapply Hno; apply step_join]. destruct (exec m0 s) as [[[s' q'] ts]|] eqn:E; [|done].
    exfalso. eapply Hno. eapply step_main. exact E. }
  destruct Hmain as [Hx Hj].
  destruct Hi as [pc n i entries off unread pcs log failed Hm Hread Hrun Hi Hcost | r Hq Hrun Hl Ho]; cbn [main queued running shared] in *.
  - exfalso. assert (pc = PIdle) as -> by (eapply stuck_idle; [exact Hi|]; by rewrite <- Hm).
    destruct n as [|n]; cbn in Hread, Hm; [|by subst m0]. injection Hread as <- ->. rewrite Htail in Hm. by eapply Hj.
  - exists r. inversion Hl as [|? ? ? ? ? ? ? Hx1|n k]; subst; [done|congruence|]. by destruct (Hj k).
Qed.

End machine.
