(* ===== verification/DecodeStream.v ===== *)
(** Decoding a stream from its first byte to the result: what the entries of a pack
    guarantee to the pipeline, and the theorems on all schedules of
    [Pack::decode] / [decode_without_callback] on a stream.  The last part is the
    schedule under which the retention table loses a waiting delta. *)

From Stdlib Require Import ZArith Lia String.
From stdpp Require Import base tactics list numbers option gmap.
From S2P Require Import Prelude Stream Text Errors ObjectTypes DeltaUtils DeltaFormat DeltaDecode PackUtils Hash Inflate PackIndex PackDecode Caches Pipeline PipelineProofs.

(** * Rebuilding returns *)

Lemma read_size_loop_u64 s value length v s' :
  0 <= value < 2 ^ 64 -> read_size_loop value length s = Ok (v, s') -> 0 <= v < 2 ^ 64.
Proof.
  revert value length. induction s as [|b s IH]; intros value length Hv; [discriminate|]. cbn [read_size_loop].
  destruct (split_var_int_byte b) as [bv more]. destruct (_ || _); [discriminate|].
  assert (Hb : 0 <= Z.lor value (as_u64 (Z.shiftl bv length)) < 2 ^ 64).
  { apply lor_bound; [lia|done|]. unfold as_u64. apply Z.mod_pos_bound. lia. }
  destruct (negb more); [by intros [= <- _]|by apply IH].
Qed.

Lemma delta_decode_sound `{Allocator} stream base :
  sound (delta_decode stream base) (fun out => blen out <= usize_max).
Proof.
  unfold delta_decode. pose proof (read_size_encoding_returns stream) as H1.
  destruct (read_size_encoding stream) as [[bs s]| | |]; try done. cbn [map_err rbind].
  destruct (negb _); [done|]. pose proof (read_size_encoding_returns s) as H2.
  destruct (read_size_encoding s) as [[rs s2]| | |] eqn:E; try done. cbn [map_err rbind].
  pose proof (decode_loop_returns (S (length s2)) base rs [] s2 ltac:(lia)) as H3.
  destruct (decode_loop _ _ _ _ _) as [buf| | |]; try done. cbn [rbind].
  destruct (negb (blen buf =? rs)) eqn:El; [done|]. cbn. apply negb_false_iff, Z.eqb_eq in El.
  apply read_size_loop_u64 in E; [|lia]. unfold usize_max. lia.
Qed.

(** The identifier of an object whose size is a machine integer. *)
Lemma object_hash_sound `{HasherLaws} kind t data :
  blen data <= usize_max -> sound (calculate_object_hash_for_kind kind t data) hash_wf.
Proof.
  intros Hl. destruct (ObjectType.to_bytes t) as [label|] eqn:E.
  - rewrite (calculate_object_hash_ok kind t label data E Hl). apply ObjectHash_new_for_kind_wf.
  - unfold calculate_object_hash_for_kind. by rewrite E.
Qed.

Lemma verify_known_hash_returns `{HexCrate} off id known : returns (verify_known_hash off id known).
Proof. unfold verify_known_hash. by destruct known; [destruct (negb _)|]. Qed.

(** What the zstd delta format must not do: panic, or make an object no machine can hold. *)
Definition zstd_sane (zstdelta_apply : bytes -> bytes -> Res bytes bytes) : Prop :=
  forall base delta, sound (zstdelta_apply base delta) (fun r => blen r <= usize_max).

Lemma rebuilt_sound `{TextEnv} `{HexCrate} `{HasherLaws} d b known result :
  blen result <= usize_max -> sound (rebuilt d b known result) (fun r => resolved r /\ co_offset r = co_offset d).
Proof.
  intros Hl. unfold rebuilt. destruct (base_object_hash b) as [bh|]; [|done]. cbn [ok_or rbind].
  pose proof (object_hash_sound (ObjectHash.kind bh) (object_type b) result Hl) as Hs.
  destruct (calculate_object_hash_for_kind _ _ _) as [h| | |]; try done. cbn [map_err rbind].
  pose proof (verify_known_hash_returns (co_offset d) h known) as Hv.
  destruct (verify_known_hash _ _ _); try done. cbn. split; [|done]. by exists h.
Qed.

Lemma rebuild_sound `{TextEnv} `{HexCrate} `{HasherLaws} `{Allocator} delta_error_text zstdelta_apply d b :
  zstd_sane zstdelta_apply -> is_base d = false ->
  sound (rebuild delta_error_text zstdelta_apply d b) (fun r => resolved r /\ co_offset r = co_offset d).
Proof.
  intros Hz Hb. unfold rebuild, rebuild_delta_with_hash, rebuild_zstdelta_with_hash. unfold is_base in Hb.
  destruct (info d); [done|..]; (eapply sound_bind; [apply sound_map_err; apply delta_decode_sound || apply Hz|]);
    intros; by apply rebuilt_sound.
Qed.

(** * The entries *)

(** The inflating reader takes its input from the front. *)
Class ZlibConsumes `{ZlibDecoder} : Prop :=
  zdec_read_suffix : forall st input room d st' rest, zdec_read st input room = (Ok d, (st', rest)) -> rest `suffix_of` input.

Lemma zdec_read_consumes `{ZlibConsumes} st input room d st' rest :
  zdec_read st input room = (Ok d, (st', rest)) -> blen rest <= blen input.
Proof. intros Hr%zdec_read_suffix%suffix_length. unfold blen. lia. Qed.

Lemma zdec_read_exact_consumes `{ZlibConsumes} fuel st input n acc buf st' rest :
  zdec_read_exact fuel st input n acc = Ok (buf, (st', rest)) -> blen rest <= blen input.
Proof.
  revert st input n acc. induction fuel as [|fuel IH]; intros st input n acc; [discriminate|]. cbn.
  destruct (n <=? 0); [by intros [= _ _ <-]|]. destruct (zdec_read st input n) as [[d| | |] [st1 in1]] eqn:E; try discriminate.
  case_bool_decide; [discriminate|]. intros Hr. apply IH in Hr. apply zdec_read_consumes in E. lia.
Qed.

Lemma decompress_data_consumes `{ZlibConsumes} pack size data n rest :
  decompress_data pack size = Ok ((data, n), rest) -> 0 <= n.
Proof.
  unfold decompress_data. destruct (isize_max <? size); [discriminate|].
  destruct (zdec_read_exact _ _ _ _ _) as [[buf [st input]]| | |] eqn:E1; try discriminate. cbn [map_err rbind].
  unfold check_extra. destruct (zdec_read st input 1) as [[d| | |] [st1 in1]] eqn:E2; try discriminate.
  case_bool_decide; [|discriminate]. cbn [rbind]. intros [= _ <- _].
  apply zdec_read_exact_consumes in E1. apply zdec_read_consumes in E2. lia.
Qed.

Lemma offset_loop_offset `{Build} fuel value offset s value' offset' rest :
  offset_loop fuel value offset s = Ok ((value', offset'), rest) -> offset <= offset'.
Proof.
  revert value offset s. induction fuel as [|fuel IH]; intros value offset s; [discriminate|].
  cbn [offset_loop]. intros Hl. ok_inv. destruct (negb b); [injection Hl as _ <- _; lia|]. ok_inv. apply IH in Hl. lia.
Qed.

Lemma finalize_wf `{HasherLaws} (a : HashAlgorithm) : hash_wf (HashAlgorithm_finalize_object_hash a).
Proof.
  destruct a as [k st]. unfold HashAlgorithm_finalize_object_hash. pose proof (hasher_finalize_size k st) as [Hs Hb].
  by destruct k; cbn in *; split.
Qed.

Lemma calculate_object_hash_wf `{HasherLaws} kind t data h : calculate_object_hash_for_kind kind t data = Ok h -> hash_wf h.
Proof.
  unfold calculate_object_hash_for_kind, hash_loose_object. destruct (ObjectType.to_bytes t); [|discriminate].
  cbn [ok_or rbind]. destruct (decimal_usize_bytes _ _) as [lb|[]| |]; try discriminate. intros [= <-]. apply finalize_wf.
Qed.

(** ** One entry *)

(** What an entry of a stream decodes to. *)
Definition entry_ok (offset : Z) (obj : CacheObject) : Prop :=
  co_offset obj = offset /\ (is_base obj = true -> resolved obj).

Lemma decode_base_entry `{Build} `{TextEnv} `{HexCrate} `{HasherLaws} `{ZlibConsumes} `{Crc32} kind pack payload init off t size
  track skip emit obj off' rest :
  decode_base kind pack payload init off t size track skip emit None None None = Ok ((obj, off'), rest) ->
  off <= off' /\ exists o, obj = Some o /\ entry_ok init o.
Proof.
  unfold decode_base. replace (should_skip_no_callback_object _ _ _ _) with false by (unfold should_skip_no_callback_object; by destruct skip).
  intros Hd. ok_inv. apply decompress_data_consumes in E. split; [lia|].
  eexists. split; [done|]. split; [done|]. intros _. eexists. split; [done|]. split; [|done].
  by eapply calculate_object_hash_wf.
Qed.

Lemma decode_delta_entry `{Build} `{TextEnv} `{HexCrate} `{ZlibConsumes} `{Crc32} pack payload init off size mk track obj off' rest :
  decode_delta pack payload init off size mk track None None = Ok ((obj, off'), rest) ->
  (forall n, is_base (mkCacheObject (mk n) 0 0 [] true None) = false) ->
  off <= off' /\ exists o, obj = Some o /\ entry_ok init o.
Proof.
  unfold decode_delta. intros Hd Hmk. ok_inv. apply decompress_data_consumes in E.
  split; [lia|]. eexists. split; [done|]. split; [done|]. unfold is_base in *. cbn in *. specialize (Hmk z1). by rewrite Hmk.
Qed.

Lemma decode_entry_ok `{Build} `{TextEnv} `{HexCrate} `{HasherLaws} `{ZlibConsumes} `{Crc32} kind pack offset
  track skip emit obj off' rest :
  decode_pack_object_with_crc kind pack offset track skip emit None None None = Ok ((obj, off'), rest) ->
  offset < off' /\ exists o, obj = Some o /\ entry_ok offset o.
Proof.
  unfold decode_pack_object_with_crc. intros Hd.
  destruct (read_type_and_varint_size offset pack) as [[[[bits size] off1] s]| | |] eqn:E1; try discriminate. cbn [map_err rbind] in Hd.
  assert (Hoff : offset < off1).
  { unfold read_type_and_varint_size in E1. ok_inv. match goal with E : type_size_loop _ _ _ _ _ _ = _ |- _ => apply type_size_loop_offset in E end. lia. }
  destruct (ObjectType.from_pack_type_u8 bits) as [t| | |]; try discriminate. cbn [rbind] in Hd.
  assert (Hofs : forall mk : Z -> Z -> CacheObjectInfo, (forall b n, is_base (mkCacheObject (mk b n) 0 0 [] true None) = false) ->
    (let! '((delta_offset, n), s) := map_err (invalid_pack "Read offset-delta base error: ") (read_offset_encoding s) in
      let off1 := off1 + n in
      if offset <? delta_offset then Err (InvalidObjectInfo (str "Invalid OffsetDelta offset"))
      else decode_delta pack s offset off1 size (mk (offset - delta_offset)) track None None) = Ok ((obj, off'), rest) ->
    offset < off' /\ exists o, obj = Some o /\ entry_ok offset o).
  { intros mk Hmk Hx. destruct (read_offset_encoding s) as [[[dlt n] s1]| | |] eqn:E2; try discriminate. cbn [map_err rbind] in Hx.
    destruct (offset <? dlt); [discriminate|]. apply offset_loop_offset in E2. apply decode_delta_entry in Hx as [? ?]; [|done].
    split; [lia|done]. }
  destruct t; try discriminate Hd; try (apply decode_base_entry in Hd as [? ?]; split; [lia|done]).
  - by apply (Hofs OffsetZstdelta).
  - by apply (Hofs OffsetDelta).
  - ok_inv. apply decode_delta_entry in Hd as [? ?]; [|done]. split; [|done].
    assert (0 <= HashKind.size kind) by (destruct kind; cbn; lia). lia.
Qed.

(** ** All entries *)

Lemma read_objects_ok `{Build} `{TextEnv} `{HexCrate} `{HasherLaws} `{ZlibConsumes} `{Crc32} p kind n pack offset objs rest :
  read_objects p kind n pack offset = Ok (objs, rest) ->
  length objs = n /\ Forall (fun o => offset <= co_offset o) objs /\ NoDup (offsets objs)
  /\ Forall (fun o => is_base o = true -> resolved o) objs.
Proof.
  revert pack offset objs. induction n as [|n IH]; intros pack offset objs; cbn [read_objects].
  - intros [= <- _]. split_and!; constructor.
  - intros Hr. destruct (decode_pack_object_with_crc _ _ _ _ _ _ _ _ _) as [[[obj off] rest1]| | |] eqn:Ed; try discriminate.
    cbn [rbind] in Hr. destruct (read_objects p kind n rest1 off) as [[l rest2]| | |] eqn:El; try discriminate.
    cbn [rbind] in Hr. injection Hr as <- <-. apply decode_entry_ok in Ed as (Hlt & o & -> & Ho & Hb).
    destruct (IH _ _ _ El) as (Hlen & Hge & Hnd & Hres). cbn. split_and!.
    + by rewrite Hlen.
    + constructor; [lia|]. eapply Forall_impl; [exact Hge|]. cbn. intros. lia.
    + constructor; [|done]. intros Hin. apply list_elem_of_fmap in Hin as (x & Ex & Hx). rewrite Forall_forall in Hge.
      specialize (Hge _ Hx). lia.
    + by constructor.
Qed.

(** * All schedules *)

(** A pack whose header, entries and trailer read well, and whose entries stand for objects
    of different names that fit in memory when the cache has no limit. *)
Record readable `{Build} `{TextEnv} `{HexCrate} `{Hasher} `{ZlibDecoder} `{Crc32} `{LruCache} `{Allocator}
  (delta_error_text : GitDeltaError -> bytes) (zstdelta_apply : bytes -> bytes -> Res bytes bytes)
  (p : SharedParams) (kind : HashKind.t) (mem : option Z) (pack : bytes) (number : Z) (objs : list CacheObject) : Prop := {
  rd_number : 0 <= number;
  rd_parts : exists header entries rest signature,
    check_header pack = Ok ((number, header), entries)
    /\ read_objects p kind (Z.to_nat number) entries 12 = Ok (objs, rest)
    /\ read_trailer kind streaming pack rest = Ok signature;
  rd_names o1 r1 o2 r2 :
    resolves (rebuild delta_error_text zstdelta_apply) objs o1 r1 ->
    resolves (rebuild delta_error_text zstdelta_apply) objs o2 r2 ->
    base_object_hash r1 = base_object_hash r2 -> co_offset o1 = co_offset o2;
  rd_fits : mem = None -> forall rs, Forall (known (rebuild delta_error_text zstdelta_apply) objs) rs ->
    NoDup (offsets rs) -> footprint rs <= usize_max
}.

Section streams.
Context `{Build} `{TextEnv} `{HexCrate} `{!HexLaws} `{Hasher} `{!HasherLaws} `{ZlibDecoder} `{!ZlibConsumes} `{Crc32}
  `{LruCache} `{!LruLaws} `{Allocator}.
Context (delta_error_text : GitDeltaError -> bytes) (zstdelta_apply : bytes -> bytes -> Res bytes bytes).
Context (p : SharedParams) (kind : HashKind.t) (mem : option Z) (tmp : path) (counts : DecodeRetention) (pack_id_callback : bool)
  (pack : bytes) (number : Z) (objs : list CacheObject).
Abbreviation rb := (rebuild delta_error_text zstdelta_apply).

Lemma readable_pack_ok :
  zstd_sane zstdelta_apply -> readable delta_error_text zstdelta_apply p kind mem pack number objs -> pack_ok rb objs.
Proof.
  intros Hz [Hnum (hdr & entries & rest & sg & _ & Hr & _) Hnames _]. apply read_objects_ok in Hr as (_ & _ & Hnd & Hb).
  rewrite Forall_forall in Hb. split; [done|done| |done].
  intros d b Hd Hnb _. pose proof (rebuild_sound delta_error_text zstdelta_apply d b Hz Hnb) as Hs. by destruct (rb d b).
Qed.

(** Every state a run reaches satisfies the invariant of the machine. *)
Lemma stream_inv k st :
  retention p = false -> zstd_sane zstdelta_apply ->
  readable delta_error_text zstdelta_apply p kind mem pack number objs ->
  steps delta_error_text zstdelta_apply p k (initial p kind streaming mem tmp counts pack_id_callback pack) st ->
  exists tail rest signature m, tail rest = finish_decode number pack_id_callback signature
    /\ machine_inv delta_error_text zstdelta_apply p kind mem objs tail rest m st
    /\ (m + k <= 17 * Z.to_nat number + 8)%nat.
Proof.
  intros Hret Hz Hrd Hst. pose proof (readable_pack_ok Hz Hrd) as Hok.
  destruct Hrd as [Hnum (hdr & entries & rest & sg & Hh & Hr & Ht) Hnames Hfits].
  set (tail := fun rest => match read_trailer kind streaming pack rest with
        | Ok signature => finish_decode number pack_id_callback signature
        | Err e => abort_decode e
        | Panic | OutOfFuel => Panicked
        end).
  assert (Htail : tail rest = finish_decode number pack_id_callback sg) by (unfold tail; by rewrite Ht).
  destruct (read_objects_ok _ _ _ _ _ _ _ Hr) as (Hlen & _).
  assert (Hle : blen objs <= number) by (unfold blen; lia).
  assert (Hinit : machine_inv delta_error_text zstdelta_apply p kind mem objs tail rest
    (17 * Z.to_nat number + 8) (initial p kind streaming mem tmp counts pack_id_callback pack)).
  { unfold initial, decode_inner. rewrite Hh. fold tail.
    apply (mi_reading _ _ _ _ _ _ _ _ _ _ PIdle (Z.to_nat number) 0 entries 12 objs [] [] []); try done;
      cbn [main queued running shared];
      [|change (waiting (waitlist _)) with (@nil CacheObject); unfold total; cbn [cost foldr length]; lia].
    split; cbn; try done.
    - apply Caches_new_ok.
    - repeat constructor.
    - by apply Forall_forall.
    - intros [o|h] l; cbn; by rewrite lookup_empty.
    - intros [o|h]; cbn; rewrite lookup_empty; by intros [].
    - intros x. rewrite !Nat.add_0_r. done.
    - by destruct (callback p). }
  destruct (machine_steps _ _ _ Hret _ _ _ Hok Hfits _ Hle _ _ _ _ Htail k _ _ _ Hinit Hst) as (m & Hm & Hi).
  by exists tail, rest, sg, m.
Qed.

End streams.

(** decoding a stream always comes to an end, whatever the scheduler does: a run takes a
    bounded number of steps, linear in the number of entries, and one that cannot be continued
    is over: no task is left and the reading thread has returned; it never waits for ever and
    no thread ever panics. *)
Theorem decode_stream_terminates `{Build} `{TextEnv} `{HexCrate} `{!HexLaws} `{Hasher} `{!HasherLaws} `{ZlibDecoder}
  `{!ZlibConsumes} `{Crc32} `{LruCache} `{!LruLaws} `{Allocator}
  (delta_error_text : GitDeltaError -> bytes) (zstdelta_apply : bytes -> bytes -> Res bytes bytes)
  (p : SharedParams) (kind : HashKind.t) (mem : option Z) (tmp : path) (counts : DecodeRetention) (pack_id_callback : bool)
  (pack : bytes) (number : Z) (objs : list CacheObject) (k : nat) (st : State) :
  retention p = false -> zstd_sane zstdelta_apply ->
  readable delta_error_text zstdelta_apply p kind mem pack number objs ->
  steps delta_error_text zstdelta_apply p k (initial p kind streaming mem tmp counts pack_id_callback pack) st ->
  (k <= 17 * Z.to_nat number + 8)%nat
  /\ ((forall st', ~ step delta_error_text zstdelta_apply p st st') ->
      exists r, main st = Return r /\ returns r /\ queued st = [] /\ running st = []).
Proof.
  intros Hret Hz Hrd Hst. destruct (stream_inv _ _ _ _ _ _ _ _ _ _ _ _ _ Hret Hz Hrd Hst) as (tail & rest & sg & m & Ht & Hi & Hm).
  split; [lia|]. intros Hno. pose proof (readable_pack_ok _ _ _ _ _ _ _ _ Hz Hrd) as Hok.
  destruct (machine_final _ _ _ Hret _ _ _ Hok _ _ _ _ _ Ht m st Hi Hno) as (r & Hmain & Hq & Hr & Ho).
  exists r. split_and!; try done. by destruct r.
Qed.

(** C13: the result of decoding a stream does not depend on the schedule and is the right
    one: a run that has returned says [Ok] exactly when every entry stands for an object
    (its base, by offset or by name, is in the pack and the delta applies), and then the
    callback was given exactly these objects, each once. *)
Theorem decode_stream_correct `{Build} `{TextEnv} `{HexCrate} `{!HexLaws} `{Hasher} `{!HasherLaws} `{ZlibDecoder}
  `{!ZlibConsumes} `{Crc32} `{LruCache} `{!LruLaws} `{Allocator}
  (delta_error_text : GitDeltaError -> bytes) (zstdelta_apply : bytes -> bytes -> Res bytes bytes)
  (p : SharedParams) (kind : HashKind.t) (mem : option Z) (tmp : path) (counts : DecodeRetention) (pack_id_callback : bool)
  (pack : bytes) (number : Z) (objs : list CacheObject) (k : nat) (st : State) (r : Res GitError unit) :
  retention p = false -> zstd_sane zstdelta_apply ->
  readable delta_error_text zstdelta_apply p kind mem pack number objs ->
  steps delta_error_text zstdelta_apply p k (initial p kind streaming mem tmp counts pack_id_callback pack) st ->
  main st = Return r ->
  (r = Ok tt <-> forall o, o ∈ objs -> exists x, resolves (rebuild delta_error_text zstdelta_apply) objs o x)
  /\ (r = Ok tt -> callback p = true -> exists rs,
        Forall2 (resolves (rebuild delta_error_text zstdelta_apply) objs) objs rs
        /\ Permutation (map Ok (delivered (shared st))) (map (callback_entry_ref p) rs)).
Proof.
  intros Hret Hz Hrd Hst Hr. destruct (stream_inv _ _ _ _ _ _ _ _ _ _ _ _ _ Hret Hz Hrd Hst) as (tail & rest & sg & m & Ht & Hi & _).
  pose proof (readable_pack_ok _ _ _ _ _ _ _ _ Hz Hrd) as Hok.
  pose proof (machine_returned _ _ _ Hret _ _ _ Hok _ _ _ _ _ Ht m st r Hi Hr) as Ho.
  destruct r as [[]|e| |]; cbn in Ho; try done.
  - destruct Ho as (rs & Hrs & Hd). split; [split; [|done]|].
    + intros _ o Hin. apply list_elem_of_lookup in Hin as [i Hi']. destruct (Forall2_lookup_l _ _ _ _ _ Hrs Hi') as (x & _ & Hx).
      by exists x.
    + intros _ Hcb. exists rs. rewrite Hcb in Hd. done.
Qed.

(** * Schedules *)

Section schedules.
Context `{TextEnv} `{HexCrate} `{Hasher} `{LruCache} `{Allocator}.
Context (delta_error_text : GitDeltaError -> bytes) (zstdelta_apply : bytes -> bytes -> Res bytes bytes) (p : SharedParams).

Lemma move_step st c st' : move delta_error_text zstdelta_apply p st c = Some st' -> step delta_error_text zstdelta_apply p st st'.
Proof.
  destruct st as [m qs rs s]. destruct c as [|i|i]; cbn [move main queued running shared].
  - intros Hm. assert (Hx : (exists k, m = Join k) \/ match exec m s with
        | Some ((s', m'), ts) => Some (mkState m' (qs ++ ts) rs s') | None => None end = Some st')
      by (destruct m; (right; exact Hm) || (left; eexists; reflexivity)).
    destruct Hx as [[k ->] | Hx].
    + destruct qs, rs; try discriminate Hm. injection Hm as <-. apply step_join.
    + destruct (exec m s) as [[[s' m'] ts]|] eqn:E; [|discriminate Hx]. injection Hx as <-. by apply step_main.
  - destruct (qs !! i) as [t|] eqn:E; [|discriminate]. intros [= <-]. apply list_elem_of_split_length in E as (l1 & l2 & -> & ->).
    rewrite delete_middle. apply step_start.
  - destruct (rs !! i) as [q|] eqn:E; [|discriminate]. apply list_elem_of_split_length in E as (l1 & l2 & -> & ->).
    destruct (over q) eqn:Eo.
    + intros [= <-]. rewrite delete_middle. by apply step_exit.
    + destruct (exec q s) as [[[s' q'] ts]|] eqn:Ex; [|discriminate]. intros [= <-].
      rewrite insert_app_r_alt, Nat.sub_diag by lia. by apply step_run.
Qed.

Lemma run_schedule_steps st cs st' :
  run_schedule delta_error_text zstdelta_apply p st cs = Some st' -> steps delta_error_text zstdelta_apply p (length cs) st st'.
Proof.
  revert st. induction cs as [|c cs IH]; intros st; cbn; [intros [= <-]; constructor|].
  destruct (move _ _ _ st c) as [st1|] eqn:E; [|discriminate]. intros Hr. econstructor; [by eapply move_step|by apply IH].
Qed.

(** What a schedule ends in, the state itself when it cannot be followed. *)
Definition after (st : State) (cs : list Choice) : State :=
  match run_schedule delta_error_text zstdelta_apply p st cs with Some st' => st' | None => st end.

Definition followed (st : State) (cs : list Choice) : bool :=
  match run_schedule delta_error_text zstdelta_apply p st cs with Some _ => true | None => false end.

Lemma after_steps st cs : followed st cs = true -> steps delta_error_text zstdelta_apply p (length cs) st (after st cs).
Proof.
  unfold followed, after. destruct (run_schedule _ _ _ st cs) eqn:E; [|discriminate]. intros _. by apply run_schedule_steps.
Qed.

Definition result_of (st : State) : option (Res GitError unit) := match main st with Return r => Some r | _ => None end.

Lemma result_of_main st r : result_of st = Some r -> main st = Return r.
Proof. unfold result_of. destruct (main st); try discriminate. by intros [= ->]. Qed.

End schedules.

(** ** Sample packs *)

Lemma fill_buf_data rd input rd' : fill_buf rd = (Got input, rd') -> rd' = rd.
Proof. by destruct rd as [|[d| |e] rd]; intros [= _ <-]. Qed.

Lemma consume_data n rd : stream_data (consume n rd) `suffix_of` stream_data rd.
Proof.
  destruct rd as [|[d| |e] rd]; cbn; try done. destruct (_ <=? _); [by apply suffix_app_r|]. cbn.
  exists (take (Z.to_nat n) d). by rewrite app_assoc, take_drop.
Qed.

Lemma read_loop_shrinks `{Decompress} fuel rd st room acc d rd' st' :
  read_loop fuel rd st room acc = (Ok d, (rd', st')) -> stream_data rd' `suffix_of` stream_data rd.
Proof.
  revert rd st room acc. induction fuel as [|fuel IH]; intros rd st room acc; cbn [read_loop]; [discriminate|].
  destruct (fill_buf rd) as [[input| |e] rd1] eqn:Ef; try discriminate. apply fill_buf_data in Ef as ->.
  destruct (decompress st input room _) as [[[st1 written] consumed] ret].
  destruct (room <? blen written); [discriminate|]. pose proof (consume_data consumed rd) as Hc.
  destruct ret; try discriminate; try (by intros [= _ <- _]); (destruct (_ || _); [by intros [= _ <- _]|]);
    (destruct (_ || _); [intros Hr; apply IH in Hr; by etrans|discriminate]).
Qed.

Lemma stored_zlib_consumes : @ZlibConsumes stored_zlib.
Proof.
  intros st input room d st' rest Hr. cbn [zdec_read stored_zlib] in Hr.
  set (rd := match input with [] => [] | _ => [Chunk input] end) in *.
  assert (Hd : stream_data rd = input) by (unfold rd; destruct input; cbn; by rewrite ?app_nil_r).
  destruct (@read stored_inflater rd st room) as [[d1| | |] [evs st1]] eqn:E; try discriminate Hr. unfold read in E.
  apply read_loop_shrinks in E. rewrite Hd in E. by injection Hr as _ <- <-.
Qed.

Definition toy_crc : Crc32 := fun b => fold_left Z.add b 0.

Definition toy_entry (t : ObjectType.t) (data : bytes) (back : option Z) : bytes :=
  match encode_one_object stored_compress t data back with Ok enc => enc | _ => [] end.

(** A pack of the entries, with the trailer of the toy hash. *)
Definition toy_pack (entries : list bytes) : bytes :=
  let body := str "PACK" ++ [0; 0; 0; 2; 0; 0; 0; blen entries] ++ concat entries in
  body ++ ObjectHash.as_ref (@ObjectHash_new_for_kind toy_hasher HashKind.Sha1 body).

Definition toy_base : bytes := toy_entry ObjectType.Blob [1; 2; 3] None.

(** The base with its last byte replaced by [x]. *)
Definition toy_delta (back x : Z) : bytes := toy_entry ObjectType.OffsetDelta [3; 3; 0x90; 2; 1; x] (Some back).

(** A stream with a blob and a delta on it, decoded with a callback and a cache of eight
    units. *)
Definition stream_params : SharedParams := mkParams true false false false.
Definition stream_pack : bytes := toy_pack [toy_base; toy_delta (blen toy_base) 7].

Abbreviation toy_read := (@read_objects true plain_texts hex_reference toy_hasher stored_zlib toy_crc).
Abbreviation toy_rebuild := (@rebuild plain_texts hex_reference toy_hasher (fun _ => []) (fun _ _ => Err []) unlimited).
Abbreviation toy_initial := (@initial true plain_texts hex_reference toy_hasher stored_zlib toy_crc toy_lru).
Abbreviation toy_after := (@after plain_texts hex_reference toy_hasher toy_lru unlimited (fun _ => []) (fun _ _ => Err [])).
Abbreviation toy_steps := (@steps plain_texts hex_reference toy_hasher toy_lru unlimited (fun _ => []) (fun _ _ => Err [])).
Abbreviation toy_step := (@step plain_texts hex_reference toy_hasher toy_lru unlimited (fun _ => []) (fun _ _ => Err [])).

Definition stream_objs : list CacheObject := Eval vm_compute in
  match toy_read stream_params HashKind.Sha1 2 (drop 12 stream_pack) 12 with Ok (l, _) => l | _ => [] end.

Lemma toy_zstd_sane : zstd_sane (fun _ _ => Err []).
Proof. by intros base delta. Qed.

Definition stream_blob : CacheObject := Eval vm_compute in nth 0 stream_objs sample_base.
Definition stream_delta : CacheObject := Eval vm_compute in nth 1 stream_objs sample_base.
Definition stream_result : CacheObject := Eval vm_compute in
  match toy_rebuild stream_delta stream_blob with Ok r => r | _ => sample_base end.

Lemma stream_resolves o r :
  resolves toy_rebuild stream_objs o r -> (o = stream_blob /\ r = stream_blob) \/ (o = stream_delta /\ r = stream_result).
Proof.
  assert (Hobjs : stream_objs = [stream_blob; stream_delta]) by (vm_compute; reflexivity).
  induction 1 as [o Hin Hb|d dep b b' r Hd Hdep Hb IH Hp Hr]; rewrite Hobjs, !elem_of_cons in *.
  - destruct Hin as [-> | [-> | Hin]]; [by left|discriminate Hb|set_solver].
  - destruct Hd as [-> | [-> | Hin]]; [discriminate Hdep| |set_solver]. right. split; [done|].
    assert (dep = OnOffset 12) as -> by (vm_compute in Hdep; by injection Hdep as <-). cbn in Hp.
    destruct IH as [[_ ->] | [_ ->]]; [|vm_compute in Hp; discriminate Hp].
    assert (Hx : toy_rebuild stream_delta stream_blob = Ok stream_result) by (vm_compute; reflexivity). congruence.
Qed.

Lemma stream_readable :
  @readable true plain_texts hex_reference toy_hasher stored_zlib toy_crc toy_lru unlimited (fun _ => []) (fun _ _ => Err [])
    stream_params HashKind.Sha1 (Some 8) stream_pack 2 stream_objs.
Proof.
  split.
  - lia.
  - eexists _, _, _, _. split; [vm_compute; reflexivity|]. split; vm_compute; reflexivity.
  - intros o1 r1 o2 r2 H1 H2 E. apply stream_resolves in H1 as [[-> ->] | [-> ->]], H2 as [[-> ->] | [-> ->]]; try done;
      vm_compute in E; discriminate E.
  - discriminate.
Qed.

(** The reading thread first, then one worker after the other. *)
Definition stream_schedule : list Choice :=
  repeat Main 4 ++ [Start 0] ++ repeat (Run 0) 5 ++ [Start 0] ++ repeat (Run 0) 3 ++ [Start 0] ++ repeat (Run 0) 5 ++ repeat Main 5.

Definition stream_start : @State toy_lru :=
  toy_initial stream_params HashKind.Sha1 streaming (Some 8) [] DecodeRetention_default false stream_pack.

Definition stream_end : @State toy_lru := toy_after stream_params stream_start stream_schedule.

Lemma stream_run : toy_steps stream_params 25 stream_start stream_end.
Proof.
  apply (@after_steps plain_texts hex_reference toy_hasher toy_lru unlimited (fun _ => []) (fun _ _ => Err [])
    stream_params stream_start stream_schedule). vm_compute. reflexivity.
Qed.

Lemma decode_stream_terminates_witness :
  (25 <= 17 * Z.to_nat 2 + 8)%nat
  /\ ((forall st', ~ toy_step stream_params stream_end st') ->
      exists r, main stream_end = Return r /\ returns r /\ queued stream_end = [] /\ running stream_end = []).
Proof.
  apply (@decode_stream_terminates true plain_texts hex_reference hex_reference_laws toy_hasher toy_hasher_laws stored_zlib
    stored_zlib_consumes toy_crc toy_lru toy_lru_laws unlimited (fun _ => []) (fun _ _ => Err []) stream_params HashKind.Sha1
    (Some 8) [] DecodeRetention_default false stream_pack 2 stream_objs 25 stream_end);
    [reflexivity|apply toy_zstd_sane|apply stream_readable|apply stream_run].
Defined.

Lemma decode_stream_correct_witness :
  (@Ok GitError unit tt = Ok tt <-> forall o, o ∈ stream_objs -> exists x, resolves toy_rebuild stream_objs o x)
  /\ (@Ok GitError unit tt = Ok tt -> callback stream_params = true -> exists rs,
        Forall2 (resolves toy_rebuild stream_objs) stream_objs rs
        /\ Permutation (map Ok (delivered (shared stream_end))) (map (callback_entry_ref stream_params) rs)).
Proof.
  apply (@decode_stream_correct true plain_texts hex_reference hex_reference_laws toy_hasher toy_hasher_laws stored_zlib
    stored_zlib_consumes toy_crc toy_lru toy_lru_laws unlimited (fun _ => []) (fun _ _ => Err []) stream_params HashKind.Sha1
    (Some 8) [] DecodeRetention_default false stream_pack 2 stream_objs 25 stream_end (Ok tt));
    [reflexivity|apply toy_zstd_sane|apply stream_readable|apply stream_run|apply result_of_main; vm_compute; reflexivity].
Defined.

(** * A race in the retention table *)

(** A blob, a delta on it, and two deltas on that delta, decoded from a file without a memory
    limit ([decode_file_full_without_callback]); the table is the one the scan makes. *)
Definition file_params : SharedParams := mkParams false true false false.
Definition file_options : DecodeOptions := mkOptions None None None None true true.

Definition race_pack : bytes :=
  let d1 := toy_delta (blen toy_base) 7 in
  let d2 := toy_delta (blen d1) 8 in
  toy_pack [toy_base; d1; d2; toy_delta (blen d1 + blen d2) 9].

Definition race_counts : DecodeRetention := Eval vm_compute in
  match @scan_decode_retention true plain_texts stored_zlib race_pack HashKind.Sha1 with
  | Ok r => r
  | _ => DecodeRetention_default
  end.

Definition race_start : @State toy_lru :=
  toy_initial file_params HashKind.Sha1 file_options None [] race_counts false race_pack.

(** The tasks one after the other. *)
Definition calm_schedule : list Choice :=
  repeat Main 12 ++ [Start 0] ++ repeat (Run 0) 7 ++ concat (repeat (Start 0 :: repeat (Run 0) 5) 2)
  ++ [Start 0] ++ repeat (Run 0) 7 ++ concat (repeat (Start 0 :: repeat (Run 0) 5) 2) ++ repeat Main 5.

(** The third entry looks for its base (the last [Run 0] of the first line), then the base is
    stored, the third entry waits and is counted, the fourth entry drops the base. *)
Definition race_schedule : list Choice :=
  repeat Main 12 ++ [Start 0] ++ repeat (Run 0) 7 ++ [Start 0; Run 0]
  ++ [Start 1] ++ repeat (Run 0) 5 ++ repeat (Run 0) 2 ++ [Start 0] ++ repeat (Run 0) 7
  ++ repeat (Run 0) 2 ++ [Start 0] ++ repeat (Run 0) 5 ++ repeat Main 5.

Definition race_waitlist : Waitlist := waitlist (shared (toy_after file_params race_start race_schedule)).

(** C37: [decode_file] may refuse a pack that is complete.  With a retention table and no
    memory limit, a delta that found its base missing and then waits for it can be overtaken:
    the base is stored, the waiting delta's reference is released, the last other delta on the
    base releases its own and drops the base from the cache, and the second look of the
    waiting delta finds nothing.  The same pack decodes under one schedule and is reported as
    a thin pack under another. *)
Theorem retention_race :
  exists k1 st1 k2 st2 w, toy_steps file_params k1 race_start st1 /\ main st1 = Return (Ok tt)
    /\ toy_steps file_params k2 race_start st2 /\ main st2 = Return (Err (@thin_pack hex_reference w)).
Proof.
  exists (length calm_schedule), (toy_after file_params race_start calm_schedule),
    (length race_schedule), (toy_after file_params race_start race_schedule), race_waitlist.
  split; [apply after_steps; vm_compute; reflexivity|]. split; [apply result_of_main; vm_compute; reflexivity|].
  split; [apply after_steps; vm_compute; reflexivity|]. apply result_of_main. vm_compute. reflexivity.
Qed.
