(* ===== verification/BackPressure.v ===== *)
(** The waiting loop of the reading thread, [decode_inner] of [src/internal/pack/decode.rs]:
    before each entry the thread yields while too many tasks are queued or the objects in
    memory exceed the limit of the pack.

    The machine of [Pipeline] leaves this loop out; here a step of the reading thread at the
    head of the loop needs the condition to be false, so that the runs of this machine are
    runs of the other one, and waiting for ever is a state without a step.  The memory
    in use is what the waiting deltas have recorded, the tables of the cache, whose capacities
    the map library chooses, and what the cache and the workers hold; the last is a
    parameter, since the programs of the workers do not list their objects. *)

From Stdlib Require Import ZArith Lia String.
From stdpp Require Import base tactics list numbers option gmap.
From S2P Require Import Prelude Stream Text Errors ObjectTypes DeltaUtils DeltaFormat DeltaDecode PackUtils Hash Inflate PackIndex PackDecode Caches MemRecorder Pipeline PipelineProofs DecodeStream.

Definition MAX_QUEUED_DECODE_TASKS : Z := 1024.

(** The sizes of [ObjectHash], [usize] and [Arc] on a 64-bit target. *)
Definition SIZE_OF_OBJECT_HASH : Z := 33.
Definition SIZE_OF_USIZE : Z := 8.
Definition SIZE_OF_ARC : Z := 8.

(** [memory_used_index], given the capacities of the two tables in use. *)
Definition memory_used_index (unbounded : bool) (hash_capacity offset_capacity : Z) : Z :=
  hash_capacity * (if unbounded then SIZE_OF_OBJECT_HASH + SIZE_OF_ARC else SIZE_OF_OBJECT_HASH)
  + offset_capacity * (if unbounded then SIZE_OF_USIZE + SIZE_OF_ARC else SIZE_OF_USIZE + SIZE_OF_OBJECT_HASH).

(** The limit the loop compares with: none when the cache is unbounded. *)
Definition effective_limit (cache_mem : option Z) (mem_limit : option Z) : option Z :=
  match cache_mem with None => None | Some _ => mem_limit end.

(** The head of the loop: what the reading thread does next is decode an entry. *)
Definition at_loop_head (q : prog) : bool := match q with ReadRetention _ => true | _ => false end.

Section pacing.
Context `{Build} `{TextEnv} `{HexCrate} `{Hasher} `{ZlibDecoder} `{Crc32} `{LruCache} `{Allocator}.
Context (delta_error_text : GitDeltaError -> bytes) (zstdelta_apply : bytes -> bytes -> Res bytes bytes) (p : SharedParams).
(** The size of a [CacheObject] itself, the memory of the objects of the cache and of the workers, and
    the capacities of the tables. *)
Context (value_size : Z) (held : State -> Z) (capacities : State -> Z * Z) (limit : option Z).

(** What a delta that waits has recorded, when its buffer has no spare capacity. *)
Definition waiting_size (obj : CacheObject) : Z := recorded value_size (mkTracked obj (blen (data_decompressed obj)) true).

Definition waiting_memory (w : Waitlist) : Z := foldr (fun o n => waiting_size o + n) 0 (waiting w).

Definition cache_objs_mem_used (st : State) : Z := waiting_memory (waitlist (shared st)) + held st.

Definition memory_used (st : State) : Z :=
  cache_objs_mem_used st + memory_used_index (bool_decide (limit = None)) (capacities st).1 (capacities st).2.

(** The loop is left. *)
Definition may_read (st : State) : bool :=
  (blen (queued st) <=? MAX_QUEUED_DECODE_TASKS)
  && match limit with Some mem_limit => memory_used st <=? mem_limit | None => true end.

Inductive paced_step : State -> State -> Prop :=
| paced_main m qs rs s s' m' ts :
    exec m s = Some ((s', m'), ts) -> (at_loop_head m = true -> may_read (mkState m qs rs s) = true) ->
    paced_step (mkState m qs rs s) (mkState m' (qs ++ ts) rs s')
| paced_join k s : paced_step (mkState (Join k) [] [] s) (mkState k [] [] s)
| paced_start m qs1 t qs2 rs s :
    paced_step (mkState m (qs1 ++ t :: qs2) rs s) (mkState m (qs1 ++ qs2) (task_prog delta_error_text zstdelta_apply p t :: rs) s)
| paced_run m qs rs1 q rs2 s s' q' ts :
    exec q s = Some ((s', q'), ts) ->
    paced_step (mkState m qs (rs1 ++ q :: rs2) s) (mkState m (qs ++ ts) (rs1 ++ q' :: rs2) s')
| paced_exit m qs rs1 q rs2 s :
    over q = true -> paced_step (mkState m qs (rs1 ++ q :: rs2) s) (mkState m qs (rs1 ++ rs2) s).

Inductive paced_steps : nat -> State -> State -> Prop :=
| paced_O st : paced_steps 0 st st
| paced_S n st1 st2 st3 : paced_step st1 st2 -> paced_steps n st2 st3 -> paced_steps (S n) st1 st3.

(** The waiting loop only restricts the runs. *)
Lemma paced_step_step st st' : paced_step st st' -> step delta_error_text zstdelta_apply p st st'.
Proof. destruct 1; [by apply step_main|apply step_join|apply step_start|by apply step_run|by apply step_exit]. Qed.

Lemma paced_steps_steps k st st' : paced_steps k st st' -> steps delta_error_text zstdelta_apply p k st st'.
Proof. induction 1; econstructor; eauto using paced_step_step. Qed.

(** A schedule that keeps to the waiting loop. *)
Definition paced_move (st : State) (c : Choice) : option State :=
  match c with
  | Main => if at_loop_head (main st) && negb (may_read st) then None else move delta_error_text zstdelta_apply p st Main
  | _ => move delta_error_text zstdelta_apply p st c
  end.

Fixpoint paced_schedule (st : State) (cs : list Choice) : option State :=
  match cs with [] => Some st | c :: cs => match paced_move st c with Some st => paced_schedule st cs | None => None end end.

Lemma paced_move_step st c st' : paced_move st c = Some st' -> paced_step st st'.
Proof.
  destruct st as [m qs rs s]. destruct c as [|i|i]; cbn [paced_move move main queued running shared].
  - destruct (at_loop_head m && _) eqn:Eg; [discriminate|]. intros Hm. assert (Hx : (exists k, m = Join k) \/ match exec m s with
        | Some ((s', m'), ts) => Some (mkState m' (qs ++ ts) rs s') | None => None end = Some st')
      by (destruct m; (right; exact Hm) || (left; eexists; reflexivity)).
    destruct Hx as [[k ->] | Hx].
    + destruct qs, rs; try discriminate Hm. injection Hm as <-. apply paced_join.
    + destruct (exec m s) as [[[s' m'] ts]|] eqn:E; [|discriminate Hx]. injection Hx as <-. apply paced_main; [done|].
      intros Hh. rewrite Hh in Eg. cbn [andb] in Eg. by apply negb_false_iff in Eg.
  - destruct (qs !! i) as [t|] eqn:E; [|discriminate]. intros [= <-]. apply list_elem_of_split_length in E as (l1 & l2 & -> & ->).
    rewrite delete_middle. apply paced_start.
  - destruct (rs !! i) as [q|] eqn:E; [|discriminate]. apply list_elem_of_split_length in E as (l1 & l2 & -> & ->).
    destruct (over q) eqn:Eo; [intros [= <-]; rewrite delete_middle; by apply paced_exit|].
    destruct (exec q s) as [[[s' q'] ts]|] eqn:Ex; [|discriminate]. intros [= <-].
    rewrite insert_app_r_alt, Nat.sub_diag by lia. by apply paced_run.
Qed.

Lemma paced_schedule_steps st cs st' : paced_schedule st cs = Some st' -> paced_steps (length cs) st st'.
Proof.
  revert st. induction cs as [|c cs IH]; intros st; cbn; [intros [= <-]; constructor|].
  destruct (paced_move st c) as [st1|] eqn:E; [|discriminate]. intros Hr. econstructor; [by eapply paced_move_step|by apply IH].
Qed.

(** Nothing is left to do but to read on. *)
Definition idle (st : State) : Prop := at_loop_head (main st) = true /\ queued st = [] /\ running st = [].

(** A state that cannot go on: the machine without the loop cannot either, or the loop waits and no other thread is there. *)
Lemma paced_stuck st :
  (forall st', ~ paced_step st st') ->
  queued st = [] /\ (forall q, q ∈ running st -> over q = false /\ exec q (shared st) = None)
  /\ ((forall st', ~ step delta_error_text zstdelta_apply p st st') \/ (at_loop_head (main st) = true /\ may_read st = false)).
Proof.
  destruct st as [m qs rs s]. cbn [main queued running shared]. intros Hno.
  assert (qs = []) as ->. { destruct qs as [|t qs]; [done|]. exfalso. eapply Hno. by apply (paced_start m [] t qs). }
  assert (Hrs : forall q, q ∈ rs -> over q = false /\ exec q s = None).
  { intros q Hq. apply list_elem_of_split in Hq as (l1 & l2 & ->). split.
    - destruct (over q) eqn:E; [|done]. exfalso. eapply Hno. by apply (paced_exit m [] l1 q l2).
    - destruct (exec q s) as [[[s' q'] ts]|] eqn:E; [|done]. exfalso. eapply Hno. by apply (paced_run m [] l1 q l2). }
  split; [done|]. split; [done|]. destruct (at_loop_head m && negb (may_read (mkState m [] rs s))) eqn:E.
  { right. apply andb_true_iff in E as [-> E]. by apply negb_true_iff in E. }
  left. intros st' Hs. inversion Hs; subst.
  - eapply Hno. eapply paced_main; [done|]. intros Hl. rewrite Hl in E. cbn [andb] in E. by apply negb_false_iff in E.
  - eapply Hno, paced_join.
  - by destruct qs1.
  - destruct (Hrs q) as [_ Hx]; [apply elem_of_app; right; left|]. congruence.
  - destruct (Hrs q) as [Hx _]; [apply elem_of_app; right; left|]. congruence.
Qed.
End pacing.

(** * Ends, or waits for ever *)

(** What the deltas of a pack record when all of them wait. *)
Definition delta_memory `{Build} (value_size : Z) (objs : list CacheObject) : Z :=
  foldr (fun o n => waiting_size value_size o + n) 0 (filter (fun o => is_base o = false) objs).

Lemma sum_submseteq {A} (f : A -> Z) l k :
  Forall (fun x => 0 <= f x) k -> l ⊆+ k -> foldr (fun x n => f x + n) 0 l <= foldr (fun x n => f x + n) 0 k.
Proof.
  intros Hf [r Hp]%submseteq_Permutation. assert (Hr : Forall (fun x => 0 <= f x) r) by (rewrite Hp in Hf; by apply Forall_app in Hf as [_ ?]).
  assert (Hs : forall l l', Permutation l l' -> foldr (fun x n => f x + n) 0 l = foldr (fun x n => f x + n) 0 l') by (induction 1; cbn [foldr]; lia).
  rewrite (Hs _ _ Hp), foldr_app.
  assert (Hg : forall l a, foldr (fun x n => f x + n) a l = foldr (fun x n => f x + n) 0 l + a).
  { intros l'. induction l' as [|x l' IH]; intros a; cbn [foldr]; [lia|]. rewrite IH. lia. }
  rewrite (Hg l (foldr _ 0 r)). enough (0 <= foldr (fun x n => f x + n) 0 r) by lia. clear -Hr. induction Hr as [|x r Hx _ IH]; cbn [foldr]; [done|]. cbn in Hx. lia.
Qed.

(** C14: a decode that respects the memory limit still ends, and with the right answer, whenever the limit is enough for the
    deltas of the pack together with what the cache and its tables keep while no task is left: a run takes a
    bounded number of steps (rounds of the waiting loop not counted), and one that cannot be continued has
    returned, [Ok] exactly when every entry stands for an object. *)
Theorem paced_decode_ends `{Build} `{TextEnv} `{HexCrate} `{!HexLaws} `{Hasher} `{!HasherLaws} `{ZlibDecoder}
  `{!ZlibConsumes} `{Crc32} `{LruCache} `{!LruLaws} `{Allocator}
  (delta_error_text : GitDeltaError -> bytes) (zstdelta_apply : bytes -> bytes -> Res bytes bytes)
  (p : SharedParams) (kind : HashKind.t) (mem : option Z) (tmp : path) (counts : DecodeRetention) (pack_id_callback : bool)
  (pack : bytes) (number : Z) (objs : list CacheObject) (value_size : Z) (held : State -> Z) (capacities : State -> Z * Z)
  (mem_limit : option Z) (room : Z) (k : nat) (st : State) :
  retention p = false -> zstd_sane zstdelta_apply ->
  readable delta_error_text zstdelta_apply p kind mem pack number objs -> Forall (fun o => 0 <= waiting_size value_size o) objs ->
  let limit := effective_limit mem mem_limit in
  (forall st, idle st -> held st + memory_used_index (bool_decide (limit = None)) (capacities st).1 (capacities st).2 <= room) ->
  (forall l, limit = Some l -> delta_memory value_size objs + room <= l) ->
  paced_steps delta_error_text zstdelta_apply p value_size held capacities limit k
    (initial p kind streaming mem tmp counts pack_id_callback pack) st ->
  (k <= 17 * Z.to_nat number + 8)%nat
  /\ ((forall st', ~ paced_step delta_error_text zstdelta_apply p value_size held capacities limit st st') ->
      exists r, main st = Return r /\ queued st = [] /\ running st = []
      /\ (r = Ok tt <-> forall o, o ∈ objs -> exists x, resolves (rebuild delta_error_text zstdelta_apply) objs o x)).
Proof.
  intros Hret Hz Hrd Hv limit Hroom Hlim Hst. pose proof (paced_steps_steps _ _ _ _ _ _ _ _ _ _ Hst) as Hst'.
  destruct (stream_inv _ _ _ _ _ _ _ _ _ _ _ _ _ Hret Hz Hrd Hst') as (tail & rest & sg & m & Ht & Hi & Hm).
  split; [lia|]. intros Hno. pose proof (readable_pack_ok _ _ _ _ _ _ _ _ Hz Hrd) as Hok.
  destruct (paced_stuck _ _ _ _ _ _ _ _ Hno) as (Hq & Hr & [Hfin|[Hhead Hwait]]).
  - destruct (machine_final _ _ _ Hret _ _ _ Hok _ _ _ _ _ Ht m st Hi Hfin) as (r & Hmain & _ & Hrun & Ho). exists r. split_and!; try done.
    destruct r as [[]|e| |]; cbn in Ho; try done. destruct Ho as (rs & Hrs & _). split; [|done]. intros _ o Hin.
    apply list_elem_of_lookup in Hin as [i Hi']. destruct (Forall2_lookup_l _ _ _ _ _ Hrs Hi') as (x & _ & Hx). by exists x.
  - exfalso. assert (Hrun : running st = []) by (eapply machine_idle; eauto). unfold may_read in Hwait. rewrite Hq in Hwait.
    change (blen [] <=? MAX_QUEUED_DECODE_TASKS) with true in Hwait. cbn [andb] in Hwait.
    assert (Hhead' : exists k, main st = ReadRetention k) by (destruct (main st); try discriminate Hhead; by eexists). destruct Hhead' as [kk Hk].
    destruct (machine_waiting _ _ _ _ _ _ Hok _ _ _ _ _ Hi Hk) as [Hnd Hf].
    assert (Hw : waiting_memory value_size (waitlist (shared st)) <= delta_memory value_size objs).
    { apply sum_submseteq; [apply Forall_forall; intros x Hx; apply list_elem_of_filter in Hx as [_ Hx]; rewrite Forall_forall in Hv; auto|]. apply NoDup_submseteq; [done|]. intros x Hx.
      rewrite Forall_forall in Hf. apply list_elem_of_filter. destruct (Hf x Hx). done. }
    specialize (Hroom st ltac:(done)). unfold memory_used, cache_objs_mem_used in Hwait.
    destruct limit as [l|] eqn:El; [|done]. specialize (Hlim l eq_refl). rewrite Z.leb_gt in Hwait. lia.
Qed.

Lemma paced_run_sample :
  @paced_steps true plain_texts hex_reference toy_hasher toy_lru unlimited (fun _ => []) (fun _ _ => Err []) stream_params
    200 (fun _ => 0) (fun _ => (0, 0)) (effective_limit (Some 8) (Some 300)) 25 stream_start stream_end.
Proof. apply (paced_schedule_steps _ _ _ _ _ _ _ stream_start stream_schedule). vm_compute. reflexivity. Qed.

(** The sample stream with room for its one delta. *)
Lemma paced_decode_ends_witness :
  (25 <= 17 * Z.to_nat 2 + 8)%nat
  /\ ((forall st', ~ @paced_step true plain_texts hex_reference toy_hasher toy_lru unlimited (fun _ => []) (fun _ _ => Err []) stream_params
        200 (fun _ => 0) (fun _ => (0, 0)) (effective_limit (Some 8) (Some 300)) stream_end st') ->
      exists r, main stream_end = Return r /\ queued stream_end = [] /\ running stream_end = []
      /\ (r = Ok tt <-> forall o, o ∈ stream_objs -> exists x, resolves toy_rebuild stream_objs o x)).
Proof.
  apply (@paced_decode_ends true plain_texts hex_reference hex_reference_laws toy_hasher toy_hasher_laws stored_zlib
    stored_zlib_consumes toy_crc toy_lru toy_lru_laws unlimited (fun _ => []) (fun _ _ => Err []) stream_params HashKind.Sha1
    (Some 8) [] DecodeRetention_default false stream_pack 2 stream_objs 200 (fun _ => 0) (fun _ => (0, 0)) (Some 300) 0 25 stream_end).
  - reflexivity.
  - apply toy_zstd_sane.
  - apply stream_readable.
  - repeat (apply Forall_cons_2; [vm_compute; discriminate|]). apply Forall_nil_2.
  - intros st _. vm_compute. discriminate.
  - intros l [= <-]. vm_compute. discriminate.
  - apply paced_run_sample.
Defined.

(** ** A limit that is too small *)

(** Deltas that wait for a base still to be read are not freed: when they exceed the limit and no task is
    left, the reading thread waits for ever. *)
Lemma waiting_over_limit `{Build} `{TextEnv} `{HexCrate} `{Hasher} `{ZlibDecoder} `{Crc32} `{LruCache} `{Allocator}
  delta_error_text zstdelta_apply p value_size held capacities l (st : State) :
  idle st -> 0 <= held st -> 0 <= (capacities st).1 -> 0 <= (capacities st).2 -> l < waiting_memory value_size (waitlist (shared st)) ->
  forall st', ~ paced_step delta_error_text zstdelta_apply p value_size held capacities (Some l) st st'.
Proof.
  intros (Hh & Hq & Hr) Hheld Hc1 Hc2 Hw st' Hs.
  assert (Hm : may_read value_size held capacities (Some l) st = false).
  { unfold may_read, memory_used, cache_objs_mem_used, memory_used_index, SIZE_OF_OBJECT_HASH, SIZE_OF_USIZE. cbn [bool_decide].
    apply andb_false_iff. right. apply Z.leb_gt. rewrite bool_decide_false by done. lia. }
  destruct Hs as [m qs rs s s' m' ts Hx Hg|k s|m qs1 t qs2 rs s|m qs rs1 q rs2 s s' q' ts Hx|m qs rs1 q rs2 s Ho]; cbn [main queued running] in *.
  - rewrite (Hg Hh) in Hm. discriminate Hm.
  - discriminate Hh.
  - by destruct qs1.
  - by destruct rs1.
  - by destruct rs1.
Qed.

(** A pack whose first entry is a delta on the second, named by its identifier. *)
Definition late_id : ObjectHash.t := Eval vm_compute in
  match @calculate_object_hash toy_hasher HashKind.Sha1 ObjectType.Blob [1; 2; 3] with Ok h => h | _ => ObjectHash.Sha1 [] end.

Definition late_pack : bytes := Eval vm_compute in
  toy_pack [[0x76] ++ ObjectHash.as_ref late_id ++ stored_compress [3; 3; 0x90; 2; 1; 9]; toy_base].

Definition late_start : @State toy_lru := toy_initial stream_params HashKind.Sha1 streaming (Some 80) [] DecodeRetention_default false late_pack.

Definition late_read : list Choice := repeat Main 2 ++ [Start 0] ++ repeat (Run 0) 4.
Definition late_rest : list Choice := repeat Main 2 ++ [Start 0] ++ repeat (Run 0) 6 ++ [Start 0] ++ repeat (Run 0) 5 ++ repeat Main 5.

(** The machine with objects of 200 bytes and more, nothing else in memory, and a limit of 100 bytes. *)
Abbreviation late_paced := (@paced_steps true plain_texts hex_reference toy_hasher toy_lru unlimited (fun _ => []) (fun _ _ => Err []) stream_params
  200 (fun _ => 0) (fun _ => (0, 0)) (Some 100)).
Abbreviation late_step := (@paced_step true plain_texts hex_reference toy_hasher toy_lru unlimited (fun _ => []) (fun _ _ => Err []) stream_params
  200 (fun _ => 0) (fun _ => (0, 0)) (Some 100)).

(** A decode with a memory limit may wait for ever on a good pack: one that decodes when the limit is
    left out reaches, with it, a state in which no thread can move and the reading thread has not returned. *)
Theorem small_limit_never_returns :
  (exists k st, toy_steps stream_params k late_start st /\ main st = Return (Ok tt))
  /\ exists k st, late_paced k late_start st /\ (forall st', ~ late_step st st') /\ forall r, main st <> Return r.
Proof.
  split.
  - exists (length (late_read ++ late_rest)), (toy_after stream_params late_start (late_read ++ late_rest)).
    split; [apply after_steps; vm_compute; reflexivity|]. apply result_of_main. vm_compute. reflexivity.
  - exists (length late_read), (toy_after stream_params late_start late_read). split; [|split].
    + apply paced_schedule_steps. vm_compute. reflexivity.
    + apply (@waiting_over_limit true plain_texts hex_reference toy_hasher stored_zlib toy_crc toy_lru unlimited);
        [split; [|split]; vm_compute; reflexivity|done|done|done|vm_compute; reflexivity].
    + intros r Hr. assert (Hh : at_loop_head (main (toy_after stream_params late_start late_read)) = true) by (vm_compute; reflexivity).
      rewrite Hr in Hh. discriminate Hh.
Qed.

(** * Memory of the cache *)

(** [memory_used] and [clear] of the cache; the pool has been joined, so its counts are zero. *)
Definition Caches_memory_used `{LruCache} (c : Caches) (capacities : Z * Z) : Z :=
  current_size (lru_cache c) + memory_used_index (bool_decide (Caches.mem_size c = None)) capacities.1 capacities.2.

Definition Caches_clear `{LruCache} (c : Caches) : Res Empty_set Caches :=
  let c := shutdown c in if bool_decide (size (lru_view (lru_cache c)) = 0%nat) then Ok c else Panic.

(** The assertions of [clear] hold, and nothing is left to find. *)
Theorem clear_empties `{LruCache} `{!LruLaws} (c : Caches) :
  exists c', Caches_clear c = Ok c' /\ total_inserted c' = 0 /\ forall offset, get_hash c' offset = None.
Proof.
  eexists. unfold Caches_clear. rewrite bool_decide_true by (cbn; rewrite clear_view; apply map_size_empty). split; [reflexivity|].
  unfold total_inserted, get_hash. cbn. destruct (Caches.mem_size c), (unbounded_offset_cache c); cbn;
    (split; [try apply (f_equal Z.of_nat); rewrite ?size_empty, ?map_size_empty; reflexivity|intros offset; by rewrite lookup_empty]).
Qed.

(** [read_from_temp]: an object made from the file carries no recorder. *)
Definition read_from_temp `{Build} (value_size capacity : Z) (p : path) (fs : files) (counter : Z) : Res Empty_set (option (Tracked * Z)) :=
  match f_load p fs with
  | Some o =>
      let obj := mkTracked o capacity false in
      let! counter := record_mem_size value_size obj counter in Ok (Some (obj, counter))
  | None => Ok None
  end.

(** An object that comes back from its file is not counted: the limit does not see it. *)
Theorem reload_not_counted `{Build} (value_size capacity : Z) (p : path) (fs : files) (counter : Z) :
  read_from_temp value_size capacity p fs counter = Ok ((fun o => (mkTracked o capacity false, counter)) <$> f_load p fs).
Proof. unfold read_from_temp. by destruct (f_load p fs). Qed.
