(* ===== verification/EntrySort.v ===== *)
(** The order in which the pack encoder looks at entries and its cheap similarity
    test, [src/internal/pack/encode/sort.rs].

    [magic_sort] ends in a comparison of the addresses of the two entries, which is the
    parameter [address_cmp] here.  The standard library's [sort_by] is a parameter
    too, with what it documents: the result is a permutation, sorted when the comparison
    is a total order; when it is not, the sort may panic. *)

From Stdlib Require Import ZArith Lia String Permutation Sorted.
From stdpp Require Import base tactics list numbers option gmap.
From S2P Require Import Prelude Text Errors ObjectTypes PackUtils DeltaEncode Hash PackIndex.

(** * Paths (Unix) *)

Inductive Component : Type :=
| RootDir
| CurDir
| ParentDir
| Normal (name : bytes).

Fixpoint split_slash (cur p : bytes) : list bytes :=
  match p with
  | [] => [cur]
  | b :: p => if b =? 47 then cur :: split_slash [] p else split_slash (cur ++ [b]) p
  end.

(** [Path::components]: empty segments and inner [.] are dropped. *)
Definition segment (first : bool) (s : bytes) : list Component :=
  if bool_decide (s = []) then []
  else if bool_decide (s = str ".") then (if first then [CurDir] else [])
  else if bool_decide (s = str "..") then [ParentDir]
  else [Normal s].

Definition components (p : bytes) : list Component :=
  match split_slash [] p with
  | [] => []
  | s :: rest =>
      (if starts_with (str "/") p then [RootDir] else segment true s)
      ++ concat (map (segment false) rest)
  end.

(** [Path::parent], as the components of the path it returns. *)
Definition parent (p : bytes) : option (list Component) :=
  match split_last (components p) with
  | None => None
  | Some (_, RootDir) => None
  | Some (front, _) => Some front
  end.

(** * Comparisons *)

Definition then_cmp (c1 c2 : comparison) : comparison := match c1 with Eq => c2 | _ => c1 end.

Fixpoint list_cmp {A} (cmp : A -> A -> comparison) (l m : list A) : comparison :=
  match l, m with
  | [], [] => Eq
  | [], _ :: _ => Lt
  | _ :: _, [] => Gt
  | x :: l, y :: m => then_cmp (cmp x y) (list_cmp cmp l m)
  end.

Definition option_cmp {A} (cmp : A -> A -> comparison) (x y : option A) : comparison :=
  match x, y with
  | None, None => Eq
  | None, Some _ => Lt
  | Some _, None => Gt
  | Some x, Some y => cmp x y
  end.

Definition component_rank (c : Component) : Z :=
  match c with RootDir => 1 | CurDir => 2 | ParentDir => 3 | Normal _ => 4 end.

Definition component_name (c : Component) : bytes := match c with Normal n => n | _ => [] end.

(** The derived order of [Component]. *)
Definition component_cmp (a b : Component) : comparison :=
  then_cmp (component_rank a ?= component_rank b) (list_cmp Z.compare (component_name a) (component_name b)).

Definition parent_cmp : option (list Component) -> option (list Component) -> comparison :=
  option_cmp (list_cmp component_cmp).

(** [slice::sort_by]. *)
Definition total_order {A} (f : A -> A -> comparison) : Prop :=
  (forall a b, f a b = CompOpp (f b a))
  /\ (forall a b c, f a b <> Gt -> f b c <> Gt -> f a c <> Gt).

Class SliceSort := sort_by : forall {A}, (A -> A -> Res Empty_set comparison) -> list A -> Res Empty_set (list A).

Class SliceSortLaws `{SliceSort} : Prop := {
  sort_by_perm : forall A (cmp : A -> A -> Res Empty_set comparison) l l',
    sort_by cmp l = Ok l' -> Permutation l l';
  sort_by_total : forall A (f : A -> A -> comparison) cmp (l : list A),
    total_order f -> (forall a b, a ∈ l -> b ∈ l -> cmp a b = Ok (f a b)) ->
    exists l', sort_by cmp l = Ok l' /\ Sorted (fun a b => f a b <> Gt) l'
}.

(** AHash of a byte slice. *)
Class AHash := calc_hash : bytes -> Z.

Section sorting.
Context `{Build} `{AHash}.

(** ** The order *)

Fixpoint key_loop (key : Z) (data : bytes) : Z :=
  match data with
  | [] => key
  | byte :: data => key_loop (Z.lor (as_u64 (Z.shiftl key 8)) byte) data
  end.

(** [key <<= (8 - len) * 8] shifts by 64 for an empty slice. *)
Definition content_sort_key (data : bytes) : Res Empty_set Z :=
  let len := Z.min (blen data) 8 in
  let key := key_loop 0 (slice data 0 len) in
  shl_u64 key ((8 - len) * 8).

Definition magic_sort (address_cmp : MetaAttached Entry EntryMeta -> MetaAttached Entry EntryMeta -> comparison)
  (a b : MetaAttached Entry EntryMeta) : Res Empty_set comparison :=
  let by_size :=
    then_cmp (blen (entry_data (ma_inner b)) ?= blen (entry_data (ma_inner a))) (address_cmp a b) in
  match file_path (ma_meta a), file_path (ma_meta b) with
  | Some pa, Some pb =>
      let dir_ord := parent_cmp (parent pa) (parent pb) in
      match dir_ord with
      | Eq =>
          let! hash_a := pack_name_hash pa in
          let! hash_b := pack_name_hash pb in
          if negb (hash_a =? hash_b) then Ok (hash_b ?= hash_a) else Ok by_size
      | _ => Ok dir_ord
      end
  | Some _, None => Ok Lt
  | None, Some _ => Ok Gt
  | None, None =>
      let! key_a := content_sort_key (entry_data (ma_inner a)) in
      let! key_b := content_sort_key (entry_data (ma_inner b)) in
      match key_a ?= key_b with
      | Eq => Ok by_size
      | ord => Ok ord
      end
  end.

(** ** The similarity test *)

Definition multi_point_similar (a b : bytes) : bool :=
  let min_len := Z.min (blen a) (blen b) in
  if min_len <? 16 then false
  else
    let head_len := Z.min 128 min_len in
    if calc_hash (slice a 0 head_len) =? calc_hash (slice b 0 head_len) then true
    else
      let tail_start := Z.max 0 (min_len - 128) in
      calc_hash (slice a tail_start min_len) =? calc_hash (slice b tail_start min_len).

(** The test of a build without the Rabin encoder. *)
Definition cheap_similar (a b : bytes) : bool :=
  let k := Z.min (Z.min (blen a) (blen b)) 128 in
  if k =? 0 then false else calc_hash (slice a 0 k) =? calc_hash (slice b 0 k).

End sorting.

(** * The order is total *)

Lemma then_cmp_opp c1 c2 : CompOpp (then_cmp c1 c2) = then_cmp (CompOpp c1) (CompOpp c2).
Proof. by destruct c1. Qed.

Lemma then_cmp_le c1 c2 : then_cmp c1 c2 <> Gt <-> c1 = Lt \/ c1 = Eq /\ c2 <> Gt.
Proof. destruct c1, c2; cbn; naive_solver. Qed.

(** The three facts of a total order that compose. *)
Section total_orders.
Context {A : Type}.
Implicit Types f g : A -> A -> comparison.

Lemma total_eq_l f a b c : total_order f -> f a b = Eq -> f a c = f b c.
Proof.
  intros [Hs Ht] E. assert (E' : f b a = Eq) by (rewrite Hs, E; done).
  assert (H1 : f a c <> Gt <-> f b c <> Gt).
  { split; intros Hc; [apply (Ht b a c)|apply (Ht a b c)]; congruence. }
  assert (H2 : f c a <> Gt <-> f c b <> Gt).
  { split; intros Hc; [apply (Ht c a b)|apply (Ht c b a)]; congruence. }
  rewrite (Hs c a), (Hs c b) in H2. destruct (f a c), (f b c); cbn in *; naive_solver.
Qed.

Lemma total_lt_l f a b c : total_order f -> f a b = Lt -> f b c <> Gt -> f a c = Lt.
Proof.
  intros Hf E Hc. destruct (f a c) eqn:Ec; [|done|].
  - rewrite (total_eq_l f a c b Hf Ec) in E. destruct Hf as [Hs _]. rewrite Hs, E in Hc. done.
  - exfalso. destruct Hf as [_ Ht]. apply (Ht a b c); congruence.
Qed.

Lemma total_lt_r f a b c : total_order f -> f a b <> Gt -> f b c = Lt -> f a c = Lt.
Proof.
  intros Hf Hab E. destruct (f a b) eqn:Eb; [|by rewrite (total_lt_l f a b c Hf Eb) by congruence|done].
  by rewrite (total_eq_l f a b c Hf Eb).
Qed.

Lemma total_then f g : total_order f -> total_order g -> total_order (fun a b => then_cmp (f a b) (g a b)).
Proof.
  intros Hf Hg. split.
  - intros a b. rewrite then_cmp_opp. by rewrite <- (proj1 Hf), <- (proj1 Hg).
  - intros a b c. rewrite !then_cmp_le. intros [E1|[E1 G1]] [E2|[E2 G2]].
    + left. eapply total_lt_l; eauto. congruence.
    + left. eapply total_lt_l; eauto. congruence.
    + left. rewrite (total_eq_l f a b c); done.
    + right. rewrite (total_eq_l f a b c) by done. split; [done|]. by eapply (proj2 Hg).
Qed.

Lemma total_flip f : total_order f -> total_order (fun a b => f b a).
Proof. intros [Hs Ht]. split; [done|]. intros a b c Hab Hbc. by apply (Ht c b a). Qed.

Lemma total_const : total_order (fun _ _ : A => Eq).
Proof. split; done. Qed.

End total_orders.

Lemma total_map {A B} (k : A -> B) f : total_order f -> total_order (fun a b => f (k a) (k b)).
Proof. intros [Hs Ht]. split; [done|]. intros a b c. apply Ht. Qed.

Lemma total_Z : total_order Z.compare.
Proof. split; [intros; apply Z.compare_antisym|]. intros a b c. rewrite !Z.compare_le_iff. lia. Qed.

Lemma total_asc {A} (k : A -> Z) : total_order (fun a b => k a ?= k b).
Proof. apply (total_map k), total_Z. Qed.

Lemma total_desc {A} (k : A -> Z) : total_order (fun a b => k b ?= k a).
Proof. apply (total_flip (fun a b => k a ?= k b)), total_asc. Qed.

Lemma total_list {A} (f : A -> A -> comparison) : total_order f -> total_order (list_cmp f).
Proof.
  intros Hf. split.
  - intros l. induction l as [|x l IH]; intros [|y m]; cbn; try done.
    by rewrite then_cmp_opp, <- IH, <- (proj1 Hf).
  - intros l. induction l as [|x l IH]; intros [|y m] [|z n]; cbn; try done.
    rewrite !then_cmp_le. intros [E1|[E1 G1]] [E2|[E2 G2]].
    + left. eapply total_lt_l; eauto. congruence.
    + left. eapply total_lt_l; eauto. congruence.
    + left. rewrite (total_eq_l f x y z); done.
    + right. rewrite (total_eq_l f x y z) by done. split; [done|]. by eapply IH.
Qed.

Lemma total_option {A} (f : A -> A -> comparison) : total_order f -> total_order (option_cmp f).
Proof.
  intros [Hs Ht]. split; [intros [x|] [y|]; cbn; done|].
  intros [x|] [y|] [z|]; cbn; try done. apply Ht.
Qed.

Lemma total_component : total_order component_cmp.
Proof.
  apply (total_then (fun a b => component_rank a ?= component_rank b)
           (fun a b => list_cmp Z.compare (component_name a) (component_name b))).
  - apply (total_map component_rank), total_Z.
  - apply (total_map component_name), total_list, total_Z.
Qed.

Lemma pack_name_hash_returns p : exists h, pack_name_hash p = Ok h.
Proof.
  unfold pack_name_hash, last_component.
  set (i := match rposition (Z.eqb 47) p with Some i => i + 1 | None => 0 end).
  assert (Hi : 0 <= i <= blen p).
  { unfold i. assert (Hr : forall l, match rposition (Z.eqb 47) l with Some i => 0 <= i < blen l | None => True end).
    { induction l as [|b l IH]; [done|]. cbn [rposition]. rewrite blen_cons. pose proof (blen_nonneg l).
      revert IH. destruct (rposition (Z.eqb 47) l); [lia|]. intros _. destruct (47 =? b); [lia|done]. }
    specialize (Hr p). revert Hr. pose proof (blen_nonneg p). destruct (rposition (Z.eqb 47) p); lia. }
  rewrite get_range_ok by lia. by eexists.
Qed.

(** The keys of an entry, in the order in which they are compared. *)
Definition name_hash (p : bytes) : Z := match pack_name_hash p with Ok h => h | _ => 0 end.

Definition content_key `{Build} (d : bytes) : Z := match content_sort_key d with Ok k => k | _ => 0 end.

Definition key_order `{Build} (address_cmp : MetaAttached Entry EntryMeta -> MetaAttached Entry EntryMeta -> comparison)
  (a b : MetaAttached Entry EntryMeta) : comparison :=
  let path e := file_path (ma_meta e) in
  let data e := entry_data (ma_inner e) in
  then_cmp ((if path a then 0 else 1) ?= (if path b then 0 else 1))
    (then_cmp (parent_cmp (path a ≫= parent) (path b ≫= parent))
      (then_cmp (default 0 (name_hash <$> path b) ?= default 0 (name_hash <$> path a))
        (then_cmp ((if path a then 0 else content_key (data a)) ?= (if path b then 0 else content_key (data b)))
          (then_cmp (blen (data b) ?= blen (data a)) (address_cmp a b))))).

Lemma key_order_total `{Build} address_cmp : total_order address_cmp -> total_order (key_order address_cmp).
Proof.
  intros Ha. unfold key_order.
  repeat (apply total_then; [first [apply total_asc | apply total_desc
    | apply (total_map (fun e => file_path (ma_meta e) ≫= parent)), total_option, total_list, total_component]|]).
  done.
Qed.

Lemma content_sort_key_ok `{Build} (data : bytes) : data <> [] -> content_sort_key data = Ok (content_key data).
Proof.
  intros Hne. unfold content_key, content_sort_key, shl_u64. assert (0 < blen data) by (destruct data; [done|blens]).
  by replace (_ <? 64) with true by lia.
Qed.

(** An entry whose sort key can be computed: one with a path or with content. *)
Definition sortable (e : MetaAttached Entry EntryMeta) : Prop :=
  file_path (ma_meta e) = None -> entry_data (ma_inner e) <> [].

Lemma magic_sort_keys `{Build} address_cmp a b :
  sortable a -> sortable b -> magic_sort address_cmp a b = Ok (key_order address_cmp a b).
Proof.
  intros Ha Hb. unfold sortable, magic_sort, key_order in *.
  destruct (file_path (ma_meta a)) as [pa|], (file_path (ma_meta b)) as [pb|]; cbn [then_cmp Z.compare mbind option_bind fmap option_fmap option_map default from_option]; try done.
  - destruct (parent_cmp (parent pa) (parent pb)); try done. unfold name_hash.
    destruct (pack_name_hash_returns pa) as [ha ->], (pack_name_hash_returns pb) as [hb ->]. cbn [rbind then_cmp].
    destruct (ha =? hb) eqn:E; cbn [negb].
    + apply Z.eqb_eq in E as ->. unfold id. by rewrite Z.compare_refl.
    + apply Z.eqb_neq in E. destruct (hb ?= ha) eqn:Ec; try (unfold id; by rewrite Ec). apply Z.compare_eq in Ec. congruence.
  - rewrite !content_sort_key_ok by auto. cbn [rbind parent_cmp option_cmp then_cmp Z.compare].
    by destruct (content_key _ ?= content_key _).
Qed.

(** the pack encoder's order is a total order on the entries it can compare, as the
    standard sort requires: grouped by directory, name hash or first bytes, larger objects
    first, the address deciding what is left; so sorting a type's entries succeeds and gives
    a permutation of them in this order. *)
Theorem magic_sort_sorts `{Build} `{SliceSort} `{!SliceSortLaws}
  (address_cmp : MetaAttached Entry EntryMeta -> MetaAttached Entry EntryMeta -> comparison)
  (entries : list (MetaAttached Entry EntryMeta)) :
  total_order address_cmp -> Forall sortable entries ->
  exists sorted, sort_by (magic_sort address_cmp) entries = Ok sorted /\ Permutation entries sorted
    /\ Sorted (fun a b => magic_sort address_cmp a b <> Ok Gt) sorted.
Proof.
  intros Ha Hs. rewrite list.Forall_forall in Hs.
  destruct (sort_by_total _ (key_order address_cmp) (magic_sort address_cmp) entries) as (l & Hl & Hsorted).
  - by apply key_order_total.
  - intros a b Hina Hinb. apply magic_sort_keys; by apply Hs.
  - exists l. split; [done|]. pose proof (sort_by_perm _ _ _ _ Hl) as Hp. split; [done|].
    assert (Hsl : Forall sortable l) by (apply list.Forall_forall; intros x Hx; apply Hs; by rewrite Hp).
    clear -Hsorted Hsl. induction Hsorted as [|a l Hl IH Hd]; constructor; apply Forall_cons_1 in Hsl as [Hsa Hsl]; [auto|].
    destruct Hd as [|b l Hab]; constructor. apply Forall_cons_1 in Hsl as [Hsb _].
    rewrite magic_sort_keys by done. congruence.
Qed.

(** An insertion sort that meets the contract. *)
Fixpoint insert_by {A} (cmp : A -> A -> Res Empty_set comparison) (x : A) (l : list A) : Res Empty_set (list A) :=
  match l with
  | [] => Ok [x]
  | y :: l' =>
      let! c := cmp x y in
      match c with
      | Gt => let! l' := insert_by cmp x l' in Ok (y :: l')
      | _ => Ok (x :: l)
      end
  end.

Fixpoint insertion_sort_by {A} (cmp : A -> A -> Res Empty_set comparison) (l : list A) : Res Empty_set (list A) :=
  match l with
  | [] => Ok []
  | x :: l => let! l := insertion_sort_by cmp l in insert_by cmp x l
  end.

Definition insertion_sort : SliceSort := @insertion_sort_by.

Lemma insert_by_perm {A} cmp (x : A) l l' : insert_by cmp x l = Ok l' -> Permutation (x :: l) l'.
Proof.
  revert l'. induction l as [|y l IH]; intros l' Hl; cbn [insert_by] in Hl; [by injection Hl as <-|].
  destruct (cmp x y) as [[]|[]| |]; try discriminate Hl; cbn [rbind] in Hl; try (by injection Hl as <-).
  destruct (insert_by cmp x l) as [m|[]| |] eqn:E; try discriminate Hl. injection Hl as <-.
  rewrite perm_swap. constructor. by apply IH.
Qed.

Lemma insert_by_total {A} (f : A -> A -> comparison) cmp x l :
  total_order f -> (forall y, y ∈ l -> cmp x y = Ok (f x y)) -> Sorted (fun a b => f a b <> Gt) l ->
  exists l', insert_by cmp x l = Ok l' /\ Sorted (fun a b => f a b <> Gt) l'
    /\ forall z, HdRel (fun a b => f a b <> Gt) z l -> f z x <> Gt -> HdRel (fun a b => f a b <> Gt) z l'.
Proof.
  intros Hf. induction l as [|y l IH]; intros Hc Hl; cbn [insert_by].
  - eexists. split; [done|]. split; [repeat constructor|]. intros z _ Hz. by constructor.
  - rewrite Hc by left. cbn [rbind]. apply Sorted_inv in Hl as [Hl Hy]. destruct (f x y) eqn:E.
    1,2: eexists; split; [done|]; split; [constructor; [by constructor|]|]; [constructor; congruence|];
      intros z _ Hz; by constructor.
    destruct IH as (l' & -> & Hs & Hh); [intros; apply Hc; by right|done|]. cbn [rbind]. eexists. split; [done|]. split.
    + constructor; [done|]. apply Hh; [done|]. rewrite (proj1 Hf), E. done.
    + intros z Hz _. inversion Hz; subst. by constructor.
Qed.

Lemma insertion_sort_perm {A} (cmp : A -> A -> Res Empty_set comparison) l l' :
  insertion_sort_by cmp l = Ok l' -> Permutation l l'.
Proof.
  revert l'. induction l as [|x l IH]; intros l' Hl; cbn [insertion_sort_by] in Hl; [by injection Hl as <-|].
  destruct (insertion_sort_by cmp l) as [m|[]| |]; try discriminate Hl. cbn [rbind] in Hl.
  rewrite (IH m) by done. by eapply insert_by_perm.
Qed.

Lemma insertion_sort_laws : @SliceSortLaws insertion_sort.
Proof.
  split; unfold sort_by, insertion_sort.
  - intros A cmp l l'. apply insertion_sort_perm.
  - intros A f cmp l Hf. induction l as [|x l IH]; intros Hc; cbn [insertion_sort_by]; [eexists; split; [done|constructor]|].
    destruct IH as (m & Hm & Hs); [intros a b Ha Hb; apply Hc; by right|]. rewrite Hm. cbn [rbind].
    destruct (insert_by_total f cmp x m Hf) as (l' & Hl & Hs' & _); [|done|by exists l'].
    intros y Hy. apply Hc; [left|]. right.
    by rewrite (insertion_sort_perm _ _ _ Hm).
Qed.

Definition sample_file (path : option bytes) (data : bytes) : MetaAttached Entry EntryMeta :=
  mkMetaAttached _ _ (mkEntry ObjectType.Blob data (ObjectHash.Sha1 []) 0) (mkEntryMeta path None None None None).

Definition sample_files : list (MetaAttached Entry EntryMeta) :=
  [sample_file None [7; 8]; sample_file (Some (str "b/x.c")) [1]; sample_file (Some (str "a//y.c")) [];
   sample_file (Some (str "a/./y.c")) [1; 2]; sample_file None [7; 8; 9]].

(** The longer of two revisions in one directory first, then the other directory, then the
    entries without path. *)
Lemma magic_sort_sorts_witness :
  @sort_by insertion_sort _ (@magic_sort true (fun _ _ => Eq)) sample_files
    = Ok [sample_file (Some (str "a/./y.c")) [1; 2]; sample_file (Some (str "a//y.c")) [];
          sample_file (Some (str "b/x.c")) [1]; sample_file None [7; 8]; sample_file None [7; 8; 9]]
  /\ exists sorted, @sort_by insertion_sort _ (@magic_sort true (fun _ _ => Eq)) sample_files = Ok sorted
    /\ Permutation sample_files sorted
    /\ Sorted (fun a b => @magic_sort true (fun _ _ => Eq) a b <> Ok Gt) sorted.
Proof.
  split; [vm_compute; reflexivity|].
  apply (@magic_sort_sorts true insertion_sort insertion_sort_laws).
  - apply total_const.
  - unfold sample_files. repeat constructor; unfold sortable; cbn; discriminate.
Defined.

(** an empty object without a path cannot be compared in a build with overflow checks:
    its content key shifts by 64 bits, and the sort panics; without the checks its key is 0. *)
Theorem empty_content_key `{Build} (address_cmp : MetaAttached Entry EntryMeta -> MetaAttached Entry EntryMeta -> comparison)
  (a b : MetaAttached Entry EntryMeta) :
  content_sort_key [] = (if overflow_checks then Panic else Ok 0)
  /\ (overflow_checks = true -> file_path (ma_meta a) = None -> file_path (ma_meta b) = None ->
      entry_data (ma_inner a) = [] -> magic_sort address_cmp a b = Panic).
Proof.
  assert (Hk : content_sort_key [] = (if overflow_checks then Panic else Ok 0)) by done.
  split; [done|]. intros Ho Ha Hb Hd. unfold magic_sort. by rewrite Ha, Hb, Hd, Hk, Ho.
Qed.

Lemma empty_content_key_witness :
  @magic_sort true (fun _ _ => Eq) (sample_file None []) (sample_file None [7]) = Panic.
Proof.
  apply (@empty_content_key true (fun _ _ => Eq) (sample_file None []) (sample_file None [7])); reflexivity.
Defined.
