(* ===== verification/Wrapper.v ===== *)
(** The hashing reader [Wrapper] of [src/internal/pack/wrapper.rs], [CountingReader] and the
    reading helpers of [src/utils.rs], over a reader that may cut its data into pieces, be
    interrupted or fail.

    Code that reads through the wrapper is written in the reader monad [R]; [reads] and [consumes]
    are its two program logics: what a reader makes of the bytes a writer wrote, and what is known
    of the bytes a reader accepted. *)

From Stdlib Require Import ZArith Lia String.
From stdpp Require Import base tactics list numbers option gmap.
From S2P Require Import Prelude Stream Text Errors ObjectTypes PackUtils Hash PackIndex.

(** * The readers *)

Record CountingReader : Type := mkCounting { cr_inner : list ReadEvent; cr_bytes_read : Z }.

Definition CountingReader_new (inner : list ReadEvent) : CountingReader := mkCounting inner 0.

Definition CountingReader_read (n : Z) (r : CountingReader) : ReadResult * CountingReader :=
  match read_some n (cr_inner r) with
  | (Got d, evs) => (Got d, mkCounting evs (cr_bytes_read r + blen d))
  | (res, evs) => (res, mkCounting evs (cr_bytes_read r))
  end.

Section wrapper.
Context `{Hasher} `{TextEnv}.

Record Wrapper : Type := mkWrapper {
  w_inner : list ReadEvent;
  w_hash : option HashAlgorithm;
  bytes_read : Z
}.

Definition Wrapper_new_with_kind (inner : list ReadEvent) (kind : HashKind.t) : Wrapper :=
  mkWrapper inner (Some (HashAlgorithm_new_for_kind kind)) 0.

Definition Wrapper_new_without_hash (inner : list ReadEvent) : Wrapper := mkWrapper inner None 0.

Definition Wrapper_hash_kind (w : Wrapper) : option HashKind.t := option_map HashAlgorithm_kind (w_hash w).

Definition Wrapper_final_hash {E} (w : Wrapper) : Res E ObjectHash.t :=
  let! h := or_panic (w_hash w) in
  Ok (HashAlgorithm_finalize_object_hash h).

Definition Wrapper_read (n : Z) (w : Wrapper) : ReadResult * Wrapper :=
  match read_some n (w_inner w) with
  | (Got d, evs) =>
      (Got d, mkWrapper evs (option_map (fun h => HashAlgorithm_update h d) (w_hash w)) (bytes_read w + blen d))
  | (res, evs) => (res, mkWrapper evs (w_hash w) (bytes_read w))
  end.

(** [fill_buf] shows the next piece without taking it; it is empty at the end of the data. *)
Definition Wrapper_fill_buf (w : Wrapper) : Res IoError bytes :=
  match w_inner w with
  | Chunk d :: _ => Ok d
  | Interrupted :: _ => Err (OtherIo "interrupted")
  | Failed e :: _ => Err e
  | [] => Ok []
  end.

(** [consume] fills the buffer again and panics when that fails or holds less than [amt]. *)
Definition Wrapper_consume (amt : Z) (w : Wrapper) : Res Empty_set Wrapper :=
  let! buffer := unwrap (Wrapper_fill_buf w) in
  let! d := or_panic (get_range buffer 0 amt) in
  let inner := match w_inner w with
               | Chunk b :: evs => if amt =? blen b then evs else Chunk (drop (Z.to_nat amt) b) :: evs
               | evs => evs
               end in
  Ok (mkWrapper inner (option_map (fun h => HashAlgorithm_update h d) (w_hash w)) (bytes_read w + amt)).

(** [while filled < n]: [read] into the rest of the buffer, again after an interruption, until it is
    full or the data end; a failure is reported with the number of bytes read before it.  This is the
    loop of [from_stream_for_kind], and that of [Read::read_exact] in the standard library. *)
Fixpoint fill (fuel : nat) (n : Z) (buf : bytes) (w : Wrapper) : Res (IoError * Z) (bytes * Wrapper) :=
  match fuel with
  | O => OutOfFuel
  | S fuel =>
      if blen buf <? n then
        match Wrapper_read (n - blen buf) w with
        | (Got [], w) => Ok (buf, w)
        | (Got d, w) => fill fuel n (buf ++ d) w
        | (GotInterrupted, w) => fill fuel n buf w
        | (GotError e, _) => Err (e, blen buf)
        end
      else Ok (buf, w)
  end.

(** A round takes an event or completes the buffer. *)
Definition fill_buffer (n : Z) (w : Wrapper) : Res (IoError * Z) (bytes * Wrapper) :=
  fill (S (S (length (w_inner w)))) n [] w.

(** [read_bytes]: [read_exact] into a new buffer. *)
Definition read_bytes (n : Z) (w : Wrapper) : Res IoError (bytes * Wrapper) :=
  let! '(buf, w) := map_err fst (fill_buffer n w) in
  if blen buf =? n then Ok (buf, w) else Err UnexpectedEof.

(** [from_stream_for_kind] reading through the wrapper. *)
Definition read_sha_for_kind (kind : HashKind.t) (w : Wrapper) : Res HashError (ObjectHash.t * Wrapper) :=
  let expected := HashKind.size kind in
  let! '(buf, w) := map_err (fun '(e, filled) => Io (str "from_stream_for_kind") kind expected filled e)
                      (fill_buffer expected w) in
  if negb (blen buf =? expected)
  then Err (InvalidLength (str "from_stream_for_kind") kind expected (blen buf))
  else
    let! h := ObjectHash.from_bytes_for_kind kind buf in
    Ok (h, w).

(** * The reader monad *)

Definition R (A : Type) : Type := Wrapper -> Res GitError (A * Wrapper).

Definition r_ret {A} (a : A) : R A := fun w => Ok (a, w).
Definition r_fail {A} (e : GitError) : R A := fun _ => Err e.
Definition r_bind {A B} (m : R A) (k : A -> R B) : R B :=
  fun w => let! '(a, w) := m w in k a w.
Definition r_lift {A} (m : Res GitError A) : R A := fun w => let! a := m in Ok (a, w).

Definition r_bytes (n : Z) : R bytes := fun w => map_err IOError (read_bytes n w).
Definition r_sha (kind : HashKind.t) : R ObjectHash.t := fun w => map_err GitError_from (read_sha_for_kind kind w).
(** [bytes_read] and [final_hash] of the wrapper. *)
Definition r_bytes_read : R Z := fun w => Ok (bytes_read w, w).
Definition r_final_hash : R ObjectHash.t := fun w => let! h := Wrapper_final_hash w in Ok (h, w).

End wrapper.

Notation "'read!' x := m 'in' k" := (r_bind m (fun x => k)) (at level 200, x name, m at level 100, k at level 200, right associativity).
Notation "'read!' '_' := m 'in' k" := (r_bind m (fun _ => k)) (at level 200, m at level 100, k at level 200, right associativity).

Section big_endian.
Context `{Hasher}.

(** byteorder's [read_u32] and [read_u16] are [read_exact] and [from_be_bytes]. *)
Definition r_u32 : R Z := read! b := r_bytes 4 in r_ret (from_be b).
Definition r_u16 : R Z := read! b := r_bytes 2 in r_ret (from_be b).

End big_endian.

Definition be16 (n : Z) : bytes := [Z.shiftr n 8 mod 256; n mod 256].

Lemma from_be_be16 n : 0 <= n < 2 ^ 16 -> from_be (be16 n) = n.
Proof.
  intros Hn. unfold be16, from_be. cbn [fold_left]. rewrite Z.shiftr_div_pow2 by lia. change (2 ^ 8) with 256.
  Z.to_euclidean_division_equations; lia.
Qed.

(** * Reading what was written *)

Section logic.
Context `{HasherLaws} `{TextEnv}.
Variable kind : HashKind.t.

(** The state of the hash after [pre]. *)
Definition hashed (pre : bytes) (h : HashAlgorithm) : Prop :=
  pre = [] /\ h = HashAlgorithm_new_for_kind kind \/ h = HashAlgorithm_update (HashAlgorithm_new_for_kind kind) pre.

(** The wrapper has read [pre] and its reader still delivers [rest]. *)
Definition at_point (pre rest : bytes) (w : Wrapper) : Prop :=
  stream_data (w_inner w) = rest /\ Forall calm (w_inner w)
  /\ (exists h, w_hash w = Some h /\ hashed pre h) /\ bytes_read w = blen pre.

(** [m] makes [a] of the bytes [d], wherever they are. *)
Definition reads {A} (m : R A) (d : bytes) (a : A) : Prop :=
  forall pre rest w, at_point pre (d ++ rest) w ->
  exists w', m w = Ok (a, w') /\ at_point (pre ++ d) rest w'.

Lemma hashed_update pre h d : hashed pre h -> hashed (pre ++ d) (HashAlgorithm_update h d).
Proof. intros [[-> ->] | ->]; right; [done|apply update_app]. Qed.

Lemma hashed_nonempty pre h : hashed pre h -> pre <> [] -> h = HashAlgorithm_update (HashAlgorithm_new_for_kind kind) pre.
Proof. by intros [[-> _] | ->]. Qed.

Lemma at_start evs : Forall calm evs -> at_point [] (stream_data evs) (Wrapper_new_with_kind evs kind).
Proof. intros Hc. split; [done|]. split; [done|]. split; [|done]. eexists. split; [done|]. by left. Qed.

Lemma read_at n pre s w res w' :
  at_point pre s w -> 0 < n -> Wrapper_read n w = (res, w') ->
  (res = GotInterrupted /\ at_point pre s w' /\ (length (w_inner w') < length (w_inner w))%nat)
  \/ exists d s', res = Got d /\ s = d ++ s' /\ at_point (pre ++ d) s' w' /\ blen d <= n
       /\ (blen d = n \/ (length (w_inner w') < length (w_inner w))%nat \/ s = []) /\ (d = [] -> s = []).
Proof.
  intros (Hs & Hc & (h & Hh & Hp) & Hb) Hn E. unfold Wrapper_read in E. destruct w as [evs h' b]. cbn in *. subst s b h'.
  assert (Hat : forall d evs', Forall calm evs' ->
            at_point (pre ++ d) (stream_data evs') (mkWrapper evs' (Some (HashAlgorithm_update h d)) (blen pre + blen d))).
  { intros d evs' Hc'. split; [done|]. split; [done|]. split; [|cbn; by rewrite blen_app]. eexists. split; [done|]. by apply hashed_update. }
  destruct evs as [|ev evs].
  { cbn in E. injection E as <- <-. right. exists [], []. split; [done|]. split; [done|]. split; [by apply Hat|].
    split; [change (0 <= n); lia|]. split; [by right; right|done]. }
  apply Forall_cons_1 in Hc as [Hev Hc]. destruct ev as [d| |e]; cbn in Hev; [| |done].
  2:{ injection E as <- <-. left. split; [done|]. split; [|cbn; lia]. split; [done|]. split; [done|]. by split; [exists h|]. }
  right. cbn [read_some] in E. destruct (blen d <=? n) eqn:Ed; injection E as <- <-; cbn [option_map stream_data w_inner].
  - exists d, (stream_data evs). split; [done|]. split; [done|]. split; [by apply Hat|]. split; [lia|].
    split; [right; left; cbn; lia|]. done.
  - assert (Ht : blen (take (Z.to_nat n) d) = n) by (unfold blen in *; rewrite length_take; lia).
    exists (take (Z.to_nat n) d), (drop (Z.to_nat n) d ++ stream_data evs). split; [done|].
    split; [by rewrite app_assoc, take_drop|]. split; [|split; [lia|]].
    { apply (Hat (take (Z.to_nat n) d) (Chunk (drop (Z.to_nat n) d) :: evs)). apply Forall_cons_2; [|done].
      cbn. intros E. apply (f_equal length) in E. rewrite length_drop in E. cbn in E. unfold blen in *. lia. }
    split; [by left|]. intros E. rewrite E, blen_nil in Ht. lia.
Qed.

Lemma fill_calm fuel n buf pre s w :
  at_point pre s w -> blen buf <= n -> (S (length (w_inner w)) < fuel)%nat ->
  exists d s' w', fill fuel n buf w = Ok (buf ++ d, w') /\ s = d ++ s' /\ at_point (pre ++ d) s' w'
    /\ blen buf + blen d <= n /\ (blen buf + blen d = n \/ s' = []).
Proof.
  revert buf pre s w. induction fuel as [|fuel IH]; intros buf pre s w Hw Hn Hf; [lia|]. cbn [fill].
  assert (Hstop : blen buf = n \/ s = [] -> exists d s' w', Ok (E := IoError * Z) (buf, w) = Ok (buf ++ d, w') /\ s = d ++ s'
            /\ at_point (pre ++ d) s' w' /\ blen buf + blen d <= n /\ (blen buf + blen d = n \/ s' = [])).
  { intros Hd. exists [], s, w. rewrite !app_nil_r, blen_nil, Z.add_0_r. split; [done|]. split; [done|]. split; [done|]. split; [lia|done]. }
  destruct (blen buf <? n) eqn:E; [|apply Hstop; lia].
  destruct (Wrapper_read (n - blen buf) w) as [res w'] eqn:Er. apply (read_at _ pre s) in Er; [|done|lia].
  destruct Er as [(-> & Hw' & Hl)|(d & s' & -> & -> & Hw' & Hd & Hp & Hz)]; [apply IH; [done|lia|lia]|].
  destruct d as [|x d].
  { rewrite (Hz eq_refl) in *. cbn in Hz. exists [], s', w'. rewrite app_nil_r, blen_nil. rewrite (Hz eq_refl) in *. split; [done|]. split; [done|]. split; [done|]. split; [lia|by right]. }
  destruct fuel as [|fuel']; [lia|].
  destruct (decide (blen (x :: d) = n - blen buf)) as [Heq|Hne].
  - cbn [fill]. rewrite blen_app. replace (blen buf + blen (x :: d) <? n) with false by lia.
    exists (x :: d), s', w'. split; [done|]. split; [done|]. split; [done|]. split; [lia|left; lia].
  - destruct Hp as [Hp|[Hp|Hp]]; [lia| |done].
    destruct (IH (buf ++ x :: d) (pre ++ x :: d) s' w' Hw') as (d' & s2 & w2 & E2 & -> & Hw2 & Hb & Hor); [rewrite blen_app; lia|lia|].
    exists (x :: d ++ d'), s2, w2. rewrite E2. rewrite blen_app in *. change (x :: d ++ d') with ((x :: d) ++ d'). rewrite blen_app, !app_assoc in *.
    split; [done|]. split; [by rewrite <- app_assoc|]. split; [done|]. split; [lia|]. destruct Hor; [left; lia|by right].
Qed.

Lemma fill_buffer_at n pre s w :
  at_point pre s w -> 0 <= n ->
  exists d s' w', fill_buffer n w = Ok (d, w') /\ s = d ++ s' /\ at_point (pre ++ d) s' w'
    /\ blen d <= n /\ (blen d = n \/ s' = []).
Proof. intros Hw Hn. by apply (fill_calm _ n [] pre s w Hw); [|lia]. Qed.

Lemma fill_buffer_full n pre d rest w :
  at_point pre (d ++ rest) w -> blen d = n ->
  exists w', fill_buffer n w = Ok (d, w') /\ at_point (pre ++ d) rest w'.
Proof.
  intros Hw Hd. pose proof (blen_nonneg d). destruct (fill_buffer_at n pre (d ++ rest) w) as (d' & s' & w' & E & Es & Hw' & Hb & Hor); [done|lia|].
  assert (Hl : length d' = length d).
  { destruct Hor as [Hn | ->]; [unfold blen in *; lia|]. apply (f_equal length) in Es. rewrite !length_app in Es. cbn in Es. unfold blen in *. lia. }
  apply app_inj_1 in Es as [-> ->]; [|done]. by exists w'.
Qed.

Lemma reads_bytes d n : n = blen d -> reads (r_bytes n) d d.
Proof.
  intros -> pre rest w Hw. destruct (fill_buffer_full (blen d) pre d rest w) as (w' & E & Hw'); [done..|].
  exists w'. split; [|done]. unfold r_bytes, read_bytes. rewrite E. cbn [map_err rbind]. by rewrite Z.eqb_refl.
Qed.

Lemma reads_sha h : ObjectHash.kind h = kind -> hash_wf h -> reads (r_sha kind) (ObjectHash.as_ref h) h.
Proof.
  intros Hk Hwf pre rest w Hw. assert (Hsz : blen (ObjectHash.as_ref h) = HashKind.size kind) by (destruct Hwf as [-> _]; unfold ObjectHash.size; by rewrite Hk).
  destruct (fill_buffer_full (HashKind.size kind) pre (ObjectHash.as_ref h) rest w) as (w' & E & Hw'); [done..|].
  exists w'. split; [|done]. unfold r_sha, read_sha_for_kind. rewrite E. cbn [map_err rbind]. rewrite Hsz, Z.eqb_refl. cbn [negb].
  assert (Eh : ObjectHash.from_bytes_for_kind kind (ObjectHash.as_ref h) = Ok h).
  { unfold ObjectHash.from_bytes_for_kind. rewrite Hsz, Z.eqb_refl. cbn. rewrite <- Hk. by destruct h. }
  by rewrite Eh.
Qed.

Lemma reads_ret {A} (a : A) : reads (r_ret a) [] a.
Proof. intros pre rest w Hw. exists w. by rewrite app_nil_r. Qed.

Lemma reads_bind {A B} (m : R A) (k : A -> R B) d1 d2 a b : reads m d1 a -> reads (k a) d2 b -> reads (r_bind m k) (d1 ++ d2) b.
Proof.
  intros Hm1 Hm2 pre rest w Hw. rewrite <- app_assoc in Hw. destruct (Hm1 _ _ _ Hw) as (w1 & E1 & Hw1).
  destruct (Hm2 _ _ _ Hw1) as (w2 & E2 & Hw2). exists w2. unfold r_bind. rewrite E1. cbn [rbind]. by rewrite app_assoc.
Qed.

Lemma reads_lift {A} (m : Res GitError A) a : m = Ok a -> reads (r_lift m) [] a.
Proof. intros -> pre rest w Hw. exists w. by rewrite app_nil_r. Qed.

Lemma reads_u32 v : 0 <= v < 2 ^ 32 -> reads r_u32 (be32 v) v.
Proof.
  intros Hv. rewrite <- (app_nil_r (be32 v)). eapply reads_bind; [by apply reads_bytes|].
  rewrite <- (from_be_be32 v Hv) at 2. apply reads_ret.
Qed.

Lemma reads_u16 v : 0 <= v < 2 ^ 16 -> reads r_u16 (be16 v) v.
Proof.
  intros Hv. rewrite <- (app_nil_r (be16 v)). eapply reads_bind; [by apply reads_bytes|].
  rewrite <- (from_be_be16 v Hv) at 2. apply reads_ret.
Qed.

(** * What a reader accepted *)

(** Whatever [m] accepts, it takes from the front of the data, and [Q] holds of it and the result. *)
Definition consumes {A} (m : R A) (Q : bytes -> A -> Prop) : Prop :=
  forall pre s w a w', byte_list s -> at_point pre s w -> m w = Ok (a, w') ->
  exists d s', s = d ++ s' /\ at_point (pre ++ d) s' w' /\ Q d a.

Lemma consumes_bytes n : 0 <= n -> consumes (r_bytes n) (fun d a => a = d /\ blen d = n /\ byte_list d).
Proof.
  intros Hn pre s w a w' Hby Hw E. destruct (fill_buffer_at n pre s w) as (d & s' & w1 & E1 & -> & Hw' & Hb & Hor); [done..|].
  unfold r_bytes, read_bytes in E. rewrite E1 in E. cbn [map_err rbind] in E. destruct (blen d =? n) eqn:En; [|done].
  cbn in E. injection E as <- <-. exists d, s'. apply Forall_app in Hby as [Hd _]. split; [done|]. split; [done|]. split; [done|]. split; [lia|done].
Qed.

Lemma consumes_sha : consumes (r_sha kind) (fun d h => d = ObjectHash.as_ref h /\ ObjectHash.kind h = kind /\ hash_wf h).
Proof.
  intros pre s w a w' Hby Hw E. assert (Hk : 0 <= HashKind.size kind) by (destruct kind; cbn; lia).
  destruct (fill_buffer_at (HashKind.size kind) pre s w) as (d & s' & w1 & E1 & -> & Hw' & Hb & Hor); [done..|].
  unfold r_sha, read_sha_for_kind in E. rewrite E1 in E. cbn [map_err rbind] in E. destruct (blen d =? HashKind.size kind) eqn:En; [|done].
  cbn [negb] in E. destruct (ObjectHash.from_bytes_for_kind kind d) as [h| | |] eqn:Eh; try done. cbn in E. injection E as <- <-.
  apply from_bytes_for_kind_Ok in Eh as (_ & Hkind & Href). apply Forall_app in Hby as [Hd _].
  exists d, s'. split; [done|]. split; [done|]. split; [done|]. split; [done|]. unfold hash_wf, ObjectHash.size. rewrite Href, Hkind. split; [lia|done].
Qed.

Lemma consumes_ret {A} (a : A) (Q : bytes -> A -> Prop) : Q [] a -> consumes (r_ret a) Q.
Proof. intros Hq pre s w b w' Hby Hw [= <- <-]. exists [], s. by rewrite app_nil_r. Qed.

Lemma consumes_fail {A} e (Q : bytes -> A -> Prop) : consumes (r_fail e) Q.
Proof. by intros pre s w b w' Hby Hw E. Qed.

Lemma consumes_lift {A} (m : Res GitError A) (Q : bytes -> A -> Prop) : (forall a, m = Ok a -> Q [] a) -> consumes (r_lift m) Q.
Proof.
  intros Hq pre s w a w' Hby Hw E. unfold r_lift in E. destruct m as [b| | |]; try done. cbn in E. injection E as <- <-.
  exists [], s. rewrite app_nil_r. auto.
Qed.

Lemma consumes_bind {A B} (m : R A) (k : A -> R B) (Q1 : bytes -> A -> Prop) (Q : bytes -> B -> Prop) :
  consumes m Q1 -> (forall d a, Q1 d a -> consumes (k a) (fun d' b => Q (d ++ d') b)) -> consumes (r_bind m k) Q.
Proof.
  intros Hm1 Hm2 pre s w b w' Hby Hw E. unfold r_bind in E. apply bind_Ok_inv in E as ((a & w1) & E1 & E2).
  destruct (Hm1 _ _ _ _ _ Hby Hw E1) as (d1 & s1 & -> & Hw1 & Hq1). apply Forall_app in Hby as [_ Hby].
  destruct (Hm2 _ _ Hq1 _ _ _ _ _ Hby Hw1 E2) as (d2 & s2 & -> & Hw2 & Hq). exists (d1 ++ d2), s2. by rewrite !app_assoc in *.
Qed.

Lemma consumes_mono {A} (m : R A) (Q Q' : bytes -> A -> Prop) : consumes m Q -> (forall d a, Q d a -> Q' d a) -> consumes m Q'.
Proof. intros Hm1 Hi pre s w a w' Hby Hw E. destruct (Hm1 _ _ _ _ _ Hby Hw E) as (d & s' & ? & ? & ?). eauto 6. Qed.

Lemma consumes_u32 : consumes r_u32 (fun d v => 0 <= v < 2 ^ 32 /\ blen d = 4).
Proof.
  eapply consumes_bind; [by apply consumes_bytes|]. intros d a (-> & Hl & Hb). apply consumes_ret. rewrite app_nil_r.
  pose proof (from_be_bound d Hb). rewrite Hl in *. split; [|done]. lia.
Qed.

Lemma consumes_u16 : consumes r_u16 (fun d v => 0 <= v < 2 ^ 16 /\ blen d = 2).
Proof.
  eapply consumes_bind; [by apply consumes_bytes|]. intros d a (-> & Hl & Hb). apply consumes_ret. rewrite app_nil_r.
  pose proof (from_be_bound d Hb). rewrite Hl in *. split; [|done]. lia.
Qed.

End logic.

(** * Termination on every reader *)

Section termination.
Context `{Hasher} `{TextEnv}.

Lemma read_progress n w d w' :
  Wrapper_read n w = (Got d, w') -> d <> [] ->
  bytes_read w' = bytes_read w + blen d /\ (blen d <= n \/ n < 0) /\ (blen d = n \/ n < 0 \/ (length (w_inner w') < length (w_inner w))%nat).
Proof.
  unfold Wrapper_read. destruct w as [[|[d'| |e] evs] h b]; cbn [read_some w_inner w_hash bytes_read]; intros E Hd; try done.
  - by injection E as <- <-.
  - destruct (blen d' <=? n) eqn:En; injection E as <- <-; cbn [bytes_read w_inner length]; [split; [done|split; [left; lia|right; right; lia]]|].
    split; [done|]. destruct (decide (n < 0)); [split; [by right|right; by left]|].
    assert (Ht : blen (take (Z.to_nat n) d') = n) by (unfold blen in *; rewrite length_take; lia). lia.
Qed.

Lemma read_interrupted n w w' : Wrapper_read n w = (GotInterrupted, w') -> bytes_read w' = bytes_read w /\ (length (w_inner w') < length (w_inner w))%nat.
Proof.
  unfold Wrapper_read. destruct w as [[|[d'| |e] evs] h b]; cbn [read_some w_inner w_hash bytes_read]; intros E; try done; [by destruct (blen d' <=? n)|].
  injection E as <-. cbn. split; [done|lia].
Qed.

Lemma fill_returns fuel n buf w : (S (length (w_inner w)) < fuel)%nat ->
  returns (fill fuel n buf w)
  /\ forall b w', fill fuel n buf w = Ok (b, w') -> blen b = n -> bytes_read w' = bytes_read w + (n - blen buf).
Proof.
  revert buf w. induction fuel as [|fuel IH]; intros buf w Hf; [lia|]. cbn [fill].
  destruct (blen buf <? n) eqn:E; [|split; [done|]; intros b w' [= <- <-]; lia].
  destruct (Wrapper_read (n - blen buf) w) as [[d| |e] w1] eqn:Er; [| |by split].
  2:{ apply read_interrupted in Er as [Hb Hl]. rewrite <- Hb. apply IH. lia. }
  destruct d as [|x d]; [split; [done|]; intros b w' [= <- <-]; lia|].
  apply read_progress in Er as (Hb & Hle & Hp); [|done].
  destruct fuel as [|fuel']; [lia|]. destruct (decide (blen (x :: d) = n - blen buf)) as [Heq|Hne].
  - cbn [fill]. rewrite blen_app. replace (blen buf + blen (x :: d) <? n) with false by lia. split; [done|]. intros b w' [= <- <-]. lia.
  - destruct (IH (buf ++ x :: d) w1) as [Hr Hc]; [lia|]. split; [done|]. intros b w' Ef Hn.
    rewrite (Hc b w' Ef Hn), blen_app. lia.
Qed.

Definition r_returns {A} (m : R A) : Prop := forall w, returns (m w).

Lemma r_bytes_returns n : r_returns (r_bytes n).
Proof.
  intros w. unfold r_bytes, read_bytes. apply returns_map_err, returns_bind; [apply returns_map_err, fill_returns; lia|].
  intros [b w'] _. by destruct (blen b =? n).
Qed.

Lemma r_bytes_counts n w b w' : r_bytes n w = Ok (b, w') -> blen b = n /\ bytes_read w' = bytes_read w + n.
Proof.
  unfold r_bytes, read_bytes. intros E. apply map_err_Ok_inv, bind_Ok_inv in E as ((b1 & w1) & E1 & E2).
  apply map_err_Ok_inv in E1. destruct (blen b1 =? n) eqn:En; [|done]. injection E2 as -> ->. split; [lia|].
  apply (fill_returns _ n [] w) in E1; [|lia|lia]. rewrite E1, blen_nil. lia.
Qed.

Lemma r_sha_returns k : r_returns (r_sha k).
Proof.
  intros w. unfold r_sha, read_sha_for_kind. apply returns_map_err, returns_bind; [apply returns_map_err, fill_returns; lia|].
  intros [b w'] _. destruct (negb (blen b =? HashKind.size k)) eqn:En; [done|]. unfold ObjectHash.from_bytes_for_kind.
  apply negb_false_iff in En. rewrite En. by destruct k.
Qed.

Lemma r_bind_returns {A B} (m : R A) (k : A -> R B) : r_returns m -> (forall a, r_returns (k a)) -> r_returns (r_bind m k).
Proof. intros Hm Hk w. unfold r_bind. apply returns_bind; [apply Hm|]. intros [a w'] _. apply Hk. Qed.

Lemma r_ret_returns {A} (a : A) : r_returns (r_ret a).
Proof. done. Qed.

Lemma r_lift_returns {A} (m : Res GitError A) : returns m -> r_returns (r_lift m).
Proof. intros Hm w. by apply returns_bind. Qed.

Lemma r_u32_returns : r_returns r_u32.
Proof. apply r_bind_returns; [apply r_bytes_returns|done]. Qed.

Lemma r_u16_returns : r_returns r_u16.
Proof. apply r_bind_returns; [apply r_bytes_returns|done]. Qed.

(** The hash, when there is one, stays, and the count only grows. *)
Definition wrapper_le (w w' : Wrapper) : Prop :=
  (is_Some (w_hash w) -> is_Some (w_hash w')) /\ bytes_read w <= bytes_read w'.

#[export] Instance wrapper_le_preorder : PreOrder wrapper_le.
Proof. split; [intros w; split; [done|lia]|]. intros w1 w2 w3 [A1 B1] [A2 B2]. split; [auto|lia]. Qed.

Definition r_grows {A} (m : R A) : Prop := forall w a w', m w = Ok (a, w') -> wrapper_le w w'.

Lemma read_grows n w res w' : Wrapper_read n w = (res, w') -> wrapper_le w w'.
Proof.
  unfold Wrapper_read. destruct (read_some n (w_inner w)) as [[d| |e] evs]; intros [= <- <-]; [|split; [done|cbn; lia]..].
  pose proof (blen_nonneg d). split; [|cbn; lia]. intros [h Hh]. cbn. rewrite Hh. by eexists.
Qed.

Lemma fill_grows fuel n buf w b w' : fill fuel n buf w = Ok (b, w') -> wrapper_le w w'.
Proof.
  revert buf w. induction fuel as [|fuel IH]; intros buf w E; [done|]. cbn [fill] in E. destruct (blen buf <? n); [|by injection E as _ <-].
  destruct (Wrapper_read (n - blen buf) w) as [[d| |e] w1] eqn:Er; [|apply read_grows in Er; etransitivity; [done|by eapply IH]|done].
  apply read_grows in Er. destruct d; [by injection E as _ <-|]. etransitivity; [done|by eapply IH].
Qed.

Lemma r_bytes_grows n : r_grows (r_bytes n).
Proof.
  intros w b w' E. unfold r_bytes, read_bytes in E. apply map_err_Ok_inv, bind_Ok_inv in E as ((b1 & w1) & E1 & E2).
  apply map_err_Ok_inv, fill_grows in E1. destruct (blen b1 =? n); [|done]. by injection E2 as _ <-.
Qed.

Lemma r_sha_grows k : r_grows (r_sha k).
Proof.
  intros w b w' E. unfold r_sha, read_sha_for_kind in E. apply map_err_Ok_inv, bind_Ok_inv in E as ((b1 & w1) & E1 & E2).
  apply map_err_Ok_inv, fill_grows in E1. destruct (negb _); [done|]. apply bind_Ok_inv in E2 as (h & _ & E2). by injection E2 as _ <-.
Qed.

Lemma r_bind_grows {A B} (m : R A) (k : A -> R B) : r_grows m -> (forall a, r_grows (k a)) -> r_grows (r_bind m k).
Proof. intros Hm Hk w b w' E. unfold r_bind in E. apply bind_Ok_inv in E as ((a & w1) & E1 & E2). etransitivity; [by eapply Hm|by eapply Hk]. Qed.

Lemma r_ret_grows {A} (a : A) : r_grows (r_ret a).
Proof. by intros w b w' [= _ <-]. Qed.

Lemma r_fail_grows {A} e : r_grows (r_fail (A := A) e).
Proof. by intros w b w' E. Qed.

Lemma r_lift_grows {A} (m : Res GitError A) : r_grows (r_lift m).
Proof. intros w b w' E. unfold r_lift in E. apply bind_Ok_inv in E as (a & _ & E). by injection E as _ <-. Qed.

End termination.

#[export] Hint Resolve r_bytes_returns r_sha_returns r_u32_returns r_u16_returns r_ret_returns : git.
#[export] Hint Resolve r_bytes_grows r_sha_grows r_ret_grows r_fail_grows r_lift_grows : git.
