(* ===== verification/BTree.v ===== *)
(** [std::collections::BTreeMap] as the list of its pairs in the order of the keys, with the laws
    the clients rely on: the list stays sorted, and the operations act as those of a finite map. *)

From Stdlib Require Import ZArith Lia Sorted.
From stdpp Require Import base tactics list numbers option gmap.
From S2P Require Import Prelude EntrySort.

(** [Ord] for keys: a total order in which only equal keys compare as equal. *)
Class KeyOrder (K : Type) := {
  kcmp : K -> K -> comparison;
  kcmp_total : total_order kcmp;
  kcmp_eq : forall a b, kcmp a b = Eq -> a = b
}.

Section btree.
Context {K V : Type} `{KeyOrder K}.

Implicit Types (k : K) (v : V) (m : list (K * V)).

Fixpoint bt_insert k v m : list (K * V) :=
  match m with
  | [] => [(k, v)]
  | (k', v') :: m' =>
      match kcmp k k' with
      | Lt => (k, v) :: m
      | Eq => (k, v) :: m'
      | Gt => (k', v') :: bt_insert k v m'
      end
  end.

Fixpoint bt_get k m : option V :=
  match m with
  | [] => None
  | (k', v') :: m => match kcmp k k' with Eq => Some v' | _ => bt_get k m end
  end.

Fixpoint bt_remove k m : list (K * V) :=
  match m with
  | [] => []
  | (k', v') :: m => match kcmp k k' with Eq => m | _ => (k', v') :: bt_remove k m end
  end.

Definition klt k k' : Prop := kcmp k k' = Lt.
Definition bt_sorted m : Prop := StronglySorted klt (map fst m).

Lemma kcmp_refl k : kcmp k k = Eq.
Proof. pose proof (proj1 kcmp_total k k) as E. by destruct (kcmp k k). Qed.

Lemma kcmp_gt k k' : kcmp k k' = Gt <-> klt k' k.
Proof. unfold klt. rewrite (proj1 kcmp_total k' k). destruct (kcmp k k'); cbn; split; congruence. Qed.

Lemma klt_trans a b c : klt a b -> klt b c -> klt a c.
Proof.
  intros H1 H2. unfold klt in *. destruct (kcmp a c) eqn:E; [|done|].
  - apply kcmp_eq in E as ->. apply kcmp_gt in H2. congruence.
  - exfalso. apply (proj2 kcmp_total a b c); congruence.
Qed.

Lemma klt_irrefl k : ~ klt k k.
Proof. unfold klt. by rewrite kcmp_refl. Qed.

Lemma bt_sorted_cons k v m : bt_sorted ((k, v) :: m) <-> Forall (fun p => klt k p.1) m /\ bt_sorted m.
Proof.
  unfold bt_sorted. cbn [map fst]. split.
  - intros [Hs Ha]%StronglySorted_inv. split; [|done]. exact (proj1 (List.Forall_map _ _ _) Ha).
  - intros [Ha Hs]. apply SSorted_cons; [done|]. exact (proj2 (List.Forall_map _ _ _) Ha).
Qed.

Lemma bt_insert_above k v m (P : K * V -> Prop) : P (k, v) -> Forall P m -> Forall P (bt_insert k v m).
Proof.
  intros Hk. induction 1 as [|[k' v'] m Hp Hm IH]; cbn [bt_insert]; [by apply Forall_singleton|].
  destruct (kcmp k k'); repeat apply Forall_cons_2; done.
Qed.

Lemma bt_insert_sorted k v m : bt_sorted m -> bt_sorted (bt_insert k v m).
Proof.
  induction m as [|[k' v'] m IH]; intros Hs; cbn [bt_insert]; [apply bt_sorted_cons; split; [apply Forall_nil_2|done]|].
  apply bt_sorted_cons in Hs as [Ha Hs]. destruct (kcmp k k') eqn:E.
  - apply kcmp_eq in E as <-. by apply bt_sorted_cons.
  - apply bt_sorted_cons. split; [|by apply bt_sorted_cons]. apply Forall_cons_2; [exact E|].
    eapply Forall_impl; [exact Ha|]. cbn. intros p Hp. by eapply klt_trans.
  - apply bt_sorted_cons. split; [|by apply IH]. apply bt_insert_above; [by apply kcmp_gt|done].
Qed.

Lemma bt_get_above k m : Forall (fun p => klt k p.1) m -> bt_get k m = None.
Proof. induction 1 as [|[k' v'] m Hp _ IH]; [done|]. cbn [bt_get]. cbn in Hp. by rewrite Hp. Qed.

Lemma bt_get_insert k k' v m :
  bt_sorted m -> bt_get k' (bt_insert k v m) = match kcmp k' k with Eq => Some v | _ => bt_get k' m end.
Proof.
  induction m as [|[k1 v1] m IH]; intros Hs; cbn [bt_insert bt_get]; [done|]. apply bt_sorted_cons in Hs as [Ha Hs].
  destruct (kcmp k k1) eqn:E; cbn [bt_get].
  - apply kcmp_eq in E as <-. by destruct (kcmp k' k).
  - done.
  - rewrite IH by done. destruct (kcmp k' k) eqn:E1; [|by destruct (kcmp k' k1)..].
    apply kcmp_eq in E1 as ->. by rewrite E.
Qed.

Lemma bt_remove_sublist k m : Forall (fun p => p ∈ m) (bt_remove k m).
Proof.
  induction m as [|[k' v'] m IH]; cbn [bt_remove]; [apply Forall_nil_2|].
  assert (Hm : forall l, Forall (fun p => p ∈ m) l -> Forall (fun p => p ∈ (k', v') :: m) l)
    by (intros l Hl; eapply Forall_impl; [exact Hl|]; intros p Hp; by right).
  destruct (kcmp k k'); [apply Hm; by apply Forall_forall|..]; (apply Forall_cons_2; [by left|by apply Hm]).
Qed.

Lemma bt_remove_sorted k m : bt_sorted m -> bt_sorted (bt_remove k m).
Proof.
  induction m as [|[k' v'] m IH]; intros Hs; cbn [bt_remove]; [done|]. pose proof Hs as [Ha Hs']%bt_sorted_cons.
  assert (Hc : bt_sorted ((k', v') :: bt_remove k m)).
  { apply bt_sorted_cons. split; [|by apply IH]. pose proof (bt_remove_sublist k m) as Hsub. rewrite Forall_forall in Ha, Hsub |- *. auto. }
  by destruct (kcmp k k').
Qed.

Lemma bt_get_remove k k' m :
  bt_sorted m -> bt_get k' (bt_remove k m) = match kcmp k' k with Eq => None | _ => bt_get k' m end.
Proof.
  induction m as [|[k1 v1] m IH]; intros Hs; cbn [bt_remove bt_get]; [by destruct (kcmp k' k)|]. apply bt_sorted_cons in Hs as [Ha Hs].
  destruct (kcmp k k1) eqn:E; cbn [bt_get].
  - apply kcmp_eq in E as <-. destruct (kcmp k' k) eqn:E'; [|done..]. apply kcmp_eq in E' as ->. by apply bt_get_above.
  - rewrite IH by done. destruct (kcmp k' k) eqn:E'; [|done..]. apply kcmp_eq in E' as ->. by rewrite E.
  - rewrite IH by done. destruct (kcmp k' k) eqn:E'; [|done..]. apply kcmp_eq in E' as ->. by rewrite E.
Qed.

Lemma bt_get_elem k v m : bt_sorted m -> bt_get k m = Some v <-> (k, v) ∈ m.
Proof.
  induction m as [|[k' v'] m IH]; intros Hs; cbn [bt_get]; [split; [done|intros Hx; by apply not_elem_of_nil in Hx]|].
  apply bt_sorted_cons in Hs as [Ha Hs]. rewrite elem_of_cons. destruct (kcmp k k') eqn:E.
  - apply kcmp_eq in E as <-. split; [intros [= ->]; by left|]. intros [[= ->]|Hin]; [done|].
    rewrite Forall_forall in Ha. specialize (Ha _ Hin). by apply klt_irrefl in Ha.
  - rewrite IH by done. split; [by right|]. intros [[= -> ->]|?]; [by rewrite kcmp_refl in E|done].
  - rewrite IH by done. split; [by right|]. intros [[= -> ->]|?]; [by rewrite kcmp_refl in E|done].
Qed.

(** [retain] keeps the order. *)
Lemma bt_filter_sorted (P : K * V -> Prop) `{!forall x, Decision (P x)} m : bt_sorted m -> bt_sorted (filter P m).
Proof.
  induction m as [|[k v] m IH]; intros Hs; [done|]. apply bt_sorted_cons in Hs as [Ha Hs]. rewrite filter_cons.
  destruct (decide (P (k, v))); [|by apply IH]. apply bt_sorted_cons. split; [|by apply IH].
  apply Forall_forall. intros q Hq. apply list_elem_of_filter in Hq as [_ Hq]. rewrite Forall_forall in Ha. by apply Ha.
Qed.

(** A key above all others goes to the end. *)
Lemma bt_insert_last k v m : Forall (fun p => klt p.1 k) m -> bt_insert k v m = m ++ [(k, v)].
Proof.
  induction 1 as [|[k' v'] m Hp _ IH]; [done|]. cbn [bt_insert app]. cbn in Hp. apply kcmp_gt in Hp. by rewrite Hp, IH.
Qed.

Lemma bt_sorted_app m1 m2 : bt_sorted (m1 ++ m2) -> Forall (fun p => Forall (fun q => klt p.1 q.1) m2) m1.
Proof.
  induction m1 as [|[k v] m1 IH]; intros Hs; [apply Forall_nil_2|]. cbn [app] in Hs. apply bt_sorted_cons in Hs as [Ha Hs].
  apply Forall_app in Ha as [_ Ha]. apply Forall_cons_2; [done|by apply IH].
Qed.

End btree.

(** Bytes of strings are ordered lexicographically, pairs by their components. *)
Lemma total_pair {A B} (f : A -> A -> comparison) (g : B -> B -> comparison) :
  total_order f -> total_order g -> total_order (fun a b => then_cmp (f a.1 b.1) (g a.2 b.2)).
Proof.
  intros Hf Hg. apply (total_then (fun a b => f a.1 b.1) (fun a b => g a.2 b.2)); [by apply (total_map fst)|by apply (total_map snd)].
Qed.

Lemma list_cmp_eq (l m : bytes) : list_cmp Z.compare l m = Eq -> l = m.
Proof.
  revert m. induction l as [|x l IH]; intros [|y m]; cbn; try done. unfold then_cmp. destruct (x ?= y) eqn:E; try done.
  intros Hl. apply Z.compare_eq in E as ->. by rewrite (IH m).
Qed.

Definition string_u8_cmp (a b : bytes * Z) : comparison := then_cmp (list_cmp Z.compare a.1 b.1) (a.2 ?= b.2).

Lemma string_u8_cmp_total : total_order string_u8_cmp.
Proof. apply total_pair; [apply total_list, total_Z|apply total_Z]. Qed.

Lemma string_u8_cmp_eq a b : string_u8_cmp a b = Eq -> a = b.
Proof.
  destruct a as [a x], b as [b y]. unfold string_u8_cmp, then_cmp. cbn. destruct (list_cmp Z.compare a b) eqn:E; try done. intros Hx.
  apply list_cmp_eq in E as ->. by apply Z.compare_eq in Hx as ->.
Qed.

#[export] Instance string_u8_order : KeyOrder (bytes * Z) :=
  {| kcmp := string_u8_cmp; kcmp_total := string_u8_cmp_total; kcmp_eq := string_u8_cmp_eq |}.
