(* ===== verification/StagingIndex.v ===== *)
(** The staging index, [src/internal/index.rs]: the entries of [.git/index] keyed by name and
    stage, the reader and the writer of versions 2 and 3 of the file, the refresh of an entry from
    the working tree, and the map operations.

    Files are the events their reader meets and their length; what a write leaves on disk is kept
    also when it fails.  The working tree answers [symlink_metadata] and [open] for a path. *)

From Stdlib Require Import ZArith Lia String.
From stdpp Require Import base tactics list numbers option gmap.
From S2P Require Import Prelude Stream Text Errors ObjectTypes PackUtils Hash PackIndex EntrySort Wrapper BTree.

(** * Times *)

Module Time.

Record t : Type := mk { seconds : Z; nanos : Z }.

#[global] Instance t_eq_dec : EqDecision t.
Proof. solve_decision. Defined.

Definition from_stream `{Hasher} : R t :=
  read! seconds := r_u32 in
  read! nanos := r_u32 in
  r_ret (mk seconds nanos).

(** [SystemTime]: seconds since the epoch, negative before it, and nanoseconds. *)
Definition SystemTime : Type := Z * Z.
Definition UNIX_EPOCH : SystemTime := (0, 0).

Definition to_system_time (self : t) : SystemTime := (seconds self, nanos self).

(** Panics on a time before the epoch or beyond [u32] seconds. *)
Definition from_system_time {E} (st : SystemTime) : Res E t :=
  let (secs, nanos) := st in
  if secs <? 0 then Panic
  else if secs <=? u32_max then Ok (mk secs nanos) else Panic.

Definition fmt (self : t) : bytes := show_dec (seconds self) ++ str ":" ++ show_dec (nanos self).

End Time.

(** The fields of [fs::Metadata] that the index uses. *)
Record Metadata : Type := mkMetadata {
  m_ctime : Z; m_ctime_nsec : Z; m_mtime : Z; m_mtime_nsec : Z;
  m_len : Z; m_dev : Z; m_ino : Z; m_uid : Z; m_gid : Z; m_mode : Z
}.

Definition unix_metadata_time (seconds nanos : Z) : Time.SystemTime :=
  if seconds <? 0 then Time.UNIX_EPOCH
  else (seconds, if (0 <=? nanos) && (nanos <? 1000000000) then nanos else 0).

Definition index_ctime (meta : Metadata) : Time.SystemTime := unix_metadata_time (m_ctime meta) (m_ctime_nsec meta).
Definition index_mtime (meta : Metadata) : Time.SystemTime := unix_metadata_time (m_mtime meta) (m_mtime_nsec meta).

(** * Flags *)

Module Flags.

Record t : Type := mk {
  assume_valid : bool;
  extended : bool;
  stage : Z;
  name_length : Z;
  skip_worktree : bool;
  intent_to_add : bool
}.

Definition EXTENDED_FLAG_SKIP_WORKTREE : Z := 0x4000.
Definition EXTENDED_FLAG_INTENT_TO_ADD : Z := 0x2000.

(** [x & mask != 0]. *)
Definition has (x mask : Z) : bool := negb (Z.land x mask =? 0).

Definition from_u16 (flags : Z) : t :=
  mk (has flags 0x8000) (has flags 0x4000) (as_u8 (Z.shiftr (Z.land flags 0x3000) 12)) (Z.land flags 0xFFF) false false.

Definition try_into_u16 (self : t) : Res bytes Z :=
  let flags := if assume_valid self then Z.lor 0 0x8000 else 0 in
  let flags := if extended self then Z.lor flags 0x4000 else flags in
  let flags := Z.lor flags (as_u16 (Z.shiftl (stage self) 12)) in
  if 0xFFF <? name_length self then Err (str "Name length is too long")
  else Ok (Z.lor flags (name_length self)).

Definition new (name_len : Z) : t := mk false false 0 name_len false false.

Definition from_extended_word (word : Z) : Res GitError (bool * bool) :=
  let known := Z.lor EXTENDED_FLAG_SKIP_WORKTREE EXTENDED_FLAG_INTENT_TO_ADD in
  if has word (Z.lxor known 0xFFFF)
  then Err (InvalidIndexFile (str "index entry has unknown extended flags 0x" ++ hex_print (be16 word)))
  else Ok (has word EXTENDED_FLAG_SKIP_WORKTREE, has word EXTENDED_FLAG_INTENT_TO_ADD).

Definition extended_word (self : t) : option Z :=
  let word := 0 in
  let word := if skip_worktree self then Z.lor word EXTENDED_FLAG_SKIP_WORKTREE else word in
  let word := if intent_to_add self then Z.lor word EXTENDED_FLAG_INTENT_TO_ADD else word in
  if negb (word =? 0) then Some word else None.

End Flags.

(** * Entries *)

Module IndexEntry.

Record t : Type := mk {
  ctime : Time.t; mtime : Time.t;
  dev : Z; ino : Z; mode : Z; uid : Z; gid : Z; size : Z;
  hash : ObjectHash.t;
  flags : Flags.t;
  name : bytes
}.

(** [new] on unix. *)
Definition new {E} (meta : Metadata) (hash : ObjectHash.t) (name : bytes) : Res E t :=
  let! ctime := Time.from_system_time (index_ctime meta) in
  let! mtime := Time.from_system_time (index_mtime meta) in
  let mode :=
    let file_type := Z.land (m_mode meta) 0xF000 in
    if file_type =? 0x8000 then (if Z.land (m_mode meta) 0x49 =? 0 then 0x81A4 else 0x81ED)
    else if file_type =? 0xA000 then 0xA000
    else 0x81A4 in
  Ok (mk ctime mtime (as_u32 (m_dev meta)) (as_u32 (m_ino meta)) mode (m_uid meta) (m_gid meta)
        (as_u32 (m_len meta)) hash (Flags.new (as_u16 (blen name))) name).

Definition new_from_blob (name : bytes) (hash : ObjectHash.t) (size : Z) : t :=
  mk (Time.mk 0 0) (Time.mk 0 0) 0 0 0x81A4 0 0 size hash (Flags.new (as_u16 (blen name))) name.

Definition key (e : t) : bytes * Z := (name e, Flags.stage (flags e)).

End IndexEntry.

(** The working tree, by path. *)
Record WorkTree : Type := mkWorkTree {
  symlink_metadata : bytes -> Res IoError Metadata;
  file_open : bytes -> Res IoError bytes
}.

(** [Path::join]. *)
Definition path_join (dir p : bytes) : bytes :=
  if starts_with (str "/") p then p
  else if bool_decide (dir = []) then p
  else match split_last dir with
       | Some (_, 47) => dir ++ p
       | _ => dir ++ str "/" ++ p
       end.

Definition IndexEntry_new_from_file (tree : WorkTree) (file : bytes) (hash : ObjectHash.t) (workdir : bytes)
  : Res IoError IndexEntry.t :=
  let! name := if utf8_valid file then Ok file else Panic in
  let! meta := symlink_metadata tree (path_join workdir file) in
  IndexEntry.new meta hash name.

(** * The index *)

Definition Index : Type := list ((bytes * Z) * IndexEntry.t).
Definition Index_new : Index := [].
Definition Index_size (self : Index) : Z := blen self.

(** ** Reading *)

(** The padding after an entry of [entry_len] bytes. *)
Definition entry_padding (entry_len : Z) : Z := 1 + (8 - (entry_len + 1) mod 8) mod 8.

(** An opened file: its length and what reading it meets. *)
Record File : Type := mkFile { file_len : Z; file_events : list ReadEvent }.

Section read.
Context `{Hasher} `{TextEnv}.

Definition check_header : R (Z * Z) :=
  read! magic := r_bytes 4 in
  if negb (bool_decide (magic = str "DIRC"))
  then r_fail (InvalidIndexHeader (from_utf8_lossy magic))
  else
    read! version := r_u32 in
    if negb (version =? 2) && negb (version =? 3)
    then r_fail (InvalidIndexHeader (show_dec version))
    else
      read! entries := r_u32 in
      r_ret (version, entries).

(** [String::from_utf8]. *)
Definition utf8_string (b : bytes) : Res GitError bytes :=
  if utf8_valid b then Ok b else Err (ConversionError (utf8_error_text b)).

Definition read_flags : R Flags.t :=
  read! word := r_u16 in
  let flags := Flags.from_u16 word in
  if Flags.extended flags then
    read! word := r_u16 in
    read! bits := r_lift (Flags.from_extended_word word) in
    r_ret (Flags.mk (Flags.assume_valid flags) (Flags.extended flags) (Flags.stage flags) (Flags.name_length flags)
             bits.1 bits.2)
  else r_ret flags.

(** The body of the loop over the entries, up to the insertion; the padding is read after it. *)
Definition read_entry (kind : HashKind.t) : R IndexEntry.t :=
  read! ctime := Time.from_stream in
  read! mtime := Time.from_stream in
  read! dev := r_u32 in
  read! ino := r_u32 in
  read! mode := r_u32 in
  read! uid := r_u32 in
  read! gid := r_u32 in
  read! size := r_u32 in
  read! hash := r_sha kind in
  read! flags := read_flags in
  read! name := r_bytes (Flags.name_length flags) in
  read! name := r_lift (utf8_string name) in
  r_ret (IndexEntry.mk ctime mtime dev ino mode uid gid size hash flags name).

Definition read_padding (kind : HashKind.t) (flags : Flags.t) : R bytes :=
  let entry_len := HashKind.size kind + 2 + (if Flags.extended flags then 2 else 0) + Flags.name_length flags in
  r_bytes (entry_padding entry_len).

Fixpoint entries_loop (n : nat) (kind : HashKind.t) (index : Index) : R Index :=
  match n with
  | O => r_ret index
  | S n =>
      read! entry := read_entry kind in
      read! _ := read_padding kind (IndexEntry.flags entry) in
      entries_loop n kind (bt_insert (IndexEntry.key entry) entry index)
  end.

(** One extension; its signature is printed, which needs valid UTF-8. *)
Definition skip_extension : R unit :=
  read! sign := r_bytes 4 in
  read! _ := r_lift (utf8_string sign) in
  match sign with
  | first :: _ =>
      if (65 <=? first) && (first <=? 90) then
        read! size := r_u32 in
        read! _ := r_bytes size in
        r_ret tt
      else r_fail (InvalidIndexFile (str "Unsupported extension"))
  | [] => fun _ => Panic
  end.

Fixpoint extensions_loop (fuel : nat) (kind : HashKind.t) (total_size : Z) : R unit :=
  match fuel with
  | O => fun _ => OutOfFuel
  | S fuel =>
      read! bytes_read := r_bytes_read in
      if bytes_read + HashKind.size kind <? total_size then
        read! _ := skip_extension in
        extensions_loop fuel kind total_size
      else r_ret tt
  end.

Definition check_sum (kind : HashKind.t) : R unit :=
  read! file_hash := r_final_hash in
  read! check_sum := r_sha kind in
  if bool_decide (file_hash = check_sum) then r_ret tt
  else r_fail (InvalidIndexFile (str "Check sum failed")).

(** The rounds of [extensions_loop] read 8 bytes or more each, until [total_size]. *)
Definition read_index (kind : HashKind.t) (total_size : Z) : R Index :=
  read! header := check_header in
  read! index := entries_loop (Z.to_nat header.2) kind Index_new in
  read! _ := extensions_loop (S (Z.to_nat total_size)) kind total_size in
  read! _ := check_sum kind in
  if Index_size index =? header.2 then r_ret index else fun _ => Panic.

Definition from_file_with_hash_kind (kind : HashKind.t) (path : Res IoError File) : Res GitError Index :=
  let! file := map_err IOError path in
  let! '(index, _) := read_index kind (file_len file) (Wrapper_new_with_kind (file_events file) kind) in
  Ok index.

(** [load_with_hash_kind]: [None] is a path that does not exist. *)
Definition load_with_hash_kind (kind : HashKind.t) (path : option (Res IoError File)) : Res GitError Index :=
  match path with
  | None => Ok Index_new
  | Some path => from_file_with_hash_kind kind path
  end.

End read.

(** ** Writing *)

(** The destination: what is there, whether [File::create] succeeds, and how many bytes the device
    takes; a write beyond that fails after the bytes that fit. *)
Record Dest : Type := mkDest { d_create : Res IoError unit; d_room : Z }.

(** The written content and the room left. *)
Definition OutFile : Type := bytes * Z.

Definition no_space : IoError := OtherIo "No space left on device".

Definition file_write_all (d : bytes) (f : OutFile) : Res GitError unit * OutFile :=
  let (content, room) := f in
  if blen d <=? room then (Ok tt, (content ++ d, room - blen d))
  else (Err (IOError no_space), (content ++ take (Z.to_nat room) d, 0)).

Section write.
Context `{Hasher} `{TextEnv}.

(** [entry_bytes]: writing to a [Vec] cannot fail. *)
Definition entry_bytes (kind : HashKind.t) (entry : IndexEntry.t) : Res GitError bytes :=
  let flags := IndexEntry.flags entry in
  let out := be32 (Time.seconds (IndexEntry.ctime entry)) ++ be32 (Time.nanos (IndexEntry.ctime entry))
    ++ be32 (Time.seconds (IndexEntry.mtime entry)) ++ be32 (Time.nanos (IndexEntry.mtime entry))
    ++ be32 (IndexEntry.dev entry) ++ be32 (IndexEntry.ino entry) ++ be32 (IndexEntry.mode entry)
    ++ be32 (IndexEntry.uid entry) ++ be32 (IndexEntry.gid entry) ++ be32 (IndexEntry.size entry)
    ++ ObjectHash.as_ref (IndexEntry.hash entry) in
  let extended_word :=
    match Flags.extended_word flags with
    | Some word => Some word
    | None => if Flags.extended flags then Some 0 else None
    end in
  let! packed := map_err (fun error => InvalidIndexFile (str "cannot encode index flags: " ++ error))
                   (Flags.try_into_u16 flags) in
  let packed := if bool_decide (is_Some extended_word) then Z.lor packed 0x4000 else packed in
  let out := out ++ be16 packed in
  let out := match extended_word with Some word => out ++ be16 word | None => out end in
  let out := out ++ IndexEntry.name entry in
  let entry_len := HashKind.size kind + 2 + (if bool_decide (is_Some extended_word) then 2 else 0)
    + blen (IndexEntry.name entry) in
  Ok (out ++ repeat 0 (Z.to_nat (entry_padding entry_len))).

Fixpoint write_entries (kind : HashKind.t) (entries : Index) (hash : HashAlgorithm) (f : OutFile)
  : Res GitError HashAlgorithm * OutFile :=
  match entries with
  | [] => (Ok hash, f)
  | (_, entry) :: entries =>
      match entry_bytes kind entry with
      | Ok d =>
          match file_write_all d f with
          | (Ok _, f) => write_entries kind entries (HashAlgorithm_update hash d) f
          | (Err e, f) => (Err e, f)
          | (_, f) => (Panic, f)
          end
      | Err e => (Err e, f)
      | _ => (Panic, f)
      end
  end.

Definition any_extended (self : Index) : bool :=
  existsb (fun '(_, entry) =>
    bool_decide (is_Some (Flags.extended_word (IndexEntry.flags entry))) || Flags.extended (IndexEntry.flags entry)) self.

Definition index_header (self : Index) : bytes :=
  str "DIRC" ++ be32 (if any_extended self then 3 else 2) ++ be32 (as_u32 (blen self)).

(** The part of [to_file_with_hash_kind] after [File::create]. *)
Definition write_created (kind : HashKind.t) (self : Index) (f : OutFile) : Res GitError unit * OutFile :=
  match file_write_all (index_header self) f with
  | (Ok _, f) =>
      match write_entries kind self (HashAlgorithm_update (HashAlgorithm_new_for_kind kind) (index_header self)) f with
      | (Ok hash, f) => file_write_all (ObjectHash.as_ref (HashAlgorithm_finalize_object_hash hash)) f
      | (Err e, f) => (Err e, f)
      | (_, f) => (Panic, f)
      end
  | res => res
  end.

Fixpoint ensure_kinds (kind : HashKind.t) (entries : Index) : Res GitError unit :=
  match entries with
  | [] => Ok tt
  | (_, entry) :: entries =>
      let! _ := map_err GitError_from (ObjectHash.ensure_kind (IndexEntry.hash entry) kind) in
      ensure_kinds kind entries
  end.

(** [None]: the destination is untouched; [Some]: it holds these bytes now. *)
Definition to_file_with_hash_kind (kind : HashKind.t) (self : Index) (dest : Dest) : Res GitError unit * option bytes :=
  match ensure_kinds kind self with
  | Ok _ =>
      match map_err IOError (d_create dest) with
      | Ok _ => let '(res, (content, _)) := write_created kind self ([], d_room dest) in (res, Some content)
      | res => (res, None)
      end
  | res => (res, None)
  end.

(** ** Refreshing *)

(** Returns the index also on an error: the entry is then unchanged. *)
Definition refresh_entry (kind : HashKind.t) (tree : WorkTree) (entry : IndexEntry.t) (abs_path : bytes)
  : Res GitError (option IndexEntry.t) :=
  let! _ := map_err GitError_from (ObjectHash.ensure_kind (IndexEntry.hash entry) kind) in
  let! meta := map_err IOError (symlink_metadata tree abs_path) in
  let! new_ctime := Time.from_system_time (index_ctime meta) in
  let! new_mtime := Time.from_system_time (index_mtime meta) in
  let new_size := as_u32 (m_len meta) in
  let! type_label := ok_or (ObjectType.to_bytes ObjectType.Blob) (InvalidObjectType (str "Blob")) in
  let hasher := HashAlgorithm_new_for_kind kind in
  let hasher := HashAlgorithm_update hasher type_label in
  let hasher := HashAlgorithm_update hasher (str " ") in
  let hasher := HashAlgorithm_update hasher (show_dec (m_len meta)) in
  let hasher := HashAlgorithm_update hasher [0] in
  let! content := map_err IOError (file_open tree abs_path) in
  let hasher := HashAlgorithm_update hasher content in
  let new_hash := HashAlgorithm_finalize_object_hash hasher in
  if bool_decide (IndexEntry.ctime entry = new_ctime) && bool_decide (IndexEntry.mtime entry = new_mtime)
     && (IndexEntry.size entry =? new_size) && bool_decide (IndexEntry.hash entry = new_hash)
  then Ok None
  else Ok (Some (IndexEntry.mk new_ctime new_mtime (IndexEntry.dev entry) (IndexEntry.ino entry)
                   (IndexEntry.mode entry) (IndexEntry.uid entry) (IndexEntry.gid entry) new_size new_hash
                   (IndexEntry.flags entry) (IndexEntry.name entry))).

Definition refresh_with_hash_kind (kind : HashKind.t) (tree : WorkTree) (self : Index) (path workdir : bytes)
  : Res GitError (bool * Index) :=
  let! name := if utf8_valid path then Ok path else Err (InvalidPathError (debug_str path)) in
  match bt_get (name, 0) self with
  | Some entry =>
      let! changed := refresh_entry kind tree entry (path_join workdir path) in
      match changed with
      | Some entry => Ok (true, bt_insert (name, 0) entry self)
      | None => Ok (false, self)
      end
  | None => Ok (false, self)
  end.

End write.

(** ** The map operations *)

Definition Index_add (self : Index) (entry : IndexEntry.t) : Index := bt_insert (IndexEntry.key entry) entry self.
Definition Index_update (self : Index) (entry : IndexEntry.t) : Index := Index_add self entry.

Definition Index_remove (self : Index) (name : bytes) (stage : Z) : option IndexEntry.t * Index :=
  (bt_get (name, stage) self, bt_remove (name, stage) self).

Definition Index_get (self : Index) (name : bytes) (stage : Z) : option IndexEntry.t := bt_get (name, stage) self.

Definition tracked (self : Index) (name : bytes) (stage : Z) : bool := bool_decide (is_Some (bt_get (name, stage) self)).

Definition get_hash (self : Index) (file : bytes) (stage : Z) : option ObjectHash.t :=
  option_map IndexEntry.hash (Index_get self file stage).

Definition verify_hash (self : Index) (file : bytes) (stage : Z) (hash : ObjectHash.t) : bool :=
  match get_hash self file stage with
  | Some inner_hash => bool_decide (inner_hash = hash)
  | None => false
  end.

(** Panics on a file that is not in the index or has no metadata. *)
Definition is_modified {E} (tree : WorkTree) (self : Index) (file : bytes) (stage : Z) (workdir : bytes) : Res E bool :=
  match Index_get self file stage with
  | Some entry =>
      let! meta := unwrap (symlink_metadata tree (path_join workdir file)) in
      let! ctime := Time.from_system_time (index_ctime meta) in
      if bool_decide (IndexEntry.ctime entry = ctime) then
        let! mtime := Time.from_system_time (index_mtime meta) in
        let same := bool_decide (IndexEntry.mtime entry = mtime) && (IndexEntry.size entry =? as_u32 (m_len meta)) in
        Ok (negb same)
      else Ok true
  | None => Panic
  end.

Definition tracked_entries (self : Index) (stage : Z) : list IndexEntry.t :=
  map snd (filter (fun p => Flags.stage (IndexEntry.flags p.2) = stage) self).

Definition tracked_files (self : Index) : list bytes := map IndexEntry.name (tracked_entries self 0).

#[export] Instance Component_eq_dec : EqDecision Component.
Proof. solve_decision. Defined.

(** [path.starts_with(dir) && path != dir]: paths compare by their components. *)
Definition below_dir (dir name : bytes) : bool :=
  bool_decide (components dir `prefix_of` components name) && negb (bool_decide (components name = components dir)).

Definition contains_dir_file (self : Index) (dir : bytes) : bool := existsb (fun p => below_dir dir p.1.1) self.

Definition remove_dir_files (self : Index) (dir : bytes) : list bytes * Index :=
  (map (fun p => p.1.1) (filter (fun p => below_dir dir p.1.1 = true) self),
   filter (fun p => below_dir dir p.1.1 = false) self).
