(* ===== verification/StagingProofs.v ===== *)
(** Correctness of the staging index: reading back what was written, what the reader accepts, what
    a failing write leaves on disk, and the operations as those of a finite map. *)

From Stdlib Require Import ZArith Lia String.
From stdpp Require Import base tactics list numbers option gmap.
From S2P Require Import Prelude Stream Text Errors ObjectTypes PackUtils Hash PackIndex EntrySort Wrapper BTree StagingIndex.

(** * Flags *)

Lemma land_above n k : 0 <= n < 4096 -> Z.land n (k * 4096) = 0.
Proof.
  intros Hn. change 4096 with (2 ^ 12). rewrite <- Z.shiftl_mul_pow2 by lia. apply Z.bits_inj'. intros i Hi.
  rewrite Z.land_spec, Z.shiftl_spec, Z.bits_0 by done. destruct (Z.ltb_spec i 12) as [Hl|Hl].
  - rewrite (Z.testbit_neg_r k) by lia. apply andb_false_r.
  - rewrite <- (Z.mod_small n (2 ^ 12)) by lia. by rewrite Z.mod_pow2_bits_high by lia.
Qed.

(** A flags word: the nibble [h] above a length [n]. *)
Lemma from_u16_word h n : 0 <= n < 4096 ->
  Flags.from_u16 (Z.lor (h * 4096) n)
  = Flags.mk (Flags.has (h * 4096) 0x8000) (Flags.has (h * 4096) 0x4000)
      (as_u8 (Z.shiftr (Z.land (h * 4096) 0x3000) 12)) n false false.
Proof.
  intros Hn. unfold Flags.from_u16, Flags.has. rewrite !Z.land_lor_distr_l.
  change 0x8000 with (8 * 4096). change 0x4000 with (4 * 4096). change 0x3000 with (3 * 4096).
  rewrite !(land_above n), !Z.lor_0_r by done. f_equal.
  change 0xFFF with (2 ^ 12 - 1). rewrite !land_low by lia. change (2 ^ 12) with 4096.
  rewrite Z.mod_mul by lia. rewrite Z.lor_0_l. apply Z.mod_small. lia.
Qed.

(** [extended] as the writer stores it. *)
Definition norm_flags (f : Flags.t) : Flags.t :=
  Flags.mk (Flags.assume_valid f) (Flags.extended f || Flags.skip_worktree f || Flags.intent_to_add f)
    (Flags.stage f) (Flags.name_length f) (Flags.skip_worktree f) (Flags.intent_to_add f).

Definition flags_wf (f : Flags.t) : Prop := 0 <= Flags.stage f < 4 /\ 0 <= Flags.name_length f < 4096.

Definition stored_word (f : Flags.t) : option Z :=
  match Flags.extended_word f with Some word => Some word | None => if Flags.extended f then Some 0 else None end.

Definition stored_flags (f : Flags.t) (packed : Z) : Z :=
  if bool_decide (is_Some (stored_word f)) then Z.lor packed 0x4000 else packed.

Definition flags_bytes (f : Flags.t) (packed : Z) : bytes :=
  be16 (stored_flags f packed) ++ match stored_word f with Some word => be16 word | None => [] end.

Lemma stored_word_some f : bool_decide (is_Some (stored_word f)) = Flags.extended (norm_flags f).
Proof. destruct f as [av ext st n sk ita]. by destruct ext, sk, ita. Qed.

Lemma lor_swap a b c : Z.lor (Z.lor a b) c = Z.lor (Z.lor a c) b.
Proof. by rewrite <- Z.lor_assoc, (Z.lor_comm b c), Z.lor_assoc. Qed.

Section flags.
Context `{HasherLaws} `{TextEnv}.
Variable kind : HashKind.t.

Notation reads := (reads kind).

Lemma stored_flags_word f : flags_wf f ->
  exists packed h, Flags.try_into_u16 f = Ok packed /\ stored_flags f packed = Z.lor (h * 4096) (Flags.name_length f)
    /\ 0 <= h < 16 /\ Flags.from_u16 (Z.lor (h * 4096) (Flags.name_length f))
         = Flags.mk (Flags.assume_valid f) (bool_decide (is_Some (stored_word f))) (Flags.stage f) (Flags.name_length f) false false.
Proof.
  destruct f as [av ext st n sk ita]. intros [Hst Hn]. cbn in Hst, Hn.
  assert (Hcase : st = 0 \/ st = 1 \/ st = 2 \/ st = 3) by lia.
  unfold stored_flags. rewrite stored_word_some.
  unfold Flags.try_into_u16, norm_flags. cbn [Flags.name_length Flags.assume_valid Flags.extended Flags.stage Flags.skip_worktree Flags.intent_to_add].
  replace (0xFFF <? n) with false by lia.
  exists (Z.lor ((if av then 8 else 0) * 4096 + (if ext then 4 else 0) * 4096 + st * 4096) n),
    ((if av then 8 else 0) + (if ext || sk || ita then 4 else 0) + st).
  rewrite from_u16_word by done. set (e := ext || sk || ita).
  assert (He : ext = true -> e = true) by (unfold e; by intros ->). clearbody e.
  destruct Hcase as [-> | [-> | [-> | ->]]]; destruct av, ext, e; try (by discriminate He);
    (split; [reflexivity|]); (split; [|split; [cbn; lia|reflexivity]]); try reflexivity; rewrite lor_swap; reflexivity.
Qed.
Lemma stored_word_reads f w : stored_word f = Some w ->
  0 <= w < 2 ^ 16 /\ Flags.from_extended_word w = Ok (Flags.skip_worktree f, Flags.intent_to_add f).
Proof. destruct f as [av ext st n [|] [|]]; cbn; [by intros [= <-]..|]. destruct ext; [by intros [= <-]|done]. Qed.

Lemma stored_word_none f : stored_word f = None -> Flags.skip_worktree f = false /\ Flags.intent_to_add f = false.
Proof. by destruct f as [av ext st n [|] [|]]. Qed.

Lemma reads_flags f : flags_wf f ->
  exists packed, Flags.try_into_u16 f = Ok packed /\ reads read_flags (flags_bytes f packed) (norm_flags f).
Proof.
  intros Hf. destruct (stored_flags_word f Hf) as (packed & h & Ep & Es & Hh & Eu). exists packed. split; [done|].
  destruct Hf as [Hst Hn]. unfold flags_bytes, read_flags. rewrite Es. eapply reads_bind.
  { apply reads_u16. apply lor_bound; lia. }
  rewrite Eu. cbv zeta. cbn [Flags.extended Flags.assume_valid Flags.stage Flags.name_length].
  pose proof (stored_word_some f) as Hx. unfold norm_flags in Hx |- *. cbn [Flags.extended] in Hx. rewrite <- Hx. clear Hx.
  destruct (stored_word f) as [w|] eqn:Ew.
  - rewrite bool_decide_true by eauto. destruct (stored_word_reads f w Ew) as [Hw Ex].
    rewrite <- (app_nil_r (be16 w)). eapply reads_bind; [by apply reads_u16|].
    rewrite <- (app_nil_r []). eapply reads_bind; [by apply reads_lift|]. apply reads_ret.
  - destruct (stored_word_none f Ew) as [-> ->]. rewrite bool_decide_false by (by intros [? ?]). apply reads_ret.
Qed.
End flags.

(** * Entries *)

Definition u32 (n : Z) : Prop := 0 <= n < 2 ^ 32.

Definition time_wf (t : Time.t) : Prop := u32 (Time.seconds t) /\ u32 (Time.nanos t).

(** An entry the file format can hold for a repository of [kind]. *)
Record entry_wf (kind : HashKind.t) (e : IndexEntry.t) : Prop := {
  ew_ctime : time_wf (IndexEntry.ctime e);
  ew_mtime : time_wf (IndexEntry.mtime e);
  ew_dev : u32 (IndexEntry.dev e);
  ew_ino : u32 (IndexEntry.ino e);
  ew_mode : u32 (IndexEntry.mode e);
  ew_uid : u32 (IndexEntry.uid e);
  ew_gid : u32 (IndexEntry.gid e);
  ew_size : u32 (IndexEntry.size e);
  ew_kind : ObjectHash.kind (IndexEntry.hash e) = kind;
  ew_hash : hash_wf (IndexEntry.hash e);
  ew_flags : flags_wf (IndexEntry.flags e);
  ew_name : Flags.name_length (IndexEntry.flags e) = blen (IndexEntry.name e);
  ew_utf8 : utf8_valid (IndexEntry.name e) = true
}.

Definition norm_entry (e : IndexEntry.t) : IndexEntry.t :=
  IndexEntry.mk (IndexEntry.ctime e) (IndexEntry.mtime e) (IndexEntry.dev e) (IndexEntry.ino e) (IndexEntry.mode e)
    (IndexEntry.uid e) (IndexEntry.gid e) (IndexEntry.size e) (IndexEntry.hash e) (norm_flags (IndexEntry.flags e))
    (IndexEntry.name e).

Definition norm_index (idx : Index) : Index := map (fun p => (p.1, norm_entry p.2)) idx.

Record index_wf (kind : HashKind.t) (idx : Index) : Prop := {
  iw_sorted : bt_sorted idx;
  iw_keys : Forall (fun p => p.1 = IndexEntry.key p.2) idx;
  iw_entries : Forall (fun p => entry_wf kind p.2) idx;
  iw_count : blen idx < 2 ^ 32
}.

Definition time_bytes (t : Time.t) : bytes := be32 (Time.seconds t) ++ be32 (Time.nanos t).

Definition stored_entry (e : IndexEntry.t) (packed : Z) : bytes :=
  time_bytes (IndexEntry.ctime e) ++ time_bytes (IndexEntry.mtime e) ++ be32 (IndexEntry.dev e) ++ be32 (IndexEntry.ino e)
  ++ be32 (IndexEntry.mode e) ++ be32 (IndexEntry.uid e) ++ be32 (IndexEntry.gid e) ++ be32 (IndexEntry.size e)
  ++ ObjectHash.as_ref (IndexEntry.hash e) ++ flags_bytes (IndexEntry.flags e) packed ++ IndexEntry.name e.

Definition stored_padding (kind : HashKind.t) (e : IndexEntry.t) : bytes :=
  repeat 0 (Z.to_nat (entry_padding (HashKind.size kind + 2 + (if Flags.extended (norm_flags (IndexEntry.flags e)) then 2 else 0)
    + blen (IndexEntry.name e)))).

Lemma entry_padding_bounds n : 1 <= entry_padding n <= 8.
Proof. unfold entry_padding. pose proof (Z.mod_pos_bound (8 - (n + 1) mod 8) 8). lia. Qed.

(** The fixed part of an entry has 40 bytes before the name of the object. *)
Lemma entry_padding_aligns n : (40 + n + entry_padding n) mod 8 = 0.
Proof. unfold entry_padding. Z.to_euclidean_division_equations; lia. Qed.

Section entries.
Context `{HasherLaws} `{TextEnv}.
Variable kind : HashKind.t.

Notation reads := (reads kind).

Lemma entry_bytes_stored e packed : Flags.try_into_u16 (IndexEntry.flags e) = Ok packed ->
  entry_bytes kind e = Ok (stored_entry e packed ++ stored_padding kind e).
Proof.
  intros Ep. unfold entry_bytes. fold (stored_word (IndexEntry.flags e)). rewrite Ep. cbn [map_err rbind].
  fold (stored_flags (IndexEntry.flags e) packed). unfold stored_entry, stored_padding, flags_bytes, time_bytes. rewrite <- stored_word_some.
  destruct (stored_word (IndexEntry.flags e)); by rewrite <- !app_assoc.
Qed.

Lemma reads_time t : time_wf t -> reads Time.from_stream (time_bytes t) t.
Proof.
  intros [Hs Hn]. unfold time_bytes. eapply reads_bind; [by apply reads_u32|]. rewrite <- (app_nil_r (be32 (Time.nanos t))).
  eapply reads_bind; [by apply reads_u32|]. destruct t. apply reads_ret.
Qed.

Lemma reads_entry e : entry_wf kind e ->
  exists packed, Flags.try_into_u16 (IndexEntry.flags e) = Ok packed
    /\ reads (read_entry kind) (stored_entry e packed) (norm_entry e).
Proof.
  intros []. destruct (reads_flags kind _ ew_flags0) as (packed & Ep & Hf). exists packed. split; [done|].
  unfold read_entry, stored_entry. eapply reads_bind; [by apply reads_time|]. eapply reads_bind; [by apply reads_time|].
  do 6 (eapply reads_bind; [by apply reads_u32|]). eapply reads_bind; [by apply reads_sha|]. eapply reads_bind; [exact Hf|].
  rewrite <- (app_nil_r (IndexEntry.name e)). eapply reads_bind; [by apply reads_bytes|].
  rewrite <- (app_nil_r []). eapply reads_bind; [apply reads_lift; unfold utf8_string; by rewrite ew_utf9|]. apply reads_ret.
Qed.

Lemma reads_padding e : entry_wf kind e ->
  reads (read_padding kind (IndexEntry.flags (norm_entry e))) (stored_padding kind e) (stored_padding kind e).
Proof.
  intros []. unfold read_padding, stored_padding. cbn [norm_entry IndexEntry.flags norm_flags Flags.name_length].
  rewrite ew_name0. apply reads_bytes. unfold blen at 2. rewrite repeat_length.
  pose proof (entry_padding_bounds (HashKind.size kind + 2 + (if Flags.extended (norm_flags (IndexEntry.flags e)) then 2 else 0)
    + blen (IndexEntry.name e))). lia.
Qed.

Lemma norm_key e : IndexEntry.key (norm_entry e) = IndexEntry.key e.
Proof. done. Qed.

(** The bytes of the entries, and the index the reader builds from them. *)
Fixpoint entries_bytes (idx : Index) : Res GitError bytes :=
  match idx with
  | [] => Ok []
  | (_, e) :: idx =>
      let! d := entry_bytes kind e in
      let! ds := entries_bytes idx in
      Ok (d ++ ds)
  end.

Lemma reads_index_entries idx acc :
  Forall (fun p => p.1 = IndexEntry.key p.2) idx -> Forall (fun p => entry_wf kind p.2) idx ->
  exists d, entries_bytes idx = Ok d
    /\ reads (entries_loop (length idx) kind acc) d (foldl (fun acc p => bt_insert p.1 (norm_entry p.2) acc) acc idx).
Proof.
  intros Hk Hw. revert acc. induction idx as [|[k e] idx IH]; intros acc; [exists []; split; [done|apply reads_ret]|].
  apply Forall_cons_1 in Hk as [Hk Hks]. apply Forall_cons_1 in Hw as [Hw Hws]. cbn in Hk, Hw. subst k.
  destruct (reads_entry e Hw) as (packed & Ep & He). cbn [entries_bytes]. rewrite (entry_bytes_stored e packed Ep). cbn [rbind].
  destruct (IH Hks Hws (bt_insert (IndexEntry.key e) (norm_entry e) acc)) as (d & -> & Hd). cbn [rbind].
  eexists. split; [done|]. rewrite <- app_assoc. cbn [length entries_loop foldl]. eapply reads_bind; [exact He|].
  eapply reads_bind; [by apply reads_padding|]. rewrite norm_key. exact Hd.
Qed.

Lemma build_sorted idx acc : bt_sorted (acc ++ idx) ->
  foldl (fun acc (p : (bytes * Z) * IndexEntry.t) => bt_insert p.1 (norm_entry p.2) acc) (norm_index acc) idx = norm_index (acc ++ idx).
Proof.
  revert acc. induction idx as [|[k e] idx IH]; intros acc Hs; [by rewrite app_nil_r|]. cbn [foldl fst snd].
  rewrite bt_insert_last.
  - change ([(k, norm_entry e)]) with (norm_index [(k, e)]). unfold norm_index. rewrite <- map_app. fold (norm_index (acc ++ [(k, e)])).
    rewrite IH; rewrite <- app_assoc; done.
  - apply bt_sorted_app in Hs. unfold norm_index. apply List.Forall_map. eapply Forall_impl; [exact Hs|]. intros p Hp.
    by apply Forall_cons_1 in Hp as [? _].
Qed.

End entries.

(** * Round trip *)

Section roundtrip.
Context `{HasherLaws} `{TextEnv}.
Variable kind : HashKind.t.

Notation digest pre := (HashAlgorithm_update (HashAlgorithm_new_for_kind kind) pre).

Lemma write_all_fits d c room : blen d <= room -> file_write_all d (c, room) = (Ok tt, (c ++ d, room - blen d)).
Proof. intros Hr. unfold file_write_all. by replace (blen d <=? room) with true by lia. Qed.

Lemma write_entries_ok idx d pre c room :
  entries_bytes kind idx = Ok d -> blen d <= room ->
  write_entries kind idx (digest pre) (c, room) = (Ok (digest (pre ++ d)), (c ++ d, room - blen d)).
Proof.
  revert d pre c room. induction idx as [|[k e] idx IH]; intros d pre c room E Hr.
  - injection E as <-. cbn [write_entries]. rewrite !app_nil_r, blen_nil, Z.sub_0_r. done.
  - cbn [entries_bytes write_entries] in *. apply bind_Ok_inv in E as (d1 & -> & E). apply bind_Ok_inv in E as (d2 & E2 & E).
    injection E as <-. rewrite blen_app in Hr. pose proof (blen_nonneg d2). rewrite write_all_fits by lia. rewrite update_app.
    rewrite (IH d2) by (done || lia). rewrite !app_assoc, blen_app. f_equal. f_equal. lia.
Qed.

Lemma ensure_kinds_ok idx : Forall (fun p => ObjectHash.kind (IndexEntry.hash p.2) = kind) idx -> ensure_kinds kind idx = Ok tt.
Proof.
  induction 1 as [|[k e] idx Hk _ IH]; [done|]. cbn [ensure_kinds]. cbn in Hk. unfold ObjectHash.ensure_kind. rewrite Hk.
  by rewrite bool_decide_true.
Qed.

Lemma digest_wf pre : ObjectHash.kind (HashAlgorithm_finalize_object_hash (digest pre)) = kind
  /\ hash_wf (HashAlgorithm_finalize_object_hash (digest pre)).
Proof.
  unfold HashAlgorithm_finalize_object_hash, hash_wf, HashAlgorithm_new_for_kind, HashAlgorithm_update. cbn [projT1 projT2].
  pose proof (hasher_finalize_size kind (hasher_update (hasher_new kind) pre)). by destruct kind.
Qed.

(** The content of a file: header, entries, checksum. *)
Definition index_content (idx : Index) (d : bytes) : bytes :=
  (index_header idx ++ d) ++ ObjectHash.as_ref (HashAlgorithm_finalize_object_hash (digest (index_header idx ++ d))).

Lemma to_file_content idx d room :
  entries_bytes kind idx = Ok d -> Forall (fun p => ObjectHash.kind (IndexEntry.hash p.2) = kind) idx ->
  blen (index_content idx d) <= room ->
  to_file_with_hash_kind kind idx (mkDest (Ok tt) room) = (Ok tt, Some (index_content idx d)).
Proof.
  intros Ed Hk Hr. unfold to_file_with_hash_kind. rewrite ensure_kinds_ok by done. cbn [d_create d_room map_err].
  unfold write_created. unfold index_content in Hr. rewrite !blen_app in Hr.
  pose proof (blen_nonneg d). pose proof (blen_nonneg (ObjectHash.as_ref (HashAlgorithm_finalize_object_hash (digest (index_header idx ++ d))))).
  rewrite write_all_fits by lia. cbn [app]. rewrite (write_entries_ok idx d) by (done || lia). rewrite write_all_fits by lia. done.
Qed.

Lemma reads_header idx : blen idx < 2 ^ 32 ->
  reads kind check_header (index_header idx) (if any_extended idx then 3 else 2, blen idx).
Proof.
  intros Hn. pose proof (blen_nonneg idx). unfold check_header, index_header, as_u32. rewrite Z.mod_small by lia.
  eapply reads_bind; [by apply reads_bytes|]. rewrite bool_decide_true by done. cbn [negb].
  eapply reads_bind; [apply reads_u32; destruct (any_extended idx); lia|].
  destruct (any_extended idx); cbn [negb andb Z.eqb Pos.eqb]; (rewrite <- (app_nil_r (be32 (blen idx)));
    eapply reads_bind; [apply reads_u32; lia|apply reads_ret]).
Qed.

(** The tail of the reader: no extension, then the checksum. *)
Lemma read_tail fuel total pre w : let sum := HashAlgorithm_finalize_object_hash (digest pre) in
  at_point kind pre (ObjectHash.as_ref sum) w -> pre <> [] -> total = blen pre + HashKind.size kind ->
  extensions_loop (S fuel) kind total w = Ok (tt, w)
  /\ exists w', check_sum kind w = Ok (tt, w').
Proof.
  intros sum Hw Hne ->. split.
  - cbn [extensions_loop]. unfold r_bind at 1, r_bytes_read. cbn [rbind]. destruct Hw as (_ & _ & _ & ->).
    by rewrite Z.ltb_irrefl.
  - unfold check_sum, r_bind at 1, r_final_hash, Wrapper_final_hash. pose proof Hw as (_ & _ & (h & -> & Hh) & _). cbn [or_panic rbind].
    apply hashed_nonempty in Hh as ->; [|done].
    destruct (digest_wf pre) as [Hk Hwf]. destruct (reads_sha kind sum Hk Hwf pre [] w) as (w' & E & _); [by rewrite app_nil_r|].
    exists w'. unfold r_bind. rewrite E. cbn [rbind]. by rewrite bool_decide_true.
Qed.

Lemma read_index_content idx d n evs out :
  Forall calm evs -> stream_data evs = index_content idx d -> blen idx < 2 ^ 32 ->
  reads kind (entries_loop (length idx) kind Index_new) d out ->
  n = blen (index_content idx d) ->
  from_file_with_hash_kind kind (Ok (mkFile n evs)) = if Index_size out =? blen idx then Ok out else Panic.
Proof.
  intros Hc Hs Hn Hr ->. unfold from_file_with_hash_kind. cbn [map_err rbind file_len file_events].
  pose proof (at_start kind evs Hc) as Hw. rewrite Hs in Hw. unfold index_content in Hw. rewrite <- !app_assoc in Hw.
  destruct (reads_header idx Hn _ _ _ Hw) as (w1 & E1 & Hw1). destruct (Hr _ _ _ Hw1) as (w2 & E2 & Hw2). cbn [app] in Hw2.
  destruct (digest_wf (index_header idx ++ d)) as [Hk [Hsz _]]. unfold ObjectHash.size in Hsz. rewrite Hk in Hsz.
  destruct (read_tail (Z.to_nat (blen (index_content idx d))) (blen (index_content idx d)) (index_header idx ++ d) w2)
    as (E3 & w4 & E4); [done|done|unfold index_content; rewrite (blen_app (_ ++ _)), Hsz; done|].
  unfold read_index, r_bind. rewrite E1. cbn [rbind snd]. replace (Z.to_nat (blen idx)) with (length idx) by (unfold blen; lia). rewrite E2. cbn [rbind].
  rewrite E3. cbn [rbind]. rewrite E4. cbn [rbind]. by destruct (Index_size out =? blen idx).
Qed.
End roundtrip.

(** * What the reader accepts *)

Section accepted.
Context `{HasherLaws} `{TextEnv}.
Variable kind : HashKind.t.

Notation consumes := (consumes kind).

Lemma from_u16_wf word : let f := Flags.from_u16 word in
  flags_wf f /\ norm_flags f = f /\ Flags.skip_worktree f = false /\ Flags.intent_to_add f = false.
Proof.
  unfold Flags.from_u16, flags_wf, norm_flags. cbn. rewrite !orb_false_r. split; [|done].
  assert (Hl : forall w k, 0 <= k -> 0 <= Z.land w (2 ^ k - 1) < 2 ^ k) by (intros w k Hk; rewrite land_low by lia; apply Z.mod_pos_bound; lia).
  split; [|apply (Hl word 12); lia].
  rewrite Z.shiftr_land. change (Z.shiftr 0x3000 12) with (2 ^ 2 - 1).
  pose proof (Hl (Z.shiftr word 12) 2 ltac:(lia)) as Hs. unfold as_u8. rewrite Z.mod_small; lia.
Qed.

Lemma consumes_flags : consumes read_flags (fun _ f => flags_wf f /\ norm_flags f = f).
Proof.
  eapply consumes_bind; [apply consumes_u16|]. intros d word Hd. destruct (from_u16_wf word) as (Hf & Hn & _).
  unfold read_flags. cbv zeta. destruct (Flags.extended (Flags.from_u16 word)) eqn:Ex; [|by apply consumes_ret].
  eapply consumes_bind; [apply consumes_u16|]. intros d2 w2 _. eapply consumes_bind; [apply (consumes_lift _ _ (fun _ _ => True)); done|].
  intros d3 bits _. by apply consumes_ret.
Qed.

Lemma consumes_time : consumes Time.from_stream (fun _ t => time_wf t).
Proof.
  eapply consumes_bind; [apply consumes_u32|]. intros d1 s [Hs _]. eapply consumes_bind; [apply consumes_u32|]. intros d2 n [Hn _].
  by apply consumes_ret.
Qed.

Lemma consumes_entry : consumes (read_entry kind) (fun _ e => entry_wf kind e /\ norm_entry e = e).
Proof.
  eapply consumes_bind; [apply consumes_time|]. intros ? ctime Hc. eapply consumes_bind; [apply consumes_time|]. intros ? mtime Hm.
  eapply consumes_bind; [apply consumes_u32|]. intros ? dev [Hdev _]. eapply consumes_bind; [apply consumes_u32|]. intros ? ino [Hino _].
  eapply consumes_bind; [apply consumes_u32|]. intros ? mode [Hmode _]. eapply consumes_bind; [apply consumes_u32|]. intros ? uid [Huid _].
  eapply consumes_bind; [apply consumes_u32|]. intros ? gid [Hgid _]. eapply consumes_bind; [apply consumes_u32|]. intros ? size [Hsize _].
  eapply consumes_bind; [apply consumes_sha|]. intros ? hash (_ & Hk & Hh). eapply consumes_bind; [apply consumes_flags|]. intros ? flags [Hf Hnf].
  eapply consumes_bind; [apply consumes_bytes, Hf|]. intros nm name (Hnm & Hl & _). subst nm.
  eapply consumes_bind; [apply (consumes_lift _ _ (fun _ a => a = name /\ utf8_valid name = true))|].
  { intros a E. unfold utf8_string in E. destruct (utf8_valid name); [|done]. by injection E as <-. }
  intros ? a [-> Hu]. apply consumes_ret. split; [by split|]. unfold norm_entry. cbn. by rewrite Hnf.
Qed.

(** What holds of the index while its entries are read. *)
Definition read_inv (idx : Index) : Prop :=
  bt_sorted idx /\ Forall (fun p => p.1 = IndexEntry.key p.2 /\ entry_wf kind p.2 /\ norm_entry p.2 = p.2) idx.

Lemma consumes_entries n acc : read_inv acc -> consumes (entries_loop n kind acc) (fun _ idx => read_inv idx).
Proof.
  revert acc. induction n as [|n IH]; intros acc Ha; cbn [entries_loop]; [by apply consumes_ret|].
  eapply consumes_bind; [apply consumes_entry|]. intros d e [He Hn]. eapply consumes_bind.
  { apply (consumes_bytes kind). pose proof (entry_padding_bounds (HashKind.size kind + 2 + (if Flags.extended (IndexEntry.flags e) then 2 else 0)
      + Flags.name_length (IndexEntry.flags e))). lia. }
  intros d2 ? _. apply IH. destruct Ha as [Hs Hall]. split; [by apply bt_insert_sorted|by apply bt_insert_above].
Qed.

Lemma consumes_header : consumes check_header (fun _ h => 0 <= h.2 < 2 ^ 32).
Proof.
  eapply consumes_bind; [by apply consumes_bytes|]. intros d magic _. destruct (negb (bool_decide (magic = str "DIRC"))); [apply consumes_fail|].
  eapply consumes_bind; [apply consumes_u32|]. intros d2 v _. destruct (negb (v =? 2) && negb (v =? 3)); [apply consumes_fail|].
  eapply consumes_bind; [apply consumes_u32|]. intros d3 n [Hn _]. by apply consumes_ret.
Qed.

Lemma from_file_wf f idx :
  Forall calm (file_events f) -> byte_list (stream_data (file_events f)) ->
  from_file_with_hash_kind kind (Ok f) = Ok idx -> index_wf kind idx /\ norm_index idx = idx.
Proof.
  intros Hc Hb E. unfold from_file_with_hash_kind in E. cbn [map_err rbind] in E. apply bind_Ok_inv in E as ((idx' & w) & E & [= <-]).
  unfold read_index, r_bind in E. apply bind_Ok_inv in E as ((hd & w1) & E1 & E). apply bind_Ok_inv in E as ((out & w2) & E2 & E).
  apply bind_Ok_inv in E as ((u & w3) & _ & E). apply bind_Ok_inv in E as ((u' & w4) & _ & E).
  destruct (consumes_header _ _ _ _ _ Hb (at_start kind _ Hc) E1) as (d1 & s1 & Hs & Hw1 & Hn). rewrite Hs in Hb. apply Forall_app in Hb as [_ Hb].
  assert (H0i : read_inv Index_new) by (split; constructor).
  destruct (consumes_entries _ _ H0i _ _ _ _ _ Hb Hw1 E2) as (d2 & s2 & _ & _ & Hso & Hall).
  destruct (Index_size out =? hd.2) eqn:En; [|done]. injection E as <- <-. unfold Index_size in En.
  split; [split; [done|..]|].
  - eapply Forall_impl; [exact Hall|]. tauto.
  - eapply Forall_impl; [exact Hall|]. tauto.
  - lia.
  - unfold norm_index. rewrite <- (map_id out) at 2. apply map_ext_Forall. eapply Forall_impl; [exact Hall|]. intros [k e] (_ & _ & He). cbn in *. by rewrite He.
Qed.

End accepted.

(** * Theorems on the file *)

Section theorems.
Context `{HasherLaws} `{TextEnv}.

Lemma index_wf_kinds kind idx : index_wf kind idx -> Forall (fun p => ObjectHash.kind (IndexEntry.hash p.2) = kind) idx.
Proof. intros []. eapply Forall_impl; [exact iw_entries0|]. by intros p []. Qed.

Lemma index_written_reads kind idx : index_wf kind idx ->
  exists content,
    (forall room, blen content <= room -> to_file_with_hash_kind kind idx (mkDest (Ok tt) room) = (Ok tt, Some content))
    /\ forall evs, Forall calm evs -> stream_data evs = content ->
       from_file_with_hash_kind kind (Ok (mkFile (blen content) evs)) = Ok (norm_index idx).
Proof.
  intros Hw. pose proof Hw as []. destruct (reads_index_entries kind idx [] iw_keys0 iw_entries0) as (d & Ed & Hr).
  pose proof (build_sorted idx [] iw_sorted0) as Hb. cbn [norm_index map app] in Hb. rewrite Hb in Hr.
  exists (index_content kind idx d). split; [intros room Hr'; apply to_file_content; [done|by apply index_wf_kinds|done]|].
  intros evs Hc Hs. erewrite (read_index_content kind idx d _ evs) by (try exact Hr; done).
  unfold Index_size, norm_index, blen. rewrite length_map. by rewrite Z.eqb_refl.
Qed.

(** C21: an index of a repository of some kind is written whole and read back: given room for it,
    the writer succeeds, and the reader, however the file's bytes are cut into pieces, returns the
    same entries under the same keys, with [extended] set exactly on the entries that carry the
    second flags word. *)
Theorem index_roundtrip (kind : HashKind.t) (idx : Index) :
  index_wf kind idx ->
  exists content,
    (forall room, blen content <= room -> to_file_with_hash_kind kind idx (mkDest (Ok tt) room) = (Ok tt, Some content))
    /\ forall evs, Forall calm evs -> stream_data evs = content ->
       from_file_with_hash_kind kind (Ok (mkFile (blen content) evs)) = Ok (norm_index idx).
Proof. apply index_written_reads. Qed.

(** C22: whatever index file the reader accepts, writing the index and reading it again gives the
    same index: the reader only builds indexes the writer can represent. *)
Theorem index_rewrite_stable (kind : HashKind.t) (f : File) (idx : Index) :
  Forall calm (file_events f) -> byte_list (stream_data (file_events f)) ->
  from_file_with_hash_kind kind (Ok f) = Ok idx ->
  index_wf kind idx
  /\ exists content,
       (forall room, blen content <= room -> to_file_with_hash_kind kind idx (mkDest (Ok tt) room) = (Ok tt, Some content))
       /\ forall evs, Forall calm evs -> stream_data evs = content ->
          from_file_with_hash_kind kind (Ok (mkFile (blen content) evs)) = Ok idx.
Proof.
  intros Hc Hb E. destruct (from_file_wf kind f idx Hc Hb E) as [Hw Hn]. split; [done|].
  destruct (index_written_reads kind idx Hw) as (content & Hto & Hfrom). rewrite Hn in Hfrom. by exists content.
Qed.

(** ** Failing writes *)

Lemma ensure_kinds_err kind idx :
  Exists (fun p => ObjectHash.kind (IndexEntry.hash p.2) <> kind) idx -> exists e, ensure_kinds kind idx = Err e.
Proof.
  induction 1 as [[k e] idx Hk|[k e] idx _ IH]; cbn [ensure_kinds]; unfold ObjectHash.ensure_kind; cbn in *.
  - rewrite bool_decide_false by done. cbn. eauto.
  - destruct (bool_decide _); cbn; [done|eauto].
Qed.

(** an index with an entry of another kind is refused before the destination is touched: the
    file on disk stays as it was, whatever the destination. *)
Theorem cross_kind_write_untouched (kind : HashKind.t) (idx : Index) (dest : Dest) :
  Exists (fun p => ObjectHash.kind (IndexEntry.hash p.2) <> kind) idx ->
  exists e, to_file_with_hash_kind kind idx dest = (Err e, None).
Proof. intros Hx. destruct (ensure_kinds_err kind idx Hx) as [e E]. exists e. unfold to_file_with_hash_kind. by rewrite E. Qed.

Lemma write_entries_long kind k e rest h f :
  0xFFF < Flags.name_length (IndexEntry.flags e) ->
  exists err, write_entries kind ((k, e) :: rest) h f = (Err err, f).
Proof.
  intros Hl. cbn [write_entries]. unfold entry_bytes, Flags.try_into_u16. replace (0xFFF <? _) with true by lia. cbn. eauto.
Qed.

(** Reading a file with entries announced and none there. *)
Lemma header_only_unreadable kind idx n evs : idx <> [] -> blen idx < 2 ^ 32 ->
  Forall calm evs -> stream_data evs = index_header idx ->
  exists e, from_file_with_hash_kind kind (Ok (mkFile n evs)) = Err e.
Proof.
  intros Hne Hn Hc Hs. unfold from_file_with_hash_kind. cbn [map_err rbind file_len file_events].
  pose proof (at_start kind evs Hc) as Hw. rewrite Hs, <- (app_nil_r (index_header idx)) in Hw.
  destruct (reads_header kind idx Hn _ _ _ Hw) as (w1 & E1 & Hw1). unfold read_index. unfold r_bind at 1. rewrite E1. cbn [rbind snd].
  assert (Hpos : exists m, Z.to_nat (blen idx) = S m) by (destruct idx as [|x idx]; [done|]; exists (length idx); unfold blen; cbn [length]; lia).
  destruct Hpos as [m ->]. cbn [entries_loop].
  destruct (fill_buffer_at kind 4 _ [] w1 Hw1 ltac:(lia)) as (d & s' & w' & Ef & Hd & _ & _ & _).
  symmetry in Hd. apply app_eq_nil in Hd as [-> ->].
  assert (Eu : r_u32 w1 = Err (IOError UnexpectedEof)).
  { unfold r_u32, r_bind, r_bytes, read_bytes. rewrite Ef. done. }
  assert (Ee : read_entry kind w1 = Err (IOError UnexpectedEof)).
  { unfold read_entry, Time.from_stream, r_bind. by rewrite Eu. }
  eexists. unfold r_bind. rewrite Ee. done.
Qed.

(** a name longer than 4095 bytes is only found when its entry is encoded, after the
    destination was created: the write fails, and the file that was there is replaced by a header
    that announces entries it does not hold, which no reader accepts. *)
Theorem long_name_truncates (kind : HashKind.t) (k : bytes * Z) (e : IndexEntry.t) (rest : Index) (room : Z) :
  let idx := (k, e) :: rest in
  0xFFF < Flags.name_length (IndexEntry.flags e) ->
  Forall (fun p => ObjectHash.kind (IndexEntry.hash p.2) = kind) idx -> blen idx < 2 ^ 32 -> 12 <= room ->
  (exists err, to_file_with_hash_kind kind idx (mkDest (Ok tt) room) = (Err err, Some (index_header idx)))
  /\ forall evs n, Forall calm evs -> stream_data evs = index_header idx ->
     exists err, from_file_with_hash_kind kind (Ok (mkFile n evs)) = Err err.
Proof.
  intros idx Hl Hk Hn Hr. split; [|intros evs n; by apply header_only_unreadable].
  unfold to_file_with_hash_kind. rewrite ensure_kinds_ok by done. cbn [map_err d_create d_room]. unfold write_created.
  rewrite write_all_fits by (unfold index_header; rewrite !blen_app, !be32_length; change (blen (str "DIRC")) with 4; lia).
  destruct (write_entries_long kind k e rest (HashAlgorithm_update (HashAlgorithm_new_for_kind kind) (index_header idx))
    ([] ++ index_header idx, room - blen (index_header idx)) Hl) as (err & E). fold idx in E. rewrite E. by exists err.
Qed.

(** a file that holds one entry twice, with a correct checksum, makes the reader panic: the
    map keeps one of them and the count is asserted. *)
Theorem duplicate_entry_panics (kind : HashKind.t) (e : IndexEntry.t) :
  entry_wf kind e ->
  let idx := [(IndexEntry.key e, e); (IndexEntry.key e, e)] in
  exists d, entries_bytes kind idx = Ok d
    /\ forall evs, Forall calm evs -> stream_data evs = index_content kind idx d ->
       from_file_with_hash_kind kind (Ok (mkFile (blen (index_content kind idx d)) evs)) = Panic.
Proof.
  intros He idx. destruct (reads_index_entries kind idx []) as (d & Ed & Hr); [by repeat apply Forall_cons_2|by repeat apply Forall_cons_2|].
  exists d. split; [done|]. intros evs Hc Hs. erewrite (read_index_content kind idx d _ evs) by (try exact Hr; done).
  unfold idx. cbn [foldl fst snd bt_insert]. rewrite norm_key || idtac. cbn [bt_insert]. by rewrite kcmp_refl.
Qed.

End theorems.

(** * Refreshing *)

Section refresh.
Context `{HasherLaws} `{TextEnv}.

Lemma time_of_metadata {E} secs nanos : secs <= u32_max -> exists t, Time.from_system_time (E := E) (unix_metadata_time secs nanos) = Ok t.
Proof.
  intros Hs. unfold Time.from_system_time, unix_metadata_time, Time.UNIX_EPOCH. destruct (secs <? 0) eqn:E1; [cbn; eauto|]. rewrite E1.
  replace (secs <=? u32_max) with true by lia. eauto.
Qed.

(** The entry after a refresh that found [meta] and [content]. *)
Definition refreshed (kind : HashKind.t) (meta : Metadata) (content : bytes) (ct mt : Time.t) (e e' : IndexEntry.t) : Prop :=
  IndexEntry.ctime e' = ct /\ IndexEntry.mtime e' = mt /\ IndexEntry.size e' = as_u32 (m_len meta)
  /\ IndexEntry.hash e' = ObjectHash_new_for_kind kind (str "blob " ++ show_dec (m_len meta) ++ [0] ++ content)
  /\ IndexEntry.key e' = IndexEntry.key e /\ IndexEntry.mode e' = IndexEntry.mode e.

Lemma refresh_entry_ok kind tree e abs meta content ct mt :
  ObjectHash.kind (IndexEntry.hash e) = kind ->
  symlink_metadata tree abs = Ok meta -> file_open tree abs = Ok content ->
  Time.from_system_time (E := GitError) (index_ctime meta) = Ok ct -> Time.from_system_time (E := GitError) (index_mtime meta) = Ok mt ->
  exists changed, refresh_entry kind tree e abs = Ok changed /\ refreshed kind meta content ct mt e (default e changed).
Proof.
  intros Hk Hm Hc Ect Emt. unfold refresh_entry, ObjectHash.ensure_kind. rewrite bool_decide_true by done. cbn [map_err rbind].
  rewrite Hm. cbn [map_err rbind]. rewrite Ect. cbn [rbind]. rewrite Emt. cbn [rbind ObjectType.to_bytes ok_or]. rewrite Hc. cbn [map_err rbind].
  rewrite !update_app.
  rewrite <- ?app_assoc. fold (ObjectHash_new_for_kind kind (str "blob" ++ str " " ++ show_dec (m_len meta) ++ [0] ++ content)).
  change (str "blob" ++ str " " ++ show_dec (m_len meta) ++ [0] ++ content) with (str "blob " ++ show_dec (m_len meta) ++ [0] ++ content).
  match goal with |- context [if ?b then _ else _] => destruct b eqn:Eb end; eexists; (split; [done|]); cbn [default]; [|by repeat split].
  rewrite !andb_true_iff, !bool_decide_eq_true in Eb. destruct Eb as [[[? ?] ?] ?]. split; [done|]. split; [done|]. split; [lia|]. by repeat split.
Qed.

(** C24: refreshing a tracked file succeeds and brings its entry up to date: the size is the file's,
    the identifier is the digest of [blob], the size found and the content, which is the blob's
    object id whenever the size found is that of the content, and the file no longer counts as
    modified; every other entry is untouched, and [false] means nothing changed. *)
Theorem refresh_updates (kind : HashKind.t) (tree : WorkTree) (idx : Index) (path workdir : bytes)
  (e : IndexEntry.t) (meta : Metadata) (content : bytes) :
  bt_sorted idx -> utf8_valid path = true -> Index_get idx path 0 = Some e ->
  ObjectHash.kind (IndexEntry.hash e) = kind ->
  symlink_metadata tree (path_join workdir path) = Ok meta -> file_open tree (path_join workdir path) = Ok content ->
  m_ctime meta <= u32_max -> m_mtime meta <= u32_max ->
  exists changed idx' e', refresh_with_hash_kind kind tree idx path workdir = Ok (changed, idx')
    /\ Index_get idx' path 0 = Some e'
    /\ IndexEntry.size e' = as_u32 (m_len meta)
    /\ IndexEntry.hash e' = ObjectHash_new_for_kind kind (str "blob " ++ show_dec (m_len meta) ++ [0] ++ content)
    /\ (m_len meta = blen content -> from_type_and_data_for_kind kind ObjectType.Blob content = Ok (IndexEntry.hash e'))
    /\ is_modified (E := GitError) tree idx' path 0 workdir = Ok false
    /\ (forall name stage, (name, stage) <> (path, 0) -> Index_get idx' name stage = Index_get idx name stage)
    /\ (changed = false -> idx' = idx).
Proof.
  intros Hs Hu Hg Hk Hm Hc Hct Hmt.
  destruct (time_of_metadata (E := GitError) (m_ctime meta) (m_ctime_nsec meta) Hct) as [ct Ect].
  destruct (time_of_metadata (E := GitError) (m_mtime meta) (m_mtime_nsec meta) Hmt) as [mt Emt].
  destruct (refresh_entry_ok kind tree e (path_join workdir path) meta content ct mt) as (changed & Er & Hr); try done.
  unfold refresh_with_hash_kind. rewrite Hu. cbn [rbind]. unfold Index_get in *. rewrite Hg, Er. cbn [rbind].
  set (idx' := match changed with Some e1 => bt_insert (path, 0) e1 idx | None => idx end).
  exists (bool_decide (is_Some changed)), idx', (default e changed).
  assert (Hg' : bt_get (path, 0) idx' = Some (default e changed)).
  { unfold idx'. destruct changed; [|done]. rewrite bt_get_insert by done. by rewrite kcmp_refl. }
  destruct Hr as (H1' & H2' & H3' & H4' & _).
  split; [unfold idx'; by destruct changed|]. split; [done|]. split; [done|]. split; [done|]. split; [|split; [|split]].
  - intros Hl. rewrite H4'. unfold from_type_and_data_for_kind. cbn [ObjectType.to_bytes ok_or rbind]. rewrite !update_app, <- ?app_assoc, Hl. done.
  - unfold is_modified, Index_get. rewrite Hg', Hm. cbn [unwrap rbind]. unfold index_ctime, index_mtime. rewrite Ect. cbn [rbind]. rewrite bool_decide_true by done.
    rewrite Emt. cbn [rbind]. rewrite bool_decide_true by done. by rewrite H3', Z.eqb_refl.
  - intros name stage Hne. unfold idx'. destruct changed; [|done]. rewrite bt_get_insert by done. destruct (kcmp (name, stage) (path, 0)) eqn:Ek; try done.
    by apply kcmp_eq in Ek.
  - unfold idx'. by destruct changed.
Qed.

End refresh.
