(* ===== verification/StagingSpec.v ===== *)
(** The staging index as a finite map from names and stages to entries: every sequence of
    operations answers as the same operations on a [gmap].  Also here: the reader terminates on
    every file, and concrete runs. *)

From Stdlib Require Import ZArith Lia String.
From stdpp Require Import base tactics list numbers option gmap.
From S2P Require Import Prelude Stream Text Errors ObjectTypes PackUtils Hash PackIndex EntrySort Wrapper BTree StagingIndex StagingProofs.

(** * The abstract map *)

Notation IndexMap := (gmap (bytes * Z) IndexEntry.t).

Inductive IndexOp : Type :=
| OpAdd (entry : IndexEntry.t)
| OpUpdate (entry : IndexEntry.t)
| OpRemove (name : bytes) (stage : Z)
| OpGet (name : bytes) (stage : Z)
| OpTracked (name : bytes) (stage : Z)
| OpGetHash (name : bytes) (stage : Z)
| OpVerifyHash (name : bytes) (stage : Z) (hash : ObjectHash.t)
| OpSize
| OpContainsDirFile (dir : bytes)
| OpRemoveDirFiles (dir : bytes).

Inductive Answer : Type :=
| ANothing
| AEntry (e : option IndexEntry.t)
| AHash (h : option ObjectHash.t)
| ABool (b : bool)
| ACount (n : Z)
| ANames (names : gset bytes).

(** The code's operations. *)
Definition run_op (op : IndexOp) (idx : Index) : Answer * Index :=
  match op with
  | OpAdd e => (ANothing, Index_add idx e)
  | OpUpdate e => (ANothing, Index_update idx e)
  | OpRemove n s => let (old, idx) := Index_remove idx n s in (AEntry old, idx)
  | OpGet n s => (AEntry (Index_get idx n s), idx)
  | OpTracked n s => (ABool (tracked idx n s), idx)
  | OpGetHash n s => (AHash (get_hash idx n s), idx)
  | OpVerifyHash n s h => (ABool (verify_hash idx n s h), idx)
  | OpSize => (ACount (Index_size idx), idx)
  | OpContainsDirFile d => (ABool (contains_dir_file idx d), idx)
  | OpRemoveDirFiles d => let (names, idx) := remove_dir_files idx d in (ANames (list_to_set names), idx)
  end.

(** [name] is a proper descendant of [dir]. *)
Definition below (dir name : bytes) : Prop := exists c rest, components name = components dir ++ c :: rest.

Definition in_dir (d : bytes) (p : (bytes * Z) * IndexEntry.t) : Prop := below_dir d p.1.1 = true.
#[export] Instance in_dir_dec d p : Decision (in_dir d p).
Proof. unfold in_dir. apply _. Defined.

(** Their specification. *)
Definition spec_op (op : IndexOp) (m : IndexMap) : Answer * IndexMap :=
  match op with
  | OpAdd e | OpUpdate e => (ANothing, <[IndexEntry.key e := e]> m)
  | OpRemove n s => (AEntry (m !! (n, s)), delete (n, s) m)
  | OpGet n s => (AEntry (m !! (n, s)), m)
  | OpTracked n s => (ABool (bool_decide ((n, s) ∈ dom m)), m)
  | OpGetHash n s => (AHash (IndexEntry.hash <$> m !! (n, s)), m)
  | OpVerifyHash n s h => (ABool (bool_decide (IndexEntry.hash <$> m !! (n, s) = Some h)), m)
  | OpSize => (ACount (Z.of_nat (size m)), m)
  | OpContainsDirFile d => (ABool (negb (bool_decide (dom (filter (in_dir d) m) = ∅))), m)
  | OpRemoveDirFiles d => (ANames (set_map fst (dom (filter (in_dir d) m))), filter (fun p => ~ in_dir d p) m)
  end.

Fixpoint run_ops (ops : list IndexOp) (idx : Index) : list Answer * Index :=
  match ops with
  | [] => ([], idx)
  | op :: ops =>
      let (a, idx) := run_op op idx in
      let (answers, idx) := run_ops ops idx in
      (a :: answers, idx)
  end.

Fixpoint spec_ops (ops : list IndexOp) (m : IndexMap) : list Answer * IndexMap :=
  match ops with
  | [] => ([], m)
  | op :: ops =>
      let (a, m) := spec_op op m in
      let (answers, m) := spec_ops ops m in
      (a :: answers, m)
  end.

(** The map an index stands for. *)
Definition index_view (idx : Index) : IndexMap := list_to_map idx.

Lemma below_dir_spec d n : below_dir d n = true <-> below d n.
Proof.
  unfold below_dir, below. rewrite andb_true_iff, negb_true_iff, bool_decide_eq_true, bool_decide_eq_false. split.
  - intros [[[|c rest] E] Hne]; [by rewrite app_nil_r in E|eauto].
  - intros (c & rest & ->). split; [by eexists|]. intros E. apply (f_equal length) in E. rewrite length_app in E. cbn in E. lia.
Qed.

Lemma view_lookup idx k : bt_sorted idx -> index_view idx !! k = bt_get k idx.
Proof.
  induction idx as [|[k' e] idx IH]; intros Hs; [done|]. apply bt_sorted_cons in Hs as [_ Hs]. cbn [bt_get].
  change (index_view ((k', e) :: idx)) with (<[k' := e]> (index_view idx)). destruct (kcmp k k') eqn:E.
  - apply kcmp_eq in E as ->. apply lookup_insert_eq.
  - rewrite lookup_insert_ne; [by apply IH|]. intros ->. by rewrite kcmp_refl in E.
  - rewrite lookup_insert_ne; [by apply IH|]. intros ->. by rewrite kcmp_refl in E.
Qed.

Lemma kcmp_decide {A} (k k' : bytes * Z) (a b : A) : match kcmp k k' with Eq => a | _ => b end = if decide (k = k') then a else b.
Proof.
  destruct (kcmp k k') eqn:E; destruct (decide (k = k')) as [-> | Hne]; try done; try (by rewrite kcmp_refl in E).
  by apply kcmp_eq in E.
Qed.

Lemma view_insert k e idx : bt_sorted idx -> index_view (bt_insert k e idx) = <[k := e]> (index_view idx).
Proof.
  intros Hs. apply map_eq. intros k'. rewrite view_lookup, bt_get_insert, kcmp_decide by (try done; by apply bt_insert_sorted).
  destruct (decide (k' = k)) as [-> | Hne]; [by rewrite lookup_insert_eq|]. rewrite lookup_insert_ne by done. by rewrite view_lookup.
Qed.

Lemma view_remove k idx : bt_sorted idx -> index_view (bt_remove k idx) = delete k (index_view idx).
Proof.
  intros Hs. apply map_eq. intros k'. rewrite view_lookup, bt_get_remove, kcmp_decide by (try done; by apply bt_remove_sorted).
  destruct (decide (k' = k)) as [-> | Hne]; [by rewrite lookup_delete_eq|]. rewrite lookup_delete_ne by done. by rewrite view_lookup.
Qed.

Lemma view_filter (P : (bytes * Z) * IndexEntry.t -> Prop) `{!forall x, Decision (P x)} idx :
  bt_sorted idx -> index_view (filter P idx) = filter P (index_view idx).
Proof.
  intros Hs. apply map_eq. intros k. apply option_eq. intros e.
  rewrite view_lookup, bt_get_elem, map_lookup_filter_Some, view_lookup, bt_get_elem, list_elem_of_filter by (try done; by apply bt_filter_sorted). tauto.
Qed.

Lemma view_size idx : bt_sorted idx -> size (index_view idx) = length idx.
Proof.
  induction idx as [|[k e] idx IH]; intros Hs; [done|]. pose proof Hs as [Ha Hs']%bt_sorted_cons.
  change (index_view ((k, e) :: idx)) with (<[k := e]> (index_view idx)).
  rewrite map_size_insert_None; [cbn [length]; f_equal; by apply IH|]. rewrite view_lookup by done. by apply bt_get_above.
Qed.

Lemma view_dom k idx : bt_sorted idx -> k ∈ dom (index_view idx) <-> exists e, (k, e) ∈ idx.
Proof. intros Hs. rewrite elem_of_dom. unfold is_Some. setoid_rewrite view_lookup; [|done]. by setoid_rewrite bt_get_elem. Qed.

Lemma contains_dir_file_spec idx d : bt_sorted idx ->
  contains_dir_file idx d = negb (bool_decide (dom (filter (in_dir d) (index_view idx)) = ∅)).
Proof.
  intros Hs. apply eq_true_iff_eq. unfold contains_dir_file. rewrite existsb_exists, negb_true_iff, bool_decide_eq_false. split.
  - intros ([[n s] e] & Hin & Hb) E. apply list_elem_of_In in Hin. apply (not_elem_of_empty (C := gset (bytes * Z)) (n, s)). rewrite <- E, <- view_filter by done.
    apply view_dom; [by apply bt_filter_sorted|]. exists e. by apply list_elem_of_filter.
  - intros Hne. apply set_choose_L in Hne as [k Hk]. rewrite <- view_filter in Hk by done. apply view_dom in Hk as [e He]; [|by apply bt_filter_sorted].
    apply list_elem_of_filter in He as [Hb Hin]. exists (k, e). split; [by apply list_elem_of_In|exact Hb].
Qed.

Lemma removed_names_spec idx d : bt_sorted idx ->
  list_to_set (remove_dir_files idx d).1 = (set_map fst (dom (filter (in_dir d) (index_view idx))) : gset bytes).
Proof.
  intros Hs. apply set_eq. intros n. cbn [remove_dir_files fst]. rewrite elem_of_list_to_set, elem_of_map, <- view_filter by done.
  setoid_rewrite view_dom; [|by apply bt_filter_sorted]. split.
  - intros Hin. apply list_elem_of_fmap in Hin as ([k e] & -> & Hin). exists k. split; [done|]. by exists e.
  - intros (k & -> & e & Hin). apply list_elem_of_fmap. by exists (k, e).
Qed.

Lemma run_op_refines op idx : bt_sorted idx ->
  bt_sorted (run_op op idx).2 /\ spec_op op (index_view idx) = ((run_op op idx).1, index_view (run_op op idx).2).
Proof.
  intros Hs. destruct op; cbn [run_op spec_op fst snd].
  - split; [by apply bt_insert_sorted|]. unfold Index_add. by rewrite view_insert.
  - split; [by apply bt_insert_sorted|]. unfold Index_update, Index_add. by rewrite view_insert.
  - unfold Index_remove. cbn [fst snd]. split; [by apply bt_remove_sorted|]. by rewrite view_remove, view_lookup.
  - unfold Index_get. by rewrite view_lookup.
  - split; [done|]. unfold tracked. do 2 f_equal. apply bool_decide_ext. by rewrite elem_of_dom, view_lookup.
  - split; [done|]. unfold get_hash, Index_get. rewrite view_lookup by done. by destruct (bt_get (name, stage) idx).
  - split; [done|]. unfold verify_hash, get_hash, Index_get. rewrite view_lookup by done. do 2 f_equal.
    destruct (bt_get (name, stage) idx); cbn; [|done]. apply bool_decide_ext. naive_solver.
  - split; [done|]. unfold Index_size, blen. by rewrite view_size.
  - split; [done|]. by rewrite contains_dir_file_spec.
  - split; [by apply bt_filter_sorted|]. pose proof (removed_names_spec idx dir Hs) as Hn. cbn [remove_dir_files fst snd] in Hn |- *. rewrite Hn. f_equal.
    rewrite view_filter by done. apply map_filter_ext. intros k e _. unfold in_dir. cbn. destruct (below_dir dir k.1); naive_solver.
Qed.

(** C23: the staging index is a finite map: whatever sequence of operations is run on a new index,
    every answer and the final content are those of the same operations on a map from names and
    stages to entries, where a directory holds exactly the names properly below it, component by
    component. *)
Theorem index_refines_map (ops : list IndexOp) :
  let (answers, idx) := run_ops ops Index_new in
  spec_ops ops ∅ = (answers, index_view idx) /\ bt_sorted idx
  /\ forall d n, below_dir d n = true <-> below d n.
Proof.
  assert (G : forall ops idx, bt_sorted idx -> let (answers, idx') := run_ops ops idx in spec_ops ops (index_view idx) = (answers, index_view idx') /\ bt_sorted idx').
  { clear ops. induction ops as [|op ops IH]; intros idx Hs; [done|]. cbn [run_ops spec_ops]. destruct (run_op_refines op idx Hs) as [Hs1 ->].
    destruct (run_op op idx) as [a idx1]. cbn [fst snd] in *. specialize (IH idx1 Hs1). destruct (run_ops ops idx1) as [answers idx2]. destruct IH as [-> Hs2]. done. }
  specialize (G ops Index_new ltac:(constructor)). destruct (run_ops ops Index_new) as [answers idx]. destruct G as [E Hs]. split; [exact E|]. split; [done|]. apply below_dir_spec.
Qed.

(** * The reader terminates *)

Section termination.
Context `{Hasher} `{TextEnv}.

Lemma r_fail_returns {A} e : r_returns (r_fail (A := A) e).
Proof. done. Qed.

#[local] Hint Resolve r_fail_returns : git.
#[local] Hint Extern 2 (r_returns (r_bind _ _)) => apply r_bind_returns; [|intros ?] : git.

Lemma utf8_string_returns b : returns (utf8_string b).
Proof. unfold utf8_string. by destruct (utf8_valid b). Qed.

Lemma check_header_returns : r_returns check_header.
Proof.
  unfold check_header. apply r_bind_returns; [auto with git|]. intros magic. destruct (negb _); [auto with git|].
  apply r_bind_returns; [auto with git|]. intros v. destruct (negb _ && negb _); auto with git.
Qed.

Lemma read_flags_returns : r_returns read_flags.
Proof.
  unfold read_flags. apply r_bind_returns; [auto with git|]. intros word. cbv zeta. destruct (Flags.extended _); [|auto with git].
  apply r_bind_returns; [auto with git|]. intros w2. apply r_bind_returns; [|auto with git]. apply r_lift_returns.
  unfold Flags.from_extended_word. by destruct (Flags.has _ _).
Qed.

Lemma read_entry_returns kind : r_returns (read_entry kind).
Proof.
  unfold read_entry, Time.from_stream. do 9 (apply r_bind_returns; [auto 6 with git|intros ?]).
  apply r_bind_returns; [apply read_flags_returns|intros ?]. apply r_bind_returns; [auto with git|intros ?].
  apply r_bind_returns; [apply r_lift_returns, utf8_string_returns|auto with git].
Qed.

Lemma entries_loop_returns n kind acc : r_returns (entries_loop n kind acc).
Proof.
  revert acc. induction n as [|n IH]; intros acc; cbn [entries_loop]; [auto with git|].
  apply r_bind_returns; [apply read_entry_returns|intros e]. apply r_bind_returns; [apply r_bytes_returns|auto].
Qed.

Lemma skip_extension_ok w : returns (skip_extension w) /\ forall u w', skip_extension w = Ok (u, w') -> bytes_read w + 4 <= bytes_read w'.
Proof.
  unfold skip_extension, r_bind, r_lift. pose proof (r_bytes_returns 4 w) as Hr. destruct (r_bytes 4 w) as [[sign w1]| | |] eqn:E1; try done.
  apply r_bytes_counts in E1 as [Hl Hc]. cbn [rbind]. pose proof (utf8_string_returns sign) as Hu. destruct (utf8_string sign); try done. cbn [rbind].
  destruct sign as [|x sign]; [done|]. destruct ((65 <=? x) && (x <=? 90)); [|done].
  pose proof (r_u32_returns w1) as Hr1. destruct (r_u32 w1) as [[size w2]| | |] eqn:E2; try done. cbn [rbind].
  pose proof (r_bytes_returns size w2) as Hr2. destruct (r_bytes size w2) as [[b w3]| | |] eqn:E3; try done. cbn. split; [done|].
  intros u w' [= _ <-]. apply r_bytes_counts in E3 as [Hb3 Hc3]. pose proof (blen_nonneg b).
  unfold r_u32, r_bind in E2. apply bind_Ok_inv in E2 as ((b4 & w4) & E4 & [= _ <-]). apply r_bytes_counts in E4 as [_ Hc4]. lia.
Qed.

Lemma extensions_loop_returns fuel kind total w :
  total - bytes_read w <= Z.of_nat fuel -> returns (extensions_loop (S fuel) kind total w).
Proof.
  revert w. induction fuel as [|fuel IH]; intros w Hf; cbn [extensions_loop]; unfold r_bind, r_bytes_read; cbn [rbind];
    (destruct (bytes_read w + HashKind.size kind <? total) eqn:E; [|done]).
  - assert (0 < HashKind.size kind) by (destruct kind; cbn; lia). lia.
  - destruct (skip_extension_ok w) as [Hr Hc]. destruct (skip_extension w) as [[u w1]| | |]; try done. cbn [rbind].
    specialize (Hc u w1 eq_refl). change (returns (extensions_loop (S fuel) kind total w1)). apply IH. lia.
Qed.

Lemma check_sum_returns kind w : is_Some (w_hash w) -> returns (check_sum kind w).
Proof.
  intros [h Hh]. unfold check_sum, r_bind, r_final_hash, Wrapper_final_hash. rewrite Hh. cbn [or_panic rbind].
  pose proof (r_sha_returns kind w) as Hr. destruct (r_sha kind w) as [[s w1]| | |]; try done. cbn. by destruct (bool_decide _).
Qed.
Ltac grows :=
  repeat match goal with
  | |- r_grows (r_bind _ _) => apply r_bind_grows; [|intros ?]
  | |- r_grows (if ?b then _ else _) => destruct b
  | |- r_grows _ => solve [auto with git]
  end.

Lemma check_header_grows : r_grows check_header.
Proof. unfold check_header, r_u32. grows. Qed.

Lemma entries_loop_grows n kind acc : r_grows (entries_loop n kind acc).
Proof.
  revert acc. induction n as [|n IH]; intros acc; cbn [entries_loop]; [auto with git|].
  unfold read_entry, read_padding, read_flags, Time.from_stream, r_u32, r_u16. cbv zeta. grows; apply IH.
Qed.

Lemma extensions_loop_grows fuel kind total : r_grows (extensions_loop fuel kind total).
Proof.
  induction fuel as [|fuel IH]; [by intros w a w' E|]. cbn [extensions_loop]. apply r_bind_grows; [by intros w a w' [= _ <-]|]. intros n.
  destruct (n + HashKind.size kind <? total); [|auto with git]. apply r_bind_grows; [|done]. unfold skip_extension, r_u32.
  apply r_bind_grows; [auto with git|]. intros [|x sign]; grows. by intros ? ? ? ?.
Qed.

(** C25: reading an index file always comes to an end, whatever the file holds and however its
    reader behaves: the result is an index or an error, and the only panic is the assertion that as
    many entries are kept as the header announces. *)
Theorem index_reader_terminates (kind : HashKind.t) (path : Res IoError File) :
  returns path ->
  returns (from_file_with_hash_kind kind path)
  \/ exists f header out w1 w2, path = Ok f
       /\ check_header (Wrapper_new_with_kind (file_events f) kind) = Ok (header, w1)
       /\ entries_loop (Z.to_nat header.2) kind Index_new w1 = Ok (out, w2)
       /\ blen out <> header.2.
Proof.
  intros Hp. destruct path as [f|e| |]; [|by left|done..]. unfold from_file_with_hash_kind. cbn [map_err rbind]. unfold read_index, r_bind.
  set (w0 := Wrapper_new_with_kind (file_events f) kind). assert (Hw0 : is_Some (w_hash w0)) by (by eexists).
  pose proof (check_header_returns w0) as Hr1. destruct (check_header w0) as [[hd w1]| | |] eqn:E1; try (by left). cbn [rbind].
  pose proof (entries_loop_returns (Z.to_nat hd.2) kind Index_new w1) as Hr2.
  destruct (entries_loop (Z.to_nat hd.2) kind Index_new w1) as [[out w2]| | |] eqn:E2; try (by left). cbn [rbind].
  assert (Hle : wrapper_le w0 w2) by (etransitivity; [by eapply check_header_grows|by eapply entries_loop_grows]).
  destruct Hle as [Hh Hb]. change (bytes_read w0) with 0 in Hb.
  destruct (extensions_loop (S (Z.to_nat (file_len f))) kind (file_len f) w2) as [[u w3]| | |] eqn:E3.
  2:{ by left. }
  2,3: pose proof (extensions_loop_returns (Z.to_nat (file_len f)) kind (file_len f) w2 ltac:(lia)) as Hr3; by rewrite E3 in Hr3.
  cbn [rbind]. pose proof (extensions_loop_grows _ _ _ _ _ _ E3) as [Hh3 _]. pose proof (check_sum_returns kind w3 (Hh3 (Hh Hw0))) as Hr4.
  destruct (check_sum kind w3) as [[u4 w4]| | |]; try (by left). cbn [rbind]. unfold Index_size.
  destruct (blen out =? hd.2) eqn:En; [by left|]. right. exists f, hd, out, w1, w2. split; [done|]. split; [done|]. split; [done|]. lia.
Qed.

End termination.

(** * Concrete runs *)

Definition sample_id : ObjectHash.t := ObjectHash.Sha1 (repeat 7 20).
Definition sample_flags (stage len : Z) (skip : bool) : Flags.t := Flags.mk false false stage len skip false.
Definition sample_entry (name : bytes) (stage : Z) (skip : bool) : IndexEntry.t :=
  IndexEntry.mk (Time.mk 5 6) (Time.mk 7 8) 1 2 0x81A4 3 4 9 sample_id (sample_flags stage (blen name) skip) name.
Definition sample_index : Index :=
  Index_add (Index_add Index_new (sample_entry (str "src/b") 2 true)) (sample_entry (str "a") 0 false).

Lemma sample_entry_wf name stage skip :
  0 <= stage < 4 -> blen name < 4096 -> utf8_valid name = true -> entry_wf HashKind.Sha1 (sample_entry name stage skip).
Proof.
  intros Hs Hl Hu. pose proof (blen_nonneg name). split; cbn; unfold time_wf, u32, flags_wf; cbn; try done; try lia; [split; lia..|split; [done|]].
  repeat constructor; unfold is_byte; lia.
Qed.

Lemma sample_index_wf : index_wf HashKind.Sha1 sample_index.
Proof.
  unfold sample_index. split.
  - apply bt_insert_sorted, bt_insert_sorted. constructor.
  - apply bt_insert_above; [done|]. apply bt_insert_above; [done|constructor].
  - apply bt_insert_above; [apply sample_entry_wf; done|]. apply bt_insert_above; [apply sample_entry_wf; done|constructor].
  - done.
Qed.

Section runs.
#[local] Existing Instance toy_hasher.
#[local] Existing Instance toy_hasher_laws.
#[local] Existing Instance plain_texts.

Lemma index_roundtrip_witness : exists content,
  (forall room, blen content <= room -> to_file_with_hash_kind HashKind.Sha1 sample_index (mkDest (Ok tt) room) = (Ok tt, Some content))
  /\ forall evs, Forall calm evs -> stream_data evs = content ->
     from_file_with_hash_kind HashKind.Sha1 (Ok (mkFile (blen content) evs)) = Ok (norm_index sample_index).
Proof. apply (index_roundtrip HashKind.Sha1 sample_index), sample_index_wf. Defined.

(** The file of [sample_index], after which an optional extension is skipped. *)
Definition sample_body : bytes :=
  match entries_bytes HashKind.Sha1 sample_index with Ok d => index_header sample_index ++ d | _ => [] end
  ++ str "TREE" ++ be32 3 ++ [1; 2; 3].
Definition sample_file : bytes :=
  sample_body ++ ObjectHash.as_ref (ObjectHash_new_for_kind HashKind.Sha1 sample_body).
Definition sample_events : list ReadEvent := [Chunk (take 9 sample_file); Interrupted; Chunk (drop 9 sample_file)].

Lemma index_rewrite_stable_witness : index_wf HashKind.Sha1 (norm_index sample_index)
  /\ exists content,
       (forall room, blen content <= room -> to_file_with_hash_kind HashKind.Sha1 (norm_index sample_index) (mkDest (Ok tt) room) = (Ok tt, Some content))
       /\ forall evs, Forall calm evs -> stream_data evs = content ->
          from_file_with_hash_kind HashKind.Sha1 (Ok (mkFile (blen content) evs)) = Ok (norm_index sample_index).
Proof.
  apply (index_rewrite_stable HashKind.Sha1 (mkFile (blen sample_file) sample_events)).
  - repeat apply Forall_cons_2; vm_compute; (done || constructor).
  - vm_compute. repeat (apply Forall_cons_2; [vm_compute; split; [discriminate|reflexivity]|]). apply Forall_nil_2.
  - vm_compute. reflexivity.
Defined.

Lemma cross_kind_write_untouched_witness : exists e,
  to_file_with_hash_kind HashKind.Sha256 sample_index (mkDest (Ok tt) 1000) = (Err e, None).
Proof. apply (cross_kind_write_untouched HashKind.Sha256 sample_index (mkDest (Ok tt) 1000)). left. discriminate. Defined.

Lemma long_name_truncates_witness :
  let idx := [((repeat 97 4096, 0), sample_entry (repeat 97 4096) 0 false)] in
  (exists err, to_file_with_hash_kind HashKind.Sha1 idx (mkDest (Ok tt) 100) = (Err err, Some (index_header idx)))
  /\ forall evs n, Forall calm evs -> stream_data evs = index_header idx ->
     exists err, from_file_with_hash_kind HashKind.Sha1 (Ok (mkFile n evs)) = Err err.
Proof.
  apply (long_name_truncates HashKind.Sha1 (repeat 97 4096, 0) (sample_entry (repeat 97 4096) 0 false) [] 100);
    [vm_compute; reflexivity|apply Forall_cons_2; [reflexivity|apply Forall_nil_2]|vm_compute; reflexivity|lia].
Defined.

Lemma duplicate_entry_panics_witness :
  let e := sample_entry (str "a") 0 false in
  let idx := [(IndexEntry.key e, e); (IndexEntry.key e, e)] in
  exists d, entries_bytes HashKind.Sha1 idx = Ok d
    /\ forall evs, Forall calm evs -> stream_data evs = index_content HashKind.Sha1 idx d ->
       from_file_with_hash_kind HashKind.Sha1 (Ok (mkFile (blen (index_content HashKind.Sha1 idx d)) evs)) = Panic.
Proof. apply (duplicate_entry_panics HashKind.Sha1 (sample_entry (str "a") 0 false)). by apply sample_entry_wf. Defined.

Definition sample_tree : WorkTree :=
  mkWorkTree (fun _ => Ok (mkMetadata 50 60 70 80 5 1 2 3 4 0x81A4)) (fun _ => Ok (str "hello")).

Lemma refresh_updates_witness :
  exists changed idx' e', refresh_with_hash_kind HashKind.Sha1 sample_tree sample_index (str "a") (str "/w") = Ok (changed, idx')
    /\ Index_get idx' (str "a") 0 = Some e'
    /\ IndexEntry.size e' = as_u32 5
    /\ IndexEntry.hash e' = ObjectHash_new_for_kind HashKind.Sha1 (str "blob " ++ show_dec 5 ++ [0] ++ str "hello")
    /\ (5 = blen (str "hello") -> from_type_and_data_for_kind HashKind.Sha1 ObjectType.Blob (str "hello") = Ok (IndexEntry.hash e'))
    /\ is_modified (E := GitError) sample_tree idx' (str "a") 0 (str "/w") = Ok false
    /\ (forall name stage, (name, stage) <> (str "a", 0) -> Index_get idx' name stage = Index_get sample_index name stage)
    /\ (changed = false -> idx' = sample_index).
Proof.
  apply (refresh_updates HashKind.Sha1 sample_tree sample_index (str "a") (str "/w") (sample_entry (str "a") 0 false)
           (mkMetadata 50 60 70 80 5 1 2 3 4 0x81A4) (str "hello"));
    [apply sample_index_wf|reflexivity|vm_compute; reflexivity|reflexivity|reflexivity|reflexivity|discriminate|discriminate].
Defined.

Lemma index_reader_terminates_witness :
  let path := Ok (mkFile 20 [Chunk (str "DIRC"); Chunk [0; 0; 0; 2; 0; 0; 0; 0]; Failed UnexpectedEof]) in
  returns (from_file_with_hash_kind HashKind.Sha1 path)
  \/ exists f header out w1 w2, path = Ok f
       /\ check_header (Wrapper_new_with_kind (file_events f) HashKind.Sha1) = Ok (header, w1)
       /\ entries_loop (Z.to_nat header.2) HashKind.Sha1 Index_new w1 = Ok (out, w2)
       /\ blen out <> header.2.
Proof. by apply (index_reader_terminates HashKind.Sha1). Defined.

End runs.
