(* ===== verification/DeltaSearch.v ===== *)
(** The sliding-window search for delta bases, [src/internal/pack/encode/delta_search.rs]
    with the [diff_rabin] feature, which the default build has.

    The window is a list, oldest entry first; the rates are doubles. *)

From Stdlib Require Import ZArith Lia String Permutation.
From stdpp Require Import base tactics list numbers option gmap.
From S2P Require Import Prelude Float64 Stream Text Errors ObjectTypes DeltaUtils DeltaFormat DeltaDecode RabinTables RabinIndex RabinDelta DeltaEncode PackUtils Hash PackIndex EntrySort.

Definition MAX_CHAIN_LEN : Z := 50.

Record DeltaWindowEntry : Type := mkWindowEntry {
  we_entry : Entry;
  we_offset : Z;
  data_arc : option bytes;
  rabin_index : option RabinDeltaIndex
}.

Definition DeltaWindowEntry_new (entry : Entry) (offset : Z) : DeltaWindowEntry := mkWindowEntry entry offset None None.

Definition MIN_DELTA_RATE : f64 := f64_half.

Section search.
Context `{Build} `{AHash} `{Crc32}.
Context (little_endian : bool) (compress : bytes -> bytes) (diff : bytes -> bytes -> list Callback)
  (zstd_diff : bytes -> bytes -> Res bytes bytes).
Context (window_size : Z) (enable_zstdelta enable_rabin disable_prefilter : bool).

(** The filter of [pre_filtered_idxs]. *)
Definition is_candidate (entry : Entry) (try_base : DeltaWindowEntry) : bool :=
  let base := we_entry try_base in
  let src_size := blen (entry_data base) in
  let trg_size := blen (entry_data entry) in
  bool_decide (entry_type base = entry_type entry)
  && (chain_len base <? MAX_CHAIN_LEN)
  && negb (bool_decide (entry_hash base = entry_hash entry))
  && (src_size / 32 <=? trg_size)
  && (Z.max 0 (src_size - Z.min trg_size src_size) <? trg_size / 2)
  && (disable_prefilter || multi_point_similar (entry_data base) (entry_data entry)).

(** Indices of the candidates, newest first. *)
Definition pre_filtered_idxs (entry : Entry) (window : list DeltaWindowEntry) : list nat :=
  reverse (filter (fun i => from_option (is_candidate entry) false (window !! i)) (seq 0 (length window))).

(** Builds the index of [window[idx]] if it has none; [None] when it cannot have one. *)
Definition ensure_index (window : list DeltaWindowEntry) (idx : nat)
  : Res Empty_set (list DeltaWindowEntry * option RabinDeltaIndex) :=
  let! w := or_panic (window !! idx) in
  match rabin_index w with
  | Some index => Ok (window, Some index)
  | None =>
      let arc := match data_arc w with Some arc => arc | None => entry_data (we_entry w) end in
      let! new_index := create_delta_index_arc arc in
      let w := mkWindowEntry (we_entry w) (we_offset w) (Some arc) new_index in
      Ok (<[idx := w]> window, new_index)
  end.

Fixpoint score_loop (entry : Entry) (idxs : list nat) (window : list DeltaWindowEntry) (best_delta_size : Z)
  (best_rate : f64) (best_idx : option nat)
  : Res Empty_set (list DeltaWindowEntry * f64 * option nat) :=
  match idxs with
  | [] => Ok (window, best_rate, best_idx)
  | idx :: idxs =>
      let! '(window, index) := ensure_index window idx in
      match index with
      | None => score_loop entry idxs window best_delta_size best_rate best_idx
      | Some index =>
          let! delta := encode_rabin_with_index_and_max_size little_endian index (entry_data entry) best_delta_size in
          match delta with
          | Some delta_data =>
              let delta_size := blen delta_data in
              if delta_size <? best_delta_size
              then score_loop entry idxs window delta_size (f64_sub f64_one (ratio delta_size (blen (entry_data entry)))) (Some idx)
              else score_loop entry idxs window best_delta_size best_rate best_idx
          | None => score_loop entry idxs window best_delta_size best_rate best_idx
          end
      end
  end.

(** The window with the indexes built on the way, and the best base. *)
Definition find_base (entry : Entry) (window : list DeltaWindowEntry)
  : Res Empty_set (list DeltaWindowEntry * option DeltaWindowEntry) :=
  let trg_size := blen (entry_data entry) in
  let idxs := pre_filtered_idxs entry window in
  let max_delta_size := Z.max 0 (trg_size - (trg_size / 2 + 20)) in
  let! '(window, best_rate, best_idx) := score_loop entry idxs window max_delta_size f64_zero None in
  let! best_base :=
    match best_idx with
    | Some i => let! w := or_panic (window !! i) in Ok (Some w)
    | None => Ok None
    end in
  Ok (window, if f64_ltb best_rate MIN_DELTA_RATE then None else best_base).

(** The payload of a target with this base; [unwrap] panics when zstd fails. *)
Definition delta_payload (best_base : DeltaWindowEntry) (entry : Entry) : Res Empty_set (ObjectType.t * bytes) :=
  if enable_zstdelta then
    let! delta := unwrap (zstd_diff (entry_data (we_entry best_base)) (entry_data entry)) in
    Ok (ObjectType.OffsetZstdelta, delta)
  else if enable_rabin then
    let! index := or_panic (rabin_index best_base) in
    let! delta := encode_rabin_with_index little_endian index (entry_data entry) in
    Ok (ObjectType.OffsetDelta, delta)
  else
    let! delta := encode diff (entry_data (we_entry best_base)) (entry_data entry) in
    Ok (ObjectType.OffsetDelta, delta).

(** The entry to write, and the backwards distance to its base. *)
Definition delta_entry (best_base : option DeltaWindowEntry) (entry : Entry) (current_offset : Z)
  : Res Empty_set (Entry * option Z) :=
  match best_base with
  | None => Ok (entry, None)
  | Some b =>
      let! '(t, delta) := delta_payload b entry in
      Ok (mkEntry t delta (entry_hash entry) (chain_len (we_entry b) + 1), Some (current_offset - we_offset b))
  end.

Definition slide (window : list DeltaWindowEntry) (w : DeltaWindowEntry) : list DeltaWindowEntry :=
  let window := window ++ [w] in
  if window_size <? blen window then drop 1 window else window.

Fixpoint search_loop (bucket : list Entry) (current_offset : Z) (window : list DeltaWindowEntry)
  : Res GitError (list (bytes * PackIndex.IndexEntry)) :=
  match bucket with
  | [] => Ok []
  | entry :: bucket =>
      let! '(window, best_base) := unwrap (find_base entry window) in
      let! '(out, offset) := unwrap (delta_entry best_base entry current_offset) in
      let entry_for_window := mkEntry (entry_type entry) (entry_data entry) (entry_hash entry) (chain_len out) in
      let! obj_data := encode_one_object compress (entry_type out) (entry_data out) offset in
      let window := slide window (DeltaWindowEntry_new entry_for_window current_offset) in
      let! res := search_loop bucket (current_offset + blen obj_data) window in
      Ok ((obj_data, IndexEntry_new out 0) :: res)
  end.

Definition try_as_offset_delta (bucket : list Entry) : Res GitError (list (bytes * PackIndex.IndexEntry)) :=
  search_loop bucket 0 [].

End search.

(** * What the search writes *)

(** A size limit only makes the generator give up. *)
Lemma gen_loop_unlimited little_endian fuel idx target max_size st st' :
  gen_loop little_endian fuel idx target (Some max_size) st = Ok (Some st') ->
  gen_loop little_endian fuel idx target None st = Ok (Some st').
Proof.
  revert st. induction fuel as [|fuel IH]; intros st; [discriminate|]. cbn [gen_loop].
  destruct (data_pos st <? blen target); [|done]. destruct (gen_step little_endian idx target st) as [st1|[]| |]; try done.
  cbn [rbind]. destruct (exceeds (Some max_size) (blen (out st1))); [discriminate|]. cbn [exceeds]. apply IH.
Qed.

Lemma create_delta_unlimited little_endian idx target max_size delta :
  create_delta_inner little_endian idx target (Some max_size) = Ok (Some delta) ->
  create_delta_inner little_endian idx target None = Ok (Some delta).
Proof.
  unfold create_delta_inner. destruct (blen target =? 0); [done|].
  destruct (gen_init idx target) as [st|[]| |]; try done. cbn [rbind].
  destruct (gen_loop little_endian (S (length target)) idx target (Some max_size) st) as [[st'|]|[]| |] eqn:E; try done.
  rewrite (gen_loop_unlimited _ _ _ _ _ _ _ E). cbn [rbind].
  destruct (if 0 <? inscnt st' then _ else _) as [o|[]| |]; try done. cbn [rbind].
  destruct (exceeds (Some max_size) (blen o)); [discriminate|]. cbn [exceeds]. done.
Qed.

(** An object already written: where, what, and how many deltas it takes to rebuild it. *)
Record Placed : Type := mkPlaced { pl_offset : Z; pl_type : ObjectType.t; pl_data : bytes; pl_depth : Z }.

(** The encodings [encs] of [entries] from [offset] on, after the objects [prior]: each is
    a whole object, or a delta whose size [fits] that of its object, against an earlier object
    of the same type which takes fewer than [MAX_CHAIN_LEN] deltas itself. *)
Inductive written_by `{Allocator} (fits : Z -> Z -> Prop) (compress : bytes -> bytes) : list Placed -> Z -> list Entry -> list bytes -> Prop :=
| written_nil prior offset : written_by fits compress prior offset [] []
| written_whole prior offset e enc entries encs :
    encode_one_object compress (entry_type e) (entry_data e) None = Ok enc ->
    written_by fits compress (mkPlaced offset (entry_type e) (entry_data e) 0 :: prior) (offset + blen enc) entries encs ->
    written_by fits compress prior offset (e :: entries) (enc :: encs)
| written_delta prior offset e b delta enc entries encs :
    b ∈ prior -> pl_type b = entry_type e -> 0 <= pl_depth b < MAX_CHAIN_LEN -> pl_offset b < offset ->
    fits (blen delta) (blen (entry_data e)) -> delta_decode delta (pl_data b) = Ok (entry_data e) ->
    encode_one_object compress ObjectType.OffsetDelta delta (Some (offset - pl_offset b)) = Ok enc ->
    written_by fits compress (mkPlaced offset (entry_type e) (entry_data e) (pl_depth b + 1) :: prior) (offset + blen enc) entries encs ->
    written_by fits compress prior offset (e :: entries) (enc :: encs).

(** The deltas take less than half the size of their objects. *)
Abbreviation written := (written_by (fun delta_size size => 2 * delta_size < size)).

(** An entry the encoder can pack: a base object of the type, whose size the index can hold. *)
Definition entry_packable (e : Entry) : Prop :=
  ObjectType.is_base (entry_type e) = true /\ byte_list (entry_data e) /\ blen (entry_data e) < 2 ^ 32 /\ 0 <= chain_len e.

(** ** The window *)

Record window_ok (prior : list Placed) (offset : Z) (w : DeltaWindowEntry) : Prop := {
  wo_packable : entry_packable (we_entry w);
  wo_arc arc : data_arc w = Some arc -> arc = entry_data (we_entry w);
  wo_index idx : rabin_index w = Some idx -> source idx = entry_data (we_entry w) /\ wf_index idx;
  wo_placed : exists b, b ∈ prior /\ pl_offset b = we_offset w /\ 0 <= pl_offset b < offset /\ pl_type b = entry_type (we_entry w)
    /\ pl_data b = entry_data (we_entry w) /\ 0 <= pl_depth b <= chain_len (we_entry w)
}.

Lemma window_ok_later prior offset w p offset' :
  window_ok prior offset w -> offset <= offset' -> window_ok (p :: prior) offset' w.
Proof.
  intros [Hp Ha Hi (b & Hb & Ho & Hlt & Hr)] Hle. split; try done. exists b. split; [by right|]. split; [done|]. split; [lia|done].
Qed.

Section search_proofs.
Context `{Build} `{AHash} `{Crc32}.
Context (little_endian : bool) (disable_prefilter : bool).
Context (prior : list Placed) (offset : Z).
Abbreviation window_ok := (window_ok prior offset).

(** What is known of the best base so far. *)
Definition best_ok (e : Entry) (window : list DeltaWindowEntry) (limit : Z) (best_rate : f64) (best_idx : option nat)
  (size : Z) : Prop :=
  match best_idx with
  | None => best_rate = f64_zero /\ size <= limit
  | Some i => exists w idx delta, window !! i = Some w /\ is_candidate disable_prefilter e w = true /\ rabin_index w = Some idx
      /\ create_delta_inner little_endian idx (entry_data e) None = Ok (Some delta)
      /\ blen delta = size /\ size < limit /\ best_rate = f64_sub f64_one (ratio size (blen (entry_data e)))
  end.

Lemma ensure_index_ok window idx w :
  Forall window_ok window -> window !! idx = Some w ->
  exists w' index, ensure_index window idx = Ok (<[idx := w']> window, index) /\ rabin_index w' = index
    /\ we_entry w' = we_entry w /\ window_ok w' /\ (rabin_index w <> None -> w' = w).
Proof.
  intros Hw Hl. assert (Hok : window_ok w) by (rewrite Forall_lookup in Hw; by eapply Hw).
  unfold ensure_index. rewrite Hl. cbn [or_panic rbind]. destruct (rabin_index w) as [i|] eqn:Ei.
  - exists w, (Some i). by rewrite list_insert_id.
  - assert (Harc : match data_arc w with Some arc => arc | None => entry_data (we_entry w) end = entry_data (we_entry w)).
    { destruct (data_arc w) as [arc|] eqn:Ea; [|done]. by apply (wo_arc _ _ _ Hok). }
    rewrite Harc. destruct (wo_packable _ _ _ Hok) as (_ & Hb & Hl2 & _).
    destruct Hok as [Hp Ha Hi Hpl].
    destruct (create_delta_index_arc_ok _ Hb Hl2) as [[_ ->]|(ix & -> & Hsrc & Hwf)]; cbn [rbind].
    all: eexists _, _; split; [done|]; split_and!; try done; split; try done; cbn; by intros ? [= <-].
Qed.

Lemma is_candidate_entry e w w' :
  we_entry w = we_entry w' -> is_candidate disable_prefilter e w = is_candidate disable_prefilter e w'.
Proof. intros E. unfold is_candidate. by rewrite E. Qed.

Lemma best_ok_insert e window limit rate best size idx w w' :
  window !! idx = Some w -> we_entry w' = we_entry w -> (rabin_index w <> None -> w' = w) ->
  best_ok e window limit rate best size -> best_ok e (<[idx := w']> window) limit rate best size.
Proof.
  intros Hl He Hi. destruct best as [i|]; cbn [best_ok]; [|done].
  intros (v & ix & delta & Hv & Hc & Hx & Hrest). exists v, ix, delta. split; [|done].
  destruct (decide (i = idx)) as [->|Hne]; [|by rewrite list_lookup_insert_ne].
  assert (v = w) as -> by congruence. rewrite Hi by congruence. apply list_lookup_insert_eq. by eapply lookup_lt_Some.
Qed.

Lemma score_loop_ok e idxs window size rate best limit :
  byte_list (entry_data e) -> 0 < blen (entry_data e) -> Forall window_ok window ->
  Forall (fun i => exists w, window !! i = Some w /\ is_candidate disable_prefilter e w = true) idxs ->
  best_ok e window limit rate best size -> size <= limit ->
  exists window' rate' best' size', score_loop little_endian e idxs window size rate best = Ok (window', rate', best')
    /\ Forall window_ok window' /\ best_ok e window' limit rate' best' size' /\ length window' = length window.
Proof.
  intros He Hpos. revert window size rate best. induction idxs as [|idx idxs IH]; intros window size rate best Hw Hidx Hbest Hlim.
  { exists window, rate, best, size. done. }
  apply Forall_cons_1 in Hidx as [(w & Hl & Hc) Hidx]. cbn [score_loop].
  destruct (ensure_index_ok window idx w Hw Hl) as (w' & index & -> & Hix & Hew & Hok' & Hsame). cbn [rbind].
  pose proof (lookup_lt_Some _ _ _ Hl) as Hlt.
  assert (Hw' : Forall window_ok (<[idx := w']> window)) by (by apply Forall_insert).
  assert (Hidx' : Forall (fun i => exists v, <[idx := w']> window !! i = Some v /\ is_candidate disable_prefilter e v = true) idxs).
  { eapply Forall_impl; [exact Hidx|]. cbn. intros i (v & Hv & Hcv). destruct (decide (i = idx)) as [->|Hne].
    - exists w'. split; [by apply list_lookup_insert_eq|]. assert (v = w) as -> by congruence. by rewrite (is_candidate_entry e w' w).
    - exists v. by rewrite list_lookup_insert_ne. }
  pose proof (best_ok_insert e window limit rate best size idx w w' Hl Hew Hsame Hbest) as Hbest'.
  assert (Hlen : length (<[idx := w']> window) = length window) by apply length_insert.
  rewrite <- Hlen. destruct index as [index|]; [|by apply IH].
  destruct (wo_index _ _ _ Hok' _ Hix) as [Hsrc Hwf]. destruct (wo_packable _ _ _ Hok') as (_ & Hb & Hl2 & _).
  unfold encode_rabin_with_index_and_max_size, create_delta. replace (blen (entry_data e) =? 0) with false by lia.
  destruct (create_delta_inner_ok little_endian index (entry_data e) (Some size) Hwf) as (r & Hr & _); [by rewrite Hsrc|done|].
  rewrite Hr. cbn [rbind]. destruct r as [delta|]; [|by apply IH]. destruct (blen delta <? size) eqn:E; [|by apply IH].
  apply IH; try done; [|lia]. exists w', index, delta. split; [by apply list_lookup_insert_eq|].
  split; [by rewrite (is_candidate_entry e w' w)|]. split; [done|]. split; [by eapply create_delta_unlimited|]. repeat split; lia || done.
Qed.

Lemma pre_filtered_candidates e window :
  Forall (fun i => exists w, window !! i = Some w /\ is_candidate disable_prefilter e w = true)
    (pre_filtered_idxs disable_prefilter e window).
Proof.
  apply Forall_forall. intros i Hi. unfold pre_filtered_idxs in Hi. rewrite elem_of_reverse, list_elem_of_filter in Hi.
  destruct Hi as [Hc _]. destruct (window !! i) as [w|]; [|done]. exists w. split; [done|]. cbn in Hc. by apply Is_true_true in Hc.
Qed.

(** A candidate is smaller than twice a target that is not empty. *)
Lemma is_candidate_spec e w :
  is_candidate disable_prefilter e w = true ->
  entry_type (we_entry w) = entry_type e /\ chain_len (we_entry w) < MAX_CHAIN_LEN /\ 0 < blen (entry_data e).
Proof.
  unfold is_candidate. rewrite !andb_true_iff. intros (((((Ht & Hc) & _) & _) & Hs) & _).
  apply bool_decide_eq_true in Ht. split; [done|]. split; [lia|]. pose proof (blen_nonneg (entry_data e)).
  destruct (Z.eq_dec (blen (entry_data e)) 0) as [E|]; [|lia]. rewrite E in Hs. change (0 / 2) with 0 in Hs. lia.
Qed.

Lemma find_base_ok e window :
  byte_list (entry_data e) -> blen (entry_data e) < 2 ^ 53 -> Forall window_ok window ->
  exists window' base, find_base little_endian disable_prefilter e window = Ok (window', base)
    /\ Forall window_ok window' /\ length window' = length window
    /\ match base with
       | None => True
       | Some w => w ∈ window' /\ is_candidate disable_prefilter e w = true
           /\ exists idx delta, rabin_index w = Some idx
              /\ create_delta_inner little_endian idx (entry_data e) None = Ok (Some delta)
              /\ 2 * blen delta < blen (entry_data e)
       end.
Proof.
  intros He Hmax Hw. unfold find_base. pose proof (pre_filtered_candidates e window) as Hidx.
  set (n := blen (entry_data e)). set (limit := Z.max 0 (n - (n / 2 + 20))).
  pose proof (Z.div_mod n 2 ltac:(lia)) as Hdm. pose proof (Z.mod_pos_bound n 2 ltac:(lia)) as Hm.
  assert (Hex : exists window' rate best size,
    score_loop little_endian e (pre_filtered_idxs disable_prefilter e window) window limit f64_zero None = Ok (window', rate, best)
    /\ Forall window_ok window' /\ best_ok e window' limit rate best size /\ length window' = length window).
  { destruct (pre_filtered_idxs disable_prefilter e window) as [|i l] eqn:Ei; [by exists window, f64_zero, None, limit|].
    apply Forall_cons_1 in Hidx as Hidx'. destruct Hidx' as [(w & _ & Hc) _]. apply is_candidate_spec in Hc as (_ & _ & Hpos).
    apply score_loop_ok; try done. }
  destruct Hex as (window' & rate & best & size & -> & Hw' & Hb & Hlen). cbn [rbind].
  destruct best as [i|]; cbn [best_ok] in Hb.
  - destruct Hb as (w & idx & delta & Hl & Hc & Hi & Hd & Hsz & Hlim & ->). rewrite Hl. cbn [or_panic rbind].
    exists window', (Some w). fold n. apply is_candidate_spec in Hc as Hc'. fold n in Hc'.
    assert (Hsz0 := blen_nonneg delta). unfold MIN_DELTA_RATE. rewrite savings_at_least_half by lia. split; [done|]. split; [done|]. split; [done|].
    split; [by apply list_elem_of_lookup_2 in Hl|]. split; [done|]. exists idx, delta. split_and!; try done. lia.
  - destruct Hb as [-> _]. by exists window', None.
Qed.

End search_proofs.

(** ** Sizes *)

Lemma header_size_loop_size fuel size hd hd' :
  header_size_loop fuel size hd = Ok hd' -> blen hd <= blen hd' <= blen hd + Z.of_nat fuel.
Proof.
  revert size hd. induction fuel as [|fuel IH]; intros size hd; [discriminate|]. cbn [header_size_loop].
  destruct (0 <? size); [|intros [= <-]; lia]. destruct (0 <? Z.shiftr size 7).
  - intros Hl. apply IH in Hl. blens.
  - intros [= <-]. blens.
Qed.

Lemma encode_offset_loop_size fuel v hd hd' : encode_offset_loop fuel v hd = Ok hd' -> blen hd' <= blen hd + Z.of_nat fuel.
Proof.
  revert v hd. induction fuel as [|fuel IH]; intros v hd; [discriminate|]. cbn [encode_offset_loop].
  destruct (negb _); [|intros [= <-]; lia]. intros Hl. apply IH in Hl. blens.
Qed.

Lemma encode_offset_size v bs : encode_offset v = Ok bs -> blen bs <= 12.
Proof.
  unfold encode_offset. destruct (v =? 0); [discriminate|]. intros Hx.
  destruct (encode_offset_loop 11 (Z.shiftr v 7) _) as [o|[]| |] eqn:E; try discriminate. injection Hx as <-.
  apply encode_offset_loop_size in E. unfold blen in *. rewrite length_reverse. cbn in E. lia.
Qed.

(** The size of an encoded entry: the payload, and at most 24 bytes. *)
Lemma encode_one_object_size compress t d off enc :
  packable t off -> encode_one_object compress t d off = Ok enc -> 0 < blen enc <= blen (compress d) + 24.
Proof.
  intros Hp. destruct (encode_one_object_packable compress t d off Hp) as (n & _ & _ & ->). intros Hx.
  unfold encode_entry_header in Hx. set (hd := [_]) in Hx. assert (Hhd : blen hd = 1) by done.
  destruct (if 0 <? _ then _ else _) as [h|[]| |] eqn:Eh; try discriminate. cbn [unwrap rbind] in Hx.
  assert (Hh : 1 <= blen h <= 11).
  { destruct (0 <? _); [apply header_size_loop_size in Eh; lia|]. injection Eh as <-. blens. }
  assert (Ho : forall o, match t with
      | ObjectType.OffsetDelta | ObjectType.OffsetZstdelta => let! v := or_panic off in unwrap (encode_offset v)
      | _ => Ok [] end = Ok o :> Res GitError bytes -> blen o <= 12).
  { intros o Ho. assert (Hd : forall v, (unwrap (encode_offset v) = Ok o :> Res GitError bytes) -> blen o <= 12).
    { intros v Hv. destruct (encode_offset v) as [o'|[]| |] eqn:E; try discriminate. injection Hv as <-. by eapply encode_offset_size. }
    clear Hx. destruct t; try (injection Ho as <-; rewrite blen_nil; lia); (destruct off as [v|]; [|discriminate Ho]); exact (Hd v Ho). }
  destruct (match t with ObjectType.OffsetDelta | ObjectType.OffsetZstdelta => _ | _ => _ end) as [o| | |]; try discriminate.
  specialize (Ho o eq_refl). injection Hx as <-. rewrite !blen_app. pose proof (blen_nonneg o). pose proof (blen_nonneg (compress d)). lia.
Qed.

Lemma encode_one_object_ok compress t d off :
  packable t off -> blen d <= usize_max -> exists enc, encode_one_object compress t d off = Ok enc.
Proof. intros Hp Hd. destruct (@entry_reads true compress t d off Hp Hd) as (enc & _ & He & _). by exists enc. Qed.

(** The compressor at most doubles its input and adds 64 bytes. *)
Definition compress_bounded (compress : bytes -> bytes) : Prop := forall d, blen (compress d) <= 2 * blen d + 64.

(** What the entries take at most. *)
Definition room (entries : list Entry) : Z := foldr (fun e n => 2 * blen (entry_data e) + 88 + n) 0 entries.

Lemma room_nonneg entries : 0 <= room entries.
Proof. unfold room. induction entries as [|e l IH]; cbn [foldr]; [lia|]. pose proof (blen_nonneg (entry_data e)). lia. Qed.

Section search_theorems.
Context `{Build} `{AHash} `{Crc32} `{Allocator}.
Context (little_endian : bool) (compress : bytes -> bytes) (diff : bytes -> bytes -> list Callback)
  (zstd_diff : bytes -> bytes -> Res bytes bytes) (window_size : Z) (disable_prefilter : bool).
Context (Hcompress : compress_bounded compress).

Lemma slide_ok prior offset window w :
  Forall (window_ok prior offset) window -> window_ok prior offset w -> Forall (window_ok prior offset) (slide window_size window w).
Proof.
  intros Hw Hx. unfold slide. assert (Ha : Forall (window_ok prior offset) (window ++ [w])) by (apply Forall_app; split; [done|]; apply Forall_cons_2; [done|by apply Forall_nil_2]).
  destruct (_ <? _); [by apply Forall_drop|done].
Qed.

Lemma base_packable t : ObjectType.is_base t = true -> packable t None.
Proof. by destruct t. Qed.

Lemma search_loop_written bucket prior offset window :
  0 <= offset -> offset + room bucket <= usize_max -> Forall entry_packable bucket ->
  Forall (fun e => AllocatorServes (blen (entry_data e))) bucket -> Forall (window_ok prior offset) window ->
  exists res, search_loop little_endian compress diff zstd_diff window_size false true disable_prefilter bucket offset window = Ok res
    /\ written compress prior offset bucket res.*1 /\ map ie_hash res.*2 = map entry_hash bucket.
Proof.
  revert prior offset window. induction bucket as [|e bucket IH]; intros prior offset window Hoff Hroom Hp Ha Hw.
  { exists []. split; [done|]. split; [constructor|done]. }
  apply Forall_cons_1 in Hp as [(Ht & Hb & Hl & Hcl) Hp], Ha as [Has Ha]. cbn [search_loop]. unfold room in Hroom. cbn [foldr] in Hroom. fold (room bucket) in Hroom.
  pose proof (room_nonneg bucket) as Hrn. pose proof (blen_nonneg (entry_data e)) as Hen.
  destruct (find_base_ok little_endian disable_prefilter prior offset e window Hb ltac:(lia) Hw) as (window' & base & -> & Hw' & _ & Hbase).
  cbn [unwrap rbind].
  (* one entry is written, then the loop goes on *)
  assert (Hstep : forall t d off chain depth, packable t off -> 2 * blen d <= 2 * blen (entry_data e) -> 0 <= depth <= chain ->
    exists enc, encode_one_object compress t d off = Ok enc
    /\ let p := mkPlaced offset (entry_type e) (entry_data e) depth in
       let w := DeltaWindowEntry_new (mkEntry (entry_type e) (entry_data e) (entry_hash e) chain) offset in
       exists res, search_loop little_endian compress diff zstd_diff window_size false true disable_prefilter bucket
         (offset + blen enc) (slide window_size window' w) = Ok res
       /\ written compress (p :: prior) (offset + blen enc) bucket res.*1 /\ map ie_hash res.*2 = map entry_hash bucket).
  { intros t d off chain depth Hpk Hd Hch. destruct (encode_one_object_ok compress t d off Hpk) as [enc Henc].
    { unfold usize_max in *. lia. }
    exists enc. split; [done|]. pose proof (encode_one_object_size _ _ _ _ _ Hpk Henc) as Hsz. specialize (Hcompress d).
    cbn zeta. apply IH; try done; try lia. apply slide_ok.
    - eapply Forall_impl; [exact Hw'|]. cbn. intros w Hok. apply (window_ok_later _ offset); [done|lia].
    - split; try done; [unfold entry_packable; cbn; split_and!; done || lia|]. eexists. split; [left|]. cbn. split_and!; done || lia. }
  destruct base as [w|]; cbn [delta_entry].
  - destruct Hbase as (Hin & Hc & idx & delta & Hi & Hd & Hsmall). unfold delta_payload, encode_rabin_with_index, create_delta.
    rewrite Hi. cbn [or_panic rbind]. rewrite Hd. cbn [or_panic rbind unwrap].
    rewrite Forall_forall in Hw'. specialize (Hw' w Hin). destruct Hw' as [(_ & Hwb & Hwl & _) _ Hix (b & Hbp & Hbo & Hblt & Hbt & Hbd & Hdep)].
    apply is_candidate_spec in Hc as (Hct & Hchain & Hpos). destruct (Hix _ Hi) as [Hsrc Hwf].
    destruct (create_delta_inner_ok little_endian idx (entry_data e) None Hwf) as (r & Hr & Hrd); [by rewrite Hsrc|done|].
    assert (r = Some delta) as -> by congruence. destruct Hrd as [Hfor _].
    assert (Hdec : delta_decode delta (pl_data b) = Ok (entry_data e)).
    { rewrite Hbd, <- Hsrc. apply delta_for_decodes; try done; rewrite ?Hsrc; unfold usize_max; lia. }
    destruct (Hstep ObjectType.OffsetDelta delta (Some (offset - we_offset w)) (chain_len (we_entry w) + 1) (pl_depth b + 1))
      as (enc & Henc & res & Hres & Hwr & Hh); [|lia|lia|].
    { cbn. lia. }
    cbn [entry_type entry_data chain_len]. rewrite Henc. cbn [rbind]. rewrite Hres. cbn [rbind].
    eexists. split; [done|]. split; [|cbn; by rewrite Hh]. cbn. eapply written_delta; try done; try lia; [congruence|by rewrite Hbo].
  - cbn [rbind unwrap]. destruct (Hstep (entry_type e) (entry_data e) None (chain_len e) 0)
      as (enc & Henc & res & Hres & Hwr & Hh); [by apply base_packable|lia|lia|].
    rewrite Henc. cbn [rbind]. rewrite Hres. cbn [rbind]. eexists. split; [done|]. split; [|cbn; by rewrite Hh].
    by eapply written_whole.
Qed.
End search_theorems.

(** C11: the delta search keeps its bounds: it succeeds on every bucket of packable entries and
    writes them in order, each whole or as a delta of less than half the size of the object,
    whose base is an earlier object of the same type at a positive distance, so that no
    object takes more than [MAX_CHAIN_LEN] deltas to rebuild; every delta decodes to its object. *)
Theorem delta_search_bounds `{Build} `{AHash} `{Crc32} `{Allocator} (little_endian : bool) (compress : bytes -> bytes)
  (diff : bytes -> bytes -> list Callback) (zstd_diff : bytes -> bytes -> Res bytes bytes) (window_size : Z)
  (disable_prefilter : bool) (bucket : list Entry) :
  compress_bounded compress -> Forall entry_packable bucket -> Forall (fun e => AllocatorServes (blen (entry_data e))) bucket ->
  room bucket <= usize_max ->
  exists res, try_as_offset_delta little_endian compress diff zstd_diff window_size false true disable_prefilter bucket = Ok res
    /\ written compress [] 0 bucket res.*1 /\ map ie_hash res.*2 = map entry_hash bucket.
Proof. intros Hc Hp Ha Hr. by apply search_loop_written. Qed.

Definition sample_rev (x : Z) : Entry :=
  mkEntry ObjectType.Blob (map Z.of_nat (seq 0 60) ++ [x]) (ObjectHash.Sha1 [x]) 0.

(** Two revisions of a file, the second one as a delta on the first. *)
Lemma delta_search_bounds_witness :
  let search := @try_as_offset_delta (fun _ => 0) (fun _ => 0) true (fun d => blen d :: d) (fun _ _ => []) (fun _ _ => Err []) 10 false true true in
  match search [sample_rev 200; sample_rev 201] with
  | Ok [(first, _); (second, _)] => blen first = 64 /\ blen second = 10
  | _ => False
  end
  /\ exists res, search [sample_rev 200; sample_rev 201] = Ok res
    /\ @written_by unlimited (fun delta_size size => 2 * delta_size < size) (fun d => blen d :: d) [] 0 [sample_rev 200; sample_rev 201] res.*1
    /\ map ie_hash res.*2 = map entry_hash [sample_rev 200; sample_rev 201].
Proof.
  split; [vm_compute; split; reflexivity|].
  apply (@delta_search_bounds true (fun _ => 0) (fun _ => 0) unlimited true (fun d => blen d :: d) (fun _ _ => []) (fun _ _ => Err []) 10 true).
  - intros d. blens.
  - repeat (apply Forall_cons_2; [split_and!; [reflexivity|repeat constructor; unfold is_byte; lia|reflexivity|cbn; lia]|]). constructor.
  - repeat (apply Forall_cons_2; [apply unlimited_serves|]). constructor.
  - vm_compute. discriminate.
Defined.
