(* ===== verification/SimilaritySearch.v ===== *)
(** The sliding-window search of a build without the [diff_rabin] feature,
    [src/internal/pack/encode/delta_search.rs]: candidates are compared by estimated
    similarity, and only the winner's delta is computed, with the edit-script encoder.

    The worker threads that rate the candidates return their results in the order of the
    window.  The diff algorithm is the parameter of [DeltaEncode]. *)

From Stdlib Require Import ZArith Lia String Permutation.
From stdpp Require Import base tactics list numbers option gmap.
From S2P Require Import Prelude Float64 Stream Text Errors ObjectTypes DeltaUtils DeltaFormat DeltaDecode RabinTables RabinIndex RabinDelta DeltaRates DeltaEncode PackUtils Hash PackIndex EntrySort DeltaSearch.

Record PlainWindowEntry : Type := mkPlainEntry { pw_entry : Entry; pw_offset : Z }.

Definition PlainWindowEntry_new (entry : Entry) (offset : Z) : PlainWindowEntry := mkPlainEntry entry offset.

(** The literal [0.15]. *)
Definition tie_epsilon : f64 := ratio 15 100.

Section search.
Context `{Build} `{AHash} `{Crc32}.
Context (compress : bytes -> bytes) (diff : bytes -> bytes -> list Callback) (zstd_diff : bytes -> bytes -> Res bytes bytes).
Context (window_size : Z) (enable_zstdelta disable_prefilter : bool).

(** The closure of [filter_map]. *)
Definition rate_candidate (entry : Entry) (try_base : PlainWindowEntry) : Res Empty_set (option (f64 * PlainWindowEntry)) :=
  let base := pw_entry try_base in
  if negb (bool_decide (entry_type base = entry_type entry)) || (MAX_CHAIN_LEN <=? chain_len base)
     || bool_decide (entry_hash base = entry_hash entry)
  then Ok None
  else
    let a := entry_data base in
    let b := entry_data entry in
    let sym_ratio := ratio (Z.min (blen a) (blen b)) (Z.max (blen a) (blen b)) in
    if f64_ltb sym_ratio f64_half || (negb disable_prefilter && negb (cheap_similar a b)) then Ok None
    else
      let! rate := if 64 <? (blen a + blen b) / 2 then heuristic_encode_rate_parallel a b else encode_rate diff a b in
      Ok (if f64_ltb DeltaSearch.MIN_DELTA_RATE rate then Some (rate, try_base) else None).

Fixpoint rate_candidates (entry : Entry) (window : list PlainWindowEntry) : Res Empty_set (list (f64 * PlainWindowEntry)) :=
  match window with
  | [] => Ok []
  | try_base :: window =>
      let! c := rate_candidate entry try_base in
      let! rest := rate_candidates entry window in
      Ok (match c with Some c => c :: rest | None => rest end)
  end.

Definition is_better (rate best_rate : f64) (try_base best_base : PlainWindowEntry) : bool :=
  if f64_ltb (f64_add best_rate tie_epsilon) rate then true
  else if f64_leb (f64_abs (f64_sub rate best_rate)) tie_epsilon
  then chain_len (pw_entry best_base) <? chain_len (pw_entry try_base)
  else false.

Fixpoint pick (candidates : list (f64 * PlainWindowEntry)) (best_rate : f64) (best_base : option PlainWindowEntry)
  : f64 * option PlainWindowEntry :=
  match candidates with
  | [] => (best_rate, best_base)
  | (rate, try_base) :: candidates =>
      match best_base with
      | None => pick candidates rate (Some try_base)
      | Some best_base_ref =>
          if is_better rate best_rate try_base best_base_ref then pick candidates rate (Some try_base)
          else pick candidates best_rate best_base
      end
  end.

Definition similar_base (entry : Entry) (window : list PlainWindowEntry) : Res Empty_set (option PlainWindowEntry) :=
  let! candidates := rate_candidates entry window in
  let '(best_rate, best_base) := pick candidates f64_zero None in
  Ok (if f64_ltb best_rate DeltaSearch.MIN_DELTA_RATE then None else best_base).

Definition plain_payload (best_base : PlainWindowEntry) (entry : Entry) : Res Empty_set (ObjectType.t * bytes) :=
  if enable_zstdelta then
    let! delta := unwrap (zstd_diff (entry_data (pw_entry best_base)) (entry_data entry)) in
    Ok (ObjectType.OffsetZstdelta, delta)
  else
    let! delta := encode diff (entry_data (pw_entry best_base)) (entry_data entry) in
    Ok (ObjectType.OffsetDelta, delta).

Definition plain_delta_entry (best_base : option PlainWindowEntry) (entry : Entry) (current_offset : Z)
  : Res Empty_set (Entry * option Z) :=
  match best_base with
  | None => Ok (entry, None)
  | Some b =>
      let! '(t, delta) := plain_payload b entry in
      Ok (mkEntry t delta (entry_hash entry) (chain_len (pw_entry b) + 1), Some (current_offset - pw_offset b))
  end.

Definition plain_slide (window : list PlainWindowEntry) (w : PlainWindowEntry) : list PlainWindowEntry :=
  let window := window ++ [w] in
  if window_size <? blen window then drop 1 window else window.

Fixpoint plain_loop (bucket : list Entry) (current_offset : Z) (window : list PlainWindowEntry)
  : Res GitError (list (bytes * PackIndex.IndexEntry)) :=
  match bucket with
  | [] => Ok []
  | entry :: bucket =>
      let! best_base := unwrap (similar_base entry window) in
      let! '(out, offset) := unwrap (plain_delta_entry best_base entry current_offset) in
      let entry_for_window := mkEntry (entry_type entry) (entry_data entry) (entry_hash entry) (chain_len out) in
      let! obj_data := encode_one_object compress (entry_type out) (entry_data out) offset in
      let window := plain_slide window (PlainWindowEntry_new entry_for_window current_offset) in
      let! res := plain_loop bucket (current_offset + blen obj_data) window in
      Ok ((obj_data, IndexEntry_new out 0) :: res)
  end.

Definition plain_try_as_offset_delta (bucket : list Entry) : Res GitError (list (bytes * PackIndex.IndexEntry)) :=
  plain_loop bucket 0 [].
End search.

(** * Sizes *)

Lemma length_write_varint_loop f v : (length (write_varint_loop f v) <= f)%nat.
Proof. revert v. induction f as [|f IH]; intros v; cbn; [done|]. specialize (IH (Z.shiftr v 7)). destruct (128 <=? v); cbn; lia. Qed.

Lemma length_field_bytes n v : (length (field_bytes n v) <= n)%nat.
Proof. revert v. induction n as [|n IH]; intros v; cbn; [done|]. specialize (IH (v / 256)). destruct (_ =? 0); cbn; lia. Qed.

(** A delta takes at most eight bytes for each byte of its target. *)
Lemma delta_for_size src target delta : delta_for src target delta -> blen delta <= 8 * blen target + 20.
Proof.
  intros (ops & -> & Hok & _ & <-). rewrite !blen_app.
  assert (Hv : forall v, blen (write_varint v) <= 10) by (intros v; unfold blen, write_varint; pose proof (length_write_varint_loop 10 v); lia).
  pose proof (Hv (blen src)). pose proof (Hv (blen (delta_out src ops))). enough (blen (delta_ops ops) <= 8 * blen (delta_out src ops)) by lia.
  clear -Hok. induction Hok as [|i ops Hi _ IH]; [done|]. unfold delta_ops, delta_out in *. cbn [map concat]. rewrite !blen_app.
  destruct i as [off size|lit]; cbn [ins_bytes ins_out ins_ok] in *.
  - rewrite blen_slice by lia. unfold copy_bytes. rewrite blen_cons, blen_app.
    pose proof (length_field_bytes 4 off). pose proof (length_field_bytes 3 size). unfold blen in *. lia.
  - rewrite blen_cons. lia.
Qed.

(** What the entries take at most. *)
Definition plain_room (entries : list Entry) : Z := foldr (fun e n => 16 * blen (entry_data e) + 128 + n) 0 entries.

Lemma plain_room_nonneg entries : 0 <= plain_room entries.
Proof. unfold plain_room. induction entries as [|e l IH]; cbn [foldr]; [lia|]. pose proof (blen_nonneg (entry_data e)). lia. Qed.

(** * What the search writes *)

(** Objects the edit-script encoder can take as a base: a copy has 24 bits for its size. *)
Definition plain_packable (e : Entry) : Prop := entry_packable e /\ blen (entry_data e) < 2 ^ 24.

Record plain_window_ok (prior : list Placed) (offset : Z) (w : PlainWindowEntry) : Prop := {
  po_packable : plain_packable (pw_entry w);
  po_placed : exists b, b ∈ prior /\ pl_offset b = pw_offset w /\ 0 <= pl_offset b < offset /\ pl_type b = entry_type (pw_entry w)
    /\ pl_data b = entry_data (pw_entry w) /\ 0 <= pl_depth b <= chain_len (pw_entry w)
}.

Lemma plain_window_ok_later prior offset w p offset' :
  plain_window_ok prior offset w -> offset <= offset' -> plain_window_ok (p :: prior) offset' w.
Proof.
  intros [Hp (b & Hb & Ho & Hlt & Hr)] Hle. split; [done|]. exists b. split; [by right|]. split; [done|]. split; [lia|done].
Qed.

Lemma parallel_returns old new : blen old < 2 ^ 53 -> exists rate, heuristic_encode_rate_parallel old new = Ok rate.
Proof.
  intros Hl. destruct old as [|x old], new as [|y new]; try by eexists.
  destruct (parallel_rate_screened (x :: old) (y :: new)) as (_ & -> & _); [done|done|lia|by eexists].
Qed.

Section proofs.
Context `{Build} `{AHash} `{Crc32} `{Allocator}.
Context (compress : bytes -> bytes) (diff : bytes -> bytes -> list Callback) (zstd_diff : bytes -> bytes -> Res bytes bytes).
Context (window_size : Z) (disable_prefilter : bool).
Context (Hcompress : compress_bounded compress) (Hdiff : forall old new, valid_script old new 0 (diff old new)).

(** A base that may be chosen: of the same type, with a short chain, at most twice as large or small. *)
Definition similar (e : Entry) (w : PlainWindowEntry) : Prop :=
  entry_type (pw_entry w) = entry_type e /\ chain_len (pw_entry w) < MAX_CHAIN_LEN /\ entry_hash (pw_entry w) <> entry_hash e
  /\ Z.max (blen (entry_data (pw_entry w))) (blen (entry_data e)) <= 2 * Z.min (blen (entry_data (pw_entry w))) (blen (entry_data e)).

Lemma rate_candidate_ok e w :
  blen (entry_data e) < 2 ^ 53 -> blen (entry_data (pw_entry w)) < 2 ^ 53 ->
  exists c, rate_candidate diff disable_prefilter e w = Ok c /\ forall r b, c = Some (r, b) -> b = w /\ similar e w.
Proof.
  intros He Hw. unfold rate_candidate. destruct (_ || _) eqn:E1; [by exists None|].
  destruct (f64_ltb _ f64_half || _) eqn:E2; [by exists None|]. set (a := entry_data (pw_entry w)) in *. set (b := entry_data e) in *.
  assert (Hr : exists rate, (if 64 <? (blen a + blen b) / 2 then heuristic_encode_rate_parallel a b else encode_rate diff a b) = Ok rate).
  { destruct (64 <? _); [by apply parallel_returns|]. unfold encode_rate. destruct (DeltaDiff_new_ok a b diff (Hdiff a b)) as (d & -> & _). by eexists. }
  destruct Hr as [rate ->]. cbn [rbind]. eexists. split; [done|]. intros r b' Hc. destruct (f64_ltb _ rate); [|done]. injection Hc as <- <-. split; [done|].
  apply orb_false_iff in E1 as [E1 E3], E2 as [E2 _]. apply orb_false_iff in E1 as [E1 E4].
  rewrite negb_false_iff, bool_decide_eq_true in E1. rewrite bool_decide_eq_false in E3. unfold similar. fold a b. split_and!; try done; try lia.
  pose proof (blen_nonneg a). pose proof (blen_nonneg b). destruct (Z.eq_dec (Z.max (blen a) (blen b)) 0) as [Hz|Hz]; [lia|].
  rewrite ratio_ltb_half in E2 by lia. lia.
Qed.

Lemma rate_candidates_ok e window :
  blen (entry_data e) < 2 ^ 53 -> Forall (fun w => blen (entry_data (pw_entry w)) < 2 ^ 53) window ->
  exists cs, rate_candidates diff disable_prefilter e window = Ok cs /\ Forall (fun c => c.2 ∈ window /\ similar e c.2) cs.
Proof.
  intros He. induction 1 as [|w window Hw _ IH]; [by exists []|]. cbn [rate_candidates].
  destruct (rate_candidate_ok e w He Hw) as (c & -> & Hc). destruct IH as (cs & -> & Hcs). cbn [rbind]. eexists. split; [done|].
  assert (Hcs' : Forall (fun c => c.2 ∈ w :: window /\ similar e c.2) cs).
  { eapply Forall_impl; [exact Hcs|]. cbn. intros x [Hx ?]. split; [by right|done]. }
  destruct c as [[r b]|]; [|done]. destruct (Hc r b eq_refl) as [-> Hs]. apply Forall_cons_2; [|done]. split; [left|done].
Qed.

(** The candidate picked is one of the candidates. *)
Lemma pick_ok cs rate best (P : PlainWindowEntry -> Prop) :
  Forall (fun c => P c.2) cs -> (forall b, best = Some b -> P b) -> forall b, (pick cs rate best).2 = Some b -> P b.
Proof.
  intros Hcs. revert rate best. induction Hcs as [|[r w] cs Hw _ IH]; intros rate best Hb b; cbn [pick]; [apply Hb|].
  destruct best as [b0|]; [destruct (is_better _ _ _ _)|]; apply IH; try done; by intros ? [= <-].
Qed.

Lemma similar_base_ok e window :
  blen (entry_data e) < 2 ^ 53 -> Forall (fun w => blen (entry_data (pw_entry w)) < 2 ^ 53) window ->
  exists base, similar_base diff disable_prefilter e window = Ok base /\ forall w, base = Some w -> w ∈ window /\ similar e w.
Proof.
  intros He Hw. unfold similar_base. destruct (rate_candidates_ok e window He Hw) as (cs & -> & Hcs). cbn [rbind].
  pose proof (pick_ok cs f64_zero None (fun w => w ∈ window /\ similar e w) Hcs ltac:(done)) as Hp. destruct (pick cs f64_zero None) as [rate best]. cbn [snd] in Hp.
  eexists. split; [done|]. intros w Hb. apply Hp. by destruct (f64_ltb rate _).
Qed.

Lemma plain_slide_ok prior offset window w :
  Forall (plain_window_ok prior offset) window -> plain_window_ok prior offset w ->
  Forall (plain_window_ok prior offset) (plain_slide window_size window w).
Proof.
  intros Hw Hx. unfold plain_slide. assert (Forall (plain_window_ok prior offset) (window ++ [w])) by (apply Forall_app; split; [done|]; by apply Forall_singleton).
  destruct (_ <? _); [by apply Forall_drop|done].
Qed.

(** The deltas of this search can be larger than their objects, within a constant factor. *)
Abbreviation plain_written := (written_by (fun delta_size size => delta_size <= 8 * size + 20) compress).

(** One entry is written, then the loop goes on. *)
Lemma plain_loop_written bucket prior offset window :
  0 <= offset -> offset + plain_room bucket <= usize_max -> Forall plain_packable bucket ->
  Forall (fun e => AllocatorServes (blen (entry_data e))) bucket -> Forall (plain_window_ok prior offset) window ->
  exists res, plain_loop compress diff zstd_diff window_size false disable_prefilter bucket offset window = Ok res
    /\ plain_written prior offset bucket res.*1 /\ map ie_hash res.*2 = map entry_hash bucket.
Proof.
  revert prior offset window. induction bucket as [|e bucket IH]; intros prior offset window Hoff Hroom Hp Ha Hw.
  { exists []. split; [done|]. split; [constructor|done]. }
  apply Forall_cons_1 in Hp as [[(Ht & Hb & Hl & Hcl) Hl24] Hp], Ha as [Has Ha]. cbn [plain_loop].
  unfold plain_room in Hroom. cbn [foldr] in Hroom. fold (plain_room bucket) in Hroom.
  pose proof (plain_room_nonneg bucket) as Hrn. pose proof (blen_nonneg (entry_data e)) as Hen.
  destruct (similar_base_ok e window) as (base & -> & Hbase); [lia| |].
  { eapply Forall_impl; [exact Hw|]. cbn. intros w [[_ ?] _]. lia. }
  cbn [unwrap rbind].
  assert (Hstep : forall t d off chain depth, packable t off -> blen d <= 8 * blen (entry_data e) + 20 -> 0 <= depth <= chain ->
    exists enc, encode_one_object compress t d off = Ok enc
    /\ let p := mkPlaced offset (entry_type e) (entry_data e) depth in
       let w := PlainWindowEntry_new (mkEntry (entry_type e) (entry_data e) (entry_hash e) chain) offset in
       exists res, plain_loop compress diff zstd_diff window_size false disable_prefilter bucket
         (offset + blen enc) (plain_slide window_size window w) = Ok res
       /\ plain_written (p :: prior) (offset + blen enc) bucket res.*1 /\ map ie_hash res.*2 = map entry_hash bucket).
  { intros t d off chain depth Hpk Hd Hch. destruct (encode_one_object_ok compress t d off Hpk) as [enc Henc].
    { unfold usize_max in *. lia. }
    exists enc. split; [done|]. pose proof (encode_one_object_size _ _ _ _ _ Hpk Henc) as Hsz. specialize (Hcompress d).
    cbn zeta. apply IH; try done; try lia. apply plain_slide_ok.
    - eapply Forall_impl; [exact Hw|]. cbn. intros w Hok. apply (plain_window_ok_later _ offset); [done|lia].
    - split; [unfold plain_packable, entry_packable; cbn; split_and!; done || lia|]. eexists. split; [left|]. cbn. split_and!; done || lia. }
  destruct base as [w|]; cbn [plain_delta_entry].
  - destruct (Hbase w eq_refl) as [Hin (Hct & Hchain & _)]. rewrite Forall_forall in Hw.
    destruct (Hw w Hin) as [[_ Hwl] (b & Hbp & Hbo & Hblt & Hbt & Hbd & Hdep)]. unfold plain_payload.
    destruct (encode_delta_for diff (entry_data (pw_entry w)) (entry_data e)) as (delta & -> & Hfor); [done|done|unfold usize_max; lia|apply Hdiff|].
    cbn [rbind unwrap]. pose proof (delta_for_size _ _ _ Hfor) as Hds.
    assert (Hdec : delta_decode delta (pl_data b) = Ok (entry_data e)).
    { rewrite Hbd. apply delta_for_decodes; try done; unfold usize_max; lia. }
    destruct (Hstep ObjectType.OffsetDelta delta (Some (offset - pw_offset w)) (chain_len (pw_entry w) + 1) (pl_depth b + 1))
      as (enc & Henc & res & Hres & Hwr & Hh); [cbn; lia|lia|lia|].
    cbn [entry_type entry_data chain_len]. rewrite Henc. cbn [rbind]. rewrite Hres. cbn [rbind].
    eexists. split; [done|]. split; [|cbn; by rewrite Hh]. cbn. eapply written_delta; try done; try lia; [congruence|by rewrite Hbo].
  - cbn [rbind unwrap]. destruct (Hstep (entry_type e) (entry_data e) None (chain_len e) 0)
      as (enc & Henc & res & Hres & Hwr & Hh); [by apply base_packable|lia|lia|].
    rewrite Henc. cbn [rbind]. rewrite Hres. cbn [rbind]. eexists. split; [done|]. split; [|cbn; by rewrite Hh].
    by eapply written_whole.
Qed.
End proofs.


(** A diff algorithm that finds a common prefix of both buffers. *)
Fixpoint prefix_len (a b : bytes) : Z :=
  match a, b with
  | x :: a, y :: b => if x =? y then 1 + prefix_len a b else 0
  | _, _ => 0
  end.

Definition prefix_diff (old new : bytes) : list Callback :=
  let n := prefix_len old new in
  (if 0 <? n then [CbEqual 0 0 n] else []) ++ (if n <? blen new then [CbInsert n n (blen new - n)] else []).

Lemma prefix_len_ok a b : 0 <= prefix_len a b <= Z.min (blen a) (blen b) /\ slice a 0 (prefix_len a b) = slice b 0 (prefix_len a b).
Proof.
  revert b. induction a as [|x a IH]; intros [|y b]; cbn [prefix_len]; try (split; [rewrite ?blen_cons, ?blen_nil; blen_nonnegs; lia|done]).
  destruct (x =? y) eqn:E; [|split; [rewrite !blen_cons; blen_nonnegs; lia|done]]. apply Z.eqb_eq in E as <-.
  destruct (IH b) as [Hb Hs]. rewrite !blen_cons. split; [lia|]. unfold slice in *. cbn [drop]. rewrite Z.sub_0_r in *.
  change (drop (Z.to_nat 0) ?l) with l in *. replace (Z.to_nat (1 + prefix_len a b)) with (S (Z.to_nat (prefix_len a b))) by lia.
  cbn [firstn take]. by rewrite Hs.
Qed.

Lemma prefix_diff_valid old new : valid_script old new 0 (prefix_diff old new).
Proof.
  destruct (prefix_len_ok old new) as [Hb Hs]. unfold prefix_diff. set (n := prefix_len old new) in *.
  assert (Hins : valid_script old new n (if n <? blen new then [CbInsert n n (blen new - n)] else [])).
  { destruct (n <? blen new) eqn:E.
    - apply valid_insert; [lia|lia|]. replace (n + (blen new - n)) with (blen new) by lia. constructor.
    - replace n with (blen new) by lia. constructor. }
  destruct (0 <? n) eqn:E; cbn [app]; [|by replace n with 0 in * by lia]. apply valid_equal; try lia; done.
Qed.

