(* ===== verification/PackEncode.v ===== *)
(** The pack encoder, [src/internal/pack/encode/mod.rs] and [parallel.rs], in the default
    build ([diff_rabin]).

    The encoder's output channel is the list of chunks its receiver has got, with the
    number of chunks after which the receiver goes away, if it does; sending to a channel
    without receiver panics ([send(..).await.unwrap()]).  The input channel is the list of
    entries that come before it is closed.  Rayon collects the results of the delta
    search in the order of the work items, so the search is a map over them; a panic in
    it surfaces as the error of the joined task.  Every operation returns the encoder
    too, because what was sent before an error has been sent. *)

From Stdlib Require Import ZArith Lia String Permutation Sorted.
From stdpp Require Import base tactics list numbers option gmap.
From S2P Require Import Prelude Stream Text Errors ObjectTypes DeltaUtils DeltaFormat DeltaDecode RabinTables RabinIndex RabinDelta DeltaEncode PackUtils Hash PackIndex EntrySort DeltaSearch.

Section state.
Context `{Hasher}.

Record PackEncoder : Type := mkPackEncoder {
  pe_object_number : Z;
  process_index : Z;
  pe_window_size : Z;
  pack_sender : bool;
  pack_received : list bytes;
  pack_leaves : option nat;
  idx_sender : bool;
  idx_received : list bytes;
  idx_leaves : option nat;
  pe_idx_entries : option (list PackIndex.IndexEntry);
  inner_offset : Z;
  pe_hash_kind : HashKind.t;
  pe_inner_hash : HashAlgorithm;
  final_hash : option ObjectHash.t;
  start_encoding : bool;
  disable_prefilter : bool
}.

End state.

(** The next statement after one that may fail, with the encoder as it is by then. *)
Definition after_ok {S A B} (m : Res GitError A) (e : S) (k : A -> Res GitError B * S) : Res GitError B * S :=
  match m with
  | Ok a => k a
  | Err err => (Err err, e)
  | Panic => (Panic, e)
  | OutOfFuel => (OutOfFuel, e)
  end.

Notation "'on!' x ':=' m 'at' e 'in' k" := (after_ok m e (fun x => k))
  (at level 10, x binder, m at level 100, e at level 100, k at level 200) : res_scope.

Section encoder.
Context `{Build} `{TextEnv} `{HexCrate} `{Hasher} `{Crc32} `{AHash} `{SliceSort}.
Context (little_endian : bool) (compress : bytes -> bytes) (diff : bytes -> bytes -> list Callback)
  (zstd_diff : bytes -> bytes -> Res bytes bytes).
Context (address_cmp : MetaAttached Entry EntryMeta -> MetaAttached Entry EntryMeta -> comparison).
(** Rayon's global pool, the [PACK_THREADS] variable, whether a pool can be built, and the
    text of a [JoinError]. *)
Context (num_threads : Z) (pack_threads : option Z) (pool_build : Z -> Res bytes unit) (join_error_text : bytes).

Implicit Types e : PackEncoder.

(** ** Construction *)

Definition new_with_hash_kind (hash_kind : HashKind.t) (object_number window_size : Z) (leaves : option nat) : PackEncoder :=
  mkPackEncoder object_number 0 window_size true [] leaves false [] None None 12 hash_kind
    (HashAlgorithm_new_for_kind hash_kind) None false false.

Definition new_with_idx_and_hash_kind (hash_kind : HashKind.t) (object_number window_size : Z) (leaves leaves' : option nat)
  : PackEncoder :=
  mkPackEncoder object_number 0 window_size true [] leaves true [] leaves' None 12 hash_kind
    (HashAlgorithm_new_for_kind hash_kind) None false false.

Definition check_entry_kind e (entry : Entry) : Res GitError unit :=
  map_err (fun err => PackEncodeError (str "entry " ++ ObjectHash.fmt (entry_hash entry) ++ str " cannot be encoded into a "
             ++ HashKind.as_str (pe_hash_kind e) ++ str " pack: " ++ hash_error_text err))
    (ObjectHash.ensure_kind (entry_hash entry) (pe_hash_kind e)).

(** ** Output *)

Definition drop_pack_sender e : PackEncoder :=
  mkPackEncoder (pe_object_number e) (process_index e) (pe_window_size e) false (pack_received e) (pack_leaves e) (idx_sender e)
    (idx_received e) (idx_leaves e) (pe_idx_entries e) (inner_offset e) (pe_hash_kind e) (pe_inner_hash e) (final_hash e)
    (start_encoding e) (disable_prefilter e).

Definition send_pack_data e (data : bytes) : Res GitError PackEncoder :=
  if pack_sender e then
    match pack_leaves e with
    | Some O => Panic
    | leaves => Ok (mkPackEncoder (pe_object_number e) (process_index e) (pe_window_size e) (pack_sender e)
        (pack_received e ++ [data]) (option_map pred leaves) (idx_sender e) (idx_received e) (idx_leaves e) (pe_idx_entries e)
        (inner_offset e) (pe_hash_kind e) (pe_inner_hash e) (final_hash e) (start_encoding e) (disable_prefilter e))
    end
  else Ok e.

(** [self.inner_hash.update(data)] and [self.inner_offset += n]. *)
Definition update_hash e (data : bytes) (n : Z) : PackEncoder :=
  mkPackEncoder (pe_object_number e) (process_index e) (pe_window_size e) (pack_sender e) (pack_received e) (pack_leaves e)
    (idx_sender e) (idx_received e) (idx_leaves e) (pe_idx_entries e) (inner_offset e + n) (pe_hash_kind e)
    (HashAlgorithm_update (pe_inner_hash e) data) (final_hash e) (start_encoding e) (disable_prefilter e).

Definition write_owned_and_update e (data : bytes) : Res GitError PackEncoder :=
  send_pack_data (update_hash e data (blen data)) data.

Definition set_process_index e (n : Z) : PackEncoder :=
  mkPackEncoder (pe_object_number e) n (pe_window_size e) (pack_sender e) (pack_received e) (pack_leaves e) (idx_sender e)
    (idx_received e) (idx_leaves e) (pe_idx_entries e) (inner_offset e) (pe_hash_kind e) (pe_inner_hash e) (final_hash e)
    (start_encoding e) (disable_prefilter e).

Definition set_final_hash e (h : ObjectHash.t) : PackEncoder :=
  mkPackEncoder (pe_object_number e) (process_index e) (pe_window_size e) (pack_sender e) (pack_received e) (pack_leaves e)
    (idx_sender e) (idx_received e) (idx_leaves e) (pe_idx_entries e) (inner_offset e) (pe_hash_kind e) (pe_inner_hash e)
    (Some h) (start_encoding e) (disable_prefilter e).

Definition set_idx_entries e (l : list PackIndex.IndexEntry) : PackEncoder :=
  mkPackEncoder (pe_object_number e) (process_index e) (pe_window_size e) (pack_sender e) (pack_received e) (pack_leaves e)
    (idx_sender e) (idx_received e) (idx_leaves e) (Some l) (inner_offset e) (pe_hash_kind e) (pe_inner_hash e)
    (final_hash e) (start_encoding e) (disable_prefilter e).

(** One encoded entry goes out, and its index record gets its offset and CRC. *)
Definition write_entry e (encoded_bytes : bytes) (idx_entry : PackIndex.IndexEntry)
  : Res GitError (PackEncoder * PackIndex.IndexEntry) :=
  let idx_entry := mkIndexEntry (ie_hash idx_entry) (calculate_crc32 encoded_bytes) (as_u64 (inner_offset e)) in
  let! e := write_owned_and_update e encoded_bytes in
  Ok (e, idx_entry).

(** The trailer; [finalize_object_hash] works on a clone of the hasher. *)
Definition write_checksum e : Res GitError PackEncoder :=
  let hash := HashAlgorithm_finalize_object_hash (pe_inner_hash e) in
  let e := set_final_hash e hash in
  let! e := send_pack_data e (ObjectHash.to_data hash) in
  Ok (drop_pack_sender e).

Definition already_in_progress : GitError := PackEncodeError (str "encoding operation is already in progress").

(** ** Without deltas: [parallel.rs] *)

(** Receives up to [n] entries. *)
Fixpoint receive_batch (n : nat) e (input : list (MetaAttached Entry EntryMeta)) (batch : list Entry)
  : Res GitError (list Entry * list (MetaAttached Entry EntryMeta)) * PackEncoder :=
  match n, input with
  | O, _ | _, [] => (Ok (batch, input), e)
  | S n, entry :: input =>
      if ObjectType.is_ai_object (entry_type (ma_inner entry))
      then (Err (PackEncodeError (str "AI object type `" ++ ObjectType.fmt (entry_type (ma_inner entry))
                   ++ str "` cannot be encoded in a pack file")), e)
      else
        on! _ := check_entry_kind e (ma_inner entry) at e in
        receive_batch n (set_process_index e (process_index e + 1)) input (batch ++ [ma_inner entry])
  end.

(** Rayon encodes the whole batch before the first result is looked at; a panic in one
    entry is a panic of the batch. *)
Definition encode_batch (batch : list Entry) : list (Res GitError (bytes * PackIndex.IndexEntry)) :=
  map (fun entry =>
         let! encoded := encode_one_object compress (entry_type entry) (entry_data entry) None in
         Ok (encoded, IndexEntry_new entry 0)) batch.

Definition any_panic {A} (l : list (Res GitError A)) : bool :=
  existsb (fun r => match r with Panic => true | _ => false end) l.

Fixpoint write_batch e (results : list (Res GitError (bytes * PackIndex.IndexEntry))) (idx_entries : list PackIndex.IndexEntry)
  : Res GitError (list PackIndex.IndexEntry) * PackEncoder :=
  match results with
  | [] => (Ok idx_entries, e)
  | r :: results =>
      on! '(encoded_bytes, idx_entry) := r at e in
      on! '(e, idx_entry) := write_entry e encoded_bytes idx_entry at e in
      write_batch e results (idx_entries ++ [idx_entry])
  end.

(** A round takes at least one entry, so the number of entries bounds the rounds. *)
Fixpoint batch_loop (fuel : nat) (batch_size : nat) e (input : list (MetaAttached Entry EntryMeta))
  (idx_entries : list PackIndex.IndexEntry) : Res GitError (list PackIndex.IndexEntry) * PackEncoder :=
  match fuel with
  | O => (OutOfFuel, e)
  | S fuel =>
      let '(r, e) := receive_batch batch_size e input [] in
      on! '(batch, input) := r at e in
      match batch with
      | [] => (Ok idx_entries, e)
      | _ =>
          let results := encode_batch batch in
          if any_panic results then (Panic, e)
          else
            let '(r, e) := write_batch e results idx_entries in
            on! idx_entries := r at e in
            batch_loop fuel batch_size e input idx_entries
      end
  end.

(** [max_capacity] is that of the input channel. *)
Definition parallel_encode (max_capacity : Z) e (input : list (MetaAttached Entry EntryMeta)) : Res GitError unit * PackEncoder :=
  if negb (pe_window_size e =? 0)
  then (Err (PackEncodeError (str "parallel encode only works when window_size == 0")), e)
  else
    on! head := unwrap (encode_header (pe_object_number e)) at e in
    on! e := send_pack_data (update_hash e head 0) head at e in
    if start_encoding e then (Err already_in_progress, e)
    else
      let batch_size := Z.max 1000 (max_capacity / 10) in
      let '(r, e) := batch_loop (S (length input)) (Z.to_nat batch_size) e input [] in
      on! idx_entries := r at e in
      if negb (process_index e =? pe_object_number e) then (Panic, e)
      else
        on! e := write_checksum e at e in
        (Ok tt, set_idx_entries e idx_entries).

(** ** With deltas: [inner_encode] *)

Record Buckets : Type := mkBuckets {
  commits : list (MetaAttached Entry EntryMeta);
  trees : list (MetaAttached Entry EntryMeta);
  blobs : list (MetaAttached Entry EntryMeta);
  tags : list (MetaAttached Entry EntryMeta)
}.

Fixpoint receive_entries e (input : list (MetaAttached Entry EntryMeta)) (b : Buckets) : Res GitError Buckets :=
  match input with
  | [] => Ok b
  | entry :: input =>
      let! _ := check_entry_kind e (ma_inner entry) in
      match entry_type (ma_inner entry) with
      | ObjectType.Commit => receive_entries e input (mkBuckets (commits b ++ [entry]) (trees b) (blobs b) (tags b))
      | ObjectType.Tree => receive_entries e input (mkBuckets (commits b) (trees b ++ [entry]) (blobs b) (tags b))
      | ObjectType.Blob => receive_entries e input (mkBuckets (commits b) (trees b) (blobs b ++ [entry]) (tags b))
      | ObjectType.Tag => receive_entries e input (mkBuckets (commits b) (trees b) (blobs b) (tags b ++ [entry]))
      | t => Err (PackEncodeError (str "object type `" ++ ObjectType.fmt t
                    ++ str "` is not supported by delta-window pack encoding"))
      end
  end.

Definition sort_bucket (l : list (MetaAttached Entry EntryMeta)) : Res GitError (list Entry) :=
  let! l := unwrap (sort_by (magic_sort address_cmp) l) in Ok (map ma_inner l).

Definition div_ceil (n d : Z) : Z := (n + d - 1) / d.

(** [blob_chunk_count] and [entries_per_chunk]. *)
Definition chunk_plan (window_size total_blob_entries : Z) : Z * Z :=
  let blob_chunk_count :=
    if (1 <? num_threads) && (num_threads * 20 <? total_blob_entries) then num_threads * 20 else 1 in
  let entries_per_chunk := div_ceil total_blob_entries blob_chunk_count in
  let min_entries_per_chunk := Z.max (window_size * 10) 50 in
  if entries_per_chunk <? min_entries_per_chunk then
    let blob_chunk_count := Z.max (total_blob_entries / min_entries_per_chunk) 1 in
    (blob_chunk_count, div_ceil total_blob_entries blob_chunk_count)
  else (blob_chunk_count, entries_per_chunk).

(** The loop of [split_off], last chunk first, and the reversal. *)
Fixpoint split_chunks (n : nat) (entries_per_chunk : Z) (blob_entries : list Entry) : list (list Entry) :=
  match n with
  | O => []
  | S n =>
      let take_n := Z.min entries_per_chunk (blen blob_entries) in
      if take_n =? 0 then []
      else
        let at_ := Z.to_nat (blen blob_entries - take_n) in
        split_chunks n entries_per_chunk (take at_ blob_entries) ++ [drop at_ blob_entries]
  end.

Definition blob_chunks (window_size : Z) (blob_entries : list Entry) : list (list Entry) :=
  let '(blob_chunk_count, entries_per_chunk) := chunk_plan window_size (blen blob_entries) in
  split_chunks (Z.to_nat blob_chunk_count) entries_per_chunk blob_entries.

(** The work items in pack order: commits, trees, blob chunks, tags. *)
Definition work_items (window_size : Z) (commit_entries tree_entries blob_entries tag_entries : list Entry) : list (list Entry) :=
  [commit_entries; tree_entries] ++ blob_chunks window_size blob_entries ++ [tag_entries].

(** [res?] for each result in turn. *)
Fixpoint collect_results {A} (l : list (Res GitError A)) : Res GitError (list A) :=
  match l with
  | [] => Ok []
  | r :: l => let! x := r in let! l := collect_results l in Ok (x :: l)
  end.

Definition run_delta_search (enable_zstdelta enable_rabin no_prefilter : bool) (items : list (list Entry))
  : Res GitError (list (list (bytes * PackIndex.IndexEntry))) :=
  let! _ :=
    match pack_threads with
    | Some n => map_err (fun err => PackEncodeError (str "failed to build Rayon thread pool: " ++ err)) (pool_build n)
    | None => Ok tt
    end in
  let results :=
    map (try_as_offset_delta little_endian compress diff zstd_diff 10 enable_zstdelta enable_rabin no_prefilter) items in
  if any_panic results then Err (PackEncodeError (str "delta search task panicked: " ++ join_error_text))
  else collect_results results.

Fixpoint write_results e (results : list (bytes * PackIndex.IndexEntry)) (idx_entries : list PackIndex.IndexEntry)
  : Res GitError (list PackIndex.IndexEntry) * PackEncoder :=
  match results with
  | [] => (Ok idx_entries, e)
  | (encoded_bytes, idx_entry) :: results =>
      on! '(e, idx_entry) := write_entry e encoded_bytes idx_entry at e in
      write_results e results (idx_entries ++ [idx_entry])
  end.

Definition inner_encode e (input : list (MetaAttached Entry EntryMeta)) (enable_zstdelta enable_rabin no_prefilter : bool)
  : Res GitError unit * PackEncoder :=
  on! head := unwrap (encode_header (pe_object_number e)) at e in
  on! e := send_pack_data e head at e in
  let e := update_hash e head 0 in
  if start_encoding e then (Err already_in_progress, e)
  else
    on! b := receive_entries e input (mkBuckets [] [] [] []) at e in
    on! commit_entries := sort_bucket (commits b) at e in
    on! tree_entries := sort_bucket (trees b) at e in
    on! blob_entries := sort_bucket (blobs b) at e in
    on! tag_entries := sort_bucket (tags b) at e in
    let items := work_items (pe_window_size e) commit_entries tree_entries blob_entries tag_entries in
    on! all_res := run_delta_search enable_zstdelta enable_rabin no_prefilter items at e in
    let '(r, e) := write_results e (concat all_res) [] in
    on! idx_entries := r at e in
    let e := set_idx_entries e idx_entries in
    on! e := write_checksum e at e in
    (Ok tt, e).

(** ** Entry points *)

Definition encode_pack (max_capacity : Z) e (input : list (MetaAttached Entry EntryMeta)) : Res GitError unit * PackEncoder :=
  if pe_window_size e =? 0 then parallel_encode max_capacity e input else inner_encode e input false true true.

Definition encode_with_zstdelta e (input : list (MetaAttached Entry EntryMeta)) : Res GitError unit * PackEncoder :=
  inner_encode e input true false (disable_prefilter e).

(** The spawned task: an error is a panic of the task. *)
Definition encode_async (max_capacity : Z) e (input : list (MetaAttached Entry EntryMeta)) : Res Empty_set unit * PackEncoder :=
  let '(r, e) := if pe_window_size e =? 0 then parallel_encode max_capacity e input else encode_pack max_capacity e input in
  (unwrap r, e).

Definition generate_idx_file e : Res GitError PackEncoder :=
  let! hash := ok_or (final_hash e) (PackEncodeError
    (str "final_hash is missing,The pack file must be generated before the index file is produced.")) in
  let! idx_entries := ok_or (pe_idx_entries e) (PackEncodeError
    (str "The pack file must be generated before the index file is produced.")) in
  if idx_sender e then
    let! b := write_idx (IdxBuilder_new (pe_object_number e) (idx_leaves e) hash) idx_entries in
    Ok (mkPackEncoder (pe_object_number e) (process_index e) (pe_window_size e) (pack_sender e) (pack_received e) (pack_leaves e)
          (idx_sender e) (idx_received e ++ received b) (receiver_leaves b) (pe_idx_entries e) (inner_offset e) (pe_hash_kind e)
          (pe_inner_hash e) (final_hash e) (start_encoding e) (disable_prefilter e))
  else Panic.

Definition encode_idx_file e : Res GitError PackEncoder :=
  if negb (idx_sender e) then Err (PackEncodeError (str "idx sender is none"))
  else
    let! e := generate_idx_file e in
    Ok (mkPackEncoder (pe_object_number e) (process_index e) (pe_window_size e) (pack_sender e) (pack_received e) (pack_leaves e)
          false (idx_received e) (idx_leaves e) (pe_idx_entries e) (inner_offset e) (pe_hash_kind e)
          (pe_inner_hash e) (final_hash e) (start_encoding e) (disable_prefilter e)).

End encoder.
