(* ===== verification/PackRoundtrip.v ===== *)
(** From objects to a pack and back: what [PackEncoder] sends decodes, under every
    schedule of the decoder, to the objects it was given.

    The first part says what the decoder makes of the entries the search wrote
    ([written]), the second what the encoder sends, the third composes the two with the
    theorems on the decoder's schedules. *)

From Stdlib Require Import ZArith Lia String Permutation Sorted.
From stdpp Require Import base tactics list numbers option gmap.
From S2P Require Import Prelude Stream Text Errors ObjectTypes DeltaUtils DeltaFormat DeltaDecode RabinTables RabinIndex RabinDelta DeltaEncode PackUtils Hash Inflate PackIndex PackDecode Caches Pipeline PipelineProofs DecodeStream EntrySort DeltaSearch PackEncode.

(** The name of an object of the given kind. *)
Definition object_id `{Hasher} (kind : HashKind.t) (t : ObjectType.t) (data : bytes) : ObjectHash.t :=
  ObjectHash_new_for_kind kind (loose_object (default [] (ObjectType.to_bytes t)) data).

(** * Placing buckets after each other *)

Section layout.
Context `{Allocator} (compress : bytes -> bytes).

Definition shift (k : Z) (b : Placed) : Placed := mkPlaced (pl_offset b + k) (pl_type b) (pl_data b) (pl_depth b).

(** Distances do not change when a bucket moves, and more bases do no harm. *)
Lemma written_move prior prior' offset k entries encs :
  written compress prior offset entries encs -> (forall b, b ∈ prior -> shift k b ∈ prior') ->
  written compress prior' (offset + k) entries encs.
Proof.
  intros Hw. revert prior'. induction Hw as [|prior offset e enc entries encs He _ IH
    |prior offset e b delta enc entries encs Hb Ht Hd Ho Hs Hdec He _ IH]; intros prior' Hsub.
  - constructor.
  - eapply written_whole; [done|]. replace (offset + k + blen enc) with (offset + blen enc + k) by lia. apply IH.
    intros x Hx. apply elem_of_cons in Hx as [-> |Hx]; [left|right; auto].
  - eapply (written_delta _ _ _ _ _ (shift k b)); try done; [by apply Hsub|cbn; lia|cbn; by replace (offset + k - (pl_offset b + k)) with (offset - pl_offset b) by lia|].
    replace (offset + k + blen enc) with (offset + blen enc + k) by lia. apply IH.
    intros x Hx. apply elem_of_cons in Hx as [-> |Hx]; [left|right; auto].
Qed.

Lemma written_app prior offset es1 encs1 es2 encs2 :
  written compress prior offset es1 encs1 -> written compress [] 0 es2 encs2 ->
  written compress prior offset (es1 ++ es2) (encs1 ++ encs2).
Proof.
  intros Hw1 Hw2. induction Hw1 as [prior offset|prior offset e enc entries encs He _ IH
    |prior offset e b delta enc entries encs Hb Ht Hd Ho Hs Hdec He _ IH].
  - cbn. apply (written_move [] prior 0 offset) in Hw2; [done|]. intros b Hb. by apply not_elem_of_nil in Hb.
  - cbn. by eapply written_whole.
  - cbn. by eapply written_delta.
Qed.

Lemma written_concat buckets results :
  Forall2 (fun b (r : list bytes) => written compress [] 0 b r) buckets results ->
  written compress [] 0 (concat buckets) (concat results).
Proof. induction 1 as [|b r bs rs Hb _ IH]; [constructor|]. cbn. by apply written_app. Qed.

End layout.

(** * Reading the entries *)

(** The object an entry stands for, as the decoder has it at the end. *)
Definition stands_for `{Hasher} (kind : HashKind.t) (e : Entry) (r : CacheObject) : Prop :=
  info r = BaseObject (entry_type e) (object_id kind (entry_type e) (entry_data e)) /\ data_decompressed r = entry_data e.

Section reading.
Context `{Build} `{TextEnv} `{HexCrate} `{HasherLaws} `{ZlibLaws deflated zpending} `{Crc32} `{Allocator}.
Context (delta_error_text : GitDeltaError -> bytes) (zstdelta_apply : bytes -> bytes -> Res bytes bytes).
Context (compress : bytes -> bytes) (Hdeflate : forall d, deflated (compress d) d).
Context (p : SharedParams) (kind : HashKind.t).
Abbreviation rb := (rebuild delta_error_text zstdelta_apply).

Lemma base_label t : ObjectType.is_base t = true -> exists label, ObjectType.to_bytes t = Some label.
Proof. destruct t; try discriminate; intros _; by eexists. Qed.

Lemma rebuild_delta_plain base t bh delta new_data init boff n crc :
  info base = BaseObject t bh -> ObjectHash.kind bh = kind -> ObjectType.is_base t = true -> blen new_data <= usize_max ->
  delta_decode delta (data_decompressed base) = Ok new_data ->
  rb (mkCacheObject (OffsetDelta boff n) init crc delta true None) base
  = Ok (mkCacheObject (BaseObject t (object_id kind t new_data)) init crc new_data true None).
Proof.
  intros Hi Hk Ht Hl Hd. destruct (base_label t Ht) as [label Hlabel].
  pose proof (rebuild_offset_delta delta_error_text zstdelta_apply base t bh label delta new_data init boff n crc None Hi Hlabel Hl Hd) as Hr.
  unfold object_id. rewrite Hlabel. cbn [default from_option id]. rewrite Hk in Hr. cbn zeta in Hr.
  destruct (rb _ base) as [r|e| |]; try done; [by destruct Hr as [_ ->]|]. exfalso. apply Hr. by left.
Qed.

(** An earlier object, found by the decoder among [all]. *)
Definition found (all : list CacheObject) (b : Placed) : Prop :=
  exists o r, resolves rb all o r /\ co_offset r = pl_offset b /\ data_decompressed r = pl_data b
    /\ ObjectType.is_base (pl_type b) = true
    /\ info r = BaseObject (pl_type b) (object_id kind (pl_type b) (pl_data b)).

Lemma object_id_kind t d : ObjectHash.kind (object_id kind t d) = kind.
Proof. apply ObjectHash_new_for_kind_wf. Qed.

Lemma written_reads prior offset entries encs rest :
  written compress prior offset entries encs ->
  0 <= offset -> offset + blen (concat encs) <= usize_max -> Forall (fun b => 0 <= pl_offset b) prior -> Forall entry_packable entries ->
  exists objs, read_objects p kind (length entries) (concat encs ++ rest) offset = Ok (objs, rest)
    /\ forall all, objs ⊆ all -> Forall (found all) prior ->
       Forall2 (fun e o => exists r, resolves rb all o r /\ stands_for kind e r /\ co_offset r = co_offset o) entries objs.
Proof.
  intros Hw. induction Hw as [|prior offset e enc entries encs He Hw IH
    |prior offset e b delta enc entries encs Hb Ht Hd Ho Hs Hdec He Hw IH]; intros Hoff Hend Hprior Hp.
  { exists []. split; [done|]. constructor. }
  all: apply Forall_cons_1 in Hp as [(Hbase & Hbytes & Hlen & _) Hp]; cbn [concat length read_objects] in *; rewrite <- app_assoc.
  all: rewrite blen_app in Hend; pose proof (blen_nonneg enc) as Henc; pose proof (blen_nonneg (concat encs)) as Hencs.
  all: destruct (base_label _ Hbase) as [label Hlabel]; pose proof (blen_nonneg (entry_data e)) as Hdn.
  - destruct (base_entry_object compress kind (entry_type e) label (entry_data e) (concat encs ++ rest) offset (callback p)
      (skip_unneeded_objects p) (callback p && low_memory p) Hbase Hlabel) as (enc' & He' & Hd); [unfold isize_max; lia|done|].
    assert (enc' = enc) as -> by congruence. rewrite Hd. cbn [rbind].
    destruct IH as (objs & Hr & Hall); [lia|lia|by constructor|done|]. rewrite Hr. cbn [rbind option_list app].
    set (o := mkCacheObject _ _ _ _ _ _). exists (o :: objs). split; [done|]. intros all Hsub Hprior'.
    assert (Hres : resolves rb all o o) by (apply resolves_base; [apply Hsub; left|done]).
    assert (Hst : stands_for kind e o) by (unfold stands_for, object_id; by rewrite Hlabel).
    constructor; [by exists o|]. apply Hall; [set_solver|]. constructor; [|done]. exists o, o. destruct Hst. by split_and!.
  - assert (Hpos : 0 <= pl_offset b) by (rewrite Forall_forall in Hprior; by apply Hprior).
    destruct (delta_entry_object compress kind (pl_data b) delta (entry_data e) (concat encs ++ rest) offset (offset - pl_offset b) (callback p)
      (skip_unneeded_objects p) (callback p && low_memory p) None None) as (enc' & He' & Hdo); try done; try lia; [unfold isize_max; lia|].
    assert (enc' = enc) as -> by congruence. rewrite Hdo. cbn [rbind].
    destruct IH as (objs & Hr & Hall); [lia|lia|by constructor|done|]. rewrite Hr. cbn [rbind option_list app].
    set (o := mkCacheObject _ _ _ _ _ _). exists (o :: objs). split; [done|]. intros all Hsub Hprior'.
    assert (Hf : found all b) by (rewrite Forall_forall in Hprior'; by apply Hprior').
    destruct Hf as (ob & rb' & Hrb & Hro & Hrd & Hrt & Hri).
    set (r := mkCacheObject (BaseObject (entry_type e) (object_id kind (entry_type e) (entry_data e))) offset
                (if callback p then calculate_crc32 enc else 0) (entry_data e) true None).
    assert (Hrebuild : rb o rb' = Ok r).
    { unfold o, r. apply (rebuild_delta_plain _ _ (object_id kind (pl_type b) (pl_data b))).
      - by rewrite Hri, Ht.
      - apply object_id_kind.
      - done.
      - unfold usize_max. lia.
      - by rewrite Hrd. }
    assert (Hres : resolves rb all o r).
    { eapply (resolves_delta _ _ o (OnOffset (pl_offset b))); [apply Hsub; left| |exact Hrb|exact Hro|done].
      cbn. do 2 f_equal. lia. }
    constructor; [by exists r|]. apply Hall; [set_solver|]. constructor; [|done]. exists o, r. by split_and!.
Qed.

End reading.

(** * What the encoder sends *)

(** ** Chunks of blobs *)

Lemma div_ceil_spec n d : 0 < d -> n <= d * div_ceil n d.
Proof.
  intros Hd. unfold div_ceil. pose proof (Z.div_mod (n + d - 1) d ltac:(lia)). pose proof (Z.mod_pos_bound (n + d - 1) d Hd). lia.
Qed.

Lemma split_chunks_concat n per l : blen l <= Z.of_nat n * per -> concat (split_chunks n per l) = l.
Proof.
  revert l. induction n as [|n IH]; intros l Hl; cbn [split_chunks].
  - destruct l; [done|]. blens.
  - pose proof (blen_nonneg l). destruct (Z.min per (blen l) =? 0) eqn:E.
    + destruct l as [|x l]; [done|]. exfalso. rewrite blen_cons in *. pose proof (blen_nonneg l).
      assert (per = 0) as -> by lia. lia.
    + rewrite concat_app. cbn [concat]. rewrite app_nil_r, IH; [apply take_drop|].
      unfold blen at 1. rewrite length_take. unfold blen in *. destruct (Z_le_gt_dec per (Z.of_nat (length l))) as [Hle|Hgt].
      * rewrite Z.min_l by done. nia.
      * rewrite Z.min_r by lia. replace (Z.to_nat _) with 0%nat by lia. nia.
Qed.

(** No blob is lost or repeated, whatever the number of threads and the window. *)
Lemma blob_chunks_concat num_threads window_size l : concat (blob_chunks num_threads window_size l) = l.
Proof.
  unfold blob_chunks, chunk_plan. pose proof (blen_nonneg l).
  set (c0 := if _ : bool then num_threads * 20 else 1).
  assert (Hc0 : 0 < c0) by (unfold c0; destruct ((1 <? num_threads) && _) eqn:E; lia).
  clearbody c0. destruct (div_ceil _ c0 <? _); apply split_chunks_concat; rewrite Z2Nat.id by lia; apply div_ceil_spec; lia.
Qed.

(** ** Room *)

Lemma room_app l1 l2 : room (l1 ++ l2) = room l1 + room l2.
Proof. unfold room. induction l1 as [|e l1 IH]; cbn [app foldr]; lia. Qed.

Lemma room_perm l1 l2 : Permutation l1 l2 -> room l1 = room l2.
Proof. unfold room. induction 1; cbn [foldr]; lia. Qed.

Lemma room_concat items item : item ∈ items -> room item <= room (concat items).
Proof.
  induction items as [|x items IH]; intros Hin; [by apply not_elem_of_nil in Hin|]. cbn [concat]. rewrite room_app.
  pose proof (room_nonneg x). pose proof (room_nonneg (concat items)).
  apply elem_of_cons in Hin as [-> |Hin]; [lia|]. specialize (IH Hin). lia.
Qed.

Lemma written_size `{Allocator} compress prior offset entries encs :
  compress_bounded compress -> Forall entry_packable entries -> Forall (fun b => 0 <= pl_offset b) prior ->
  written compress prior offset entries encs -> 0 <= offset -> offset + room entries <= usize_max ->
  blen (concat encs) <= room entries.
Proof.
  intros Hc Hp Hpr Hw. revert Hp Hpr. induction Hw as [|prior offset e enc entries encs He Hw IH
    |prior offset e b delta enc entries encs Hb Ht Hd Ho Hs Hdec He Hw IH]; intros Hp Hpr Ho' Hroom; [unfold blen; cbn; lia|..].
  all: apply Forall_cons_1 in Hp as [(Hbase & _ & Hlen & _) Hp]; unfold room in *; cbn [foldr concat] in *; fold (room entries) in *.
  all: rewrite blen_app; pose proof (room_nonneg entries); pose proof (blen_nonneg (entry_data e)).
  - pose proof (encode_one_object_size _ _ _ _ _ (base_packable _ Hbase) He). specialize (Hc (entry_data e)).
    assert (blen (concat encs) <= room entries) by (apply IH; try done; [by constructor|lia|lia]). lia.
  - assert (Hbo : 0 <= pl_offset b) by (rewrite Forall_forall in Hpr; by apply Hpr).
    assert (Hpk : packable ObjectType.OffsetDelta (Some (offset - pl_offset b))) by (cbn; lia).
    pose proof (encode_one_object_size _ _ _ _ _ Hpk He). specialize (Hc delta).
    assert (blen (concat encs) <= room entries) by (apply IH; try done; [by constructor|lia|lia]). lia.
Qed.

Section sending.
Context `{Build} `{TextEnv} `{HexCrate} `{HasherLaws} `{Crc32} `{AHash} `{SliceSort} `{!SliceSortLaws} `{Allocator}.
Context (little_endian : bool) (compress : bytes -> bytes) (diff : bytes -> bytes -> list DeltaEncode.Callback)
  (zstd_diff : bytes -> bytes -> Res bytes bytes).
Context (address_cmp : MetaAttached Entry EntryMeta -> MetaAttached Entry EntryMeta -> comparison).
Context (num_threads : Z) (pack_threads : option Z) (pool_build : Z -> Res bytes unit) (join_error_text : bytes).

(** An encoder whose receiver listens: the running hash and the offset are those of what
    was sent. *)
Record sending (e : PackEncoder) : Prop := {
  se_sender : pack_sender e = true;
  se_leaves : pack_leaves e = None;
  se_hash : pe_inner_hash e = HashAlgorithm_update (HashAlgorithm_new_for_kind (pe_hash_kind e)) (concat (pack_received e));
  se_offset : inner_offset e = blen (concat (pack_received e))
}.

Definition idx_channel (e : PackEncoder) : bool * list bytes * option nat := (idx_sender e, idx_received e, idx_leaves e).

Definition config (e : PackEncoder) : Z * Z * HashKind.t * bool * Z * (bool * list bytes * option nat) :=
  (pe_object_number e, pe_window_size e, pe_hash_kind e, start_encoding e, process_index e, idx_channel e).

Fixpoint records (offset : Z) (results : list (bytes * PackIndex.IndexEntry)) : list PackIndex.IndexEntry :=
  match results with
  | [] => []
  | (enc, i) :: results => mkIndexEntry (ie_hash i) (calculate_crc32 enc) (as_u64 offset) :: records (offset + blen enc) results
  end.

Lemma concat_snoc {A} (l : list (list A)) (x : list A) : concat (l ++ [x]) = concat l ++ x.
Proof. rewrite concat_app. cbn. by rewrite app_nil_r. Qed.

Lemma write_entry_ok e enc i :
  sending e -> exists e', write_entry e enc i = Ok (e', mkIndexEntry (ie_hash i) (calculate_crc32 enc) (as_u64 (inner_offset e)))
    /\ sending e' /\ config e' = config e /\ pack_received e' = pack_received e ++ [enc] /\ inner_offset e' = inner_offset e + blen enc.
Proof.
  intros [Hs Hl Hh Ho]. unfold write_entry, write_owned_and_update, send_pack_data. cbn [pack_sender update_hash]. rewrite Hs.
  cbn [pack_leaves update_hash]. rewrite Hl. cbn [rbind option_map]. eexists. split; [done|]. split; [|done].
  split; cbn [pack_sender pack_leaves pe_inner_hash pe_hash_kind pack_received inner_offset update_hash]; try done.
  - by rewrite Hh, update_app, concat_snoc.
  - by rewrite Ho, concat_snoc, blen_app.
Qed.

Lemma write_results_ok e results acc :
  sending e -> exists e', write_results e results acc = (Ok (acc ++ records (inner_offset e) results), e')
    /\ sending e' /\ config e' = config e /\ pack_received e' = pack_received e ++ results.*1.
Proof.
  revert e acc. induction results as [|[enc i] results IH]; intros e acc Hs; cbn [write_results records fmap list_fmap].
  - exists e. by rewrite !app_nil_r.
  - destruct (write_entry_ok e enc i Hs) as (e1 & -> & Hs1 & Hc1 & Hr1 & Ho1). cbn [after_ok].
    destruct (IH e1 (acc ++ [mkIndexEntry (ie_hash i) (calculate_crc32 enc) (as_u64 (inner_offset e))]) Hs1)
      as (e' & -> & Hs' & Hc' & Hr'). exists e'. rewrite Ho1, <- app_assoc. cbn [app]. split; [done|].
    split; [done|]. split; [congruence|]. by rewrite Hr', Hr1, <- app_assoc.
Qed.

Lemma write_checksum_ok e :
  sending e -> let h := ObjectHash_new_for_kind (pe_hash_kind e) (concat (pack_received e)) in
  exists e', write_checksum e = Ok e' /\ pack_received e' = pack_received e ++ [ObjectHash.to_data h]
    /\ final_hash e' = Some h /\ pe_idx_entries e' = pe_idx_entries e /\ config e' = config e.
Proof.
  intros [Hs Hl Hh Ho]. cbn zeta. unfold write_checksum, send_pack_data. cbn [pack_sender set_final_hash]. rewrite Hs.
  cbn [pack_leaves set_final_hash]. rewrite Hl. cbn [rbind option_map]. eexists. split; [done|].
  cbn [pack_received final_hash pe_idx_entries drop_pack_sender set_final_hash]. unfold ObjectHash_new_for_kind. by rewrite Hh.
Qed.

(** ** Collecting *)

(** An entry of the pack's kind that can be sorted and packed. *)
Definition input_ok (kind : HashKind.t) (x : MetaAttached Entry EntryMeta) : Prop :=
  ObjectHash.kind (entry_hash (ma_inner x)) = kind /\ entry_packable (ma_inner x) /\ sortable x
  /\ AllocatorServes (blen (entry_data (ma_inner x))).

Lemma check_entry_kind_ok e x : input_ok (pe_hash_kind e) x -> check_entry_kind e (ma_inner x) = Ok tt.
Proof.
  intros (Hk & _). unfold check_entry_kind, ObjectHash.ensure_kind. rewrite Hk. by rewrite bool_decide_true.
Qed.

Lemma receive_entries_ok e input b :
  Forall (input_ok (pe_hash_kind e)) input ->
  exists b', receive_entries e input b = Ok b'
    /\ Permutation (commits b' ++ trees b' ++ blobs b' ++ tags b') ((commits b ++ trees b ++ blobs b ++ tags b) ++ input).
Proof.
  revert b. induction input as [|x input IH]; intros b Hi; cbn [receive_entries].
  - exists b. by rewrite app_nil_r.
  - apply Forall_cons_1 in Hi as [Hx Hi]. rewrite (check_entry_kind_ok e x Hx). cbn [rbind].
    destruct Hx as (_ & (Hb & _) & _).
    destruct (entry_type (ma_inner x)); try discriminate Hb;
      (match goal with |- exists b', receive_entries e input ?b1 = _ /\ _ => destruct (IH b1 Hi) as (b' & -> & Hp) end);
      exists b'; (split; [done|]); rewrite Hp; cbn [commits trees blobs tags]; solve_Permutation.
Qed.

Lemma sort_bucket_ok l :
  total_order address_cmp -> Forall sortable l ->
  exists l', sort_bucket address_cmp l = Ok l' /\ Permutation (map ma_inner l) l'.
Proof.
  intros Ha Hs. rewrite Forall_forall in Hs.
  destruct (sort_by_total _ (key_order address_cmp) (magic_sort address_cmp) l (key_order_total address_cmp Ha)) as (l' & Hl & _).
  { intros a b Hina Hinb. apply magic_sort_keys; by apply Hs. }
  exists (map ma_inner l'). unfold sort_bucket. rewrite Hl. cbn. split; [done|].
  apply Permutation_map. by eapply sort_by_perm.
Qed.


(** ** The delta search *)

Context (Hcompress : compress_bounded compress).
Context (Hpool : forall n, pack_threads = Some n -> pool_build n = Ok tt).

Lemma search_items_ok no_prefilter items :
  Forall (fun e => entry_packable e /\ AllocatorServes (blen (entry_data e))) (concat items) -> room (concat items) <= usize_max ->
  exists all_res,
    map (try_as_offset_delta little_endian compress diff zstd_diff 10 false true no_prefilter) items = map Ok all_res
    /\ Forall2 (fun b (r : list bytes) => written compress [] 0 b r) items (map (fun r => r.*1) all_res)
    /\ map ie_hash (concat all_res).*2 = map entry_hash (concat items).
Proof.
  induction items as [|item items IH]; intros Hp Hr; [by exists []|]. cbn [concat] in *. rewrite room_app in Hr.
  apply Forall_app in Hp as [Hp1 Hp2]. pose proof (room_nonneg item). pose proof (room_nonneg (concat items)).
  destruct (search_loop_written little_endian compress diff zstd_diff 10 no_prefilter Hcompress item [] 0 []) as (res & Hres & Hw & Hh);
    try lia; [by eapply Forall_impl; [exact Hp1|]; intros ? []..|constructor|].
  destruct IH as (all_res & Hall & Hws & Hhs); [done|lia|]. exists (res :: all_res). cbn [map concat].
  rewrite Hall. unfold try_as_offset_delta. rewrite Hres. split; [done|]. split; [by constructor|].
  by rewrite fmap_app, !map_app, Hh, Hhs.
Qed.

Lemma collect_results_ok {A} (l : list A) : any_panic (map Ok l) = false /\ collect_results (map Ok l) = Ok l.
Proof. induction l as [|x l [IH1 IH2]]; [done|]. cbn. by rewrite IH2. Qed.

Lemma run_delta_search_ok no_prefilter items :
  Forall (fun e => entry_packable e /\ AllocatorServes (blen (entry_data e))) (concat items) -> room (concat items) <= usize_max ->
  exists all_res, run_delta_search little_endian compress diff zstd_diff pack_threads pool_build join_error_text false true no_prefilter items = Ok all_res
    /\ written compress [] 0 (concat items) (concat all_res).*1
    /\ map ie_hash (concat all_res).*2 = map entry_hash (concat items).
Proof.
  intros Hp Hr. destruct (search_items_ok no_prefilter items Hp Hr) as (all_res & Hall & Hw & Hh). exists all_res.
  unfold run_delta_search. rewrite Hall. destruct (collect_results_ok all_res) as [-> ->].
  replace (match pack_threads with Some n => _ | None => _ end) with (@Ok GitError unit tt)
    by (destruct pack_threads as [n|] eqn:E; [by rewrite (Hpool n)|done]).
  cbn [rbind]. split; [done|]. split; [|done].
  replace ((concat all_res).*1) with (concat (map (fun r => r.*1) all_res)); [by apply written_concat|].
  clear. induction all_res as [|r l IH]; [done|]. cbn [map concat]. by rewrite IH, fmap_app.
Qed.

(** ** The whole pack *)

(** The pack the encoder has sent: the header, the entries in some order, the checksum; and
    the records for the index. *)
Definition packed (kind : HashKind.t) (entries : list Entry) (channel : bool * list bytes * option nat) (e : PackEncoder) : Prop :=
  exists head entries' results, encode_header (blen entries) = Ok head /\ Permutation entries entries'
    /\ written compress [] 12 entries' results.*1 /\ map ie_hash results.*2 = map entry_hash entries'
    /\ let h := ObjectHash_new_for_kind kind (head ++ concat results.*1) in
       concat (pack_received e) = (head ++ concat results.*1) ++ ObjectHash.to_data h
       /\ final_hash e = Some h /\ pe_idx_entries e = Some (records 12 results)
       /\ pe_object_number e = blen entries /\ idx_channel e = channel.

Lemma encode_header_ok n : 0 < n < 2 ^ 32 -> exists count, encode_header n = Ok (str "PACK" ++ [0; 0; 0; 2] ++ count)
  /\ blen count = 4 /\ from_be count = n.
Proof.
  intros Hn. unfold encode_header, u32_max. replace (n =? 0) with false by lia. replace (n <=? 2 ^ 32 - 1) with true by lia.
  exists (be32 n). cbn [negb]. unfold as_u32. rewrite Z.mod_small by lia. split; [by rewrite <- app_assoc|].
  split; [done|]. unfold from_be. apply be32_value. lia.
Qed.

Lemma inner_encode_ok kind window idx leaves' input :
  total_order address_cmp -> Forall (input_ok kind) input -> 0 < blen input < 2 ^ 32 -> 12 + room (map ma_inner input) <= usize_max ->
  let e := mkPackEncoder (blen input) 0 window true [] None idx [] leaves' None 12 kind (HashAlgorithm_new_for_kind kind) None false false in
  exists e', inner_encode little_endian compress diff zstd_diff address_cmp num_threads pack_threads pool_build join_error_text
    e input false true true = (Ok tt, e') /\ packed kind (map ma_inner input) (idx, [], leaves') e'.
Proof.
  intros Haddr Hin Hn Hroom e. unfold inner_encode.
  destruct (encode_header_ok (blen input) Hn) as (count & Hhead & Hcount & _). cbn [pe_object_number e]. rewrite Hhead.
  set (head := str "PACK" ++ [0; 0; 0; 2] ++ count) in *. cbn [unwrap after_ok send_pack_data pack_sender e pack_leaves option_map].
  assert (Hhl : blen head = 12) by (unfold head; rewrite !blen_app, Hcount; done).
  set (e1 := update_hash _ head 0). assert (Hsend : sending e1) by (split; unfold e1, update_hash, e;
    cbn [pack_sender pack_leaves pe_inner_hash pe_hash_kind pack_received inner_offset app concat]; rewrite ?app_nil_r, ?Hhl; done).
  destruct (receive_entries_ok e1 input (mkBuckets [] [] [] []) Hin) as (b & -> & Hperm). cbn [after_ok].
  cbn [commits trees blobs tags app] in Hperm.
  assert (Hsort : Forall sortable (commits b ++ trees b ++ blobs b ++ tags b)).
  { rewrite Hperm. eapply Forall_impl; [exact Hin|]. by intros x (_ & _ & ? & _). }
  rewrite !Forall_app in Hsort. destruct Hsort as (Hsc & Hst & Hsb & Hsg).
  destruct (sort_bucket_ok (commits b) Haddr Hsc) as (cs & -> & Hcs).
  destruct (sort_bucket_ok (trees b) Haddr Hst) as (ts & -> & Hts).
  destruct (sort_bucket_ok (blobs b) Haddr Hsb) as (bs & -> & Hbs).
  destruct (sort_bucket_ok (tags b) Haddr Hsg) as (gs & -> & Hgs). cbn [after_ok].
  set (items := work_items _ _ cs ts bs gs).
  assert (Hitems : Permutation (map ma_inner input) (concat items)).
  { unfold items, work_items. cbn [app concat]. rewrite concat_app, blob_chunks_concat. cbn [concat]. rewrite app_nil_r.
    rewrite <- Hperm, !map_app. by rewrite Hcs, Hts, Hbs, Hgs. }
  destruct (run_delta_search_ok true items) as (all_res & -> & Hw & Hh).
  { rewrite <- Hitems. apply Forall_forall. intros x Hx. apply list_elem_of_fmap in Hx as (y & -> & Hy).
    rewrite Forall_forall in Hin. destruct (Hin y Hy) as (_ & ? & _ & ?). done. }
  { rewrite <- (room_perm _ _ Hitems). lia. }
  cbn [after_ok]. destruct (write_results_ok e1 (concat all_res) [] Hsend) as (e2 & -> & Hs2 & Hc2 & Hr2). cbn [after_ok app].
  assert (Hs3 : sending (set_idx_entries e2 (records 12 (concat all_res)))) by (by destruct Hs2; split).
  destruct (write_checksum_ok _ Hs3) as (e3 & He3 & Hr3 & Hf3 & Hi3 & Hc3).
  change (inner_offset e1) with 12. rewrite He3. cbn [after_ok]. exists e3. split; [done|].
  exists head, (concat items), (concat all_res). unfold blen at 1. rewrite length_map. fold (blen input). split; [done|]. split; [done|].
  split. { apply (written_move compress [] [] 0 12) in Hw; [done|]. intros x Hx. by apply not_elem_of_nil in Hx. }
  split; [done|]. cbn zeta. change (config (set_idx_entries e2 _)) with (config e2) in Hc3. rewrite Hc2 in Hc3.
  assert (Hk2 : pe_hash_kind e2 = kind) by (by injection Hc2). cbn [pack_received set_idx_entries pe_hash_kind pe_idx_entries] in *.
  rewrite Hk2, Hr2 in *. change (pack_received e1) with [head] in *. cbn [app concat] in *. rewrite Hr3, Hf3, Hi3.
  unfold idx_channel. injection Hc3 as -> _ _ _ _ -> -> ->. unfold blen at 2. rewrite length_map. split_and!; try done.
  cbn [concat]. by rewrite concat_snoc, app_assoc.
Qed.

(** ** Without deltas *)

Lemma receive_batch_ok n e input batch :
  Forall (input_ok (pe_hash_kind e)) input ->
  receive_batch n e input batch
  = (Ok (batch ++ map ma_inner (take n input), drop n input), set_process_index e (process_index e + blen (take n input))).
Proof.
  revert e input batch. induction n as [|n IH]; intros e input batch Hi.
  { cbn. rewrite app_nil_r. unfold set_process_index, blen. cbn. rewrite Z.add_0_r. by destruct e. }
  destruct input as [|x input]; cbn [receive_batch].
  { cbn. rewrite app_nil_r. unfold set_process_index, blen. cbn. rewrite Z.add_0_r. by destruct e. }
  apply Forall_cons_1 in Hi as [Hx Hi]. rewrite (check_entry_kind_ok e x Hx).
  replace (ObjectType.is_ai_object _) with false by (destruct Hx as (_ & (Hb & _) & _); by destruct (entry_type (ma_inner x))).
  cbn [after_ok]. rewrite IH by done. cbn [take drop map]. rewrite blen_cons, <- app_assoc. f_equal.
  unfold set_process_index. cbn. f_equal. lia.
Qed.

(** Every entry is encoded whole. *)
Definition whole (entry : Entry) (r : bytes * PackIndex.IndexEntry) : Prop :=
  encode_one_object compress (entry_type entry) (entry_data entry) None = Ok r.1 /\ ie_hash r.2 = entry_hash entry.

Lemma encode_batch_ok batch :
  Forall entry_packable batch -> exists results, encode_batch compress batch = map Ok results /\ Forall2 whole batch results.
Proof.
  induction 1 as [|e batch (Hb & _ & Hl & _) _ (results & IH1 & IH2)]; [by exists []|]. cbn [encode_batch map].
  destruct (encode_one_object_ok compress (entry_type e) (entry_data e) None) as [enc He]; [by destruct (entry_type e)|unfold usize_max; lia|].
  rewrite He. cbn [rbind]. unfold encode_batch in IH1. rewrite IH1. exists ((enc, IndexEntry_new e 0) :: results). split; [done|]. by constructor.
Qed.

Lemma write_batch_results e results acc : write_batch e (map Ok results) acc = write_results e results acc.
Proof.
  revert e acc. induction results as [|[enc i] results IH]; intros e acc; [done|]. cbn [map write_batch write_results after_ok].
  destruct (write_entry e enc i) as [[e1 i1]| | |]; cbn [after_ok]; try done.
Qed.

Lemma records_app offset r1 r2 : records offset (r1 ++ r2) = records offset r1 ++ records (offset + blen (concat r1.*1)) r2.
Proof.
  revert offset. induction r1 as [|[enc i] r1 IH]; intros offset; cbn [app records fmap list_fmap concat].
  - unfold blen. cbn. by rewrite Z.add_0_r.
  - rewrite IH. cbn. rewrite blen_app. by rewrite Z.add_assoc.
Qed.

Lemma whole_written prior offset entries results : Forall2 whole entries results -> written compress prior offset entries results.*1.
Proof.
  intros Hw. revert prior offset. induction Hw as [|e r entries results [He _] _ IH]; intros prior offset; [constructor|].
  cbn. by eapply written_whole.
Qed.

Lemma batch_loop_ok fuel n e input acc :
  (0 < n)%nat -> (length input < fuel)%nat -> sending e -> Forall (input_ok (pe_hash_kind e)) input ->
  exists results e', batch_loop compress fuel n e input acc = (Ok (acc ++ records (inner_offset e) results), e')
    /\ sending e' /\ pack_received e' = pack_received e ++ results.*1 /\ Forall2 whole (map ma_inner input) results
    /\ config e' = (pe_object_number e, pe_window_size e, pe_hash_kind e, start_encoding e, process_index e + blen input, idx_channel e).
Proof.
  intros Hn. revert e input acc. induction fuel as [|fuel IH]; intros e input acc Hf Hs Hi; [lia|]. cbn [batch_loop].
  rewrite receive_batch_ok by done. cbn [after_ok app]. set (e1 := set_process_index e _).
  assert (Hs1 : sending e1) by (by destruct Hs; split).
  destruct input as [|x input].
  { rewrite take_nil. cbn [map]. exists [], e1. cbn [records fmap list_fmap]. rewrite !app_nil_r. split_and!; try done.
    unfold e1. rewrite take_nil. done. }
  destruct n as [|n]; [lia|]. cbn [take drop map]. set (l := x :: take n input) in *.
  assert (Hl : Forall entry_packable (map ma_inner l)).
  { apply Forall_fmap. pose proof (Forall_take _ (S n) _ Hi) as Ht. eapply Forall_impl; [exact Ht|]. by intros y (_ & ? & _). }
  destruct (encode_batch_ok _ Hl) as (r1 & Hr1 & Hw1). change (ma_inner x :: map ma_inner (take n input)) with (map ma_inner l).
  rewrite Hr1. destruct (collect_results_ok r1) as [-> _]. rewrite write_batch_results.
  destruct (write_results_ok e1 r1 acc Hs1) as (e2 & -> & Hs2 & Hc2 & Hrec2). cbn [after_ok].
  injection Hc2 as Hn2 Hwi2 Hk2 Hst2 Hp2 Hx2 Hy2 Hz2. change (pe_hash_kind e1) with (pe_hash_kind e) in *.
  destruct (IH e2 (drop n input) (acc ++ records (inner_offset e1) r1)) as (r2 & e' & -> & Hs' & Hrec' & Hw' & Hc').
  { rewrite length_drop. cbn in Hf. lia. }
  { done. }
  { rewrite Hk2. apply Forall_cons_1 in Hi as [_ Hi]. by apply Forall_drop. }
  exists (r1 ++ r2), e'. change (inner_offset e1) with (inner_offset e).
  assert (Hoff : inner_offset e2 = inner_offset e + blen (concat r1.*1)).
  { rewrite (se_offset _ Hs2), (se_offset _ Hs), Hrec2, concat_app, blen_app. done. }
  rewrite records_app, app_assoc, Hoff. split; [done|]. split; [done|].
  split; [by rewrite Hrec', Hrec2, fmap_app, app_assoc|]. split.
  - assert (Hsplit : map ma_inner (x :: input) = map ma_inner l ++ map ma_inner (drop n input)).
    { rewrite <- map_app. unfold l. cbn [app]. by rewrite take_drop. }
    change (Forall2 whole (map ma_inner (x :: input)) (r1 ++ r2)). rewrite Hsplit. by apply Forall2_app.
  - rewrite Hc'. unfold idx_channel. rewrite Hn2, Hwi2, Hk2, Hst2, Hp2, Hx2, Hy2, Hz2. unfold e1.
    cbn [pe_object_number pe_window_size pe_hash_kind start_encoding process_index set_process_index idx_sender idx_received idx_leaves].
    cbn [take]. fold l. do 2 f_equal. rewrite <- (take_drop n input) at 2. rewrite blen_cons, blen_app. unfold l. rewrite blen_cons. lia.
Qed.

Lemma parallel_encode_ok kind cap idx leaves' input :
  Forall (input_ok kind) input -> 0 < blen input < 2 ^ 32 ->
  let e := mkPackEncoder (blen input) 0 0 true [] None idx [] leaves' None 12 kind (HashAlgorithm_new_for_kind kind) None false false in
  exists e', parallel_encode compress cap e input = (Ok tt, e') /\ packed kind (map ma_inner input) (idx, [], leaves') e'.
Proof.
  intros Hin Hn e. unfold parallel_encode. cbn [pe_window_size e]. cbn [Z.eqb negb].
  destruct (encode_header_ok (blen input) Hn) as (count & Hhead & Hcount & _). cbn [pe_object_number e]. rewrite Hhead.
  set (head := str "PACK" ++ [0; 0; 0; 2] ++ count) in *.
  assert (Hhl : blen head = 12) by (unfold head; rewrite !blen_app, Hcount; done).
  cbn [unwrap after_ok send_pack_data pack_sender update_hash e pack_leaves option_map].
  set (e1 := mkPackEncoder _ _ _ _ _ _ _ _ _ _ _ _ _ _ _ _). cbn [start_encoding e1].
  assert (Hsend : sending e1) by (split; unfold e1, update_hash, e;
    cbn [pack_sender pack_leaves pe_inner_hash pe_hash_kind pack_received inner_offset app concat]; rewrite ?app_nil_r, ?Hhl; done).
  destruct (batch_loop_ok (S (length input)) (Z.to_nat (Z.max 1000 (cap / 10))) e1 input []) as (res & e2 & -> & Hs2 & Hrec & Hw & Hc);
    [lia|lia|done|done|]. cbn [after_ok app]. assert (Hn2 : pe_object_number e2 = blen input) by (by injection Hc).
  assert (Hp2 : process_index e2 = blen input) by (by injection Hc). assert (Hk2 : pe_hash_kind e2 = kind) by (by injection Hc).
  rewrite Hn2, Hp2, Z.eqb_refl. cbn [negb].
  destruct (write_checksum_ok _ Hs2) as (e3 & He3 & Hr3 & Hf3 & _ & Hc3). rewrite He3. cbn [after_ok].
  eexists. split; [done|]. exists head, (map ma_inner input), res. split; [unfold blen at 1; rewrite length_map; fold (blen input); done|].
  split; [done|]. split; [by apply whole_written|].
  split. { clear -Hw. induction Hw as [|x r l l' [_ Hx] _ IH]; [done|]. cbn. by rewrite Hx, <- IH. }
  cbn zeta. cbn [pack_received final_hash pe_idx_entries pe_object_number set_idx_entries].
  rewrite Hr3, Hf3, Hk2, Hrec. change (pack_received e1) with [head]. unfold idx_channel.
  cbn [idx_sender idx_received idx_leaves set_idx_entries]. rewrite Hc in Hc3. injection Hc3 as -> _ _ _ _ -> -> ->.
  unfold blen at 2. rewrite length_map. cbn [app concat]. split_and!; try done. by rewrite concat_snoc, app_assoc.
Qed.

Lemma encode_pack_ok kind cap window leaves' input :
  total_order address_cmp -> Forall (input_ok kind) input -> 0 < blen input < 2 ^ 32 -> 12 + room (map ma_inner input) <= usize_max ->
  exists e, encode_pack little_endian compress diff zstd_diff address_cmp num_threads pack_threads pool_build join_error_text cap
    (new_with_idx_and_hash_kind kind (blen input) window None leaves') input = (Ok tt, e)
    /\ packed kind (map ma_inner input) (true, [], leaves') e.
Proof.
  intros. unfold encode_pack. cbn [pe_window_size new_with_idx_and_hash_kind]. destruct (window =? 0) eqn:Ew.
  - apply Z.eqb_eq in Ew as ->. by apply parallel_encode_ok.
  - by apply inner_encode_ok.
Qed.

(** An encoder without a channel for the index. *)
Lemma encode_pack_plain_ok kind cap window input :
  total_order address_cmp -> Forall (input_ok kind) input -> 0 < blen input < 2 ^ 32 -> 12 + room (map ma_inner input) <= usize_max ->
  exists e, encode_pack little_endian compress diff zstd_diff address_cmp num_threads pack_threads pool_build join_error_text cap
    (new_with_hash_kind kind (blen input) window None) input = (Ok tt, e)
    /\ packed kind (map ma_inner input) (false, [], None) e.
Proof.
  intros. unfold encode_pack. cbn [pe_window_size new_with_hash_kind]. destruct (window =? 0) eqn:Ew.
  - apply Z.eqb_eq in Ew as ->. by apply parallel_encode_ok.
  - by apply inner_encode_ok.
Qed.

End sending.

(** * The round trip *)

(** Deltas by offset determine what they stand for. *)
Lemma offset_resolves_det rebuild objs o r r' :
  NoDup (offsets objs) -> (forall d b r, rebuild d b = Ok r -> is_base d = false -> co_offset r = co_offset d) ->
  (forall d dep, d ∈ objs -> dep_of d = Some dep -> exists off, dep = OnOffset off) ->
  resolves rebuild objs o r -> resolves rebuild objs o r' -> r = r'.
Proof.
  intros Hnd Hrb Hdep Hr.
  assert (Hbase : forall x dep, dep_of x = Some dep -> is_base x = false).
  { intros x dep. unfold dep_of, is_base. by destruct (info x). }
  assert (Hoff : forall o r, resolves rebuild objs o r -> co_offset r = co_offset o)
    by (intros ? ? [|]; [done|by eapply Hrb; eauto]).
  assert (Hin : forall o r, resolves rebuild objs o r -> o ∈ objs) by (by intros ? ? []).
  assert (Huniq : forall a b, a ∈ objs -> b ∈ objs -> co_offset a = co_offset b -> a = b).
  { intros a b Ha Hb E. apply list_elem_of_lookup in Ha as [i Hi], Hb as [j Hj].
    assert (i = j) as ->; [|congruence]. eapply NoDup_lookup; [exact Hnd|unfold offsets; rewrite list_lookup_fmap, Hi; done|].
    unfold offsets. rewrite list_lookup_fmap, Hj. cbn. by rewrite E. }
  revert r'. induction Hr as [o Ho Hb|d dep b b' r Hd Hdp Hres IH Hp Hrr]; intros r' Hr'.
  - destruct Hr' as [|d dep c c' r' Hd' Hdp']; [done|]. apply Hbase in Hdp'. congruence.
  - destruct Hr' as [o' ? Hb'|d dep' c c' r' _ Hdp' Hres' Hp' Hrr']; [apply Hbase in Hdp; congruence|].
    assert (dep' = dep) as -> by congruence. destruct (Hdep d dep Hd Hdp) as [off ->]. cbn in Hp, Hp'.
    assert (b = c) as -> by (apply Huniq; [by eapply Hin|by eapply Hin|]; rewrite <- (Hoff _ _ Hres), <- (Hoff _ _ Hres'); congruence).
    assert (b' = c') as -> by (by apply IH). congruence.
Qed.

Lemma rebuild_offset `{TextEnv} `{HexCrate} `{Hasher} `{Allocator} delta_error_text zstdelta_apply d b r :
  rebuild delta_error_text zstdelta_apply d b = Ok r -> is_base d = false -> co_offset r = co_offset d.
Proof.
  unfold rebuild, rebuild_delta_with_hash, rebuild_zstdelta_with_hash, rebuilt, is_base. intros Hr Hb.
  destruct (info d); [discriminate Hb|..]; ok_inv; done.
Qed.

Section roundtrip.
Context `{Build} `{TextEnv} `{HexCrate} `{HasherLaws} `{ZlibLaws deflated zpending} `{!ZlibConsumes} `{Crc32} `{Allocator} `{LruCache}.
Context (delta_error_text : GitDeltaError -> bytes) (zstdelta_apply : bytes -> bytes -> Res bytes bytes).
Context (compress : bytes -> bytes) (Hdeflate : forall d, deflated (compress d) d).
Context (p : SharedParams) (kind : HashKind.t).
Abbreviation rb := (rebuild delta_error_text zstdelta_apply).

(** Only offset deltas are written. *)
Lemma written_objects prior offset entries encs rest objs :
  written compress prior offset entries encs -> 0 <= offset -> offset + blen (concat encs) <= usize_max ->
  Forall (fun b => 0 <= pl_offset b) prior -> Forall entry_packable entries ->
  read_objects p kind (length entries) (concat encs ++ rest) offset = Ok (objs, rest) ->
  forall d dep, d ∈ objs -> dep_of d = Some dep -> exists off, dep = OnOffset off.
Proof.
  intros Hw. revert objs. induction Hw as [|prior offset e enc entries encs He Hw IH
    |prior offset e b delta enc entries encs Hb Ht Hd Ho Hs Hdec He Hw IH]; intros objs Hoff Hend Hprior Hp.
  { intros [= <-] d dep Hin. by apply not_elem_of_nil in Hin. }
  all: apply Forall_cons_1 in Hp as [(Hbase & Hbytes & Hlen & _) Hp]; cbn [concat length read_objects] in *; rewrite <- app_assoc.
  all: rewrite blen_app in Hend; pose proof (blen_nonneg enc) as Henc; pose proof (blen_nonneg (concat encs)) as Hencs.
  all: destruct (base_label _ Hbase) as [label Hlabel].
  - destruct (base_entry_object compress kind (entry_type e) label (entry_data e) (concat encs ++ rest) offset (callback p)
      (skip_unneeded_objects p) (callback p && low_memory p) Hbase Hlabel) as (enc' & He' & Hd); [unfold isize_max; lia|done|].
    assert (enc' = enc) as -> by congruence. rewrite Hd. cbn [rbind].
    destruct (read_objects _ _ _ _ _) as [[l s]| | |] eqn:El; try discriminate. cbn [rbind option_list app]. intros [= <- ->] d dep Hin Hdep.
    apply elem_of_cons in Hin as [-> |Hin]; [discriminate|]. refine (IH l _ _ _ _ eq_refl d dep Hin Hdep); [lia|lia|by constructor|done].
  - assert (Hpos : 0 <= pl_offset b) by (rewrite Forall_forall in Hprior; by apply Hprior).
    destruct (delta_entry_object compress kind (pl_data b) delta (entry_data e) (concat encs ++ rest) offset (offset - pl_offset b) (callback p)
      (skip_unneeded_objects p) (callback p && low_memory p) None None) as (enc' & He' & Hdo); try done; try lia; [unfold isize_max; lia|].
    assert (enc' = enc) as -> by congruence. rewrite Hdo. cbn [rbind].
    destruct (read_objects _ _ _ _ _) as [[l s]| | |] eqn:El; try discriminate. cbn [rbind option_list app]. intros [= <- ->] d dep Hin Hdep.
    apply elem_of_cons in Hin as [-> |Hin]; [injection Hdep as <-; by eexists|]. refine (IH l _ _ _ _ eq_refl d dep Hin Hdep); [lia|lia|by constructor|done].
Qed.

Lemma check_header_written count rest :
  blen count = 4 -> check_header ((str "PACK" ++ [0; 0; 0; 2] ++ count) ++ rest)
  = Ok ((from_be count, str "PACK" ++ [0; 0; 0; 2] ++ count), rest).
Proof.
  intros Hc. unfold check_header, read_field. rewrite <- !app_assoc, (read_exact_app 4 (str "PACK")) by done. cbn [map_err rbind].
  rewrite bool_decide_true by done. cbn [negb]. rewrite (read_exact_app 4 [0; 0; 0; 2]) by done. cbn [map_err rbind].
  change (from_be [0; 0; 0; 2]) with 2. cbn [Z.eqb Pos.eqb negb]. rewrite (read_exact_app 4 count) by done. cbn [map_err rbind].
  by rewrite <- app_assoc.
Qed.

Lemma read_object_id_written body :
  let h := ObjectHash_new_for_kind kind body in
  blen (ObjectHash.to_data h) = HashKind.size kind /\ read_object_id kind (ObjectHash.to_data h) = Ok (h, []).
Proof.
  cbn zeta. destruct (ObjectHash_new_for_kind_wf kind body) as [Hk Hwf]. set (h := ObjectHash_new_for_kind kind body) in *.
  assert (Hsize : blen (ObjectHash.to_data h) = HashKind.size kind).
  { destruct Hwf as [Hs _]. unfold ObjectHash.to_data. rewrite Hs, <- Hk. by destruct h. }
  assert (Hpos : 0 < HashKind.size kind) by (destruct kind; cbn; lia). split; [done|].
  unfold read_object_id. destruct (ObjectHash.to_data h) as [|x d] eqn:Ed; [rewrite blen_nil in Hsize; lia|].
  pose proof (from_stream_for_kind_chunks kind [Chunk (x :: d)]) as Hf. cbn [stream_data app] in Hf. rewrite app_nil_r, Hsize, Z.leb_refl in Hf.
  destruct Hf as (h' & evs' & -> & Hk' & Hd & Hs); [by repeat constructor|]. cbn [map_err rbind].
  assert (Hrest : stream_data evs' = []).
  { apply (f_equal blen) in Hd. rewrite blen_app, Hs, Hsize in Hd. destruct (stream_data evs'); [done|]. blens. }
  rewrite Hrest, app_nil_r in Hd. assert (h' = h) as ->; [|by rewrite Hrest].
  rewrite <- Hk in Hk'. clear -Hk' Hd Ed. unfold ObjectHash.to_data in Ed. rewrite <- Ed in Hd. destruct h, h'; cbn in *; congruence.
Qed.

Lemma slice_front {A} (body tail : list A) : slice (body ++ tail) 0 (blen (body ++ tail) - blen tail) = body.
Proof.
  rewrite blen_app. replace (_ + _ - _) with (blen body) by lia. unfold slice. rewrite Z.sub_0_r. change (Z.to_nat 0) with 0%nat.
  by rewrite drop_0, take_blen_app.
Qed.

Lemma read_trailer_written body :
  let h := ObjectHash_new_for_kind kind body in
  read_trailer kind streaming (body ++ ObjectHash.to_data h) (ObjectHash.to_data h) = Ok h.
Proof.
  cbn zeta. destruct (read_object_id_written body) as [_ Hr]. cbn zeta in Hr. unfold read_trailer. rewrite Hr. cbn [map_err rbind].
  rewrite slice_front. cbn [expected_pack_hash streaming rbind verify_pack_stream_hash]. by rewrite bool_decide_true.
Qed.

(** ** The pack is readable *)

Context (mem : option Z) (entries : list Entry) (e : PackEncoder).
Context (Hcompress : compress_bounded compress) (channel : bool * list bytes * option nat) (Hpacked : packed compress kind entries channel e).
Context (Hpackable : Forall entry_packable entries) (Hnumber : 0 < blen entries < 2 ^ 32) (Hroom : 12 + room entries <= usize_max).
Context (Hnames : Forall (fun x => entry_hash x = object_id kind (entry_type x) (entry_data x)) entries).
Context (Hnodup : NoDup (map entry_hash entries)).
Context (Hfits : mem = None -> forall rs, Forall (fun r => exists x, x ∈ entries /\ stands_for kind x r) rs ->
  NoDup (map base_object_hash rs) -> footprint rs <= usize_max).

Lemma packed_objects : exists objs entries', Permutation entries entries'
  /\ (exists header rest entries_bytes signature,
       check_header (concat (pack_received e)) = Ok ((blen entries, header), entries_bytes)
       /\ read_objects p kind (Z.to_nat (blen entries)) entries_bytes 12 = Ok (objs, rest)
       /\ read_trailer kind streaming (concat (pack_received e)) rest = Ok signature)
  /\ Forall2 (fun x o => exists r, resolves rb objs o r /\ stands_for kind x r /\ co_offset r = co_offset o) entries' objs
  /\ (forall d dep, d ∈ objs -> dep_of d = Some dep -> exists off, dep = OnOffset off).
Proof.
  destruct Hpacked as (head & entries' & results & Hhead & Hperm & Hw & _ & Hsent & _). cbn zeta in Hsent.
  assert (Hp' : Forall entry_packable entries') by (by rewrite <- Hperm).
  assert (Hsz : blen (concat results.*1) <= room entries).
  { rewrite (room_perm _ _ Hperm). eapply (written_size compress [] 12); try done. by rewrite <- (room_perm _ _ Hperm). }
  set (h := ObjectHash_new_for_kind kind (head ++ concat results.*1)) in *.
  destruct (written_reads delta_error_text zstdelta_apply compress Hdeflate p kind [] 12 entries' results.*1 (ObjectHash.to_data h) Hw)
    as (objs & Hr & Hall); [lia|lia|done|done|].
  assert (Hlen : length entries' = Z.to_nat (blen entries)) by (unfold blen; rewrite Nat2Z.id; by rewrite Hperm).
  exists objs, entries'. split; [done|]. split; [|split].
  - destruct (encode_header_ok (blen entries) Hnumber) as (count & Hh & Hc & Hbe). assert (Hd : head = str "PACK" ++ [0; 0; 0; 2] ++ count) by congruence.
    exists head, (ObjectHash.to_data h), (concat results.*1 ++ ObjectHash.to_data h), h.
    rewrite Hsent. split; [|split].
    + rewrite <- app_assoc, Hd, check_header_written by done. by rewrite Hbe.
    + by rewrite <- Hlen.
    + by apply read_trailer_written.
  - by apply Hall.
  - eapply (written_objects [] 12); try done; lia.
Qed.

Lemma stands_for_name x r : stands_for kind x r -> x ∈ entries -> base_object_hash r = Some (entry_hash x).
Proof.
  intros [Hi _] Hx. unfold base_object_hash. rewrite Hi. rewrite Forall_forall in Hnames. by rewrite Hnames.
Qed.

Lemma packed_readable : exists objs entries',
  readable delta_error_text zstdelta_apply p kind mem (concat (pack_received e)) (blen entries) objs
  /\ Permutation entries entries'
  /\ Forall2 (fun x o => forall r, resolves rb objs o r -> stands_for kind x r) entries' objs
  /\ (forall o, o ∈ objs -> exists r, resolves rb objs o r).
Proof.
  destruct packed_objects as (objs & entries' & Hperm & Hparts & Hall & Hdeps). exists objs, entries'.
  destruct Hparts as (header & rest & bytes & signature & Hheader & Hread & Htrailer).
  destruct (read_objects_ok _ _ _ _ _ _ _ Hread) as (_ & _ & Hoffs & _).
  assert (Hdet : forall o r r', resolves rb objs o r -> resolves rb objs o r' -> r = r').
  { intros o r r'. apply offset_resolves_det; [done| |done]. intros d b r0. apply rebuild_offset. }
  assert (Hof : forall i o r, objs !! i = Some o -> resolves rb objs o r -> exists x, entries' !! i = Some x /\ x ∈ entries
    /\ stands_for kind x r /\ co_offset r = co_offset o).
  { intros i o r Hi Hr. destruct (Forall2_lookup_r _ _ _ _ _ Hall Hi) as (x & Hx & r' & Hr' & Hst & Ho).
    rewrite <- (Hdet _ _ _ Hr' Hr). exists x. split; [done|]. split; [|done]. rewrite Hperm. by eapply list_elem_of_lookup_2. }
  assert (Hin : forall o r, resolves rb objs o r -> exists i, objs !! i = Some o).
  { intros o r Hr. apply list_elem_of_lookup. by destruct Hr. }
  assert (Hnd' : NoDup (map entry_hash entries')) by (by rewrite <- Hperm).
  assert (Hinj : forall o1 r1 o2 r2, resolves rb objs o1 r1 -> resolves rb objs o2 r2 ->
    base_object_hash r1 = base_object_hash r2 -> co_offset o1 = co_offset o2).
  { intros o1 r1 o2 r2 Hr1 Hr2 E. destruct (Hin _ _ Hr1) as [i Hi], (Hin _ _ Hr2) as [j Hj].
    destruct (Hof i o1 r1 Hi Hr1) as (x & Hx & Hx' & Hs1 & _), (Hof j o2 r2 Hj Hr2) as (y & Hy & Hy' & Hs2 & _).
    rewrite (stands_for_name x r1), (stands_for_name y r2) in E by done. injection E as E.
    assert (i = j) as ->; [|congruence]. eapply NoDup_lookup; [exact Hnd'|rewrite list_lookup_fmap, Hx; done|].
    rewrite list_lookup_fmap, Hy. cbn. by rewrite E. }
  split; [split|split; [done|split]].
  - lia.
  - by exists header, bytes, rest, signature.
  - exact Hinj.
  - intros Hmem rs Hrs Hnd. apply Hfits; [done| |].
    + eapply Forall_impl; [exact Hrs|]. cbn. intros r [o Ho]. destruct (Hin _ _ Ho) as [i Hi].
      destruct (Hof i o r Hi Ho) as (x & _ & Hx & Hs & _). by exists x.
    + clear -Hrs Hnd Hinj Hof Hin. induction Hrs as [|r rs [o Ho] Hrs IH]; [constructor|]. cbn in *.
      apply NoDup_cons in Hnd as [Hni Hnd]. constructor; [|by apply IH]. intros Hx. apply Hni.
      apply list_elem_of_fmap in Hx as (r' & E & Hr'). rewrite Forall_forall in Hrs. destruct (Hrs r' Hr') as [o' Ho'].
      apply list_elem_of_fmap. exists r'. split; [|done].
      destruct (Hin _ _ Ho) as [i Hi], (Hin _ _ Ho') as [j Hj].
      destruct (Hof i o r Hi Ho) as (_ & _ & _ & _ & ->), (Hof j o' r' Hj Ho') as (_ & _ & _ & _ & ->). by eapply Hinj.
  - eapply Forall2_impl; [exact Hall|]. cbn. intros x o (r & Hr & Hst & _) r' Hr'. by rewrite <- (Hdet _ _ _ Hr Hr').
  - intros o Ho. apply list_elem_of_lookup in Ho as [i Hi]. destruct (Forall2_lookup_r _ _ _ _ _ Hall Hi) as (x & _ & r & Hr & _).
    by exists r.
Qed.

End roundtrip.

(** An entry as a decoder delivers it: the length of its delta chain is not kept. *)
Definition plain_entry (x : MetaAttached Entry EntryMeta) : Entry :=
  mkEntry (entry_type (ma_inner x)) (entry_data (ma_inner x)) (entry_hash (ma_inner x)) 0.

(** What the callback gets for objects that stand for the given entries. *)
Lemma delivered_entries `{Hasher} p kind entries rs ds :
  low_memory p = false -> Forall (fun x => entry_hash x = object_id kind (entry_type x) (entry_data x)) entries ->
  Forall2 (stands_for kind) entries rs -> Permutation (map Ok ds) (map (callback_entry_ref p) rs) ->
  Permutation (map ma_inner ds) (map (fun x => mkEntry (entry_type x) (entry_data x) (entry_hash x) 0) entries).
Proof.
  intros Hl Hn Hst Hp.
  assert (Hrs : exists ms, map (callback_entry_ref p) rs = map Ok ms
    /\ map ma_inner ms = map (fun x => mkEntry (entry_type x) (entry_data x) (entry_hash x) 0) entries).
  { clear Hp. induction Hst as [|x r entries rs [Hi Hd] _ IH]; [by exists []|]. apply Forall_cons_1 in Hn as [Hx Hn].
    destruct (IH Hn) as (ms & E1 & E2). cbn [map]. rewrite E1. unfold callback_entry_ref, to_entry_metadata. rewrite Hl, Hi. cbn [negb].
    eexists (_ :: ms). split; [done|]. cbn [map ma_inner]. by rewrite E2, Hd, Hx. }
  destruct Hrs as (ms & E1 & E2). rewrite E1 in Hp. apply Permutation_map_inv in Hp as (l & El & Hp).
  assert (l = ds) as ->. { clear -El. revert ds El. induction l as [|a l IH]; intros [|d ds] E; try done. injection E as -> E. by rewrite (IH ds). }
  rewrite <- E2. by apply Permutation_map.
Qed.

(** What was packed is what a decoder delivers, under every schedule of its threads. *)
Lemma packed_decodes `{Build} `{TextEnv} `{HexCrate} `{!HexLaws} `{Hasher} `{!HasherLaws} `{ZlibDecoder}
  {deflated : bytes -> bytes -> Prop} {zpending : zdec -> bytes -> bytes -> Prop} `{!ZlibLaws deflated zpending} `{!ZlibConsumes}
  `{Crc32} `{LruCache} `{!LruLaws} `{Allocator}
  (delta_error_text : GitDeltaError -> bytes) (zstdelta_apply : bytes -> bytes -> Res bytes bytes) (compress : bytes -> bytes)
  (kind : HashKind.t) (input : list (MetaAttached Entry EntryMeta)) (mem : option Z) channel (e : PackEncoder) :
  compress_bounded compress -> (forall d, deflated (compress d) d) -> zstd_sane zstdelta_apply ->
  Forall (fun x => entry_packable (ma_inner x)) input ->
  Forall (fun x => entry_hash x = object_id kind (entry_type x) (entry_data x)) (map ma_inner input) ->
  NoDup (map entry_hash (map ma_inner input)) -> 0 < blen input < 2 ^ 32 -> 12 + room (map ma_inner input) <= usize_max ->
  (mem = None -> forall rs, Forall (fun r => exists x, x ∈ map ma_inner input /\ stands_for kind x r) rs ->
     NoDup (map base_object_hash rs) -> footprint rs <= usize_max) ->
  packed compress kind (map ma_inner input) channel e ->
  forall p tmp counts pack_id_callback k st, retention p = false -> callback p = true -> low_memory p = false ->
     steps delta_error_text zstdelta_apply p k
       (initial p kind streaming mem tmp counts pack_id_callback (concat (pack_received e))) st ->
     (k <= 17 * length input + 8)%nat
     /\ ((forall st', ~ step delta_error_text zstdelta_apply p st st') -> exists r, main st = Return r)
     /\ forall r, main st = Return r -> r = Ok tt
        /\ Permutation (map ma_inner (delivered (shared st))) (map plain_entry input).
Proof.
  intros Hc Hdeflate Hz Hin Hnames Hnodup Hn Hroom Hfits Hpacked p tmp counts cb k st Hret Hcb Hlow Hst.
  assert (Hblen : blen (map ma_inner input) = blen input) by (unfold blen; by rewrite length_map).
  assert (Hpackable : Forall entry_packable (map ma_inner input)) by (by apply Forall_fmap).
  destruct (packed_readable delta_error_text zstdelta_apply compress Hdeflate p kind mem (map ma_inner input) e Hc channel) as
    (objs & entries' & Hrd & Hperm & Hall & Hres); try done; [by rewrite Hblen|].
  rewrite Hblen in Hrd.
  destruct (stream_inv _ _ _ _ _ _ _ _ _ _ _ _ _ Hret Hz Hrd Hst) as (tail & rest & sg & m & Ht & Hi & Hm).
  pose proof (readable_pack_ok _ _ _ _ _ _ _ _ Hz Hrd) as Hok.
  split; [unfold blen in Hm; rewrite Nat2Z.id in Hm; lia|]. split.
  - intros Hno. destruct (machine_final _ _ _ Hret _ _ _ Hok _ _ _ _ _ Ht m st Hi Hno) as (r & Hr & _). by exists r.
  - intros r Hr. pose proof (machine_returned _ _ _ Hret _ _ _ Hok _ _ _ _ _ Ht m st r Hi Hr) as Ho.
    destruct r as [[]|err| |]; cbn in Ho; try done. split; [done|]. destruct Ho as (rs & Hrs & Hd). rewrite Hcb in Hd.
    rewrite (delivered_entries p kind entries' rs); try done.
    + rewrite <- Hperm. by rewrite map_map.
    + by rewrite <- Hperm.
    + clear -Hall Hrs. assert (Hgen : forall l : list CacheObject, Forall2 (fun x o => forall r, resolves (rebuild delta_error_text zstdelta_apply) objs o r -> stands_for kind x r) entries' l ->
        Forall2 (resolves (rebuild delta_error_text zstdelta_apply) objs) l rs -> Forall2 (stands_for kind) entries' rs).
      { clear Hall Hrs. intros l Hl. revert rs. induction Hl as [|x o entries' l Hx _ IH]; intros rs Hr; inversion Hr; subst; constructor; auto. }
      by apply (Hgen objs).
Qed.


(** ** A concrete pack *)

Definition toy_object (data : bytes) : MetaAttached Entry EntryMeta :=
  mkMetaAttached _ _ (mkEntry ObjectType.Blob data (@object_id toy_hasher HashKind.Sha1 ObjectType.Blob data) 0) EntryMeta_new.

Definition toy_input : list (MetaAttached Entry EntryMeta) := [toy_object [1; 2; 3]; toy_object [4; 5]].

Definition toy_ahash : AHash := fun b => fold_left Z.add b 0.

Abbreviation toy_encode := (@encode_pack true plain_texts hex_reference toy_hasher toy_crc toy_ahash insertion_sort true stored_compress
  (fun _ _ => []) (fun _ _ => Err []) (fun _ _ => Eq) 8 None (fun _ => Ok tt) [] 1024).


(** * The index of the pack *)

(** Where an index record points: the encoding of an object of that name, with that CRC. *)
Definition locates `{Crc32} (pack : bytes) (i : PackIndex.IndexEntry) : Prop :=
  exists before enc after, pack = before ++ enc ++ after /\ ie_offset i = blen before /\ crc32 i = calculate_crc32 enc /\ 0 < blen enc.

Lemma records_locate `{Crc32} results before after :
  Forall (fun r => 0 < blen r.1) results -> blen (before ++ concat results.*1) <= usize_max ->
  Forall (locates (before ++ concat results.*1 ++ after)) (records (blen before) results)
  /\ Forall (fun i => blen before <= ie_offset i < blen before + blen (concat results.*1)) (records (blen before) results)
  /\ NoDup (map ie_offset (records (blen before) results)) /\ map ie_hash (records (blen before) results) = map ie_hash results.*2.
Proof.
  revert before. induction results as [|[enc i] results IH]; intros before Hpos Hfit; [repeat split; constructor|].
  apply Forall_cons_1 in Hpos as [Henc Hpos]. cbn [fst] in Henc. cbn [records fmap list_fmap concat map ie_hash ie_offset fst snd] in *.
  pose proof (blen_nonneg before). pose proof (blen_nonneg (concat results.*1)).
  assert (Hoff : as_u64 (blen before) = blen before) by (unfold as_u64; rewrite Z.mod_small; [done|]; rewrite !blen_app in Hfit; unfold usize_max in Hfit; lia).
  destruct (IH (before ++ enc) Hpos) as (Hl & Hge & Hnd & Hh); [by rewrite <- app_assoc|].
  rewrite blen_app, <- !app_assoc in *. rewrite Hoff. split_and!.
  - constructor; [|done]. exists before, enc, (concat results.*1 ++ after). done.
  - constructor; [cbn [ie_offset]; lia|]. eapply Forall_impl; [exact Hge|]. cbn beta. intros. lia.
  - constructor; [|done]. intros Hin. apply list_elem_of_fmap in Hin as (x & Ex & Hx). rewrite Forall_forall in Hge. specialize (Hge x Hx). lia.
  - by rewrite Hh.
Qed.

Lemma written_positive `{Allocator} compress prior offset entries encs :
  Forall entry_packable entries -> Forall (fun b => 0 <= pl_offset b) prior -> 0 <= offset -> offset + blen (concat encs) <= usize_max ->
  written compress prior offset entries encs -> Forall (fun enc => 0 < blen enc) encs.
Proof.
  intros Hp Hpr Ho Hend Hw. revert Hp Hpr Ho Hend. induction Hw as [|prior offset e enc entries encs He Hw IH
    |prior offset e b delta enc entries encs Hb Ht Hd Hbo Hs Hdec He Hw IH]; intros Hp Hpr Ho Hend; [constructor|..].
  all: apply Forall_cons_1 in Hp as [(Hbase & _) Hp]; cbn [concat] in Hend; rewrite blen_app in Hend;
    pose proof (blen_nonneg enc); pose proof (blen_nonneg (concat encs)).
  - pose proof (encode_one_object_size _ _ _ _ _ (base_packable _ Hbase) He). constructor; [lia|]. apply IH; try done; [by constructor|lia|lia].
  - assert (Hb0 : 0 <= pl_offset b) by (rewrite Forall_forall in Hpr; by apply Hpr).
    assert (Hpk : packable ObjectType.OffsetDelta (Some (offset - pl_offset b))) by (cbn; lia).
    pose proof (encode_one_object_size _ _ _ _ _ Hpk He). constructor; [lia|]. apply IH; try done; [by constructor|lia|lia].
Qed.

(** The index of what was packed: its records are those of the entries, in another order. *)
Lemma packed_index `{Build} `{TextEnv} `{HexCrate} `{Hasher} `{!HasherLaws} `{Crc32} `{Allocator} compress kind input e :
  compress_bounded compress -> (forall b, 0 <= calculate_crc32 b < 2 ^ 32) -> Forall (input_ok kind) input ->
  Forall (fun x => hash_wf (entry_hash (ma_inner x))) input ->
  NoDup (map entry_hash (map ma_inner input)) -> 0 < blen input < 2 ^ 31 -> 12 + room (map ma_inner input) <= usize_max ->
  packed compress kind (map ma_inner input) (true, [], None) e ->
  exists e' i head entries' results, let h := ObjectHash_new_for_kind kind (head ++ concat results.*1) in
    encode_idx_file e = Ok e' /\ parse_idx_v2 (concat (idx_received e')) kind = Ok i /\ idx_pack_hash i = h
    /\ encode_header (blen (map ma_inner input)) = Ok head /\ blen head = 12 /\ Permutation (map ma_inner input) entries'
    /\ Forall entry_packable entries' /\ written compress [] 12 entries' results.*1 /\ 12 + blen (concat results.*1) <= usize_max
    /\ concat (pack_received e) = (head ++ concat results.*1) ++ ObjectHash.to_data h
    /\ Permutation (idx_entries i) (records 12 results) /\ map ie_hash (records 12 results) = map entry_hash entries'
    /\ Forall (locates (concat (pack_received e))) (records 12 results)
    /\ NoDup (map ie_offset (records 12 results)) /\ Forall (fun r => 0 <= ie_offset r < 2 ^ 64) (records 12 results)
    /\ exists rest, concat (idx_received e') = be32 IDX_MAGIC ++ rest.
Proof.
  intros Hc Hcrc Hin Hwf Hnd Hn Hroom Hpacked.
  destruct Hpacked as (head & entries' & results & Hhead & Hperm & Hw & Hhs & Hsent & Hfinal & Hidx & Hnum & Hchan). cbn zeta in *.
  set (h := ObjectHash_new_for_kind kind (head ++ concat results.*1)) in *.
  destruct (ObjectHash_new_for_kind_wf kind (head ++ concat results.*1)) as [Hk Hhwf]. fold h in Hk, Hhwf.
  assert (Hpackable : Forall entry_packable entries').
  { rewrite <- Hperm. apply Forall_fmap. eapply Forall_impl; [exact Hin|]. by intros x (_ & ? & _). }
  assert (Hblen : blen (map ma_inner input) = blen input) by (unfold blen; by rewrite length_map).
  assert (Hsz : blen (concat results.*1) <= room (map ma_inner input)).
  { rewrite (room_perm _ _ Hperm). eapply (written_size compress [] 12); try done. by rewrite <- (room_perm _ _ Hperm). }
  destruct (encode_header_ok (blen (map ma_inner input))) as (count & Hh & Hcount & _); [lia|].
  assert (Hhl : blen head = 12) by (replace head with (str "PACK" ++ [0; 0; 0; 2] ++ count) by congruence; rewrite !blen_app, Hcount; done).
  destruct (records_locate results head (ObjectHash.to_data h)) as (Hloc & Hrange & Hndo & Hmap).
  { pose proof (written_positive compress [] 12 entries' results.*1 Hpackable ltac:(constructor) ltac:(lia) ltac:(lia) Hw) as Hp.
    by rewrite Forall_fmap in Hp. }
  { rewrite blen_app. lia. }
  rewrite Hhl in Hloc, Hrange, Hndo, Hmap. rewrite Hhs in Hmap.
  set (l := records 12 results) in *.
  assert (Hll : blen l = blen input).
  { apply (f_equal length) in Hmap. rewrite !length_map in Hmap. unfold blen. rewrite Hmap, <- Hperm. by rewrite length_map. }
  assert (Hkinds : Forall (fun x => ObjectHash.kind x = kind /\ hash_wf x) (map ie_hash l)).
  { rewrite Hmap, <- Hperm. rewrite !Forall_fmap. apply Forall_and. split.
    - eapply Forall_impl; [exact Hin|]. by intros x (? & _).
    - done. }
  assert (Hl : Forall (entry_wf kind) l).
  { rewrite Forall_fmap in Hkinds. apply Forall_forall. intros i Hi. rewrite Forall_forall in Hkinds, Hloc.
    split; [by apply Hkinds|]. destruct (Hloc i Hi) as (before & enc & after & Hp & _ & -> & Hpos). split; [apply Hcrc|].
    rewrite Forall_forall in Hrange. specialize (Hrange i Hi). unfold usize_max in *. lia. }
  destruct (written_index_reads h l) as (b & i & Hwi & _ & Hparse & Hph & Hpe & _); try done; [by rewrite Hk|by rewrite Hmap, <- Hperm|lia|].
  assert (Hsnd : idx_sender e = true /\ idx_received e = [] /\ idx_leaves e = None) by (by injection Hchan).
  destruct Hsnd as (Hsnd & Hrec & Hleaves).
  eexists _, i, head, entries', results. unfold encode_idx_file, generate_idx_file. rewrite Hsnd, Hfinal, Hidx. cbn [negb ok_or rbind].
  rewrite Hleaves, Hnum, Hblen, <- Hll, Hwi. cbn [rbind]. split; [reflexivity|]. cbn [idx_received]. rewrite Hrec, <- Hk. split; [exact Hparse|].
  rewrite Hk, Hll, <- Hblen. fold l h. split_and!; try done; [lia|by rewrite Hsent, <- app_assoc| |].
  - eapply Forall_impl; [exact Hrange|]. unfold usize_max in *. cbn beta. intros. lia.
  - cbn [app]. apply (written_index_magic h l b); [by rewrite Hk|lia|done].
Qed.


Definition toy_crc32 : Crc32 := fun b => fold_left Z.add b 0 mod 2 ^ 32.


(** A digest that adds up the bytes. *)
Definition sum_hasher : Hasher := {|
  hasher := fun _ => Z;
  hasher_new := fun _ => 0;
  hasher_update := fun _ st d => fold_left Z.add d st;
  hasher_finalize := fun k st => repeat (st mod 256) (Z.to_nat (HashKind.size k))
|}.

(** an encoder that has finished can be started again: the flag that should refuse a second
    encoding is never set.  The second run returns [Ok] without sending a byte, and
    [get_hash] then reports a checksum that is not that of the pack that was sent. *)
Theorem second_encode_not_refused :
  let run := @encode_pack true plain_texts hex_reference sum_hasher toy_crc toy_ahash insertion_sort true stored_compress
    (fun _ _ => []) (fun _ _ => Err []) (fun _ _ => Eq) 8 None (fun _ => Ok tt) [] 1024 in
  let '(r1, e1) := run (@new_with_hash_kind sum_hasher HashKind.Sha1 2 10 None) toy_input in
  let '(r2, e2) := run e1 toy_input in
  r1 = Ok tt /\ start_encoding e1 = false /\ r2 = Ok tt /\ pack_received e2 = pack_received e1 /\ final_hash e2 <> final_hash e1.
Proof. vm_compute. repeat split; discriminate. Qed.
