(* ===== verification/PackStats.v ===== *)
(** Pack statistics, [src/internal/pack/stats.rs]: the single pass that walks the entries of a
    pack without resolving deltas, the checks of an accompanying index against that pass, and what
    an accepted pack and index are known to satisfy.

    The two files are seen as the answers of the file system at the pack's path and at the path of
    its index. *)

From Stdlib Require Import ZArith Lia String Permutation Sorted.
From stdpp Require Import base tactics list numbers option gmap.
From S2P Require Import Prelude Stream Text Errors ObjectTypes DeltaUtils DeltaFormat DeltaDecode RabinTables RabinIndex RabinDelta DeltaEncode PackUtils Hash Inflate PackIndex PackDecode Caches Pipeline PipelineProofs DecodeStream EntrySort DeltaSearch PackEncode PackRoundtrip.

(** * Records *)

Record PackStats : Type := mkPackStats {
  ps_hash_kind : HashKind.t;
  ps_total : Z;
  ps_commits : Z;
  ps_trees : Z;
  ps_blobs : Z;
  ps_tags : Z;
  ps_deltas : Z
}.

Definition PackStats_fmt (s : PackStats) : bytes :=
  str "PackStats { total: " ++ show_dec (ps_total s) ++ str ", commits: " ++ show_dec (ps_commits s)
  ++ str ", trees: " ++ show_dec (ps_trees s) ++ str ", blobs: " ++ show_dec (ps_blobs s)
  ++ str ", tags: " ++ show_dec (ps_tags s) ++ str ", deltas: " ++ show_dec (ps_deltas s) ++ str " }".

Definition PackStats_new_with_hash_kind (kind : HashKind.t) : PackStats := mkPackStats kind 0 0 0 0 0 0.

Record PackScan : Type := mkPackScan {
  scan_stats : PackStats;
  base_objects : list (Z * ObjectHash.t);
  ref_delta_bases : gset ObjectHash.t;
  object_offsets : gset Z;
  scan_pack_hash : ObjectHash.t
}.

Record PackIndexEntries : Type := mkPackIndexEntries {
  pie_names : gset ObjectHash.t;
  by_offset : gmap Z ObjectHash.t;
  pie_pack_hash : ObjectHash.t
}.

Definition count_type_bits (s : PackStats) (type_bits offset : Z) : Res GitError PackStats :=
  let '(mkPackStats k t c tr b tg d) := s in
  match type_bits with
  | 1 => Ok (mkPackStats k t (c + 1) tr b tg d)
  | 2 => Ok (mkPackStats k t c (tr + 1) b tg d)
  | 3 => Ok (mkPackStats k t c tr (b + 1) tg d)
  | 4 => Ok (mkPackStats k t c tr b (tg + 1) d)
  | 5 | 6 | 7 => Ok (mkPackStats k t c tr b tg (d + 1))
  | _ => Err (InvalidObjectType (str "Unknown pack type bits: " ++ show_dec type_bits ++ str " at offset " ++ show_dec offset))
  end.

Definition add_to_offset (offset consumed : Z) : Res GitError Z :=
  if offset + consumed <=? usize_max then Ok (offset + consumed) else Err (InvalidPackFile (str "Pack offset overflow")).

(** * The scan *)

Section scan.
Context `{Build} `{TextEnv} `{HexCrate} `{Hasher} `{ZlibDecoder}.
(** [Debug] of a [HashError]. *)
Context (hash_error_debug : HashError -> bytes).

Definition scratch_len : Z := 8192.

(** The offset after the payload and the rest of the pack; the count of the [CountingReader]
    always fits a [usize]. *)
Definition drain_zlib (pack : bytes) (offset expected_size : Z) : Res GitError (Z * bytes) :=
  let! '(_, (st, input)) :=
    drain_loop scratch_len (fun (a : unit) _ => a) (S (Z.to_nat expected_size)) zdec_new pack expected_size expected_size tt in
  let! input := check_extra st input expected_size in
  let! offset := add_to_offset offset (blen pack - blen input) in
  Ok (offset, input).

(** The variables of [scan]. *)
Record ScanState : Type := mkScanState {
  ss_stats : PackStats;
  ss_offset : Z;
  ss_starts : gset Z;
  ss_refs : gset ObjectHash.t;
  ss_bases : list (Z * ObjectHash.t)
}.

Definition scan_base (kind : HashKind.t) (pack : bytes) (type_bits size object_start offset : Z)
  (bases : list (Z * ObjectHash.t)) : Res GitError ((Z * list (Z * ObjectHash.t)) * bytes) :=
  let! obj_type := ObjectType.from_pack_type_u8 type_bits in
  let! '((hash, consumed), pack) := hash_compressed_object pack obj_type size kind in
  let! offset := add_to_offset offset consumed in
  Ok ((offset, bases ++ [(object_start, hash)]), pack).

Definition scan_offset_delta (pack : bytes) (size first_object_offset object_start offset : Z) (starts : gset Z)
  : Res GitError (Z * bytes) :=
  let! '((delta_offset, consumed), pack) :=
    map_err (fun e => InvalidPackFile (str "Read offset encoding error at offset " ++ show_dec offset ++ str ": " ++ io_error_text e))
      (read_offset_encoding pack) in
  if object_start <? delta_offset
  then Err (InvalidPackFile (str "Offset delta at " ++ show_dec object_start ++ str " points before pack data"))
  else
    let base_offset := object_start - delta_offset in
    if (delta_offset =? 0) || (base_offset <? first_object_offset) || negb (bool_decide (base_offset ∈ starts))
    then Err (InvalidPackFile (str "Offset delta at " ++ show_dec object_start ++ str " does not reference an earlier object"))
    else
      let! offset := add_to_offset offset consumed in
      drain_zlib pack offset size.

Definition scan_ref_delta (kind : HashKind.t) (pack : bytes) (size offset : Z) (refs : gset ObjectHash.t)
  : Res GitError ((Z * gset ObjectHash.t) * bytes) :=
  let! '(base_hash, pack) :=
    map_err (fun e => InvalidPackFile (str "Read hash error at offset " ++ show_dec offset ++ str ": " ++ hash_error_text e))
      (read_object_id kind pack) in
  let! offset := add_to_offset offset (ObjectHash.size base_hash) in
  let! '(offset, pack) := drain_zlib pack offset size in
  Ok ((offset, {[base_hash]} ∪ refs), pack).

(** One round of the loop.  The entry header is cut off only at the end of the data, when the
    offset counts all of it. *)
Definition scan_entry (kind : HashKind.t) (first_object_offset : Z) (pack : bytes) (s : ScanState)
  : Res GitError (ScanState * bytes) :=
  let object_start := ss_offset s in
  let! '(((type_bits, size), offset), rest) :=
    map_err (fun e => InvalidPackFile (str "Read error at offset " ++ show_dec (ss_offset s + blen pack) ++ str ": " ++ io_error_text e))
      (read_type_and_varint_size (ss_offset s) pack) in
  let! stats := count_type_bits (ss_stats s) type_bits offset in
  let! '(((offset, refs), bases), rest) :=
    match type_bits with
    | 1 | 2 | 3 | 4 =>
        let! '((offset, bases), rest) := scan_base kind rest type_bits size object_start offset (ss_bases s) in
        Ok (((offset, ss_refs s), bases), rest)
    | 5 | 6 =>
        let! '(offset, rest) := scan_offset_delta rest size first_object_offset object_start offset (ss_starts s) in
        Ok (((offset, ss_refs s), ss_bases s), rest)
    | 7 =>
        let! '((offset, refs), rest) := scan_ref_delta kind rest size offset (ss_refs s) in
        Ok (((offset, refs), ss_bases s), rest)
    | _ => Panic
    end in
  Ok (mkScanState stats offset ({[object_start]} ∪ ss_starts s) refs bases, rest).

Fixpoint scan_entries (n : nat) (kind : HashKind.t) (first_object_offset : Z) (pack : bytes) (s : ScanState)
  : Res GitError (ScanState * bytes) :=
  match n with
  | O => Ok (s, pack)
  | S n =>
      let! '(s, pack) := scan_entry kind first_object_offset pack s in
      scan_entries n kind first_object_offset pack s
  end.

(** After the entries; the [Wrapper] has hashed what was consumed of [pack]. *)
Definition scan_trailer (kind : HashKind.t) (pack rest : bytes) : Res GitError ObjectHash.t :=
  let computed_hash := ObjectHash_new_for_kind kind (slice pack 0 (blen pack - blen rest)) in
  let! '(trailer, rest) :=
    map_err (fun e => InvalidPackFile (str "Failed to read trailer hash: " ++ hash_error_debug e)) (read_object_id kind rest) in
  if negb (bool_decide (computed_hash = trailer))
  then Err (InvalidPackFile (str "Pack trailer mismatch: computed " ++ ObjectHash.fmt computed_hash
              ++ str ", stored " ++ ObjectHash.fmt trailer))
  else if negb (fst (is_eof rest)) then Err (InvalidPackFile (str "Pack has trailing data after trailer"))
  else Ok trailer.

Definition scan (pack : bytes) (kind : HashKind.t) : Res GitError PackScan :=
  let! '((object_num, header_data), entries) := check_header pack in
  let first_object_offset := blen header_data in
  let stats := mkPackStats kind object_num 0 0 0 0 0 in
  let! '(s, rest) :=
    scan_entries (Z.to_nat object_num) kind first_object_offset entries (mkScanState stats first_object_offset ∅ ∅ []) in
  let! trailer := scan_trailer kind pack rest in
  Ok (mkPackScan (ss_stats s) (ss_bases s) (ss_refs s) (ss_starts s) trailer).

(** * The files *)

(** [symlink_metadata] finds nothing, or fails otherwise. *)
Inductive StatError : Type := StatNotFound | StatOther (e : IoError).

(** What the file system answers at the pack's path and at [with_extension("idx")]. *)
Record PackFiles : Type := mkPackFiles {
  pf_pack_path : bytes;
  pf_pack_exists : bool;
  pf_pack_open : Res IoError bytes;
  pf_idx_path : bytes;
  pf_idx_stat : Res StatError unit;
  pf_idx_open : Res IoError bytes;
  pf_idx_len : Res IoError Z
}.

Definition open_pack (f : PackFiles) : Res GitError bytes :=
  if negb (pf_pack_exists f) then Err (InvalidPackFile (str "Pack file not found: " ++ pf_pack_path f))
  else map_err (invalid_pack "Failed to open pack file: ") (pf_pack_open f).

Definition validate_header (f : PackFiles) : Res GitError Z :=
  let! pack := open_pack f in
  let! '((count, _), _) := check_header pack in
  Ok count.

(** [for entry in parsed.entries]. *)
Fixpoint collect_entries (entries : list PackIndex.IndexEntry) (names : gset ObjectHash.t) (offsets : gmap Z ObjectHash.t)
  : Res GitError (gset ObjectHash.t * gmap Z ObjectHash.t) :=
  match entries with
  | [] => Ok (names, offsets)
  | e :: entries =>
      match offsets !! ie_offset e with
      | Some _ => Err (InvalidPackFile (str "Pack index lists offset " ++ show_dec (ie_offset e) ++ str " more than once"))
      | None => collect_entries entries ({[ie_hash e]} ∪ names) (<[ie_offset e := ie_hash e]> offsets)
      end
  end.

Definition idx_unreadable (f : PackFiles) (e : IoError) : GitError :=
  InvalidPackFile (str "Pack index " ++ pf_idx_path f ++ str " exists but cannot be read: " ++ io_error_text e).

Definition read_pack_index_hashes (f : PackFiles) (kind : HashKind.t) : Res GitError (option PackIndexEntries) :=
  match pf_idx_stat f with
  | Err StatNotFound => Ok None
  | Err (StatOther e) => Err (idx_unreadable f e)
  | Panic => Panic
  | OutOfFuel => OutOfFuel
  | Ok _ =>
      let! idx_file := map_err (idx_unreadable f) (pf_idx_open f) in
      let! idx_len := map_err (invalid_pack "Read pack index metadata error: ") (pf_idx_len f) in
      let! parsed := parse_idx_v2_from idx_file kind idx_len in
      let! '(names, offsets) := collect_entries (idx_entries parsed) ∅ ∅ in
      Ok (Some (mkPackIndexEntries names offsets (idx_pack_hash parsed)))
  end.

(** * The comparison *)

(** The loop over [base_objects]. *)
Fixpoint check_bases (kind : HashKind.t) (offsets : gmap Z ObjectHash.t) (l : list (Z * ObjectHash.t)) : Res GitError unit :=
  match l with
  | [] => Ok tt
  | (offset, hash) :: l =>
      let object := str "Pack object " ++ ObjectHash.fmt hash ++ str " (" ++ HashKind.as_str kind ++ str ") at offset " ++ show_dec offset
                    ++ str " is not named by the pack index " in
      match offsets !! as_u64 offset with
      | Some name =>
          if bool_decide (name = hash) then check_bases kind offsets l
          else Err (InvalidPackFile (object ++ str "at that offset (index names " ++ ObjectHash.fmt name ++ str ")"))
      | None => Err (InvalidPackFile (object ++ str "(no index entry at that offset)"))
      end
  end.

(** Which entry or base is named in an error depends on the iteration order of a hash map. *)
Definition check_index (kind : HashKind.t) (index : PackIndexEntries) (s : PackScan) : Res GitError unit :=
  if negb (Z.of_nat (size (pie_names index)) =? ps_total (scan_stats s))
  then Err (InvalidPackFile (str "Pack index lists " ++ show_dec (Z.of_nat (size (pie_names index)))
              ++ str " objects but the pack contains " ++ show_dec (ps_total (scan_stats s))))
  else if negb (bool_decide (pie_pack_hash index = scan_pack_hash s))
  then Err (InvalidPackFile (str "Pack index hash " ++ ObjectHash.fmt (pie_pack_hash index)
              ++ str " does not match pack trailer hash " ++ ObjectHash.fmt (scan_pack_hash s)))
  else
    match filter (fun '(offset, _) => offset ∉ object_offsets s) (map_to_list (by_offset index)) with
    | (offset, name) :: _ =>
        Err (InvalidPackFile (str "Pack index entry " ++ ObjectHash.fmt name ++ str " points at offset " ++ show_dec offset
               ++ str ", which is not an object boundary of the pack"))
    | [] =>
        let! _ := check_bases kind (by_offset index) (base_objects s) in
        match filter (fun h => h ∉ pie_names index) (elements (ref_delta_bases s)) with
        | h :: _ => Err (InvalidPackFile (str "Ref-delta base " ++ ObjectHash.fmt h ++ str " is not present in the pack index"))
        | [] => Ok tt
        end
    end.

Definition analyze_with_hash_kind (kind : HashKind.t) (f : PackFiles) : Res GitError PackStats :=
  let! pack := open_pack f in
  let! s := scan pack kind in
  let! index := read_pack_index_hashes f kind in
  match index with
  | None =>
      if negb (bool_decide (ref_delta_bases s = ∅))
      then Err (InvalidPackFile (str "Pack index is required to verify ref-delta bases"))
      else Ok (scan_stats s)
  | Some index =>
      let! _ := check_index kind index s in
      Ok (scan_stats s)
  end.

(** [analyze]: with the kind the thread has set. *)
Definition analyze (get_hash_kind : HashKind.t) (f : PackFiles) : Res GitError PackStats :=
  analyze_with_hash_kind get_hash_kind f.

End scan.

(** * What an accepted scan says *)

(** ** The readers take what they count *)

(** [rest] is what is left of [s] after [n] bytes. *)
Definition takes (n : Z) (s rest : bytes) : Prop := exists used, s = used ++ rest /\ blen used = n.

Lemma takes_refl s : takes 0 s s.
Proof. by exists []. Qed.

Lemma takes_trans n m s r r' : takes n s r -> takes m r r' -> takes (n + m) s r'.
Proof. intros (u & -> & <-) (v & -> & <-). exists (u ++ v). by rewrite <- app_assoc, blen_app. Qed.

Lemma takes_nonneg n s r : takes n s r -> 0 <= n.
Proof. intros (u & _ & <-). apply blen_nonneg. Qed.

Lemma takes_suffix s rest : rest `suffix_of` s -> takes (blen s - blen rest) s rest.
Proof. intros [u ->]. exists u. split; [done|]. rewrite blen_app. lia. Qed.

Lemma takes_eq n m s r : takes n s r -> n = m -> takes m s r.
Proof. by intros ? <-. Qed.

Lemma takes_suffix_of n s r : takes n s r -> r `suffix_of` s.
Proof. intros (u & -> & _). by exists u. Qed.

Lemma read_byte_takes s v c rest : read_byte_and_check_continuation s = Ok ((v, c), rest) -> takes 1 s rest.
Proof. unfold read_byte_and_check_continuation, read_u8. destruct s as [|x s]; intros [=]. subst. by exists [x]. Qed.

Lemma type_size_loop_takes `{Build} fuel size shift more offset s size' offset' rest :
  type_size_loop fuel size shift more offset s = Ok ((size', offset'), rest) -> takes (offset' - offset) s rest.
Proof.
  revert size shift more offset s. induction fuel as [|fuel IH]; intros size shift more offset s; [discriminate|].
  cbn [type_size_loop]. destruct more; [|intros [= _ <- <-]; rewrite Z.sub_diag; apply takes_refl]. intros Hl. ok_inv. apply IH in Hl.
  apply read_byte_takes in E. eapply takes_eq; [by eapply takes_trans|lia].
Qed.

Lemma read_type_takes `{Build} offset s bits size offset' rest :
  read_type_and_varint_size offset s = Ok (((bits, size), offset'), rest) -> offset < offset' /\ takes (offset' - offset) s rest.
Proof.
  unfold read_type_and_varint_size. intros Hr. ok_inv.
  match goal with E : type_size_loop _ _ _ _ _ _ = _ |- _ => apply type_size_loop_takes in E; pose proof (takes_nonneg _ _ _ E) end.
  match goal with E : read_byte_and_check_continuation _ = _ |- _ => apply read_byte_takes in E end.
  split; [lia|]. eapply takes_eq; [by eapply takes_trans|lia].
Qed.

Lemma offset_loop_takes `{Build} fuel value offset s value' offset' rest :
  offset_loop fuel value offset s = Ok ((value', offset'), rest) -> takes (offset' - offset) s rest.
Proof.
  revert value offset s. induction fuel as [|fuel IH]; intros value offset s; [discriminate|].
  cbn [offset_loop]. intros Hl. ok_inv. apply read_byte_takes in E.
  destruct (negb b); [injection Hl as _ <- <-; eapply takes_eq; [done|lia]|]. ok_inv. apply IH in Hl.
  eapply takes_eq; [by eapply takes_trans|lia].
Qed.

Lemma read_object_id_Ok kind s h rest :
  read_object_id kind s = Ok (h, rest) -> ObjectHash.kind h = kind /\ s = ObjectHash.as_ref h ++ rest /\ blen (ObjectHash.as_ref h) = HashKind.size kind.
Proof.
  unfold read_object_id. intros Hr. ok_inv. set (evs := match s with [] => [] | _ => [Chunk s] end) in *.
  assert (Hs : Forall calm evs /\ stream_data evs = s) by (unfold evs; destruct s; cbn; rewrite ?app_nil_r; split; repeat constructor; done).
  destruct Hs as [Hc Hd]. pose proof (from_stream_for_kind_chunks kind evs Hc) as Hf. rewrite Hd, E in Hf.
  destruct (HashKind.size kind <=? blen s); [|discriminate Hf]. destruct Hf as (h' & evs' & [= <- <-] & Hk & Happ & Hl). done.
Qed.

Section accepted_scan.
Context `{Build} `{TextEnv} `{HexCrate} `{Hasher} `{ZlibConsumes}.

Lemma drain_loop_suffix {A} buffer (each : A -> bytes -> A) fuel st input n remaining a r st' rest :
  drain_loop buffer each fuel st input n remaining a = Ok (r, (st', rest)) -> rest `suffix_of` input.
Proof.
  revert st input remaining a. induction fuel as [|fuel IH]; intros st input remaining a; [discriminate|]. cbn [drain_loop].
  destruct (0 <? remaining); [|by intros [= _ _ <-]].
  destruct (zdec_read st input _) as [[d| | |] [st1 in1]] eqn:E; try discriminate.
  case_bool_decide; [discriminate|]. intros Hr. apply IH in Hr. apply zdec_read_suffix in E. by etrans.
Qed.

Lemma check_extra_suffix st input n rest : check_extra st input n = Ok rest -> rest `suffix_of` input.
Proof.
  unfold check_extra. destruct (zdec_read st input 1) as [[d| | |] [st1 in1]] eqn:E; try discriminate.
  case_bool_decide; [|discriminate]. intros [= <-]. by apply zdec_read_suffix in E.
Qed.

Lemma hash_compressed_takes pack t size kind h n rest :
  hash_compressed_object pack t size kind = Ok ((h, n), rest) -> takes n pack rest.
Proof.
  unfold hash_compressed_object. intros Hr. ok_inv. apply check_extra_suffix in E1. apply drain_loop_suffix in E0.
  apply takes_suffix. by etrans.
Qed.

Lemma add_to_offset_Ok a b c : add_to_offset a b = Ok c -> c = a + b /\ c <= usize_max.
Proof. unfold add_to_offset. destruct (_ <=? _) eqn:E; [|discriminate]. intros [= <-]. lia. Qed.

Lemma drain_zlib_takes pack offset size offset' rest :
  drain_zlib pack offset size = Ok (offset', rest) -> takes (offset' - offset) pack rest /\ offset' <= usize_max.
Proof.
  unfold drain_zlib. intros Hr. ok_inv. apply check_extra_suffix in E0. apply drain_loop_suffix in E. apply add_to_offset_Ok in E1.
  split; [|lia]. eapply takes_eq; [apply takes_suffix; by etrans|lia].
Qed.

Lemma scan_offset_delta_takes pack size first start offset starts offset' rest :
  scan_offset_delta pack size first start offset starts = Ok (offset', rest) -> takes (offset' - offset) pack rest /\ offset' <= usize_max.
Proof.
  unfold scan_offset_delta. intros Hr. ok_inv. destruct (start <? z); [discriminate|]. destruct (_ || _); [discriminate|]. ok_inv.
  apply add_to_offset_Ok in E0. apply offset_loop_takes in E. apply drain_zlib_takes in Hr as [Hr ?].
  split; [|done]. eapply takes_eq; [by eapply takes_trans|lia].
Qed.

Lemma scan_ref_delta_takes kind pack size offset refs offset' refs' rest :
  scan_ref_delta kind pack size offset refs = Ok ((offset', refs'), rest) -> takes (offset' - offset) pack rest /\ offset' <= usize_max.
Proof.
  unfold scan_ref_delta. intros Hr. ok_inv. apply read_object_id_Ok in E as (Hk & -> & Hl). apply add_to_offset_Ok in E0.
  apply drain_zlib_takes in E1 as [E1 ?]. split; [|done]. unfold ObjectHash.size in E0. rewrite Hk in E0.
  eapply takes_eq; [eapply takes_trans; [by eexists|exact E1]|lia].
Qed.

(** ** The loop *)

(** After [n] entries. *)
Record scan_inv (first n : Z) (s : ScanState) : Prop := {
  si_counts : ps_commits (ss_stats s) + ps_trees (ss_stats s) + ps_blobs (ss_stats s) + ps_tags (ss_stats s) + ps_deltas (ss_stats s) = n;
  si_bases : blen (ss_bases s) = n - ps_deltas (ss_stats s);
  si_size : Z.of_nat (size (ss_starts s)) = n;
  si_range : forall o, o ∈ ss_starts s -> first <= o < ss_offset s;
  si_in : Forall (fun b => b.1 ∈ ss_starts s) (ss_bases s);
  si_nodup : NoDup (ss_bases s).*1;
  si_first : first <= ss_offset s <= usize_max
}.

Lemma count_bits_effect s bits off s' :
  count_type_bits s bits off = Ok s' ->
  ps_total s' = ps_total s /\ ps_hash_kind s' = ps_hash_kind s
  /\ ps_commits s' + ps_trees s' + ps_blobs s' + ps_tags s' + ps_deltas s'
     = ps_commits s + ps_trees s + ps_blobs s + ps_tags s + ps_deltas s + 1
  /\ ps_deltas s' = ps_deltas s + if bits <? 5 then 0 else 1.
Proof.
  destruct s. unfold count_type_bits. destruct bits as [|q|q]; try discriminate.
  do 3 (try destruct q as [q|q|]); try discriminate; intros [= <-]; cbn; split_and!; try done; lia.
Qed.

(** What one entry changes. *)
Lemma scan_entry_step kind first pack s s' rest :
  scan_entry kind first pack s = Ok (s', rest) ->
  ss_offset s < ss_offset s' <= usize_max /\ takes (ss_offset s' - ss_offset s) pack rest
  /\ ss_starts s' = {[ss_offset s]} ∪ ss_starts s
  /\ exists bits off, count_type_bits (ss_stats s) bits off = Ok (ss_stats s')
     /\ if bits <? 5 then exists h, ss_bases s' = ss_bases s ++ [(ss_offset s, h)] else ss_bases s' = ss_bases s.
Proof.
  unfold scan_entry. intros Hs.
  destruct (read_type_and_varint_size (ss_offset s) pack) as [[[[bits size] off] r0]| | |] eqn:E; try discriminate.
  cbn [map_err rbind] in Hs. apply read_type_takes in E as [Hlt Hc].
  destruct (count_type_bits (ss_stats s) bits off) as [stats| | |] eqn:Ec; try discriminate. cbn [rbind] in Hs.
  apply bind_Ok_inv in Hs as ([[[off' refs] bases] r1] & Em & Hs). injection Hs as <- <-.
  assert (Hgen : (takes (off' - off) r0 r1 /\ off' <= usize_max)
    /\ if bits <? 5 then exists h, bases = ss_bases s ++ [(ss_offset s, h)] else bases = ss_bases s).
  { assert (Hb : (let! '((offset, bases), rest) := scan_base kind r0 bits size (ss_offset s) off (ss_bases s) in
                  Ok (((offset, ss_refs s), bases), rest)) = Ok (((off', refs), bases), r1) ->
      (takes (off' - off) r0 r1 /\ off' <= usize_max) /\ exists h, bases = ss_bases s ++ [(ss_offset s, h)]).
    { unfold scan_base. intros Hx. ok_inv. 
      match goal with Ex : hash_compressed_object _ _ _ _ = _ |- _ => apply hash_compressed_takes in Ex end.
      match goal with Ex : add_to_offset _ _ = _ |- _ => apply add_to_offset_Ok in Ex end.
      split; [split; [by eapply takes_eq; [eassumption|lia]|lia]|]. by eexists. }
    destruct (bits <? 5) eqn:Hbits.
    - apply Hb. clear -Hbits Em Ec. destruct bits as [|q|q]; try discriminate; do 3 (try destruct q as [q|q|]); done.
    - clear Hb. destruct bits as [|q|q]; try discriminate; do 3 (try destruct q as [q|q|]); try discriminate; ok_inv;
        (split; [first [by eapply scan_ref_delta_takes|by eapply scan_offset_delta_takes]|done]). }
  destruct Hgen as [[Hcons Hmax] Hbases]. pose proof (takes_nonneg _ _ _ Hcons). cbn [ss_offset ss_starts ss_stats ss_bases].
  split; [lia|]. split; [eapply takes_eq; [by eapply takes_trans|lia]|]. split; [done|].
  by exists bits, off.
Qed.

Lemma scan_entry_inv kind first n pack s s' rest :
  scan_inv first n s -> scan_entry kind first pack s = Ok (s', rest) ->
  scan_inv first (n + 1) s' /\ takes (ss_offset s' - ss_offset s) pack rest
  /\ ps_total (ss_stats s') = ps_total (ss_stats s) /\ ps_hash_kind (ss_stats s') = ps_hash_kind (ss_stats s).
Proof.
  intros [Hc Hb Hs Hr Hi Hn Hf] He. apply scan_entry_step in He as (Hlt & Hcons & Hst & bits & off & Hcount & Hbase).
  assert (Hfresh : ss_offset s ∉ ss_starts s) by (intros Hx; specialize (Hr _ Hx); lia).
  destruct (count_bits_effect _ _ _ _ Hcount) as (Ht & Hk & Hsum & Hd). split; [|done]. split; rewrite ?Hst.
  - lia.
  - destruct (bits <? 5); [destruct Hbase as [h Hbase]|]; rewrite Hbase, ?blen_app; unfold blen in *; cbn [length]; lia.
  - rewrite size_union, size_singleton by set_solver. lia.
  - intros o Ho. apply elem_of_union in Ho as [Ho|Ho]; [apply elem_of_singleton in Ho as ->; lia|]. specialize (Hr o Ho). lia.
  - assert (Hi' : Forall (fun b : Z * ObjectHash.t => b.1 ∈ {[ss_offset s]} ∪ ss_starts s) (ss_bases s))
      by (eapply Forall_impl; [exact Hi|]; set_solver).
    destruct (bits <? 5); [destruct Hbase as [h ->]|by rewrite Hbase]. apply Forall_app. split; [done|]. repeat constructor. set_solver.
  - destruct (bits <? 5); [destruct Hbase as [h ->]|by rewrite Hbase]. rewrite fmap_app. apply NoDup_app. split; [done|]. split.
    + intros o Ho Hx. apply list_elem_of_singleton in Hx as ->. apply list_elem_of_fmap in Ho as (b & Eb & Hb'). rewrite Forall_forall in Hi.
      apply Hfresh. cbn in Eb. rewrite Eb. by apply Hi.
    + apply NoDup_singleton.
  - lia.
Qed.

Lemma scan_entries_inv k kind first n pack s s' rest :
  scan_inv first n s -> scan_entries k kind first pack s = Ok (s', rest) ->
  scan_inv first (n + Z.of_nat k) s' /\ takes (ss_offset s' - ss_offset s) pack rest
  /\ ps_total (ss_stats s') = ps_total (ss_stats s) /\ ps_hash_kind (ss_stats s') = ps_hash_kind (ss_stats s).
Proof.
  revert n pack s. induction k as [|k IH]; intros n pack s Hs He; cbn [scan_entries] in He.
  - injection He as <- <-. rewrite Z.add_0_r, Z.sub_diag. split; [done|]. split; [apply takes_refl|done].
  - ok_inv. destruct (scan_entry_inv _ _ _ _ _ _ _ Hs E) as (Hs' & Ho & Ht & Hk).
    destruct (IH _ _ _ Hs' He) as (Hs2 & Ho2 & Ht2 & Hk2). replace (n + Z.of_nat (S k)) with (n + 1 + Z.of_nat k) by lia.
    split; [done|]. split; [eapply takes_eq; [by eapply takes_trans|lia]|]. split; congruence.
Qed.

End accepted_scan.

Lemma check_header_Ok pack n hd rest : check_header pack = Ok ((n, hd), rest) ->
  takes 12 pack rest /\ blen hd = 12 /\ (byte_list pack -> 0 <= n < 2 ^ 32).
Proof.
  unfold check_header, read_field. intros Hh. ok_inv. destruct (negb _); [discriminate|]. ok_inv. destruct (negb _); [discriminate|]. ok_inv.
  apply read_exact_Ok in E as [-> Hl], E0 as [-> Hl0], E1 as [-> Hl1]; try lia. rewrite !blen_app. split; [|split; [lia|]].
  - exists (l ++ l1 ++ l3). rewrite <- !app_assoc, !blen_app. split; [done|lia].
  - intros Hb. rewrite !Forall_app in Hb. destruct Hb as (_ & _ & Hb & _).
    pose proof (from_be_bound _ Hb) as Hf. rewrite Hl1 in Hf. lia.
Qed.

Section accepted_pack.
Context `{Build} `{TextEnv} `{HexCrate} `{Hasher} `{ZlibConsumes} (hash_error_debug : HashError -> bytes).

Lemma scan_trailer_Ok kind pack rest h :
  rest `suffix_of` pack -> scan_trailer hash_error_debug kind pack rest = Ok h ->
  ObjectHash.kind h = kind /\ exists body, pack = body ++ rest /\ rest = ObjectHash.as_ref h /\ h = ObjectHash_new_for_kind kind body.
Proof.
  intros [body ->] Ht. unfold scan_trailer in Ht. ok_inv. apply read_object_id_Ok in E as (Hk & -> & Hl).
  case_bool_decide as Hd; [|discriminate]. destruct l as [|x l]; [|discriminate]. injection Ht as <-. rewrite app_nil_r in *.
  split; [done|]. exists body. split; [done|]. split; [done|]. rewrite <- Hd. by rewrite slice_front.
Qed.

(** What is known of a pack the scan accepts. *)
Definition accounted (kind : HashKind.t) (pack : bytes) (s : PackScan) : Prop :=
  let t := scan_stats s in
  (exists hd rest, check_header pack = Ok ((ps_total t, hd), rest))
  /\ ps_hash_kind t = kind
  /\ ps_total t = ps_commits t + ps_trees t + ps_blobs t + ps_tags t + ps_deltas t
  /\ ps_total t = Z.of_nat (size (object_offsets s))
  /\ blen (base_objects s) = ps_total t - ps_deltas t
  /\ NoDup (base_objects s).*1 /\ Forall (fun b => b.1 ∈ object_offsets s) (base_objects s)
  /\ ObjectHash.kind (scan_pack_hash s) = kind
  /\ exists body, pack = body ++ ObjectHash.as_ref (scan_pack_hash s) /\ scan_pack_hash s = ObjectHash_new_for_kind kind body
     /\ forall o, o ∈ object_offsets s -> 12 <= o < Z.min (blen body) usize_max.

Lemma scan_accounted pack kind s : byte_list pack -> scan hash_error_debug pack kind = Ok s -> accounted kind pack s.
Proof.
  intros Hb Hs. unfold scan in Hs. ok_inv. destruct (check_header_Ok _ _ _ _ E) as (Hh & Hl & Hn). specialize (Hn Hb). rewrite Hl in E0.
  assert (Hinit : scan_inv 12 0 (mkScanState (mkPackStats kind z 0 0 0 0 0) 12 ∅ ∅ [])).
  { clear.
    split; cbn; try done; try constructor; set_solver. }
  destruct (scan_entries_inv _ _ _ _ _ _ _ _ Hinit E0) as ([Hc Hbs Hsz Hr Hi Hnd Hmax] & Ht & Htot & Hk).
  assert (Hsuf : takes (ss_offset s0) pack l1) by (eapply takes_eq; [by eapply takes_trans|cbn; lia]).
  destruct (scan_trailer_Ok _ _ _ _ (takes_suffix_of _ _ _ Hsuf) E1) as (Hkt & body & Hp & Hl1 & Hhash).
  rewrite Z2Nat.id in * by lia. cbn in Htot, Hk.
  unfold accounted. cbn [scan_stats base_objects object_offsets scan_pack_hash]. rewrite Htot, Hk. split_and!; try done; try lia.
  - by eexists _, _.
  - exists body. split; [congruence|]. split; [done|]. intros o Ho. specialize (Hr o Ho). destruct Hsuf as (used & Hu & Hlen).
    rewrite Hp in Hu. apply app_inv_tail in Hu as ->. lia.
Qed.

End accepted_pack.

(** * What an accepted index says *)

Lemma collect_entries_Ok entries names offs names' offs' :
  collect_entries entries names offs = Ok (names', offs') ->
  names' = list_to_set (map ie_hash entries) ∪ names
  /\ size offs' = (size offs + length entries)%nat
  /\ forall o h, offs' !! o = Some h <-> offs !! o = Some h \/ exists e, e ∈ entries /\ ie_offset e = o /\ ie_hash e = h.
Proof.
  revert names offs. induction entries as [|e entries IH]; intros names offs; cbn [collect_entries].
  - intros [= <- <-]. split; [set_solver|]. split; [cbn; lia|]. intros o h. split; [by left|]. intros [?|(e & He & _)]; [done|].
    by apply not_elem_of_nil in He.
  - destruct (offs !! ie_offset e) eqn:E; [discriminate|]. intros Hc. apply IH in Hc as (-> & Hsz & Hl). split; [cbn; set_solver|].
    split; [rewrite Hsz, map_size_insert_None by done; cbn; lia|]. intros o h. rewrite Hl. destruct (decide (ie_offset e = o)) as [<-|Hne].
    + rewrite lookup_insert_eq, E. split.
      * intros [[= <-]|(x & Hx & ?)]; [right; exists e; split; [left|done]|]. right. exists x. split; [by right|done].
      * intros [?|(x & Hx & ? & ?)]; [done|]. apply elem_of_cons in Hx as [-> |Hx]; [left; congruence|]. right. by exists x.
    + rewrite lookup_insert_ne by done. split.
      * intros [?|(x & Hx & ?)]; [by left|]. right. exists x. split; [by right|done].
      * intros [?|(x & Hx & ? & ?)]; [by left|]. apply elem_of_cons in Hx as [-> |Hx]; [done|]. right. by exists x.
Qed.

Lemma collect_entries_offsets entries names offs :
  NoDup (map ie_offset entries) -> (forall e, e ∈ entries -> offs !! ie_offset e = None) ->
  exists names' offs', collect_entries entries names offs = Ok (names', offs').
Proof.
  revert names offs. induction entries as [|e entries IH]; intros names offs Hnd Hf; cbn [collect_entries]; [by eexists _, _|].
  apply NoDup_cons in Hnd as [Hni Hnd]. rewrite (Hf e) by left. apply IH; [done|]. intros x Hx.
  rewrite lookup_insert_ne; [apply Hf; by right|]. intros E. apply Hni. rewrite E. by apply list_elem_of_fmap_2.
Qed.

Lemma sorted_names_nodup entries : StronglySorted name_lt entries -> NoDup (map ie_hash entries).
Proof.
  induction 1 as [|e entries _ IH Hall]; [constructor|]. cbn. constructor; [|done]. intros Hin. apply list_elem_of_fmap in Hin as (x & E & Hx).
  rewrite Forall_forall in Hall. specialize (Hall x Hx). unfold name_lt, name_of in Hall. rewrite E, bytes_lt_irrefl in Hall. discriminate.
Qed.

Section index_checks.
Context `{HexCrate}.

Lemma check_bases_Ok kind offs l : check_bases kind offs l = Ok tt <-> Forall (fun b => offs !! as_u64 b.1 = Some b.2) l.
Proof.
  induction l as [|[o h] l IH]; cbn [check_bases]; [split; [constructor|done]|]. rewrite Forall_cons, <- IH. cbn [fst snd].
  destruct (offs !! as_u64 o) as [name|]; [|split; [discriminate|by intros [? _]]].
  case_bool_decide as Hn; [subst; by split; [|intros [_ ?]]|]. split; [discriminate|]. intros [[= ?] _]. done.
Qed.

Lemma filter_nil_iff {A} (P : A -> Prop) `{forall x, Decision (P x)} (l : list A) : filter P l = [] <-> forall x, x ∈ l -> ~ P x.
Proof.
  split.
  - intros Hf x Hx Hp. assert (Hin : x ∈ filter P l) by (by apply list_elem_of_filter). rewrite Hf in Hin. by apply not_elem_of_nil in Hin.
  - intros Hall. destruct (filter P l) as [|x l'] eqn:E; [done|]. assert (Hin : x ∈ filter P l) by (rewrite E; left).
    apply list_elem_of_filter in Hin as [Hp Hx]. by destruct (Hall x Hx).
Qed.

(** The checks, as one statement. *)
Lemma check_index_Ok kind index s :
  check_index kind index s = Ok tt
  <-> Z.of_nat (size (pie_names index)) = ps_total (scan_stats s) /\ pie_pack_hash index = scan_pack_hash s
      /\ dom (by_offset index) ⊆ object_offsets s
      /\ Forall (fun b => by_offset index !! as_u64 b.1 = Some b.2) (base_objects s) /\ ref_delta_bases s ⊆ pie_names index.
Proof.
  unfold check_index. destruct (Z.of_nat _ =? _) eqn:E1; cbn [negb]; [|split; [discriminate|intros [? _]; lia]]. apply Z.eqb_eq in E1.
  case_bool_decide as E2; cbn [negb]; [|split; [discriminate|by intros (_ & ? & _)]].
  destruct (filter _ (map_to_list _)) as [|[o n] l] eqn:E3.
  - rewrite filter_nil_iff in E3. assert (Hd : dom (by_offset index) ⊆ object_offsets s).
    { intros o Ho. apply elem_of_dom in Ho as [h Hh]. destruct (decide (o ∈ object_offsets s)) as [|Hn]; [done|].
      destruct (E3 (o, h)); [by apply elem_of_map_to_list|done]. }
    rewrite <- check_bases_Ok with (kind := kind). destruct (check_bases _ _ _) as [[]|e| |]; cbn [rbind];
      [|by split; [|intros (_ & _ & _ & ? & _)]..].
    destruct (filter _ (elements _)) as [|h l] eqn:E4.
    + rewrite filter_nil_iff in E4. split; [|done]. intros _. do 4 (split; [done|]). intros h Hh.
      destruct (decide (h ∈ pie_names index)) as [|Hn]; [done|]. destruct (E4 h); [by apply elem_of_elements|done].
    + split; [discriminate|]. intros (_ & _ & _ & _ & Hsub). assert (Hin : h ∈ filter (fun h => h ∉ pie_names index) (elements (ref_delta_bases s)))
        by (rewrite E4; left). apply list_elem_of_filter in Hin as [Hn Hin]. apply elem_of_elements in Hin. set_solver.
  - split; [discriminate|]. intros (_ & _ & Hsub & _). assert (Hin : (o, n) ∈ filter (fun '(offset, _) => offset ∉ object_offsets s) (map_to_list (by_offset index)))
      by (rewrite E3; left). apply list_elem_of_filter in Hin as [Hn Hin]. apply elem_of_map_to_list in Hin. destruct Hn. apply Hsub, elem_of_dom. by eexists.
Qed.

(** An index that goes with a scanned pack: one record for every object boundary, under the name
    of the content for the base objects. *)
Definition describes (i : IdxV2) (s : PackScan) : Prop :=
  idx_pack_hash i = scan_pack_hash s
  /\ list_to_set (map ie_offset (idx_entries i)) = object_offsets s
  /\ NoDup (map ie_hash (idx_entries i)) /\ NoDup (map ie_offset (idx_entries i))
  /\ Forall (fun b => exists e, e ∈ idx_entries i /\ ie_offset e = b.1 /\ ie_hash e = b.2) (base_objects s)
  /\ forall h, h ∈ ref_delta_bases s -> h ∈ map ie_hash (idx_entries i).

(** Conversely, such an index is accepted. *)
Lemma described_index_accepted kind s i :
  describes i s -> ps_total (scan_stats s) = blen (idx_entries i) -> Forall (fun e => 0 <= ie_offset e < 2 ^ 64) (idx_entries i) ->
  exists names offs, collect_entries (idx_entries i) ∅ ∅ = Ok (names, offs)
    /\ check_index kind (mkPackIndexEntries names offs (idx_pack_hash i)) s = Ok tt.
Proof.
  intros (Hph & Hoffs & Hnd & Hndo & Hbases & Hrefs) Htot Hrange.
  destruct (collect_entries_offsets (idx_entries i) ∅ ∅ Hndo) as (names & offs & Hcol); [intros; apply lookup_empty|].
  exists names, offs. split; [done|]. apply collect_entries_Ok in Hcol as (Hnames & _ & Hl). rewrite union_empty_r_L in Hnames.
  apply check_index_Ok. cbn [pie_names pie_pack_hash by_offset]. split_and!; try done.
  - rewrite Hnames, size_list_to_set, length_map by done. rewrite Htot. done.
  - intros o [h Hh]%elem_of_dom. apply Hl in Hh as [Hh|(e & He & <- & _)]; [by rewrite lookup_empty in Hh|].
    rewrite <- Hoffs, elem_of_list_to_set. by apply list_elem_of_fmap_2.
  - eapply Forall_impl; [exact Hbases|]. cbn. intros [o h] (e & He & <- & <-). cbn. rewrite Forall_forall in Hrange. specialize (Hrange e He).
    unfold as_u64. rewrite Z.mod_small by done. apply Hl. right. by exists e.
  - intros h Hh. rewrite Hnames, elem_of_list_to_set. by apply Hrefs.
Qed.

End index_checks.

Section accepted_index.
Context `{Build} `{TextEnv} `{HexCrate} `{Hasher} `{!HasherLaws} `{ZlibDecoder} `{!ZlibConsumes} (hash_error_debug : HashError -> bytes).

Lemma index_describes kind pack s i names offs :
  accounted kind pack s -> StronglySorted name_lt (idx_entries i) -> NoDup (map ie_offset (idx_entries i)) ->
  collect_entries (idx_entries i) ∅ ∅ = Ok (names, offs) ->
  check_index kind (mkPackIndexEntries names offs (idx_pack_hash i)) s = Ok tt -> describes i s.
Proof.
  intros (_ & _ & _ & Htot & _ & _ & Hbin & _ & body & _ & _ & Hrange) Hsort Hndo Hcol Hchk. apply check_index_Ok in Hchk.
  cbn [pie_names pie_pack_hash by_offset] in Hchk. destruct Hchk as (Hsz & Hph & Hdom & Hbases & Hrefs).
  apply collect_entries_Ok in Hcol as (Hnames & Hso & Hl). rewrite union_empty_r_L in Hnames. pose proof (sorted_names_nodup _ Hsort) as Hnd.
  assert (Hset : list_to_set (map ie_offset (idx_entries i)) = dom offs).
  { apply set_eq. intros o. rewrite elem_of_list_to_set, list_elem_of_fmap, elem_of_dom. split.
    - intros (e & -> & He). exists (ie_hash e). apply Hl. right. by exists e.
    - intros [h Hh]. apply Hl in Hh as [Hh|(e & He & <- & _)]; [by rewrite lookup_empty in Hh|]. by exists e. }
  split; [done|]. split; [|split_and!; try done].
  - rewrite Hset. apply set_subseteq_size_eq; [done|]. rewrite size_dom, Hso, map_size_empty.
    rewrite Hnames, size_list_to_set, length_map in Hsz by done. lia.
  - apply Forall_forall. intros b Hb. rewrite Forall_forall in Hbases, Hbin. specialize (Hbases b Hb). specialize (Hrange _ (Hbin b Hb)).
    unfold as_u64 in Hbases. rewrite Z.mod_small in Hbases by (unfold usize_max in Hrange; lia).
    apply Hl in Hbases as [Hx|Hx]; [by rewrite lookup_empty in Hx|done].
  - intros h Hh. apply Hrefs in Hh. rewrite Hnames in Hh. by apply elem_of_list_to_set in Hh.
Qed.


End accepted_index.

(** * The analysis of what was packed *)

Lemma pack_type_inv n t : ObjectType.from_pack_type_u8 n = Ok t -> ObjectType.to_pack_type_u8 t = Ok n.
Proof. destruct n as [|q|q]; try discriminate; do 3 (try destruct q as [q|q|]); by inversion 1. Qed.

Section analysing.
Context `{Build} `{TextEnv} `{HexCrate} `{Hasher} `{!HasherLaws} `{ZlibDecoder} {deflated : bytes -> bytes -> Prop}
  {zpending : zdec -> bytes -> bytes -> Prop} `{!ZlibLaws deflated zpending} `{Allocator}.
Context (hash_error_debug : HashError -> bytes) (compress : bytes -> bytes) (Hdeflate : forall d, deflated (compress d) d).
Context (kind : HashKind.t).

Lemma drain_zlib_ok z data rest offset :
  deflated z data -> offset + blen z <= usize_max -> drain_zlib (z ++ rest) offset (blen data) = Ok (offset + blen z, rest).
Proof.
  intros Hz Hmax. unfold drain_zlib.
  destruct (drain_loop_ok scratch_len (fun (a : unit) _ => a) (S (Z.to_nat (blen data))) zdec_new z data rest (blen data) tt)
    as (ds & st & z' & _ & -> & Hp); [done|by apply zpending_new|unfold blen; lia|].
  cbn [rbind]. rewrite check_extra_ok by done. cbn [rbind]. rewrite blen_app. unfold add_to_offset.
  replace (offset + (blen z + blen rest - blen rest)) with (offset + blen z) by lia. by replace (offset + blen z <=? usize_max) with true by lia.
Qed.

Definition counted (t : ObjectType.t) (s : PackStats) : PackStats :=
  let '(mkPackStats k n c tr b tg d) := s in
  match t with
  | ObjectType.Commit => mkPackStats k n (c + 1) tr b tg d
  | ObjectType.Tree => mkPackStats k n c (tr + 1) b tg d
  | ObjectType.Blob => mkPackStats k n c tr (b + 1) tg d
  | ObjectType.Tag => mkPackStats k n c tr b (tg + 1) d
  | _ => mkPackStats k n c tr b tg (d + 1)
  end.

Lemma scan_whole_entry t data enc first s rest :
  ObjectType.is_base t = true -> blen data <= isize_max -> encode_one_object compress t data None = Ok enc ->
  ss_offset s + blen enc <= usize_max ->
  scan_entry kind first (enc ++ rest) s
  = Ok (mkScanState (counted t (ss_stats s)) (ss_offset s + blen enc) ({[ss_offset s]} ∪ ss_starts s) (ss_refs s)
          (ss_bases s ++ [(ss_offset s, object_id kind t data)]), rest).
Proof.
  intros Hbase Hlen Henc Hmax. assert (Hu : blen data <= usize_max) by (unfold isize_max, usize_max in *; lia).
  destruct (entry_reads compress t data None ltac:(by destruct t) Hu) as (enc' & n & Henc' & Hn & Hread).
  assert (enc' = enc) as -> by congruence. destruct (Hread (ss_offset s) rest) as (payload & off' & Hr & Hpay).
  destruct (base_label t Hbase) as [label Hlabel].
  assert (Hp : payload = compress data ++ rest /\ ss_offset s + blen enc = off' + blen (compress data)) by (destruct t; done).
  destruct Hp as [-> Hoff]. unfold scan_entry. rewrite Hr. cbn [map_err rbind].
  assert (Hb : scan_base kind (compress data ++ rest) n (blen data) (ss_offset s) off' (ss_bases s)
    = Ok ((ss_offset s + blen enc, ss_bases s ++ [(ss_offset s, object_id kind t data)]), rest)).
  { unfold scan_base. rewrite Hn. cbn [rbind]. rewrite (hash_compressed_object_ok _ _ _ _ label) by done. cbn [rbind].
    unfold add_to_offset. rewrite <- Hoff. replace (_ <=? usize_max) with true by lia. unfold object_id. by rewrite Hlabel. }
  pose proof (pack_type_inv _ _ Hn) as Hn'.
  destruct (ss_stats s) as [k0 n0 c tr b tg d]. destruct t; try discriminate Hbase; injection Hn' as <-; cbn [count_type_bits rbind]; rewrite Hb; reflexivity.
Qed.

Lemma scan_delta_entry delta v enc s rest :
  12 <= ss_offset s - v -> 0 < v -> ss_offset s - v ∈ ss_starts s -> blen delta <= isize_max ->
  encode_one_object compress ObjectType.OffsetDelta delta (Some v) = Ok enc -> ss_offset s + blen enc <= usize_max ->
  scan_entry kind 12 (enc ++ rest) s
  = Ok (mkScanState (counted ObjectType.OffsetDelta (ss_stats s)) (ss_offset s + blen enc) ({[ss_offset s]} ∪ ss_starts s) (ss_refs s) (ss_bases s), rest).
Proof.
  intros Hv Hpos Hin Hlen Henc Hmax. assert (Hu : blen delta <= usize_max) by (unfold isize_max, usize_max in *; lia).
  pose proof (blen_nonneg enc) as Hen.
  destruct (entry_reads compress ObjectType.OffsetDelta delta (Some v)) as (enc' & n & Henc' & Hn & Hread); [cbn; lia|done|].
  assert (enc' = enc) as -> by congruence. destruct (Hread (ss_offset s) rest) as (payload & off' & Hr & v' & Hv' & Hoff). injection Hv' as <-.
  assert (Hz : 0 <= blen (compress delta)) by apply blen_nonneg.
  apply pack_type_inv in Hn. injection Hn as <-.
  unfold scan_entry. rewrite Hr. cbn [map_err rbind]. replace (count_type_bits (ss_stats s) 6 off') with (@Ok GitError _ (counted ObjectType.OffsetDelta (ss_stats s)))
    by (by destruct (ss_stats s)). cbn [rbind]. unfold scan_offset_delta. rewrite Hoff. cbn [map_err rbind].
  replace (ss_offset s <? v) with false by lia. replace (v =? 0) with false by lia. replace (ss_offset s - v <? 12) with false by lia.
  rewrite bool_decide_true by done. cbn [orb negb]. unfold add_to_offset. replace (off' + _) with (ss_offset s + blen enc - blen (compress delta)) by lia.
  replace (_ <=? usize_max) with true by lia. cbn [rbind]. rewrite drain_zlib_ok by (done || lia). cbn [rbind]. do 3 f_equal. lia.
Qed.

(** Where the entries start. *)
Fixpoint places (offset : Z) (encs : list bytes) : list Z :=
  match encs with [] => [] | enc :: encs => offset :: places (offset + blen enc) encs end.

Lemma scan_written prior offset entries encs rest s :
  written compress prior offset entries encs -> ss_offset s = offset -> 12 <= offset -> offset + blen (concat encs) <= usize_max ->
  Forall (fun b => 12 <= pl_offset b /\ pl_offset b ∈ ss_starts s) prior -> Forall entry_packable entries ->
  exists s', scan_entries (length entries) kind 12 (concat encs ++ rest) s = Ok (s', rest)
    /\ ps_total (ss_stats s') = ps_total (ss_stats s) /\ ss_refs s' = ss_refs s
    /\ ss_starts s' = list_to_set (places offset encs) ∪ ss_starts s
    /\ exists bs, ss_bases s' = ss_bases s ++ bs
       /\ Forall (fun b => b ∈ zip (places offset encs) (map (fun e => object_id kind (entry_type e) (entry_data e)) entries)) bs.
Proof.
  intros Hw. revert s. induction Hw as [|prior offset e enc entries encs He Hw IH
    |prior offset e b delta enc entries encs Hb Ht Hd Ho Hsz Hdec He Hw IH]; intros s Hs Hoff Hmax Hprior Hp.
  { exists s. split; [done|]. split; [done|]. split; [done|]. split; [set_solver|]. exists []. split; [by rewrite app_nil_r|constructor]. }
  all: apply Forall_cons_1 in Hp as [(Hbase & _ & Hlen & _) Hp]; cbn [concat length scan_entries places map zip] in *; rewrite <- app_assoc.
  all: rewrite blen_app in Hmax; pose proof (blen_nonneg enc); pose proof (blen_nonneg (concat encs)).
  - rewrite (scan_whole_entry (entry_type e) (entry_data e)) by (done || unfold isize_max; lia). cbn [rbind]. rewrite Hs.
    match goal with |- context [scan_entries _ _ _ _ ?x] => set (s1 := x) end.
    destruct (IH s1) as (s' & Hsc & Htot & Hrefs & Hst & bs & Hbs & Hall); [done|lia|lia| |done|].
    { constructor; [cbn; set_solver|]. eapply Forall_impl; [exact Hprior|]. cbn. set_solver. }
    exists s'. split; [done|]. split; [rewrite Htot; unfold s1; cbn [ss_stats]; by destruct (ss_stats s), (entry_type e)|].
    split; [done|]. split; [rewrite Hst; cbn; set_solver|].
    eexists (_ :: bs). split; [rewrite Hbs; cbn; by rewrite <- app_assoc|]. constructor; [left|].
    eapply Forall_impl; [exact Hall|]. intros x Hx. by right.
  - assert (Hbp : 12 <= pl_offset b /\ pl_offset b ∈ ss_starts s) by (rewrite Forall_forall in Hprior; by apply Hprior). destruct Hbp as [Hb12 Hbin].
    rewrite (scan_delta_entry delta (offset - pl_offset b)); try done; rewrite ?Hs; [|by replace (offset - _) with (pl_offset b) by lia|lia|
      by replace (offset - _) with (pl_offset b) by lia|unfold isize_max; lia|lia]. cbn [rbind].
    match goal with |- context [scan_entries _ _ _ _ ?x] => set (s1 := x) end.
    destruct (IH s1) as (s' & Hsc & Htot & Hrefs & Hst & bs & Hbs & Hall); [done|lia|lia| |done|].
    { constructor; [cbn; set_solver|]. eapply Forall_impl; [exact Hprior|]. cbn. set_solver. }
    exists s'. split; [done|]. split; [rewrite Htot; unfold s1; cbn [ss_stats]; by destruct (ss_stats s)|].
    split; [done|]. split; [rewrite Hst; cbn; set_solver|].
    exists bs. split; [done|]. eapply Forall_impl; [exact Hall|]. intros x Hx. by right.
Qed.

Lemma scan_trailer_written body :
  let h := ObjectHash_new_for_kind kind body in
  scan_trailer hash_error_debug kind (body ++ ObjectHash.to_data h) (ObjectHash.to_data h) = Ok h.
Proof.
  cbn zeta. destruct (read_object_id_written kind body) as [_ Hr]. cbn zeta in Hr. unfold scan_trailer. rewrite Hr, slice_front. cbn [map_err rbind].
  by rewrite bool_decide_true.
Qed.

(** The records of the index and the places of the entries. *)
Lemma records_places `{Crc32} offset results :
  0 <= offset -> offset + blen (concat results.*1) <= usize_max ->
  map (fun i => (ie_offset i, ie_hash i)) (records offset results) = zip (places offset results.*1) (map ie_hash results.*2)
  /\ map ie_offset (records offset results) = places offset results.*1.
Proof.
  revert offset. induction results as [|[enc i] results IH]; intros offset Hpos Hmax; [done|]. cbn [records map fmap list_fmap fst snd places zip ie_offset ie_hash concat] in *.
  rewrite blen_app in Hmax. pose proof (blen_nonneg enc). pose proof (blen_nonneg (concat results.*1)).
  destruct (IH (offset + blen enc)) as [E1 E2]; [lia|lia|]. rewrite E1, E2.
  unfold as_u64. by rewrite Z.mod_small by (unfold usize_max in Hmax; lia).
Qed.

Lemma records_hashes `{Crc32} offset results : map ie_hash (records offset results) = map ie_hash results.*2.
Proof. revert offset. induction results as [|[enc i] results IH]; intros offset; [done|]. cbn. by rewrite IH. Qed.

Lemma scan_packed entries head encs :
  let body := head ++ concat encs in let h := ObjectHash_new_for_kind kind body in
  0 < blen entries < 2 ^ 32 -> encode_header (blen entries) = Ok head -> written compress [] 12 entries encs ->
  12 + blen (concat encs) <= usize_max -> Forall entry_packable entries ->
  exists s, scan hash_error_debug (body ++ ObjectHash.to_data h) kind = Ok s /\ ps_total (scan_stats s) = blen entries
    /\ ref_delta_bases s = ∅ /\ object_offsets s = list_to_set (places 12 encs) /\ scan_pack_hash s = h
    /\ Forall (fun b => b ∈ zip (places 12 encs) (map (fun e => object_id kind (entry_type e) (entry_data e)) entries)) (base_objects s).
Proof.
  cbn zeta. intros Hn Hhead Hw Hmax Hpk. set (h := ObjectHash_new_for_kind kind (head ++ concat encs)).
  destruct (encode_header_ok (blen entries) Hn) as (count & Hh & Hcl & Hbe). assert (Hd : head = str "PACK" ++ [0; 0; 0; 2] ++ count) by congruence.
  assert (Hhl : blen head = 12) by (rewrite Hd, !blen_app, Hcl; done).
  destruct (scan_written [] 12 entries encs (ObjectHash.to_data h) (mkScanState (mkPackStats kind (blen entries) 0 0 0 0 0) 12 ∅ ∅ []))
    as (s & Hs & Htot & Hrefs & Hst & bs & Hbs & Hall); try done; try lia; try constructor.
  cbn in Htot, Hrefs, Hst, Hbs. rewrite union_empty_r_L in Hst.
  exists (mkPackScan (ss_stats s) (ss_bases s) (ss_refs s) (ss_starts s) h). cbn [scan_stats ref_delta_bases object_offsets scan_pack_hash base_objects].
  split; [|rewrite Hbs; done]. unfold scan. rewrite <- app_assoc. rewrite Hd at 1. rewrite check_header_written by done. cbn [rbind].
  rewrite <- Hd, Hhl, Hbe. unfold blen at 1. rewrite Nat2Z.id, Hs. cbn [rbind]. unfold h at 1. rewrite app_assoc, scan_trailer_written. done.
Qed.

End analysing.

(** The files after a pack and its index were stored. *)
Definition stored_files (pack_path idx_path pack idx : bytes) : PackFiles :=
  mkPackFiles pack_path true (Ok pack) idx_path (Ok tt) (Ok idx) (Ok (blen idx)).

(** What was packed, with its index, passes the analysis. *)
Lemma packed_analyzed `{Build} `{TextEnv} `{HexCrate} `{Hasher} `{!HasherLaws} `{ZlibDecoder}
  {deflated : bytes -> bytes -> Prop} {zpending : zdec -> bytes -> bytes -> Prop} `{!ZlibLaws deflated zpending}
  `{Crc32} `{Allocator} (hash_error_debug : HashError -> bytes) (compress : bytes -> bytes)
  (kind : HashKind.t) (input : list (MetaAttached Entry EntryMeta)) (pack_path idx_path : bytes) (e : PackEncoder) :
  compress_bounded compress -> (forall d, deflated (compress d) d) -> (forall b, 0 <= calculate_crc32 b < 2 ^ 32) ->
  Forall (input_ok kind) input ->
  Forall (fun x => entry_hash x = object_id kind (entry_type x) (entry_data x)) (map ma_inner input) ->
  NoDup (map entry_hash (map ma_inner input)) -> 0 < blen input < 2 ^ 31 -> 12 + room (map ma_inner input) <= usize_max ->
  packed compress kind (map ma_inner input) (true, [], None) e ->
  exists e' stats, encode_idx_file e = Ok e'
  /\ analyze_with_hash_kind hash_error_debug kind (stored_files pack_path idx_path (concat (pack_received e)) (concat (idx_received e'))) = Ok stats
  /\ ps_total stats = blen input.
Proof.
  intros Hc Hdeflate Hcrc Hin Hnames Hnd Hn Hroom Hpacked.
  assert (Hwf : Forall (fun x => hash_wf (entry_hash (ma_inner x))) input).
  { rewrite Forall_fmap in Hnames. eapply Forall_impl; [exact Hnames|]. cbn. intros x ->. apply ObjectHash_new_for_kind_wf. }
  destruct (packed_index compress kind input e) as (e' & i & head & entries' & results & He' & Hparse & Hph & Hhead & Hhl & Hperm & Hpk & Hw & Hmax & Hsent & Hpe & Hmap & _ & Hndo & Hrange & _);
    try done. cbn zeta in *.
  assert (Hblen : blen (map ma_inner input) = blen input) by (unfold blen; by rewrite length_map).
  assert (Hbe : blen entries' = blen input) by (unfold blen; rewrite <- Hperm; by rewrite length_map).
  destruct (scan_packed hash_error_debug compress Hdeflate kind entries' head results.*1) as (s & Hs & Htot & Hrefs & Hoffs & Hhash & Hbases);
    try done; [lia|by rewrite Hbe, <- Hblen|].
  exists e', (scan_stats s). split; [done|]. split; [|lia].
  destruct (records_places 12 results) as [Hzip Hpl]; [lia|done|].
  assert (Hmap' : map ie_hash results.*2 = map (fun e => object_id kind (entry_type e) (entry_data e)) entries').
  { rewrite <- (records_hashes 12), Hmap. apply map_ext_in. intros x Hx. apply list_elem_of_In in Hx. rewrite <- Hperm in Hx.
    rewrite Forall_forall in Hnames. by apply Hnames. }
  assert (Hdesc : describes i s).
  { split; [by rewrite Hph, Hhash|]. rewrite Hoffs, <- Hpl. split_and!.
    - apply set_eq. intros o. by rewrite !elem_of_list_to_set, Hpe.
    - by rewrite Hpe, Hmap, <- Hperm.
    - by rewrite Hpe.
    - eapply Forall_impl; [exact Hbases|]. intros [o h]. rewrite <- Hmap', <- Hzip. intros Hb. apply list_elem_of_fmap in Hb as (r & [= -> ->] & Hr).
      exists r. by rewrite Hpe.
    - rewrite Hrefs. set_solver. }
  destruct (described_index_accepted kind s i Hdesc) as (names & offs & Hcol & Hchk); [|by rewrite Hpe|].
  { rewrite Htot. unfold blen. f_equal. rewrite Hpe. apply (f_equal length) in Hmap. by rewrite !length_map in Hmap. }
  unfold analyze_with_hash_kind, open_pack, stored_files. cbn [pf_pack_exists pf_pack_open negb map_err rbind]. rewrite Hsent, Hs. cbn [rbind].
  unfold read_pack_index_hashes. cbn [pf_idx_stat pf_idx_open pf_idx_len map_err rbind]. fold (parse_idx_v2 (concat (idx_received e')) kind). rewrite Hparse. cbn [rbind].
  rewrite Hcol. cbn [rbind]. by rewrite Hchk.
Qed.

(** what the encoder sends passes the analysis: when a list of objects was packed and the
    pack and its index were stored side by side, the analysis accepts them and counts every object. *)
Theorem analyze_packed `{Build} `{TextEnv} `{HexCrate} `{Hasher} `{!HasherLaws} `{ZlibDecoder}
  {deflated : bytes -> bytes -> Prop} {zpending : zdec -> bytes -> bytes -> Prop} `{!ZlibLaws deflated zpending}
  `{Crc32} `{AHash} `{SliceSort} `{!SliceSortLaws} `{Allocator} (hash_error_debug : HashError -> bytes)
  (little_endian : bool) (compress : bytes -> bytes) (diff : bytes -> bytes -> list DeltaEncode.Callback)
  (zstd_diff : bytes -> bytes -> Res bytes bytes)
  (address_cmp : MetaAttached Entry EntryMeta -> MetaAttached Entry EntryMeta -> comparison)
  (num_threads : Z) (pack_threads : option Z) (pool_build : Z -> Res bytes unit) (join_error_text : bytes)
  (kind : HashKind.t) (cap window : Z) (input : list (MetaAttached Entry EntryMeta)) (pack_path idx_path : bytes) :
  total_order address_cmp -> (forall n, pack_threads = Some n -> pool_build n = Ok tt) ->
  compress_bounded compress -> (forall d, deflated (compress d) d) -> (forall b, 0 <= calculate_crc32 b < 2 ^ 32) ->
  Forall (input_ok kind) input ->
  Forall (fun x => entry_hash x = object_id kind (entry_type x) (entry_data x)) (map ma_inner input) ->
  NoDup (map entry_hash (map ma_inner input)) -> 0 < blen input < 2 ^ 31 -> 12 + room (map ma_inner input) <= usize_max ->
  exists e e' stats, encode_pack little_endian compress diff zstd_diff address_cmp num_threads pack_threads pool_build join_error_text cap
    (new_with_idx_and_hash_kind kind (blen input) window None None) input = (Ok tt, e)
  /\ encode_idx_file e = Ok e'
  /\ analyze_with_hash_kind hash_error_debug kind (stored_files pack_path idx_path (concat (pack_received e)) (concat (idx_received e'))) = Ok stats
  /\ ps_total stats = blen input.
Proof.
  intros Haddr Hpool Hc Hdeflate Hcrc Hin Hnames Hnd Hn Hroom.
  destruct (encode_pack_ok little_endian compress diff zstd_diff address_cmp num_threads pack_threads pool_build join_error_text
    Hc Hpool kind cap window None input) as (e & Henc & Hpacked); try done; [lia|].
  destruct (packed_analyzed hash_error_debug compress kind input pack_path idx_path e) as (e' & stats & ? & ? & ?); try done.
  by exists e, e', stats.
Qed.

(** * A concrete pack *)

Lemma analyze_packed_witness :
  exists e e' stats, @encode_pack true plain_texts hex_reference toy_hasher toy_crc32 toy_ahash insertion_sort true stored_compress
    (fun _ _ => []) (fun _ _ => Err []) (fun _ _ => Eq) 8 None (fun _ => Ok tt) [] 1024
    (@new_with_idx_and_hash_kind toy_hasher HashKind.Sha1 2 10 None None) toy_input = (Ok tt, e)
  /\ @encode_idx_file true plain_texts toy_hasher e = Ok e'
  /\ @analyze_with_hash_kind true plain_texts hex_reference toy_hasher stored_zlib (fun _ => []) HashKind.Sha1
       (stored_files (str "p.pack") (str "p.idx") (concat (pack_received e)) (concat (idx_received e'))) = Ok stats
  /\ ps_total stats = 2.
Proof.
  apply (@analyze_packed true plain_texts hex_reference toy_hasher toy_hasher_laws stored_zlib stored stored_pending stored_zlib_laws toy_crc32
    toy_ahash insertion_sort insertion_sort_laws unlimited (fun _ => []) true stored_compress (fun _ _ => []) (fun _ _ => Err []) (fun _ _ => Eq) 8
    None (fun _ => Ok tt) [] HashKind.Sha1 1024 10 toy_input (str "p.pack") (str "p.idx")).
  - apply total_const.
  - discriminate.
  - intros d. unfold stored_compress. blens.
  - reflexivity.
  - intros b. unfold calculate_crc32, toy_crc32. apply Z.mod_pos_bound. lia.
  - repeat constructor; try (vm_compute; reflexivity); try (vm_compute; discriminate); try (cbn; lia).
  - repeat constructor.
  - decide_closed.
  - vm_compute. split; reflexivity.
  - vm_compute. discriminate.
Defined.

(** The two files of the sample pack. *)
Definition sample_files : PackFiles :=
  let e := snd (@encode_pack true plain_texts hex_reference toy_hasher toy_crc32 toy_ahash insertion_sort true stored_compress
    (fun _ _ => []) (fun _ _ => Err []) (fun _ _ => Eq) 8 None (fun _ => Ok tt) [] 1024
    (@new_with_idx_and_hash_kind toy_hasher HashKind.Sha1 2 10 None None) toy_input) in
  match @encode_idx_file true plain_texts toy_hasher e with
  | Ok e' => stored_files (str "p.pack") (str "p.idx") (concat (pack_received e)) (concat (idx_received e'))
  | _ => stored_files [] [] [] []
  end.

Definition sample_pack : bytes := match pf_pack_open sample_files with Ok p => p | _ => [] end.
Definition sample_stats : PackStats := mkPackStats HashKind.Sha1 2 0 0 2 0 0.

