(* ===== verification/PackOutput.v ===== *)
(** Encoding to files, [src/internal/pack/encode/output.rs]: the pack goes to a temporary file
    through a writer task, gets its final name when its checksum is known, and the index follows.

    The disk is the map from paths to contents.  What the file system answers is a parameter: at
    which chunk a writer fails and how much of it gets written, and whether files can be created,
    flushed and renamed.  A writer that fails drops its receiver; the encoder may have sent more
    chunks by then ([wr_lag]), and cannot send any more.  Waiting for a writer whose channel is
    still open would last for ever, which is the outcome [OutOfFuel] here. *)

From Stdlib Require Import ZArith Lia String Permutation.
From stdpp Require Import base tactics list numbers option gmap.
From S2P Require Import Prelude Stream Text Errors ObjectTypes DeltaUtils DeltaFormat DeltaDecode RabinTables RabinIndex RabinDelta DeltaEncode PackUtils Hash Inflate PackIndex PackDecode Caches Pipeline PipelineProofs DecodeStream EntrySort DeltaSearch PackEncode PackRoundtrip PackStats.

(** * The environment *)

(** One writer task: the chunk whose [write_all] fails, with the bytes of it that are written and
    the error; the chunks sent after that one before the receiver is gone; the answer of [flush];
    and how the task is joined. *)
Record Writing : Type := mkWriting {
  wr_fault : option (nat * (nat * IoError));
  wr_lag : nat;
  wr_flush : Res IoError unit;
  wr_join : Res bytes unit
}.

Record Output : Type := mkOutput {
  out_timestamp : bytes;
  out_create_pack : Res IoError unit;
  out_pack : Writing;
  out_rename : Res IoError unit;
  out_create_idx : Res IoError unit;
  out_idx : Writing;
  (** What is in the index file when [encode_idx_file] fails. *)
  out_idx_left : bytes
}.

Abbreviation Files := (gmap bytes bytes).

(** [Path::join] with a relative path, on Unix. *)
Definition path_join (dir name : bytes) : bytes :=
  match last dir with
  | None => name
  | Some c => if c =? 47 then dir ++ name else dir ++ [47] ++ name
  end.

(** Chunks the encoder can send before it finds the receiver gone. *)
Definition channel_leaves (w : Writing) : option nat :=
  match wr_fault w with Some (k, _) => Some (S k + wr_lag w)%nat | None => None end.

(** * The writer task *)

Fixpoint writer_loop (fault : option (nat * (nat * IoError))) (chunks : list bytes) (file : bytes) : Res GitError unit * bytes :=
  match chunks with
  | [] => (Ok tt, file)
  | chunk :: chunks =>
      match fault with
      | Some (O, (n, err)) => (Err (IOError err), file ++ take n chunk)
      | Some (S k, f) => writer_loop (Some (k, f)) chunks (file ++ chunk)
      | None => writer_loop None chunks (file ++ chunk)
      end
  end.

Definition writer_task (w : Writing) (chunks : list bytes) : Res GitError unit * bytes :=
  let '(r, file) := writer_loop (wr_fault w) chunks [] in
  (let! _ := r in map_err IOError (wr_flush w), file).

(** [writer.await], the error of the join first, then that of the task. *)
Definition join_writer (what : bytes) (w : Writing) (open : bool) (r : Res GitError unit) : Res GitError unit :=
  if open then OutOfFuel
  else
    let! _ := map_err (fun text => PackEncodeError (what ++ str " writer task join error: " ++ text)) (wr_join w) in
    r.

(** * Writing the two files *)

Section output.
Context `{Build} `{TextEnv} `{HexCrate} `{Hasher} `{Crc32} `{AHash} `{SliceSort}.
Context (little_endian : bool) (compress : bytes -> bytes) (diff : bytes -> bytes -> list DeltaEncode.Callback)
  (zstd_diff : bytes -> bytes -> Res bytes bytes).
Context (address_cmp : MetaAttached Entry EntryMeta -> MetaAttached Entry EntryMeta -> comparison).
Context (num_threads : Z) (pack_threads : option Z) (pool_build : Z -> Res bytes unit) (join_error_text : bytes).

#[local] Notation encode := (encode_pack little_endian compress diff zstd_diff address_cmp num_threads pack_threads pool_build join_error_text).

Definition tmp_path (out : Output) (output_dir : bytes) : bytes :=
  path_join output_dir (out_timestamp out ++ str "objects.pack.tmp").

Definition pack_name (output_dir : bytes) (h : ObjectHash.t) : bytes :=
  path_join output_dir (str "pack-" ++ ObjectHash.fmt h ++ str ".pack").

Definition idx_name (output_dir : bytes) (h : ObjectHash.t) : bytes :=
  path_join output_dir (str "pack-" ++ ObjectHash.fmt h ++ str ".idx").

(** [rename]: the target is replaced. *)
Definition rename (from to : bytes) (files : Files) : Files :=
  match files !! from with
  | Some content => <[to := content]> (delete from files)
  | None => files
  end.

(** From [File::create(&final_idx_name)] on. *)
Definition output_idx (out : Output) (files : Files) (final_idx_name : bytes) (e : PackEncoder) : Res GitError unit * Files :=
  on! _ := map_err IOError (out_create_idx out) at files in
  let files := <[final_idx_name := []]> files in
  match encode_idx_file e with
  | Ok e =>
      let '(idx_write_result, content) := writer_task (out_idx out) (idx_received e) in
      (join_writer (str "idx") (out_idx out) (idx_sender e) idx_write_result, <[final_idx_name := content]> files)
  | r => ((let! _ := r in Ok tt), <[final_idx_name := out_idx_left out]> files)
  end.

(** [max_capacity] is that of the input channel. *)
Definition encode_and_output_to_files_with_hash_kind (hash_kind : HashKind.t) (max_capacity : Z)
  (input : list (MetaAttached Entry EntryMeta)) (object_number : Z) (output_dir : bytes) (window_size : Z)
  (out : Output) (files : Files) : Res GitError unit * Files :=
  let pack_encoder := new_with_idx_and_hash_kind hash_kind object_number window_size
                        (channel_leaves (out_pack out)) (channel_leaves (out_idx out)) in
  let tmp := tmp_path out output_dir in
  on! _ := map_err IOError (out_create_pack out) at files in
  let files := <[tmp := []]> files in
  let '(encoded, pack_encoder) := encode max_capacity pack_encoder input in
  let '(pack_write_result, content) := writer_task (out_pack out) (pack_received pack_encoder) in
  let files := <[tmp := content]> files in
  on! _ := encoded at files in
  on! _ := join_writer (str "pack") (out_pack out) (pack_sender pack_encoder) pack_write_result at files in
  on! h := or_panic (final_hash pack_encoder) at files in
  on! _ := map_err IOError (out_rename out) at files in
  output_idx out (rename tmp (pack_name output_dir h) files) (idx_name output_dir h) pack_encoder.

(** The kind is read from the thread of the caller, before the future is polled. *)
Definition encode_and_output_to_files (thread_kind : HashKind.t) := encode_and_output_to_files_with_hash_kind thread_kind.

End output.

(** * Proofs *)

(** ** What an encoder that returns has sent *)

(** The running hash is that of what was sent. *)
Definition live `{Hasher} (kind : HashKind.t) (e : PackEncoder) : Prop :=
  pack_sender e = true /\ pe_hash_kind e = kind
  /\ pe_inner_hash e = HashAlgorithm_update (HashAlgorithm_new_for_kind kind) (concat (pack_received e)).

(** Nothing was sent yet. *)
Definition fresh `{Hasher} (kind : HashKind.t) (e : PackEncoder) : Prop :=
  pack_sender e = true /\ pe_hash_kind e = kind /\ pe_inner_hash e = HashAlgorithm_new_for_kind kind /\ pack_received e = [].

(** A finished encoder has sent a body and its digest, and has closed its channel. *)
Definition sealed `{Hasher} (kind : HashKind.t) (e : PackEncoder) : Prop :=
  exists body, let h := ObjectHash_new_for_kind kind body in
    pack_sender e = false /\ final_hash e = Some h /\ concat (pack_received e) = body ++ ObjectHash.to_data h.

(** The rest of a computation whose first step may fail. *)
Lemma after_ok_inv {S A B} (m : Res GitError A) (e : S) (k : A -> Res GitError B * S) b e' :
  after_ok m e k = (Ok b, e') -> exists a, m = Ok a /\ k a = (Ok b, e').
Proof. destruct m as [a| | |]; cbn; try discriminate. intros Hk. by exists a. Qed.

Ltac step_ok H :=
  let a := fresh "a" in let Ha := fresh "Ha" in apply after_ok_inv in H as (a & Ha & H).

Section sealing.
Context `{Build} `{TextEnv} `{HexCrate} `{HasherLaws} `{Crc32} `{AHash} `{SliceSort}.
Context (little_endian : bool) (compress : bytes -> bytes) (diff : bytes -> bytes -> list DeltaEncode.Callback)
  (zstd_diff : bytes -> bytes -> Res bytes bytes).
Context (address_cmp : MetaAttached Entry EntryMeta -> MetaAttached Entry EntryMeta -> comparison).
Context (num_threads : Z) (pack_threads : option Z) (pool_build : Z -> Res bytes unit) (join_error_text : bytes).
Context (kind : HashKind.t).

Lemma send_pack_data_inv e data e' : pack_sender e = true -> send_pack_data e data = Ok e' ->
  pack_sender e' = true /\ pe_hash_kind e' = pe_hash_kind e /\ pe_inner_hash e' = pe_inner_hash e
  /\ pack_received e' = pack_received e ++ [data] /\ final_hash e' = final_hash e.
Proof.
  unfold send_pack_data. intros Hs. rewrite Hs. destruct (pack_leaves e) as [[|n]|]; intros [= <-]; cbn; done.
Qed.

Lemma update_send_live e data n e' : live kind e -> send_pack_data (update_hash e data n) data = Ok e' -> live kind e'.
Proof.
  intros (Hs & Hk & Hh) Hsend. apply send_pack_data_inv in Hsend as (Hs' & Hk' & Hh' & Hr' & _); [|done]. cbn in *.
  split; [done|]. split; [congruence|]. by rewrite Hh', Hh, update_app, Hr', concat_snoc.
Qed.

(** The header, hashed before or after it is sent. *)
Lemma first_send_live e head n e' : fresh kind e -> send_pack_data (update_hash e head n) head = Ok e' -> live kind e'.
Proof.
  intros (Hs & Hk & Hh & Hr) Hsend. apply send_pack_data_inv in Hsend as (Hs' & Hk' & Hh' & Hr' & _); [|done]. cbn in *.
  split; [done|]. split; [congruence|]. rewrite Hh', Hh, Hr', Hr. cbn. by rewrite app_nil_r.
Qed.

Lemma first_update_live e head n e' : fresh kind e -> send_pack_data e head = Ok e' -> live kind (update_hash e' head n).
Proof.
  intros (Hs & Hk & Hh & Hr) Hsend. apply send_pack_data_inv in Hsend as (Hs' & Hk' & Hh' & Hr' & _); [|done].
  split; [done|]. cbn. split; [congruence|]. rewrite Hh', Hh, Hr', Hr. cbn. by rewrite app_nil_r.
Qed.

Lemma write_entry_live e enc i e' i' : live kind e -> write_entry e enc i = Ok (e', i') -> live kind e'.
Proof.
  intros Hl. unfold write_entry, write_owned_and_update. destruct (send_pack_data _ _) as [e1| | |] eqn:E; cbn; intros [=].
  subst. by eapply update_send_live.
Qed.

Lemma write_results_live e results acc l e' : live kind e -> write_results e results acc = (Ok l, e') -> live kind e'.
Proof.
  revert e acc. induction results as [|[enc i] results IH]; intros e acc Hl; cbn [write_results].
  - by intros [= _ <-].
  - intros Hw. step_ok Hw. destruct a as [e1 i1]. eapply IH; [|exact Hw]. by eapply write_entry_live.
Qed.

Lemma write_batch_live e results acc l e' : live kind e -> write_batch e results acc = (Ok l, e') -> live kind e'.
Proof.
  revert e acc. induction results as [|r results IH]; intros e acc Hl; cbn [write_batch].
  - by intros [= _ <-].
  - intros Hw. step_ok Hw. destruct a as [enc i]. step_ok Hw. destruct a as [e1 i1].
    eapply IH; [|exact Hw]. by eapply write_entry_live.
Qed.

Lemma receive_batch_live n e input batch r e' : live kind e -> receive_batch n e input batch = (r, e') -> live kind e'.
Proof.
  revert e input batch. induction n as [|n IH]; intros e [|x input] batch Hl; cbn [receive_batch]; try by intros [= _ <-].
  destruct (ObjectType.is_ai_object _); [by intros [= _ <-]|]. destruct (check_entry_kind _ _); cbn [after_ok]; try by intros [= _ <-].
  by apply IH.
Qed.

Lemma batch_loop_live fuel n e input acc l e' : live kind e -> batch_loop compress fuel n e input acc = (Ok l, e') -> live kind e'.
Proof.
  revert e input acc. induction fuel as [|fuel IH]; intros e input acc Hl; cbn [batch_loop]; [intros [=]|].
  destruct (receive_batch n e input []) as [r e1] eqn:Er. pose proof (receive_batch_live _ _ _ _ _ _ Hl Er) as Hl1.
  intros Hw. step_ok Hw. destruct a as [[|x batch] rest]; [by injection Hw as _ <-|].
  destruct (any_panic _); [discriminate Hw|]. destruct (write_batch _ _ _) as [r2 e2] eqn:Ew.
  step_ok Hw. subst r2. eapply IH; [|exact Hw]. by eapply write_batch_live.
Qed.

Lemma write_checksum_seals e e' : live kind e -> write_checksum e = Ok e' -> sealed kind e'.
Proof.
  intros (Hs & Hk & Hh). unfold write_checksum. destruct (send_pack_data _ _) as [e1| | |] eqn:E; cbn [rbind]; intros [= <-].
  apply send_pack_data_inv in E as (_ & _ & _ & Hr & Hf); [|done]. cbn in Hr, Hf.
  exists (concat (pack_received e)). cbn [pack_sender final_hash pack_received drop_pack_sender]. split; [done|].
  unfold ObjectHash_new_for_kind. rewrite Hf, Hr, concat_snoc, Hh. done.
Qed.

Lemma encode_pack_seals cap e input e' : fresh kind e ->
  encode_pack little_endian compress diff zstd_diff address_cmp num_threads pack_threads pool_build join_error_text cap e input = (Ok tt, e') ->
  sealed kind e'.
Proof.
  intros Hl. unfold encode_pack. destruct (pe_window_size e =? 0) eqn:Ew; intros Hw.
  - unfold parallel_encode in Hw. rewrite Ew in Hw. cbn [negb] in Hw. step_ok Hw. step_ok Hw.
    destruct (start_encoding a0); [discriminate Hw|]. destruct (batch_loop _ _ _ _ _ _) as [r e2] eqn:Eb. step_ok Hw. subst r.
    apply batch_loop_live in Eb; [|by eapply first_send_live]. destruct (negb _); [discriminate Hw|]. step_ok Hw. injection Hw as <-.
    by apply write_checksum_seals in Ha1.
  - unfold inner_encode in Hw. step_ok Hw. step_ok Hw. cbv zeta in Hw. destruct (start_encoding _); [discriminate Hw|].
    do 6 step_ok Hw. destruct (write_results _ _ _) as [r e2] eqn:Er. step_ok Hw. subst r.
    apply write_results_live in Er; [|by eapply first_update_live]. step_ok Hw. injection Hw as <-.
    apply write_checksum_seals in Ha7; [done|]. exact Er.
Qed.

Lemma new_encoder_fresh n window leaves leaves' : fresh kind (new_with_idx_and_hash_kind kind n window leaves leaves').
Proof. done. Qed.

End sealing.

(** ** Names of files *)

Lemma path_join_inj dir a b : path_join dir a = path_join dir b -> a = b.
Proof. unfold path_join. destruct (last dir); [|done]. destruct (_ =? 47); [by intros ?%app_inv_head|]. intros ?%app_inv_head. by simplify_eq. Qed.

(** Names with different last characters are different paths. *)
Lemma paths_differ dir a b x y : last a = Some x -> last b = Some y -> x <> y -> path_join dir a <> path_join dir b.
Proof. intros Ha Hb Hxy E. apply path_join_inj in E as ->. congruence. Qed.

Lemma last_suffix {A} (a b : list A) x : last b = Some x -> last (a ++ b) = Some x.
Proof. intros Hb. by rewrite last_app, Hb. Qed.

(** The temporary file, the packs and the indexes never share a path. *)
Lemma output_paths `{HexCrate} out dir h h' :
  tmp_path out dir <> pack_name dir h /\ tmp_path out dir <> idx_name dir h /\ pack_name dir h <> idx_name dir h'.
Proof.
  assert (Ht : last (out_timestamp out ++ str "objects.pack.tmp") = Some 112) by (by apply last_suffix).
  assert (Hp : forall h, last (str "pack-" ++ ObjectHash.fmt h ++ str ".pack") = Some 107) by (intros; by apply last_suffix, last_suffix).
  assert (Hi : forall h, last (str "pack-" ++ ObjectHash.fmt h ++ str ".idx") = Some 120) by (intros; by apply last_suffix, last_suffix).
  split_and!; eapply paths_differ; eauto; done.
Qed.

(** ** The writer *)

Lemma writer_loop_ok fault chunks file content : writer_loop fault chunks file = (Ok tt, content) -> content = file ++ concat chunks.
Proof.
  revert fault file. induction chunks as [|c chunks IH]; intros fault file; cbn [writer_loop concat].
  - intros [= <-]. by rewrite app_nil_r.
  - rewrite app_assoc. destruct fault as [[[|k] [n err]]|]; [discriminate|apply IH|apply IH].
Qed.

Lemma writer_task_ok w chunks content : writer_task w chunks = (Ok tt, content) -> content = concat chunks.
Proof.
  unfold writer_task. destruct (writer_loop _ _ _) as [[[]| | |] file] eqn:E; cbn [rbind]; try discriminate.
  intros [= _ <-]. by apply writer_loop_ok in E.
Qed.

Lemma writer_loop_done chunks file : writer_loop None chunks file = (Ok tt, file ++ concat chunks).
Proof.
  revert file. induction chunks as [|c chunks IH]; intros file; cbn [writer_loop concat]; [by rewrite app_nil_r|]. by rewrite IH, app_assoc.
Qed.

(** No chunk fails, and the file can be flushed. *)
Definition undisturbed (w : Writing) : Prop := wr_fault w = None /\ wr_flush w = Ok tt /\ wr_join w = Ok tt.

Lemma writer_undisturbed what w chunks : undisturbed w ->
  writer_task w chunks = (Ok tt, concat chunks) /\ channel_leaves w = None /\ forall r, join_writer what w false r = r.
Proof.
  intros (Hf & Hfl & Hj). unfold writer_task, channel_leaves, join_writer. rewrite Hf, Hfl, Hj, writer_loop_done. done.
Qed.

(** The file system answers every call with success. *)
Definition smooth (out : Output) : Prop :=
  out_create_pack out = Ok tt /\ undisturbed (out_pack out) /\ out_rename out = Ok tt /\ out_create_idx out = Ok tt
  /\ undisturbed (out_idx out).

(** * Whatever the file system does *)

Section faults.
Context `{Build} `{TextEnv} `{HexCrate} `{HasherLaws} `{Crc32} `{AHash} `{SliceSort}.
Context (little_endian : bool) (compress : bytes -> bytes) (diff : bytes -> bytes -> list DeltaEncode.Callback)
  (zstd_diff : bytes -> bytes -> Res bytes bytes).
Context (address_cmp : MetaAttached Entry EntryMeta -> MetaAttached Entry EntryMeta -> comparison).
Context (num_threads : Z) (pack_threads : option Z) (pool_build : Z -> Res bytes unit) (join_error_text : bytes).

(** Every path of the disk after a run: unchanged, or the temporary file, or one of the two files
    of a whole pack named after its digest. *)
Definition published (kind : HashKind.t) (out : Output) (dir : bytes) (files files' : Files) (p : bytes) : Prop :=
  files' !! p = files !! p \/ p = tmp_path out dir \/
  exists body, let h := ObjectHash_new_for_kind kind body in
    files' !! pack_name dir h = Some (body ++ ObjectHash.to_data h) /\ (p = pack_name dir h \/ p = idx_name dir h).

Lemma output_idx_paths out files name e r files' : output_idx out files name e = (r, files') ->
  forall p, p <> name -> files' !! p = files !! p.
Proof.
  unfold output_idx. intros Hr p Hp. destruct (out_create_idx out); cbn [map_err after_ok] in Hr; try by simplify_eq.
  destruct (encode_idx_file e) as [e'| | |]; [destruct (writer_task _ _)|..]; injection Hr as _ <-; by rewrite !lookup_insert_ne by done.
Qed.

(** A run either changes nothing but the temporary file, or had a whole pack before it renamed it. *)
Lemma output_runs kind cap input n dir window out files r files' :
  encode_and_output_to_files_with_hash_kind little_endian compress diff zstd_diff address_cmp num_threads pack_threads pool_build
    join_error_text kind cap input n dir window out files = (r, files') ->
  (r <> Ok tt /\ forall p, p <> tmp_path out dir -> files' !! p = files !! p)
  \/ exists body e, let h := ObjectHash_new_for_kind kind body in
       output_idx out (rename (tmp_path out dir) (pack_name dir h) (<[tmp_path out dir := body ++ ObjectHash.to_data h]> files))
         (idx_name dir h) e = (r, files').
Proof.
  unfold encode_and_output_to_files_with_hash_kind. set (tmp := tmp_path out dir).
  destruct (out_create_pack out) as [[]| | |]; cbn [map_err after_ok];
    try by (intros [= <- <-]; left; split; [discriminate|done]).
  destruct (encode_pack _ _ _ _ _ _ _ _ _ _ _ _) as [encoded e] eqn:Ee.
  destruct (writer_task _ _) as [wr content] eqn:Ew.
  assert (Hfail : forall q : Res GitError unit, q <> Ok tt -> (q, <[tmp := content]> (<[tmp := []]> files)) = (r, files') ->
    r <> Ok tt /\ forall p, p <> tmp -> files' !! p = files !! p).
  { intros q Hq [= <- <-]. split; [done|]. intros p Hp. by rewrite !lookup_insert_ne by done. }
  destruct encoded as [[]| | |]; cbn [after_ok]; try by (intros Hr; left; refine (Hfail _ _ Hr); discriminate).
  destruct (encode_pack_seals _ _ _ _ _ _ _ _ _ kind _ _ _ _ (new_encoder_fresh kind _ _ _ _) Ee) as (body & Hs & Hh & Hsent).
  rewrite Hs, Hh. unfold join_writer. destruct (wr_join _) as [[]| | |]; cbn [map_err rbind after_ok];
    try by (intros Hr; left; refine (Hfail _ _ Hr); discriminate).
  destruct wr as [[]| | |]; cbn [after_ok]; try by (intros Hr; left; refine (Hfail _ _ Hr); discriminate).
  apply writer_task_ok in Ew as ->. cbn [or_panic after_ok]. rewrite Hsent, insert_insert_eq.
  destruct (out_rename out) as [[]| | |]; cbn [map_err after_ok].
  2-4: intros [= <- <-]; left; split; [done|]; intros p Hp; by rewrite !lookup_insert_ne by done.
  intros Hr. right. by exists body, e.
Qed.

(** C30: a pack that appears under its final name is whole, whatever the file system does: after every
    run, successful or not, each path of the disk is as before, or is the temporary file, or is the
    pack or the index of a pack whose file holds a body followed by the digest of that body, the
    digest in its name; and a run that returns without an error leaves no temporary file. *)
Theorem output_publishes_whole_packs kind cap input n dir window out files r files' :
  encode_and_output_to_files_with_hash_kind little_endian compress diff zstd_diff address_cmp num_threads pack_threads pool_build
    join_error_text kind cap input n dir window out files = (r, files') ->
  (forall p, published kind out dir files files' p) /\ (r = Ok tt -> files' !! tmp_path out dir = None).
Proof.
  intros [[Hr Hsame] | (body & e & Hidx)]%output_runs.
  - split; [|done]. intros p. destruct (decide (p = tmp_path out dir)); [by right; left|left; by apply Hsame].
  - set (h := ObjectHash_new_for_kind kind body) in *. pose proof (output_idx_paths _ _ _ _ _ _ Hidx) as Hp.
    destruct (output_paths out dir h h) as (Htp & Hti & Hpi). unfold rename in Hp. rewrite lookup_insert_eq in Hp.
    split.
    + intros p. destruct (decide (p = tmp_path out dir)); [by right; left|].
      destruct (decide (p = idx_name dir h)); [|destruct (decide (p = pack_name dir h))].
      1-2: right; right; exists body; (split; [by rewrite Hp, lookup_insert_eq|tauto]).
      left. rewrite Hp, lookup_insert_ne, lookup_delete_ne, lookup_insert_ne by done. done.
    + intros _. by rewrite Hp, lookup_insert_ne, lookup_delete_eq by done.
Qed.

End faults.

(** * When the file system does not fail *)


(** * Concrete runs *)

Definition calm : Writing := mkWriting None 0 (Ok tt) (Ok tt).

Definition calm_output : Output := mkOutput (str "20240101120000.000") (Ok tt) calm (Ok tt) (Ok tt) calm [].

Abbreviation toy_output := (@encode_and_output_to_files_with_hash_kind true plain_texts hex_reference toy_hasher toy_crc32 toy_ahash insertion_sort
  true stored_compress (fun _ _ => []) (fun _ _ => Err []) (fun _ _ => Eq) 8 None (fun _ => Ok tt) []).


(** The index cannot be created: the pack is published all the same. *)
Definition no_idx_output : Output :=
  mkOutput (str "20240101120000.000") (Ok tt) calm (Ok tt) (Err UnexpectedEof) calm [].

Definition no_idx_files : Files := Eval vm_compute in (toy_output HashKind.Sha1 1024 toy_input 2 (str "objects") 10 no_idx_output ∅).2.

Lemma output_publishes_whole_packs_witness :
  toy_output HashKind.Sha1 1024 toy_input 2 (str "objects") 10 no_idx_output ∅ = (Err (IOError UnexpectedEof), no_idx_files)
  /\ size no_idx_files = 1%nat
  /\ (forall p, @published hex_reference toy_hasher HashKind.Sha1 no_idx_output (str "objects") ∅ no_idx_files p)
  /\ (Err (IOError UnexpectedEof) = Ok tt -> no_idx_files !! tmp_path no_idx_output (str "objects") = None).
Proof.
  assert (E : toy_output HashKind.Sha1 1024 toy_input 2 (str "objects") 10 no_idx_output ∅ = (Err (IOError UnexpectedEof), no_idx_files))
    by (vm_compute; reflexivity).
  split; [exact E|]. split; [vm_compute; reflexivity|].
  exact (@output_publishes_whole_packs true plain_texts hex_reference toy_hasher toy_hasher_laws toy_crc32 toy_ahash insertion_sort
    true stored_compress (fun _ _ => []) (fun _ _ => Err []) (fun _ _ => Eq) 8 None (fun _ => Ok tt) [] HashKind.Sha1 1024 toy_input 2
    (str "objects") 10 no_idx_output ∅ _ _ E).
Defined.

(** The second chunk does not fit on the disk. *)
Definition full_disk : Output :=
  mkOutput (str "20240101120000.000") (Ok tt) (mkWriting (Some (1%nat, (0%nat, OtherIo "No space left on device"))) 0 (Ok tt) (Ok tt))
    (Ok tt) (Ok tt) calm [].

(** a full disk makes the encoder panic instead of returning the I/O error: the writer ends with its
    error and drops the receiver, and the encoder unwraps the failure of its next send.  The
    error of the writer is lost, and the temporary file stays behind, cut off. *)
Theorem full_disk_panics :
  let '(r, files') := toy_output HashKind.Sha1 1024 toy_input 2 (str "objects") 10 full_disk ∅ in
  r = Panic /\ files' !! tmp_path full_disk (str "objects") = Some (str "PACK" ++ [0; 0; 0; 2; 0; 0; 0; 2]).
Proof. vm_compute. split; reflexivity. Qed.
