(* ===== verification/FileDecode.v ===== *)
(** Decoding from files, [src/internal/pack/decode.rs]: how a [Pack] is set up, the dependency
    scan that follows an index (through a window of the file, on up to two threads), and the
    entry points that choose between streaming, a file found among the open descriptors, and a
    temporary copy, down to the arguments of [decode_inner] (the file [Pipeline]).

    The file system, the descriptor table and the environment are seen through their answers.
    Writing the temporary copy is taken to succeed; creating and flushing it may fail. *)

From Stdlib Require Import ZArith Lia String Permutation Sorted.
From stdpp Require Import base tactics list numbers option gmap.
From S2P Require Import Prelude Stream Text Errors ObjectTypes DeltaUtils DeltaFormat DeltaDecode RabinTables RabinIndex RabinDelta DeltaEncode PackUtils Hash Inflate PackIndex PackDecode Caches Pipeline PipelineProofs DecodeStream EntrySort DeltaSearch PackEncode PackRoundtrip PackStats.

Definition UNBOUNDED_CACHE_THRESHOLD_BYTES : Z := 1024 * 1024 * 1024.
Definition FILE_DECODE_BUFFER_SIZE : Z := 128 * 1024.
Definition PACK_OBJECT_PREFIX_READ_SIZE : Z := 96.
Definition PACK_SCAN_WINDOW_SIZE : Z := 8 * 1024.

(** * Setting up a pack *)

(** 80% of the limit, computed in [u128]. *)
Definition requested_cache (mem_limit : Z) : Z := as_u64 (mem_limit * 4 / 5).

Definition use_unbounded_cache (mem_limit : option Z) : bool :=
  match mem_limit with Some m => UNBOUNDED_CACHE_THRESHOLD_BYTES <=? requested_cache m | None => false end.

Definition decode_threads (available_parallelism : Res IoError Z) (num_cpus : Z) (thread_num mem_limit : option Z) : Z :=
  let available_threads := match available_parallelism with Ok n => n | _ => num_cpus end in
  if use_unbounded_cache mem_limit then 1 else Z.min (default num_cpus thread_num) available_threads.

Definition cache_mem_size (mem_limit : option Z) : option Z :=
  match mem_limit with
  | Some m => let requested := requested_cache m in if UNBOUNDED_CACHE_THRESHOLD_BYTES <=? requested then None else Some requested
  | None => None
  end.

Definition DEFAULT_TMP_DIR : bytes := str "./.cache_temp".

(** The loop over random names: the first whose directory does not exist. *)
Fixpoint fresh_temp_path (push : bytes -> bytes -> bytes) (exists_ : bytes -> bool) (names : list bytes) (temp_path : bytes)
  : Res Empty_set bytes :=
  match names with
  | [] => OutOfFuel
  | sub_dir :: names =>
      let path := push temp_path (take 8 sub_dir) in
      if negb (exists_ path) then Ok path else fresh_temp_path push exists_ names temp_path
  end.

(** A [Pack] before it decodes; its pool and its cache are given by their sizes. *)
Record Pack : Type := mkPack {
  pk_hash_kind : HashKind.t;
  pk_number : Z;
  pk_signature : ObjectHash.t;
  pk_threads : Z;
  pk_cache_mem_size : option Z;
  pk_temp_path : bytes;
  pk_mem_limit : option Z;
  pk_clean_tmp : bool
}.

(** The pools panic without a thread. *)
Definition Pack_new_with_hash_kind (push : bytes -> bytes -> bytes) (exists_ : bytes -> bool) (uuids : list bytes)
  (available_parallelism : Res IoError Z) (num_cpus : Z) (hash_kind : HashKind.t) (thread_num mem_limit : option Z)
  (temp_path : option bytes) (clean_tmp : bool) : Res Empty_set Pack :=
  let! temp_path := fresh_temp_path push exists_ uuids (default DEFAULT_TMP_DIR temp_path) in
  let thread_num := decode_threads available_parallelism num_cpus thread_num mem_limit in
  if thread_num =? 0 then Panic
  else Ok (mkPack hash_kind 0 (ObjectHash.zero_for_kind hash_kind) thread_num (cache_mem_size mem_limit) temp_path mem_limit clean_tmp).

(** * Options *)

Inductive FileDecodeMode : Type := RetainAll | SkipUnneeded.

Record DecodeScan : Type := mkDecodeScan {
  ds_retention : DecodeRetention;
  object_hashes : option (list ObjectHash.t);
  object_crcs : option (list Z);
  ds_offsets : option (list Z);
  ds_pack_hash : option ObjectHash.t;
  pack_hash_check : option PackHashCheck
}.

(** What [decode_inner] is called with. *)
Record Job : Type := mkJob {
  job_params : SharedParams;
  job_options : DecodeOptions;
  job_counts : DecodeRetention;
  job_pack : bytes
}.

(** The retention modes: with or without a table, skipping or not. *)
Definition mode_params (mode : option FileDecodeMode) (callback low_memory : bool) : SharedParams :=
  match mode with
  | None => mkParams callback false false low_memory
  | Some RetainAll => mkParams callback true false low_memory
  | Some SkipUnneeded => mkParams callback true true low_memory
  end.

Definition streaming_job (callback low_memory : bool) (pack : bytes) : Job :=
  mkJob (mode_params None callback low_memory) streaming DecodeRetention_default pack.

(** [decode_file_inner_with_scan] up to the call of [decode_inner]. *)
Definition scan_job (pack_open : Res IoError bytes) (callback low_memory : bool) (mode : FileDecodeMode) (scan : DecodeScan)
  (sync_base_callbacks : bool) : Res GitError Job :=
  let expected_pack_hash :=
    match ds_pack_hash scan with Some h => Some h | None => check_payload <$> pack_hash_check scan end in
  let! pack := map_err (invalid_pack "Open pack file error: ") pack_open in
  Ok (mkJob (mode_params (Some mode) callback low_memory)
        (mkOptions (object_hashes scan) (object_crcs scan) (ds_offsets scan) expected_pack_hash
           (bool_decide (pack_hash_check scan = None)) sync_base_callbacks)
        (ds_retention scan) pack).

(** ... and after it: [signature] is what the decoding has left in the pack. *)
Definition after_job `{HexCrate} (check : option PackHashCheck) (signature : ObjectHash.t) (decode_result : Res GitError unit)
  : Res GitError unit :=
  let! _ := decode_result in
  match check with Some c => verify_pack_hash_check c signature | None => Ok tt end.

(** * The scan along an index *)

Section index_scan.
Context `{Build} `{TextEnv} `{HexCrate} `{Hasher} `{ZlibDecoder} `{SliceSort}.
(** [read_at] of the pack file: at an offset, into that much room. *)
Context (read_at : Z -> Z -> Res IoError bytes).

Definition saturating_add (a b : Z) : Z := Z.min (a + b) usize_max.

Definition window_size : Z := Z.max PACK_SCAN_WINDOW_SIZE PACK_OBJECT_PREFIX_READ_SIZE.

Definition scan_eof : GitError := InvalidPackFile (str "Unexpected EOF while scanning pack dependencies").

(** One object: the window moves when it does not hold the object's prefix.  [window] is the
    part of the buffer that was read, so [window_len] is its length. *)
Definition move_window (object_offset window_start : Z) (window : bytes) : Res GitError (Z * bytes) :=
  let required_end := saturating_add object_offset PACK_OBJECT_PREFIX_READ_SIZE in
  let window_end := saturating_add window_start (blen window) in
  if (blen window =? 0) || (object_offset <? window_start) || (window_end <? required_end) then
    let! window := map_err (invalid_pack "Read pack file error: ") (read_at object_offset window_size) in
    if blen window =? 0 then Err scan_eof else Ok (object_offset, window)
  else Ok (window_start, window).

Definition window_object (kind : HashKind.t) (object_offset window_start : Z) (window : bytes) (retention : DecodeRetention)
  : Res GitError ((Z * bytes) * DecodeRetention) :=
  let! '(window_start, window) := move_window object_offset window_start window in
  let prefix_start := object_offset - window_start in
  let prefix_len := Z.min (Z.max 0 (blen window - prefix_start)) PACK_OBJECT_PREFIX_READ_SIZE in
  if prefix_len =? 0 then Err scan_eof
  else
    let! object_prefix := or_panic (get_range window prefix_start (prefix_start + prefix_len)) in
    let! retention := scan_object_dependency object_prefix object_offset retention kind in
    Ok ((window_start, window), retention).

(** The whole loop on one thread. *)
Fixpoint window_loop (kind : HashKind.t) (objects : list Z) (window_start : Z) (window : bytes) (retention : DecodeRetention)
  : Res GitError DecodeRetention :=
  match objects with
  | [] => Ok retention
  | o :: objects =>
      let! '((window_start, window), retention) := window_object kind o window_start window retention in
      window_loop kind objects window_start window retention
  end.

Definition scan_object_dependencies_from_index_window (kind : HashKind.t) (objects : list Z) (retention : DecodeRetention)
  : Res GitError DecodeRetention :=
  window_loop kind objects 0 [] retention.

(** ** Threads *)

(** A scanning thread, and the result it ended with. *)
Inductive ScanThread : Type :=
| Scanning (todo : list Z) (window_start : Z) (window : bytes)
| Scanned (r : Res GitError unit).

(** The scope: one step is one object of one thread; the counters are shared. *)
Inductive scan_step (kind : HashKind.t) : list ScanThread * DecodeRetention -> list ScanThread * DecodeRetention -> Prop :=
| scan_object ts i o todo s w r s' w' r' :
    ts !! i = Some (Scanning (o :: todo) s w) -> window_object kind o s w r = Ok ((s', w'), r') ->
    scan_step kind (ts, r) (<[i := Scanning todo s' w']> ts, r')
| scan_fails ts i o todo s w r e :
    ts !! i = Some (Scanning (o :: todo) s w) -> window_object kind o s w r = Err e ->
    scan_step kind (ts, r) (<[i := Scanned (Err e)]> ts, r)
| scan_panics ts i o todo s w r :
    ts !! i = Some (Scanning (o :: todo) s w) -> window_object kind o s w r = Panic ->
    scan_step kind (ts, r) (<[i := Scanned Panic]> ts, r)
| scan_ends ts i s w r :
    ts !! i = Some (Scanning [] s w) -> scan_step kind (ts, r) (<[i := Scanned (Ok tt)]> ts, r).

Inductive scan_steps (kind : HashKind.t) : nat -> list ScanThread * DecodeRetention -> list ScanThread * DecodeRetention -> Prop :=
| scan_refl st : scan_steps kind 0 st st
| scan_more k st1 st2 st3 : scan_step kind st1 st2 -> scan_steps kind k st2 st3 -> scan_steps kind (S k) st1 st3.

(** [join] of the handles in order; [None] while a thread still scans. *)
Fixpoint join_scans (ts : list ScanThread) : option (Res GitError unit) :=
  match ts with
  | [] => Some (Ok tt)
  | Scanning _ _ _ :: _ => None
  | Scanned (Ok _) :: ts => join_scans ts
  | Scanned (Err e) :: _ => Some (Err e)
  | Scanned Panic :: _ => Some (Err (InvalidPackFile (str "Pack dependency scan panicked")))
  | Scanned OutOfFuel :: _ => Some OutOfFuel
  end.

(** [chunks(chunk_size)]. *)
Fixpoint chunks (fuel : nat) (n : nat) (l : list Z) : list (list Z) :=
  match fuel, l with
  | O, _ | _, [] => []
  | S fuel, _ => take n l :: chunks fuel n (drop n l)
  end.

Definition scan_threads (available_parallelism : Res IoError Z) (objects : list Z) : Z :=
  Z.min (Z.min (match available_parallelism with Ok n => n | _ => 1 end) (blen objects)) 2.

Definition scan_chunks (scan_threads : Z) (objects : list Z) : list (list Z) :=
  chunks (length objects) (Z.to_nat (div_ceil (blen objects) scan_threads)) objects.

(** What the scan of all objects may leave: the result and the counters. *)
Definition scan_objects (kind : HashKind.t) (available_parallelism : Res IoError Z) (objects : list Z) (result : Res GitError unit)
  (retention : DecodeRetention) : Prop :=
  let n := scan_threads available_parallelism objects in
  if n <=? 1 then
    match scan_object_dependencies_from_index_window kind objects DecodeRetention_default with
    | Ok r => result = Ok tt /\ retention = r
    | Err e => result = Err e
    | Panic => result = Panic
    | OutOfFuel => result = OutOfFuel
    end
  else
    exists k ts, scan_steps kind k (map (fun c => Scanning c 0 []) (scan_chunks n objects), DecodeRetention_default) (ts, retention)
      /\ join_scans ts = Some result.

(** ** The index *)

Definition parse_any_idx (f : PackFiles) (kind : HashKind.t) : Res GitError (IdxV2 * bool) :=
  let! idx_file := map_err (idx_unreadable f) (pf_idx_open f) in
  let! idx_len := map_err (invalid_pack "Read pack index metadata error: ") (pf_idx_len f) in
  let! '(magic, _) := map_err (invalid_pack "Read pack index magic error: ") (read_exact 4 idx_file) in
  if bool_decide (magic = be32 IDX_MAGIC) then
    let! parsed := parse_idx_v2_from idx_file kind idx_len in
    Ok (parsed, true)
  else if bool_decide (kind = HashKind.Sha1) then
    let! parsed := parse_idx_v1 idx_file in
    Ok (parsed, false)
  else Err (InvalidPackFile (str "Pack index " ++ pf_idx_path f ++ str " is neither v2 nor a SHA-1 v1 index ("
                               ++ HashKind.as_str kind ++ str " repository)")).

(** [windows(2)] with equal offsets. *)
Fixpoint repeated_offset (l : list PackIndex.IndexEntry) : option Z :=
  match l with
  | a :: (b :: _) as l' => if ie_offset a =? ie_offset b then Some (ie_offset a) else repeated_offset l'
  | _ => None
  end.

(** The objects in the order of the pack, and whether their CRCs are known. *)
Definition objects_by_offset (f : PackFiles) (kind : HashKind.t) (try_clone : Res IoError unit)
  : Res GitError ((list PackIndex.IndexEntry * bool) * ObjectHash.t) :=
  let! '(parsed, crcs_known) := parse_any_idx f kind in
  let object_num := blen (idx_entries parsed) in
  let! objects := unwrap (sort_by (fun a b => Ok (ie_offset a ?= ie_offset b)) (idx_entries parsed)) in
  match repeated_offset objects with
  | Some o => Err (InvalidPackFile (str "Pack index lists offset " ++ show_dec o ++ str " more than once"))
  | None =>
      let! pack := map_err (invalid_pack "Open pack file error: ") (pf_pack_open f) in
      let! _ := map_err (invalid_pack "Open pack file error: ") try_clone in
      let! '((header_object_num, _), _) := check_header pack in
      if negb (header_object_num =? object_num)
      then Err (InvalidPackFile (str "Pack index object count " ++ show_dec object_num ++ str " does not match pack header "
                  ++ show_dec header_object_num))
      else Ok ((objects, crcs_known), idx_pack_hash parsed)
  end.

Definition index_decode_scan (objects : list PackIndex.IndexEntry) (crcs_known : bool) (pack_hash : ObjectHash.t)
  (retention : DecodeRetention) : DecodeScan :=
  mkDecodeScan retention (Some (map ie_hash objects)) (if crcs_known then Some (map crc32 objects) else None)
    (Some (map ie_offset objects)) (Some pack_hash) None.

(** What [scan_decode_retention_from_index] may return. *)
Definition scan_decode_retention_from_index (f : PackFiles) (kind : HashKind.t) (try_clone : Res IoError unit)
  (available_parallelism : Res IoError Z) (r : Res GitError DecodeScan) : Prop :=
  match objects_by_offset f kind try_clone with
  | Ok ((objects, crcs_known), pack_hash) =>
      exists result retention, scan_objects kind available_parallelism (map ie_offset objects) result retention
        /\ r = let! _ := result in Ok (index_decode_scan objects crcs_known pack_hash retention)
  | Err e => r = Err e
  | Panic => r = Panic
  | OutOfFuel => r = OutOfFuel
  end.

(** * Entry points *)

(** [scan_decode_retention] as a [DecodeScan]. *)
Definition plain_scan (pack : bytes) (kind : HashKind.t) : Res GitError DecodeScan :=
  let! retention := scan_decode_retention pack kind in
  Ok (mkDecodeScan retention None None None None None).

(** [scan_decode_retention_and_copy] of a stream that arrives in the given pieces. *)
Definition scan_decode_retention_and_copy (pieces : list bytes) (kind : HashKind.t) : Res GitError DecodeScan :=
  let! scan := plain_scan (concat pieces) kind in
  let! tee := unwrap (record_all (tee_new kind) pieces) in
  let! check := finish_pack_hash_check tee in
  Ok (mkDecodeScan (ds_retention scan) None None None None (Some check)).

(** [decode_file_inner_with_sync_base_callbacks] up to the call of [decode_inner]. *)
Definition decode_file_inner (f : PackFiles) (kind : HashKind.t) (try_clone : Res IoError unit) (available_parallelism : Res IoError Z)
  (callback low_memory : bool) (mode : FileDecodeMode) (r : Res GitError Job) : Prop :=
  match pf_idx_stat f with
  | Ok _ =>
      exists scan, scan_decode_retention_from_index f kind try_clone available_parallelism scan
        /\ r = let! scan := scan in scan_job (pf_pack_open f) callback low_memory mode scan true
  | Err StatNotFound =>
      r = let! pack := map_err (invalid_pack "Open pack file error: ") (pf_pack_open f) in
          let! scan := plain_scan pack kind in
          scan_job (pf_pack_open f) callback low_memory mode scan true
  | Err (StatOther e) => r = Err (idx_unreadable f e)
  | Panic => r = Panic
  | OutOfFuel => r = OutOfFuel
  end.

End index_scan.

(** * Finding the file behind a reader *)

(** [str::trim] of a line, on its characters. *)
Fixpoint trim_start (cs : list Z) : list Z :=
  match cs with c :: cs' => if is_whitespace c then trim_start cs' else cs | [] => [] end.

Definition trim_chars (cs : list Z) : list Z := reverse (trim_start (reverse (trim_start cs))).

(** An open descriptor: the text of its [fdinfo], the path behind it with its extension, and
    whether that path and the path of its index are files. *)
Record Fd : Type := mkFd {
  fd_info : option bytes;
  fd_link : option bytes;
  fd_extension : option bytes;
  fd_is_file : bool;
  fd_idx_is_file : bool
}.

Definition fd_position_is_start (fd : Fd) : bool :=
  match fd_info fd with
  | None => false
  | Some fdinfo =>
      existsb (fun line =>
        match strip_prefix (str "pos:") line with
        | None => false
        | Some pos => bool_decide (trim_chars <$> utf8_chars pos = Some (str "0"))
        end) (str_lines fdinfo)
  end.

(** The path of a descriptor that is taken for the pack. *)
Definition fd_pack_path (fd : Fd) : option bytes :=
  if negb (fd_position_is_start fd) then None
  else
    match fd_link fd with
    | None => None
    | Some path =>
        if negb (bool_decide (fd_extension fd = Some (str "pack"))) then None
        else if negb (fd_is_file fd) || negb (fd_idx_is_file fd) then None
        else Some path
    end.

Fixpoint single_pack (found : option bytes) (fds : list Fd) : option bytes :=
  match fds with
  | [] => found
  | fd :: fds =>
      match fd_pack_path fd with
      | None => single_pack found fds
      | Some path => match found with Some _ => None | None => single_pack (Some path) fds end
      end
  end.

(** [None] for a directory that cannot be read. *)
Definition single_open_pack_path_at_start (fds : option (list Fd)) : option bytes :=
  match fds with None => None | Some fds => single_pack None fds end.

(** What the decoder asks of the file at a path. *)
Record Disk : Type := mkDisk {
  proc_fds : option (list Fd);
  files_at : bytes -> PackFiles;
  len_at : bytes -> Res IoError Z;
  read_file_at : bytes -> Z -> Z -> Res IoError bytes;
  try_clone : Res IoError unit;
  parallelism : Res IoError Z;
  temp_create : Res IoError unit;
  temp_flush : Res IoError unit
}.

(** The reader after the look at its buffer, and the answer. *)
Definition reader_matches_pack_prefix (d : Disk) (pack : list ReadEvent) (pack_path : bytes) : bool * list ReadEvent :=
  match fill_buf pack with
  | (Got prefix, pack) =>
      let answer :=
        if bool_decide (prefix = []) then false
        else
          match pf_pack_open (files_at d pack_path), len_at d pack_path with
          | Ok _, Ok len =>
              let min_prefix := Z.min 4096 len in
              if blen prefix <? min_prefix then false
              else
                let compare_len := Z.min (blen prefix) FILE_DECODE_BUFFER_SIZE in
                match read_file_at d pack_path 0 compare_len with
                | Ok file_prefix => (blen file_prefix =? compare_len) && bool_decide (file_prefix = take (Z.to_nat compare_len) prefix)
                | _ => false
                end
          | _, _ => false
          end in
      (answer, pack)
  | (_, pack) => (false, pack)
  end.

Definition read_pack_error (e : IoError) : GitError := invalid_pack "Read pack file error: " e.

(** [while bytes != 0]: every round takes a byte or meets a failure. *)
Fixpoint consume_reader_exact (fuel : nat) (pack : list ReadEvent) (bytes : Z) : Res GitError unit * list ReadEvent :=
  match fuel with
  | O => (OutOfFuel, pack)
  | S fuel =>
      if bytes =? 0 then (Ok tt, pack)
      else
        match fill_buf pack with
        | (Got buf, pack) =>
            if bool_decide (buf = [])
            then (Err (InvalidPackFile (str "Pack reader ended before matched pack bytes were consumed")), pack)
            else
              let consumed := Z.min bytes (blen buf) in
              consume_reader_exact fuel (consume consumed pack) (bytes - consumed)
        | (GotInterrupted, pack) => (Err (read_pack_error (OtherIo "interrupted")), pack)
        | (GotError e, pack) => (Err (read_pack_error e), pack)
        end
  end.

(** What [decode] does: decode a file and then skip that many bytes of the reader, decode a
    copy and then compare the hashes, or decode the stream. *)
Inductive Decoding : Type :=
| FromFile (job : Job) (skip : Z)
| FromCopy (job : Job) (check : option PackHashCheck)
| FromStream (job : Job).

Section decode.
Context `{Build} `{TextEnv} `{HexCrate} `{Hasher} `{ZlibDecoder} `{SliceSort}.

(** The data of a reader that does not fail, in the pieces it comes in. *)
Fixpoint stream_pieces (evs : list ReadEvent) : list bytes :=
  match evs with
  | Chunk d :: evs => d :: stream_pieces evs
  | Interrupted :: evs => stream_pieces evs
  | _ => []
  end.

Definition callback_mode (low_memory : bool) : FileDecodeMode := if low_memory then SkipUnneeded else RetainAll.

(** The way through a temporary copy. *)
Definition copy_decoding (d : Disk) (kind : HashKind.t) (low_memory : bool) (pack : list ReadEvent) : Res GitError Decoding :=
  let! _ := map_err (invalid_pack "Create temp pack file error: ") (temp_create d) in
  let! scan := scan_decode_retention_and_copy (stream_pieces pack) kind in
  let! _ := map_err (invalid_pack "Flush temp pack file error: ") (temp_flush d) in
  let! job := scan_job (Ok (concat (stream_pieces pack))) true low_memory (callback_mode low_memory) scan true in
  Ok (FromCopy job (pack_hash_check scan)).

Definition is_large (mem_limit : option Z) : bool :=
  match mem_limit with Some limit => UNBOUNDED_CACHE_THRESHOLD_BYTES <=? limit | None => false end.

(** [decode], up to the call of [decode_inner]; what it may choose, with the reader as it is then. *)
Definition decode (d : Disk) (kind : HashKind.t) (mem_limit : option Z) (low_memory : bool) (pack : list ReadEvent)
  (r : Res GitError Decoding) (pack' : list ReadEvent) : Prop :=
  if is_large mem_limit then
    match single_open_pack_path_at_start (proc_fds d) with
    | Some pack_path =>
        let '(matches, pack) := reader_matches_pack_prefix d pack pack_path in
        if matches then
          pack' = pack /\
          match len_at d pack_path with
          | Ok pack_len =>
              exists job, decode_file_inner (read_file_at d pack_path) (files_at d pack_path) kind (try_clone d) (parallelism d) true low_memory
                (callback_mode low_memory) job
              /\ r = let! job := job in Ok (FromFile job pack_len)
          | Err e => r = Err (read_pack_error e)
          | Panic => r = Panic
          | OutOfFuel => r = OutOfFuel
          end
        else r = copy_decoding d kind low_memory pack /\ pack' = pack
    | None => r = copy_decoding d kind low_memory pack /\ pack' = pack
    end
  else r = Ok (FromStream (streaming_job true low_memory (concat (stream_pieces pack)))) /\ pack' = pack.

(** The end of [decode]: the result of [decode_inner] with the signature it has left. *)
Definition decode_finish (c : Decoding) (signature : ObjectHash.t) (decode_result : Res GitError unit) (pack : list ReadEvent)
  : Res GitError unit * list ReadEvent :=
  match c with
  | FromFile _ skip =>
      match after_job None signature decode_result with
      | Ok _ => consume_reader_exact (S (length pack + Z.to_nat skip)) pack skip
      | r => (r, pack)
      end
  | FromCopy _ check => (after_job check signature decode_result, [])
  | FromStream _ => (decode_result, [])
  end.

End decode.

(** * The window *)

(** The dependency an entry starts with. *)
Definition dependency_at `{Build} `{TextEnv} (kind : HashKind.t) (s : bytes) (o : Z) : Res GitError (option Dependency) :=
  let! '(((type_bits, _), _), s) := map_err (invalid_pack "Read error: ") (read_type_and_varint_size o s) in
  let! t := ObjectType.from_pack_type_u8 type_bits in
  match t with
  | ObjectType.OffsetDelta | ObjectType.OffsetZstdelta =>
      let! '((delta_offset, n), s) := map_err (invalid_pack "Read error: ") (read_offset_encoding s) in
      if o <? delta_offset then Err (InvalidObjectInfo (str "Invalid OffsetDelta offset")) else Ok (Some (OnOffset (o - delta_offset)))
  | ObjectType.HashDelta =>
      let! '(ref_sha, s) := map_err (fun e => InvalidPackFile (str "Read error: " ++ hash_error_text e)) (read_object_id kind s) in
      Ok (Some (OnHash ref_sha))
  | ObjectType.Commit | ObjectType.Tree | ObjectType.Blob | ObjectType.Tag => Ok None
  | other => Err (InvalidPackFile (str "AI object type `" ++ ObjectType.fmt other ++ str "` cannot appear in a pack file"))
  end.

Definition add_deps (r : DecodeRetention) (ds : list Dependency) : DecodeRetention := fold_left add_dep ds r.

Lemma scan_object_dependency_eq `{Build} `{TextEnv} kind s o r :
  scan_object_dependency s o r kind = let! d := dependency_at kind s o in Ok (add_deps r (option_list d)).
Proof.
  unfold scan_object_dependency, dependency_at, scan_reference.
  destruct (read_type_and_varint_size o s) as [[[[bits size] off] rest]| | |]; try done. cbn [map_err rbind].
  destruct (ObjectType.from_pack_type_u8 bits) as [t| | |]; try done. cbn [rbind].
  destruct t; try done.
  1, 2: destruct (read_offset_encoding rest) as [[[dlt n] s1]| | |]; try done; cbn [map_err rbind]; by destruct (o <? dlt).
  by destruct (read_object_id kind rest) as [[h s1]| | |].
Qed.

Lemma take_length_take {A} n (l : list A) : take (length (take n l)) l = take n l.
Proof. rewrite <- (take_drop n l) at 2. by rewrite take_app_length. Qed.

Section windows.
Context `{Build} `{TextEnv}.
Context (pack : bytes) (read_at : Z -> Z -> Res IoError bytes).
(** A regular file: a read delivers all there is, up to the room. *)
Context (Hread : forall off room, 0 <= off -> 0 <= room -> read_at off room = Ok (take (Z.to_nat room) (drop (Z.to_nat off) pack))).
Context (Hpack : blen pack + PACK_OBJECT_PREFIX_READ_SIZE <= usize_max).

Definition prefix_at (o : Z) : bytes := take (Z.to_nat PACK_OBJECT_PREFIX_READ_SIZE) (drop (Z.to_nat o) pack).

(** The window holds what the file has there. *)
Definition window_ok (start : Z) (window : bytes) : Prop :=
  0 <= start /\ window = take (length window) (drop (Z.to_nat start) pack).

Lemma move_window_ok o start window :
  window_ok start window -> 0 <= o < blen pack ->
  exists start' window', move_window read_at o start window = Ok (start', window') /\ window_ok start' window'
    /\ start' <= o /\ Z.min (o + PACK_OBJECT_PREFIX_READ_SIZE) (blen pack) <= start' + blen window' <= blen pack.
Proof.
  intros [Hs Hw] Ho. unfold move_window, saturating_add.
  assert (Hlen : blen window = 0 \/ start + blen window <= blen pack).
  { pose proof (f_equal length Hw) as Hl. rewrite length_take, length_drop in Hl. unfold blen. lia. }
  destruct ((blen window =? 0) || (o <? start) || _) eqn:E.
  - rewrite Hread by (unfold window_size, PACK_SCAN_WINDOW_SIZE; lia). cbn [map_err rbind].
    set (w := take _ _). assert (Hl : blen w = Z.min window_size (blen pack - o)).
    { unfold w, blen. rewrite length_take, length_drop. unfold blen in Ho. unfold window_size, PACK_SCAN_WINDOW_SIZE, PACK_OBJECT_PREFIX_READ_SIZE. lia. }
    unfold window_size, PACK_SCAN_WINDOW_SIZE, PACK_OBJECT_PREFIX_READ_SIZE in *. replace (blen w =? 0) with false by lia.
    exists o, w. split; [done|]. split; [|lia]. split; [lia|]. unfold w. by rewrite take_length_take.
  - exists start, window. split; [done|]. split; [done|]. unfold PACK_OBJECT_PREFIX_READ_SIZE in *. lia.
Qed.

Lemma window_object_ok kind o start window r :
  window_ok start window -> 0 <= o < blen pack ->
  exists start' window', window_ok start' window'
    /\ window_object read_at kind o start window r
       = let! r := scan_object_dependency (prefix_at o) o r kind in Ok ((start', window'), r).
Proof.
  intros Hw Ho. destruct (move_window_ok o start window Hw Ho) as (s & w & Hm & [Hs Hwe] & Hle & Hend). exists s, w. split; [done|].
  unfold window_object. rewrite Hm. cbn [rbind]. unfold PACK_OBJECT_PREFIX_READ_SIZE in *.
  set (n := Z.min (Z.max 0 (blen w - (o - s))) 96). assert (Hn : n = Z.min 96 (blen pack - o) \/ n = 96) by lia.
  replace (n =? 0) with false by lia. rewrite get_range_ok by lia. cbn [or_panic rbind].
  replace (slice w (o - s) (o - s + n)) with (prefix_at o); [done|].
  unfold slice, prefix_at. rewrite Hwe, skipn_firstn_comm, drop_drop, take_take. unfold blen, PACK_OBJECT_PREFIX_READ_SIZE in *.
  replace (Z.to_nat s + Z.to_nat (o - s))%nat with (Z.to_nat o) by lia. replace (_ `min` _)%nat with (Z.to_nat n) by lia.
  destruct (decide (n = 96)) as [-> |Hne]; [done|]. rewrite !take_ge by (rewrite length_drop; lia). done.
Qed.

End windows.

(** * The threads of the scan *)

Lemma add_dependency_comm `{Countable K} (m : gmap K Z) a b : add_dependency (add_dependency m a) b = add_dependency (add_dependency m b) a.
Proof.
  destruct (decide (a = b)) as [-> |Hne]; [done|]. apply map_eq. intros k. unfold add_dependency.
  destruct (decide (k = a)) as [-> |Ha]; [|destruct (decide (k = b)) as [-> |Hb]];
    destruct (m !! a) eqn:E1, (m !! b) eqn:E2; repeat (rewrite ?lookup_insert_eq, ?lookup_insert_ne, ?E1, ?E2 by done); done.
Qed.

Lemma add_dep_comm r a b : add_dep (add_dep r a) b = add_dep (add_dep r b) a.
Proof.
  destruct a, b; cbn; try done; unfold add_offset_dependency, add_hash_dependency; cbn; f_equal; apply add_dependency_comm.
Qed.

(** The counters do not depend on the order of the references. *)
Lemma add_deps_perm r ds ds' : Permutation ds ds' -> add_deps r ds = add_deps r ds'.
Proof.
  intros Hp. revert r. induction Hp as [|x l l' _ IH|x y l|l l' l'' _ IH1 _ IH2]; intros r; cbn; [done|apply IH|by rewrite add_dep_comm|].
  by rewrite IH1, IH2.
Qed.

Lemma add_deps_app r ds ds' : add_deps r (ds ++ ds') = add_deps (add_deps r ds) ds'.
Proof. apply fold_left_app. Qed.

Section threads.
Context `{Build} `{TextEnv} `{HexCrate}.
Context (pack : bytes) (read_at : Z -> Z -> Res IoError bytes) (kind : HashKind.t) (objects : list Z) (dep : Z -> option Dependency).
Context (Hread : forall off room, 0 <= off -> 0 <= room -> read_at off room = Ok (take (Z.to_nat room) (drop (Z.to_nat off) pack))).
Context (Hpack : blen pack + PACK_OBJECT_PREFIX_READ_SIZE <= usize_max).
(** Every object is in the pack, and its prefix shows the dependency. *)
Context (Hdep : forall o, o ∈ objects -> 0 <= o < blen pack /\ dependency_at kind (prefix_at pack o) o = Ok (dep o)).

Definition counts_of (l : list Z) : DecodeRetention := add_deps DecodeRetention_default (omap dep l).

Definition todo_of (t : ScanThread) : list Z := match t with Scanning l _ _ => l | Scanned _ => [] end.

Definition thread_ok (t : ScanThread) : Prop :=
  match t with Scanning _ s w => window_ok pack s w | Scanned r => r = Ok tt end.

(** What was scanned is counted, the rest is still to be scanned. *)
Definition scan_ok (st : list ScanThread * DecodeRetention) : Prop :=
  Forall thread_ok st.1 /\ exists scanned, Permutation (scanned ++ concat (map todo_of st.1)) objects /\ st.2 = counts_of scanned.

Definition work (ts : list ScanThread) : nat :=
  foldr (fun t n => match t with Scanning l _ _ => S (length l) | Scanned _ => 0 end + n)%nat 0%nat ts.

Lemma window_object_dep o s w r :
  window_ok pack s w -> o ∈ objects -> exists s' w', window_ok pack s' w'
    /\ window_object read_at kind o s w r = Ok ((s', w'), add_deps r (option_list (dep o))).
Proof.
  intros Hw Ho. destruct (Hdep o Ho) as [Hr Hd]. destruct (window_object_ok pack read_at Hread Hpack kind o s w r Hw Hr) as (s' & w' & Hw' & ->).
  exists s', w'. split; [done|]. rewrite scan_object_dependency_eq, Hd. done.
Qed.

Lemma counts_snoc l o : add_deps (counts_of l) (option_list (dep o)) = counts_of (l ++ [o]).
Proof. unfold counts_of. rewrite <- add_deps_app, omap_app. cbn. by destruct (dep o). Qed.

(** The rest of the work when one thread moves. *)
Lemma todo_insert (ts : list ScanThread) i t t' : ts !! i = Some t ->
  exists l1 l2, ts = l1 ++ t :: l2 /\ <[i := t']> ts = l1 ++ t' :: l2.
Proof.
  intros Hi. pose proof (lookup_lt_Some _ _ _ Hi) as Hl. exists (take i ts), (drop (S i) ts). split; [by rewrite take_drop_middle|].
  by rewrite insert_take_drop.
Qed.

Lemma todo_in ts i t o : ts !! i = Some t -> o ∈ todo_of t -> o ∈ concat (map todo_of ts).
Proof.
  intros Hi Ho. destruct (todo_insert ts i t t Hi) as (l1 & l2 & -> & _). rewrite map_app, concat_app. cbn. set_solver.
Qed.

Lemma scan_step_ok st st' : scan_ok st -> scan_step read_at kind st st' -> scan_ok st' /\ (work st'.1 < work st.1)%nat.
Proof.
  intros [Ht (scanned & Hp & Hr)] Hs. destruct Hs as [ts i o todo s w r s' w' r' Hi Hw|ts i o todo s w r e Hi Hw|ts i o todo s w r Hi Hw|ts i s w r Hi];
    cbn [fst snd] in *.
  all: assert (Hok : thread_ok (Scanning _ s w)) by (by eapply Forall_lookup_1).
  1-3: assert (Ho : o ∈ objects) by (rewrite <- Hp; apply elem_of_app; right; eapply todo_in; [done|left]).
  1-3: destruct (window_object_dep o s w r Hok Ho) as (s1 & w1 & Hw1 & Heq); rewrite Heq in Hw; try discriminate Hw.
  - injection Hw as <- <- <-. destruct (todo_insert ts i _ (Scanning todo s1 w1) Hi) as (l1 & l2 & -> & ->). split; [split|].
    + cbn. rewrite !Forall_app, !Forall_cons in *. naive_solver.
    + exists (scanned ++ [o]). cbn. rewrite !map_app, !concat_app in *. cbn in *. split; [|by rewrite Hr, counts_snoc].
      rewrite <- Hp, <- !app_assoc. apply Permutation_app_head. cbn. by rewrite <- Permutation_middle.
    + cbn. unfold work. rewrite !foldr_app. clear. induction l1 as [|t l1 IH]; cbn in *; lia.
  - destruct (todo_insert ts i _ (Scanned (Ok tt)) Hi) as (l1 & l2 & -> & ->). split; [split|].
    + cbn. rewrite !Forall_app, !Forall_cons in *. naive_solver.
    + exists scanned. cbn. split; [|done]. rewrite <- Hp, !map_app, !concat_app. done.
    + cbn. unfold work. rewrite !foldr_app. clear. induction l1 as [|t l1 IH]; cbn in *; lia.
Qed.

Lemma scan_steps_ok k st st' : scan_ok st -> scan_steps read_at kind k st st' -> scan_ok st' /\ (k + work st'.1 <= work st.1)%nat.
Proof.
  intros Hok Hs. induction Hs as [st|k st1 st2 st3 H12 _ IH]; [split; [done|lia]|].
  destruct (scan_step_ok _ _ Hok H12) as [Hok2 Hw]. destruct (IH Hok2) as [Hok3 Hw3]. split; [done|lia].
Qed.

Lemma join_all_scanned ts res : Forall thread_ok ts -> join_scans ts = Some res -> res = Ok tt /\ concat (map todo_of ts) = [].
Proof.
  induction 1 as [|t ts Ht _ IH]; [by intros [= <-]|]. cbn. destruct t as [|r]; [discriminate|]. cbn in Ht. by rewrite Ht.
Qed.

Lemma scan_joined ts r res : scan_ok (ts, r) -> join_scans ts = Some res -> res = Ok tt /\ r = counts_of objects.
Proof.
  intros [Ht (scanned & Hp & Hr)] Hj. destruct (join_all_scanned _ _ Ht Hj) as [-> Hnil]. cbn in *. rewrite Hnil, app_nil_r in Hp.
  split; [done|]. rewrite Hr. apply add_deps_perm. by rewrite Hp.
Qed.

Lemma joined_or_scanning ts : Forall thread_ok ts -> join_scans ts = Some (Ok tt) \/ exists i l s w, ts !! i = Some (Scanning l s w).
Proof.
  induction 1 as [|t ts Ht _ IH]; [by left|]. destruct t as [l s w|r]; [right; by exists 0%nat, l, s, w|]. cbn in Ht. rewrite Ht.
  destruct IH as [Hj|(i & l & s & w & Hi)]; [by left|]. right. by exists (S i), l, s, w.
Qed.

Lemma scan_progress ts r : scan_ok (ts, r) -> join_scans ts = Some (Ok tt) \/ exists st', scan_step read_at kind (ts, r) st'.
Proof.
  intros [Ht (scanned & Hp & _)]. cbn in *. destruct (joined_or_scanning ts Ht) as [Hj|(i & l & s & w & Hi)]; [by left|]. right.
  assert (Hok : thread_ok (Scanning l s w)) by (by eapply Forall_lookup_1). destruct l as [|o l]; [eexists; by eapply scan_ends|].
  assert (Ho : o ∈ objects) by (rewrite <- Hp; apply elem_of_app; right; eapply todo_in; [done|left]).
  destruct (window_object_dep o s w r Hok Ho) as (s1 & w1 & _ & Heq). eexists. by eapply scan_object.
Qed.

Lemma scan_completes n ts r : (work ts <= n)%nat -> scan_ok (ts, r) ->
  exists k ts' r', scan_steps read_at kind k (ts, r) (ts', r') /\ join_scans ts' = Some (Ok tt).
Proof.
  revert ts r. induction n as [|n IH]; intros ts r Hn Hok; (destruct (scan_progress ts r Hok) as [Hj|[[ts1 r1] Hs]]; [exists 0%nat, ts, r; split; [apply scan_refl|done]|]);
    destruct (scan_step_ok _ _ Hok Hs) as [Hok1 Hw]; cbn [fst] in Hw; [lia|].
  destruct (IH ts1 r1) as (k & ts' & r' & Hk & Hj); [lia|done|]. exists (S k), ts', r'. split; [by eapply scan_more|done].
Qed.

Lemma chunks_concat fuel n (l : list Z) : (0 < n)%nat -> (length l <= fuel)%nat -> concat (chunks fuel n l) = l.
Proof.
  intros Hn. revert l. induction fuel as [|fuel IH]; intros l Hl; [destruct l; [done|cbn in Hl; lia]|]. destruct l as [|x l]; [done|].
  cbn [chunks concat]. rewrite IH; [apply take_drop|]. rewrite length_drop. cbn in *. lia.
Qed.

Lemma scan_chunks_concat n : 0 < n -> concat (scan_chunks n objects) = objects.
Proof.
  intros Hn. unfold scan_chunks. destruct objects as [|o l] eqn:E; [done|]. apply chunks_concat; [|lia].
  pose proof (div_ceil_spec (blen (o :: l)) n Hn). rewrite blen_cons in *. pose proof (blen_nonneg l). nia.
Qed.

Lemma scan_start n : 0 < n -> scan_ok (map (fun c => Scanning c 0 []) (scan_chunks n objects), DecodeRetention_default).
Proof.
  intros Hn. split; [apply Forall_fmap, Forall_true; intros; by split|]. exists []. split; [|done]. cbn.
  rewrite map_map. cbn. rewrite map_id. by rewrite scan_chunks_concat.
Qed.

Lemma window_loop_ok l s w r :
  window_ok pack s w -> (forall o, o ∈ l -> o ∈ objects) -> window_loop read_at kind l s w r = Ok (add_deps r (omap dep l)).
Proof.
  revert s w r. induction l as [|o l IH]; intros s w r Hw Hl; [done|]. cbn [window_loop].
  destruct (window_object_dep o s w r Hw) as (s1 & w1 & Hw1 & ->); [apply Hl; left|]. cbn [rbind]. rewrite IH; [|done|intros x Hx; apply Hl; by right].
  cbn [omap list_omap]. by destruct (dep o).
Qed.

(** Whatever the schedule, the scan ends with the references of all objects counted. *)
Lemma scan_objects_spec par :
  (exists result retention, scan_objects read_at kind par objects result retention)
  /\ forall result retention, scan_objects read_at kind par objects result retention -> result = Ok tt /\ retention = counts_of objects.
Proof.
  unfold scan_objects. set (n := scan_threads par objects). destruct (n <=? 1) eqn:En.
  - unfold scan_object_dependencies_from_index_window. rewrite window_loop_ok by (done || by split). split; [by eexists _, _|done].
  - pose proof (scan_start n ltac:(lia)) as Hok. split.
    + destruct (scan_completes _ _ _ (Nat.le_refl _) Hok) as (k & ts & r & Hk & Hj). by eexists _, r, k, ts.
    + intros result retention (k & ts & Hk & Hj). destruct (scan_steps_ok _ _ _ Hok Hk) as [Hok' _]. by eapply scan_joined.
Qed.

End threads.

(** * The scan of what was packed *)

Lemma encode_header_part compress compress' t data off enc :
  packable t off -> encode_one_object compress t data off = Ok enc ->
  exists hdr, enc = hdr ++ compress data /\ blen hdr <= 24 /\ encode_one_object compress' t data off = Ok (hdr ++ compress' data).
Proof.
  intros Hp Henc.
  assert (Hgen : forall c, encode_one_object c t data off = let! h := encode_one_object (fun _ => []) t data off in Ok (h ++ c data)).
  { intros c. destruct (encode_one_object_packable c t data off Hp) as (n & Hn & Hf & ->).
    destruct (encode_one_object_packable (fun _ => []) t data off Hp) as (n' & Hn' & Hf' & ->).
    apply pack_type_inv in Hf, Hf'. assert (n' = n) as -> by congruence.
    destruct (encode_entry_header n (blen data)) as [h| | |]; try done. cbn [unwrap rbind].
    destruct (match t with ObjectType.OffsetDelta => _ | _ => _ end) as [dist| | |]; try done. cbn [rbind]. by rewrite app_nil_r. }
  rewrite Hgen in Henc. rewrite Hgen. apply bind_Ok_inv in Henc as (hdr & Eh & [= <-]). exists hdr. split; [done|].
  pose proof (encode_one_object_size (fun _ => []) _ _ _ _ Hp Eh) as Hs. cbn beta in Hs. change (blen (@nil Z)) with 0 in Hs. split; [lia|]. by rewrite Eh.
Qed.

Section written_scan.
Context `{Build} `{TextEnv}.

(** What the first bytes of an entry show. *)
Lemma whole_dependency compress kind t data off enc o :
  packable t off -> blen data <= usize_max -> encode_one_object compress t data off = Ok enc ->
  (forall v, off = Some v -> v <= o) ->
  dependency_at kind enc o = Ok (match t with ObjectType.OffsetDelta | ObjectType.OffsetZstdelta => OnOffset ∘ (Z.sub o) <$> off | _ => None end).
Proof.
  intros Hp Hl Henc Hv. destruct (entry_reads compress t data off Hp Hl) as (enc' & n & Henc' & Hn & Hread).
  assert (enc' = enc) as -> by congruence. destruct (Hread o []) as (payload & off' & Hr & Hpay). rewrite app_nil_r in Hr.
  unfold dependency_at. rewrite Hr. cbn [map_err rbind]. rewrite Hn. cbn [rbind].
  destruct t; try done; destruct Hpay as (v & -> & ->); cbn [map_err rbind]; specialize (Hv v eq_refl); by replace (o <? v) with false by lia.
Qed.

Lemma prefix_dependency compress kind t data off enc rest o :
  packable t off -> blen data <= usize_max -> encode_one_object compress t data off = Ok enc -> (forall v, off = Some v -> v <= o) ->
  dependency_at kind (take (Z.to_nat PACK_OBJECT_PREFIX_READ_SIZE) (enc ++ rest)) o
  = Ok (match t with ObjectType.OffsetDelta | ObjectType.OffsetZstdelta => OnOffset ∘ (Z.sub o) <$> off | _ => None end).
Proof.
  intros Hp Hl Henc Hv.
  destruct (encode_header_part compress (fun _ => []) t data off enc Hp Henc) as (hdr & -> & Hh & _).
  destruct (encode_header_part compress (fun _ => take (Z.to_nat PACK_OBJECT_PREFIX_READ_SIZE - length hdr) (compress data ++ rest)) t data off _ Hp Henc)
    as (hdr' & Heq & _ & Henc'). apply app_inv_tail in Heq as <-.
  rewrite <- app_assoc, take_app_ge by (unfold PACK_OBJECT_PREFIX_READ_SIZE, blen in *; lia). by eapply whole_dependency.
Qed.

Context `{HexCrate} `{Hasher} `{!HasherLaws} `{ZlibDecoder} {deflated : bytes -> bytes -> Prop}
  {zpending : zdec -> bytes -> bytes -> Prop} `{!ZlibLaws deflated zpending} `{Allocator}.
Context (compress : bytes -> bytes) (Hdeflate : forall d, deflated (compress d) d) (kind : HashKind.t).

Lemma scan_loop_entry t data off enc n rest o r d :
  packable t off -> blen data <= usize_max -> encode_one_object compress t data off = Ok enc -> (forall v, off = Some v -> v <= o) ->
  d = match t with ObjectType.OffsetDelta | ObjectType.OffsetZstdelta => OnOffset ∘ (Z.sub o) <$> off | _ => None end ->
  scan_loop (S n) kind (enc ++ rest) o r = scan_loop n kind rest (o + blen enc) (add_deps r (option_list d)).
Proof.
  intros Hp Hl Henc Hv ->. destruct (entry_reads compress t data off Hp Hl) as (enc' & m & Henc' & Hm & Hread).
  assert (enc' = enc) as -> by congruence. destruct (Hread o rest) as (payload & off' & Hr & Hpay).
  cbn [scan_loop]. rewrite Hr. cbn [map_err rbind]. rewrite Hm. cbn [rbind]. unfold scan_reference.
  destruct t; try done; try (destruct Hpay as [-> Hoff]; cbn [rbind]; rewrite skip_compressed_data_ok by done; cbn [rbind option_list add_deps fold_left];
    f_equal; lia).
  all: destruct Hpay as (v & -> & ->); specialize (Hv v eq_refl); cbn [map_err rbind]; replace (o <? v) with false by lia; cbn [rbind];
    rewrite skip_compressed_data_ok by done; cbn [rbind option_list]; f_equal; lia.
Qed.

Lemma written_deps prior offset entries encs :
  written compress prior offset entries encs -> 0 <= offset -> offset + blen (concat encs) <= usize_max ->
  Forall (fun b => 0 <= pl_offset b) prior -> Forall entry_packable entries ->
  exists ds, (forall r rest, scan_loop (length entries) kind (concat encs ++ rest) offset r
                = Ok ((add_deps r (omap id ds), offset + blen (concat encs)), rest))
    /\ forall before rest, blen before = offset ->
       Forall2 (fun o d => 0 <= o < blen (before ++ concat encs ++ rest)
                  /\ dependency_at kind (prefix_at (before ++ concat encs ++ rest) o) o = Ok d) (places offset encs) ds.
Proof.
  intros Hw. induction Hw as [|prior offset e enc entries encs He Hw IH
    |prior offset e b delta enc entries encs Hb Ht Hd Ho Hsz Hdec He Hw IH]; intros Hoff Hmax Hprior Hp.
  { exists []. split; [|constructor]. intros r rest. cbn. change (blen (@nil Z)) with 0. by rewrite Z.add_0_r. }
  all: apply Forall_cons_1 in Hp as [(Hbase & _ & Hlen & _) Hp]; cbn [concat length places] in *; rewrite blen_app in Hmax.
  all: pose proof (blen_nonneg enc); pose proof (blen_nonneg (concat encs)); destruct IH as (ds & Hs & Hf); [lia|lia|by constructor|done|].
  - assert (Hpk : packable (entry_type e) None) by (by apply base_packable). assert (Hl : blen (entry_data e) <= usize_max) by (unfold usize_max; lia).
    pose proof (encode_one_object_size _ _ _ _ _ Hpk He) as Hpos.
    exists (None :: ds). split.
    + intros r rest. rewrite <- app_assoc, (scan_loop_entry (entry_type e) (entry_data e) None enc _ _ _ _ None) by (done || by destruct (entry_type e)).
      rewrite Hs. cbn [option_list]. rewrite blen_app, Z.add_assoc. done.
    + intros before rest Hbl. rewrite <- !app_assoc. constructor.
      * split; [rewrite !blen_app; pose proof (blen_nonneg rest); lia|]. unfold prefix_at. rewrite <- Hbl. unfold blen. rewrite Nat2Z.id, drop_app_length.
        rewrite (prefix_dependency compress kind (entry_type e) (entry_data e) None) by done. by destruct (entry_type e).
      * specialize (Hf (before ++ enc) rest). rewrite <- app_assoc in Hf. apply Hf. rewrite blen_app. lia.
  - assert (Hb0 : 0 <= pl_offset b) by (rewrite Forall_forall in Hprior; by apply Hprior).
    assert (Hpk : packable ObjectType.OffsetDelta (Some (offset - pl_offset b))) by (cbn; lia). assert (Hl : blen delta <= usize_max) by (unfold usize_max; lia).
    pose proof (encode_one_object_size _ _ _ _ _ Hpk He) as Hpos. assert (Hv : forall v, Some (offset - pl_offset b) = Some v -> v <= offset) by (intros v [= <-]; lia).
    exists (Some (OnOffset (offset - (offset - pl_offset b))) :: ds). split.
    + intros r rest. rewrite <- app_assoc, (scan_loop_entry ObjectType.OffsetDelta delta (Some (offset - pl_offset b)) enc _ _ _ _ _ Hpk Hl He Hv eq_refl).
      rewrite Hs. rewrite blen_app, Z.add_assoc. done.
    + intros before rest Hbl. rewrite <- !app_assoc. constructor.
      * split; [rewrite !blen_app; pose proof (blen_nonneg rest); lia|]. unfold prefix_at. rewrite <- Hbl at 1. unfold blen at 1. rewrite Nat2Z.id, drop_app_length.
        by rewrite (prefix_dependency compress kind ObjectType.OffsetDelta delta (Some (offset - pl_offset b))).
      * specialize (Hf (before ++ enc) rest). rewrite <- app_assoc in Hf. apply Hf. rewrite blen_app. lia.
Qed.

End written_scan.

Lemma offset_order : total_order (fun a b => ie_offset a ?= ie_offset b).
Proof.
  split; [intros a b; apply Z.compare_antisym|]. intros a b c Hab Hbc. change (ie_offset a <= ie_offset b) in Hab.
  change (ie_offset b <= ie_offset c) in Hbc. change (ie_offset a <= ie_offset c). lia.
Qed.

Lemma repeated_offset_none l : NoDup (map ie_offset l) -> repeated_offset l = None.
Proof.
  induction l as [|a l IH]; intros Hnd; [done|]. apply NoDup_cons in Hnd as [Hni Hnd]. destruct l as [|b l]; [done|].
  change (repeated_offset (a :: b :: l)) with (if ie_offset a =? ie_offset b then Some (ie_offset a) else repeated_offset (b :: l)).
  destruct (ie_offset a =? ie_offset b) eqn:E; [|by apply IH]. apply Z.eqb_eq in E. exfalso. apply Hni. rewrite E. cbn. left.
Qed.

Lemma omap_id_map {A B} (f : A -> option B) l : omap id (map f l) = omap f l.
Proof. induction l as [|x l IH]; [done|]. cbn. destruct (f x); cbn; by rewrite IH. Qed.

(** The dependencies of places that are all different, as a function. *)
Lemma places_function {P : Z -> option Dependency -> Prop} os ds :
  NoDup os -> Forall2 P os ds -> exists dep : Z -> option Dependency, ds = map dep os /\ forall o, o ∈ os -> P o (dep o).
Proof.
  intros Hnd Hf. exists (fun o => default None (list_to_map (M := gmap Z (option Dependency)) (zip os ds) !! o)).
  assert (Hlen : length os = length ds) by (by eapply Forall2_length).
  assert (Hl : forall i o d, os !! i = Some o -> ds !! i = Some d -> list_to_map (M := gmap Z (option Dependency)) (zip os ds) !! o = Some d).
  { intros i o d Ho Hd. apply elem_of_list_to_map_1; [by rewrite fst_zip by lia|]. apply list_elem_of_lookup. exists i. by rewrite lookup_zip_with, Ho, Hd. }
  split.
  - apply list_eq. intros i. rewrite list_lookup_fmap. destruct (os !! i) as [o|] eqn:Ho.
    + destruct (Forall2_lookup_l _ _ _ _ _ Hf Ho) as (d & Hd & _). rewrite Hd. cbn. by rewrite (Hl i o d).
    + apply lookup_ge_None in Ho. cbn. apply lookup_ge_None. lia.
  - intros o Ho. apply list_elem_of_lookup in Ho as [i Hi]. destruct (Forall2_lookup_l _ _ _ _ _ Hf Hi) as (d & Hd & HP). by rewrite (Hl i o d).
Qed.

(** The scan along an index whose records are [l]. *)
Lemma index_scan_records `{Build} `{TextEnv} `{HexCrate} `{Hasher} `{SliceSort} `{!SliceSortLaws} kind pack_path idx_path pack idx_rest i l hd rest
  (read_at : Z -> Z -> Res IoError bytes) par (dep : Z -> option Dependency) :
  let f := stored_files pack_path idx_path pack (be32 IDX_MAGIC ++ idx_rest) in
  parse_idx_v2 (be32 IDX_MAGIC ++ idx_rest) kind = Ok i -> Permutation (idx_entries i) l -> NoDup (map ie_offset l) ->
  check_header pack = Ok ((blen l, hd), rest) -> blen pack + PACK_OBJECT_PREFIX_READ_SIZE <= usize_max ->
  (forall off room, 0 <= off -> 0 <= room -> read_at off room = Ok (take (Z.to_nat room) (drop (Z.to_nat off) pack))) ->
  (forall o, o ∈ map ie_offset l -> 0 <= o < blen pack /\ dependency_at kind (prefix_at pack o) o = Ok (dep o)) ->
  (exists r, scan_decode_retention_from_index read_at f kind (Ok tt) par r)
  /\ forall r, scan_decode_retention_from_index read_at f kind (Ok tt) par r ->
     exists objects, Permutation objects l /\ Sorted (fun a b => ie_offset a <= ie_offset b) objects
       /\ r = Ok (index_decode_scan objects true (idx_pack_hash i) (counts_of dep (map ie_offset l))).
Proof.
  cbn zeta. intros Hparse Hperm Hnd Hhead Hpack Hread Hdep.
  destruct (sort_by_total _ _ (fun a b => Ok (ie_offset a ?= ie_offset b)) (idx_entries i) offset_order) as (objects & Hsort & Hsorted); [done|].
  pose proof (sort_by_perm _ _ _ _ Hsort) as Hp. rewrite Hperm in Hp. apply Permutation_sym in Hp.
  assert (Hobj : objects_by_offset (stored_files pack_path idx_path pack (be32 IDX_MAGIC ++ idx_rest)) kind (Ok tt) = Ok ((objects, true), idx_pack_hash i)).
  { unfold objects_by_offset, parse_any_idx, stored_files. cbn [pf_idx_open pf_idx_len pf_pack_open map_err rbind].
    rewrite (read_exact_app 4 (be32 IDX_MAGIC)) by done. cbn [map_err rbind]. rewrite bool_decide_true by done.
    fold (parse_idx_v2 (be32 IDX_MAGIC ++ idx_rest) kind). rewrite Hparse. cbn [rbind]. rewrite Hsort. cbn [unwrap rbind].
    rewrite repeated_offset_none by (by rewrite Hp). rewrite Hhead. cbn [rbind].
    replace (blen (idx_entries i)) with (blen l) by (unfold blen; by rewrite Hperm). by rewrite Z.eqb_refl. }
  assert (Hdep' : forall o, o ∈ map ie_offset objects -> 0 <= o < blen pack /\ dependency_at kind (prefix_at pack o) o = Ok (dep o)).
  { intros o Ho. apply Hdep. by rewrite <- Hp. }
  destruct (scan_objects_spec pack read_at kind (map ie_offset objects) dep Hread Hpack Hdep' par) as [Hex Hall].
  assert (Hcounts : counts_of dep (map ie_offset objects) = counts_of dep (map ie_offset l)) by (apply add_deps_perm; by rewrite Hp).
  unfold scan_decode_retention_from_index. rewrite Hobj. split.
  - destruct Hex as (result & retention & Hs). by eexists _, result, retention.
  - intros r (result & retention & Hs & ->). destruct (Hall _ _ Hs) as [-> ->]. exists objects. rewrite Hcounts. by split_and!.
Qed.

(** What is known of a scan of [R] along an index. *)
Definition follows `{Crc32} (pack : bytes) (names : list ObjectHash.t) (R : DecodeRetention) (scan : DecodeScan) : Prop :=
  exists objects h, scan = index_decode_scan objects true h R
    /\ Sorted (fun a b => ie_offset a <= ie_offset b) objects /\ NoDup (map ie_offset objects)
    /\ Permutation (map ie_hash objects) names /\ Forall (locates pack) objects.

(** C34: the scan along the index agrees with the scan of the pack.  For a pack and its index as
    the encoder wrote them, the scan that jumps from object to object through a window of the
    file, on one thread or on two whose accesses to the shared counters interleave in any way,
    always comes to an end, and counts the same references as the scan that reads the pack from
    the front; it gives the objects in the order of the pack, each with its name, its place and
    its CRC. *)
Theorem index_scan_agrees `{Build} `{TextEnv} `{HexCrate} `{Hasher} `{!HasherLaws} `{ZlibDecoder}
  {deflated : bytes -> bytes -> Prop} {zpending : zdec -> bytes -> bytes -> Prop} `{!ZlibLaws deflated zpending}
  `{Crc32} `{AHash} `{SliceSort} `{!SliceSortLaws} `{Allocator}
  (little_endian : bool) (compress : bytes -> bytes) (diff : bytes -> bytes -> list DeltaEncode.Callback)
  (zstd_diff : bytes -> bytes -> Res bytes bytes)
  (address_cmp : MetaAttached Entry EntryMeta -> MetaAttached Entry EntryMeta -> comparison)
  (num_threads : Z) (pack_threads : option Z) (pool_build : Z -> Res bytes unit) (join_error_text : bytes)
  (kind : HashKind.t) (cap window : Z) (input : list (MetaAttached Entry EntryMeta)) (pack_path idx_path : bytes)
  (read_at : bytes -> Z -> Z -> Res IoError bytes) (available_parallelism : Res IoError Z) :
  total_order address_cmp -> (forall n, pack_threads = Some n -> pool_build n = Ok tt) ->
  compress_bounded compress -> (forall d, deflated (compress d) d) -> (forall b, 0 <= calculate_crc32 b < 2 ^ 32) ->
  (forall pack off room, 0 <= off -> 0 <= room -> read_at pack off room = Ok (take (Z.to_nat room) (drop (Z.to_nat off) pack))) ->
  Forall (input_ok kind) input ->
  Forall (fun x => entry_hash x = object_id kind (entry_type x) (entry_data x)) (map ma_inner input) ->
  NoDup (map entry_hash (map ma_inner input)) -> 0 < blen input < 2 ^ 31 -> 256 + room (map ma_inner input) <= usize_max ->
  exists e e' R, encode_pack little_endian compress diff zstd_diff address_cmp num_threads pack_threads pool_build join_error_text cap
    (new_with_idx_and_hash_kind kind (blen input) window None None) input = (Ok tt, e)
  /\ encode_idx_file e = Ok e'
  /\ let pack := concat (pack_received e) in let f := stored_files pack_path idx_path pack (concat (idx_received e')) in
     let returns := scan_decode_retention_from_index (read_at pack) f kind (Ok tt) available_parallelism in
     scan_decode_retention pack kind = Ok R /\ (exists r, returns r)
     /\ forall r, returns r -> exists scan, r = Ok scan /\ follows pack (map entry_hash (map ma_inner input)) R scan.
Proof.
  intros Haddr Hpool Hc Hdeflate Hcrc Hread Hin Hnames Hnd Hn Hroom.
  destruct (encode_pack_ok little_endian compress diff zstd_diff address_cmp num_threads pack_threads pool_build join_error_text
    Hc Hpool kind cap window None input) as (e & Henc & Hpacked); try done; [lia|lia|].
  assert (Hwf : Forall (fun x => hash_wf (entry_hash (ma_inner x))) input).
  { rewrite Forall_fmap in Hnames. eapply Forall_impl; [exact Hnames|]. cbn. intros x ->. apply ObjectHash_new_for_kind_wf. }
  destruct (packed_index compress kind input e) as (e' & i & head & entries' & results & He' & Hparse & Hph & Hhead & Hhl & Hperm & Hpk & Hw & Hmax & Hsent & Hpe & Hmap & Hloc & Hndo & Hrange & idx_rest & Hmagic);
    try done; [lia|]. cbn zeta in *.
  destruct (written_deps compress Hdeflate kind [] 12 entries' results.*1 Hw) as (ds & Hscan & Hdeps); [lia|done|constructor|done|].
  destruct (records_places 12 results) as [_ Hpl]; [lia|done|]. rewrite <- Hpl in Hdeps.
  set (tail := ObjectHash.to_data _) in Hsent. specialize (Hdeps head tail Hhl).
  assert (Hpack : concat (pack_received e) = head ++ concat results.*1 ++ tail) by (by rewrite app_assoc).
  rewrite <- Hpack in Hdeps. destruct (places_function _ _ Hndo Hdeps) as (dep & -> & Hdep). exists e, e', (counts_of dep (map ie_offset (records 12 results))).
  split; [done|]. split; [done|]. rewrite Hmagic.
  assert (Hlen : blen (records 12 results) = blen (map ma_inner input)).
  { apply (f_equal length) in Hmap. rewrite !length_map in Hmap. unfold blen. by rewrite Hmap, <- Hperm. }
  assert (Hsize : blen tail = HashKind.size kind) by apply (read_object_id_written kind).
  assert (Hblen : blen (map ma_inner input) = blen input) by (unfold blen; by rewrite length_map).
  destruct (encode_header_ok (blen (map ma_inner input))) as (count & Hh & Hcl & Hbe); [lia|].
  assert (Hhd : head = str "PACK" ++ [0; 0; 0; 2] ++ count) by congruence.
  assert (Hcheck : check_header (concat (pack_received e)) = Ok ((blen (records 12 results), head), concat results.*1 ++ tail)).
  { rewrite Hpack, Hhd, check_header_written by done. by rewrite Hbe, Hlen. }
  destruct (index_scan_records kind pack_path idx_path (concat (pack_received e)) idx_rest i (records 12 results) head (concat results.*1 ++ tail)
    (read_at (concat (pack_received e))) available_parallelism dep) as [Hex Hall]; try done; [by rewrite <- Hmagic| |by intros; apply Hread|].
  { rewrite Hpack, !blen_app, Hsize. unfold PACK_OBJECT_PREFIX_READ_SIZE. rewrite (room_perm _ _ Hperm) in Hroom.
    pose proof (written_size compress [] 12 entries' results.*1 Hc Hpk ltac:(constructor) Hw ltac:(lia) ltac:(lia)). destruct kind; cbn; lia. }
  split; [|split; [done|]].
  - unfold scan_decode_retention. rewrite Hcheck. cbn [rbind].
    replace (Z.to_nat (blen (records 12 results))) with (length entries') by (rewrite Hlen; unfold blen; rewrite Nat2Z.id; by rewrite Hperm).
    rewrite Hscan, omap_id_map. cbn [rbind]. rewrite <- (app_nil_r tail), (read_exact_app _ tail) by done. done.
  - intros r Hr. destruct (Hall r Hr) as (objects & Hpo & Hso & ->). eexists. split; [done|]. exists objects, (idx_pack_hash i). split; [done|].
    split; [done|]. split; [by rewrite Hpo|]. split; [by rewrite Hpo, Hmap, Hperm|by rewrite Hpo].
Qed.

(** * The reader behind the file *)

Lemma consume_reader_exact_ok fuel pack n :
  Forall steady pack -> 0 <= n <= blen (stream_data pack) -> (Z.to_nat n < fuel)%nat ->
  exists pack', consume_reader_exact fuel pack n = (Ok tt, pack') /\ stream_data pack' = drop (Z.to_nat n) (stream_data pack) /\ Forall steady pack'.
Proof.
  revert pack n. induction fuel as [|fuel IH]; intros pack n Hs Hn Hf; [lia|]. cbn [consume_reader_exact].
  destruct (n =? 0) eqn:En; [apply Z.eqb_eq in En as ->; exists pack; split; [done|]; by rewrite drop_0|]. apply Z.eqb_neq in En.
  destruct pack as [|[d| |e] pack]; [change (blen (stream_data [])) with 0 in Hn; lia|..]; apply Forall_cons_1 in Hs as [Hd Hs]; try done.
  cbn [fill_buf]. cbn in Hd. rewrite bool_decide_false by done. cbn [stream_data] in *. rewrite blen_app in Hn.
  assert (Hpos : 0 < blen d) by (destruct d; [done|]; rewrite blen_cons; pose proof (blen_nonneg d); lia).
  unfold consume. destruct (blen d <=? Z.min n (blen d)) eqn:E.
  - replace (Z.min n (blen d)) with (blen d) by lia. destruct (IH pack (n - blen d)) as (pack' & -> & Hd' & Hs'); [done|lia|lia|].
    exists pack'. split; [done|]. split; [|done]. rewrite Hd', drop_app_ge by (unfold blen in *; lia). f_equal. unfold blen in *. lia.
  - replace (Z.min n (blen d)) with n by lia. rewrite Z.sub_diag. destruct (IH (Chunk (drop (Z.to_nat n) d) :: pack) 0) as (pack' & -> & Hd' & Hs').
    + constructor; [|done]. intros Hx. apply (f_equal length) in Hx. rewrite length_drop in Hx. unfold blen in *. cbn in Hx. lia.
    + pose proof (blen_nonneg (stream_data (Chunk (drop (Z.to_nat n) d) :: pack))). lia.
    + lia.
    + exists pack'. split; [done|]. split; [|done]. rewrite Hd'. change (Z.to_nat 0) with 0%nat. rewrite drop_0. cbn.
      rewrite drop_app_le by (unfold blen in *; lia). done.
Qed.

(** a decoder with a large memory limit may decode another pack than the one it was given.
    When exactly one [.pack] file with an index is open at its start and begins like the first
    buffer of the reader (4096 bytes suffice), [decode] decodes that file: nothing of the
    reader after its first buffer is looked at, it is only skipped, whatever it holds, and the
    result is that of the file. *)
Theorem open_pack_replaces_reader `{Build} `{TextEnv} `{HexCrate} `{Hasher} `{ZlibDecoder} `{SliceSort}
  (d : Disk) (kind : HashKind.t) (limit : Z) (low_memory : bool) (path file buffer : bytes) (tail : list ReadEvent) (job : Job)
  (signature : ObjectHash.t) :
  UNBOUNDED_CACHE_THRESHOLD_BYTES <= limit -> single_open_pack_path_at_start (proc_fds d) = Some path ->
  pf_pack_open (files_at d path) = Ok file -> len_at d path = Ok (blen file) ->
  (forall n, 0 <= n -> read_file_at d path 0 n = Ok (take (Z.to_nat n) file)) ->
  4096 <= blen buffer <= FILE_DECODE_BUFFER_SIZE -> buffer `prefix_of` file ->
  Forall steady tail -> blen file <= blen (buffer ++ stream_data tail) ->
  decode_file_inner (read_file_at d path) (files_at d path) kind (try_clone d) (parallelism d) true low_memory (callback_mode low_memory) (Ok job) ->
  let reader := Chunk buffer :: tail in
  decode d kind (Some limit) low_memory reader (Ok (FromFile job (blen file))) reader
  /\ job_pack job = file
  /\ exists rest, decode_finish (FromFile job (blen file)) signature (Ok tt) reader = (Ok tt, rest)
     /\ stream_data rest = drop (length file) (buffer ++ stream_data tail).
Proof.
  intros Hlim Hpath Hopen Hlen Hread Hbuf [suffix Hpre] Hs Hsz Hjob. cbn zeta.
  assert (Hne : buffer <> []) by (intros ->; change (blen (@nil Z)) with 0 in Hbuf; lia).
  assert (Hmatch : reader_matches_pack_prefix d (Chunk buffer :: tail) path = (true, Chunk buffer :: tail)).
  { unfold reader_matches_pack_prefix. cbn [fill_buf]. rewrite bool_decide_false by done. rewrite Hopen, Hlen. f_equal.
    replace (blen buffer <? Z.min 4096 (blen file)) with false by lia. replace (Z.min (blen buffer) FILE_DECODE_BUFFER_SIZE) with (blen buffer) by lia.
    rewrite Hread by lia. rewrite Hpre. replace (Z.to_nat (blen buffer)) with (length buffer) by (unfold blen; lia).
    rewrite take_app_length, Z.eqb_refl, take_ge by lia. by rewrite bool_decide_true. }
  split; [|split].
  - unfold decode, is_large. replace (UNBOUNDED_CACHE_THRESHOLD_BYTES <=? limit) with true by lia. rewrite Hpath, Hmatch. split; [done|]. rewrite Hlen.
    by exists (Ok job).
  - revert Hjob. unfold decode_file_inner. destruct (pf_idx_stat (files_at d path)) as [[]|[|e]| |]; try (by intros).
    + intros (scan & _ & Hr). destruct scan as [sc| | |]; try done. cbn in Hr. unfold scan_job in Hr. rewrite Hopen in Hr. cbn in Hr. by injection Hr as ->.
    + rewrite Hopen. cbn [map_err rbind]. destruct (plain_scan file kind) as [sc| | |]; try done. cbn. by intros [= ->].
  - unfold decode_finish, after_job. cbn [rbind].
    destruct (consume_reader_exact_ok (S (length (Chunk buffer :: tail) + Z.to_nat (blen file))) (Chunk buffer :: tail) (blen file)) as (rest & -> & Hd & _).
    + by constructor.
    + pose proof (blen_nonneg file). cbn [stream_data]. lia.
    + lia.
    + exists rest. split; [done|]. rewrite Hd. unfold blen. by rewrite Nat2Z.id.
Qed.

(** * Concrete runs *)

Definition regular_read_at (pack : bytes) (off room : Z) : Res IoError bytes := Ok (take (Z.to_nat room) (drop (Z.to_nat off) pack)).

Lemma index_scan_agrees_witness :
  exists e e' R, @encode_pack true plain_texts hex_reference toy_hasher toy_crc32 toy_ahash insertion_sort true stored_compress
    (fun _ _ => []) (fun _ _ => Err []) (fun _ _ => Eq) 8 None (fun _ => Ok tt) [] 1024
    (@new_with_idx_and_hash_kind toy_hasher HashKind.Sha1 2 10 None None) toy_input = (Ok tt, e)
  /\ @encode_idx_file true plain_texts toy_hasher e = Ok e'
  /\ let pack := concat (pack_received e) in let f := stored_files (str "p.pack") (str "p.idx") pack (concat (idx_received e')) in
     let returns := @scan_decode_retention_from_index true plain_texts hex_reference toy_hasher insertion_sort (regular_read_at pack) f HashKind.Sha1 (Ok tt) (Ok 8) in
     @scan_decode_retention true plain_texts stored_zlib pack HashKind.Sha1 = Ok R /\ (exists r, returns r)
     /\ forall r, returns r -> exists scan, r = Ok scan /\ @follows toy_crc32 pack (map entry_hash (map ma_inner toy_input)) R scan.
Proof.
  apply (@index_scan_agrees true plain_texts hex_reference toy_hasher toy_hasher_laws stored_zlib stored stored_pending stored_zlib_laws toy_crc32
    toy_ahash insertion_sort insertion_sort_laws unlimited true stored_compress (fun _ _ => []) (fun _ _ => Err []) (fun _ _ => Eq) 8
    None (fun _ => Ok tt) [] HashKind.Sha1 1024 10 toy_input (str "p.pack") (str "p.idx") regular_read_at (Ok 8)).
  - apply total_const.
  - discriminate.
  - intros d. unfold stored_compress. blens.
  - reflexivity.
  - intros b. unfold calculate_crc32, toy_crc32. apply Z.mod_pos_bound. lia.
  - reflexivity.
  - repeat constructor; try (vm_compute; reflexivity); try (vm_compute; discriminate); try (cbn; lia).
  - repeat constructor.
  - decide_closed.
  - vm_compute. split; reflexivity.
  - vm_compute. discriminate.
Defined.

(** A pack of one large blob, and a reader that agrees with it on 4096 bytes only. *)
Definition large_input : list (MetaAttached Entry EntryMeta) := [toy_object (repeat 5 4200)].

Definition large_files : PackFiles :=
  let e := snd (@encode_pack true plain_texts hex_reference toy_hasher toy_crc32 toy_ahash insertion_sort true stored_compress
    (fun _ _ => []) (fun _ _ => Err []) (fun _ _ => Eq) 8 None (fun _ => Ok tt) [] 1024
    (@new_with_idx_and_hash_kind toy_hasher HashKind.Sha1 1 10 None None) large_input) in
  match @encode_idx_file true plain_texts toy_hasher e with
  | Ok e' => stored_files (str "p.pack") (str "p.idx") (concat (pack_received e)) (concat (idx_received e'))
  | _ => stored_files [] [] [] []
  end.

Definition large_file : bytes := match pf_pack_open large_files with Ok p => p | _ => [] end.

Definition large_disk : Disk :=
  mkDisk (Some [mkFd (Some (str "pos:	0")) (Some (str "p.pack")) (Some (str "pack")) true true]) (fun _ => large_files)
    (fun _ => Ok (blen large_file)) (fun _ => regular_read_at large_file) (Ok tt) (Ok 8) (Ok tt) (Ok tt).

Definition large_scan : Res GitError DecodeScan :=
  match @objects_by_offset true plain_texts hex_reference toy_hasher insertion_sort large_files HashKind.Sha1 (Ok tt) with
  | Ok ((objects, crcs_known), h) => Ok (index_decode_scan objects crcs_known h DecodeRetention_default)
  | _ => Panic
  end.

Definition large_job : Job :=
  match large_scan with
  | Ok sc => match scan_job (Ok large_file) true false RetainAll sc true with Ok j => j | _ => streaming_job true false [] end
  | _ => streaming_job true false []
  end.

(** The reader ends with other bytes. *)
Definition large_reader_tail : list ReadEvent := [Chunk (repeat 9 (length large_file - 4096))].

Lemma open_pack_replaces_reader_witness :
  let buffer := take 4096 large_file in let reader := Chunk buffer :: large_reader_tail in
  @decode true plain_texts hex_reference toy_hasher stored_zlib insertion_sort large_disk HashKind.Sha1 (Some UNBOUNDED_CACHE_THRESHOLD_BYTES) false reader
    (Ok (FromFile large_job (blen large_file))) reader
  /\ job_pack large_job = large_file
  /\ exists rest, @decode_finish hex_reference (FromFile large_job (blen large_file)) sample_base_id (Ok tt) reader = (Ok tt, rest)
     /\ stream_data rest = drop (length large_file) (buffer ++ stream_data large_reader_tail).
Proof.
  apply (@open_pack_replaces_reader true plain_texts hex_reference toy_hasher stored_zlib insertion_sort large_disk HashKind.Sha1
    UNBOUNDED_CACHE_THRESHOLD_BYTES false (str "p.pack") large_file (take 4096 large_file) large_reader_tail large_job sample_base_id).
  - reflexivity.
  - vm_compute. reflexivity.
  - vm_compute. reflexivity.
  - reflexivity.
  - intros n _. unfold large_disk, read_file_at, regular_read_at. change (Z.to_nat 0) with 0%nat. by rewrite drop_0.
  - vm_compute. split; discriminate.
  - exists (drop 4096 large_file). by rewrite take_drop.
  - repeat constructor. vm_compute. discriminate.
  - vm_compute. discriminate.
  - vm_compute. eexists. split; [eexists _, _; split; [split; reflexivity|]|]; reflexivity.
Defined.
