(* ===== verification/TempDirs.v ===== *)
(** The temporary directory of a decoding pack: how [Pack::new_with_hash_kind] and [Caches::new]
    make it, what [Caches::remove_tmp_dir] and the [Drop] of [Pack] leave behind
    ([src/internal/pack/decode.rs], [cache.rs]), and the directory helpers of
    [src/internal/pack/utils.rs].

    A file system is a finite map from paths (lists of names) to files and directories; the calls
    of [std::fs] are the usual ones on it, and each may also be refused by the system with an error of
    another kind. *)

From Stdlib Require Import ZArith Lia String.
From stdpp Require Import base tactics list numbers option gmap.
From S2P Require Import Prelude Text FileDecode.

Abbreviation Path := (list bytes).

Inductive Node : Type := NFile (data : bytes) | NDir.

#[export] Instance Node_eq_dec : EqDecision Node.
Proof. solve_decision. Defined.

Abbreviation Fs := (gmap Path Node).

(** The kinds of [io::Error] the code tells apart. *)
Inductive FsError : Type := FsNotFound | FsNotEmpty | FsOther (code : Z).

(** Whether the system refuses the next call. *)
Abbreviation Refusal := (option Z).

Definition refused {A} (r : Refusal) (k : Res FsError A) : Res FsError A :=
  match r with Some code => Err (FsOther code) | None => k end.

(** ** [std::fs] *)

Definition exists_at (fs : Fs) (p : Path) : bool := bool_decide (is_Some (fs !! p)).
Definition is_dir (fs : Fs) (p : Path) : bool := bool_decide (fs !! p = Some NDir).

(** What lies strictly below [p]. *)
Definition below (p q : Path) : Prop := p `prefix_of` q /\ q <> p.

#[export] Instance below_dec p q : Decision (below p q).
Proof. unfold below. apply _. Defined.

(** [ENOTDIR] is error 20. *)
Definition remove_dir_all (r : Refusal) (fs : Fs) (p : Path) : Res FsError Fs :=
  refused r
    match fs !! p with
    | Some NDir => Ok (filter (fun x => ~ p `prefix_of` x.1) fs)
    | Some (NFile _) => Err (FsOther 20)
    | None => Err FsNotFound
    end.

Definition remove_dir (r : Refusal) (fs : Fs) (p : Path) : Res FsError Fs :=
  refused r
    match fs !! p with
    | Some NDir => if bool_decide (filter (fun x => below p x.1) fs = ∅) then Ok (delete p fs) else Err FsNotEmpty
    | Some (NFile _) => Err (FsOther 20)
    | None => Err FsNotFound
    end.

(** Every directory on the way, from the outermost. *)
Fixpoint create_dirs (fs : Fs) (done todo : Path) : Res FsError Fs :=
  match fs !! done with
  | Some (NFile _) => Err (FsOther 20)
  | Some NDir => match todo with [] => Ok fs | name :: todo => create_dirs fs (done ++ [name]) todo end
  | None =>
      let fs := <[done := NDir]> fs in
      match todo with [] => Ok fs | name :: todo => create_dirs fs (done ++ [name]) todo end
  end.

Definition create_dir_all (r : Refusal) (fs : Fs) (p : Path) : Res FsError Fs := refused r (create_dirs fs [] p).

(** ** The code *)

(** [remove_tmp_dir]; the path of a pack has a last name, the directory above it may be [.cache_temp]. *)
Definition parent_of (p : Path) : option Path := match p with [] => None | _ => Some (removelast p) end.
Definition file_name (p : Path) : option bytes := List.last (map Some p) None.

Definition remove_cache_temp (r : Refusal) (fs : Fs) (tmp_path : Path) : Res FsError unit * Fs :=
  match parent_of tmp_path with
  | Some parent =>
      if bool_decide (file_name parent = Some (str ".cache_temp")) then
        match remove_dir r fs parent with
        | Ok fs => (Ok tt, fs)
        | Err FsNotEmpty | Err FsNotFound => (Ok tt, fs)
        | Err e => (Err e, fs)
        | Panic => (Panic, fs)
        | OutOfFuel => (OutOfFuel, fs)
        end
      else (Ok tt, fs)
  | None => (Ok tt, fs)
  end.

Definition remove_tmp_dir (r1 r2 : Refusal) (fs : Fs) (tmp_path : Path) : Res FsError unit * Fs :=
  if exists_at fs tmp_path then
    match remove_dir_all r1 fs tmp_path with
    | Ok fs => remove_cache_temp r2 fs tmp_path
    | Err FsNotFound => remove_cache_temp r2 fs tmp_path
    | Err e => (Err e, fs)
    | Panic => (Panic, fs)
    | OutOfFuel => (OutOfFuel, fs)
    end
  else (Ok tt, fs).

(** The directory part of [Caches::new], where [create_dir_all] is unwrapped. *)
Definition caches_new_dir (r : Refusal) (mem_size : option Z) (tmp_path : Path) (fs : Fs) : Res Empty_set Fs :=
  match mem_size with
  | Some _ => unwrap (create_dir_all r fs tmp_path)
  | None => Ok fs
  end.

(** The [Drop] of [Pack], after the pool and the cache have been shut down: an error is only logged. *)
Definition drop_pack (clean_tmp : bool) (r1 r2 : Refusal) (fs : Fs) (tmp_path : Path) : Fs :=
  if clean_tmp then (remove_tmp_dir r1 r2 fs tmp_path).2 else fs.

Definition create_empty_dir (r1 r2 : Refusal) (fs : Fs) (dir : Path) : Res FsError Fs :=
  let! fs := if exists_at fs dir then remove_dir_all r1 fs dir else Ok fs in
  create_dir_all r2 fs dir.

(** The entries of a directory. *)
Definition read_dir (fs : Fs) (p : Path) : list Path :=
  filter (fun q => removelast q = p /\ q <> []) (map_to_list fs).*1.

(** [count_dir_files]; [fuel] bounds the depth of the tree. *)
Fixpoint count_dir_files (fuel : nat) (fs : Fs) (p : Path) : Res FsError Z :=
  match fuel with
  | O => OutOfFuel
  | S fuel =>
      if is_dir fs p then
        foldr (fun q acc => let! n := (if is_dir fs q then count_dir_files fuel fs q else Ok 1) in let! m := acc in Ok (n + m))
          (Ok 0) (read_dir fs p)
      else Err (if exists_at fs p then FsOther 20 else FsNotFound)
  end.

Example count_dir_files_sample :
  count_dir_files 3 ({[ [] := NDir; [[97]] := NDir; [[97]; [98]] := NFile []; [[99]] := NFile [1] ]} : Fs) [] = Ok 2.
Proof. vm_compute. reflexivity. Qed.

(** * What is left behind *)

(** Every entry lies in a directory. *)
Definition fs_ok (fs : Fs) : Prop := forall p name, is_Some (fs !! (p ++ [name])) -> fs !! p = Some NDir.

Lemma fs_ok_prefix fs p q : fs_ok fs -> is_Some (fs !! (p ++ q)) -> q <> [] -> fs !! p = Some NDir.
Proof.
  intros Hok. revert p. induction q as [|name q IH] using rev_ind; intros p Hs Hne; [done|].
  rewrite app_assoc in Hs. apply Hok in Hs. destruct q as [|x q]; [by rewrite app_nil_r in Hs|]. apply IH; [by rewrite Hs|done].
Qed.

Lemma create_dirs_spec fs done todo fs' :
  create_dirs fs done todo = Ok fs' ->
  (forall q, ~ (done `prefix_of` q /\ q `prefix_of` (done ++ todo)) -> fs' !! q = fs !! q)
  /\ (forall q, done `prefix_of` q -> q `prefix_of` (done ++ todo) -> fs' !! q = Some NDir)
  /\ (forall q, is_Some (fs !! q) -> fs' !! q = fs !! q).
Proof.
  revert fs done. induction todo as [|name todo IH]; intros fs done Hc; cbn [create_dirs] in Hc.
  - assert (Hq : forall q, done `prefix_of` q -> q `prefix_of` (done ++ []) -> q = done).
    { intros q Hq1 Hq2. rewrite app_nil_r in Hq2. by apply (anti_symm prefix). }
    destruct (fs !! done) as [[d|]|] eqn:E; [discriminate| |]; injection Hc as <-.
    + split; [done|]. split; [|done]. intros q Hq1 Hq2. by rewrite (Hq q Hq1 Hq2).
    + split; [|split].
      * intros q Hn. apply lookup_insert_ne. intros ->. apply Hn. rewrite app_nil_r. done.
      * intros q Hq1 Hq2. rewrite (Hq q Hq1 Hq2). apply lookup_insert_eq.
      * intros q [x Hs]. apply lookup_insert_ne. intros ->. congruence.
  - assert (Hstep : exists fs1, create_dirs fs1 (done ++ [name]) todo = Ok fs' /\ fs1 !! done = Some NDir
      /\ (forall q, q <> done -> fs1 !! q = fs !! q) /\ (is_Some (fs !! done) -> fs1 !! done = fs !! done)).
    { destruct (fs !! done) as [[d|]|] eqn:E; [discriminate| |].
      - exists fs. by rewrite E.
      - exists (<[done := NDir]> fs). split; [done|]. split; [apply lookup_insert_eq|]. split; [|by intros []].
        intros q Hq. by apply lookup_insert_ne. }
    destruct Hstep as (fs1 & Hc1 & Hd & Hother & Hkeep). destruct (IH _ _ Hc1) as (H1 & H2 & H3). rewrite <- app_assoc in H1, H2. cbn [app] in *.
    assert (Hnot : ~ (done ++ [name]) `prefix_of` done).
    { intros Hp%prefix_length. rewrite length_app in Hp. cbn in Hp. lia. }
    assert (Hdone : fs' !! done = Some NDir). { rewrite H1; [done|]. by intros [? _]. }
    split; [|split].
    + intros q Hn. assert (q <> done) by (intros ->; apply Hn; split; [done|by apply prefix_app_r]).
      rewrite H1, Hother; try done. intros [Hp1 Hp2]. apply Hn. split; [|done]. etrans; [|exact Hp1]. by apply prefix_app_r.
    + intros q Hq1 Hq2. destruct (decide (q = done)) as [->|Hne]; [done|]. apply H2; [|done].
      destruct Hq1 as [r ->]. apply prefix_app_inv in Hq2. destruct r as [|y r]; [by rewrite app_nil_r in Hne|].
      apply prefix_cons_inv_1 in Hq2 as ->. apply prefix_app. apply prefix_cons, prefix_nil.
    + intros q Hs. destruct (decide (q = done)) as [->|Hne]; [rewrite Hdone, <- (Hkeep Hs); done|].
      rewrite H3; [by apply Hother|]. by rewrite Hother.
Qed.

(** [remove_dir_all] leaves what does not lie below the directory. *)
Lemma filter_outside (fs : Fs) p q :
  (filter (fun x => ~ p `prefix_of` x.1) fs : Fs) !! q = if decide (p `prefix_of` q) then None else fs !! q.
Proof.
  destruct (decide _) as [Hp|Hp].
  - apply map_lookup_filter_None. right. intros x _ Hn. by apply Hn.
  - destruct (fs !! q) as [x|] eqn:E; [by apply map_lookup_filter_Some|]. apply map_lookup_filter_None. by left.
Qed.

(** A directory has nothing below it. *)
Lemma filter_below_empty (fs : Fs) p : (filter (fun x => below p x.1) fs : Fs) = ∅ <-> forall q, below p q -> fs !! q = None.
Proof.
  split.
  - intros He q Hq. destruct (fs !! q) as [x|] eqn:E; [|done]. assert (Hx : (filter (fun x => below p x.1) fs : Fs) !! q = Some x).
    { apply map_lookup_filter_Some. done. }
    by rewrite He, lookup_empty in Hx.
  - intros Hn. apply map_empty. intros q. apply map_lookup_filter_None. destruct (fs !! q) as [x|] eqn:E; [|by left].
    right. intros y _ Hy. by rewrite (Hn q Hy) in E.
Qed.

Lemma tmp_not_base (base : Path) name : ~ (base ++ [name]) `prefix_of` base.
Proof. intros Hp%prefix_length. rewrite length_app in Hp. cbn in Hp. lia. Qed.

(** What lies on the way to the temporary directory is above it or is itself. *)
Lemma prefix_of_tmp (base : Path) name q : q `prefix_of` (base ++ [name]) -> q `prefix_of` base \/ (base ++ [name]) `prefix_of` q.
Proof.
  intros [r Hr]. destruct r as [|x r _] using rev_ind.
  - right. rewrite app_nil_r in Hr. by rewrite Hr.
  - left. rewrite app_assoc in Hr. apply app_inj_2 in Hr as [-> _]; [|done]. by apply prefix_app_r.
Qed.

Lemma parent_of_app base name : parent_of (base ++ [name]) = Some base.
Proof. unfold parent_of. destruct (base ++ [name]) as [|x l] eqn:E; [by destruct base|]. rewrite <- E. by rewrite removelast_last. Qed.

(** Nothing lies in [base] but the temporary directory [base ++ [name]]. *)
Definition alone (fs : Fs) (base : Path) (name : bytes) : Prop :=
  forall q, below base q -> ~ (base ++ [name]) `prefix_of` q -> fs !! q = None.

(** What the file system holds after the removal of the temporary directory, when the system does not refuse. *)
Lemma remove_tmp_dir_spec (fs : Fs) (base : Path) (name : bytes) :
  fs !! base = Some NDir -> fs !! (base ++ [name]) = Some NDir ->
  exists (fs' : Fs) (gone : bool), remove_tmp_dir None None fs (base ++ [name]) = (Ok tt, fs')
  /\ (gone = true <-> file_name base = Some (str ".cache_temp") /\ alone fs base name)
  /\ forall q, fs' !! q = if decide ((base ++ [name]) `prefix_of` q) then None else if gone && bool_decide (q = base) then None else fs !! q.
Proof.
  intros Hb Ht. unfold remove_tmp_dir, remove_dir_all, remove_cache_temp, refused, exists_at. rewrite Ht, parent_of_app, bool_decide_true by by eexists.
  set (fs1 := filter (fun x => ~ (base ++ [name]) `prefix_of` x.1) fs : Fs).
  assert (H1 : forall q, fs1 !! q = if decide ((base ++ [name]) `prefix_of` q) then None else fs !! q) by (intros q; apply filter_outside).
  assert (Hb1 : fs1 !! base = Some NDir). { rewrite H1. destruct (decide _) as [Hp|]; [by destruct (tmp_not_base base name)|done]. }
  assert (Hempty : (filter (fun x => below base x.1) fs1 : Fs) = ∅ <-> alone fs base name).
  { rewrite filter_below_empty. unfold alone. split; intros Hx q Hq; [intros Hp; rewrite <- (Hx q Hq), H1; by destruct (decide _)|].
    rewrite H1. destruct (decide _); [done|auto]. }
  assert (Hsame : forall q, fs1 !! q = if decide ((base ++ [name]) `prefix_of` q) then None else if false && bool_decide (q = base) then None else fs !! q) by exact H1.
  unfold remove_dir, refused. rewrite Hb1. case_bool_decide as Hct; [|exists fs1, false; split; [done|split; [naive_solver|done]]].
  case_bool_decide as He; [|exists fs1, false; split; [done|split; [naive_solver|done]]].
  exists (delete base fs1), true. split; [done|]. split; [naive_solver|]. intros q. cbn [andb]. case_bool_decide as Hq.
  - subst q. rewrite lookup_delete_eq. by destruct (decide _).
  - by rewrite lookup_delete_ne, H1.
Qed.

(** The temporary directory of a pack, [base/name], leaves nothing behind. When [Caches::new]
    made it where nothing was, decoding changed nothing outside it, and the pack that is dropped
    cleans up, then nothing is left under it; every other file and directory that existed is as it
    was, but for the directory above it, which is gone exactly when it is called [.cache_temp] and
    held nothing else; and what is new are directories on the way to it. *)
Theorem pack_dir_cleaned (n : Z) (base : Path) (name : bytes) (fs0 fs1 fs2 : Fs) :
  fs_ok fs0 -> fs0 !! (base ++ [name]) = None ->
  caches_new_dir None (Some n) (base ++ [name]) fs0 = Ok fs1 ->
  fs2 !! (base ++ [name]) = Some NDir -> (forall q, ~ (base ++ [name]) `prefix_of` q -> fs2 !! q = fs1 !! q) ->
  let fs3 := drop_pack true None None fs2 (base ++ [name]) in
  (forall q, (base ++ [name]) `prefix_of` q -> fs3 !! q = None)
  /\ (forall q, is_Some (fs0 !! q) -> q <> base -> fs3 !! q = fs0 !! q)
  /\ (fs3 !! base = None <-> file_name base = Some (str ".cache_temp") /\ alone fs0 base name)
  /\ (forall q x, fs3 !! q = Some x -> fs0 !! q = None -> x = NDir /\ q `prefix_of` base).
Proof.
  intros Hok Hfresh Hnew Ht Hout. cbn [caches_new_dir] in Hnew. unfold create_dir_all, refused in Hnew.
  destruct (create_dirs fs0 [] (base ++ [name])) as [fs1'| | |] eqn:Hc; try discriminate Hnew. injection Hnew as ->.
  destruct (create_dirs_spec _ _ _ _ Hc) as (Ho & Hd & Hk). cbn [app] in Ho, Hd.
  pose proof (tmp_not_base base name) as Hnb.
  assert (Hb : fs2 !! base = Some NDir). { rewrite Hout by done. apply Hd; [apply prefix_nil|by apply prefix_app_r]. }
  destruct (remove_tmp_dir_spec fs2 base name Hb Ht) as (fs3 & gone & Hr & Hg & Hl). unfold drop_pack. rewrite Hr. cbn [snd].
  assert (Hin : forall q, (base ++ [name]) `prefix_of` q -> fs0 !! q = None).
  { intros q [r ->]. destruct (fs0 !! ((base ++ [name]) ++ r)) as [x|] eqn:E; [|done]. exfalso. destruct r as [|y r].
    - rewrite app_nil_r in E. congruence.
    - rewrite (fs_ok_prefix fs0 (base ++ [name]) (y :: r)) in Hfresh by done. discriminate. }
  assert (Halone : alone fs2 base name <-> alone fs0 base name).
  { unfold alone. split; intros Ha q Hq Hn; specialize (Ha q Hq Hn).
    - rewrite Hout in Ha by done. destruct (fs0 !! q) as [x|] eqn:E; [|done]. by rewrite (Hk q), E in Ha.
    - rewrite Hout by done. rewrite Ho; [done|]. intros [_ Hp]. apply prefix_of_tmp in Hp as [Hp|Hp]; [|done].
      destruct Hq as [Hq Hne]. apply Hne. by apply (anti_symm prefix). }
  rewrite Halone in Hg. split; [|split; [|split]].
  - intros q Hq. rewrite Hl. by destruct (decide _).
  - intros q Hq Hne. rewrite Hl. destruct (decide _) as [Hp|Hp]; [by rewrite (Hin q Hp) in *|].
    rewrite (bool_decide_false _ Hne), andb_false_r. rewrite Hout by done. by apply Hk.
  - rewrite Hl. destruct (decide _); [done|]. rewrite bool_decide_true, andb_true_r, Hb by done. destruct gone; naive_solver.
  - intros q x Hq H0. rewrite Hl in Hq. destruct (decide _) as [|Hp]; [done|]. destruct (gone && _); [done|]. rewrite Hout in Hq by done.
    destruct (decide (q `prefix_of` (base ++ [name]))) as [Hw|Hw].
    + rewrite (Hd q (prefix_nil _) Hw) in Hq. injection Hq as <-. by destruct (prefix_of_tmp _ _ _ Hw).
    + rewrite Ho in Hq by naive_solver. congruence.
Qed.

(** The entries of a concrete file system are enumerated. *)
Lemma entries_forall (fs : Fs) (P : Path -> Prop) : Forall P (map_to_list fs).*1 -> forall q, is_Some (fs !! q) -> P q.
Proof.
  intros HF q [x Hx]. apply (proj1 (List.Forall_forall _ _) HF). apply list_elem_of_In, list_elem_of_fmap. exists (q, x). split; [done|].
  by apply elem_of_map_to_list.
Qed.

Lemma fs_ok_entries (fs : Fs) : Forall (fun q => q = [] \/ fs !! removelast q = Some NDir) (map_to_list fs).*1 -> fs_ok fs.
Proof. intros HF p name Hs. destruct (entries_forall _ _ HF _ Hs) as [Hn|Hd]; [by destruct p|]. by rewrite removelast_last in Hd. Qed.

(** The directory a pack makes in an empty cache directory goes with it. *)
Lemma pack_dir_cleaned_witness :
  let base := [str "repo"; str ".cache_temp"] in
  let fs0 := ({[ [] := NDir; [str "repo"] := NDir; [str "repo"; str "HEAD"] := NFile (str "ref") ]} : Fs) in
  let fs1 := <[base := NDir]> (<[base ++ [str "p"] := NDir]> fs0) in
  drop_pack true None None (<[base ++ [str "p"; str "ab"] := NFile [1]]> fs1) (base ++ [str "p"]) = fs0
  /\ drop_pack true None None (<[base ++ [str "p"; str "ab"] := NFile [1]]> fs1) (base ++ [str "p"]) !! base = None.
Proof.
  intros base fs0 fs1. split; [vm_compute; reflexivity|].
  refine (proj2 (proj1 (proj2 (proj2 (pack_dir_cleaned 5 base (str "p") fs0 fs1 _ _ _ _ _ _)))) _).
  - apply fs_ok_entries. apply (bool_decide_eq_true_1 _). vm_compute. reflexivity.
  - vm_compute. reflexivity.
  - vm_compute. reflexivity.
  - vm_compute. reflexivity.
  - intros q Hq. apply lookup_insert_ne. intros <-. apply Hq. by exists [str "ab"].
  - split; [vm_compute; reflexivity|]. intros q Hq _. apply eq_None_not_Some. intros Hs. revert q Hs Hq.
    apply (entries_forall fs0 (fun q => below base q -> False)). apply (bool_decide_eq_true_1 _). vm_compute. reflexivity.
Defined.

(** [create_empty_dir] leaves an empty directory and nothing else changed, apart from the directories on the way. *)
Theorem create_empty_dir_empty (fs fs' : Fs) (dir : Path) :
  fs_ok fs -> create_empty_dir None None fs dir = Ok fs' ->
  fs' !! dir = Some NDir /\ (forall q, below dir q -> fs' !! q = None)
  /\ (forall q, ~ dir `prefix_of` q -> is_Some (fs !! q) -> fs' !! q = fs !! q).
Proof.
  intros Hok. unfold create_empty_dir, remove_dir_all, create_dir_all, refused, exists_at.
  assert (Hrest : forall fs1 : Fs, (forall q, below dir q -> fs1 !! q = None) -> (forall q, ~ dir `prefix_of` q -> fs1 !! q = fs !! q) ->
    create_dirs fs1 [] dir = Ok fs' -> fs' !! dir = Some NDir /\ (forall q, below dir q -> fs' !! q = None)
    /\ (forall q, ~ dir `prefix_of` q -> is_Some (fs !! q) -> fs' !! q = fs !! q)).
  { intros fs1 Hb Ho Hc. destruct (create_dirs_spec _ _ _ _ Hc) as (H1 & H2 & H3). cbn [app] in H1, H2. split; [|split].
    - apply H2; [apply prefix_nil|done].
    - intros q Hq. rewrite H1; [by apply Hb|]. intros [_ Hp]. destruct Hq as [Hq Hne]. apply Hne. by apply (anti_symm prefix).
    - intros q Hq Hs. rewrite H3; [by apply Ho|]. by rewrite Ho. }
  case_bool_decide as He.
  - destruct (fs !! dir) as [[d|]|] eqn:E; cbn [rbind]; try discriminate. apply Hrest.
    + intros q [Hp _]. rewrite filter_outside. by destruct (decide _).
    + intros q Hq. rewrite filter_outside. by destruct (decide _).
  - cbn [rbind]. apply Hrest; [|done]. intros q [[r ->] Hne]. apply eq_None_not_Some. intros Hs. apply He.
    rewrite (fs_ok_prefix fs dir r Hok Hs); [done|]. intros ->. by rewrite app_nil_r in Hne.
Qed.
