(* ===== verification/DecodeApi.v ===== *)
(** The public ways into the decoder of [src/internal/pack/decode.rs]: the variants of
    [decode_file], [decode_async] on a thread of its own, and [decode_stream], where a task forwards the
    chunks of a stream through a channel to the decoding thread, whose entries and pack id
    go out through two more channels. *)

From Stdlib Require Import ZArith Lia String.
From stdpp Require Import base tactics list numbers option gmap.
From S2P Require Import Prelude Stream Text Errors ObjectTypes DeltaUtils DeltaFormat DeltaDecode PackUtils Hash Inflate PackIndex PackDecode PackStats ChannelReader Caches Pipeline PipelineProofs DecodeStream EntrySort FileDecode.

(** * Files *)

Section files.
Context `{Build} `{TextEnv} `{HexCrate} `{Hasher} `{ZlibDecoder} `{SliceSort}.
Context (read_at : Z -> Z -> Res IoError bytes) (f : PackFiles) (kind : HashKind.t) (try_clone : Res IoError unit)
  (available_parallelism : Res IoError Z) (low_memory : bool).

Definition decode_without_callback (pack : bytes) : Job := streaming_job false low_memory pack.

Definition decode_file : Res GitError Job -> Prop :=
  decode_file_inner read_at f kind try_clone available_parallelism true low_memory RetainAll.

Definition decode_file_full_without_callback : Res GitError Job -> Prop :=
  decode_file_inner read_at f kind try_clone available_parallelism false low_memory RetainAll.

Definition decode_file_without_callback : Res GitError Job -> Prop :=
  decode_file_inner read_at f kind try_clone available_parallelism false low_memory SkipUnneeded.

(** The three decode the same bytes against the same names, checksums and counts: they differ in who is called
    back and in what may be skipped only. *)
Definition same_work (a b : Res GitError Job) : Prop :=
  match a, b with
  | Ok a, Ok b => job_options a = job_options b /\ job_counts a = job_counts b /\ job_pack a = job_pack b
  | Err e, Err e' => e = e'
  | Panic, Panic | OutOfFuel, OutOfFuel => True
  | _, _ => False
  end.

Lemma scan_job_same pack_open cb cb' mode mode' scan sync :
  same_work (scan_job pack_open cb low_memory mode scan sync) (scan_job pack_open cb' low_memory mode' scan sync).
Proof. unfold scan_job. by destruct pack_open. Qed.

Lemma bind_same {A} (m : Res GitError A) k k' : (forall a, same_work (k a) (k' a)) -> same_work (rbind m k) (rbind m k').
Proof. by destruct m; cbn. Qed.

Lemma decode_file_inner_same cb cb' mode mode' r :
  decode_file_inner read_at f kind try_clone available_parallelism cb low_memory mode r ->
  exists r', decode_file_inner read_at f kind try_clone available_parallelism cb' low_memory mode' r' /\ same_work r r'.
Proof.
  unfold decode_file_inner. destruct (pf_idx_stat f) as [u|[|e]| |]; try (intros ->; eexists; by split).
  - intros (scan & Hs & ->). eexists. split; [by exists scan|]. apply bind_same. intros. apply scan_job_same.
  - intros ->. eexists. split; [reflexivity|]. apply bind_same. intros pack. apply bind_same. intros. apply scan_job_same.
Qed.

Theorem decode_file_variants r :
  decode_file r ->
  (exists r1, decode_file_full_without_callback r1 /\ same_work r r1)
  /\ exists r2, decode_file_without_callback r2 /\ same_work r r2.
Proof. intros Hd. split; by apply (decode_file_inner_same true _ RetainAll). Qed.

End files.

(** * Threads and channels *)

(** What the other end of an unbounded channel has: a receiver that has left takes nothing more, and the
    failing [send] is only printed. *)
Definition received {A} (leaves : option nat) (sent : list A) : list A :=
  match leaves with Some n => take n sent | None => sent end.

(** The messages a [StreamBufReader] hands out, each as one piece. *)
Fixpoint messages_read (ds : list bytes) : list bytes :=
  match ds with
  | [] | [] :: _ => []
  | d :: ds => d :: messages_read ds
  end.

Section spawned.
Context `{Build} `{TextEnv} `{HexCrate} `{Hasher} `{ZlibDecoder} `{SliceSort} `{Crc32} `{LruCache} `{Allocator}.
Context (delta_error_text : GitDeltaError -> bytes) (zstdelta_apply : bytes -> bytes -> Res bytes bytes).
Context (d : Disk) (kind : HashKind.t) (mem_limit : option Z) (tmp : path) (low_memory : bool).

Definition job_of (c : Decoding) : Job := match c with FromFile j _ | FromCopy j _ | FromStream j => j end.

(** [decode] from its first line to its last: the result, the entries given to the callback and the pack ids. *)
Definition decode_run (pack : list ReadEvent) (pack_id_callback : bool)
  (result : Res GitError unit) (entries : list (MetaAttached Entry EntryMeta)) (ids : list ObjectHash.t) : Prop :=
  exists c reader, decode d kind mem_limit low_memory pack c reader
  /\ match c with
     | Ok c =>
         let j := job_of c in
         exists k st r signature,
           steps delta_error_text zstdelta_apply (job_params j) k
             (initial (job_params j) kind (job_options j) (cache_mem_size mem_limit) tmp (job_counts j) pack_id_callback (job_pack j)) st
           /\ main st = Return r
           /\ (decode_finish c signature r reader).1 = result /\ entries = delivered (shared st) /\ ids = pack_ids (shared st)
     | Err e => result = Err e /\ entries = [] /\ ids = []
     | Panic => result = Panic /\ entries = [] /\ ids = []
     | OutOfFuel => result = OutOfFuel /\ entries = [] /\ ids = []
     end.

(** [decode_async]: what joining the thread gives, and what the receiver gets. *)
Definition decode_async (pack : list ReadEvent) (leaves : option nat) (joined : Res Empty_set unit) (got : list Entry) : Prop :=
  exists result entries ids, decode_run pack false result entries ids
    /\ joined = unwrap result /\ got = received leaves (map ma_inner entries).

(** [decode_stream]: an error of the stream ends the task that forwards it, and with it the channel. *)
Definition decode_stream {E} (stream : list (Res E bytes)) (leaves : option nat) (pack_hash_send : bool) (leaves_id : option nat)
  (returned : Res Empty_set unit) (got : list (MetaAttached Entry EntryMeta)) (got_id : list ObjectHash.t) : Prop :=
  exists result entries ids, decode_run (map Chunk (messages_read (forward stream))) true result entries ids
    /\ returned = unwrap result /\ got = received leaves entries
    /\ got_id = if pack_hash_send then received leaves_id ids else [].

End spawned.

Lemma pieces_read ds : concat (stream_pieces (map Chunk (messages_read ds))) = until_empty ds.
Proof. induction ds as [|[|x d] ds IH]; cbn; [done|done|]. by rewrite IH. Qed.

(** * A run that ends *)

Section ending.
Context `{TextEnv} `{HexCrate} `{Hasher} `{LruCache} `{Allocator}.
Context (delta_error_text : GitDeltaError -> bytes) (zstdelta_apply : bytes -> bytes -> Res bytes bytes) (p : SharedParams).
Abbreviation step' := (step delta_error_text zstdelta_apply p).

(** Some worker can move, or none can. *)
Lemma worker_moves (rs : list prog) (s : Shared) :
  (exists rs1 q rs2, rs = rs1 ++ q :: rs2 /\ (over q = true \/ is_Some (exec q s)))
  \/ Forall (fun q => over q = false /\ exec q s = None) rs.
Proof.
  induction rs as [|q rs [(rs1 & q' & rs2 & -> & Hq)|IH]]; [by right|left; by exists (q :: rs1), q', rs2|].
  destruct (over q) eqn:Eo; [left; exists [], q, rs; auto|]. destruct (exec q s) as [x|] eqn:Ex; [left; exists [], q, rs; rewrite Ex; eauto|].
  right. by constructor.
Qed.

Lemma step_or_stuck st : (exists st', step' st st') \/ forall st', ~ step' st st'.
Proof.
  destruct st as [m qs rs s]. destruct qs as [|t qs]; [|left; eexists; apply (step_start _ _ _ m [] t qs)].
  destruct (worker_moves rs s) as [(rs1 & q & rs2 & -> & [Ho|[[[s' q'] ts] Hx]])|Hno];
    [left; eexists; by apply step_exit|left; eexists; by eapply step_run|].
  destruct (exec m s) as [[[s' m'] ts]|] eqn:Em; [left; eexists; by eapply step_main|].
  assert (Hj : (exists k, m = Join k /\ rs = []) \/ ~ exists k, m = Join k /\ rs = []).
  { destruct m; try (right; by intros (? & ? & _)). destruct rs; [left; eauto|right; by intros (? & _ & ?)]. }
  destruct Hj as [(k & -> & ->)|Hj]; [left; eexists; apply step_join|]. right. intros st' Hs. rewrite Forall_forall in Hno.
  inversion Hs; subst; try congruence.
  - apply Hj. eauto.
  - by destruct qs1.
  - destruct (Hno q); [apply elem_of_app; right; left|congruence].
  - destruct (Hno q); [apply elem_of_app; right; left|congruence].
Qed.

(** Runs of bounded length end. *)
Lemma bounded_run_ends n st :
  (forall k st', steps delta_error_text zstdelta_apply p k st st' -> (k <= n)%nat) ->
  exists k st', steps delta_error_text zstdelta_apply p k st st' /\ forall st'', ~ step' st' st''.
Proof.
  revert st. induction n as [|n IH]; intros st Hb.
  - exists 0%nat, st. split; [constructor|]. intros st' Hs. specialize (Hb 1%nat st' (steps_S _ _ _ _ _ _ _ Hs (steps_O _ _ _ _))). lia.
  - destruct (step_or_stuck st) as [[st1 Hs]|Hno]; [|exists 0%nat, st; split; [constructor|done]].
    destruct (IH st1) as (k & st' & Hk & Hno). { intros k st' Hk. specialize (Hb (S k) st' (steps_S _ _ _ _ _ _ _ Hs Hk)). lia. }
    exists (S k), st'. split; [by eapply steps_S|done].
Qed.

End ending.


(** The sample pack in two chunks, and then an error of the stream. *)
Definition sample_stream : list (Res bytes bytes) := [Ok (take 20 stream_pack); Ok (drop 20 stream_pack); Err (str "connection reset")].

Abbreviation sample_decode_stream := (@decode_stream true plain_texts hex_reference toy_hasher stored_zlib insertion_sort toy_crc toy_lru unlimited
  (fun _ => []) (fun _ _ => Err []) large_disk HashKind.Sha1 (Some 10) [] false bytes sample_stream (Some 1%nat) true None).

