(* ===== verification/ThreadKind.v ===== *)
(** The hash kind of a thread ([src/hash.rs], [CURRENT_HASH_KIND] and its guard), and what depends on it:
    [Pack::new], the constructor of [CacheObject] without a kind, and the tasks of a decode, which set the
    kind of their worker first. *)

From Stdlib Require Import ZArith Lia String.
From stdpp Require Import base tactics list numbers option gmap.
From S2P Require Import Prelude Stream Text Errors ObjectTypes DeltaUtils DeltaFormat PackUtils Hash Inflate PackIndex PackDecode EntrySort FileDecode.

(** The kind of every thread that has set one; [HashKind::default()] is SHA-1. *)
Abbreviation Kinds := (gmap nat HashKind.t).

Definition set_hash_kind (thread : nat) (kind : HashKind.t) (m : Kinds) : Kinds := <[thread := kind]> m.

Definition get_hash_kind (thread : nat) (m : Kinds) : HashKind.t := default HashKind.Sha1 (m !! thread).

Record HashKindGuard : Type := mkHashKindGuard { prev : HashKind.t }.

Definition HashKindGuard_drop (thread : nat) (g : HashKindGuard) (m : Kinds) : Kinds := set_hash_kind thread (prev g) m.

Definition set_hash_kind_for_test (thread : nat) (kind : HashKind.t) (m : Kinds) : HashKindGuard * Kinds :=
  (mkHashKindGuard (get_hash_kind thread m), set_hash_kind thread kind m).

(** [Pack::new] on a thread. *)
Definition Pack_new (thread : nat) (m : Kinds) (push : bytes -> bytes -> bytes) (exists_ : bytes -> bool) (uuids : list bytes)
  (available_parallelism : Res IoError Z) (num_cpus : Z) (thread_num mem_limit : option Z) (temp_path : option bytes) (clean_tmp : bool)
  : Res Empty_set Pack :=
  Pack_new_with_hash_kind push exists_ uuids available_parallelism num_cpus (get_hash_kind thread m) thread_num mem_limit temp_path clean_tmp.

Section objects.
Context `{TextEnv} `{HexCrate} `{Hasher}.

Definition new_for_undeltified_with_kind (kind : HashKind.t) (obj_type : ObjectType.t) (data : bytes) (offset crc32 : Z)
  : Res GitError CacheObject :=
  let! hash := map_err GitError_from (calculate_object_hash_for_kind kind obj_type data) in
  Ok (mkCacheObject (BaseObject obj_type hash) offset crc32 data false None).

Definition new_for_undeltified (thread : nat) (m : Kinds) (obj_type : ObjectType.t) (data : bytes) (offset crc32 : Z)
  : Res Empty_set CacheObject :=
  let! hash := calculate_object_hash (get_hash_kind thread m) obj_type data in
  Ok (mkCacheObject (BaseObject obj_type hash) offset crc32 data false None).

End objects.

Definition offset_delta (o : CacheObject) : option Z := match info o with OffsetDelta offset _ => Some offset | _ => None end.
Definition hash_delta (o : CacheObject) : option ObjectHash.t := match info o with HashDelta h _ => Some h | _ => None end.

(** A worker runs a task of a pack of kind [kind]: it sets its own kind and then runs the body. *)
Definition run_task {A} (worker : nat) (kind : HashKind.t) (body : HashKind.t -> A) (m : Kinds) : A * Kinds :=
  let m := set_hash_kind worker kind m in (body (get_hash_kind worker m), m).

(** * Guards *)

(** What threads do: enter a scope with a guard, leave the innermost scope of a thread, run a task. *)
Inductive KindOp : Type := Enter (thread : nat) (kind : HashKind.t) | Leave (thread : nat) | RunTask (worker : nat) (kind : HashKind.t).

(** The guards of each thread, the innermost first. *)
Abbreviation Guards := (gmap nat (list HashKindGuard)).

Definition guards_of (gs : Guards) (t : nat) : list HashKindGuard := default [] (gs !! t).

Definition kind_step (st : Kinds * Guards) (op : KindOp) : Kinds * Guards :=
  let '(m, gs) := st in
  match op with
  | Enter t kind => let '(g, m) := set_hash_kind_for_test t kind m in (m, <[t := g :: guards_of gs t]> gs)
  | Leave t =>
      match guards_of gs t with
      | g :: rest => (HashKindGuard_drop t g m, <[t := rest]> gs)
      | [] => (m, gs)
      end
  | RunTask w kind => ((run_task w kind (fun _ => tt) m).2, gs)
  end.

Definition kind_run (st : Kinds * Guards) (ops : list KindOp) : Kinds * Guards := fold_left kind_step ops st.

(** Whose kind an operation changes. *)
Definition op_thread (op : KindOp) : nat := match op with Enter t _ | Leave t | RunTask t _ => t end.

Lemma get_set m t t' k : get_hash_kind t' (set_hash_kind t k m) = if decide (t = t') then k else get_hash_kind t' m.
Proof. unfold get_hash_kind, set_hash_kind. rewrite lookup_insert. by destruct (decide _). Qed.

Lemma kind_step_other st op t : op_thread op <> t ->
  get_hash_kind t (kind_step st op).1 = get_hash_kind t st.1 /\ guards_of (kind_step st op).2 t = guards_of st.2 t.
Proof.
  destruct st as [m gs]. intros Hne. destruct op as [u k|u|u k]; cbn in Hne |- *.
  - rewrite get_set, decide_False by done. unfold guards_of at 1. by rewrite lookup_insert_ne.
  - destruct (guards_of gs u) eqn:E; cbn; [done|]. unfold HashKindGuard_drop. rewrite get_set, decide_False by done.
    unfold guards_of at 1. by rewrite lookup_insert_ne.
  - by rewrite get_set, decide_False.
Qed.

(** Scopes that are closed again, innermost first, on thread [t]; other threads do what they like. *)
Inductive balanced (t : nat) : list KindOp -> Prop :=
| bal_nil : balanced t []
| bal_other op ops : op_thread op <> t -> balanced t ops -> balanced t (op :: ops)
| bal_scope k ops ops' : balanced t ops -> balanced t ops' -> balanced t (Enter t k :: ops ++ Leave t :: ops').

(** A thread whose scopes are closed again has its kind back, whatever other threads set in between, and inside a scope it
    has the kind of the scope: the kinds of threads do not interfere. *)
Theorem guards_restore (t : nat) (ops : list KindOp) (st : Kinds * Guards) :
  balanced t ops ->
  get_hash_kind t (kind_run st ops).1 = get_hash_kind t st.1 /\ guards_of (kind_run st ops).2 t = guards_of st.2 t.
Proof.
  intros Hb. revert st. induction Hb as [|op ops Hne Hb IH|k ops ops' Hb IH Hb' IH']; intros st; [done| |].
  - unfold kind_run in *. cbn [fold_left]. destruct (IH (kind_step st op)) as [-> ->]. by apply kind_step_other.
  - unfold kind_run in *. cbn [fold_left]. rewrite fold_left_app. cbn [fold_left]. set (st1 := kind_step st (Enter t k)).
    destruct (IH st1) as [_ Hg]. set (st2 := fold_left kind_step ops st1) in *. destruct (IH' (kind_step st2 (Leave t))) as [-> ->].
    destruct st as [m gs], st2 as [m2 gs2]. cbn in st1, Hg. subst st1. cbn in Hg |- *.
    assert (Hg' : guards_of gs2 t = mkHashKindGuard (get_hash_kind t m) :: guards_of gs t).
    { rewrite Hg. unfold guards_of at 1. by rewrite lookup_insert_eq. }
    rewrite Hg'. cbn. unfold HashKindGuard_drop, guards_of at 1. rewrite get_set, decide_True by done. by rewrite lookup_insert_eq.
Qed.

Lemma guards_restore_witness :
  get_hash_kind 0 (kind_run (∅, ∅) [Enter 0 HashKind.Sha256; RunTask 1 HashKind.Blake3; Leave 0]).1 = get_hash_kind 0 ∅
  /\ guards_of (kind_run (∅, ∅) [Enter 0 HashKind.Sha256; RunTask 1 HashKind.Blake3; Leave 0]).2 0 = guards_of ∅ 0.
Proof.
  apply (guards_restore 0 [Enter 0 HashKind.Sha256; RunTask 1 HashKind.Blake3; Leave 0] (∅, ∅)).
  apply (bal_scope 0 HashKind.Sha256 [RunTask 1 HashKind.Blake3] []); [|apply bal_nil].
  apply bal_other; [done|apply bal_nil].
Defined.

(** A guard dropped out of order leaves the wrong kind behind. *)
Example guards_out_of_order :
  let '(g1, m) := set_hash_kind_for_test 0 HashKind.Sha256 ∅ in
  let '(g2, m) := set_hash_kind_for_test 0 HashKind.Blake3 m in
  get_hash_kind 0 (HashKindGuard_drop 0 g2 (HashKindGuard_drop 0 g1 m)) = HashKind.Sha256.
Proof. reflexivity. Qed.

(** The constructor without a kind is the one with the kind of the thread; where that fails, for a delta type, it panics. *)
Theorem new_for_undeltified_eq `{TextEnv} `{HexCrate} `{Hasher} thread m obj_type data offset crc32 :
  new_for_undeltified thread m obj_type data offset crc32
  = unwrap (new_for_undeltified_with_kind (get_hash_kind thread m) obj_type data offset crc32).
Proof.
  unfold new_for_undeltified, new_for_undeltified_with_kind, calculate_object_hash, calculate_object_hash_for_kind.
  destruct (ObjectType.to_bytes obj_type); cbn [or_panic ok_or rbind]; [|done]. by destruct (hash_loose_object _ _ _) as [?|[]| |].
Qed.

(** * Writing into an identifier *)

(** [as_mut_bytes]: what a caller writes through the slice, which keeps its length. *)
Definition as_mut_bytes (h : ObjectHash.t) (write : bytes -> bytes) : ObjectHash.t :=
  match h with
  | ObjectHash.Sha1 b => ObjectHash.Sha1 (write b)
  | ObjectHash.Sha256 b => ObjectHash.Sha256 (write b)
  | ObjectHash.Blake3 b => ObjectHash.Blake3 (write b)
  end.

(** An identifier that is written through its slice keeps its kind and is still one of that kind. *)
Lemma as_mut_bytes_wf (h : ObjectHash.t) (write : bytes -> bytes) :
  (forall b, length (write b) = length b) -> (forall b, byte_list (write b)) -> hash_wf h ->
  hash_wf (as_mut_bytes h write) /\ ObjectHash.kind (as_mut_bytes h write) = ObjectHash.kind h
  /\ ObjectHash.as_ref (as_mut_bytes h write) = write (ObjectHash.as_ref h).
Proof. unfold hash_wf, blen. intros Hl Hb [Hh _]. destruct h; cbn in *; rewrite Hl; auto. Qed.
