(* ===== verification/Tree.v ===== *)
(** Tree objects, [src/internal/object/tree.rs]: modes, entries, the tree body with
    its parser and serializer, and the constructors that compute its identifier. *)

From Stdlib Require Import ZArith Lia String.
From stdpp Require Import base tactics list numbers option.
From S2P Require Import Prelude Stream Text Errors ObjectTypes PackUtils Hash.

Module TreeItemMode.

Inductive t : Type := Blob | BlobExecutable | Tree | Commit | Link.

#[global] Instance eq_dec : EqDecision t.
Proof. solve_decision. Defined.

Definition to_bytes (m : t) : bytes :=
  match m with
  | Blob => str "100644"
  | BlobExecutable => str "100755"
  | Link => str "120000"
  | Tree => str "40000"
  | Commit => str "160000"
  end.

Definition tree_item_type_from_bytes `{TextEnv} (mode : bytes) : Res GitError t :=
  if bool_decide (mode = str "40000") then Ok Tree
  else if bool_decide (mode = str "100644") then Ok Blob
  else if bool_decide (mode = str "100755") then Ok BlobExecutable
  else if bool_decide (mode = str "120000") then Ok Link
  else if bool_decide (mode = str "160000") then Ok Commit
  else if bool_decide (mode = str "100664") then Ok Blob
  else if bool_decide (mode = str "100640") then Ok Blob
  else Err (InvalidTreeItem (from_utf8_lossy mode)).

End TreeItemMode.

(** [{:?}] of a byte vector. *)
Fixpoint debug_items (l : bytes) : bytes :=
  match l with
  | [] => []
  | [b] => show_dec b
  | b :: l => show_dec b ++ str ", " ++ debug_items l
  end.

Definition debug_vec (l : bytes) : bytes := str "[" ++ debug_items l ++ str "]".

Record TreeItem : Type := mkTreeItem { mode : TreeItemMode.t; id : ObjectHash.t; name : bytes }.

Definition TreeItem_new (mode : TreeItemMode.t) (id : ObjectHash.t) (name : bytes) : TreeItem :=
  mkTreeItem mode id name.

Definition TreeItem_to_data (i : TreeItem) : bytes :=
  TreeItemMode.to_bytes (mode i) ++ [32] ++ name i ++ [0] ++ ObjectHash.to_data (id i).

Definition is_tree (i : TreeItem) : bool := bool_decide (mode i = TreeItemMode.Tree).
Definition is_blob (i : TreeItem) : bool := bool_decide (mode i = TreeItemMode.Blob).

Record Tree : Type := mkTree { tree_id : ObjectHash.t; tree_items : list TreeItem }.

(** [PartialEq for Tree]. *)
Definition Tree_eq (t other : Tree) : bool := bool_decide (tree_id t = tree_id other).

Section parsers.
Context `{TextEnv} `{ByteSearch}.

(** The UTF-8 name, or the GBK one. *)
Definition decode_name (raw_name : bytes) : Res GitError bytes :=
  if utf8_valid raw_name then Ok raw_name
  else match gbk_decode raw_name with
       | Some decoded => Ok decoded
       | None => Err (InvalidTreeItem (str "Unsupported raw format: " ++ debug_vec raw_name))
       end.

Definition malformed (b : bytes) (kind : HashKind.t) (what : bytes) : GitError :=
  InvalidTreeItem (str "tree entry is missing its " ++ what ++ str " (" ++ show_dec (blen b)
    ++ str " bytes, expected " ++ show_dec (Z.max 0 (blen b - (HashKind.size kind + 1)))
    ++ str " mode/name bytes + 1 NUL + " ++ show_dec (HashKind.size kind) ++ str "-byte "
    ++ HashKind.as_str kind ++ str " id)").

Definition TreeItem_from_bytes_with_kind (b : bytes) (kind : HashKind.t) : Res GitError TreeItem :=
  let! '(mode, rest) := ok_or (cut 32 b) (malformed b kind (str "mode")) in
  let! '(raw_name, id) := ok_or (cut 0 rest) (malformed b kind (str "NUL separator")) in
  let! name := decode_name raw_name in
  let! mode := TreeItemMode.tree_item_type_from_bytes mode in
  let! id := map_err GitError_from (ObjectHash.from_bytes_for_kind kind id) in
  Ok (mkTreeItem mode id name).

(** The legacy entry point: a missing separator or an identifier of the wrong
    width panics. *)
Definition TreeItem_from_bytes (current : HashKind.t) (b : bytes) : Res GitError TreeItem :=
  let! '(mode, rest) := or_panic (split_at 32 b) in
  let! '(raw_name, id) := or_panic (split_at 0 rest) in
  let! name := decode_name raw_name in
  let! mode := TreeItemMode.tree_item_type_from_bytes mode in
  let! id := unwrap (ObjectHash.from_bytes current id) in
  Ok (mkTreeItem mode id name).

(** Every round consumes a NUL and an identifier, so the length bounds the loop. *)
Fixpoint tree_loop (fuel : nat) (kind : HashKind.t) (data : bytes) (i : Z) (items : list TreeItem)
  : Res GitError (list TreeItem) :=
  match fuel with
  | O => OutOfFuel
  | S fuel =>
      if i <? blen data then
        let! tail := or_panic (get_range data i (blen data)) in
        match find_byte 0 tail with
        | Some index =>
            let next := i + index + HashKind.size kind + 1 in
            if blen data <? next then Err InvalidTreeObject
            else
              let! item_data := or_panic (get_range data i next) in
              let! tree_item := TreeItem_from_bytes_with_kind item_data kind in
              tree_loop fuel kind data next (items ++ [tree_item])
        | None => Err InvalidTreeObject
        end
      else Ok items
  end.

Definition Tree_from_bytes (data : bytes) (hash : ObjectHash.t) : Res GitError Tree :=
  let! items := tree_loop (S (length data)) (ObjectHash.kind hash) data 0 [] in
  Ok (mkTree hash items).

Definition items_data (items : list TreeItem) : bytes := concat (map TreeItem_to_data items).

Definition Tree_to_data (t : Tree) : Res GitError bytes := Ok (items_data (tree_items t)).

Definition Tree_get_size (t : Tree) : Z :=
  match Tree_to_data t with Ok data => blen data | _ => 0 end.

Fixpoint items_data_for_kind (kind : HashKind.t) (items : list TreeItem) (data : bytes)
  : Res GitError bytes :=
  match items with
  | [] => Ok data
  | item :: items =>
      let! _ := map_err GitError_from (ObjectHash.ensure_kind (id item) kind) in
      items_data_for_kind kind items (data ++ TreeItem_to_data item)
  end.

Context `{Hasher}.

Definition from_tree_items_with_kind (kind : HashKind.t) (items : list TreeItem) : Res GitError Tree :=
  match items with
  | [] => Err (EmptyTreeItems (str "When export tree object to meta, the items is empty"))
  | _ =>
      let! data := items_data_for_kind kind items [] in
      let! h := map_err GitError_from (from_type_and_data_for_kind kind ObjectType.Tree data) in
      Ok (mkTree h items)
  end.

Definition from_tree_items (current : HashKind.t) (items : list TreeItem) : Res GitError Tree :=
  match items with
  | [] => Err (EmptyTreeItems (str "When export tree object to meta, the items is empty"))
  | _ =>
      let! h := unwrap (from_type_and_data current ObjectType.Tree (items_data items)) in
      Ok (mkTree h items)
  end.

(** The result and the tree after the call: a failure leaves the tree as it was. *)
Definition rehash_with_kind (t : Tree) (kind : HashKind.t) : Res GitError unit * Tree :=
  let r :=
    let! data := items_data_for_kind kind (tree_items t) [] in
    map_err GitError_from (from_type_and_data_for_kind kind ObjectType.Tree data) in
  match r with
  | Ok h => (Ok tt, mkTree h (tree_items t))
  | Err e => (Err e, t)
  | Panic => (Panic, t)
  | OutOfFuel => (OutOfFuel, t)
  end.

Definition rehash (current : HashKind.t) (t : Tree) : Res GitError Tree :=
  let! h := unwrap (from_type_and_data current ObjectType.Tree (items_data (tree_items t))) in
  Ok (mkTree h (tree_items t)).

(** [TryFrom<&[u8]>]. *)
Definition Tree_try_from (current : HashKind.t) (data : bytes) : Res GitError Tree :=
  let! h := unwrap (from_type_and_data current ObjectType.Tree data) in
  Tree_from_bytes data h.

End parsers.

(** * Entries *)

(** An entry a tree of the given kind can hold: a UTF-8 name without NUL, an
    identifier of that kind. *)
Definition item_wf (kind : HashKind.t) (i : TreeItem) : Prop :=
  utf8_valid (name i) = true /\ Forall (fun b => b <> 0) (name i)
  /\ ObjectHash.kind (id i) = kind /\ hash_wf (id i).

Lemma mode_plain m :
  Forall (fun b => b <> 32) (TreeItemMode.to_bytes m) /\ Forall (fun b => b <> 0) (TreeItemMode.to_bytes m).
Proof. destruct m; split; decide_closed. Qed.

Section tree_proofs.
Context `{TextEnv} `{ByteSearchLaws}.

Lemma mode_roundtrip m : TreeItemMode.tree_item_type_from_bytes (TreeItemMode.to_bytes m) = Ok m.
Proof. by destruct m. Qed.

Lemma TreeItem_roundtrip kind i :
  item_wf kind i -> TreeItem_from_bytes_with_kind (TreeItem_to_data i) kind = Ok i.
Proof.
  intros (Hutf & Hnul & Hk & Hwf). unfold TreeItem_from_bytes_with_kind, TreeItem_to_data.
  cbn [app]. rewrite cut_split_at, split_at_app by apply mode_plain. cbn [ok_or rbind].
  rewrite cut_split_at, split_at_app by done. cbn [ok_or rbind].
  unfold decode_name. rewrite Hutf. cbn [rbind]. rewrite mode_roundtrip. cbn [rbind].
  subst kind. unfold ObjectHash.to_data. rewrite from_bytes_for_kind_wf by done. by destruct i.
Qed.

Lemma TreeItem_to_data_nul kind i rest :
  item_wf kind i ->
  exists before after, split_at 0 (TreeItem_to_data i ++ rest) = Some (before, after)
    /\ blen (TreeItem_to_data i) = blen before + HashKind.size kind + 1.
Proof.
  intros (_ & Hnul & Hk & Hwf & _). exists (TreeItemMode.to_bytes (mode i) ++ 32 :: name i).
  eexists. split.
  - unfold TreeItem_to_data. cbn [app].
    replace (TreeItemMode.to_bytes (mode i) ++ 32 :: name i ++ 0 :: ObjectHash.to_data (id i))
      with ((TreeItemMode.to_bytes (mode i) ++ 32 :: name i) ++ 0 :: ObjectHash.to_data (id i))
      by by rewrite <- app_assoc.
    rewrite <- app_assoc. cbn [app]. apply split_at_app. apply Forall_app.
    split; [apply mode_plain|]. apply Forall_cons_2; [lia|done].
  - unfold TreeItem_to_data, ObjectHash.to_data. rewrite !blen_app, Hwf.
    unfold ObjectHash.size. rewrite Hk, !blen_cons. change (blen (@nil Z)) with 0. lia.
Qed.

Lemma tree_loop_roundtrip fuel kind pre items acc :
  Forall (item_wf kind) items -> blen (items_data items) < Z.of_nat fuel ->
  tree_loop fuel kind (pre ++ items_data items) (blen pre) acc = Ok (acc ++ items).
Proof.
  intros Hitems. revert fuel pre acc.
  induction Hitems as [|i items Hi _ IH]; intros fuel pre acc Hf;
    (destruct fuel as [|fuel]; [pose proof (blen_nonneg (items_data [])); blens|]).
  - cbn [tree_loop items_data map concat]. rewrite !app_nil_r.
    by replace (blen pre <? blen pre) with false by lia.
  - unfold items_data in *. cbn [map concat] in *. rewrite blen_app in Hf.
    destruct (TreeItem_to_data_nul kind i (concat (map TreeItem_to_data items)) Hi) as (before & after & Hsp & Hlen).
    pose proof (blen_nonneg before). pose proof (blen_nonneg (concat (map TreeItem_to_data items))).
    assert (0 < HashKind.size kind) by (destruct kind; cbn; lia).
    cbn [tree_loop]. rewrite get_range_end. rewrite !blen_app.
    replace (blen pre <? _) with true by lia. cbn [or_panic rbind]. rewrite find_byte_split, Hsp.
    replace (blen pre + blen before + HashKind.size kind + 1) with (blen pre + blen (TreeItem_to_data i)) by lia.
    replace (_ <? _) with false by lia. rewrite get_range_mid. cbn [or_panic rbind].
    rewrite TreeItem_roundtrip by done. cbn [rbind].
    rewrite app_assoc, <- blen_app, IH by lia. by rewrite <- app_assoc.
Qed.

(** A raw entry and the item it stands for. *)
Definition entry_item (kind : HashKind.t) (e : bytes * bytes * bytes) (i : TreeItem) : Prop :=
  let '(m, n, b) := e in
  TreeItemMode.tree_item_type_from_bytes m = Ok (mode i) /\ decode_name n = Ok (name i)
  /\ ObjectHash.from_bytes_for_kind kind b = Ok (id i).

Definition entry_bytes (e : bytes * bytes * bytes) : bytes :=
  let '(m, n, b) := e in m ++ [32] ++ n ++ [0] ++ b.

Lemma TreeItem_from_bytes_sound b kind i :
  TreeItem_from_bytes_with_kind b kind = Ok i ->
  exists e, b = entry_bytes e /\ entry_item kind e i.
Proof.
  unfold TreeItem_from_bytes_with_kind. intros Hb. rewrite cut_split_at in Hb.
  destruct (split_at 32 b) as [[m rest]|] eqn:E1; [|discriminate]. cbn [ok_or rbind] in Hb.
  rewrite cut_split_at in Hb. destruct (split_at 0 rest) as [[n h]|] eqn:E2; [|discriminate]. cbn [ok_or rbind] in Hb.
  destruct (decode_name n) as [nm| | |] eqn:E3; try discriminate. cbn [rbind] in Hb.
  destruct (TreeItemMode.tree_item_type_from_bytes m) as [mo| | |] eqn:E4; try discriminate. cbn [rbind] in Hb.
  destruct (ObjectHash.from_bytes_for_kind kind h) as [hh| | |] eqn:E5; try discriminate.
  cbn [map_err rbind] in Hb. injection Hb as <-.
  apply split_at_Some in E1 as [-> _]. apply split_at_Some in E2 as [-> _].
  exists (m, n, h). done.
Qed.

Lemma TreeItem_from_bytes_returns b kind : returns (TreeItem_from_bytes_with_kind b kind).
Proof.
  unfold TreeItem_from_bytes_with_kind.
  destruct (cut 32 b) as [[m rest]|]; [|exact I]. cbn [ok_or rbind].
  destruct (cut 0 rest) as [[n h]|]; [|exact I]. cbn [ok_or rbind].
  unfold decode_name. destruct (utf8_valid n); [|destruct (gbk_decode n); [|exact I]]; cbn [rbind].
  all: unfold TreeItemMode.tree_item_type_from_bytes; repeat case_bool_decide; cbn [rbind]; try exact I.
  all: unfold ObjectHash.from_bytes_for_kind; destruct (negb _); exact I.
Qed.

Lemma tree_loop_sound fuel kind pre data acc :
  blen data < Z.of_nat fuel ->
  match tree_loop fuel kind (pre ++ data) (blen pre) acc with
  | Ok items => exists es items', items = acc ++ items' /\ data = concat (map entry_bytes es)
                 /\ Forall2 (entry_item kind) es items'
  | Err _ => True
  | Panic | OutOfFuel => False
  end.
Proof.
  revert pre data acc. induction fuel as [|fuel IH]; intros pre data acc Hf; [pose proof (blen_nonneg data); lia|].
  cbn [tree_loop]. rewrite get_range_end, blen_app. pose proof (blen_nonneg data) as Hd.
  destruct (blen pre <? blen pre + blen data) eqn:E.
  2:{ exists [], []. rewrite app_nil_r. split; [done|]. split; [|constructor].
      destruct data; [done|]. rewrite blen_cons in *. pose proof (blen_nonneg data). lia. }
  cbn [or_panic rbind]. rewrite find_byte_split. destruct (split_at 0 data) as [[before after]|]; [|exact I].
  set (next := blen pre + blen before + HashKind.size kind + 1).
  destruct (blen pre + blen data <? next) eqn:En; [exact I|].
  pose proof (blen_nonneg before). assert (0 < HashKind.size kind) by (destruct kind; cbn; lia).
  pose proof (blen_nonneg pre).
  set (d := slice data 0 (next - blen pre)). set (rest := slice data (next - blen pre) (blen data)).
  assert (Hsplit : data = d ++ rest).
  { unfold d, rest. rewrite <- slice_split by lia. by rewrite slice_full. }
  assert (Hdl : blen d = next - blen pre) by (unfold d; rewrite blen_slice; lia).
  replace next with (blen pre + blen d) by lia. rewrite Hsplit, get_range_mid. cbn [or_panic rbind].
  pose proof (TreeItem_from_bytes_returns d kind) as Hret.
  destruct (TreeItem_from_bytes_with_kind d kind) as [item| | |] eqn:Ei; try done. cbn [rbind].
  specialize (IH (pre ++ d) rest (acc ++ [item])). rewrite <- app_assoc, blen_app in IH.
  assert (blen rest < Z.of_nat fuel) by (rewrite Hsplit, blen_app in Hf; lia).
  specialize (IH ltac:(done)). destruct (tree_loop _ _ _ _ _) as [items| | |]; try done.
  destruct IH as (es & items' & -> & Hr & Hall).
  apply TreeItem_from_bytes_sound in Ei as (e & He & Hit).
  exists (e :: es), (item :: items'). rewrite <- app_assoc. split; [done|]. split; [|by constructor].
  cbn [map concat]. by rewrite <- He, <- Hr.
Qed.

End tree_proofs.

(** C40: a tree survives serialization: its body parses back to the same entries,
    under an identifier of the entries' kind. *)
Theorem tree_roundtrip `{TextEnv} `{ByteSearchLaws} (t : Tree) (data : bytes) :
  Forall (item_wf (ObjectHash.kind (tree_id t))) (tree_items t) -> Tree_to_data t = Ok data ->
  Tree_from_bytes data (tree_id t) = Ok t /\ Tree_get_size t = blen data.
Proof.
  intros Hwf Hd. unfold Tree_get_size. rewrite Hd. split; [|done]. injection Hd as <-.
  unfold Tree_from_bytes.
  rewrite (tree_loop_roundtrip _ _ [] (tree_items t) [] Hwf) by (unfold blen; lia).
  by destruct t.
Qed.

Definition sample_id (b : Z) : ObjectHash.t := ObjectHash.Sha1 (repeat b 20).

(** A directory entry and a file whose identifier contains NUL and blanks. *)
Definition sample_tree : Tree := mkTree (sample_id 9)
  [mkTreeItem TreeItemMode.Tree (sample_id 0) (str "src dir");
   mkTreeItem TreeItemMode.BlobExecutable (sample_id 32) (str "run")].

Lemma tree_roundtrip_witness :
  @Tree_from_bytes plain_texts linear_search (items_data (tree_items sample_tree)) (tree_id sample_tree) = Ok sample_tree
  /\ Tree_get_size sample_tree = blen (items_data (tree_items sample_tree)).
Proof.
  apply (@tree_roundtrip plain_texts linear_search linear_search_laws sample_tree (items_data (tree_items sample_tree))); [|reflexivity].
  repeat apply Forall_cons_2; try apply Forall_nil_2; (split; [reflexivity|split; [decide_closed|split; [reflexivity|]]]);
    (split; [reflexivity|repeat constructor; unfold is_byte; lia]).
Defined.

(** the tree parser always returns, and whatever it accepts is, byte for byte,
    a sequence of entries [mode SP name NUL id] that decode to the items it
    returns, in order. *)
Theorem tree_parser_sound `{TextEnv} `{ByteSearchLaws} (data : bytes) (h : ObjectHash.t) :
  match Tree_from_bytes data h with
  | Ok t => tree_id t = h /\ exists es, data = concat (map entry_bytes es)
            /\ Forall2 (entry_item (ObjectHash.kind h)) es (tree_items t)
  | Err _ => True
  | Panic | OutOfFuel => False
  end.
Proof.
  unfold Tree_from_bytes.
  pose proof (tree_loop_sound (S (length data)) (ObjectHash.kind h) [] data [] ltac:(unfold blen; lia)) as Hs.
  cbn [app] in Hs. change (blen (@nil Z)) with 0 in Hs.
  destruct (tree_loop _ _ _ _ _) as [items| | |]; cbn [rbind]; try done.
  destruct Hs as (es & items' & -> & Hd & Hall). split; [done|]. eauto.
Qed.

Lemma tree_parser_sound_witness :
  match @Tree_from_bytes plain_texts linear_search (items_data (tree_items sample_tree)) (sample_id 9) with
  | Ok t => tree_id t = sample_id 9 /\ exists es, items_data (tree_items sample_tree) = concat (map entry_bytes es)
            /\ Forall2 (@entry_item plain_texts HashKind.Sha1) es (tree_items t)
  | Err _ => True
  | Panic | OutOfFuel => False
  end.
Proof. apply (@tree_parser_sound plain_texts linear_search linear_search_laws). Defined.

Lemma items_data_for_kind_spec `{TextEnv} kind items data :
  (Forall (fun i => ObjectHash.kind (id i) = kind) items
   /\ items_data_for_kind kind items data = Ok (data ++ items_data items))
  \/ (~ Forall (fun i => ObjectHash.kind (id i) = kind) items
      /\ exists e, items_data_for_kind kind items data = Err e).
Proof.
  revert data. induction items as [|i items IH]; intros data; cbn [items_data_for_kind].
  { left. split; [constructor|]. unfold items_data. cbn. by rewrite app_nil_r. }
  unfold ObjectHash.ensure_kind. case_bool_decide as Hk; cbn [map_err rbind].
  - destruct (IH (data ++ TreeItem_to_data i)) as [[Hall ->]|[Hn He]].
    + left. split; [by apply Forall_cons_2|]. unfold items_data. cbn. by rewrite <- app_assoc.
    + right. split; [|done]. intros Hall. apply Hn. by apply Forall_cons_1 in Hall as [_ ?].
  - right. split; [|by eexists]. intros Hall. by apply Forall_cons_1 in Hall as [? _].
Qed.

(** [from_tree_items_with_kind] builds a tree exactly from a non-empty list
    of entries of the repository's kind; the tree carries the identifier of its own
    body, and loading the body under that identifier gives the tree back.
    [rehash_with_kind] computes that same identifier and leaves the tree unchanged
    when an entry has another kind. *)
Theorem from_tree_items_correct `{TextEnv} `{ByteSearchLaws} `{HasherLaws} (kind : HashKind.t) (items : list TreeItem)
  (old : ObjectHash.t) :
  let t' := rehash_with_kind (mkTree old items) kind in
  if bool_decide (items <> [] /\ Forall (fun i => ObjectHash.kind (id i) = kind) items)
  then exists t, from_tree_items_with_kind kind items = Ok t /\ tree_items t = items
       /\ from_type_and_data_for_kind kind ObjectType.Tree (items_data items) = Ok (tree_id t)
       /\ (Forall (item_wf kind) items -> Tree_from_bytes (items_data items) (tree_id t) = Ok t)
       /\ t' = (Ok tt, t)
  else (exists e, from_tree_items_with_kind kind items = Err e)
       /\ (items <> [] -> exists e, t' = (Err e, mkTree old items)).
Proof.
  intros t'. unfold t', rehash_with_kind, from_tree_items_with_kind. cbn [tree_items].
  destruct (items_data_for_kind_spec kind items []) as [[Hall ->]|[Hn [e ->]]].
  - case_bool_decide as Hd.
    + destruct Hd as [Hne _]. destruct items as [|i items]; [done|]. cbn [app rbind].
      rewrite (from_type_and_data_for_kind_eq kind ObjectType.Tree _ (str "tree")) by reflexivity.
      cbn [map_err rbind]. eexists. split; [reflexivity|]. cbn [tree_id tree_items].
      destruct (ObjectHash_new_for_kind_wf kind (loose_object (str "tree") (items_data (i :: items)))) as [Hk _].
      split; [done|]. split; [done|]. split; [|done]. intros Hwf. unfold Tree_from_bytes. rewrite Hk.
      by rewrite (tree_loop_roundtrip _ _ [] (i :: items) [] Hwf) by (unfold blen; lia).
    + destruct items as [|i items]; [|exfalso; by apply Hd]. split; [by eexists|done].
  - case_bool_decide as Hd; [by destruct Hd|]. cbn [rbind]. split; [|by eexists].
    destruct items; by eexists.
Qed.

Lemma from_tree_items_correct_witness :
  exists t, @from_tree_items_with_kind plain_texts toy_hasher HashKind.Sha1 (tree_items sample_tree) = Ok t
    /\ tree_items t = tree_items sample_tree
    /\ @from_type_and_data_for_kind toy_hasher HashKind.Sha1 ObjectType.Tree (items_data (tree_items sample_tree))
       = Ok (tree_id t)
    /\ (Forall (item_wf HashKind.Sha1) (tree_items sample_tree) ->
        @Tree_from_bytes plain_texts linear_search (items_data (tree_items sample_tree)) (tree_id t) = Ok t)
    /\ @rehash_with_kind plain_texts toy_hasher (mkTree (sample_id 1) (tree_items sample_tree)) HashKind.Sha1
       = (Ok tt, t).
Proof.
  apply (@from_tree_items_correct plain_texts linear_search linear_search_laws toy_hasher toy_hasher_laws HashKind.Sha1
           (tree_items sample_tree) (sample_id 1)).
Defined.
