(* ===== verification/Signature.v ===== *)
(** Signature lines, [src/internal/object/signature.rs]:
    [<role> <name> <<email>> <timestamp> <tz>].  The clock of [Signature::new] is an
    argument. *)

From Stdlib Require Import ZArith Lia String.
From stdpp Require Import base tactics list numbers option.
From S2P Require Import Prelude Stream Text Errors Hash.

Module SignatureType.

Inductive t : Type := Author | Committer | Tagger.

#[global] Instance eq_dec : EqDecision t.
Proof. solve_decision. Defined.

(** [Display]. *)
Definition fmt (x : t) : bytes :=
  match x with
  | Author => str "author"
  | Committer => str "committer"
  | Tagger => str "tagger"
  end.

Definition from_str (s : bytes) : Res GitError t :=
  if bool_decide (s = str "author") then Ok Author
  else if bool_decide (s = str "committer") then Ok Committer
  else if bool_decide (s = str "tagger") then Ok Tagger
  else Err (InvalidSignatureType s).

Definition from_data `{TextEnv} (data : bytes) : Res GitError t :=
  if utf8_valid data then from_str data else Err (ConversionError (utf8_error_text data)).

Definition to_bytes (x : t) : bytes :=
  match x with
  | Author => str "author"
  | Committer => str "committer"
  | Tagger => str "tagger"
  end.

End SignatureType.

Record Signature : Type := mkSignature {
  signature_type : SignatureType.t;
  sig_name : bytes;
  email : bytes;
  timestamp : Z;
  timezone : bytes
}.

(** [{:02}]: at least two digits. *)
Definition show_02 (n : Z) : bytes := if n <? 10 then str "0" ++ show_dec n else show_dec n.

Definition format_timezone (offset_seconds : Z) : bytes :=
  let sign := if offset_seconds <? 0 then str "-" else str "+" in
  let total_minutes := Z.abs offset_seconds / 60 in
  sign ++ show_02 (total_minutes / 60) ++ show_02 (total_minutes mod 60).

(** [tz.len() == 5 && (tz[0] == b'+' || tz[0] == b'-') && tz[1..].iter().all(is_ascii_digit)]. *)
Definition tz_ok (tz : bytes) : bool :=
  (blen tz =? 5)
  && match tz with
     | c :: ds => ((c =? 43) || (c =? 45)) && forallb is_digit ds
     | [] => false
     end.

(** [strip_suffix(b" ")]. *)
Definition strip_space (s : bytes) : option bytes :=
  match split_last s with
  | Some (front, 32) => Some front
  | _ => None
  end.

Section signature.
Context `{TextEnv} `{ByteSearch}.

Definition sig_malformed (sign what : bytes) : GitError :=
  InvalidSignatureType (str "malformed signature line (" ++ what ++ str "): "
    ++ debug_str (from_utf8_lossy sign)).

(** The closure [utf8]. *)
Definition sig_utf8 (sign b what : bytes) : Res GitError bytes :=
  if utf8_valid b then Ok b else Err (sig_malformed sign what).

(** [.filter(|&i| i > lo)]. *)
Definition after (lo : Z) (i : option Z) : option Z :=
  match i with Some i => if lo <? i then Some i else None | None => None end.

Definition Signature_from_data (sign : bytes) : Res GitError Signature :=
  let! name_start := ok_or (find_byte 0x20 sign) (sig_malformed sign (str "missing role separator")) in
  let! role := or_panic (get_range sign 0 name_start) in
  let! role := sig_utf8 sign role (str "role") in
  let! signature_type := SignatureType.from_str role in
  let! email_start := ok_or (after name_start (find_byte 0x3C sign))
                        (sig_malformed sign (str "missing '<' before email")) in
  let! email_end := ok_or (after email_start (find_byte 0x3E sign))
                      (sig_malformed sign (str "missing '>' after email")) in
  let! name_bytes := or_panic (get_range sign (name_start + 1) email_start) in
  let! name_bytes :=
    match strip_space name_bytes with
    | Some stripped => Ok stripped
    | None => match name_bytes with
              | [] => Ok name_bytes
              | _ => Err (sig_malformed sign (str "missing space before '<'"))
              end
    end in
  let! name := sig_utf8 sign name_bytes (str "name") in
  let! email := or_panic (get_range sign (email_start + 1) email_end) in
  let! email := sig_utf8 sign email (str "email") in
  if negb (bool_decide (get sign (email_end + 1) = Some 0x20))
  then Err (sig_malformed sign (str "missing space after email"))
  else
    let! rest := or_panic (get_range sign (email_end + 2) (blen sign)) in
    let! timestamp_split := ok_or (find_byte 0x20 rest) (sig_malformed sign (str "missing timezone separator")) in
    let! ts := or_panic (get_range rest 0 timestamp_split) in
    let! ts := sig_utf8 sign ts (str "timestamp") in
    let! timestamp := ok_or (parse_dec usize_max ts) (sig_malformed sign (str "non-numeric timestamp")) in
    let! tz := or_panic (get_range rest (timestamp_split + 1) (blen rest)) in
    let! timezone := sig_utf8 sign tz (str "timezone") in
    if negb (tz_ok timezone) then Err (sig_malformed sign (str "timezone is not [+-]HHMM"))
    else Ok (mkSignature signature_type name email timestamp timezone).

End signature.

Definition Signature_to_data (s : Signature) : Res GitError bytes :=
  Ok ((((((((((SignatureType.to_bytes (signature_type s) ++ [0x20]) ++ sig_name s) ++ [0x20])
    ++ (str "<" ++ email s ++ str ">")) ++ [0x20]) ++ show_dec (timestamp s)) ++ [0x20]) ++ timezone s))).

(** [local_minus_utc] and [now] are the values chrono returns. *)
Definition Signature_new (local_minus_utc now : Z) (sign_type : SignatureType.t) (author email : bytes)
  : Signature :=
  mkSignature sign_type author email (as_u64 now) (format_timezone local_minus_utc).

(** * Well-formed signatures *)

(** What a signature line can hold: a name without angle brackets, an e-mail
    without [>], a timestamp of a [usize], a canonical time zone, all UTF-8. *)
Record sig_wf (s : Signature) : Prop := {
  sw_name_utf8 : utf8_valid (sig_name s) = true;
  sw_name : Forall (fun b => b <> 0x3C /\ b <> 0x3E) (sig_name s);
  sw_email_utf8 : utf8_valid (email s) = true;
  sw_email : Forall (fun b => b <> 0x3E) (email s);
  sw_timestamp : 0 <= timestamp s <= usize_max;
  sw_timezone : tz_ok (timezone s) = true
}.

Lemma role_plain ty :
  Forall (fun b => b <> 0x20) (SignatureType.to_bytes ty)
  /\ Forall (fun b => b <> 0x3C) (SignatureType.to_bytes ty)
  /\ Forall (fun b => b <> 0x3E) (SignatureType.to_bytes ty)
  /\ Forall (fun b => b <> 0x0A) (SignatureType.to_bytes ty)
  /\ utf8_valid (SignatureType.to_bytes ty) = true
  /\ SignatureType.from_str (SignatureType.to_bytes ty) = Ok ty.
Proof. destruct ty; repeat split; try reflexivity; decide_closed. Qed.

Lemma is_digit_bounds b : is_digit b = true -> 48 <= b <= 57.
Proof. unfold is_digit. lia. Qed.

Lemma show_dec_plain n : 0 <= n -> Forall (fun b => 48 <= b <= 57) (show_dec n).
Proof. intros Hn. eapply Forall_impl; [|by apply show_dec_digits]. apply is_digit_bounds. Qed.

Lemma tz_ok_plain tz : tz_ok tz = true -> blen tz = 5 /\ Forall (fun b => 43 <= b <= 57) tz.
Proof.
  unfold tz_ok. destruct tz as [|c ds]; [by rewrite andb_false_r|]. intros Hok.
  apply andb_true_iff in Hok as [Hl Hok]. apply andb_true_iff in Hok as [Hc Hds]. split; [lia|].
  apply Forall_cons_2; [lia|]. apply Forall_forall. intros b Hb.
  rewrite forallb_forall in Hds. apply Hds, is_digit_bounds in Hb. lia.
Qed.

Lemma plain_ascii lo hi s : 0 <= lo -> hi < 128 -> Forall (fun b => lo <= b <= hi) s -> utf8_valid s = true.
Proof. intros Hlo Hhi Hs. apply utf8_ascii. eapply Forall_impl; [|exact Hs]. cbn. lia. Qed.

Lemma strip_space_snoc s : strip_space (s ++ [32]) = Some s.
Proof. unfold strip_space. by rewrite (proj2 (split_last_Some (s ++ [32]) s 32)). Qed.

Section signature_proofs.
Context `{TextEnv} `{ByteSearchLaws}.

Lemma find_byte_parts c s l r :
  s = l ++ c :: r -> Forall (fun b => b <> c) l -> find_byte c s = Some (blen l).
Proof. intros ->. apply find_byte_hit. Qed.

Lemma sig_utf8_ok sign b what : utf8_valid b = true -> sig_utf8 sign b what = Ok b.
Proof. unfold sig_utf8. by intros ->. Qed.

(** The line the signature is written as, one separator at a time. *)
Lemma Signature_to_data_eq s :
  Signature_to_data s = Ok (SignatureType.to_bytes (signature_type s) ++ 32 :: (sig_name s ++ [32])
    ++ 60 :: email s ++ 62 :: 32 :: show_dec (timestamp s) ++ 32 :: timezone s).
Proof. unfold Signature_to_data. change (str "<") with [60]. change (str ">") with [62]. f_equal. list_eq. Qed.

Lemma Signature_parses s sign :
  sig_wf s -> Signature_to_data s = Ok sign -> Signature_from_data sign = Ok s.
Proof.
  intros [Hn8 Hn Hm8 Hm Ht Hz] Hd. rewrite Signature_to_data_eq in Hd.
  destruct (role_plain (signature_type s)) as (Hr20 & Hr3c & Hr3e & _ & Hr8 & Hrole).
  pose proof (show_dec_plain _ (proj1 Ht)) as Hts. destruct (tz_ok_plain _ Hz) as [_ Hzp].
  assert (HN : Forall (fun b => b <> 60) (sig_name s ++ [32]) /\ Forall (fun b => b <> 62) (sig_name s ++ [32])).
  { split; apply Forall_app; (split; [eapply Forall_impl; [|exact Hn]; cbn; tauto|apply Forall_cons_2; [lia|constructor]]). }
  set (R := SignatureType.to_bytes (signature_type s)) in *. set (N := sig_name s ++ [32]) in *.
  set (M := email s) in *. set (T := show_dec (timestamp s)) in *. set (Z_ := timezone s) in *.
  injection Hd as <-. set (sign := R ++ 32 :: N ++ 60 :: M ++ 62 :: 32 :: T ++ 32 :: Z_).
  unfold Signature_from_data.
  rewrite (find_byte_parts 32 sign R (N ++ 60 :: M ++ 62 :: 32 :: T ++ 32 :: Z_)) by (list_eq || done).
  cbn [ok_or rbind].
  rewrite (get_range_parts sign [] R (32 :: N ++ 60 :: M ++ 62 :: 32 :: T ++ 32 :: Z_)) by (list_eq || reflexivity).
  cbn [or_panic rbind]. rewrite sig_utf8_ok by done. cbn [rbind]. rewrite Hrole. cbn [rbind].
  rewrite (find_byte_parts 60 sign (R ++ 32 :: N) (M ++ 62 :: 32 :: T ++ 32 :: Z_)).
  2: unfold sign; list_eq.
  2: apply Forall_app; split; [done|apply Forall_cons_2; [lia|apply HN]].
  rewrite (find_byte_parts 62 sign (R ++ 32 :: N ++ 60 :: M) (32 :: T ++ 32 :: Z_)).
  2: unfold sign; list_eq.
  2: apply Forall_app; split; [done|]; apply Forall_cons_2; [lia|]; apply Forall_app; split; [apply HN|];
     apply Forall_cons_2; [lia|done].
  pose proof (blen_nonneg R). pose proof (blen_nonneg N). pose proof (blen_nonneg M).
  cbn [after]. replace (blen R <? blen (R ++ 32 :: N)) with true by blens. cbn [ok_or rbind].
  replace (blen (R ++ 32 :: N) <? blen (R ++ 32 :: N ++ 60 :: M)) with true by blens. cbn [ok_or rbind].
  rewrite (get_range_parts sign (R ++ [32]) N (60 :: M ++ 62 :: 32 :: T ++ 32 :: Z_)).
  2: unfold sign; list_eq.
  2, 3: blens.
  cbn [or_panic rbind]. unfold N at 1. rewrite strip_space_snoc. cbn [rbind].
  rewrite sig_utf8_ok by done. cbn [rbind].
  rewrite (get_range_parts sign (R ++ 32 :: N ++ [60]) M (62 :: 32 :: T ++ 32 :: Z_)).
  2: unfold sign; list_eq.
  2, 3: blens.
  cbn [or_panic rbind]. rewrite sig_utf8_ok by done. cbn [rbind].
  rewrite (get_parts sign (R ++ 32 :: N ++ 60 :: M ++ [62]) (T ++ 32 :: Z_) 32).
  2: unfold sign; list_eq.
  2: blens.
  rewrite bool_decide_true by done. cbn [negb].
  rewrite (get_range_parts sign (R ++ 32 :: N ++ 60 :: M ++ [62; 32]) (T ++ 32 :: Z_) []).
  2: unfold sign; rewrite app_nil_r; list_eq.
  2: blens.
  2: unfold sign; blens.
  cbn [or_panic rbind].
  rewrite (find_byte_parts 32 (T ++ 32 :: Z_) T Z_) by (done || (eapply Forall_impl; [|exact Hts]; cbn; lia)).
  cbn [ok_or rbind].
  rewrite (get_range_parts (T ++ 32 :: Z_) [] T (32 :: Z_)) by reflexivity.
  cbn [or_panic rbind]. rewrite sig_utf8_ok by (apply (plain_ascii 48 57); lia || done). cbn [rbind].
  unfold T at 1. rewrite parse_dec_show by done. cbn [ok_or rbind].
  rewrite (get_range_parts (T ++ 32 :: Z_) (T ++ [32]) Z_ []).
  2: rewrite app_nil_r; list_eq.
  2, 3: blens.
  cbn [or_panic rbind]. rewrite sig_utf8_ok by (apply (plain_ascii 43 57); lia || done). cbn [rbind].
  rewrite Hz. cbn [negb]. by destruct s.
Qed.

Lemma sig_utf8_cases sign b what :
  (utf8_valid b = true /\ sig_utf8 sign b what = Ok b)
  \/ sig_utf8 sign b what = Err (sig_malformed sign what).
Proof. unfold sig_utf8. destruct (utf8_valid b); auto. Qed.

(** Whatever the line is, the parser returns; what it accepts is well formed. *)
Lemma Signature_from_data_sound sign :
  match Signature_from_data sign with
  | Ok s => sig_wf s
  | Err _ => True
  | Panic | OutOfFuel => False
  end.
Proof.
  unfold Signature_from_data.
  destruct (find_byte 32 sign) as [ns|] eqn:Ens; [|exact I]. apply find_byte_Some in Ens as [Hns _].
  cbn [ok_or rbind]. rewrite get_range_ok by lia. cbn [or_panic rbind].
  destruct (sig_utf8_cases sign (slice sign 0 ns) (str "role")) as [[_ ->]| ->]; cbn [rbind]; [|exact I].
  destruct (SignatureType.from_str _) as [ty| | |] eqn:Ety; cbn [rbind];
    [|exact I|unfold SignatureType.from_str in Ety; repeat case_bool_decide; discriminate..].
  destruct (find_byte 60 sign) as [es|] eqn:Ees; [|exact I]. apply find_byte_Some in Ees as [Hes Hlt].
  cbn [after]. destruct (ns <? es) eqn:E1; [|exact I]. cbn [ok_or rbind].
  destruct (find_byte 62 sign) as [ee|] eqn:Eee; [|exact I]. apply find_byte_Some in Eee as [Hee Hgt].
  cbn [after]. destruct (es <? ee) eqn:E2; [|exact I]. cbn [ok_or rbind].
  rewrite get_range_ok by lia. cbn [or_panic rbind]. set (nb := slice sign (ns + 1) es).
  assert (Hnb : Forall (fun b => b <> 60 /\ b <> 62) nb).
  { apply Forall_and; unfold nb; [apply (slice_without _ _ _ _ es)|apply (slice_without _ _ _ _ ee)]; auto; lia. }
  assert (Hstrip : match strip_space nb with
     | Some x => Forall (fun b => b <> 60 /\ b <> 62) x | None => True end).
  { destruct (strip_space nb) as [x|] eqn:Es; [|exact I]. unfold strip_space in Es.
    destruct (split_last nb) as [[f c]|] eqn:El; [|discriminate]. apply split_last_Some in El.
    rewrite El in Hnb. apply Forall_app in Hnb as [Hnb _]. repeat (case_match; try discriminate). by injection Es as <-. }
  set (nm := match strip_space nb with Some stripped => Ok stripped | None => _ end).
  assert (Hnm : match nm with Ok x => Forall (fun b => b <> 60 /\ b <> 62) x | Err _ => True | _ => False end).
  { unfold nm. destruct (strip_space nb); [done|]. by destruct nb. }
  destruct nm as [x| | |]; cbn [rbind]; try done. clear Hstrip Hnb.
  destruct (sig_utf8_cases sign x (str "name")) as [[Hx8 ->]| ->]; cbn [rbind]; [|exact I].
  rewrite get_range_ok by lia. cbn [or_panic rbind]. set (em := slice sign (es + 1) ee).
  assert (Hem : Forall (fun b => b <> 62) em) by (apply (slice_without _ _ _ _ ee); auto; lia).
  destruct (sig_utf8_cases sign em (str "email")) as [[He8 ->]| ->]; cbn [rbind]; [|exact I].
  case_bool_decide as Hsp; cbn [negb]; [|exact I]. apply get_Some_lt in Hsp.
  rewrite get_range_ok by lia. cbn [or_panic rbind]. set (rest := slice sign (ee + 2) (blen sign)).
  destruct (find_byte 32 rest) as [ts|] eqn:Ets; [|exact I]. apply find_byte_Some in Ets as [Hts _].
  cbn [ok_or rbind]. rewrite get_range_ok by lia. cbn [or_panic rbind].
  destruct (sig_utf8_cases sign (slice rest 0 ts) (str "timestamp")) as [[_ ->]| ->]; cbn [rbind]; [|exact I].
  destruct (parse_dec usize_max _) as [t|] eqn:Et; [|exact I]. cbn [ok_or rbind].
  rewrite get_range_ok by lia. cbn [or_panic rbind]. set (tz := slice rest (ts + 1) (blen rest)).
  destruct (sig_utf8_cases sign tz (str "timezone")) as [[_ ->]| ->]; cbn [rbind]; [|exact I].
  destruct (tz_ok tz) eqn:Etz; cbn [negb]; [|exact I].
  split; cbn; auto. by apply parse_dec_bound in Et; [|unfold usize_max; lia].
Qed.

End signature_proofs.

(** a signature whose fields fit the line format survives serialization. *)
Theorem signature_roundtrip `{TextEnv} `{ByteSearchLaws} (s : Signature) :
  sig_wf s -> exists sign, Signature_to_data s = Ok sign /\ Signature_from_data sign = Ok s.
Proof.
  intros Hs. eexists. split; [reflexivity|]. by apply Signature_parses.
Qed.

Definition sample_signature (ty : SignatureType.t) : Signature :=
  mkSignature ty (str "Ada L.") (str "ada@example.org") 1700000000 (str "-0230").

Lemma sample_signature_wf ty : sig_wf (sample_signature ty).
Proof. split; cbn; try reflexivity; decide_closed. Qed.

Lemma signature_roundtrip_witness :
  exists sign, Signature_to_data (sample_signature SignatureType.Author) = Ok sign
    /\ @Signature_from_data plain_texts linear_search sign = Ok (sample_signature SignatureType.Author).
Proof.
  apply (@signature_roundtrip plain_texts linear_search linear_search_laws), sample_signature_wf.
Defined.

(** the signature parser returns on every line, and what it accepts is well
    formed, so that it survives being written and parsed again. *)
Theorem signature_parser_total `{TextEnv} `{ByteSearchLaws} (sign : bytes) :
  match Signature_from_data sign with
  | Ok s => sig_wf s /\ exists sign', Signature_to_data s = Ok sign' /\ Signature_from_data sign' = Ok s
  | Err _ => True
  | Panic | OutOfFuel => False
  end.
Proof.
  pose proof (Signature_from_data_sound sign) as Hs.
  destruct (Signature_from_data sign) as [s| | |]; try done. split; [done|].
  eexists. split; [reflexivity|]. by apply Signature_parses.
Qed.

Lemma signature_parser_total_witness :
  match @Signature_from_data plain_texts linear_search (str "author <x@y> 007 +0000") with
  | Ok s => sig_wf s /\ exists sign', Signature_to_data s = Ok sign'
              /\ @Signature_from_data plain_texts linear_search sign' = Ok s
  | Err _ => True
  | Panic | OutOfFuel => False
  end.
Proof. apply (@signature_parser_total plain_texts linear_search linear_search_laws). Defined.

(** Two digits for every number below one hundred. *)
Lemma show_02_two n : 0 <= n < 100 -> exists a b, show_02 n = [a; b] /\ is_digit a = true /\ is_digit b = true.
Proof.
  intros Hn.
  assert (Hall : Forall (fun m => match show_02 m with [a; b] => is_digit a = true /\ is_digit b = true | _ => False end)
                   (seqZ 0 100)).
  { repeat constructor. }
  rewrite Forall_forall in Hall. specialize (Hall n).
  destruct (show_02 n) as [|a [|b [|]]]; try (exfalso; apply Hall, list_elem_of_In, elem_of_seqZ; lia).
  exists a, b. split; [done|]. apply Hall, list_elem_of_In, elem_of_seqZ. lia.
Qed.

Lemma format_timezone_ok offset : Z.abs offset < 360000 -> tz_ok (format_timezone offset) = true.
Proof.
  intros Ho. unfold format_timezone.
  assert (Hm : 0 <= Z.abs offset / 60 < 6000).
  { split; [apply Z.div_pos|apply Z.div_lt_upper_bound]; lia. }
  set (m := Z.abs offset / 60) in *.
  destruct (show_02_two (m / 60)) as (a & b & -> & Ha & Hb).
  { split; [apply Z.div_pos|apply Z.div_lt_upper_bound]; lia. }
  destruct (show_02_two (m mod 60)) as (c & d & -> & Hc & Hd).
  { pose proof (Z.mod_pos_bound m 60). lia. }
  unfold tz_ok. destruct (offset <? 0); cbn; by rewrite Ha, Hb, Hc, Hd.
Qed.

(** [Signature::new] makes signatures that parse back, for every offset from
    UTC below one hundred hours: the time zone it formats is always [[+-]HHMM]. *)
Theorem signature_new_parses `{TextEnv} `{ByteSearchLaws} (local_minus_utc now : Z)
  (ty : SignatureType.t) (author mail : bytes) :
  Z.abs local_minus_utc < 360000 ->
  utf8_valid author = true -> Forall (fun b => b <> 0x3C /\ b <> 0x3E) author ->
  utf8_valid mail = true -> Forall (fun b => b <> 0x3E) mail ->
  exists sign, Signature_to_data (Signature_new local_minus_utc now ty author mail) = Ok sign
    /\ Signature_from_data sign = Ok (Signature_new local_minus_utc now ty author mail).
Proof.
  intros Ho Ha8 Ha Hm8 Hm. eexists. split; [reflexivity|]. apply Signature_parses; [|reflexivity].
  split; cbn; auto; [|by apply format_timezone_ok].
  unfold as_u64, usize_max. pose proof (Z.mod_pos_bound now (2 ^ 64)). lia.
Qed.

Lemma signature_new_parses_witness :
  exists sign, Signature_to_data (Signature_new (-9000) 1700000000 SignatureType.Tagger (str "Ada") (str "a@b")) = Ok sign
    /\ @Signature_from_data plain_texts linear_search sign
       = Ok (Signature_new (-9000) 1700000000 SignatureType.Tagger (str "Ada") (str "a@b")).
Proof.
  apply (@signature_new_parses plain_texts linear_search linear_search_laws); [lia|reflexivity|decide_closed|reflexivity|decide_closed].
Defined.
