(* ===== verification/Commit.v ===== *)
(** Commit objects, [src/internal/object/commit.rs].  The message of a parsed commit
    is whatever bytes follow the committer line ([from_utf8_unchecked]); the clock of
    [from_tree_id] is an argument. *)

From Stdlib Require Import ZArith Lia String.
From stdpp Require Import base tactics list numbers option.
From S2P Require Import Prelude Stream Text Errors ObjectTypes PackUtils Hash Signature.

Record Commit : Type := mkCommit {
  commit_id : ObjectHash.t;
  commit_tree_id : ObjectHash.t;
  parent_commit_ids : list ObjectHash.t;
  author : Signature;
  committer : Signature;
  commit_message : bytes
}.

(** [PartialEq for Commit]. *)
Definition Commit_eq (c other : Commit) : bool := bool_decide (commit_id c = commit_id other).

Section commit.
Context `{TextEnv} `{ByteSearch} `{HexCrate}.

Fixpoint parents_data (parents : list ObjectHash.t) (data : bytes) : bytes :=
  match parents with
  | [] => data
  | p :: parents => parents_data parents (((data ++ str "parent ") ++ ObjectHash.fmt p) ++ [0x0a])
  end.

Definition Commit_to_data (c : Commit) : Res GitError bytes :=
  let data := (str "tree " ++ ObjectHash.fmt (commit_tree_id c)) ++ [0x0a] in
  let data := parents_data (parent_commit_ids c) data in
  let! a := Signature_to_data (author c) in
  let data := (data ++ a) ++ [0x0a] in
  let! b := Signature_to_data (committer c) in
  let data := (data ++ b) ++ [0x0a] in
  Ok (data ++ commit_message c).

Definition Commit_get_size (c : Commit) : Z :=
  match Commit_to_data c with Ok data => blen data | _ => 0 end.

Definition parse_commit_reference (kind : HashKind.t) (field raw : bytes) : Res GitError ObjectHash.t :=
  if negb (utf8_valid raw)
  then Err (InvalidHashValue (str "commit " ++ field ++ str " id is not UTF-8: expected "
         ++ show_dec (HashKind.hex_len kind) ++ str " " ++ HashKind.as_str kind
         ++ str " hex chars, got " ++ show_dec (blen raw) ++ str " bytes"))
  else map_err (fun e => InvalidHashValue (str "commit " ++ field ++ str " id: " ++ hash_error_text e))
         (ObjectHash.from_hex_for_kind kind raw).

(** The [loop] over the [parent] lines; each round consumes a line. *)
Fixpoint parents_loop (fuel : nat) (kind : HashKind.t) (commit : bytes) (acc : list ObjectHash.t)
  : Res GitError (list ObjectHash.t * bytes) :=
  match fuel with
  | O => OutOfFuel
  | S fuel =>
      let! '(line, rest) := ok_or (cut 0x0a commit) InvalidCommitObject in
      match strip_prefix (str "parent ") line with
      | Some parent_hex =>
          let! p := parse_commit_reference kind (str "parent") parent_hex in
          parents_loop fuel kind rest (acc ++ [p])
      | None =>
          if starts_with (str "author ") line then Ok (acc, commit) else Err InvalidCommitObject
      end
  end.

Definition Commit_from_bytes (data : bytes) (hash : ObjectHash.t) : Res GitError Commit :=
  let kind := ObjectHash.kind hash in
  let! '(tree_line, commit) := ok_or (cut 0x0a data) InvalidCommitObject in
  let! tree_hex := ok_or (strip_prefix (str "tree ") tree_line) InvalidCommitObject in
  let! tree_id := parse_commit_reference kind (str "tree") tree_hex in
  let! '(parents, commit) := parents_loop (S (length commit)) kind commit [] in
  let! '(author_line, commit) := ok_or (cut 0x0a commit) InvalidCommitObject in
  let! author := Signature_from_data author_line in
  let! '(committer_line, message) := ok_or (cut 0x0a commit) InvalidCommitObject in
  if negb (starts_with (str "committer ") commit) then Err InvalidCommitObject
  else
    let! committer := Signature_from_data committer_line in
    Ok (mkCommit hash tree_id parents author committer message).

Fixpoint ensure_kinds (hs : list ObjectHash.t) (kind : HashKind.t) : Res GitError unit :=
  match hs with
  | [] => Ok tt
  | h :: hs =>
      let! _ := map_err GitError_from (ObjectHash.ensure_kind h kind) in
      ensure_kinds hs kind
  end.

Context `{Hasher}.

Definition with_id (c : Commit) (h : ObjectHash.t) : Commit :=
  mkCommit h (commit_tree_id c) (parent_commit_ids c) (author c) (committer c) (commit_message c).

Definition Commit_new_with_kind (kind : HashKind.t) (author committer : Signature)
  (tree_id : ObjectHash.t) (parents : list ObjectHash.t) (message : bytes) : Res GitError Commit :=
  let! _ := map_err GitError_from (ObjectHash.ensure_kind tree_id kind) in
  let! _ := ensure_kinds parents kind in
  let commit := mkCommit (ObjectHash.zero_for_kind kind) tree_id parents author committer message in
  let! data := Commit_to_data commit in
  let! h := map_err GitError_from (from_type_and_data_for_kind kind ObjectType.Commit data) in
  Ok (with_id commit h).

Definition Commit_new (current : HashKind.t) (author committer : Signature)
  (tree_id : ObjectHash.t) (parents : list ObjectHash.t) (message : bytes) : Res GitError Commit :=
  let commit := mkCommit ObjectHash.default tree_id parents author committer message in
  let! data := unwrap (Commit_to_data commit) in
  let! h := unwrap (from_type_and_data current ObjectType.Commit data) in
  Ok (with_id commit h).

(** [format!("author mega <admin@mega.org> {now} +0800")]. *)
Definition mega_line (role : bytes) (now : Z) : bytes :=
  role ++ str " mega <admin@mega.org> " ++ show_dec now ++ str " +0800".

Definition from_tree_id_with_kind (now : Z) (kind : HashKind.t) (tree_id : ObjectHash.t)
  (parents : list ObjectHash.t) (message : bytes) : Res GitError Commit :=
  let! author := Signature_from_data (mega_line (str "author") now) in
  let! committer := Signature_from_data (mega_line (str "committer") now) in
  Commit_new_with_kind kind author committer tree_id parents message.

Definition from_tree_id (now now' : Z) (current : HashKind.t) (tree_id : ObjectHash.t)
  (parents : list ObjectHash.t) (message : bytes) : Res GitError Commit :=
  let! author := unwrap (Signature_from_data (mega_line (str "author") now)) in
  let! committer := unwrap (Signature_from_data (mega_line (str "committer") now')) in
  Commit_new current author committer tree_id parents message.

End commit.

Fixpoint first_meaningful (ls : list bytes) : option bytes :=
  match ls with
  | [] => None
  | l :: ls => if trim_is_empty l then first_meaningful ls else Some l
  end.

Fixpoint position_pgp (ls : list bytes) (i : Z) : option Z :=
  match ls with
  | [] => None
  | l :: ls => if contains (str "-----END PGP SIGNATURE-----") l then Some i else position_pgp ls (i + 1)
  end.

Definition format_message (c : Commit) : bytes :=
  let ls := str_lines (commit_message c) in
  match position_pgp ls 0 with
  | Some pos => default (commit_message c) (first_meaningful (drop (Z.to_nat (pos + 1)) ls))
  | None => default (commit_message c) (first_meaningful ls)
  end.

(** * Well-formed commits *)

(** A signature that also stays on its line. *)
Definition line_sig (s : Signature) : Prop :=
  sig_wf s /\ Forall (fun b => b <> 0x0a) (sig_name s) /\ Forall (fun b => b <> 0x0a) (email s).

Record commit_wf (c : Commit) : Prop := {
  cw_tree : ObjectHash.kind (commit_tree_id c) = ObjectHash.kind (commit_id c) /\ hash_wf (commit_tree_id c);
  cw_parents : Forall (fun p => ObjectHash.kind p = ObjectHash.kind (commit_id c) /\ hash_wf p) (parent_commit_ids c);
  cw_author : line_sig (author c) /\ signature_type (author c) = SignatureType.Author;
  cw_committer : line_sig (committer c) /\ signature_type (committer c) = SignatureType.Committer
}.

Lemma sig_line_no_newline s l :
  line_sig s -> Signature_to_data s = Ok l -> Forall (fun b => b <> 0x0a) l.
Proof.
  intros ([_ _ _ _ Ht Hz] & Hn & Hm) Hl. rewrite Signature_to_data_eq in Hl. injection Hl as <-.
  destruct (role_plain (signature_type s)) as (_ & _ & _ & Hr & _).
  pose proof (show_dec_plain _ (proj1 Ht)) as Hts. destruct (tz_ok_plain _ Hz) as [_ Hzp].
  repeat first [apply Forall_app; split | apply Forall_cons_2; [lia|]]; auto; try constructor.
  - eapply Forall_impl; [|exact Hts]; cbn; lia.
  - eapply Forall_impl; [|exact Hzp]; cbn; lia.
Qed.

(** A signature line starts with its role. *)
Lemma sig_line_role s l :
  Signature_to_data s = Ok l -> exists r, l = SignatureType.to_bytes (signature_type s) ++ str " " ++ r.
Proof. rewrite Signature_to_data_eq. intros [= <-]. by eexists. Qed.

Section commit_proofs.
Context `{TextEnv} `{ByteSearchLaws} `{HexLaws}.

Lemma fmt_plain h :
  hash_wf h -> utf8_valid (ObjectHash.fmt h) = true /\ Forall (fun b => b <> 0x0a) (ObjectHash.fmt h).
Proof.
  intros [_ Hb]. pose proof (hex_encode_lower _ Hb) as Hl. split.
  - apply utf8_ascii. eapply Forall_impl; [|exact Hl]. unfold is_hex_lower. cbn. lia.
  - eapply Forall_impl; [|exact Hl]. unfold is_hex_lower. cbn. lia.
Qed.

Lemma parse_commit_reference_fmt field h :
  hash_wf h -> parse_commit_reference (ObjectHash.kind h) field (ObjectHash.fmt h) = Ok h.
Proof.
  intros Hwf. unfold parse_commit_reference. rewrite (proj1 (fmt_plain h Hwf)). cbn [negb].
  by rewrite from_hex_for_kind_fmt.
Qed.

Lemma parse_commit_reference_sound kind field raw :
  match parse_commit_reference kind field raw with
  | Ok h => ObjectHash.kind h = kind /\ hash_wf h
  | Err _ => True
  | Panic | OutOfFuel => False
  end.
Proof.
  unfold parse_commit_reference. destruct (negb _); [exact I|].
  pose proof (from_hex_for_kind_returns kind raw) as Hret.
  destruct (ObjectHash.from_hex_for_kind kind raw) as [h|e| |] eqn:E; cbn [map_err]; try done.
  by apply from_hex_for_kind_Ok in E as (? & ? & _).
Qed.

(** The parent lines of a body. *)
Definition parents_bytes (ps : list ObjectHash.t) : bytes :=
  concat (map (fun p => str "parent " ++ ObjectHash.fmt p ++ [0x0a]) ps).

Lemma parents_data_eq ps data : parents_data ps data = data ++ parents_bytes ps.
Proof.
  revert data. induction ps as [|p ps IH]; intros data; [cbn; by rewrite app_nil_r|].
  cbn [parents_data]. rewrite IH. unfold parents_bytes. cbn [map concat]. by rewrite <- !app_assoc.
Qed.

Lemma cut_line l r : Forall (fun b => b <> 0x0a) l -> cut 0x0a (l ++ 0x0a :: r) = Some (l, r).
Proof. intros Hl. rewrite cut_split_at. by apply split_at_app. Qed.

Lemma parents_loop_ok fuel kind ps acc rest line tail :
  Forall (fun p => ObjectHash.kind p = kind /\ hash_wf p) ps ->
  tail = (str "author " ++ line) ++ 0x0a :: rest -> Forall (fun b => b <> 0x0a) line ->
  (length (parents_bytes ps) < fuel)%nat ->
  parents_loop fuel kind (parents_bytes ps ++ tail) acc = Ok (acc ++ ps, tail).
Proof.
  intros Hps Ht Hline. revert fuel acc. induction Hps as [|p ps [Hk Hwf] _ IH]; intros fuel acc Hf;
    (destruct fuel as [|fuel]; [lia|]); cbn [parents_loop].
  - change (parents_bytes []) with (@nil Z). cbn [app]. rewrite Ht, cut_line.
    2:{ apply Forall_app. split; [decide_closed|done]. }
    cbn [ok_or rbind]. rewrite strip_prefix_other by (done || (vm_compute; discriminate)).
    by rewrite starts_with_app, app_nil_r.
  - unfold parents_bytes in *. cbn [map concat] in *.
    replace (((str "parent " ++ ObjectHash.fmt p ++ [0x0a])
      ++ concat (map (fun p => str "parent " ++ ObjectHash.fmt p ++ [0x0a]) ps)) ++ tail)
      with ((str "parent " ++ ObjectHash.fmt p) ++ 0x0a ::
            (concat (map (fun p => str "parent " ++ ObjectHash.fmt p ++ [0x0a]) ps) ++ tail))
      by (repeat rewrite <- app_assoc; reflexivity).
    rewrite cut_line.
    2:{ apply Forall_app. split; [decide_closed|by apply fmt_plain]. }
    cbn [ok_or rbind]. rewrite strip_prefix_app, <- Hk, parse_commit_reference_fmt by done. cbn [rbind].
    rewrite Hk, IH; [by rewrite <- app_assoc|]. rewrite !length_app in Hf. cbn [length] in Hf. lia.
Qed.

Lemma Commit_parses c data :
  commit_wf c -> Commit_to_data c = Ok data -> Commit_from_bytes data (commit_id c) = Ok c.
Proof.
  intros [[Htk Htw] Hps [Ha Hat] [Hc Hct]] Hd. unfold Commit_to_data in Hd.
  destruct (Signature_to_data (author c)) as [a| | |] eqn:Ea; try discriminate. cbn [rbind] in Hd.
  destruct (Signature_to_data (committer c)) as [b| | |] eqn:Eb; try discriminate. cbn [rbind] in Hd.
  rewrite parents_data_eq in Hd. injection Hd as <-.
  pose proof (sig_line_no_newline _ _ Ha Ea) as Hanl. pose proof (sig_line_no_newline _ _ Hc Eb) as Hbnl.
  pose proof (Signature_parses _ _ (proj1 Ha) Ea) as Hap. pose proof (Signature_parses _ _ (proj1 Hc) Eb) as Hbp.
  destruct (sig_line_role _ _ Ea) as [ra Hra]. rewrite Hat in Hra.
  destruct (sig_line_role _ _ Eb) as [rb Hrb]. rewrite Hct in Hrb.
  set (tail := a ++ 0x0a :: b ++ 0x0a :: commit_message c).
  match goal with |- Commit_from_bytes ?d _ = _ =>
    replace d with ((str "tree " ++ ObjectHash.fmt (commit_tree_id c)) ++ 0x0a ::
                    (parents_bytes (parent_commit_ids c) ++ tail)) by (unfold tail; list_eq)
  end.
  unfold Commit_from_bytes. rewrite cut_line.
  2:{ apply Forall_app. split; [decide_closed|by apply fmt_plain]. }
  cbn [ok_or rbind]. rewrite strip_prefix_app. cbn [ok_or rbind].
  rewrite <- Htk, parse_commit_reference_fmt, Htk by done. cbn [rbind].
  rewrite (parents_loop_ok _ _ _ [] (b ++ 0x0a :: commit_message c) ra tail); auto.
  - cbn [app rbind]. unfold tail at 1. rewrite cut_line by done. cbn [ok_or rbind]. rewrite Hap. cbn [rbind].
    rewrite cut_line by done. cbn [ok_or rbind].
    replace (starts_with (str "committer ") (b ++ 10 :: commit_message c)) with true.
    2:{ rewrite Hrb. change (SignatureType.to_bytes SignatureType.Committer ++ str " " ++ rb)
          with (str "committer " ++ rb). by rewrite <- app_assoc, starts_with_app. }
    cbn [negb]. rewrite Hbp. cbn [rbind]. by destruct c.
  - unfold tail. by rewrite Hra.
  - rewrite Hra in Hanl. apply Forall_app in Hanl as [_ Hanl]. by apply Forall_app in Hanl as [_ Hanl].
  - rewrite length_app. lia.
Qed.

End commit_proofs.

(** C38: a well-formed commit survives serialization: its body parses back to the
    same tree, parents, signatures and message, in order. *)
Theorem commit_roundtrip `{TextEnv} `{ByteSearchLaws} `{HexLaws} (c : Commit) :
  commit_wf c ->
  exists data, Commit_to_data c = Ok data /\ Commit_from_bytes data (commit_id c) = Ok c
    /\ Commit_get_size c = blen data.
Proof.
  intros Hc. unfold Commit_get_size. destruct (Commit_to_data c) as [data| | |] eqn:E; try discriminate E.
  exists data. split; [done|]. split; [by apply Commit_parses|done].
Qed.

Definition sample_commit : Commit :=
  mkCommit (ObjectHash.Sha1 (repeat 1 20)) (ObjectHash.Sha1 (repeat 2 20))
    [ObjectHash.Sha1 (repeat 3 20); ObjectHash.Sha1 (repeat 4 20)]
    (sample_signature SignatureType.Author) (sample_signature SignatureType.Committer)
    ([10] ++ str "parent of all" ++ [10]).

Lemma sample_line_sig ty : line_sig (sample_signature ty).
Proof. split; [apply sample_signature_wf|]. split; decide_closed. Qed.

Lemma sha1_repeat_wf b : is_byte b -> hash_wf (ObjectHash.Sha1 (repeat b 20)).
Proof.
  intros Hb. split; [reflexivity|]. apply Forall_forall. intros x Hx. apply repeat_spec in Hx. by subst.
Qed.

Lemma sample_commit_wf : commit_wf sample_commit.
Proof.
  split; cbn.
  - split; [done|]. apply sha1_repeat_wf. unfold is_byte. lia.
  - repeat apply Forall_cons_2; [split; [done|apply sha1_repeat_wf; unfold is_byte; lia]..|constructor].
  - split; [apply sample_line_sig|done].
  - split; [apply sample_line_sig|done].
Qed.

Lemma commit_roundtrip_witness :
  exists data, @Commit_to_data hex_reference sample_commit = Ok data
    /\ @Commit_from_bytes plain_texts linear_search hex_reference data (commit_id sample_commit) = Ok sample_commit
    /\ @Commit_get_size hex_reference sample_commit = blen data.
Proof.
  apply (@commit_roundtrip plain_texts linear_search linear_search_laws hex_reference hex_reference_laws),
    sample_commit_wf.
Defined.

Section commit_sound.
Context `{TextEnv} `{ByteSearchLaws} `{HexLaws}.

Lemma cut_shorter c s l r : cut c s = Some (l, r) -> (length r < length s)%nat.
Proof. rewrite cut_split_at. intros E. apply split_at_Some in E as [-> _]. rewrite length_app. cbn. lia. Qed.

Lemma parents_loop_sound fuel kind commit acc :
  Forall (fun p => ObjectHash.kind p = kind /\ hash_wf p) acc -> (length commit < fuel)%nat ->
  match parents_loop fuel kind commit acc with
  | Ok (ps, _) => Forall (fun p => ObjectHash.kind p = kind /\ hash_wf p) ps
  | Err _ => True
  | Panic | OutOfFuel => False
  end.
Proof.
  revert commit acc. induction fuel as [|fuel IH]; intros commit acc Hacc Hf; [lia|].
  cbn [parents_loop]. destruct (cut 0x0a commit) as [[line rest]|] eqn:Ec; [|exact I]. cbn [ok_or rbind].
  destruct (strip_prefix _ line) as [hex|].
  - pose proof (parse_commit_reference_sound kind (str "parent") hex) as Hr.
    destruct (parse_commit_reference _ _ _) as [h| | |]; cbn [rbind]; try done.
    apply IH; [apply Forall_app; split; [done|by apply Forall_cons_2]|]. apply cut_shorter in Ec. lia.
  - by destruct (starts_with _ line).
Qed.

Lemma Commit_from_bytes_sound data h :
  match Commit_from_bytes data h with
  | Ok c => commit_id c = h
      /\ ObjectHash.kind (commit_tree_id c) = ObjectHash.kind h /\ hash_wf (commit_tree_id c)
      /\ Forall (fun p => ObjectHash.kind p = ObjectHash.kind h /\ hash_wf p) (parent_commit_ids c)
      /\ sig_wf (author c) /\ sig_wf (committer c)
  | Err _ => True
  | Panic | OutOfFuel => False
  end.
Proof.
  unfold Commit_from_bytes. destruct (cut 0x0a data) as [[tl commit]|]; [|exact I]. cbn [ok_or rbind].
  destruct (strip_prefix _ tl) as [hex|]; [|exact I]. cbn [ok_or rbind].
  pose proof (parse_commit_reference_sound (ObjectHash.kind h) (str "tree") hex) as Htree.
  destruct (parse_commit_reference _ _ _) as [t| | |]; cbn [rbind]; try done.
  pose proof (parents_loop_sound (S (length commit)) (ObjectHash.kind h) commit [] (Forall_nil _) ltac:(lia)) as Hps.
  destruct (parents_loop _ _ _ _) as [[ps commit']| | |]; cbn [rbind]; try done.
  destruct (cut 0x0a commit') as [[al commit2]|]; [|exact I]. cbn [ok_or rbind].
  pose proof (Signature_from_data_sound al) as Ha. destruct (Signature_from_data al) as [a| | |]; cbn [rbind]; try done.
  destruct (cut 0x0a commit2) as [[cl msg]|]; [|exact I]. cbn [ok_or rbind].
  destruct (negb _); [exact I|].
  pose proof (Signature_from_data_sound cl) as Hc. destruct (Signature_from_data cl) as [c| | |]; cbn [rbind]; try done.
  cbn. tauto.
Qed.

Lemma ensure_kinds_spec hs kind :
  (Forall (fun h => ObjectHash.kind h = kind) hs /\ ensure_kinds hs kind = Ok tt)
  \/ (~ Forall (fun h => ObjectHash.kind h = kind) hs /\ exists e, ensure_kinds hs kind = Err e).
Proof.
  induction hs as [|h hs IH]; cbn [ensure_kinds]; [left; split; [constructor|done]|].
  unfold ObjectHash.ensure_kind. case_bool_decide as Hk; cbn [map_err rbind].
  - destruct IH as [[Hall ->]|[Hn He]]; [left; split; [by apply Forall_cons_2|done]|].
    right. split; [|done]. intros Hall. apply Hn. by apply Forall_cons_1 in Hall as [_ ?].
  - right. split; [|by eexists]. intros Hall. by apply Forall_cons_1 in Hall as [? _].
Qed.

End commit_sound.

(** the commit parser returns on every body, and what it accepts refers only
    to identifiers of the commit's own kind and holds well-formed signatures. *)
Theorem commit_parser_sound `{TextEnv} `{ByteSearchLaws} `{HexLaws} (data : bytes) (h : ObjectHash.t) :
  match Commit_from_bytes data h with
  | Ok c => commit_id c = h
      /\ Forall (fun p => ObjectHash.kind p = ObjectHash.kind h /\ hash_wf p)
           (commit_tree_id c :: parent_commit_ids c)
      /\ sig_wf (author c) /\ sig_wf (committer c)
  | Err _ => True
  | Panic | OutOfFuel => False
  end.
Proof.
  pose proof (Commit_from_bytes_sound data h) as Hs.
  destruct (Commit_from_bytes data h) as [c| | |]; try done.
  destruct Hs as (Hid & Hk & Hw & Hps & Ha & Hc). split; [done|]. split; [by apply Forall_cons_2|done].
Qed.

Lemma commit_parser_sound_witness :
  let h := ObjectHash.Sha1 (repeat 1 20) in
  match @Commit_from_bytes plain_texts linear_search hex_reference (str "tree abc") h with
  | Ok c => commit_id c = h
      /\ Forall (fun p => ObjectHash.kind p = ObjectHash.kind h /\ hash_wf p)
           (commit_tree_id c :: parent_commit_ids c)
      /\ sig_wf (author c) /\ sig_wf (committer c)
  | Err _ => True
  | Panic | OutOfFuel => False
  end.
Proof.
  apply (@commit_parser_sound plain_texts linear_search linear_search_laws hex_reference hex_reference_laws).
Defined.

(** the message of a parsed commit is not checked to be UTF-8: some body is
    accepted with a message that no Rust [String] may hold. *)
Theorem commit_message_unchecked :
  exists data h c, @Commit_from_bytes plain_texts linear_search hex_reference data h = Ok c
    /\ utf8_valid (commit_message c) = false.
Proof.
  pose (c := mkCommit (ObjectHash.Sha1 (repeat 1 20)) (ObjectHash.Sha1 (repeat 2 20)) []
    (sample_signature SignatureType.Author) (sample_signature SignatureType.Committer) [255]).
  assert (Hwf : commit_wf c).
  { pose proof sample_commit_wf as []. by split. }
  destruct (@Commit_to_data hex_reference c) as [data| | |] eqn:E; try discriminate E.
  exists data, (commit_id c), c. split; [|reflexivity].
  apply (@Commit_parses plain_texts linear_search linear_search_laws hex_reference hex_reference_laws c data Hwf E).
Qed.

(** [Commit::new_with_kind] succeeds exactly when the tree and all parents
    have the repository's kind; the commit carries the identifier of its own body,
    and loading that body gives the commit back. *)
Theorem commit_new_correct `{TextEnv} `{ByteSearchLaws} `{HexLaws} `{HasherLaws} (kind : HashKind.t)
  (a b : Signature) (tree_id : ObjectHash.t) (parents : list ObjectHash.t) (message : bytes) :
  if bool_decide (Forall (fun h => ObjectHash.kind h = kind) (tree_id :: parents))
  then exists c data, Commit_new_with_kind kind a b tree_id parents message = Ok c
       /\ Commit_to_data c = Ok data
       /\ from_type_and_data_for_kind kind ObjectType.Commit data = Ok (commit_id c)
       /\ (commit_wf c -> Commit_from_bytes data (commit_id c) = Ok c)
  else exists e, Commit_new_with_kind kind a b tree_id parents message = Err e.
Proof.
  unfold Commit_new_with_kind, ObjectHash.ensure_kind.
  destruct (decide (ObjectHash.kind tree_id = kind)) as [Ht|Ht].
  2:{ rewrite !bool_decide_false; [by eexists|done|]. intros Hall. by apply Forall_cons_1 in Hall as [? _]. }
  rewrite (bool_decide_true (ObjectHash.kind tree_id = kind)) by done. cbn [map_err rbind].
  destruct (ensure_kinds_spec parents kind) as [[Hall ->]|[Hn [e ->]]]; cbn [rbind].
  2:{ rewrite bool_decide_false; [by eexists|]. intros Hall. by apply Forall_cons_1 in Hall as [_ ?]. }
  rewrite bool_decide_true by (by apply Forall_cons_2).
  set (c0 := mkCommit _ _ _ _ _ _).
  destruct (Commit_to_data c0) as [data| | |] eqn:E; try discriminate E. cbn [rbind].
  rewrite (from_type_and_data_for_kind_eq kind ObjectType.Commit _ (str "commit")) by reflexivity.
  cbn [map_err rbind]. eexists _, data. split; [reflexivity|]. split; [exact E|]. 
  split; [by apply from_type_and_data_for_kind_eq|].
  intros Hwf. by apply Commit_parses.
Qed.

Lemma commit_new_correct_witness :
  let sha b := ObjectHash.Sha1 (repeat b 20) in
  exists c data,
    @Commit_new_with_kind plain_texts hex_reference toy_hasher HashKind.Sha1
      (sample_signature SignatureType.Author) (sample_signature SignatureType.Committer) (sha 2) [sha 3] (str "x") = Ok c
    /\ @Commit_to_data hex_reference c = Ok data
    /\ @from_type_and_data_for_kind toy_hasher HashKind.Sha1 ObjectType.Commit data = Ok (commit_id c)
    /\ (commit_wf c -> @Commit_from_bytes plain_texts linear_search hex_reference data (commit_id c) = Ok c).
Proof.
  apply (@commit_new_correct plain_texts linear_search linear_search_laws hex_reference hex_reference_laws
    toy_hasher toy_hasher_laws HashKind.Sha1 (sample_signature SignatureType.Author)
    (sample_signature SignatureType.Committer) (ObjectHash.Sha1 (repeat 2 20)) [ObjectHash.Sha1 (repeat 3 20)] (str "x")).
Defined.
