(* ===== verification/Tag.v ===== *)
(** Annotated tags, [src/internal/object/tag.rs]. *)

From Stdlib Require Import ZArith Lia String.
From stdpp Require Import base tactics list numbers option.
From S2P Require Import Prelude Stream Text Errors ObjectTypes PackUtils Hash Signature Commit.

Record Tag : Type := mkTag {
  tag_id : ObjectHash.t;
  object_hash : ObjectHash.t;
  tag_object_type : ObjectType.t;
  tag_name : bytes;
  tagger : Signature;
  tag_message : bytes
}.

(** [PartialEq for Tag]. *)
Definition Tag_eq (t other : Tag) : bool := bool_decide (tag_id t = tag_id other).

(** The four headers found so far. *)
Record TagHeaders : Type := mkHeaders {
  h_object : option ObjectHash.t;
  h_type : option ObjectType.t;
  h_name : option bytes;
  h_tagger : option Signature
}.

Section tag.
Context `{TextEnv} `{ByteSearch} `{HexCrate} `{BstrCrate}.

Definition Tag_to_data (t : Tag) : Res GitError bytes :=
  let data := (str "object " ++ ObjectHash.fmt (object_hash t)) ++ [10] in
  let data := ((data ++ str "type ") ++ ObjectType.fmt (tag_object_type t)) ++ [10] in
  let data := ((data ++ str "tag ") ++ tag_name t) ++ [10] in
  let! s := Signature_to_data (tagger t) in
  let data := (data ++ s) ++ [10; 10] in
  Ok (data ++ tag_message t).

Definition Tag_get_size (t : Tag) : Z := match Tag_to_data t with Ok data => blen data | _ => 0 end.

(** The body of [for line in headers.lines()]. *)
Definition header_line (kind : HashKind.t) (h : TagHeaders) (line : bytes) : Res GitError TagHeaders :=
  match strip_prefix (str "object ") line with
  | Some s =>
      if negb (utf8_valid s)
      then Err (InvalidTagObject (str "Invalid UTF-8 in object hash (from_bytes: expected "
             ++ show_dec (HashKind.hex_len kind) ++ str " " ++ HashKind.as_str kind
             ++ str " hex chars, got " ++ show_dec (blen s) ++ str " bytes)"))
      else
        let! o := map_err (fun e => InvalidTagObject (str "Invalid object hash format: " ++ hash_error_text e))
                    (ObjectHash.from_hex_for_kind kind s) in
        Ok (mkHeaders (Some o) (h_type h) (h_name h) (h_tagger h))
  | None =>
  match strip_prefix (str "type ") line with
  | Some s =>
      if negb (utf8_valid s) then Err (InvalidTagObject (str "Invalid UTF-8 in object type"))
      else
        let! ty := ObjectType.from_string s in
        Ok (mkHeaders (h_object h) (Some ty) (h_name h) (h_tagger h))
  | None =>
  match strip_prefix (str "tag ") line with
  | Some s =>
      if negb (utf8_valid s) then Err (InvalidTagObject (str "Invalid UTF-8 in tag name"))
      else Ok (mkHeaders (h_object h) (h_type h) (Some s) (h_tagger h))
  | None =>
      if starts_with (str "tagger ") line then
        let! sg := Signature_from_data line in
        Ok (mkHeaders (h_object h) (h_type h) (h_name h) (Some sg))
      else Ok h
  end end end.

Fixpoint header_lines (kind : HashKind.t) (h : TagHeaders) (ls : list bytes) : Res GitError TagHeaders :=
  match ls with
  | [] => Ok h
  | l :: ls => let! h := header_line kind h l in header_lines kind h ls
  end.

Definition Tag_from_bytes (row_data : bytes) (hash : ObjectHash.t) : Res GitError Tag :=
  let! '(headers, message_start) :=
    match bstr_find [10; 10] row_data with
    | Some pos => let! headers := or_panic (get_range row_data 0 pos) in Ok (headers, pos + 2)
    | None => Ok (row_data, 0)
    end in
  let! h := header_lines (ObjectHash.kind hash) (mkHeaders None None None None) (bstr_lines headers) in
  let! message :=
    if 0 <? message_start then
      let! m := or_panic (get_range row_data message_start (blen row_data)) in Ok (from_utf8_lossy m)
    else Ok [] in
  let! o := ok_or (h_object h) (InvalidTagObject (str "Missing object hash")) in
  let! ty := ok_or (h_type h) (InvalidTagObject (str "Missing object type")) in
  let! n := ok_or (h_name h) (InvalidTagObject (str "Missing tag name")) in
  let! sg := ok_or (h_tagger h) (InvalidTagObject (str "Missing tagger")) in
  Ok (mkTag hash o ty n sg message).

Context `{Hasher}.

Definition tag_with_id (t : Tag) (h : ObjectHash.t) : Tag :=
  mkTag h (object_hash t) (tag_object_type t) (tag_name t) (tagger t) (tag_message t).

Definition Tag_new_with_kind (kind : HashKind.t) (object_hash : ObjectHash.t) (object_type : ObjectType.t)
  (tag_name : bytes) (tagger : Signature) (message : bytes) : Res GitError Tag :=
  let! _ := map_err GitError_from (ObjectHash.ensure_kind object_hash kind) in
  let tag := mkTag (ObjectHash.zero_for_kind kind) object_hash object_type tag_name tagger message in
  let! data := Tag_to_data tag in
  let! h := map_err GitError_from (from_type_and_data_for_kind kind ObjectType.Tag data) in
  Ok (tag_with_id tag h).

Definition Tag_new (current : HashKind.t) (object_hash : ObjectHash.t) (object_type : ObjectType.t)
  (tag_name : bytes) (tagger : Signature) (message : bytes) : Res GitError Tag :=
  let tag := mkTag ObjectHash.default object_hash object_type tag_name tagger message in
  let! data := unwrap (Tag_to_data tag) in
  let! h := unwrap (from_type_and_data current ObjectType.Tag data) in
  Ok (tag_with_id tag h).

End tag.

(** * Well-formed tags *)

Record tag_wf (t : Tag) : Prop := {
  tw_object : ObjectHash.kind (object_hash t) = ObjectHash.kind (tag_id t) /\ hash_wf (object_hash t);
  tw_type : is_Some (ObjectType.to_bytes (tag_object_type t));
  tw_name : utf8_valid (tag_name t) = true /\ Forall (fun b => b <> 10) (tag_name t) /\ (forall f, tag_name t <> f ++ [13]);
  tw_tagger : line_sig (tagger t) /\ signature_type (tagger t) = SignatureType.Tagger;
  tw_message : utf8_valid (tag_message t) = true
}.

(** [String::from_utf8_lossy] changes nothing in valid UTF-8. *)
Class LossyLaw `{TextEnv} : Prop :=
  lossy_valid : forall s, utf8_valid s = true -> from_utf8_lossy s = s.

Lemma plain_texts_lossy : @LossyLaw plain_texts.
Proof. done. Qed.

Lemma type_label ty :
  is_Some (ObjectType.to_bytes ty) ->
  ObjectType.from_string (ObjectType.fmt ty) = Ok ty /\ utf8_valid (ObjectType.fmt ty) = true
  /\ Forall (fun b => b <> 10 /\ b <> 13) (ObjectType.fmt ty).
Proof.
  intros [l Hl]. destruct ty; try discriminate Hl;
    (split; [vm_compute; reflexivity|split; [vm_compute; reflexivity|decide_closed]]).
Qed.

(** Lines separated by single line feeds. *)
Fixpoint join_lines (l : bytes) (ls : list bytes) : bytes :=
  match ls with
  | [] => l
  | l' :: ls => l ++ 10 :: join_lines l' ls
  end.

Definition plain_line (l : bytes) : Prop := l <> [] /\ Forall (fun b => b <> 10) l /\ forall f, l <> f ++ [13].

Lemma find_blank_after l ls m :
  plain_line l -> Forall plain_line ls ->
  find_first [10; 10] (join_lines l ls ++ 10 :: 10 :: m) = Some (blen (join_lines l ls)).
Proof.
  intros Hl Hls. revert l Hl. induction Hls as [|l' ls Hl' _ IH]; intros l (_ & Hl & _); cbn [join_lines].
  - rewrite find_blank_line by done. cbn [find_first].
    change (10 :: 10 :: m) with ([10; 10] ++ m). rewrite starts_with_app. cbn. f_equal. lia.
  - rewrite <- app_assoc. rewrite find_blank_line by done. cbn [app].
    specialize (IH l' Hl'). destruct Hl' as (Hne & Hl' & _). destruct l' as [|x l']; [done|].
    assert (Hx : exists t, join_lines (x :: l') ls ++ 10 :: 10 :: m = x :: t) by (destruct ls; by eexists).
    destruct Hx as [t Ht]. rewrite Ht in *. apply Forall_cons_1 in Hl' as [Hx _].
    rewrite find_blank_next, IH by done. cbn. rewrite !blen_app, blen_cons. f_equal.
Qed.

Lemma lines_join l ls : plain_line l -> Forall plain_line ls -> str_lines (join_lines l ls) = l :: ls.
Proof.
  intros Hl Hls. unfold str_lines. revert l Hl. induction Hls as [|l' ls Hl' _ IH]; intros l (Hne & Hl & Hcr); cbn [join_lines].
  - by rewrite lines_loop_last.
  - rewrite lines_loop_line by done. cbn [app]. rewrite chomp_cr_plain, IH by done. done.
Qed.

(** Refutes a prefix that differs within the first [n] bytes. *)
Ltac differs n p := rewrite (strip_prefix_differs n p) by (vm_compute; (lia || discriminate)).

Section tag_proofs.
Context `{TextEnv} `{!LossyLaw} `{ByteSearchLaws} `{HexLaws} `{BstrLaws}.

(** The four header lines of a tag. *)
Definition object_line (t : Tag) : bytes := str "object " ++ ObjectHash.fmt (object_hash t).
Definition type_line (t : Tag) : bytes := str "type " ++ ObjectType.fmt (tag_object_type t).
Definition name_line (t : Tag) : bytes := str "tag " ++ tag_name t.

Lemma prefix_plain p s :
  p <> [] -> Forall (fun b => b <> 10) p -> (forall f, p <> f ++ [13]) ->
  Forall (fun b => b <> 10) s -> (forall f, s <> f ++ [13]) -> plain_line (p ++ s).
Proof.
  intros Hne Hp Hpc Hs Hsc. split; [intros E; apply app_eq_nil in E as [? _]; done|]. split; [by apply Forall_app|].
  intros f E. destruct (split_last s) as [[s' c]|] eqn:El.
  - apply split_last_Some in El. subst s. rewrite app_assoc in E. apply app_inj_tail in E as [_ ->]. by apply (Hsc s').
  - apply split_last_None in El. subst s. rewrite app_nil_r in E. by apply (Hpc f).
Qed.

Lemma fmt_no_cr h : hash_wf h -> forall f, ObjectHash.fmt h <> f ++ [13].
Proof.
  intros [_ Hb]. apply all_not_ends. eapply Forall_impl; [|by apply hex_encode_lower].
  unfold is_hex_lower. cbn. lia.
Qed.

Lemma sig_line_plain s l : line_sig s -> Signature_to_data s = Ok l -> plain_line l.
Proof.
  intros Hs Hl. pose proof (sig_line_no_newline _ _ Hs Hl) as Hnl.
  rewrite Signature_to_data_eq in Hl. injection Hl as <-. split.
  { intros E. by apply app_eq_nil in E as [_ E]. }
  split; [done|]. destruct Hs as ([_ _ _ _ _ Hz] & _). destruct (tz_ok_plain _ Hz) as [Hl Hp].
  destruct (split_last (timezone s)) as [[tz c]|] eqn:El.
  2:{ apply split_last_None in El. rewrite El in Hl. discriminate. }
  apply split_last_Some in El. rewrite El in Hp |- *. apply Forall_app in Hp as [_ Hp]. apply Forall_cons_1 in Hp as [Hc _].
  intros f E. match type of E with ?a = _ =>
    replace a with ((SignatureType.to_bytes (signature_type s) ++ 32 :: (sig_name s ++ [32]) ++ 60 :: email s
      ++ 62 :: 32 :: show_dec (timestamp s) ++ 32 :: tz) ++ [c]) in E by list_eq end.
  apply app_inj_tail in E as [_ E]. subst c. lia.
Qed.

Lemma header_lines_ok t d :
  tag_wf t -> Signature_to_data (tagger t) = Ok d ->
  header_lines (ObjectHash.kind (tag_id t)) (mkHeaders None None None None)
    [object_line t; type_line t; name_line t; d]
  = Ok (mkHeaders (Some (object_hash t)) (Some (tag_object_type t)) (Some (tag_name t)) (Some (tagger t))).
Proof.
  intros [[Hok How] Hty (Hn8 & _ & _) [[Hsg Hnl] Htg] _] Hd.
  destruct (type_label _ Hty) as (Hfrom & Ht8 & _).
  destruct (sig_line_role _ _ Hd) as [r Hr]. rewrite Htg in Hr.
  cbn [header_lines]. unfold header_line at 1, object_line. rewrite strip_prefix_app.
  rewrite (proj1 (fmt_plain _ How)). cbn [negb]. rewrite <- Hok, from_hex_for_kind_fmt by done. cbn [map_err rbind].
  unfold header_line at 1, type_line. differs 1%nat (str "object "). rewrite strip_prefix_app, Ht8.
  cbn [negb]. rewrite Hfrom. cbn [rbind].
  unfold header_line at 1, name_line. differs 1%nat (str "object "). differs 2%nat (str "type ").
  rewrite strip_prefix_app, Hn8. cbn [negb rbind].
  unfold header_line at 1. rewrite Hr. differs 1%nat (str "object "). differs 2%nat (str "type ").
  differs 4%nat (str "tag ").
  change (SignatureType.to_bytes SignatureType.Tagger ++ str " " ++ r) with (str "tagger " ++ r).
  rewrite starts_with_app. change (str "tagger " ++ r) with (SignatureType.to_bytes SignatureType.Tagger ++ str " " ++ r).
  rewrite <- Hr, (Signature_parses _ _ Hsg Hd). done.
Qed.

Lemma tag_lines_plain t d :
  tag_wf t -> Signature_to_data (tagger t) = Ok d ->
  plain_line (object_line t) /\ Forall plain_line [type_line t; name_line t; d].
Proof.
  intros [[Hok How] Hty (Hn8 & Hn & Hncr) [Hsg Htg] _] Hd.
  destruct (type_label _ Hty) as (_ & _ & Hty10).
  split; [|repeat apply Forall_cons_2; try apply Forall_nil_2; [| |by apply (sig_line_plain (tagger t))]];
    apply prefix_plain; try discriminate; try decide_closed; auto;
    try (apply (not_ends_with _ (take 6 (str "object ")) 32); [reflexivity|done]).
  - by apply fmt_plain.
  - by apply fmt_no_cr.
  - apply (not_ends_with _ (take 4 (str "type ")) 32); [reflexivity|done].
  - eapply Forall_impl; [|exact Hty10]. cbn. tauto.
  - apply all_not_ends. eapply Forall_impl; [|exact Hty10]. cbn. tauto.
  - apply (not_ends_with _ (take 3 (str "tag ")) 32); [reflexivity|done].
Qed.

Lemma Tag_parses t data :
  tag_wf t -> Tag_to_data t = Ok data -> Tag_from_bytes data (tag_id t) = Ok t.
Proof.
  intros Hwf Hd. unfold Tag_to_data in Hd.
  destruct (Signature_to_data (tagger t)) as [d| | |] eqn:Ed; try discriminate. cbn [rbind] in Hd.
  injection Hd as <-. destruct (tag_lines_plain t d Hwf Ed) as [Hl Hls].
  set (Hd_ := join_lines (object_line t) [type_line t; name_line t; d]).
  match goal with |- Tag_from_bytes ?x _ = _ =>
    replace x with (Hd_ ++ 10 :: 10 :: tag_message t)
      by (unfold Hd_, join_lines, object_line, type_line, name_line; list_eq) end.
  unfold Tag_from_bytes. rewrite bstr_find_spec. unfold Hd_ at 1. rewrite find_blank_after by done. fold Hd_.
  rewrite (get_range_parts _ [] Hd_ (10 :: 10 :: tag_message t)) by reflexivity. cbn [or_panic rbind].
  rewrite bstr_lines_spec. unfold Hd_ at 1. rewrite lines_join by done.
  rewrite (header_lines_ok t d Hwf Ed). cbn [rbind]. pose proof (blen_nonneg Hd_).
  replace (0 <? blen Hd_ + 2) with true by lia.
  rewrite (get_range_parts (Hd_ ++ 10 :: 10 :: tag_message t) (Hd_ ++ [10; 10]) (tag_message t) []).
  2: rewrite app_nil_r; list_eq.
  2, 3: blens.
  cbn [or_panic rbind h_object h_type h_name h_tagger ok_or].
  rewrite lossy_valid by apply Hwf. by destruct t.
Qed.

Lemma header_line_sound kind h line :
  match h_object h with Some o => ObjectHash.kind o = kind /\ hash_wf o | None => True end ->
  match h_tagger h with Some s => sig_wf s | None => True end ->
  match header_line kind h line with
  | Ok h' => match h_object h' with Some o => ObjectHash.kind o = kind /\ hash_wf o | None => True end
             /\ match h_tagger h' with Some s => sig_wf s | None => True end
  | Err _ => True
  | Panic | OutOfFuel => False
  end.
Proof.
  intros Ho Hs. unfold header_line.
  destruct (strip_prefix (str "object ") line) as [s|].
  { destruct (negb _); [exact I|]. pose proof (from_hex_for_kind_returns kind s) as Hret.
    destruct (ObjectHash.from_hex_for_kind kind s) as [o| | |] eqn:E; cbn [map_err rbind]; try done.
    apply from_hex_for_kind_Ok in E as (? & ? & _). done. }
  destruct (strip_prefix (str "type ") line) as [s|].
  { destruct (negb _); [exact I|]. unfold ObjectType.from_string. destruct (ObjectType.match_str _ _); cbn; [split; assumption|exact I]. }
  destruct (strip_prefix (str "tag ") line) as [s|]; [destruct (negb _); cbn; [exact I|split; assumption]|].
  destruct (starts_with _ line); [|split; assumption]. pose proof (Signature_from_data_sound line) as Hsig.
  by destruct (Signature_from_data line).
Qed.

Lemma header_lines_sound kind h ls :
  match h_object h with Some o => ObjectHash.kind o = kind /\ hash_wf o | None => True end ->
  match h_tagger h with Some s => sig_wf s | None => True end ->
  match header_lines kind h ls with
  | Ok h' => match h_object h' with Some o => ObjectHash.kind o = kind /\ hash_wf o | None => True end
             /\ match h_tagger h' with Some s => sig_wf s | None => True end
  | Err _ => True
  | Panic | OutOfFuel => False
  end.
Proof.
  revert h. induction ls as [|l ls IH]; intros h Ho Hs; cbn [header_lines]; [done|].
  pose proof (header_line_sound kind h l Ho Hs) as Hl.
  destruct (header_line kind h l) as [h'| | |]; cbn [rbind]; try done.
  destruct Hl as [Ho' Hs']. by apply IH.
Qed.

Lemma find_first_bound p s i : find_first p s = Some i -> 0 <= i /\ i + blen p <= blen s.
Proof.
  revert i. induction s as [|b s IH]; intros i Hi; cbn [find_first] in Hi;
    (destruct (starts_with p _) eqn:E; [injection Hi as <-|]).
  1, 3: unfold starts_with in E; apply bool_decide_eq_true in E; split; [lia|];
     apply (f_equal length) in E; rewrite length_take in E; unfold blen; lia.
  - discriminate.
  - destruct (find_first p s) as [j|]; [|discriminate]. injection Hi as <-.
    destruct (IH j eq_refl). rewrite blen_cons. lia.
Qed.

End tag_proofs.

(** an annotated tag survives serialization: headers and message. *)
Theorem tag_roundtrip `{TextEnv} `{!LossyLaw} `{ByteSearchLaws} `{HexLaws} `{BstrLaws} (t : Tag) :
  tag_wf t ->
  exists data, Tag_to_data t = Ok data /\ Tag_from_bytes data (tag_id t) = Ok t
    /\ Tag_get_size t = blen data.
Proof.
  intros Ht. unfold Tag_get_size. destruct (Tag_to_data t) as [data| | |] eqn:E; try discriminate E.
  exists data. split; [done|]. split; [by apply Tag_parses|done].
Qed.

Definition sample_tag : Tag :=
  mkTag (ObjectHash.Sha1 (repeat 1 20)) (ObjectHash.Sha1 (repeat 2 20)) ObjectType.Commit (str "v1.0")
    (sample_signature SignatureType.Tagger) ([10] ++ str "object of desire" ++ [10; 10]).

Lemma sample_tag_wf : tag_wf sample_tag.
Proof.
  split; cbn -[str].
  - split; [done|]. apply sha1_repeat_wf. unfold is_byte. lia.
  - by eexists.
  - split; [reflexivity|]. split; [decide_closed|]. apply (not_ends_with _ (str "v1.") 48); [reflexivity|done].
  - split; [apply sample_line_sig|done].
  - reflexivity.
Qed.

Lemma tag_roundtrip_witness :
  exists data, @Tag_to_data hex_reference sample_tag = Ok data
    /\ @Tag_from_bytes plain_texts linear_search hex_reference bstr_reference data (tag_id sample_tag) = Ok sample_tag
    /\ @Tag_get_size hex_reference sample_tag = blen data.
Proof.
  apply (@tag_roundtrip plain_texts plain_texts_lossy linear_search linear_search_laws hex_reference
    hex_reference_laws bstr_reference bstr_reference_laws), sample_tag_wf.
Defined.

(** the tag parser returns on every input, and a tag it accepts points to an
    identifier of its own kind and has a well-formed tagger. *)
Theorem tag_parser_sound `{TextEnv} `{ByteSearchLaws} `{HexLaws} `{BstrLaws} (data : bytes) (h : ObjectHash.t) :
  match Tag_from_bytes data h with
  | Ok t => tag_id t = h /\ ObjectHash.kind (object_hash t) = ObjectHash.kind h
            /\ hash_wf (object_hash t) /\ sig_wf (tagger t)
  | Err _ => True
  | Panic | OutOfFuel => False
  end.
Proof.
  unfold Tag_from_bytes. rewrite bstr_find_spec.
  assert (Hcont : forall headers start, 0 <= start <= blen data ->
    match
      (let! hs := header_lines (ObjectHash.kind h) (mkHeaders None None None None) (bstr_lines headers) in
       let! message := if 0 <? start then
           let! m := or_panic (get_range data start (blen data)) in Ok (from_utf8_lossy m) else Ok [] in
       let! o := ok_or (h_object hs) (InvalidTagObject (str "Missing object hash")) in
       let! ty := ok_or (h_type hs) (InvalidTagObject (str "Missing object type")) in
       let! n := ok_or (h_name hs) (InvalidTagObject (str "Missing tag name")) in
       let! sg := ok_or (h_tagger hs) (InvalidTagObject (str "Missing tagger")) in
       Ok (mkTag h o ty n sg message))
    with
    | Ok t => tag_id t = h /\ ObjectHash.kind (object_hash t) = ObjectHash.kind h
              /\ hash_wf (object_hash t) /\ sig_wf (tagger t)
    | Err _ => True
    | Panic | OutOfFuel => False
    end).
  { intros headers start Hst.
    pose proof (header_lines_sound (ObjectHash.kind h) (mkHeaders None None None None) (bstr_lines headers) I I) as Hh.
    destruct (header_lines _ _ _) as [hs| | |]; cbn [rbind]; try done. destruct hs as [o ty n sg].
    cbn [h_object h_type h_name h_tagger] in *. rewrite get_range_ok by lia. cbn [or_panic rbind].
    destruct (0 <? start), o, ty, n, sg; cbn [ok_or rbind]; try exact I; cbn; tauto. }
  pose proof (blen_nonneg data).
  destruct (find_first [10; 10] data) as [pos|] eqn:E; cbn [rbind]; [|apply Hcont; lia].
  apply find_first_bound in E. change (blen [10; 10]) with 2 in E.
  rewrite get_range_ok by lia. cbn [or_panic rbind]. apply Hcont. lia.
Qed.

Lemma tag_parser_sound_witness :
  let h := ObjectHash.Sha1 (repeat 1 20) in
  match @Tag_from_bytes plain_texts linear_search hex_reference bstr_reference (str "object x") h with
  | Ok t => tag_id t = h /\ ObjectHash.kind (object_hash t) = ObjectHash.kind h
            /\ hash_wf (object_hash t) /\ sig_wf (tagger t)
  | Err _ => True
  | Panic | OutOfFuel => False
  end.
Proof.
  apply (@tag_parser_sound plain_texts linear_search linear_search_laws hex_reference hex_reference_laws
    bstr_reference bstr_reference_laws).
Defined.
