(* ===== verification/Objects.v ===== *)
(** The object interface, [trait ObjectTrait] of [src/internal/object/mod.rs], with
    blobs ([blob.rs]) and notes ([note.rs]), and the loading of objects through the
    inflating reader.

    [ObjectTrait] is a class with the source's required methods; [ObjectLaws] states
    what every kind of object promises to the loader, and the theorem about loading
    is proved against it. *)

From Stdlib Require Import ZArith Lia String.
From stdpp Require Import base tactics list numbers option.
From S2P Require Import Prelude Stream Text Errors ObjectTypes PackUtils Hash Inflate Signature Tree Commit Tag.

Class ObjectTrait (A : Type) := {
  obj_from_bytes : bytes -> ObjectHash.t -> Res GitError A;
  obj_get_type : A -> ObjectType.t;
  obj_get_size : A -> Z;
  obj_to_data : A -> Res GitError bytes
}.

(** What an object kind promises: its values that satisfy [obj_wf] have a body, of the
    size they report, that parses back to the value under its identifier. *)
Class ObjectLaws (A : Type) `{ObjectTrait A} (obj_id : A -> ObjectHash.t) (obj_wf : A -> Prop) : Prop := {
  obj_roundtrip : forall a, obj_wf a ->
    exists data, obj_to_data a = Ok data /\ obj_from_bytes data (obj_id a) = Ok a /\ obj_get_size a = blen data;
  obj_named : forall a, is_Some (ObjectType.to_bytes (obj_get_type a))
}.

(** * Blobs *)

Record Blob : Type := mkBlob { blob_id : ObjectHash.t; blob_data : bytes }.

Definition Blob_eq (b other : Blob) : bool := bool_decide (blob_id b = blob_id other).

#[export] Instance Blob_object : ObjectTrait Blob := {|
  obj_from_bytes := fun data hash => Ok (mkBlob hash data);
  obj_get_type := fun _ => ObjectType.Blob;
  obj_get_size := fun b => blen (blob_data b);
  obj_to_data := fun b => Ok (blob_data b)
|}.

Section blob.
Context `{TextEnv} `{Hasher}.

Definition Blob_from_content_bytes_with_kind (kind : HashKind.t) (content : bytes) : Res GitError Blob :=
  let! id := map_err GitError_from (from_type_and_data_for_kind kind ObjectType.Blob content) in
  Ok (mkBlob id content).

Definition Blob_from_content_with_kind (kind : HashKind.t) (content : bytes) : Res GitError Blob :=
  Blob_from_content_bytes_with_kind kind content.

Definition Blob_from_content_bytes (current : HashKind.t) (content : bytes) : Res Empty_set Blob :=
  let! id := from_type_and_data current ObjectType.Blob content in
  Ok (mkBlob id content).

Definition Blob_from_content (current : HashKind.t) (content : bytes) : Res Empty_set Blob :=
  Blob_from_content_bytes current content.

End blob.

(** * Notes *)

Record Note : Type := mkNote { note_id : ObjectHash.t; target_object_id : ObjectHash.t; content : bytes }.

Definition Note_eq (n other : Note) : bool := bool_decide (note_id n = note_id other).

Definition content_size (n : Note) : Z := blen (content n).
Definition is_empty (n : Note) : bool := bool_decide (content n = []).
Definition set_target (n : Note) (new_target : ObjectHash.t) : Note := mkNote (note_id n) new_target (content n).

Section note.
Context `{TextEnv}.

Definition Note_from_bytes_with_target (data : bytes) (hash target : ObjectHash.t) : Res GitError Note :=
  if utf8_valid data then Ok (mkNote hash target data)
  else Err (InvalidNoteObject (str "Invalid UTF-8 content: " ++ utf8_error_text data)).

Definition Note_from_bytes (data : bytes) (hash : ObjectHash.t) : Res GitError Note :=
  if utf8_valid data then Ok (mkNote hash (ObjectHash.zero_for_kind (ObjectHash.kind hash)) data)
  else Err (InvalidNoteObject (str "Invalid UTF-8 content: " ++ utf8_error_text data)).

Definition Note_to_data (n : Note) : Res GitError bytes := Ok (content n).

Definition to_data_with_target (n : Note) : Res GitError (bytes * ObjectHash.t) :=
  let! data := Note_to_data n in
  Ok (data, target_object_id n).

Context `{Hasher}.

Definition Note_new_with_kind (kind : HashKind.t) (target : ObjectHash.t) (text : bytes) : Res GitError Note :=
  let! _ := map_err GitError_from (ObjectHash.ensure_kind target kind) in
  let! id := map_err GitError_from (from_type_and_data_for_kind kind ObjectType.Blob text) in
  Ok (mkNote id target text).

Definition Note_from_content_with_kind (kind : HashKind.t) (text : bytes) : Res GitError Note :=
  Note_new_with_kind kind (ObjectHash.zero_for_kind kind) text.

Definition Note_new (current : HashKind.t) (target : ObjectHash.t) (text : bytes) : Res Empty_set Note :=
  let! id := from_type_and_data current ObjectType.Blob text in
  Ok (mkNote id target text).

Definition Note_from_content (current : HashKind.t) (text : bytes) : Res Empty_set Note :=
  Note_new current ObjectHash.default text.

End note.

(** * Instances *)

#[export] Instance Note_object `{TextEnv} : ObjectTrait Note := {|
  obj_from_bytes := Note_from_bytes;
  obj_get_type := fun _ => ObjectType.Blob;
  obj_get_size := content_size;
  obj_to_data := Note_to_data
|}.

#[export] Instance Tree_object `{TextEnv} `{ByteSearch} : ObjectTrait Tree := {|
  obj_from_bytes := Tree_from_bytes;
  obj_get_type := fun _ => ObjectType.Tree;
  obj_get_size := Tree_get_size;
  obj_to_data := Tree_to_data
|}.

#[export] Instance Commit_object `{TextEnv} `{ByteSearch} `{HexCrate} : ObjectTrait Commit := {|
  obj_from_bytes := Commit_from_bytes;
  obj_get_type := fun _ => ObjectType.Commit;
  obj_get_size := Commit_get_size;
  obj_to_data := Commit_to_data
|}.

#[export] Instance Tag_object `{TextEnv} `{ByteSearch} `{HexCrate} `{BstrCrate} : ObjectTrait Tag := {|
  obj_from_bytes := Tag_from_bytes;
  obj_get_type := fun _ => ObjectType.Tag;
  obj_get_size := Tag_get_size;
  obj_to_data := Tag_to_data
|}.

Lemma Blob_laws : ObjectLaws Blob blob_id (fun _ => True).
Proof. split; [|by eexists]. intros [h d] _. by eexists. Qed.

Lemma Note_laws `{TextEnv} :
  ObjectLaws Note note_id (fun n => utf8_valid (content n) = true
    /\ target_object_id n = ObjectHash.zero_for_kind (ObjectHash.kind (note_id n))).
Proof.
  split; [|by eexists]. intros [h t d] [Hu Ht]. eexists. split; [reflexivity|].
  cbn in *. unfold Note_from_bytes. rewrite Hu, <- Ht. done.
Qed.

Lemma Tree_laws `{TextEnv} `{ByteSearchLaws} :
  ObjectLaws Tree tree_id (fun t => Forall (item_wf (ObjectHash.kind (tree_id t))) (tree_items t)).
Proof.
  split; [|by eexists]. intros t Hwf. eexists. split; [reflexivity|]. split; [|reflexivity].
  cbn [obj_from_bytes Tree_object]. unfold Tree_from_bytes.
  rewrite (tree_loop_roundtrip _ _ [] (tree_items t) [] Hwf) by (unfold blen; lia). by destruct t.
Qed.

Lemma Commit_laws `{TextEnv} `{ByteSearchLaws} `{HexLaws} : ObjectLaws Commit commit_id commit_wf.
Proof.
  split; [|by eexists]. intros c Hwf. cbn [obj_to_data obj_from_bytes obj_get_size Commit_object]. unfold Commit_get_size.
  destruct (Commit_to_data c) as [data| | |] eqn:E; try discriminate E.
  exists data. split; [done|]. split; [by apply Commit_parses|done].
Qed.

Lemma Tag_laws `{TextEnv} `{!LossyLaw} `{ByteSearchLaws} `{HexLaws} `{BstrLaws} : ObjectLaws Tag tag_id tag_wf.
Proof.
  split; [|by eexists]. intros t Hwf. cbn [obj_to_data obj_from_bytes obj_get_size Tag_object]. unfold Tag_get_size.
  destruct (Tag_to_data t) as [data| | |] eqn:E; try discriminate E.
  exists data. split; [done|]. split; [by apply Tag_parses|done].
Qed.

(** * Loading through the hashing reader *)

Section loading.
Context `{TextEnv} `{Decompress} `{Hasher} {A : Type} `{ObjectTrait A}.

(** [fuel] and [rooms] are those of [read_to_end]; [size] only sizes the first buffer. *)
Definition from_buf_read_with_kind (fuel : nat) (rooms : nat -> Z) (r : ReadBoxed) (size : Z) (kind : HashKind.t)
  : Res GitError A * ReadBoxed :=
  if isize_max <? size then (Panic, r)
  else
    let '(content, r) := read_to_end fuel rooms r [] in
    (let! content := map_err IOError content in
     let hasher := rb_hash r in
     let actual := HashAlgorithm_kind hasher in
     if negb (bool_decide (actual = kind))
     then Err (GitError_from (KindMismatch (str "from_buf_read_with_kind") kind actual
                                (HashKind.size kind) (HashKind.size actual)))
     else obj_from_bytes content (HashAlgorithm_finalize_object_hash hasher), r).

Definition from_buf_read (fuel : nat) (rooms : nat -> Z) (current : HashKind.t) (r : ReadBoxed) (size : Z)
  : Res GitError A * ReadBoxed :=
  let '(a, r) := from_buf_read_with_kind fuel rooms r size current in (unwrap a, r).

Definition object_hash_for_kind (a : A) (kind : HashKind.t) : Res GitError ObjectHash.t :=
  let! data := obj_to_data a in
  map_err GitError_from (from_type_and_data_for_kind kind (obj_get_type a) data).

Definition object_hash (current : HashKind.t) (a : A) : Res GitError ObjectHash.t :=
  object_hash_for_kind a current.

End loading.

(** C39: for every object kind that keeps the promise [ObjectLaws], loading the
    compressed body through the hashing reader, in whatever pieces it arrives, gives
    the object under the identifier [object_hash_for_kind] computes and leaves what
    follows the body in the reader; a reader of another kind is refused. *)
Theorem load_stored_object `{TextEnv} `{DecompressLaws deflated pending} `{HasherLaws} {A : Type}
  `{ObjectLaws A obj_id obj_wf} (a : A) (kind : HashKind.t) (rd : list ReadEvent) (z data rest : bytes)
  (rooms : nat -> Z) (fuel : nat) :
  obj_wf a -> object_hash_for_kind a kind = Ok (obj_id a) -> obj_to_data a = Ok data ->
  blen data <= isize_max -> deflated z data -> Forall steady rd -> stream_data rd = z ++ rest ->
  (forall k, 0 < rooms k) -> (length data < fuel)%nat ->
  exists r r', ReadBoxed_new_with_kind rd (obj_get_type a) (obj_get_size a) kind = Ok r
    /\ from_buf_read_with_kind fuel rooms r (obj_get_size a) kind = (Ok a, r')
    /\ stream_data (rb_inner r') = rest
    /\ forall kind', kind' <> kind ->
       exists e, from_buf_read_with_kind (A := A) fuel rooms r (obj_get_size a) kind' = (Err e, r').
Proof.
  intros Hwf Hid Hdata Hlen Hz Hrd Hrest Hrooms Hfuel. destruct (obj_roundtrip a Hwf) as (d & Hd & Hfrom & Hsize).
  rewrite Hdata in Hd. injection Hd as <-. destruct (obj_named a) as [label Hlabel].
  unfold ReadBoxed_new_with_kind. rewrite Hlabel. cbn [ok_or rbind]. eexists.
  unfold object_hash_for_kind in Hid. rewrite Hdata in Hid. cbn [rbind] in Hid.
  rewrite (from_type_and_data_for_kind_eq kind _ _ label Hlabel) in Hid. injection Hid as Hid.
  destruct (read_to_end_ok fuel rooms (with_header rd (HashAlgorithm_new_for_kind kind) label (obj_get_size a))
    z data rest []) as (r' & Hr & _ & Hinner & _ & Hh); [done|done|by apply pending_new|done|done|].
  cbn [app] in Hr. cbn [count_hash with_header rb_hash] in Hh. rewrite !update_app, Hsize in Hh.
  assert (Hkind : HashAlgorithm_kind (rb_hash r') = kind) by (rewrite Hh; done).
  exists r'. split; [reflexivity|]. unfold from_buf_read_with_kind. rewrite Hr, Hsize.
  replace (isize_max <? blen data) with false by lia. cbn [map_err rbind]. rewrite Hkind.
  split; [|split; [done|intros kind' Hk]].
  - rewrite bool_decide_true by done. cbn [negb]. f_equal. rewrite Hh.
    etransitivity; [|exact Hfrom]. f_equal. rewrite <- Hid. unfold ObjectHash_new_for_kind, loose_object. done.
  - rewrite bool_decide_false by done. by eexists.
Qed.

Definition sample_blob : Blob :=
  mkBlob (@ObjectHash_new_for_kind toy_hasher HashKind.Sha256 (loose_object (str "blob") [1; 2; 3])) [1; 2; 3].

Lemma load_stored_object_witness :
  exists r r', @ReadBoxed_new_with_kind stored_inflater plain_texts toy_hasher
      [Chunk [3; 1]; Chunk [2; 3; 9]] ObjectType.Blob 3 HashKind.Sha256 = Ok r
    /\ @from_buf_read_with_kind plain_texts stored_inflater toy_hasher Blob Blob_object 5 (fun _ => 1) r 3 HashKind.Sha256
       = (Ok sample_blob, r')
    /\ stream_data (rb_inner r') = [9]
    /\ forall kind', kind' <> HashKind.Sha256 ->
       exists e, @from_buf_read_with_kind plain_texts stored_inflater toy_hasher Blob Blob_object 5 (fun _ => 1) r 3 kind'
                 = (Err e, r').
Proof.
  apply (@load_stored_object plain_texts stored_inflater stored stored_pending stored_laws toy_hasher toy_hasher_laws
    Blob Blob_object blob_id (fun _ => True) Blob_laws sample_blob HashKind.Sha256
    [Chunk [3; 1]; Chunk [2; 3; 9]] [3; 1; 2; 3] [1; 2; 3] [9] (fun _ => 1) 5);
    [exact I|reflexivity|reflexivity|vm_compute; discriminate|reflexivity| |reflexivity|reflexivity|cbn; lia].
  repeat constructor; discriminate.
Defined.
