(* ===== verification/Integrity.v ===== *)
(** Integrity hashes of AI objects, [src/internal/object/integrity.rs]: SHA-256 hashes, their text
    form, and the hash of an object through a canonical form of its JSON value, in which the keys
    of every object are sorted.

    serde_json is a parameter: how its map takes a new key ([JsonMap]), and the text of a value.
    A map is the list of its entries in iteration order. *)

From Stdlib Require Import ZArith Lia String Permutation Sorted.
From stdpp Require Import base tactics list numbers option gmap.
From S2P Require Import Prelude Text Errors Hash PackIndex.

(** * The hash *)

Record IntegrityHash : Type := mkIntegrityHash { ih_bytes : bytes }.

#[export] Instance IntegrityHash_eq_dec : EqDecision IntegrityHash.
Proof. solve_decision. Defined.

Section hash.
Context `{Hasher} `{HexCrate}.

(** [Sha256::new], [update], [finalize]. *)
Definition IntegrityHash_compute (content : bytes) : IntegrityHash :=
  mkIntegrityHash (hasher_finalize (hasher_update (hasher_new HashKind.Sha256) content)).

Definition IntegrityHash_to_hex (h : IntegrityHash) : bytes := hex_encode (ih_bytes h).

Definition IntegrityHash_debug (h : IntegrityHash) : bytes := str "IntegrityHash(" ++ IntegrityHash_to_hex h ++ str ")".
Definition IntegrityHash_fmt (h : IntegrityHash) : bytes := IntegrityHash_to_hex h.

(** [hex_text] is [to_string] of a hex error. *)
Definition IntegrityHash_from_str (hex_text : FromHexError -> bytes) (s : bytes) : Res bytes IntegrityHash :=
  if negb (blen s =? 64) then Err (str "Invalid hash length: expected 64, got " ++ show_dec (blen s))
  else
    let! b := map_err hex_text (hex_decode s) in
    Ok (mkIntegrityHash b).

End hash.

(** * JSON values *)

(** Numbers are given by their text. *)
Inductive Value : Type :=
| VNull
| VBool (b : bool)
| VNumber (text : bytes)
| VString (s : bytes)
| VArray (items : list Value)
| VObject (entries : list (bytes * Value)).

(** [Map::insert] on the entries in iteration order. *)
Class JsonMap := json_insert : list (bytes * Value) -> bytes -> Value -> list (bytes * Value).

(** A key beyond all others goes to the end: of a map that keeps its keys sorted as of one that
    keeps the order of insertion. *)
Class JsonMapLaws `{JsonMap} : Prop :=
  json_insert_last : forall l k v, Forall (fun e => bytes_lt e.1 k = true) l -> json_insert l k v = l ++ [(k, v)].

(** [sort_by] on the keys: a stable sort. *)
Fixpoint insert_sorted {A} (e : bytes * A) (l : list (bytes * A)) : list (bytes * A) :=
  match l with
  | [] => [e]
  | x :: l' => if bytes_lt x.1 e.1 then x :: insert_sorted e l' else e :: l
  end.

Definition sort_by_key {A} (l : list (bytes * A)) : list (bytes * A) := foldr insert_sorted [] l.

Section canonical.
Context `{JsonMap}.

(** The loop that fills the new map. *)
Definition insert_all (l : list (bytes * Value)) : list (bytes * Value) :=
  fold_left (fun sorted e => json_insert sorted e.1 e.2) l [].

(** The values are put into canonical form before the sort instead of after it; the sort looks
    at the keys only. *)
Fixpoint canonicalize_json (value : Value) : Value :=
  match value with
  | VArray items => VArray (map canonicalize_json items)
  | VObject entries => VObject (insert_all (sort_by_key (map (fun '(k, v) => (k, canonicalize_json v)) entries)))
  | _ => value
  end.

Context `{Hasher}.

(** [to_value] and [to_vec] of serde_json may fail. *)
Definition compute_integrity_hash {T E} (to_value : T -> Res E Value) (to_vec : Value -> Res E bytes) (object : T)
  : Res E IntegrityHash :=
  let! value := to_value object in
  let! content := to_vec (canonicalize_json value) in
  Ok (IntegrityHash_compute content).

End canonical.

(** * Text form *)

(** An integrity hash prints and parses back, and no text of another length is accepted. *)
Lemma integrity_hash_text `{HexCrate} `{!HexLaws} hex_text (h : IntegrityHash) :
  byte_list (ih_bytes h) -> blen (ih_bytes h) = 32 ->
  IntegrityHash_from_str hex_text (IntegrityHash_to_hex h) = Ok h.
Proof.
  intros Hb Hl. unfold IntegrityHash_from_str, IntegrityHash_to_hex. rewrite hex_encode_length, Hl. cbn [Z.mul Z.eqb negb].
  rewrite hex_decode_encode by done. by destruct h.
Qed.

(** * Sorting by distinct keys *)

Definition key_lt {A} (a b : bytes * A) : Prop := bytes_lt a.1 b.1 = true.

Lemma insert_sorted_perm {A} (e : bytes * A) l : Permutation (insert_sorted e l) (e :: l).
Proof. induction l as [|x l IH]; [done|]. cbn. destruct (bytes_lt x.1 e.1); [|done]. rewrite IH. apply Permutation_swap. Qed.

Lemma sort_by_key_perm {A} (l : list (bytes * A)) : Permutation (sort_by_key l) l.
Proof. induction l as [|x l IH]; [done|]. cbn. by rewrite insert_sorted_perm, IH. Qed.

Lemma insert_sorted_sorted {A} (e : bytes * A) l :
  StronglySorted key_lt l -> e.1 ∉ map fst l -> StronglySorted key_lt (insert_sorted e l).
Proof.
  induction 1 as [|x l Hs IH Hx]; intros Hn; cbn; [repeat constructor|]. cbn in Hn. apply not_elem_of_cons in Hn as [Hne Hn].
  destruct (bytes_lt x.1 e.1) eqn:E.
  - constructor; [by apply IH|]. rewrite insert_sorted_perm. by constructor.
  - assert (Hxe : key_lt e x) by (by apply bytes_lt_total). constructor; [by constructor|]. constructor; [done|].
    eapply Forall_impl; [exact Hx|]. intros y. by apply bytes_lt_trans.
Qed.

Lemma sort_by_key_sorted {A} (l : list (bytes * A)) : NoDup (map fst l) -> StronglySorted key_lt (sort_by_key l).
Proof.
  induction l as [|x l IH]; intros Hnd; [constructor|]. apply NoDup_cons in Hnd as [Hn Hnd].
  change (sort_by_key (x :: l)) with (insert_sorted x (sort_by_key l)). apply insert_sorted_sorted; [by apply IH|]. by rewrite sort_by_key_perm.
Qed.

(** A sorted list is determined by its elements. *)
Lemma sorted_unique {A} (l l' : list (bytes * A)) :
  StronglySorted key_lt l -> StronglySorted key_lt l' -> Permutation l l' -> l = l'.
Proof.
  intros Hl. revert l'. induction Hl as [|x l Hs IH Hx]; intros l' Hl' Hp; [by apply Permutation_nil in Hp|].
  destruct Hl' as [|y l' Hs' Hy]; [symmetry in Hp; by apply Permutation_nil in Hp|].
  assert (x = y) as ->.
  { assert (Hxi : x ∈ y :: l') by (rewrite <- Hp; left). assert (Hyi : y ∈ x :: l) by (rewrite Hp; left).
    apply elem_of_cons in Hxi as [?|Hxi]; [done|]. apply elem_of_cons in Hyi as [?|Hyi]; [done|]. rewrite Forall_forall in Hx, Hy.
    specialize (Hx y Hyi). specialize (Hy x Hxi). pose proof (bytes_lt_trans _ _ _ Hx Hy) as Hc. by rewrite bytes_lt_irrefl in Hc. }
  f_equal. apply IH; [done|]. by apply Permutation_cons_inv in Hp.
Qed.

Lemma sort_by_key_sorted_id {A} (l : list (bytes * A)) : StronglySorted key_lt l -> sort_by_key l = l.
Proof.
  induction 1 as [|x l _ IH Hx]; [done|].
  change (sort_by_key (x :: l)) with (insert_sorted x (sort_by_key l)). rewrite IH. destruct l as [|y l]; [done|]. apply Forall_cons_1 in Hx as [Hxy _].
  cbn. destruct (bytes_lt y.1 x.1) eqn:E; [|done]. pose proof (bytes_lt_trans _ _ _ Hxy E) as Hc. by rewrite bytes_lt_irrefl in Hc.
Qed.

Lemma insert_all_sorted `{JsonMapLaws} l : StronglySorted key_lt l -> insert_all l = l.
Proof.
  intros Hs. unfold insert_all.
  assert (Hgen : forall acc, StronglySorted key_lt (acc ++ l) -> fold_left (fun sorted e => json_insert sorted e.1 e.2) l acc = acc ++ l); [|by apply (Hgen [])].
  clear Hs. induction l as [|x l IH]; intros acc Hs; cbn; [by rewrite app_nil_r|]. rewrite json_insert_last.
  - rewrite <- surjective_pairing, IH; by rewrite <- app_assoc.
  - clear IH. induction acc as [|y acc IHa]; [constructor|]. cbn in Hs. apply StronglySorted_inv in Hs as [Hs Hy]. constructor; [|by apply IHa].
    rewrite Forall_app, Forall_cons in Hy. by destruct Hy as (_ & Hy & _).
Qed.

(** * The canonical form *)

(** Induction through arrays and objects. *)
Lemma Value_nested_ind (P : Value -> Prop) :
  P VNull -> (forall b, P (VBool b)) -> (forall t, P (VNumber t)) -> (forall s, P (VString s)) ->
  (forall items, Forall P items -> P (VArray items)) -> (forall entries, Forall (fun e => P e.2) entries -> P (VObject entries)) ->
  forall v, P v.
Proof.
  intros Hn Hb Ht Hs Ha Ho. fix IH 1. intros [| | | |items|entries]; [done|done|done|done| |].
  - apply Ha. induction items as [|x items IHi]; constructor; [apply IH|exact IHi].
  - apply Ho. induction entries as [|[k x] entries IHe]; constructor; [apply IH|exact IHe].
Qed.

(** Maps have each key once. *)
Inductive json_wf : Value -> Prop :=
| wf_null : json_wf VNull
| wf_bool b : json_wf (VBool b)
| wf_number t : json_wf (VNumber t)
| wf_string s : json_wf (VString s)
| wf_array items : Forall json_wf items -> json_wf (VArray items)
| wf_object entries : NoDup (map fst entries) -> Forall (fun e => json_wf e.2) entries -> json_wf (VObject entries).

(** The same JSON up to the order of keys, at any depth. *)
Inductive json_equiv : Value -> Value -> Prop :=
| je_refl v : json_equiv v v
| je_array xs ys : Forall2 json_equiv xs ys -> json_equiv (VArray xs) (VArray ys)
| je_object es es' fs :
    Permutation es es' -> Forall2 (fun p q => p.1 = q.1 /\ json_equiv p.2 q.2) es' fs -> json_equiv (VObject es) (VObject fs).

Section canonical_form.
Context `{JsonMap}.

Definition canon_entry (e : bytes * Value) : bytes * Value := (e.1, canonicalize_json e.2).

Lemma canonicalize_object es : canonicalize_json (VObject es) = VObject (insert_all (sort_by_key (map canon_entry es))).
Proof. cbn. do 3 f_equal. apply map_ext. by intros []. Qed.

Lemma canon_keys es : map fst (map canon_entry es) = map fst es.
Proof. rewrite map_map. done. Qed.

(** Two orders of the same entries are sorted to the same list. *)
Lemma sort_entries_unique {A} (l l' : list (bytes * A)) : NoDup (map fst l) -> Permutation l l' -> sort_by_key l = sort_by_key l'.
Proof.
  intros Hnd Hp. apply sorted_unique; [by apply sort_by_key_sorted|apply sort_by_key_sorted; by rewrite <- Hp|by rewrite !sort_by_key_perm].
Qed.

Lemma canonical_unique v : json_wf v -> forall w, json_equiv v w -> canonicalize_json w = canonicalize_json v.
Proof.
  induction v as [| | | |items IH|es IH] using Value_nested_ind; intros Hwf w Hw; inversion Hw as [|xs ys Hf|es0 es' fs Hp Hf]; subst; try done.
  - inversion Hwf as [| | | |? Hitems|]; subst. cbn. f_equal. clear Hw Hwf. induction Hf as [|x y xs ys Hxy _ IHf]; [done|].
    apply Forall_cons_1 in IH as [IHx IH], Hitems as [Hx Hitems]. cbn. rewrite (IHx Hx y Hxy). f_equal. by apply IHf.
  - inversion Hwf as [| | | | |? Hnd Hes]; subst. rewrite !canonicalize_object. do 2 f_equal. rewrite Hp in IH, Hes.
    assert (Hmap : map canon_entry fs = map canon_entry es').
    { clear Hw Hwf Hp Hnd. induction Hf as [|[k x] [k' y] xs ys [Hk Hxy] _ IHf]; [done|]. cbn in Hk, Hxy. subst k'.
      apply Forall_cons_1 in IH as [IHx IH], Hes as [Hx Hes]. cbn. unfold canon_entry at 1 3. cbn in *. rewrite (IHx Hx y Hxy). f_equal. by apply IHf. }
    rewrite Hmap. symmetry. apply sort_entries_unique; [by rewrite canon_keys|by rewrite Hp].
Qed.

Context `{!JsonMapLaws}.

Lemma canonicalize_sorted es : NoDup (map fst es) -> canonicalize_json (VObject es) = VObject (sort_by_key (map canon_entry es)).
Proof. intros Hnd. rewrite canonicalize_object, insert_all_sorted; [done|]. apply sort_by_key_sorted. by rewrite canon_keys. Qed.

Lemma canonical_equiv v : json_wf v -> json_equiv v (canonicalize_json v).
Proof.
  induction v as [| | | |items IH|es IH] using Value_nested_ind; intros Hwf; try apply je_refl.
  - inversion Hwf as [| | | |? Hitems|]; subst. apply je_array. fold canonicalize_json. clear Hwf. induction items as [|x items IHi]; [constructor|].
    apply Forall_cons_1 in IH as [IHx IH], Hitems as [Hx Hitems]. cbn. constructor; [by apply IHx|by apply IHi].
  - inversion Hwf as [| | | | |? Hnd Hes]; subst. rewrite canonicalize_sorted by done.
    assert (Hsorted : exists es', Permutation es es' /\ sort_by_key (map canon_entry es) = map canon_entry es').
    { destruct (Permutation_map_inv canon_entry es (sort_by_key_perm (map canon_entry es))) as (es' & E & Hp). exists es'. by symmetry in Hp. }
    destruct Hsorted as (es' & Hp & ->). apply (je_object _ es' _ Hp). rewrite Hp in IH, Hes. clear -IH Hes.
    induction es' as [|[k x] es' IHe]; [constructor|]. apply Forall_cons_1 in IH as [IHx IH], Hes as [Hx Hes]. cbn.
    constructor; [split; [done|by apply IHx]|by apply IHe].
Qed.

Lemma canonical_wf v : json_wf v -> json_wf (canonicalize_json v).
Proof.
  induction v as [| | | |items IH|es IH] using Value_nested_ind; intros Hwf; try done.
  - inversion Hwf as [| | | |? Hitems|]; subst. constructor. apply Forall_fmap. clear Hwf. induction Hitems as [|x items Hx Hi IHi]; [constructor|].
    apply Forall_cons_1 in IH as [IHx IH]. constructor; [by apply IHx|by apply IHi].
  - inversion Hwf as [| | | | |? Hnd Hes]; subst. rewrite canonicalize_sorted by done. constructor; rewrite sort_by_key_perm; [by rewrite canon_keys|].
    apply Forall_fmap. clear Hwf Hnd. induction Hes as [|x es Hx Hi IHi]; [constructor|].
    apply Forall_cons_1 in IH as [IHx IH]. constructor; [by apply IHx|by apply IHi].
Qed.

End canonical_form.

(** C36: the integrity hash of an object depends on its JSON value only up to the order of keys:
    the canonical form is the same JSON, does not change when it is canonicalised again, and is
    equal for all values that differ in the order of keys at any depth, so that their hashes are
    equal. *)
Theorem integrity_hash_canonical `{JsonMap} `{!JsonMapLaws} `{Hasher} {E} (to_vec : Value -> Res E bytes) (v w : Value) :
  json_wf v -> json_equiv v w ->
  json_equiv v (canonicalize_json v)
  /\ canonicalize_json (canonicalize_json v) = canonicalize_json v
  /\ canonicalize_json w = canonicalize_json v
  /\ compute_integrity_hash (@Ok E Value) to_vec w = compute_integrity_hash Ok to_vec v.
Proof.
  intros Hwf Hw. pose proof (canonical_equiv v Hwf) as He. split; [done|]. split; [by apply canonical_unique|].
  pose proof (canonical_unique v Hwf w Hw) as Hc. split; [done|]. unfold compute_integrity_hash. cbn [rbind]. by rewrite Hc.
Qed.

(** * A concrete value *)

(** The map of serde_json's default build keeps its keys sorted. *)
Fixpoint btree_insert (l : list (bytes * Value)) (k : bytes) (v : Value) : list (bytes * Value) :=
  match l with
  | [] => [(k, v)]
  | (k', v') :: l' => if bytes_lt k' k then (k', v') :: btree_insert l' k v else if bytes_lt k k' then (k, v) :: l else (k, v) :: l'
  end.

Definition btree_map : JsonMap := btree_insert.

Lemma btree_map_laws : @JsonMapLaws btree_map.
Proof.
  intros l k v Hl. unfold json_insert, btree_map. induction Hl as [|[k' v'] l Hx _ IH]; [done|]. cbn in *. rewrite Hx. by f_equal.
Qed.

Definition sample_json (flip : bool) : Value :=
  let pair := [(str "a", VNumber (str "1")); (str "b", VArray [VNull; VBool true])] in
  VObject [(str "x", VObject (if flip then reverse pair else pair)); (str "name", VString (str "n"))].

Lemma integrity_hash_canonical_witness :
  json_equiv (sample_json false) (@canonicalize_json btree_map (sample_json false))
  /\ @canonicalize_json btree_map (@canonicalize_json btree_map (sample_json false)) = @canonicalize_json btree_map (sample_json false)
  /\ @canonicalize_json btree_map (sample_json true) = @canonicalize_json btree_map (sample_json false)
  /\ @compute_integrity_hash btree_map toy_hasher Value bytes Ok (fun _ => Ok [1]) (sample_json true)
     = @compute_integrity_hash btree_map toy_hasher Value bytes Ok (fun _ => Ok [1]) (sample_json false).
Proof.
  apply (@integrity_hash_canonical btree_map btree_map_laws toy_hasher bytes (fun _ => Ok [1]) (sample_json false) (sample_json true)).
  - repeat (constructor; try decide_closed).
  - eapply je_object; [reflexivity|]. constructor; [split; [reflexivity|]|constructor; [split; [reflexivity|apply je_refl]|constructor]].
    eapply je_object; [apply perm_swap|]. repeat constructor.
Defined.
