(* ===== verification/AiSnapshots.v ===== *)
(** The AI snapshot objects of [src/internal/object/]: intents, plans, tasks, runs, patch sets,
    context snapshots and provenance, one module per record, with its constructors and the
    operations that change it.  A getter is the projection of the field of its name.

    A [Uuid] and a point in time are the values [Uuid::now_v7()] and [Utc::now()] return, an [f64]
    is its bits.  The JSON text of a record comes from serde's derives and serde_json, which are the
    parameter [Serde]. *)

From Stdlib Require Import ZArith Lia String.
From stdpp Require Import base tactics list numbers option gmap.
From S2P Require Import Prelude Stream Text Errors ObjectTypes PackUtils Hash Inflate PackIndex Signature Tree Commit Tag Objects Integrity.

(** * The JSON form of a record *)

(** [serde_json::to_vec] and [from_slice]; an error is given by its text. *)
Class Serde (A : Type) := {
  json_to_vec : A -> Res bytes bytes;
  json_from_slice : bytes -> Res bytes A
}.

(** [impl ObjectTrait] of every AI record: the type, and the error a JSON error becomes. *)
Definition json_object {A} `{Serde A} (object_type : ObjectType.t) (error : bytes -> GitError) : ObjectTrait A := {|
  obj_from_bytes := fun data _ => map_err error (json_from_slice data);
  obj_get_type := fun _ => object_type;
  obj_get_size := fun a => match json_to_vec a with Ok v => blen v | _ => 0 end;
  obj_to_data := fun a => map_err error (json_to_vec a)
|}.

(** [Value::get] with a key. *)
Definition value_get (v : Value) (key : bytes) : option Value :=
  match v with VObject entries => option_map snd (find (fun e => bool_decide (e.1 = key)) entries) | _ => None end.

(** * Intents *)

(** The transparent wrapper of a JSON value. *)
Record IntentSpec : Type := mkIntentSpec { spec_value : Value }.

Definition IntentSpec_from (value : bytes) : IntentSpec := mkIntentSpec (VString value).

Module Intent.

Record t : Type := mk {
  header : Header.t;
  parents : list Z;
  prompt : bytes;
  spec : option IntentSpec;
  analysis_context_frames : list Z
}.

Definition new (uuid now : Z) (created_by : ActorRef.t) (prompt : bytes) : Res bytes t :=
  let! header := Header.new uuid now ObjectType.Intent created_by in
  Ok (mk header [] prompt None []).

Definition set_parents (self : t) (parents_ : list Z) : t :=
  mk (header self) parents_ (prompt self) (spec self) (analysis_context_frames self).

Definition set_spec (self : t) (spec_ : option IntentSpec) : t :=
  mk (header self) (parents self) (prompt self) spec_ (analysis_context_frames self).

Definition set_analysis_context_frames (self : t) (frames : list Z) : t :=
  mk (header self) (parents self) (prompt self) (spec self) frames.

Definition add_parent (self : t) (parent_id : Z) : t :=
  if bool_decide (parent_id = Header.object_id (header self)) then self
  else if bool_decide (parent_id ∈ parents self) then self
  else set_parents self (parents self ++ [parent_id]).

Definition new_revision_chain (uuid now : Z) (created_by : ActorRef.t) (prompt : bytes) (parent_ids : list Z) : Res bytes t :=
  let! intent := new uuid now created_by prompt in
  Ok (fold_left add_parent parent_ids intent).

Definition new_revision_from (uuid now : Z) (created_by : ActorRef.t) (prompt : bytes) (parent : t) : Res bytes t :=
  new_revision_chain uuid now created_by prompt [Header.object_id (header parent)].

Definition fmt (uuid_text : Z -> bytes) (self : t) : bytes := str "Intent: " ++ uuid_text (Header.object_id (header self)).

#[export] Instance object `{Serde t} : ObjectTrait t := json_object ObjectType.Intent InvalidIntentObject.

End Intent.

(** * Plans *)

Module PlanStep.

Record t : Type := mk {
  step_id : Z;
  description : bytes;
  inputs : option Value;
  checks : option Value
}.

(** [step_uuid] is the value of [Uuid::now_v7()]. *)
Definition new (step_uuid : Z) (description : bytes) : t := mk step_uuid description None None.

Definition set_inputs (self : t) (inputs_ : option Value) : t :=
  mk (step_id self) (description self) inputs_ (checks self).

Definition set_checks (self : t) (checks_ : option Value) : t :=
  mk (step_id self) (description self) (inputs self) checks_.

End PlanStep.

Module Plan.

Record t : Type := mk {
  header : Header.t;
  intent : Z;
  parents : list Z;
  context_frames : list Z;
  steps : list PlanStep.t
}.

Definition new (uuid now : Z) (created_by : ActorRef.t) (intent : Z) : Res bytes t :=
  let! header := Header.new uuid now ObjectType.Plan created_by in
  Ok (mk header intent [] [] []).

Definition set_parents (self : t) (parents_ : list Z) : t :=
  mk (header self) (intent self) parents_ (context_frames self) (steps self).

Definition set_context_frames (self : t) (frames : list Z) : t :=
  mk (header self) (intent self) (parents self) frames (steps self).

Definition add_step (self : t) (step : PlanStep.t) : t :=
  mk (header self) (intent self) (parents self) (context_frames self) (steps self ++ [step]).

Definition add_parent (self : t) (parent_id : Z) : t :=
  if bool_decide (parent_id = Header.object_id (header self)) then self
  else if bool_decide (parent_id ∈ parents self) then self
  else set_parents self (parents self ++ [parent_id]).

(** The loop over the parents, which must all belong to the intent of the first. *)
Fixpoint link_parents (uuid_text : Z -> bytes) (first_intent : Z) (plan : t) (parents : list t) : Res bytes t :=
  match parents with
  | [] => Ok plan
  | parent :: parents =>
      if negb (bool_decide (intent parent = first_intent))
      then Err (str "plan parents must belong to the same intent: expected " ++ uuid_text first_intent
                  ++ str ", got " ++ uuid_text (intent parent))
      else link_parents uuid_text first_intent (add_parent plan (Header.object_id (header parent))) parents
  end.

Definition new_revision_chain (uuid_text : Z -> bytes) (uuid now : Z) (created_by : ActorRef.t) (parents : list t) : Res bytes t :=
  let! first_parent := ok_or (head parents) (str "plan revision chain requires at least one parent") in
  let! plan := new uuid now created_by (intent first_parent) in
  link_parents uuid_text (intent first_parent) plan parents.

Definition new_revision (uuid_text : Z -> bytes) (uuid now : Z) (self : t) (created_by : ActorRef.t) : Res bytes t :=
  new_revision_chain uuid_text uuid now created_by [self].

Definition new_revision_from (uuid_text : Z -> bytes) (uuid now : Z) (created_by : ActorRef.t) (parent : t) : Res bytes t :=
  new_revision_chain uuid_text uuid now created_by [parent].

Definition fmt (uuid_text : Z -> bytes) (self : t) : bytes := str "Plan: " ++ uuid_text (Header.object_id (header self)).

#[export] Instance object `{Serde t} : ObjectTrait t := json_object ObjectType.Plan InvalidObjectInfo.

End Plan.

(** * Tasks *)

Module GoalType.

Inductive t : Type :=
| Feature
| Bugfix
| Refactor
| Docs
| Perf
| Test
| Chore
| Build
| Ci
| Style
| Other (label : bytes).

#[global] Instance eq_dec : EqDecision t.
Proof. solve_decision. Defined.

Definition as_str (x : t) : bytes :=
  match x with
  | Feature => str "feature"
  | Bugfix => str "bugfix"
  | Refactor => str "refactor"
  | Docs => str "docs"
  | Perf => str "perf"
  | Test => str "test"
  | Chore => str "chore"
  | Build => str "build"
  | Ci => str "ci"
  | Style => str "style"
  | Other s => s
  end.

Definition from_str (s : bytes) : Res bytes t :=
  if bool_decide (s = str "feature") then Ok Feature
  else if bool_decide (s = str "bugfix") then Ok Bugfix
  else if bool_decide (s = str "refactor") then Ok Refactor
  else if bool_decide (s = str "docs") then Ok Docs
  else if bool_decide (s = str "perf") then Ok Perf
  else if bool_decide (s = str "test") then Ok Test
  else if bool_decide (s = str "chore") then Ok Chore
  else if bool_decide (s = str "build") then Ok Build
  else if bool_decide (s = str "ci") then Ok Ci
  else if bool_decide (s = str "style") then Ok Style
  else Ok (Other s).

End GoalType.

Module Task.

Record t : Type := mk {
  header : Header.t;
  title : bytes;
  description : option bytes;
  goal : option GoalType.t;
  constraints : list bytes;
  acceptance_criteria : list bytes;
  requester : option ActorRef.t;
  parent : option Z;
  intent : option Z;
  origin_step_id : option Z;
  dependencies : list Z
}.

Definition new (uuid now : Z) (created_by : ActorRef.t) (title : bytes) (goal : option GoalType.t) : Res bytes t :=
  let! header := Header.new uuid now ObjectType.Task created_by in
  Ok (mk header title None goal [] [] None None None None []).

Definition set_description (self : t) (description_ : option bytes) : t :=
  mk (header self) (title self) description_ (goal self) (constraints self) (acceptance_criteria self) (requester self) (parent self) (intent self) (origin_step_id self) (dependencies self).

Definition add_constraint (self : t) (constraint : bytes) : t :=
  mk (header self) (title self) (description self) (goal self) (constraints self ++ [constraint]) (acceptance_criteria self) (requester self) (parent self) (intent self) (origin_step_id self) (dependencies self).

Definition add_acceptance_criterion (self : t) (criterion : bytes) : t :=
  mk (header self) (title self) (description self) (goal self) (constraints self) (acceptance_criteria self ++ [criterion]) (requester self) (parent self) (intent self) (origin_step_id self) (dependencies self).

Definition set_requester (self : t) (requester_ : option ActorRef.t) : t :=
  mk (header self) (title self) (description self) (goal self) (constraints self) (acceptance_criteria self) requester_ (parent self) (intent self) (origin_step_id self) (dependencies self).

Definition set_parent (self : t) (parent_ : option Z) : t :=
  mk (header self) (title self) (description self) (goal self) (constraints self) (acceptance_criteria self) (requester self) parent_ (intent self) (origin_step_id self) (dependencies self).

Definition set_intent (self : t) (intent_ : option Z) : t :=
  mk (header self) (title self) (description self) (goal self) (constraints self) (acceptance_criteria self) (requester self) (parent self) intent_ (origin_step_id self) (dependencies self).

Definition set_origin_step_id (self : t) (origin_step_id_ : option Z) : t :=
  mk (header self) (title self) (description self) (goal self) (constraints self) (acceptance_criteria self) (requester self) (parent self) (intent self) origin_step_id_ (dependencies self).

Definition add_dependency (self : t) (task_id : Z) : t :=
  mk (header self) (title self) (description self) (goal self) (constraints self) (acceptance_criteria self) (requester self) (parent self) (intent self) (origin_step_id self) (dependencies self ++ [task_id]).

Definition fmt (uuid_text : Z -> bytes) (self : t) : bytes := str "Task: " ++ uuid_text (Header.object_id (header self)).

#[export] Instance object `{Serde t} : ObjectTrait t := json_object ObjectType.Task InvalidObjectInfo.

End Task.

(** * Runs *)

Module Environment.

Record t : Type := mk {
  os : bytes;
  arch : bytes;
  cwd : bytes;
  extra : gmap bytes Value
}.

(** The constants of the target, and the answer for the current directory in lossy text. *)
Definition capture {E} (os arch : bytes) (current_dir : Res E bytes) : t :=
  mk os arch (match current_dir with Ok p => p | _ => str "unknown" end) ∅.

End Environment.

Module Run.

Record t : Type := mk {
  header : Header.t;
  task : Z;
  plan : option Z;
  commit : IntegrityHash;
  snapshot : option Z;
  environment : option Environment.t
}.

Definition new `{HexCrate} (hex_text : FromHexError -> bytes) (captured : Environment.t) (uuid now : Z) (created_by : ActorRef.t)
  (task : Z) (commit : bytes) : Res bytes t :=
  let! commit := IntegrityHash_from_str hex_text commit in
  let! header := Header.new uuid now ObjectType.Run created_by in
  Ok (mk header task None commit None (Some captured)).

Definition set_plan (self : t) (plan_ : option Z) : t :=
  mk (header self) (task self) plan_ (commit self) (snapshot self) (environment self).

Definition set_snapshot (self : t) (snapshot_ : option Z) : t :=
  mk (header self) (task self) (plan self) (commit self) snapshot_ (environment self).

Definition fmt (uuid_text : Z -> bytes) (self : t) : bytes := str "Run: " ++ uuid_text (Header.object_id (header self)).

#[export] Instance object `{Serde t} : ObjectTrait t := json_object ObjectType.Run InvalidObjectInfo.

End Run.

(** * Patch sets *)

Module DiffFormat.

Inductive t : Type :=
| UnifiedDiff
| GitDiff.

#[global] Instance eq_dec : EqDecision t.
Proof. solve_decision. Defined.

End DiffFormat.

Module ChangeType.

Inductive t : Type :=
| Add
| Modify
| Delete
| Rename
| Copy.

#[global] Instance eq_dec : EqDecision t.
Proof. solve_decision. Defined.

End ChangeType.

Module TouchedFile.

Record t : Type := mk {
  path : bytes;
  change_type : ChangeType.t;
  lines_added : Z;
  lines_deleted : Z
}.

Definition new (path : bytes) (change_type : ChangeType.t) (lines_added lines_deleted : Z) : Res bytes t :=
  if trim_is_empty path then Err (str "path cannot be empty") else Ok (mk path change_type lines_added lines_deleted).

End TouchedFile.

Module PatchSet.

Record t : Type := mk {
  header : Header.t;
  run : Z;
  sequence : Z;
  commit : IntegrityHash;
  format : DiffFormat.t;
  artifact : option ArtifactRef.t;
  touched : list TouchedFile.t;
  rationale : option bytes
}.

Definition new `{HexCrate} (hex_text : FromHexError -> bytes) (uuid now : Z) (created_by : ActorRef.t) (run : Z) (commit : bytes) : Res bytes t :=
  let! commit := IntegrityHash_from_str hex_text commit in
  let! header := Header.new uuid now ObjectType.PatchSet created_by in
  Ok (mk header run 0 commit DiffFormat.UnifiedDiff None [] None).

Definition set_sequence (self : t) (sequence_ : Z) : t :=
  mk (header self) (run self) sequence_ (commit self) (format self) (artifact self) (touched self) (rationale self).

Definition set_artifact (self : t) (artifact_ : option ArtifactRef.t) : t :=
  mk (header self) (run self) (sequence self) (commit self) (format self) artifact_ (touched self) (rationale self).

Definition add_touched (self : t) (file : TouchedFile.t) : t :=
  mk (header self) (run self) (sequence self) (commit self) (format self) (artifact self) (touched self ++ [file]) (rationale self).

Definition set_rationale (self : t) (rationale_ : option bytes) : t :=
  mk (header self) (run self) (sequence self) (commit self) (format self) (artifact self) (touched self) rationale_.

Definition fmt (uuid_text : Z -> bytes) (self : t) : bytes := str "PatchSet: " ++ uuid_text (Header.object_id (header self)).

#[export] Instance object `{Serde t} : ObjectTrait t := json_object ObjectType.PatchSet InvalidObjectInfo.

End PatchSet.

(** * Context snapshots *)

Module SelectionStrategy.

Inductive t : Type :=
| Explicit
| Heuristic.

#[global] Instance eq_dec : EqDecision t.
Proof. solve_decision. Defined.

End SelectionStrategy.

Module ContextItemKind.

Inductive t : Type :=
| File
| Url
| Snippet
| Command
| Image
| Other (label : bytes).

#[global] Instance eq_dec : EqDecision t.
Proof. solve_decision. Defined.

End ContextItemKind.

Module ContextItem.

Record t : Type := mk {
  kind : ContextItemKind.t;
  path : bytes;
  preview : option bytes;
  blob : option ObjectHash.t
}.

Definition new (kind : ContextItemKind.t) (path : bytes) : Res bytes t :=
  if trim_is_empty path then Err (str "path cannot be empty") else Ok (mk kind path None None).

Definition set_blob (self : t) (blob_ : option ObjectHash.t) : t :=
  mk (kind self) (path self) (preview self) blob_.

End ContextItem.

Module ContextSnapshot.

Record t : Type := mk {
  header : Header.t;
  selection_strategy : SelectionStrategy.t;
  items : list ContextItem.t;
  summary : option bytes
}.

Definition new (uuid now : Z) (created_by : ActorRef.t) (selection_strategy : SelectionStrategy.t) : Res bytes t :=
  let! header := Header.new uuid now ObjectType.ContextSnapshot created_by in
  Ok (mk header selection_strategy [] None).

Definition add_item (self : t) (item : ContextItem.t) : t :=
  mk (header self) (selection_strategy self) (items self ++ [item]) (summary self).

Definition set_summary (self : t) (summary_ : option bytes) : t :=
  mk (header self) (selection_strategy self) (items self) summary_.

Definition fmt (uuid_text : Z -> bytes) (self : t) : bytes := str "ContextSnapshot: " ++ uuid_text (Header.object_id (header self)).

#[export] Instance object `{Serde t} : ObjectTrait t := json_object ObjectType.ContextSnapshot InvalidObjectInfo.

End ContextSnapshot.

(** * Provenance *)

Module Provenance.

Record t : Type := mk {
  header : Header.t;
  run_id : Z;
  provider : bytes;
  model : bytes;
  parameters : option Value;
  temperature_field : option Z;
  max_tokens_field : option Z
}.

Definition new (uuid now : Z) (created_by : ActorRef.t) (run_id : Z) (provider model : bytes) : Res bytes t :=
  let! header := Header.new uuid now ObjectType.Provenance created_by in
  Ok (mk header run_id provider model None None None).

Definition set_parameters (self : t) (parameters_ : option Value) : t :=
  mk (header self) (run_id self) (provider self) (model self) parameters_ (temperature_field self) (max_tokens_field self).

Definition set_temperature (self : t) (temperature_ : option Z) : t :=
  mk (header self) (run_id self) (provider self) (model self) (parameters self) temperature_ (max_tokens_field self).

Definition set_max_tokens (self : t) (max_tokens_ : option Z) : t :=
  mk (header self) (run_id self) (provider self) (model self) (parameters self) (temperature_field self) max_tokens_.

(** The field, or else the entry of that name in the parameters; [as_number] is [Value::as_f64] or
    [Value::as_u64]. *)
Definition or_parameter (field : option Z) (parameters : option Value) (key : bytes) (as_number : Value -> option Z) : option Z :=
  match field with
  | Some x => Some x
  | None =>
      match parameters with
      | Some p => match value_get p key with Some v => as_number v | None => None end
      | None => None
      end
  end.

Definition temperature (as_f64 : Value -> option Z) (self : t) : option Z :=
  or_parameter (temperature_field self) (parameters self) (str "temperature") as_f64.

Definition max_tokens (as_u64 : Value -> option Z) (self : t) : option Z :=
  or_parameter (max_tokens_field self) (parameters self) (str "max_tokens") as_u64.

Definition fmt (uuid_text : Z -> bytes) (self : t) : bytes := str "Provenance: " ++ uuid_text (Header.object_id (header self)).

#[export] Instance object `{Serde t} : ObjectTrait t := json_object ObjectType.Provenance InvalidObjectInfo.

End Provenance.
