(* ===== verification/AiEvents.v ===== *)
(** The AI event objects of [src/internal/object/]: context frames, lifecycle events, usage, tool
    invocations, evidence and decisions, one module per record, as in [AiSnapshots]. *)

From Stdlib Require Import ZArith Lia String.
From stdpp Require Import base tactics list numbers option gmap.
From S2P Require Import Prelude Stream Text Errors ObjectTypes PackUtils Hash Inflate PackIndex Signature Tree Commit Tag Objects Integrity AiSnapshots.

(** * Context frames *)

Module FrameKind.

Inductive t : Type :=
| IntentAnalysis
| StepSummary
| CodeChange
| SystemState
| ErrorRecovery
| Checkpoint
| ToolCall
| Other (label : bytes).

#[global] Instance eq_dec : EqDecision t.
Proof. solve_decision. Defined.

Definition as_str (x : t) : bytes :=
  match x with
  | IntentAnalysis => str "intent_analysis"
  | StepSummary => str "step_summary"
  | CodeChange => str "code_change"
  | SystemState => str "system_state"
  | ErrorRecovery => str "error_recovery"
  | Checkpoint => str "checkpoint"
  | ToolCall => str "tool_call"
  | Other s => s
  end.

End FrameKind.

Module ContextFrame.

Record t : Type := mk {
  header : Header.t;
  intent_id : option Z;
  run_id : option Z;
  plan_id : option Z;
  step_id : option Z;
  kind : FrameKind.t;
  summary : bytes;
  data : option Value;
  token_estimate : option Z
}.

Definition new (uuid now : Z) (created_by : ActorRef.t) (kind : FrameKind.t) (summary : bytes) : Res bytes t :=
  let! header := Header.new uuid now ObjectType.ContextFrame created_by in
  Ok (mk header None None None None kind summary None None).

Definition set_intent_id (self : t) (intent_id_ : option Z) : t :=
  mk (header self) intent_id_ (run_id self) (plan_id self) (step_id self) (kind self) (summary self) (data self) (token_estimate self).

Definition set_run_id (self : t) (run_id_ : option Z) : t :=
  mk (header self) (intent_id self) run_id_ (plan_id self) (step_id self) (kind self) (summary self) (data self) (token_estimate self).

Definition set_plan_id (self : t) (plan_id_ : option Z) : t :=
  mk (header self) (intent_id self) (run_id self) plan_id_ (step_id self) (kind self) (summary self) (data self) (token_estimate self).

Definition set_step_id (self : t) (step_id_ : option Z) : t :=
  mk (header self) (intent_id self) (run_id self) (plan_id self) step_id_ (kind self) (summary self) (data self) (token_estimate self).

Definition set_data (self : t) (data_ : option Value) : t :=
  mk (header self) (intent_id self) (run_id self) (plan_id self) (step_id self) (kind self) (summary self) data_ (token_estimate self).

Definition set_token_estimate (self : t) (token_estimate_ : option Z) : t :=
  mk (header self) (intent_id self) (run_id self) (plan_id self) (step_id self) (kind self) (summary self) (data self) token_estimate_.

Definition fmt (uuid_text : Z -> bytes) (self : t) : bytes := str "ContextFrame: " ++ uuid_text (Header.object_id (header self)).

#[export] Instance object `{Serde t} : ObjectTrait t := json_object ObjectType.ContextFrame InvalidContextFrameObject.

End ContextFrame.

(** * Lifecycle events *)

Module IntentEventKind.

Inductive t : Type :=
| Analyzed
| Completed
| Cancelled
| Other (label : bytes).

#[global] Instance eq_dec : EqDecision t.
Proof. solve_decision. Defined.

End IntentEventKind.

Module IntentEvent.

Record t : Type := mk {
  header : Header.t;
  intent_id : Z;
  kind : IntentEventKind.t;
  reason : option bytes;
  result_commit : option IntegrityHash;
  next_intent_id : option Z
}.

Definition new (uuid now : Z) (created_by : ActorRef.t) (intent_id : Z) (kind : IntentEventKind.t) : Res bytes t :=
  let! header := Header.new uuid now ObjectType.IntentEvent created_by in
  Ok (mk header intent_id kind None None None).

Definition set_reason (self : t) (reason_ : option bytes) : t :=
  mk (header self) (intent_id self) (kind self) reason_ (result_commit self) (next_intent_id self).

Definition set_result_commit (self : t) (result_commit_ : option IntegrityHash) : t :=
  mk (header self) (intent_id self) (kind self) (reason self) result_commit_ (next_intent_id self).

Definition set_next_intent_id (self : t) (next_intent_id_ : option Z) : t :=
  mk (header self) (intent_id self) (kind self) (reason self) (result_commit self) next_intent_id_.

Definition fmt (uuid_text : Z -> bytes) (self : t) : bytes := str "IntentEvent: " ++ uuid_text (Header.object_id (header self)).

#[export] Instance object `{Serde t} : ObjectTrait t := json_object ObjectType.IntentEvent InvalidObjectInfo.

End IntentEvent.

Module TaskEventKind.

Inductive t : Type :=
| Created
| Running
| Blocked
| Done
| Failed
| Cancelled.

#[global] Instance eq_dec : EqDecision t.
Proof. solve_decision. Defined.

End TaskEventKind.

Module TaskEvent.

Record t : Type := mk {
  header : Header.t;
  task_id : Z;
  kind : TaskEventKind.t;
  reason : option bytes;
  run_id : option Z
}.

Definition new (uuid now : Z) (created_by : ActorRef.t) (task_id : Z) (kind : TaskEventKind.t) : Res bytes t :=
  let! header := Header.new uuid now ObjectType.TaskEvent created_by in
  Ok (mk header task_id kind None None).

Definition set_reason (self : t) (reason_ : option bytes) : t :=
  mk (header self) (task_id self) (kind self) reason_ (run_id self).

Definition set_run_id (self : t) (run_id_ : option Z) : t :=
  mk (header self) (task_id self) (kind self) (reason self) run_id_.

Definition fmt (uuid_text : Z -> bytes) (self : t) : bytes := str "TaskEvent: " ++ uuid_text (Header.object_id (header self)).

#[export] Instance object `{Serde t} : ObjectTrait t := json_object ObjectType.TaskEvent InvalidObjectInfo.

End TaskEvent.

Module RunEventKind.

Inductive t : Type :=
| Created
| Patching
| Validating
| Completed
| Failed
| Checkpointed.

#[global] Instance eq_dec : EqDecision t.
Proof. solve_decision. Defined.

End RunEventKind.

Module RunEvent.

Record t : Type := mk {
  header : Header.t;
  run_id : Z;
  kind : RunEventKind.t;
  reason : option bytes;
  error : option bytes;
  metrics : option Value;
  patchset_id : option Z
}.

Definition new (uuid now : Z) (created_by : ActorRef.t) (run_id : Z) (kind : RunEventKind.t) : Res bytes t :=
  let! header := Header.new uuid now ObjectType.RunEvent created_by in
  Ok (mk header run_id kind None None None None).

Definition set_reason (self : t) (reason_ : option bytes) : t :=
  mk (header self) (run_id self) (kind self) reason_ (error self) (metrics self) (patchset_id self).

Definition set_error (self : t) (error_ : option bytes) : t :=
  mk (header self) (run_id self) (kind self) (reason self) error_ (metrics self) (patchset_id self).

Definition set_metrics (self : t) (metrics_ : option Value) : t :=
  mk (header self) (run_id self) (kind self) (reason self) (error self) metrics_ (patchset_id self).

Definition set_patchset_id (self : t) (patchset_id_ : option Z) : t :=
  mk (header self) (run_id self) (kind self) (reason self) (error self) (metrics self) patchset_id_.

Definition fmt (uuid_text : Z -> bytes) (self : t) : bytes := str "RunEvent: " ++ uuid_text (Header.object_id (header self)).

#[export] Instance object `{Serde t} : ObjectTrait t := json_object ObjectType.RunEvent InvalidObjectInfo.

End RunEvent.

Module PlanStepStatus.

Inductive t : Type :=
| Pending
| Progressing
| Completed
| Failed
| Skipped.

#[global] Instance eq_dec : EqDecision t.
Proof. solve_decision. Defined.

Definition as_str (x : t) : bytes :=
  match x with
  | Pending => str "pending"
  | Progressing => str "progressing"
  | Completed => str "completed"
  | Failed => str "failed"
  | Skipped => str "skipped"
  end.

End PlanStepStatus.

Module PlanStepEvent.

Record t : Type := mk {
  header : Header.t;
  plan_id : Z;
  step_id : Z;
  run_id : Z;
  status : PlanStepStatus.t;
  reason : option bytes;
  consumed_frames : list Z;
  produced_frames : list Z;
  spawned_task_id : option Z;
  outputs : option Value
}.

Definition new (uuid now : Z) (created_by : ActorRef.t) (plan_id step_id run_id : Z) (status : PlanStepStatus.t) : Res bytes t :=
  let! header := Header.new uuid now ObjectType.PlanStepEvent created_by in
  Ok (mk header plan_id step_id run_id status None [] [] None None).

Definition set_reason (self : t) (reason_ : option bytes) : t :=
  mk (header self) (plan_id self) (step_id self) (run_id self) (status self) reason_ (consumed_frames self) (produced_frames self) (spawned_task_id self) (outputs self).

Definition set_consumed_frames (self : t) (consumed_frames_ : list Z) : t :=
  mk (header self) (plan_id self) (step_id self) (run_id self) (status self) (reason self) consumed_frames_ (produced_frames self) (spawned_task_id self) (outputs self).

Definition set_produced_frames (self : t) (produced_frames_ : list Z) : t :=
  mk (header self) (plan_id self) (step_id self) (run_id self) (status self) (reason self) (consumed_frames self) produced_frames_ (spawned_task_id self) (outputs self).

Definition set_spawned_task_id (self : t) (spawned_task_id_ : option Z) : t :=
  mk (header self) (plan_id self) (step_id self) (run_id self) (status self) (reason self) (consumed_frames self) (produced_frames self) spawned_task_id_ (outputs self).

Definition set_outputs (self : t) (outputs_ : option Value) : t :=
  mk (header self) (plan_id self) (step_id self) (run_id self) (status self) (reason self) (consumed_frames self) (produced_frames self) (spawned_task_id self) outputs_.

Definition fmt (uuid_text : Z -> bytes) (self : t) : bytes := str "PlanStepEvent: " ++ uuid_text (Header.object_id (header self)).

#[export] Instance object `{Serde t} : ObjectTrait t := json_object ObjectType.PlanStepEvent InvalidObjectInfo.

End PlanStepEvent.

(** * Usage *)

Module RunUsage.

Record t : Type := mk {
  header : Header.t;
  run_id : Z;
  input_tokens : Z;
  output_tokens : Z;
  total_tokens : Z;
  cost_usd : option Z
}.

Definition new `{Build} (uuid now : Z) (created_by : ActorRef.t) (run_id input_tokens output_tokens : Z) (cost_usd : option Z) : Res bytes t :=
  let! header := Header.new uuid now ObjectType.RunUsage created_by in
  let! total_tokens := add_u64 input_tokens output_tokens in
  Ok (mk header run_id input_tokens output_tokens total_tokens cost_usd).

Definition is_consistent `{Build} (self : t) : Res Empty_set bool :=
  let! sum := add_u64 (input_tokens self) (output_tokens self) in
  Ok (total_tokens self =? sum).

Definition fmt (uuid_text : Z -> bytes) (self : t) : bytes := str "RunUsage: " ++ uuid_text (Header.object_id (header self)).

#[export] Instance object `{Serde t} : ObjectTrait t := json_object ObjectType.RunUsage InvalidObjectInfo.

End RunUsage.

(** * Tools, evidence and decisions *)

(** [Success] is the constructor [Ok] of the source. *)
Module ToolStatus.

Inductive t : Type :=
| Success
| Error.

#[global] Instance eq_dec : EqDecision t.
Proof. solve_decision. Defined.

Definition as_str (x : t) : bytes :=
  match x with
  | Success => str "ok"
  | Error => str "error"
  end.

End ToolStatus.

Module IoFootprint.

Record t : Type := mk {
  paths_read : list bytes;
  paths_written : list bytes
}.

End IoFootprint.

Module ToolInvocation.

Record t : Type := mk {
  header : Header.t;
  run_id : Z;
  tool_name : bytes;
  io_footprint : option IoFootprint.t;
  args : Value;
  status : ToolStatus.t;
  result_summary : option bytes;
  artifacts : list ArtifactRef.t
}.

Definition new (uuid now : Z) (created_by : ActorRef.t) (run_id : Z) (tool_name : bytes) : Res bytes t :=
  let! header := Header.new uuid now ObjectType.ToolInvocation created_by in
  Ok (mk header run_id tool_name None VNull ToolStatus.Success None []).

Definition set_io_footprint (self : t) (io_footprint_ : option IoFootprint.t) : t :=
  mk (header self) (run_id self) (tool_name self) io_footprint_ (args self) (status self) (result_summary self) (artifacts self).

Definition set_args (self : t) (args_ : Value) : t :=
  mk (header self) (run_id self) (tool_name self) (io_footprint self) args_ (status self) (result_summary self) (artifacts self).

Definition set_status (self : t) (status_ : ToolStatus.t) : t :=
  mk (header self) (run_id self) (tool_name self) (io_footprint self) (args self) status_ (result_summary self) (artifacts self).

Definition set_result_summary (self : t) (result_summary_ : option bytes) : t :=
  mk (header self) (run_id self) (tool_name self) (io_footprint self) (args self) (status self) result_summary_ (artifacts self).

Definition add_artifact (self : t) (artifact : ArtifactRef.t) : t :=
  mk (header self) (run_id self) (tool_name self) (io_footprint self) (args self) (status self) (result_summary self) (artifacts self ++ [artifact]).

Definition fmt (uuid_text : Z -> bytes) (self : t) : bytes := str "ToolInvocation: " ++ uuid_text (Header.object_id (header self)).

#[export] Instance object `{Serde t} : ObjectTrait t := json_object ObjectType.ToolInvocation InvalidObjectInfo.

End ToolInvocation.

Module EvidenceKind.

Inductive t : Type :=
| Test
| Lint
| Build
| Other (label : bytes).

#[global] Instance eq_dec : EqDecision t.
Proof. solve_decision. Defined.

Definition fmt (x : t) : bytes :=
  match x with
  | Test => str "test"
  | Lint => str "lint"
  | Build => str "build"
  | Other s => s
  end.

Definition from (s : bytes) : t :=
  if bool_decide (s = str "test") then Test
  else if bool_decide (s = str "lint") then Lint
  else if bool_decide (s = str "build") then Build
  else Other s.

End EvidenceKind.

Module Evidence.

Record t : Type := mk {
  header : Header.t;
  run_id : Z;
  patchset_id : option Z;
  kind : EvidenceKind.t;
  tool : bytes;
  command : option bytes;
  exit_code : option Z;
  summary : option bytes;
  report_artifacts : list ArtifactRef.t
}.

(** [kind] may also be given as text, converted by [EvidenceKind.from]. *)
Definition new (uuid now : Z) (created_by : ActorRef.t) (run_id : Z) (kind : EvidenceKind.t) (tool : bytes) : Res bytes t :=
  let! header := Header.new uuid now ObjectType.Evidence created_by in
  Ok (mk header run_id None kind tool None None None []).

Definition set_patchset_id (self : t) (patchset_id_ : option Z) : t :=
  mk (header self) (run_id self) patchset_id_ (kind self) (tool self) (command self) (exit_code self) (summary self) (report_artifacts self).

Definition set_command (self : t) (command_ : option bytes) : t :=
  mk (header self) (run_id self) (patchset_id self) (kind self) (tool self) command_ (exit_code self) (summary self) (report_artifacts self).

Definition set_exit_code (self : t) (exit_code_ : option Z) : t :=
  mk (header self) (run_id self) (patchset_id self) (kind self) (tool self) (command self) exit_code_ (summary self) (report_artifacts self).

Definition set_summary (self : t) (summary_ : option bytes) : t :=
  mk (header self) (run_id self) (patchset_id self) (kind self) (tool self) (command self) (exit_code self) summary_ (report_artifacts self).

Definition add_report_artifact (self : t) (artifact : ArtifactRef.t) : t :=
  mk (header self) (run_id self) (patchset_id self) (kind self) (tool self) (command self) (exit_code self) (summary self) (report_artifacts self ++ [artifact]).

Definition fmt (uuid_text : Z -> bytes) (self : t) : bytes := str "Evidence: " ++ uuid_text (Header.object_id (header self)).

#[export] Instance object `{Serde t} : ObjectTrait t := json_object ObjectType.Evidence InvalidObjectInfo.

End Evidence.

Module DecisionType.

Inductive t : Type :=
| Commit
| Checkpoint
| Abandon
| Retry
| Rollback
| Other (label : bytes).

#[global] Instance eq_dec : EqDecision t.
Proof. solve_decision. Defined.

Definition fmt (x : t) : bytes :=
  match x with
  | Commit => str "commit"
  | Checkpoint => str "checkpoint"
  | Abandon => str "abandon"
  | Retry => str "retry"
  | Rollback => str "rollback"
  | Other s => s
  end.

Definition from (s : bytes) : t :=
  if bool_decide (s = str "commit") then Commit
  else if bool_decide (s = str "checkpoint") then Checkpoint
  else if bool_decide (s = str "abandon") then Abandon
  else if bool_decide (s = str "retry") then Retry
  else if bool_decide (s = str "rollback") then Rollback
  else Other s.

End DecisionType.

Module Decision.

Record t : Type := mk {
  header : Header.t;
  run_id : Z;
  decision_type : DecisionType.t;
  chosen_patchset_id : option Z;
  result_commit_sha : option IntegrityHash;
  checkpoint_id : option bytes;
  rationale : option bytes
}.

(** [decision_type] may also be given as text, converted by [DecisionType.from]. *)
Definition new (uuid now : Z) (created_by : ActorRef.t) (run_id : Z) (decision_type : DecisionType.t) : Res bytes t :=
  let! header := Header.new uuid now ObjectType.Decision created_by in
  Ok (mk header run_id decision_type None None None None).

Definition set_chosen_patchset_id (self : t) (chosen_patchset_id_ : option Z) : t :=
  mk (header self) (run_id self) (decision_type self) chosen_patchset_id_ (result_commit_sha self) (checkpoint_id self) (rationale self).

Definition set_result_commit_sha (self : t) (result_commit_sha_ : option IntegrityHash) : t :=
  mk (header self) (run_id self) (decision_type self) (chosen_patchset_id self) result_commit_sha_ (checkpoint_id self) (rationale self).

Definition set_checkpoint_id (self : t) (checkpoint_id_ : option bytes) : t :=
  mk (header self) (run_id self) (decision_type self) (chosen_patchset_id self) (result_commit_sha self) checkpoint_id_ (rationale self).

Definition set_rationale (self : t) (rationale_ : option bytes) : t :=
  mk (header self) (run_id self) (decision_type self) (chosen_patchset_id self) (result_commit_sha self) (checkpoint_id self) rationale_.

Definition fmt (uuid_text : Z -> bytes) (self : t) : bytes := str "Decision: " ++ uuid_text (Header.object_id (header self)).

#[export] Instance object `{Serde t} : ObjectTrait t := json_object ObjectType.Decision InvalidObjectInfo.

End Decision.
