(* ===== verification/AiHistory.v ===== *)
(** The history of AI objects: revisions of intents and plans form an acyclic graph, a chain of
    plans stays with one intent, and the records load like the other objects.

    A [history] is the list of the revisions stored so far, oldest first.  A draft is what the
    constructors and the operations before storing can make of a fresh identifier and of the
    identifiers in the history. *)

From Stdlib Require Import ZArith Lia String Relations.
From stdpp Require Import base tactics list numbers option gmap relations.
From S2P Require Import Prelude Stream Text Errors ObjectTypes PackUtils Hash Inflate PackIndex Signature Tree Commit Tag Objects Integrity AiSnapshots AiEvents.

(** * Histories *)

Class Revision (A : Type) := {
  rev_id : A -> Z;
  rev_parents : A -> list Z
}.

#[export] Instance Intent_revision : Revision Intent.t := {|
  rev_id := fun i => Header.object_id (Intent.header i);
  rev_parents := Intent.parents
|}.

#[export] Instance Plan_revision : Revision Plan.t := {|
  rev_id := fun p => Header.object_id (Plan.header p);
  rev_parents := Plan.parents
|}.

Section history.
Context {A : Type} `{Revision A}.

Definition ids (l : list A) : list Z := map rev_id l.

Lemma ids_elem a l : a ∈ l -> rev_id a ∈ ids l.
Proof. intros Ha. unfold ids. by apply (list_elem_of_fmap_2 rev_id). Qed.

Inductive history (draft : list A -> A -> Prop) : list A -> Prop :=
| history_empty : history draft []
| history_store l a : history draft l -> draft l a -> history draft (l ++ [a]).

(** [x] names a revision of the history that has the parent [y]. *)
Definition derives (l : list A) (x y : Z) : Prop := exists a, a ∈ l /\ rev_id a = x /\ y ∈ rev_parents a.

(** A draft has an identifier of its own, and parents that are stored. *)
Definition grounded (l : list A) (a : A) : Prop := rev_id a ∉ ids l /\ rev_parents a ⊆ ids l.

(** Every parent was stored before its child. *)
Definition ordered (l : list A) : Prop :=
  NoDup (ids l) /\ forall k a, l !! k = Some a -> rev_parents a ⊆ ids (take k l).

Lemma history_ordered draft l : (forall l a, draft l a -> grounded l a) -> history draft l -> ordered l.
Proof.
  intros Hg Hh. induction Hh as [|l a Hh [Hnd Hp] Ha]; [split; [constructor|done]|].
  destruct (Hg _ _ Ha) as [Hid Hpar]. split.
  - unfold ids. rewrite map_app. apply NoDup_app. split_and!; [done| |apply NoDup_singleton].
    intros x Hx ->%list_elem_of_singleton. done.
  - intros k b Hk. destruct (decide (k < length l)%nat).
    + rewrite lookup_app_l in Hk by done. rewrite take_app_le by lia. by apply Hp.
    + apply lookup_app_Some in Hk as [Hk|[Hlen Hk]]; [by apply lookup_lt_Some in Hk|]. apply list_lookup_singleton_Some in Hk as [Hk <-].
      rewrite take_app_ge by lia. rewrite Hk. cbn. by rewrite app_nil_r.
Qed.

(** The place of the revision named [x]. *)
Definition stored_at (l : list A) (x : Z) (k : nat) : Prop := exists a, l !! k = Some a /\ rev_id a = x.

Lemma derives_earlier l x y k : ordered l -> derives l x y -> stored_at l x k -> exists j, (j < k)%nat /\ stored_at l y j.
Proof.
  intros [Hnd Hp] (a & Ha & Hx & Hy) (b & Hb & Hxb). apply list_elem_of_lookup in Ha as [i Hi].
  assert (i = k) as ->.
  { apply (NoDup_lookup (ids l) i k x); [done| |]; unfold ids; rewrite list_lookup_fmap; [rewrite Hi|rewrite Hb]; cbn; congruence. }
  apply (Hp k a Hi) in Hy. apply list_elem_of_fmap in Hy as (c & -> & Hc). apply list_elem_of_lookup in Hc as [j Hj].
  apply lookup_take_Some in Hj as [Hj Hlt]. exists j. split; [done|]. by exists c.
Qed.

Lemma derives_stored l x y : derives l x y -> exists k, stored_at l x k.
Proof. intros (a & Ha & Hx & _). apply list_elem_of_lookup in Ha as [k Hk]. by exists k, a. Qed.

Lemma ancestors_earlier l x y k : ordered l -> tc (derives l) x y -> stored_at l x k -> exists j, (j < k)%nat /\ stored_at l y j.
Proof.
  intros Ho Ht. revert k. induction Ht as [x y Hxy|x y z Hxy _ IH]; intros k Hk.
  - by eapply derives_earlier.
  - destruct (derives_earlier l x y k Ho Hxy Hk) as (j & Hj & Hy). destruct (IH j Hy) as (i & Hi & Hz). exists i. split; [lia|done].
Qed.

Lemma ordered_acyclic l x : ordered l -> ~ tc (derives l) x x.
Proof.
  intros Ho Hc. assert (Hs : exists k, stored_at l x k) by (inversion Hc; by eapply derives_stored). destruct Hs as [k Hk].
  revert Hk. induction k as [k IH] using lt_wf_ind. intros Hk.
  destruct (ancestors_earlier l x x k Ho Hc Hk) as (j & Hj & Hx). by apply (IH j).
Qed.

End history.

(** * Drafts *)

Inductive Intent_draft (l : list Intent.t) : Intent.t -> Prop :=
| intent_root uuid now created_by prompt i :
    uuid ∉ ids l -> Intent.new uuid now created_by prompt = Ok i -> Intent_draft l i
| intent_chain uuid now created_by prompt parent_ids i :
    uuid ∉ ids l -> parent_ids ⊆ ids l -> Intent.new_revision_chain uuid now created_by prompt parent_ids = Ok i -> Intent_draft l i
| intent_from uuid now created_by prompt parent i :
    uuid ∉ ids l -> parent ∈ l -> Intent.new_revision_from uuid now created_by prompt parent = Ok i -> Intent_draft l i
| intent_add_parent i p : Intent_draft l i -> p ∈ ids l -> Intent_draft l (Intent.add_parent i p)
| intent_set_parents i ps : Intent_draft l i -> ps ⊆ ids l -> Intent_draft l (Intent.set_parents i ps)
| intent_set_spec i spec : Intent_draft l i -> Intent_draft l (Intent.set_spec i spec)
| intent_set_frames i frames : Intent_draft l i -> Intent_draft l (Intent.set_analysis_context_frames i frames).

Inductive Plan_draft (uuid_text : Z -> bytes) (l : list Plan.t) : Plan.t -> Prop :=
| plan_root uuid now created_by intent p :
    uuid ∉ ids l -> Plan.new uuid now created_by intent = Ok p -> Plan_draft uuid_text l p
| plan_chain uuid now created_by parents p :
    uuid ∉ ids l -> parents ⊆ l -> Plan.new_revision_chain uuid_text uuid now created_by parents = Ok p -> Plan_draft uuid_text l p
| plan_revision uuid now created_by parent p :
    uuid ∉ ids l -> parent ∈ l -> Plan.new_revision uuid_text uuid now parent created_by = Ok p -> Plan_draft uuid_text l p
| plan_from uuid now created_by parent p :
    uuid ∉ ids l -> parent ∈ l -> Plan.new_revision_from uuid_text uuid now created_by parent = Ok p -> Plan_draft uuid_text l p
| plan_add_parent p x : Plan_draft uuid_text l p -> x ∈ ids l -> Plan_draft uuid_text l (Plan.add_parent p x)
| plan_set_parents p xs : Plan_draft uuid_text l p -> xs ⊆ ids l -> Plan_draft uuid_text l (Plan.set_parents p xs)
| plan_set_frames p frames : Plan_draft uuid_text l p -> Plan_draft uuid_text l (Plan.set_context_frames p frames)
| plan_add_step p step : Plan_draft uuid_text l p -> Plan_draft uuid_text l (Plan.add_step p step).

(** ** What the loops over parents make *)

(** The parents after a list of identifiers was linked: the old ones, then the new ones that are
    neither there nor the revision itself. *)
Fixpoint linked (self : Z) (parents new : list Z) : list Z :=
  match new with
  | [] => parents
  | x :: new => linked self (if bool_decide (x = self) || bool_decide (x ∈ parents) then parents else parents ++ [x]) new
  end.

Lemma linked_spec self parents new : NoDup parents -> self ∉ parents ->
  NoDup (linked self parents new) /\ self ∉ linked self parents new
  /\ (forall x, x ∈ linked self parents new <-> x ∈ parents \/ (x ∈ new /\ x <> self)).
Proof.
  revert parents. induction new as [|y new IH]; intros parents Hnd Hself; cbn [linked].
  - split_and!; [done|done|]. intros x. split; [by left|]. intros [?|[[]%not_elem_of_nil _]]. done.
  - destruct (decide (y = self)) as [->|Hy]; [|destruct (decide (y ∈ parents)) as [Hin|Hnin]].
    1-2: rewrite ?(bool_decide_eq_true_2 _ eq_refl), ?(bool_decide_eq_false_2 _ Hy), ?(bool_decide_eq_true_2 _ Hin); cbn [orb];
      destruct (IH parents Hnd Hself) as (H1 & H2 & H3); (split_and!; [done|done|]); set_solver.
    rewrite (bool_decide_eq_false_2 _ Hy), (bool_decide_eq_false_2 _ Hnin). cbn [orb].
    destruct (IH (parents ++ [y])) as (H1 & H2 & H3); [apply NoDup_app; split_and!; [done|set_solver|apply NoDup_singleton]|set_solver|].
    split_and!; [done|done|]. set_solver.
Qed.

Lemma intent_add_parent_linked i x :
  Intent.add_parent i x = Intent.set_parents i (linked (rev_id i) (Intent.parents i) [x]).
Proof. unfold Intent.add_parent. cbn. destruct (bool_decide (x = _)); [by destruct i|]. destruct (bool_decide (x ∈ _)); by destruct i. Qed.

Lemma linked_app self parents a b : linked self parents (a ++ b) = linked self (linked self parents a) b.
Proof. revert parents. induction a as [|x a IH]; intros parents; cbn [linked app]; [done|apply IH]. Qed.

Lemma intent_linked new i : fold_left Intent.add_parent new i = Intent.set_parents i (linked (rev_id i) (Intent.parents i) new).
Proof.
  revert i. induction new as [|x new IH]; intros i; cbn [fold_left]; [by destruct i|].
  rewrite IH, intent_add_parent_linked. destruct i. cbn. done.
Qed.

Lemma plan_add_parent_linked p x : Plan.add_parent p x = Plan.set_parents p (linked (rev_id p) (Plan.parents p) [x]).
Proof. unfold Plan.add_parent. cbn. destruct (bool_decide (x = _)); [by destruct p|]. destruct (bool_decide (x ∈ _)); by destruct p. Qed.

(** Linking plans succeeds when they belong to the intent, and else fails at the first that does not. *)
Lemma plan_linked uuid_text intent ps p :
  Forall (fun q => Plan.intent q = intent) ps ->
  Plan.link_parents uuid_text intent p ps = Ok (Plan.set_parents p (linked (rev_id p) (Plan.parents p) (ids ps))).
Proof.
  revert p. induction ps as [|q ps IH]; intros p Hps; cbn [Plan.link_parents]; [by destruct p|].
  apply Forall_cons_1 in Hps as [Hq Hps]. rewrite (bool_decide_eq_true_2 _ Hq). cbn [negb]. rewrite IH by done.
  rewrite plan_add_parent_linked. destruct p. cbn. done.
Qed.

Lemma plan_refused uuid_text intent before q after p :
  Forall (fun q => Plan.intent q = intent) before -> Plan.intent q <> intent ->
  Plan.link_parents uuid_text intent p (before ++ q :: after)
    = Err (str "plan parents must belong to the same intent: expected " ++ uuid_text intent ++ str ", got " ++ uuid_text (Plan.intent q)).
Proof.
  revert p. induction before as [|b before IH]; intros p Hb Hq; cbn [Plan.link_parents app].
  - by rewrite (bool_decide_eq_false_2 _ Hq).
  - apply Forall_cons_1 in Hb as [Hb Hbs]. rewrite (bool_decide_eq_true_2 _ Hb). cbn [negb]. by apply IH.
Qed.

Lemma same_or_first_other intent (ps : list Plan.t) :
  Forall (fun q => Plan.intent q = intent) ps
  \/ exists before q after, ps = before ++ q :: after /\ Forall (fun q => Plan.intent q = intent) before /\ Plan.intent q <> intent.
Proof.
  induction ps as [|p ps IH]; [by left|]. destruct (decide (Plan.intent p = intent)) as [Hp|Hp].
  - destruct IH as [IH|(before & q & after & -> & Hb & Hq)]; [left; by constructor|].
    right. exists (p :: before), q, after. split_and!; [done|by constructor|done].
  - right. by exists [], p, ps.
Qed.

(** A chain that succeeds has only parents of its intent. *)
Lemma plan_chain_inv uuid_text uuid now created_by ps p :
  Plan.new_revision_chain uuid_text uuid now created_by ps = Ok p ->
  exists first rest, ps = first :: rest /\ Forall (fun q => Plan.intent q = Plan.intent first) ps
    /\ p = Plan.mk (Header.mk uuid ObjectType.Plan CURRENT_HEADER_VERSION now created_by) (Plan.intent first) (linked uuid [] (ids ps)) [] [].
Proof.
  unfold Plan.new_revision_chain. destruct ps as [|first rest]; [discriminate|]. cbn [head ok_or rbind]. unfold Plan.new, Header.new. cbn [rbind].
  intros Hl. exists first, rest. split; [done|].
  destruct (same_or_first_other (Plan.intent first) (first :: rest)) as [Hs|(before & q & after & Heq & Hb & Hq)].
  - rewrite plan_linked in Hl by done. split; [done|]. by injection Hl as <-.
  - rewrite Heq, plan_refused in Hl by done. discriminate.
Qed.

(** ** Drafts are grounded *)

Lemma linked_incl self new : linked self [] new ⊆ new.
Proof. destruct (linked_spec self [] new) as (_ & _ & H); [constructor|set_solver|]. intros x Hx. apply H in Hx. set_solver. Qed.

Lemma linked_one_incl self parents x (l : list Z) : parents ⊆ l -> x ∈ l -> linked self parents [x] ⊆ l.
Proof. cbn. intros. destruct (_ || _); set_solver. Qed.

Lemma intent_chain_grounded uuid now by_ prompt ps i l : uuid ∉ ids l -> ps ⊆ ids l ->
  Intent.new_revision_chain uuid now by_ prompt ps = Ok i -> grounded l i.
Proof.
  intros Hu Hps Hi. unfold Intent.new_revision_chain in Hi. cbn [Intent.new Header.new rbind] in Hi. injection Hi as <-.
  rewrite intent_linked. split; [done|]. cbn. etrans; [apply linked_incl|done].
Qed.

Lemma intent_draft_grounded l i : Intent_draft l i -> grounded l i.
Proof.
  induction 1 as [uuid now by_ prompt i Hu Hi|uuid now by_ prompt ps i Hu Hps Hi|uuid now by_ prompt q i Hu Hq Hi
    |i p _ [IH1 IH2] Hp|i ps _ [IH1 IH2] Hps|i sp _ IH|i fr _ IH]; try exact IH.
  - injection Hi as <-. split; [done|]. cbn. set_solver.
  - by eapply intent_chain_grounded.
  - eapply intent_chain_grounded; [done| |exact Hi]. intros x ->%list_elem_of_singleton. exact (ids_elem q l Hq).
  - rewrite intent_add_parent_linked. split; [done|]. by apply linked_one_incl.
  - by split.
Qed.

Lemma plan_chain_grounded uuid_text uuid now by_ ps p l : uuid ∉ ids l -> ps ⊆ l ->
  Plan.new_revision_chain uuid_text uuid now by_ ps = Ok p -> grounded l p.
Proof.
  intros Hu Hps (first & rest & _ & _ & ->)%plan_chain_inv. split; [done|]. cbn. etrans; [apply linked_incl|].
  intros x (q & -> & Hq)%list_elem_of_fmap. by apply ids_elem, Hps.
Qed.

Lemma plan_draft_grounded uuid_text l p : Plan_draft uuid_text l p -> grounded l p.
Proof.
  induction 1 as [uuid now by_ intent p Hu Hp|uuid now by_ ps p Hu Hps Hp|uuid now by_ q p Hu Hq Hp|uuid now by_ q p Hu Hq Hp
    |p x _ [IH1 IH2] Hx|p xs _ [IH1 IH2] Hxs|p fr _ IH|p st _ IH]; try exact IH.
  - injection Hp as <-. split; [done|]. cbn. set_solver.
  - by eapply plan_chain_grounded.
  - eapply plan_chain_grounded; [done| |exact Hp]. set_solver.
  - eapply plan_chain_grounded; [done| |exact Hp]. set_solver.
  - rewrite plan_add_parent_linked. split; [done|]. by apply linked_one_incl.
  - by split.
Qed.

(** * Theorems *)


(** what deriving a plan from other plans does, on every list of parents: without a parent it is
    refused; with a parent of another intent than the first one it is refused, and the message
    names the first such intent; otherwise the new plan belongs to that intent, has the given
    identifier and creator, no steps and no frames, and its parents are the given plans, each
    once and without the plan itself. *)
Theorem plan_revision_exact (uuid_text : Z -> bytes) (uuid now : Z) (created_by : ActorRef.t) (parents : list Plan.t) :
  let r := Plan.new_revision_chain uuid_text uuid now created_by parents in
  match parents with
  | [] => r = Err (str "plan revision chain requires at least one parent")
  | first :: _ =>
      (exists before q after, parents = before ++ q :: after /\ Forall (fun p => Plan.intent p = Plan.intent first) before
         /\ Plan.intent q <> Plan.intent first
         /\ r = Err (str "plan parents must belong to the same intent: expected " ++ uuid_text (Plan.intent first)
                       ++ str ", got " ++ uuid_text (Plan.intent q)))
      \/ (Forall (fun p => Plan.intent p = Plan.intent first) parents /\ exists links,
            r = Ok (Plan.mk (Header.mk uuid ObjectType.Plan CURRENT_HEADER_VERSION now created_by) (Plan.intent first) links [] [])
            /\ NoDup links /\ forall x, x ∈ links <-> (exists p, p ∈ parents /\ Header.object_id (Plan.header p) = x) /\ x <> uuid)
  end.
Proof.
  destruct parents as [|first rest]; [done|]. cbn zeta. unfold Plan.new_revision_chain. cbn [head ok_or rbind]. unfold Plan.new, Header.new. cbn [rbind].
  destruct (same_or_first_other (Plan.intent first) (first :: rest)) as [Hs|(before & q & after & Heq & Hb & Hq)].
  - right. split; [done|]. rewrite plan_linked by done. cbn -[linked ids].
    destruct (linked_spec uuid [] (ids (first :: rest))) as (Hnd & _ & Hin); [constructor|set_solver|].
    eexists. split; [done|]. split; [done|]. intros x. rewrite Hin, elem_of_nil. unfold ids. rewrite list_elem_of_fmap. cbn. split.
    + intros [[]|[(p & -> & Hp) Hx]]. split; [by exists p|done].
    + intros [(p & Hp & <-) Hx]. right. split; [by exists p|done].
  - left. exists before, q, after. split_and!; [done|done|done|]. rewrite Heq at 1. by apply plan_refused.
Qed.

(** * Records *)

(** The JSON objects keep the promise of [ObjectLaws], by which they load through the inflating
    reader, as far as their JSON form reads back. *)
Lemma json_object_laws {A} `{Serde A} (ty : ObjectType.t) (error : bytes -> GitError) (obj_id : A -> ObjectHash.t) (wf : A -> Prop) :
  ObjectType.is_ai_object ty = true ->
  (forall a, wf a -> exists v, json_to_vec a = Ok v /\ json_from_slice v = Ok a) ->
  @ObjectLaws A (json_object ty error) obj_id wf.
Proof.
  intros Hty Hserde. split.
  - intros a Ha. destruct (Hserde a Ha) as (v & Hv & Hr). exists v. cbn. by rewrite Hv, Hr.
  - intros a. cbn. apply to_bytes_named. by right.
Qed.

(** A label prints back to the text it was read from. *)
Lemma labels_print_back (s : bytes) :
  (exists g, GoalType.from_str s = Ok g /\ GoalType.as_str g = s)
  /\ EvidenceKind.fmt (EvidenceKind.from s) = s /\ DecisionType.fmt (DecisionType.from s) = s.
Proof.
  unfold GoalType.from_str, EvidenceKind.from, DecisionType.from.
  split_and!; repeat (case_bool_decide; [subst s; eauto|]); eauto.
Qed.

(** The totals of a new usage record are consistent, in the build that panics on overflow and in the
    one that wraps; in the latter the total of a large record is below its parts. *)
Lemma run_usage_consistent `{Build} uuid now created_by run_id input output cost :
  0 <= input < 2 ^ 64 -> 0 <= output < 2 ^ 64 ->
  match RunUsage.new uuid now created_by run_id input output cost with
  | Ok u => RunUsage.is_consistent u = Ok true
            /\ (input + output < 2 ^ 64 -> RunUsage.total_tokens u = input + output)
            /\ (2 ^ 64 <= input + output -> RunUsage.total_tokens u < input)
  | Panic => 2 ^ 64 <= input + output
  | _ => False
  end.
Proof.
  intros Hi Ho. unfold RunUsage.new, Header.new, RunUsage.is_consistent, add_u64. cbn [rbind].
  destruct (input + output <? 2 ^ 64) eqn:E; [apply Z.ltb_lt in E|apply Z.ltb_ge in E]; cbn.
  - rewrite (proj2 (Z.ltb_lt _ _) E). cbn. rewrite Z.eqb_refl. split_and!; [done|done|lia].
  - unfold overflow. destruct overflow_checks; cbn; [done|]. rewrite (proj2 (Z.ltb_ge _ _) E). cbn.
    rewrite Z.eqb_refl. split_and!; [done|lia|]. intros _. unfold as_u64.
    rewrite <- (Z.mod_unique (input + output) (2 ^ 64) 1 (input + output - 2 ^ 64)) by lia. lia.
Qed.

(** ** Concrete histories *)

Definition alice : ActorRef.t := ActorRef.mk ActorKind.Human (str "alice") None.

Definition intent_1 : Intent.t := Eval cbv in match Intent.new 1 0 alice (str "fix") with Ok i => i | _ => Intent.mk (Header.mk 0 ObjectType.Intent 0 0 alice) [] [] None [] end.
Definition intent_2 : Intent.t := Eval cbv in match Intent.new_revision_from 2 0 alice (str "fix it") intent_1 with Ok i => i | _ => intent_1 end.
Definition plan_1 : Plan.t := Eval cbv in match Plan.new 5 0 alice 2 with Ok p => p | _ => Plan.mk (Header.mk 0 ObjectType.Plan 0 0 alice) 0 [] [] [] end.
Definition plan_2 : Plan.t := Eval cbv in match Plan.new_revision_chain (fun _ => []) 6 0 alice [plan_1; plan_1] with Ok p => p | _ => plan_1 end.

