(* ===== verification/PktLine.v ===== *)
(** Packet lines, [src/protocol/utils.rs]: reading and writing them, the whitespace
    tokenizer, the reply builder and the subsequence search.  A [&mut Bytes] is a list of
    bytes that is returned with what is left of it; a [BytesMut] is one that is returned
    extended. *)

From Stdlib Require Import ZArith Lia String.
From stdpp Require Import base tactics list numbers option gmap.
From S2P Require Import Prelude Text.

Inductive TransportProtocol : Type := Local | Http | Ssh | Git.

#[export] Instance TransportProtocol_eq_dec : EqDecision TransportProtocol.
Proof. solve_decision. Defined.

Definition PKT_LINE_END_MARKER : bytes := str "0000".

(** * Hexadecimal numbers *)

(** [{n:x}], then padded with zeros to four digits: [{n:04x}]. *)
Fixpoint hex_loop (fuel : nat) (n : Z) (acc : bytes) : bytes :=
  match fuel with
  | O => acc
  | S fuel =>
      let acc := hex_digit (n mod 16) :: acc in
      if n / 16 =? 0 then acc else hex_loop fuel (n / 16) acc
  end.

Definition show_hex04 (n : Z) : bytes :=
  let digits := hex_loop (S (Z.to_nat (Z.log2 n))) n [] in
  repeat 48 (4 - length digits) ++ digits.

(** [usize::from_str_radix(s, 16)] of at most sixteen digits: an optional [+]. *)
Fixpoint hex_value (value : Z) (s : bytes) : option Z :=
  match s with
  | [] => Some value
  | c :: s => d ← hex_val c; hex_value (value * 16 + d) s
  end.

Definition from_str_radix16 (s : bytes) : option Z :=
  match s with
  | [] | [43] | [45] => None
  | 43 :: s => hex_value 0 s
  | s => hex_value 0 s
  end.

(** * Operations *)

(** The bytes consumed and the payload, and what is left of the buffer. *)
Definition read_pkt_line (b : bytes) : (Z * bytes) * bytes :=
  if bool_decide (b = []) then ((0, []), b)
  else if blen b <? 4 then ((0, []), b)
  else
    let pkt_length := slice b 0 4 in
    if negb (utf8_valid pkt_length) then ((0, []), b)
    else
      match from_str_radix16 pkt_length with
      | None => ((0, []), b)
      | Some pkt_length =>
          if pkt_length =? 0 then ((4, []), drop 4 b)
          else if pkt_length <? 4 then ((0, []), b)
          else if blen b <? pkt_length then ((0, []), b)
          else
            let b := drop 4 b in
            let data_length := pkt_length - 4 in
            ((pkt_length, take (Z.to_nat data_length) b), drop (Z.to_nat data_length) b)
      end.

Definition add_pkt_line_string (pkt_line_stream buf_str : bytes) : bytes :=
  let buf_str_length := blen buf_str + 4 in
  (pkt_line_stream ++ show_hex04 buf_str_length) ++ buf_str.

Definition is_ascii_whitespace (c : Z) : bool := (c =? 9) || (c =? 10) || (c =? 12) || (c =? 13) || (c =? 32).

Fixpoint until_loop (b buf : bytes) : bytes * bytes :=
  match b with
  | [] => (buf, [])
  | c :: b => if is_ascii_whitespace c || (c =? 0) then (buf, b) else until_loop b (buf ++ [c])
  end.

Definition read_until_white_space (b : bytes) : bytes * bytes :=
  let '(buf, b) := until_loop b [] in
  (if utf8_valid buf then buf else [], b).

Definition build_smart_reply (transport_protocol : TransportProtocol) (ref_list : list bytes) (service : bytes) : bytes :=
  let pkt_line_stream :=
    if bool_decide (transport_protocol = Http)
    then add_pkt_line_string [] (str "# service=" ++ service ++ [10]) ++ PKT_LINE_END_MARKER
    else [] in
  fold_left add_pkt_line_string ref_list pkt_line_stream ++ PKT_LINE_END_MARKER.

(** [windows(0)] panics; [windows(n)] of a shorter slice is empty. *)
Fixpoint position_window (haystack needle : bytes) : option Z :=
  if blen haystack <? blen needle then None
  else if bool_decide (take (length needle) haystack = needle) then Some 0
  else match haystack with
       | [] => None
       | _ :: haystack => i ← position_window haystack needle; Some (1 + i)
       end.

Definition search_subsequence (haystack needle : bytes) : Res Empty_set (option Z) :=
  if bool_decide (needle = []) then Panic else Ok (position_window haystack needle).

(** * Lengths *)

Lemma hex_loop_acc fuel n acc : hex_loop fuel n acc = hex_loop fuel n [] ++ acc.
Proof.
  revert n acc. induction fuel as [|fuel IH]; intros n acc; [done|]. cbn [hex_loop].
  destruct (n / 16 =? 0); [done|]. rewrite IH, (IH _ [_]), <- app_assoc. done.
Qed.

Lemma log2_div16 n : 16 <= n -> Z.log2 (n / 16) < Z.log2 n.
Proof.
  intros Hn. change 16 with (2 ^ 4). rewrite <- Z.shiftr_div_pow2 by lia. rewrite Z.log2_shiftr by lia.
  assert (4 <= Z.log2 n) by (apply Z.log2_le_pow2; lia). lia.
Qed.

(** The digits of a number: hexadecimal, as many as it takes, and they read back. *)
Lemma hex_loop_spec fuel n :
  0 <= n -> (Z.to_nat (Z.log2 n) < fuel)%nat ->
  let d := hex_loop fuel n [] in
  Forall is_hex_lower d /\ d <> []
  /\ (forall k, 0 < k -> n < 16 ^ k -> blen d <= k) /\ (forall v, hex_value v d = Some (v * 16 ^ blen d + n)).
Proof.
  revert n. induction fuel as [|fuel IH]; intros n Hn Hf; [lia|]. cbn [hex_loop].
  pose proof (Z.mod_pos_bound n 16 ltac:(lia)) as Hm. pose proof (Z.div_mod n 16 ltac:(lia)) as Hdm.
  destruct (hex_val_digit (n mod 16) ltac:(lia)) as [Hv Hl]. cbn zeta.
  destruct (n / 16 =? 0) eqn:E.
  - split_and!; [by apply Forall_singleton|done|intros k Hk _; rewrite blen_cons, blen_nil; lia|].
    intros v. cbn [hex_value]. rewrite Hv. cbn. rewrite blen_cons, blen_nil. f_equal. lia.
  - assert (Hd : 0 <= n / 16) by (apply Z.div_pos; lia).
    pose proof (log2_div16 n ltac:(lia)). pose proof (Z.log2_nonneg (n / 16)).
    destruct (IH (n / 16) Hd ltac:(lia)) as (H1 & H2 & H3 & H4). rewrite hex_loop_acc. set (d := hex_loop fuel (n / 16) []) in *.
    split_and!.
    + apply Forall_app. split; [done|]. by apply Forall_singleton.
    + by destruct d.
    + intros k Hk Hlt. rewrite blen_app, blen_cons, blen_nil. destruct (Z.eq_dec k 1) as [->|]; [lia|].
      assert (blen d <= k - 1); [|lia]. apply H3; [lia|]. apply Z.div_lt_upper_bound; [lia|].
      rewrite <- Z.pow_succ_r by lia. by replace (Z.succ (k - 1)) with k by lia.
    + assert (Happ : forall s v x, hex_value v (s ++ [x]) = w ← hex_value v s; c ← hex_val x; Some (w * 16 + c)).
      { clear. induction s as [|y s IHs]; intros v x; cbn [app hex_value]; [cbn; by destruct (hex_val x)|].
        destruct (hex_val y); cbn; [apply IHs|done]. }
      intros v. rewrite Happ, H4, Hv. cbn. f_equal. rewrite blen_app, blen_cons, blen_nil.
      rewrite Z.pow_add_r by (pose proof (blen_nonneg d); lia). lia.
Qed.

Lemma hex_value_zeros n s v : hex_value v (repeat 48 n ++ s) = hex_value (v * 16 ^ Z.of_nat n) s.
Proof.
  revert v. induction n as [|n IH]; intros v; [cbn [repeat app]; by rewrite Z.pow_0_r, Z.mul_1_r|].
  cbn [repeat app hex_value]. change (hex_val 48) with (Some 0). cbn [mbind option_bind]. rewrite IH. f_equal.
  rewrite Nat2Z.inj_succ, Z.pow_succ_r by lia. lia.
Qed.

Lemma from_str_radix16_lower s : s <> [] -> Forall is_hex_lower s -> from_str_radix16 s = hex_value 0 s.
Proof.
  intros Hne Hs. destruct s as [|c s]; [done|]. apply Forall_cons_1 in Hs as [Hc _]. unfold is_hex_lower in Hc.
  unfold from_str_radix16. assert (c <> 43 /\ c <> 45) as [H43 H45] by lia.
  destruct c as [|c|c]; try done. do 6 (destruct c as [c|c|]; try done).
Qed.

(** The length field of a line that fits, and of one that does not. *)
Lemma show_hex04_reads n :
  0 <= n < 65536 -> blen (show_hex04 n) = 4 /\ Forall is_hex_lower (show_hex04 n) /\ from_str_radix16 (show_hex04 n) = Some n.
Proof.
  intros Hn. unfold show_hex04. destruct (hex_loop_spec (S (Z.to_nat (Z.log2 n))) n ltac:(lia) ltac:(lia)) as (H1 & H2 & H3 & H4).
  set (d := hex_loop _ n []) in *. specialize (H3 4 ltac:(lia) ltac:(lia)).
  assert (Hl : Forall is_hex_lower (repeat 48 (4 - length d) ++ d)).
  { apply Forall_app. split; [|done]. apply Forall_forall. intros x Hx. apply list_elem_of_In, repeat_spec in Hx. unfold is_hex_lower. lia. }
  split; [unfold blen in *; rewrite length_app, repeat_length; lia|]. split; [done|].
  rewrite from_str_radix16_lower by (done || by destruct (repeat 48 (4 - length d)), d). by rewrite hex_value_zeros, H4.
Qed.

(** Four digits hold less than 65536. *)
Lemma hex_value_bound s v w : 0 <= v -> hex_value v s = Some w -> 0 <= w < (v + 1) * 16 ^ blen s.
Proof.
  revert v. induction s as [|c s IH]; intros v Hv Hs; cbn [hex_value] in Hs.
  - injection Hs as <-. change (blen (@nil Z)) with 0. lia.
  - destruct (hex_val c) as [d|] eqn:Ed; [|discriminate]. cbn in Hs.
    assert (0 <= d < 16) by (unfold hex_val in Ed; repeat case_match; simplify_eq; lia).
    apply IH in Hs; [|lia]. rewrite blen_cons, Z.pow_add_r by (pose proof (blen_nonneg s); lia). change (16 ^ 1) with 16.
    pose proof (Z.pow_pos_nonneg 16 (blen s) ltac:(lia) (blen_nonneg s)). nia.
Qed.

Lemma from_str_radix16_bound s n : blen s = 4 -> from_str_radix16 s = Some n -> 0 <= n < 65536.
Proof.
  intros Hl Hs. assert (Hb : exists t, blen t <= 4 /\ hex_value 0 t = Some n).
  { unfold from_str_radix16 in Hs. repeat case_match; try discriminate; simplify_eq;
      (eexists; split; [|exact Hs]); rewrite ?blen_cons in *; lia. }
  destruct Hb as (t & Ht & Hv). apply hex_value_bound in Hv; [|lia]. pose proof (blen_nonneg t).
  assert (16 ^ blen t <= 16 ^ 4) by (apply Z.pow_le_mono_r; lia). lia.
Qed.

(** * Reading *)

Lemma read_pkt_line_small (b : bytes) : (read_pkt_line b).1.1 < 65536.
Proof.
  unfold read_pkt_line. case_bool_decide; [cbn; lia|]. destruct (blen b <? 4) eqn:E4; [cbn; lia|].
  destruct (negb _); [cbn; lia|]. destruct (from_str_radix16 (slice b 0 4)) as [n|] eqn:En; [|cbn; lia].
  apply from_str_radix16_bound in En; [|rewrite blen_slice; lia]. repeat case_match; cbn; lia.
Qed.

(** reading a packet line stays within the buffer: either nothing is consumed and nothing
    returned, or the line has a length from 4 to 65535, which is at most that of the buffer,
    and is taken off its front; the payload is what follows the length field, and empty
    for the flush marker. *)
Theorem read_pkt_line_bounds (b : bytes) :
  let '((n, data), rest) := read_pkt_line b in
  (n = 0 /\ data = [] /\ rest = b)
  \/ (4 <= n < 65536 /\ n <= blen b /\ rest = drop (Z.to_nat n) b
      /\ (data = slice b 4 n \/ n = 4 /\ data = [] /\ from_str_radix16 (slice b 0 4) = Some 0)).
Proof.
  unfold read_pkt_line. case_bool_decide; [by left|]. destruct (blen b <? 4) eqn:E4; [by left|].
  destruct (negb _); [by left|]. destruct (from_str_radix16 (slice b 0 4)) as [n|] eqn:En; [|by left].
  apply from_str_radix16_bound in En as Hn; [|rewrite blen_slice; lia].
  destruct (n =? 0) eqn:E0; [apply Z.eqb_eq in E0 as ->; right; split_and!; try lia; [done|by right]|].
  destruct (n <? 4) eqn:E5; [by left|]. destruct (blen b <? n) eqn:E6; [by left|]. right.
  split_and!; try lia.
  - rewrite drop_drop. f_equal. lia.
  - left. unfold slice. done.
Qed.

Lemma ascii_hex s : Forall is_hex_lower s -> ascii s.
Proof. intros Hs. eapply Forall_impl; [exact Hs|]. unfold is_hex_lower. cbn. intros. lia. Qed.

(** A line that fits is read back, whatever follows. *)
Lemma read_pkt_line_add (data rest : bytes) :
  blen data + 4 < 65536 -> read_pkt_line (add_pkt_line_string [] data ++ rest) = ((blen data + 4, data), rest).
Proof.
  intros Hl. pose proof (blen_nonneg data). pose proof (blen_nonneg rest). unfold add_pkt_line_string. cbn [app].
  destruct (show_hex04_reads (blen data + 4) ltac:(lia)) as (H1 & H2 & H3). set (h := show_hex04 (blen data + 4)) in *.
  unfold read_pkt_line. rewrite <- app_assoc, bool_decide_false by (by destruct h).
  rewrite blen_app, H1, blen_app. replace (_ <? 4) with false by lia.
  assert (Hs : slice (h ++ data ++ rest) 0 4 = h).
  { unfold slice. change (Z.to_nat 0) with 0%nat. rewrite drop_0, Z.sub_0_r, <- H1. apply take_blen_app. }
  rewrite Hs, H3, (utf8_ascii h (ascii_hex h H2)). cbn [negb].
  replace (blen data + 4 =? 0) with false by lia. replace (blen data + 4 <? 4) with false by lia.
  replace (_ <? blen data + 4) with false by lia. replace (blen data + 4 - 4) with (blen data) by lia.
  replace (drop 4 (h ++ data ++ rest)) with (data ++ rest).
  - by rewrite take_blen_app, drop_blen_app.
  - change 4%nat with (Z.to_nat 4). rewrite <- H1. by rewrite drop_blen_app.
Qed.

Lemma read_pkt_line_flush rest : read_pkt_line (PKT_LINE_END_MARKER ++ rest) = ((4, []), rest).
Proof.
  unfold read_pkt_line. rewrite bool_decide_false by done. pose proof (blen_nonneg rest). rewrite blen_app.
  change (blen PKT_LINE_END_MARKER) with 4. by replace (_ <? 4) with false by lia.
Qed.

(** a packet line reads back exactly when it fits: writing a payload of at most 65531 bytes
    and reading gives the payload and leaves what follows; of a longer one the length field has
    more than four digits, and the reader never gets the payload back. *)
Theorem pkt_line_roundtrip (data rest : bytes) :
  read_pkt_line (add_pkt_line_string [] data ++ rest) = ((blen data + 4, data), rest) <-> blen data <= 65531.
Proof.
  split.
  - intros Hr. pose proof (read_pkt_line_small (add_pkt_line_string [] data ++ rest)) as Hb. rewrite Hr in Hb. cbn in Hb. lia.
  - intros Hl. apply read_pkt_line_add. lia.
Qed.

(** The subsequence search finds the first occurrence of a needle that is not empty. *)
Theorem search_subsequence_spec (haystack needle : bytes) :
  search_subsequence haystack needle = if bool_decide (needle = []) then Panic else Ok (find_first needle haystack).
Proof.
  unfold search_subsequence. case_bool_decide as Hn; [done|]. f_equal.
  induction haystack as [|x haystack IH]; cbn [position_window find_first]; unfold starts_with.
  - destruct needle; [done|]. by rewrite bool_decide_false.
  - destruct (blen (x :: haystack) <? blen needle) eqn:E; [|case_bool_decide; [done|by rewrite IH]].
    rewrite bool_decide_false; [rewrite <- IH; destruct haystack; cbn [position_window]|].
    + by replace (blen [] <? blen needle) with true by (symmetry; rewrite blen_cons in E; lia).
    + by replace (blen (z :: haystack) <? blen needle) with true by (symmetry; rewrite !blen_cons in *; lia).
    + intros Ht. apply (f_equal length) in Ht. rewrite length_take in Ht. unfold blen in E. lia.
Qed.
