(* ===== verification/ProtocolTypes.v ===== *)
(** The vocabulary of the smart protocol, [src/protocol/types.rs]: errors, services,
    capabilities and their text, side bands, reference commands. *)

From Stdlib Require Import ZArith Lia String.
From stdpp Require Import base tactics list numbers option gmap.
From S2P Require Import Prelude Stream Text Errors ObjectTypes PackUtils Hash PktLine.

Inductive ProtocolError : Type :=
| InvalidService (s : bytes)
| RepositoryNotFound (s : bytes)
| ProtoObjectNotFound (s : bytes)
| InvalidRequest (s : bytes)
| Unauthorized (s : bytes)
| Io (e : IoError)
| PackError (s : bytes)
| Internal (s : bytes).

Definition invalid_service (service : bytes) : ProtocolError := InvalidService service.
Definition repository_error (msg : bytes) : ProtocolError := Internal msg.
Definition invalid_request (msg : bytes) : ProtocolError := InvalidRequest msg.
Definition unauthorized (msg : bytes) : ProtocolError := Unauthorized msg.

(** [Display], generated by thiserror; the text of an I/O error is a parameter. *)
Definition ProtocolError_fmt (io_text : IoError -> bytes) (e : ProtocolError) : bytes :=
  match e with
  | InvalidService s => str "Invalid service: " ++ s
  | RepositoryNotFound s => str "Repository not found: " ++ s
  | ProtoObjectNotFound s => str "Object not found: " ++ s
  | InvalidRequest s => str "Invalid request: " ++ s
  | Unauthorized s => str "Unauthorized: " ++ s
  | Io e => str "IO error: " ++ io_text e
  | PackError s => str "Pack error: " ++ s
  | Internal s => str "Internal error: " ++ s
  end.

(** [s.chars().take(n).collect()]: the bytes of the first [n] characters of a valid string. *)
Fixpoint take_chars (n : nat) (s : bytes) : bytes :=
  match n, s with
  | O, _ | _, [] => []
  | S n, b :: s =>
      let width := if b <? 128 then 0%nat else if b <? 224 then 1%nat else if b <? 240 then 2%nat else 3%nat in
      b :: take width s ++ take_chars n (drop width s)
  end.

Definition unknown_object_format (value : bytes) : ProtocolError :=
  InvalidRequest (str "unknown object-format capability `" ++ take_chars 64 value ++ str "` (accepted: "
    ++ HashKind.ACCEPTED_TAGS ++ str "); refusing to negotiate").

Definition object_format_mismatch (wire local repository : HashKind.t) : ProtocolError :=
  InvalidRequest (str "object-format mismatch: wire=" ++ HashKind.as_str wire ++ str " local=" ++ HashKind.as_str local
    ++ str " repository=" ++ HashKind.as_str repository
    ++ str "; refusing to serve the repository under another object format").

Definition invalid_wire_id (command id detail : bytes) : ProtocolError :=
  InvalidRequest (str "invalid object ID in `" ++ command ++ str "` line (`" ++ take_chars 80 id ++ str "`): " ++ detail).

Inductive ServiceType : Type := UploadPack | ReceivePack.

Definition ServiceType_fmt (s : ServiceType) : bytes :=
  match s with UploadPack => str "git-upload-pack" | ReceivePack => str "git-receive-pack" end.

Definition ServiceType_from_str (s : bytes) : Res ProtocolError ServiceType :=
  if bool_decide (s = str "git-upload-pack") then Ok UploadPack
  else if bool_decide (s = str "git-receive-pack") then Ok ReceivePack
  else Err (InvalidService s).

(** * Capabilities *)

Inductive Capability : Type :=
| MultiAck
| MultiAckDetailed
| NoDone
| SideBand
| SideBand64k
| ReportStatus
| ReportStatusv2
| OfsDelta
| DeepenSince
| DeepenNot
| DeepenRelative
| ThinPack
| Shallow
| IncludeTag
| DeleteRefs
| Quiet
| Atomic
| NoThin
| NoProgress
| AllowTipSha1InWant
| AllowReachableSha1InWant
| PushCert (value : bytes)
| PushOptions
| ObjectFormat (format : bytes)
| SessionId (id : bytes)
| Filter (filter : bytes)
| Symref (symref : bytes)
| Agent (agent : bytes)
| Unknown (s : bytes).

#[export] Instance Capability_eq_dec : EqDecision Capability.
Proof. solve_decision. Defined.

Definition plain_capabilities : list (bytes * Capability) :=
  [(str "multi_ack", MultiAck); (str "multi_ack_detailed", MultiAckDetailed); (str "no-done", NoDone);
   (str "side-band", SideBand); (str "side-band-64k", SideBand64k); (str "report-status", ReportStatus);
   (str "report-status-v2", ReportStatusv2); (str "ofs-delta", OfsDelta); (str "deepen-since", DeepenSince);
   (str "deepen-not", DeepenNot); (str "deepen-relative", DeepenRelative); (str "thin-pack", ThinPack);
   (str "shallow", Shallow); (str "include-tag", IncludeTag); (str "delete-refs", DeleteRefs); (str "quiet", Quiet);
   (str "atomic", Atomic); (str "no-thin", NoThin); (str "no-progress", NoProgress);
   (str "allow-tip-sha1-in-want", AllowTipSha1InWant); (str "allow-reachable-sha1-in-want", AllowReachableSha1InWant);
   (str "push-options", PushOptions)].

(** The arms of a [match] on a string, in order. *)
Fixpoint match_str {A} (s : bytes) (arms : list (bytes * A)) : option A :=
  match arms with
  | [] => None
  | (k, a) :: arms => if bool_decide (s = k) then Some a else match_str s arms
  end.

(** The [if let Some(rest) = s.strip_prefix(..)] of the parameterized capabilities, in order. *)
Fixpoint match_prefix {A} (s : bytes) (arms : list (bytes * (bytes -> A))) : option A :=
  match arms with
  | [] => None
  | (k, f) :: arms => match strip_prefix k s with Some rest => Some (f rest) | None => match_prefix s arms end
  end.

Definition prefix_capabilities : list (bytes * (bytes -> Capability)) :=
  [(str "agent=", Agent); (str "session-id=", SessionId); (str "push-cert=", PushCert);
   (str "object-format=", ObjectFormat); (str "filter=", Filter); (str "symref=", Symref)].

Definition Capability_from_str (s : bytes) : Capability :=
  match match_prefix s prefix_capabilities with
  | Some c => c
  | None => default (Unknown s) (match_str s plain_capabilities)
  end.

Definition Capability_fmt (c : Capability) : bytes :=
  match c with
  | MultiAck => str "multi_ack"
  | MultiAckDetailed => str "multi_ack_detailed"
  | NoDone => str "no-done"
  | SideBand => str "side-band"
  | SideBand64k => str "side-band-64k"
  | ReportStatus => str "report-status"
  | ReportStatusv2 => str "report-status-v2"
  | OfsDelta => str "ofs-delta"
  | DeepenSince => str "deepen-since"
  | DeepenNot => str "deepen-not"
  | DeepenRelative => str "deepen-relative"
  | ThinPack => str "thin-pack"
  | Shallow => str "shallow"
  | IncludeTag => str "include-tag"
  | DeleteRefs => str "delete-refs"
  | Quiet => str "quiet"
  | Atomic => str "atomic"
  | NoThin => str "no-thin"
  | NoProgress => str "no-progress"
  | AllowTipSha1InWant => str "allow-tip-sha1-in-want"
  | AllowReachableSha1InWant => str "allow-reachable-sha1-in-want"
  | PushCert value => str "push-cert=" ++ value
  | PushOptions => str "push-options"
  | ObjectFormat format => str "object-format=" ++ format
  | SessionId id => str "session-id=" ++ id
  | Filter filter => str "filter=" ++ filter
  | Symref symref => str "symref=" ++ symref
  | Agent agent => str "agent=" ++ agent
  | Unknown s => s
  end.

(** * Side bands and references *)

Inductive SideBandType : Type := PackfileData | ProgressInfo | BandError.

Definition SideBand_value (s : SideBandType) : Z :=
  match s with PackfileData => 1 | ProgressInfo => 2 | BandError => 3 end.

Inductive RefTypeEnum : Type := Branch | Tag.

#[export] Instance RefTypeEnum_eq_dec : EqDecision RefTypeEnum.
Proof. solve_decision. Defined.

Record GitRef : Type := mkGitRef { ref_name : bytes; ref_hash : bytes }.

Inductive CommandStatus : Type := Pending | Success | Failed.

Record RefCommand : Type := mkRefCommand {
  old_hash : bytes;
  new_hash : bytes;
  rc_name : bytes;
  ref_type : RefTypeEnum;
  default_branch : bool;
  status : CommandStatus;
  error_message : option bytes
}.

Definition RefCommand_new (old new name : bytes) : RefCommand :=
  mkRefCommand old new name (if starts_with (str "refs/tags/") name then Tag else Branch) false Pending None.

Definition failed (c : RefCommand) (error : bytes) : RefCommand :=
  mkRefCommand (old_hash c) (new_hash c) (rc_name c) (ref_type c) (default_branch c) Failed (Some error).

Definition success (c : RefCommand) : RefCommand :=
  mkRefCommand (old_hash c) (new_hash c) (rc_name c) (ref_type c) (default_branch c) Success None.

Definition get_status (c : RefCommand) : bytes :=
  match status c with
  | Success => str "ok " ++ rc_name c
  | Failed => str "ng " ++ rc_name c ++ str " " ++ default (str "unknown error") (error_message c)
  | Pending => str "ok " ++ rc_name c
  end.

Definition LF : Z := 10.
Definition SP : Z := 32.
Definition NUL : Z := 0.
Definition RECEIVE_CAP_LIST : bytes := str "report-status report-status-v2 delete-refs quiet atomic no-thin ".
Definition COMMON_CAP_LIST : bytes := str "side-band-64k ofs-delta agent=git-internal/0.1.0".
Definition UPLOAD_CAP_LIST : bytes := str "multi_ack_detailed no-done include-tag ".

(** * Capabilities read back *)

Lemma match_prefix_fmt s arms c :
  match_prefix s arms = Some c -> (forall k f, (k, f) ∈ arms -> forall r, Capability_fmt (f r) = k ++ r) -> Capability_fmt c = s.
Proof.
  induction arms as [|[k f] arms IH]; intros Hm Hf; [discriminate|]. cbn [match_prefix] in Hm.
  destruct (strip_prefix k s) as [r|] eqn:E.
  - injection Hm as <-. apply strip_prefix_Some in E as ->. apply Hf. by left.
  - apply IH; [done|]. intros k' f' Hin. apply Hf. by right.
Qed.

Lemma match_str_fmt s arms c :
  match_str s arms = Some c -> Forall (fun '(k, a) => Capability_fmt a = k) arms -> Capability_fmt c = s.
Proof.
  induction arms as [|[k a] arms IH]; intros Hm Hf; [discriminate|]. cbn [match_str] in Hm. apply Forall_cons_1 in Hf as [Ha Hf].
  case_bool_decide as E; [|by apply IH]. injection Hm as <-. congruence.
Qed.

(** A capability as the parser makes it: [Unknown] only for a text it does not know. *)
Definition canonical (c : Capability) : Prop :=
  match c with Unknown s => Capability_from_str s = Unknown s | _ => True end.

(** capabilities and their text correspond: printing what was parsed gives the text back,
    for every text, and parsing what was printed gives the capability back, for every
    capability the parser can make; a capability with a value keeps it whatever it contains. *)
Theorem capability_roundtrip (s : bytes) (c : Capability) :
  Capability_fmt (Capability_from_str s) = s /\ canonical (Capability_from_str s)
  /\ (canonical c -> Capability_from_str (Capability_fmt c) = c).
Proof.
  assert (H1 : Capability_fmt (Capability_from_str s) = s).
  { unfold Capability_from_str. destruct (match_prefix s prefix_capabilities) as [c'|] eqn:E.
    - apply (match_prefix_fmt _ _ _ E). intros k f Hin r. unfold prefix_capabilities in Hin.
      repeat (apply elem_of_cons in Hin as [Hin|Hin]; [by simplify_eq|]). by apply not_elem_of_nil in Hin.
    - destruct (match_str s plain_capabilities) as [c'|] eqn:Em; [|done]. cbn. apply (match_str_fmt _ _ _ Em). by repeat constructor. }
  split; [done|]. split.
  - unfold canonical. destruct (Capability_from_str s) as [| | | | | | | | | | | | | | | | | | | | | | | | | | | | t] eqn:E; try done.
    cbn in H1. by subst.
  - intros Hc. destruct c; try done; cbn [Capability_fmt]; unfold Capability_from_str, prefix_capabilities; cbn [match_prefix].
    all: try (vm_compute; reflexivity).
    all: repeat first [rewrite strip_prefix_app; reflexivity
      | rewrite (strip_prefix_differs 3) by (cbn; lia || (cbn; discriminate))].
Qed.
