(* ===== verification/Repository.v ===== *)
(** What the protocol layer asks of its environment: the traits [RepositoryAccess] and
    [AuthenticationService] of [src/protocol/core.rs], with the default methods of the first.

    A protocol handler is a program that calls methods of a repository it does not know; a
    call may answer anything, and the repository may change between two calls (another
    worker, a drifting thread-local).  So a handler is a tree of calls ([Prog]), and
    [runs p t a] says that [p] returns [a] when its calls and their answers are the trace [t].
    The theorems about all traces hold whatever the repository does.  A concrete repository
    is a state machine that answers calls ([Repo]), and [run] executes a program with it.

    The decoder of packs, whose threads interleave, is a call too: its answers are what its
    callback was given, in that order, with the result. *)

From Stdlib Require Import ZArith Lia String.
From stdpp Require Import base tactics list numbers option gmap.
From S2P Require Import Prelude Stream Text Errors ObjectTypes PackUtils Hash PackIndex PackDecode Signature Tree Commit Tag Objects PktLine ProtocolTypes.

Abbreviation Result := (Res ProtocolError).

(** * Calls *)

Inductive Call : Type -> Type :=
| object_hash_kind : Call HashKind.t
| get_repository_refs : Call (Result (list (bytes * bytes)))
| has_object (object_hash : bytes) : Call (Result bool)
| get_object (object_hash : bytes) : Call (Result bytes)
| store_pack_data (pack_data : bytes) : Call (Result unit)
| update_reference (ref_name : bytes) (old_hash : option bytes) (new_hash : bytes) : Call (Result unit)
| get_objects_for_pack (wants haves : list bytes) : Call (Result (list bytes))
| has_default_branch : Call (Result bool)
| post_receive_hook : Call (Result unit)
| get_blob (object_hash : bytes) : Call (Result Blob)
| get_commit (commit_hash : bytes) : Call (Result Commit)
| get_tree (tree_hash : bytes) : Call (Result Tree)
| commit_exists (commit_hash : bytes) : Call (Result bool)
| handle_pack_objects (commits : list Commit) (trees : list Tree) (blobs : list Blob) : Call (Result unit)
| auth_http (headers : gmap bytes bytes) : Call (Result unit)
| auth_ssh (username public_key : bytes) : Call (Result unit)
| decode_pack (kind : HashKind.t) (pack_data : bytes) : Call (Res GitError unit * list (MetaAttached Entry EntryMeta)).

Inductive Prog (A : Type) : Type :=
| Ret (a : A)
| Ask {X : Type} (c : Call X) (k : X -> Prog A).
Arguments Ret {A} a.
Arguments Ask {A X} c k.

Fixpoint pbind {A B} (p : Prog A) (f : A -> Prog B) : Prog B :=
  match p with
  | Ret a => f a
  | Ask c k => Ask c (fun x => pbind (k x) f)
  end.

Definition ask {X} (c : Call X) : Prog X := Ask c Ret.

(** [m?] of a call that may fail. *)
Definition try {E A B} (m : Prog (Res E A)) (k : A -> Prog (Res E B)) : Prog (Res E B) :=
  pbind m (fun r => match r with
    | Ok a => k a
    | Err e => Ret (Err e)
    | Panic => Ret Panic
    | OutOfFuel => Ret OutOfFuel
    end).

Definition try_map_err {E F A} (f : E -> F) (m : Prog (Res E A)) : Prog (Res F A) := pbind m (fun r => Ret (map_err f r)).

Declare Scope prog_scope.
Notation "'do!' x ':=' m 'in' k" := (pbind m (fun x => k)) (at level 10, x binder, m at level 100, k at level 200) : prog_scope.
Notation "'try!' x ':=' m 'in' k" := (try m (fun x => k)) (at level 10, x binder, m at level 100, k at level 200) : prog_scope.
#[global] Open Scope prog_scope.

(** * Runs *)

Inductive Event : Type :=
| Ev {X : Type} (c : Call X) (x : X).

Fixpoint runs {A} (p : Prog A) (t : list Event) (a : A) : Prop :=
  match p with
  | Ret b => t = [] /\ a = b
  | Ask c k => exists x t', t = Ev c x :: t' /\ runs (k x) t' a
  end.

Record Repo : Type := mkRepo {
  repo_state : Type;
  repo_step : forall X, Call X -> repo_state -> X * repo_state
}.

Fixpoint run {A} (r : Repo) (p : Prog A) (s : repo_state r) : A * repo_state r * list Event :=
  match p with
  | Ret a => (a, s, [])
  | Ask c k =>
      let '(x, s) := repo_step r _ c s in
      let '(a, s, t) := run r (k x) s in
      (a, s, Ev c x :: t)
  end.

Lemma runs_bind {A B} (p : Prog A) (f : A -> Prog B) t b :
  runs (pbind p f) t b <-> exists t1 t2 a, t = t1 ++ t2 /\ runs p t1 a /\ runs (f a) t2 b.
Proof.
  revert t. induction p as [a|X c k IH]; intros t; cbn [pbind runs].
  - split.
    + intros H. by exists [], t, a.
    + intros (t1 & t2 & a' & -> & [-> ->] & H). done.
  - split.
    + intros (x & t' & -> & H). apply IH in H as (t1 & t2 & a & -> & H1 & H2).
      exists (Ev c x :: t1), t2, a. split_and!; [done| |done]. by exists x, t1.
    + intros (t1 & t2 & a & -> & (x & t' & -> & H1) & H2). exists x, (t' ++ t2). split; [done|]. apply IH. by exists t', t2, a.
Qed.

(** What an execution does is a run. *)
Lemma run_runs {A} (r : Repo) (p : Prog A) s :
  runs p (run r p s).2 (run r p s).1.1.
Proof.
  revert s. induction p as [a|X c k IH]; intros s; cbn [run runs]; [done|].
  destruct (repo_step r _ c s) as [x s']. specialize (IH x s'). destruct (run r (k x) s') as [[a s''] t]. cbn in *. by exists x, t.
Qed.

(** * Contracts

    A contract follows a run with a ghost state: what the answers may be assumed to be, what
    the calls must satisfy, and how the ghost state changes.  [wp] is the weakest
    precondition of a program under it. *)

Record Contract : Type := mkContract {
  ghost : Type;
  may_answer : forall X, Call X -> X -> ghost -> Prop;
  may_call : forall X, Call X -> ghost -> Prop;
  advance : forall X, Call X -> X -> ghost -> ghost
}.
Arguments may_answer C [X] _ _ _ : rename.
Arguments may_call C [X] _ _ : rename.
Arguments advance C [X] _ _ _ : rename.

Fixpoint wp {A} (C : Contract) (p : Prog A) (Q : A -> ghost C -> Prop) (g : ghost C) : Prop :=
  match p with
  | Ret a => Q a g
  | Ask c k => may_call C c g /\ forall x, may_answer C c x g -> wp C (k x) Q (advance C c x g)
  end.

(** The answers of a trace are as assumed; its calls are as required; the ghost state at its end. *)
Fixpoint answered (C : Contract) (g : ghost C) (t : list Event) : Prop :=
  match t with
  | [] => True
  | Ev c x :: t => may_answer C c x g /\ answered C (advance C c x g) t
  end.

Fixpoint obeys (C : Contract) (g : ghost C) (t : list Event) : Prop :=
  match t with
  | [] => True
  | Ev c x :: t => may_call C c g /\ obeys C (advance C c x g) t
  end.

Fixpoint final (C : Contract) (g : ghost C) (t : list Event) : ghost C :=
  match t with
  | [] => g
  | Ev c x :: t => final C (advance C c x g) t
  end.

Lemma wp_sound {A} (C : Contract) (p : Prog A) Q g t a :
  wp C p Q g -> runs p t a -> answered C g t -> obeys C g t /\ Q a (final C g t).
Proof.
  revert g t. induction p as [b|X c k IH]; intros g t Hwp Hr Ha; cbn [wp runs] in *.
  - by destruct Hr as [-> ->].
  - destruct Hwp as [Hc Hk]. destruct Hr as (x & t' & -> & Hr). destruct Ha as [Hx Ha].
    destruct (IH x _ t' (Hk x Hx) Hr Ha) as [Ho HQ]. done.
Qed.

Lemma wp_bind {A B} (C : Contract) (p : Prog A) (f : A -> Prog B) Q g :
  wp C (pbind p f) Q g <-> wp C p (fun a => wp C (f a) Q) g.
Proof. revert g. induction p as [b|X c k IH]; intros g; cbn [wp pbind]; [done|]. by setoid_rewrite IH. Qed.

Lemma wp_mono {A} (C : Contract) (p : Prog A) (Q R : A -> ghost C -> Prop) g :
  wp C p Q g -> (forall a g, Q a g -> R a g) -> wp C p R g.
Proof.
  revert g. induction p as [b|X c k IH]; intros g Hwp HQ; cbn [wp] in *; [auto|].
  destruct Hwp as [Hc Hk]. split; [done|]. intros x Hx. by apply IH; [apply Hk|].
Qed.

(** A program proved under a contract has its property under one that assumes more and
    requires less. *)
Lemma wp_weaken {A} (C C' : Contract) (f : ghost C' -> ghost C) (p : Prog A) Q g :
  (forall X (c : Call X) x g, may_answer C' c x g -> may_answer C c x (f g)) ->
  (forall X (c : Call X) g, may_call C c (f g) -> may_call C' c g) ->
  (forall X (c : Call X) x g, may_call C c (f g) -> f (advance C' c x g) = advance C c x (f g)) ->
  wp C p Q (f g) -> wp C' p (fun a g => Q a (f g)) g.
Proof.
  intros Ha Hc Hadv. revert g. induction p as [b|X c k IH]; intros g Hwp; cbn [wp] in *; [done|]. destruct Hwp as [H1 H2].
  split; [by apply Hc|]. intros x Hx. apply IH. rewrite Hadv by done. by apply H2, Ha.
Qed.

(** A repository whose answers are all as assumed. *)
Lemma run_answered {A} (C : Contract) (r : Repo) (p : Prog A) s g :
  (forall X (c : Call X) s g, may_answer C c (repo_step r X c s).1 g) -> answered C g (run r p s).2.
Proof.
  intros Hr. revert s g. induction p as [a|X c k IH]; intros s g; cbn [run]; [done|].
  pose proof (Hr X c s g) as Hx. destruct (repo_step r X c s) as [x s']. specialize (IH x s' (advance C c x g)).
  destruct (run r (k x) s') as [[a s''] t]. by split.
Qed.

(** The rule of [try!]: an outcome that is not a value ends the program. *)
Lemma wp_try {E A B} (C : Contract) (m : Prog (Res E A)) (k : A -> Prog (Res E B)) Q g :
  wp C m (fun r => match r with
    | Ok a => wp C (k a) Q
    | Err e => Q (Err e)
    | Panic => Q Panic
    | OutOfFuel => Q OutOfFuel
    end) g -> wp C (try m k) Q g.
Proof. intros Hm. unfold try. apply wp_bind. eapply wp_mono; [exact Hm|]. intros [a|e| |] g' Hr; exact Hr. Qed.

Lemma wp_try_map_err {E F A} (C : Contract) (f : E -> F) (m : Prog (Res E A)) Q g :
  wp C m (fun r => Q (map_err f r)) g -> wp C (try_map_err f m) Q g.
Proof. intros Hm. unfold try_map_err. apply wp_bind. exact Hm. Qed.

Lemma wp_ask {X} (C : Contract) (c : Call X) Q g :
  may_call C c g -> (forall x, may_answer C c x g -> Q x (advance C c x g)) -> wp C (ask c) Q g.
Proof. done. Qed.

(** * The default methods *)

Section defaults.
Context `{TextEnv} `{ByteSearch} `{HexCrate}.

Definition error_text (e : ProtocolError) : bytes := ProtocolError_fmt io_error_text e.
Definition git_error_text (e : GitError) : bytes := GitError_fmt io_error_text e.

(** The kind is resolved before the object is fetched. *)
Definition default_get {A} `{ObjectTrait A} (what : bytes) (object_hash : bytes) : Prog (Result A) :=
  do! kind := ask object_hash_kind in
  try! hash := Ret (map_err (fun e => repository_error (str "Invalid hash format: " ++ hash_error_text e))
    (ObjectHash.from_hex_for_kind kind object_hash)) in
  try! data := ask (get_object object_hash) in
  Ret (map_err (fun e => repository_error (str "Failed to parse " ++ what ++ str ": " ++ git_error_text e)) (obj_from_bytes data hash)).

Definition default_get_blob (object_hash : bytes) : Prog (Result Blob) := default_get (str "blob") object_hash.
Definition default_get_commit (commit_hash : bytes) : Prog (Result Commit) := default_get (str "commit") commit_hash.
Definition default_get_tree (tree_hash : bytes) : Prog (Result Tree) := default_get (str "tree") tree_hash.

Definition default_commit_exists (commit_hash : bytes) : Prog (Result bool) :=
  try! exists_ := ask (has_object commit_hash) in
  if negb exists_ then Ret (Ok false)
  else
    do! commit := ask (get_commit commit_hash) in
    Ret match commit with
        | Ok _ => Ok true
        | Err _ => Ok false
        | Panic => Panic
        | OutOfFuel => OutOfFuel
        end.

Fixpoint store_all {A} `{ObjectTrait A} (obj_id : A -> ObjectHash.t) (what : bytes) (objects : list A) : Prog (Result unit) :=
  match objects with
  | [] => Ret (Ok tt)
  | a :: objects =>
      try! data := Ret (map_err (fun e => repository_error (str "Failed to serialize " ++ what ++ str ": " ++ git_error_text e))
        (obj_to_data a)) in
      try! _ := try_map_err (fun e => repository_error (str "Failed to store " ++ what ++ str " " ++ ObjectHash.fmt (obj_id a)
        ++ str ": " ++ error_text e)) (ask (store_pack_data data)) in
      store_all obj_id what objects
  end.

Definition default_handle_pack_objects (commits : list Commit) (trees : list Tree) (blobs : list Blob) : Prog (Result unit) :=
  try! _ := store_all blob_id (str "blob") blobs in
  try! _ := store_all tree_id (str "tree") trees in
  store_all commit_id (str "commit") commits.

(** An implementor that overrides none of the default methods: the calls of a program are
    replaced by the methods' bodies, whose own calls are. *)
Fixpoint interp {A} (h : forall X, Call X -> Prog X) (p : Prog A) : Prog A :=
  match p with
  | Ret a => Ret a
  | Ask c k => pbind (h _ c) (fun x => interp h (k x))
  end.

Definition default_getters X (c : Call X) : Prog X :=
  match c in Call X return Prog X with
  | get_blob h => default_get_blob h
  | get_commit h => default_get_commit h
  | get_tree h => default_get_tree h
  | c => ask c
  end.

Definition default_methods X (c : Call X) : Prog X :=
  match c in Call X return Prog X with
  | commit_exists h => interp default_getters (default_commit_exists h)
  | handle_pack_objects commits trees blobs => default_handle_pack_objects commits trees blobs
  | c => default_getters _ c
  end.

End defaults.
