(* ===== verification/PackGenerator.v ===== *)
(** The pack generator of the protocol, [src/protocol/pack.rs]: the objects reachable from
    commits, those the peer lacks, the stream that delivers their pack, and the unpacking of a
    received one.

    The encoder the generator drives is the class [PackWriter], instantiated by [pack_writer]
    with the encoder of [PackEncode].  A stream is a function of the number of items after
    which its receiver goes away, if it does.  The two traversals take fuel; the
    theorems say how much is enough. *)

From Stdlib Require Import ZArith Lia String Permutation.
From stdpp Require Import base tactics list numbers option gmap.
From S2P Require Import Prelude Stream Text Errors ObjectTypes DeltaUtils DeltaEncode PackUtils Hash PackIndex EntrySort DeltaSearch PackEncode Signature Tree Commit Tag Objects PktLine ProtocolTypes Repository.

(** A [PackEncoder] made for [entries.len()] objects with a window of 10, fed the entries: its
    result and the chunks it sent. *)
Class PackWriter := write_pack : HashKind.t -> list Entry -> Res GitError unit * list bytes.

Definition pack_writer `{Build} `{TextEnv} `{HexCrate} `{Hasher} `{Crc32} `{AHash} `{SliceSort}
  (little_endian : bool) (compress : bytes -> bytes) (diff : bytes -> bytes -> list Callback)
  (zstd_diff : bytes -> bytes -> Res bytes bytes)
  (address_cmp : MetaAttached Entry EntryMeta -> MetaAttached Entry EntryMeta -> comparison)
  (num_threads : Z) (pack_threads : option Z) (pool_build : Z -> Res bytes unit) (join_error_text : bytes) : PackWriter :=
  fun kind entries =>
    let '(r, e) := encode_pack little_endian compress diff zstd_diff address_cmp num_threads pack_threads pool_build
      join_error_text 1024 (new_with_hash_kind kind (blen entries) 10 None)
      (map (fun entry => mkMetaAttached _ _ entry EntryMeta_new) entries) in
    (r, pack_received e).

Section generator.
Context `{TextEnv} `{ByteSearch} `{HexCrate} `{Hasher} `{PackWriter}.
(** The text of a [JoinError]. *)
Context (join_text : bytes).

Definition Objects3 : Type := list Commit * list Tree * list Blob.
Definition PackStream : Type := option nat -> list (Result bytes).

(** A generator is the kind it is bound to; [new] binds it to what the repository reports. *)
Definition PackGenerator_new : Prog HashKind.t := ask object_hash_kind.

(** * Collecting *)

Record Collected : Type := mkCollected {
  trees : list Tree;
  blobs : list Blob;
  visited_trees : gset bytes;
  visited_blobs : gset bytes
}.

Definition visit_tree (c : Collected) (h : bytes) : Collected :=
  mkCollected (trees c) (blobs c) ({[h]} ∪ visited_trees c) (visited_blobs c).
Definition visit_blob (c : Collected) (h : bytes) : Collected :=
  mkCollected (trees c) (blobs c) (visited_trees c) ({[h]} ∪ visited_blobs c).
Definition push_tree (c : Collected) (t : Tree) : Collected :=
  mkCollected (trees c ++ [t]) (blobs c) (visited_trees c) (visited_blobs c).
Definition push_blob (c : Collected) (b : Blob) : Collected :=
  mkCollected (trees c) (blobs c ++ [b]) (visited_trees c) (visited_blobs c).

Definition ensure_object_kind (kind : HashKind.t) (what : bytes) (id : ObjectHash.t) : Result unit :=
  map_err (fun e => repository_error (str "Repository returned " ++ what ++ str " " ++ ObjectHash.to_tagged_string id
             ++ str " of another object format: " ++ hash_error_text e))
    (ObjectHash.ensure_kind id kind).

(** The loop over a tree's entries; [rec] collects a subtree. *)
Fixpoint collect_entries (rec : bytes -> Collected -> Prog (Result Collected)) (kind : HashKind.t) (items : list TreeItem)
  (c : Collected) : Prog (Result Collected) :=
  match items with
  | [] => Ret (Ok c)
  | entry :: items =>
      try! _ := Ret (ensure_object_kind kind (str "tree entry reference") (id entry)) in
      let entry_hash := ObjectHash.fmt (id entry) in
      try! c :=
        match mode entry with
        | TreeItemMode.Tree => rec entry_hash c
        | TreeItemMode.Blob | TreeItemMode.BlobExecutable =>
            if bool_decide (entry_hash ∈ visited_blobs c) then Ret (Ok c)
            else
              let c := visit_blob c entry_hash in
              try! blob := try_map_err (fun e => repository_error (str "Failed to get blob " ++ entry_hash ++ str ": " ++ error_text e))
                (ask (get_blob entry_hash)) in
              try! _ := Ret (ensure_object_kind kind (str "blob") (blob_id blob)) in
              Ret (Ok (push_blob c blob))
        | TreeItemMode.Commit | TreeItemMode.Link => Ret (Ok c)
        end in
      collect_entries rec kind items c
  end.

Fixpoint collect_tree_objects (fuel : nat) (kind : HashKind.t) (tree_hash : bytes) (c : Collected) : Prog (Result Collected) :=
  match fuel with
  | O => Ret OutOfFuel
  | S fuel =>
      if bool_decide (tree_hash ∈ visited_trees c) then Ret (Ok c)
      else
        let c := visit_tree c tree_hash in
        try! tree := try_map_err (fun e => repository_error (str "Failed to get tree " ++ tree_hash ++ str ": " ++ error_text e))
          (ask (get_tree tree_hash)) in
        try! _ := Ret (ensure_object_kind kind (str "tree") (tree_id tree)) in
        try! c := collect_entries (collect_tree_objects fuel kind) kind (tree_items tree) c in
        Ret (Ok (push_tree c tree))
  end.

(** The loop over a commit's parents. *)
Fixpoint push_parents (kind : HashKind.t) (parents : list ObjectHash.t) (visited_commits : gset bytes) (queue : list bytes)
  : Result (list bytes) :=
  match parents with
  | [] => Ok queue
  | parent :: parents =>
      let! _ := ensure_object_kind kind (str "commit parent reference") parent in
      let parent_str := ObjectHash.fmt parent in
      push_parents kind parents visited_commits
        (if bool_decide (parent_str ∈ visited_commits) then queue else queue ++ [parent_str])
  end.

(** The breadth-first loop; [tree_fuel] is the fuel of each tree traversal. *)
Fixpoint collect_commits (fuel tree_fuel : nat) (kind : HashKind.t) (commit_queue : list bytes) (commits : list Commit)
  (visited_commits : gset bytes) (c : Collected) : Prog (Result Objects3) :=
  match fuel with
  | O => Ret OutOfFuel
  | S fuel =>
      match commit_queue with
      | [] => Ret (Ok (commits, trees c, blobs c))
      | commit_hash :: commit_queue =>
          if bool_decide (commit_hash ∈ visited_commits)
          then collect_commits fuel tree_fuel kind commit_queue commits visited_commits c
          else
            let visited_commits := {[commit_hash]} ∪ visited_commits in
            try! commit := try_map_err (fun e => repository_error (str "Failed to get commit " ++ commit_hash ++ str ": " ++ error_text e))
              (ask (get_commit commit_hash)) in
            try! _ := Ret (ensure_object_kind kind (str "commit") (commit_id commit)) in
            try! _ := Ret (ensure_object_kind kind (str "commit tree reference") (commit_tree_id commit)) in
            try! commit_queue := Ret (push_parents kind (parent_commit_ids commit) visited_commits commit_queue) in
            try! c := collect_tree_objects tree_fuel kind (ObjectHash.fmt (commit_tree_id commit)) c in
            collect_commits fuel tree_fuel kind commit_queue (commits ++ [commit]) visited_commits c
      end
  end.

Definition collect_all_objects (fuel : nat) (kind : HashKind.t) (commit_hashes : list bytes) : Prog (Result Objects3) :=
  collect_commits fuel fuel kind commit_hashes [] ∅ (mkCollected [] [] ∅ ∅).

Definition filter_objects (wanted have : Objects3) : Objects3 :=
  let '(wanted_commits, wanted_trees, wanted_blobs) := wanted in
  let '(have_commits, have_trees, have_blobs) := have in
  let have_commit_hashes : gset bytes := list_to_set (map (fun c => ObjectHash.fmt (commit_id c)) have_commits) in
  let have_tree_hashes : gset bytes := list_to_set (map (fun t => ObjectHash.fmt (tree_id t)) have_trees) in
  let have_blob_hashes : gset bytes := list_to_set (map (fun b => ObjectHash.fmt (blob_id b)) have_blobs) in
  (filter (fun c => ObjectHash.fmt (commit_id c) ∉ have_commit_hashes) wanted_commits,
   filter (fun t => ObjectHash.fmt (tree_id t) ∉ have_tree_hashes) wanted_trees,
   filter (fun b => ObjectHash.fmt (blob_id b) ∉ have_blob_hashes) wanted_blobs).

(** * Sending *)

(** [Entry::from]. *)
Definition Entry_from_blob (b : Blob) : Res Empty_set Entry := Ok (mkEntry ObjectType.Blob (blob_data b) (blob_id b) 0).

Definition Entry_from_commit (c : Commit) : Res Empty_set Entry :=
  let! data := unwrap (Commit_to_data c) in Ok (mkEntry ObjectType.Commit data (commit_id c) 0).

Definition Entry_from_tree (t : Tree) : Res Empty_set Entry :=
  let! data := unwrap (Tree_to_data t) in Ok (mkEntry ObjectType.Tree data (tree_id t) 0).

Fixpoint entries_from {A} (from : A -> Res Empty_set Entry) (l : list A) : Res Empty_set (list Entry) :=
  match l with
  | [] => Ok []
  | a :: l => let! e := from a in let! es := entries_from from l in Ok (e :: es)
  end.

Fixpoint ensure_entries_kind (kind : HashKind.t) (entries : list Entry) : Result unit :=
  match entries with
  | [] => Ok tt
  | entry :: entries =>
      let! _ := map_err (fun e => PackError (str "Pack entry " ++ ObjectHash.to_tagged_string (entry_hash entry)
          ++ str " does not belong to the repository object format: " ++ hash_error_text e))
        (ObjectHash.ensure_kind (entry_hash entry) kind) in
      ensure_entries_kind kind entries
  end.

(** The chunks that reach a receiver which goes away after [leaves] items, and whether it did
    so with a chunk left to send. *)
Definition forward (chunks : list bytes) (leaves : option nat) : list bytes * bool :=
  match leaves with
  | None => (chunks, false)
  | Some n => (take n chunks, (n <? length chunks)%nat)
  end.

Definition empty_pack (kind : HashKind.t) : bytes :=
  let header := (str "PACK" ++ be32 2) ++ be32 0 in
  header ++ ObjectHash.as_ref (ObjectHash_new_for_kind kind header).

(** The entries, in the order they are sent to the encoder. *)
Definition pack_entries (objects : Objects3) : Res Empty_set (list Entry) :=
  let '(commits, trees, blobs) := objects in
  let! cs := entries_from Entry_from_commit commits in
  let! ts := entries_from Entry_from_tree trees in
  let! bs := entries_from Entry_from_blob blobs in
  Ok (cs ++ ts ++ bs).

(** The producer's result, with the chunks the receiver got. *)
Definition generate_pack_stream (kind : HashKind.t) (objects : Objects3) (leaves : option nat) : Result unit * list bytes :=
  match pack_entries objects with
  | Err e => match e with end
  | Panic => (Panic, [])
  | OutOfFuel => (OutOfFuel, [])
  | Ok entries =>
      match ensure_entries_kind kind entries with
      | Ok _ =>
          if bool_decide (entries = []) then (Ok tt, (forward [empty_pack kind] leaves).1)
          else
            let '(encode_task, chunks) := write_pack kind entries in
            let '(sent, consumer_gone) := forward chunks leaves in
            if consumer_gone then (Ok tt, sent)
            else
              (match encode_task with
               | Ok _ => Ok tt
               | Err e => Err (PackError (str "Failed to encode pack: " ++ git_error_text e))
               | Panic => Err (PackError (str "Pack encoder task failed: " ++ join_text))
               | OutOfFuel => OutOfFuel
               end, sent)
      | Err e => (Err e, [])
      | Panic => (Panic, [])
      | OutOfFuel => (OutOfFuel, [])
      end
  end.

(** The items of the stream: a failure of the producer arrives as the last one. *)
Definition spawn_pack_stream (kind : HashKind.t) (objects : Objects3) : PackStream :=
  fun leaves =>
    let '(r, sent) := generate_pack_stream kind objects leaves in
    let items := map Ok sent ++ match r with Err e => [Err e] | _ => [] end in
    match leaves with None => items | Some n => take n items end.

Definition generate_full_pack (fuel : nat) (kind : HashKind.t) (want : list bytes) : Prog (Result PackStream) :=
  try! all_objects := collect_all_objects fuel kind want in
  Ret (Ok (spawn_pack_stream kind all_objects)).

Definition generate_incremental_pack (fuel : nat) (kind : HashKind.t) (want have : list bytes) : Prog (Result PackStream) :=
  try! wanted_objects := collect_all_objects fuel kind want in
  try! have_objects := collect_all_objects fuel kind have in
  Ret (Ok (spawn_pack_stream kind (filter_objects wanted_objects have_objects))).

(** * Receiving *)

(** The decoder's callback; what does not parse, and every other type, is dropped with a
    warning. *)
Definition unpack_entry (acc : Objects3) (entry : MetaAttached Entry EntryMeta) : Objects3 :=
  let '(commits, trees, blobs) := acc in
  let e := ma_inner entry in
  match entry_type e with
  | ObjectType.Commit =>
      match Commit_from_bytes (entry_data e) (entry_hash e) with Ok c => (commits ++ [c], trees, blobs) | _ => acc end
  | ObjectType.Tree =>
      match Tree_from_bytes (entry_data e) (entry_hash e) with Ok t => (commits, trees ++ [t], blobs) | _ => acc end
  | ObjectType.Blob =>
      match obj_from_bytes (A := Blob) (entry_data e) (entry_hash e) with
      | Ok b => (commits, trees, blobs ++ [b])
      | _ => acc
      end
  | _ => acc
  end.

Definition unpack_stream (kind : HashKind.t) (pack_data : bytes) : Prog (Result Objects3) :=
  do! '(r, entries) := ask (decode_pack kind pack_data) in
  try! _ := Ret (map_err (fun e => invalid_request (str "Failed to decode pack: " ++ git_error_text e)) r) in
  Ret (Ok (fold_left unpack_entry entries ([], [], []))).

End generator.
