(* ===== verification/PackReach.v ===== *)
(** What the pack generator collects: exactly the objects that can be reached.

    A [Store] is a repository that does not change; reachability in it is the abstract
    specification, and the two traversals of [PackGenerator] are shown to implement it,
    with the fuel they need. *)

From Stdlib Require Import ZArith Lia String Permutation.
From stdpp Require Import base tactics list numbers option gmap.
From S2P Require Import Prelude Stream Text Errors ObjectTypes PackUtils Hash PackIndex Signature Tree Commit Tag Objects PktLine ProtocolTypes Repository PackGenerator.

Record Store : Type := mkStore {
  st_commits : gmap bytes Commit;
  st_trees : gmap bytes Tree;
  st_blobs : gmap bytes Blob
}.

Definition blob_mode (m : TreeItemMode.t) : Prop := m = TreeItemMode.Blob \/ m = TreeItemMode.BlobExecutable.

(** The contract of a traversal: objects come from the store, and nothing is called but the
    methods that read objects. *)
Definition reading (st : Store) : Contract := {|
  ghost := unit;
  may_answer := fun X (c : Call X) => match c in Call X return X -> unit -> Prop with
    | get_commit h => fun x _ => forall c, st_commits st !! h = Some c -> x = Ok c
    | get_tree h => fun x _ => forall t, st_trees st !! h = Some t -> x = Ok t
    | get_blob h => fun x _ => forall b, st_blobs st !! h = Some b -> x = Ok b
    | _ => fun _ _ => True
    end;
  may_call := fun X (c : Call X) _ => match c with
    | get_commit _ | get_tree _ | get_blob _ => True
    | _ => False
    end;
  advance := fun X _ _ g => g
|}.

Section reach.
Context `{TextEnv} `{ByteSearch} `{HexCrate} (st : Store) (kind : HashKind.t) (roots : list bytes).

Inductive reach_commit : bytes -> Prop :=
| reach_root h : h ∈ roots -> reach_commit h
| reach_parent h c p : reach_commit h -> st_commits st !! h = Some c -> p ∈ parent_commit_ids c -> reach_commit (ObjectHash.fmt p).

Inductive reach_tree : bytes -> Prop :=
| reach_root_tree h c : reach_commit h -> st_commits st !! h = Some c -> reach_tree (ObjectHash.fmt (commit_tree_id c))
| reach_subtree h t i : reach_tree h -> st_trees st !! h = Some t -> i ∈ tree_items t -> mode i = TreeItemMode.Tree ->
    reach_tree (ObjectHash.fmt (id i)).

Inductive reach_blob : bytes -> Prop :=
| reach_file h t i : reach_tree h -> st_trees st !! h = Some t -> i ∈ tree_items t -> blob_mode (mode i) ->
    reach_blob (ObjectHash.fmt (id i)).

Definition cname (c : Commit) : bytes := ObjectHash.fmt (commit_id c).
Definition tname (t : Tree) : bytes := ObjectHash.fmt (tree_id t).
Definition bname (b : Blob) : bytes := ObjectHash.fmt (blob_id b).

(** The store holds what can be reached, under its names, all in one object format. *)
Record complete : Prop := {
  commit_there h : reach_commit h -> exists c, st_commits st !! h = Some c /\ cname c = h /\ ObjectHash.kind (commit_id c) = kind
    /\ ObjectHash.kind (commit_tree_id c) = kind /\ Forall (fun p => ObjectHash.kind p = kind) (parent_commit_ids c);
  tree_there h : reach_tree h -> exists t, st_trees st !! h = Some t /\ tname t = h /\ ObjectHash.kind (tree_id t) = kind
    /\ Forall (fun i => ObjectHash.kind (id i) = kind) (tree_items t);
  blob_there h : reach_blob h -> exists b, st_blobs st !! h = Some b /\ bname b = h /\ ObjectHash.kind (blob_id b) = kind
}.

Context (Hcomplete : complete).

(** What a traversal adds: new trees and blobs from the store, whose entries are visited. *)
Record grows (c c' : Collected) (nt : list Tree) (nb : list Blob) : Prop := {
  g_trees : trees c' = trees c ++ nt;
  g_blobs : blobs c' = blobs c ++ nb;
  g_vt : visited_trees c' = visited_trees c ∪ list_to_set (map tname nt);
  g_vb : visited_blobs c' = visited_blobs c ∪ list_to_set (map bname nb);
  g_tnew : NoDup (map tname nt) /\ forall t, t ∈ nt -> tname t ∉ visited_trees c;
  g_bnew : NoDup (map bname nb) /\ forall b, b ∈ nb -> bname b ∉ visited_blobs c;
  g_tstored : forall t, t ∈ nt -> st_trees st !! tname t = Some t /\ reach_tree (tname t);
  g_bstored : forall b, b ∈ nb -> st_blobs st !! bname b = Some b /\ reach_blob (bname b);
  g_closed : forall t i, t ∈ nt -> i ∈ tree_items t ->
    (mode i = TreeItemMode.Tree -> ObjectHash.fmt (id i) ∈ visited_trees c')
    /\ (blob_mode (mode i) -> ObjectHash.fmt (id i) ∈ visited_blobs c')
}.

Lemma grows_refl c : grows c c [] [].
Proof.
  split; cbn [map list_to_set]; rewrite ?app_nil_r; try done; try set_solver.
  - split; [constructor|set_solver].
  - split; [constructor|set_solver].
Qed.

Lemma grows_mono c c' nt nb : grows c c' nt nb -> visited_trees c ⊆ visited_trees c' /\ visited_blobs c ⊆ visited_blobs c'.
Proof. intros [_ _ -> -> _ _ _ _ _]. split; apply union_subseteq_l. Qed.

Lemma grows_trans c1 c2 c3 nt nb nt' nb' :
  grows c1 c2 nt nb -> grows c2 c3 nt' nb' -> grows c1 c3 (nt ++ nt') (nb ++ nb').
Proof.
  intros G1 G2. pose proof (grows_mono _ _ _ _ G2) as [M1 M2]. destruct G1 as [A1 A2 A3 A4 [A5 A5'] [A6 A6'] A7 A8 A9].
  destruct G2 as [B1 B2 B3 B4 [B5 B5'] [B6 B6'] B7 B8 B9].
  split; rewrite ?map_app, ?list_to_set_app_L; try (rewrite ?B1, ?B2, ?A1, ?A2; by rewrite <- ?app_assoc).
  - by rewrite B3, A3, (assoc_L (∪)).
  - by rewrite B4, A4, (assoc_L (∪)).
  - split; [apply NoDup_app; split_and!; try done|].
    + intros x Hx Hx'. apply list_elem_of_fmap in Hx' as (t & -> & Ht). apply (B5' t Ht). rewrite A3. apply elem_of_union. right. by apply elem_of_list_to_set.
    + intros t [Ht|Ht]%elem_of_app; [by apply A5'|]. intros Hv. apply (B5' t Ht). rewrite A3. by apply elem_of_union_l.
  - split; [apply NoDup_app; split_and!; try done|].
    + intros x Hx Hx'. apply list_elem_of_fmap in Hx' as (b & -> & Hb). apply (B6' b Hb). rewrite A4. apply elem_of_union. right. by apply elem_of_list_to_set.
    + intros b [Hb|Hb]%elem_of_app; [by apply A6'|]. intros Hv. apply (B6' b Hb). rewrite A4. by apply elem_of_union_l.
  - intros t [Ht|Ht]%elem_of_app; auto.
  - intros b [Hb|Hb]%elem_of_app; auto.
  - intros t i [Ht|Ht]%elem_of_app Hi; [|exact (B9 t i Ht Hi)]. destruct (A9 t i Ht Hi) as [C1 C2]. split; auto.
Qed.

Lemma ensure_object_kind_ok what h : ObjectHash.kind h = kind -> ensure_object_kind kind what h = Ok tt.
Proof. intros Hk. unfold ensure_object_kind, ObjectHash.ensure_kind. rewrite Hk. by rewrite bool_decide_true. Qed.

(** ** Trees *)

Abbreviation unvisited c := (size (dom (st_trees st) ∖ visited_trees c)).

Definition collects (p : Prog (Result Collected)) (c : Collected) (done : Collected -> Prop) : Prop :=
  wp (reading st) p (fun r _ => exists c' nt nb, r = Ok c' /\ grows c c' nt nb /\ done c') tt.

Lemma unvisited_mono c c' : visited_trees c ⊆ visited_trees c' -> (unvisited c' <= unvisited c)%nat.
Proof. intros Hs. apply subseteq_size. set_solver. Qed.

(** A new blob. *)
Lemma grows_blob c b h :
  st_blobs st !! h = Some b -> bname b = h -> reach_blob h -> h ∉ visited_blobs c ->
  grows c (push_blob (visit_blob c h) b) [] [b].
Proof.
  intros Hb <- Hr Hn. split; cbn [push_blob visit_blob trees blobs visited_trees visited_blobs map list_to_set]; try done.
  - by rewrite app_nil_r.
  - set_solver.
  - by rewrite union_empty_r_L, (comm_L (∪)).
  - split; [constructor|set_solver].
  - split; [apply NoDup_singleton|]. by intros b' ->%list_elem_of_singleton.
  - set_solver.
  - by intros b' ->%list_elem_of_singleton.
  - set_solver.
Qed.

(** A tree whose entries have been collected after it was marked. *)
Lemma grows_tree c c' t h nt nb :
  st_trees st !! h = Some t -> tname t = h -> reach_tree h -> h ∉ visited_trees c -> grows (visit_tree c h) c' nt nb ->
  (forall i, i ∈ tree_items t -> (mode i = TreeItemMode.Tree -> ObjectHash.fmt (id i) ∈ visited_trees c')
     /\ (blob_mode (mode i) -> ObjectHash.fmt (id i) ∈ visited_blobs c')) ->
  grows c (push_tree c' t) (nt ++ [t]) nb.
Proof.
  intros Ht <- Hr Hn [A1 A2 A3 A4 [A5 A5'] A6 A7 A8 A9] Hi.
  cbn [visit_tree trees blobs visited_trees visited_blobs] in *.
  assert (Hfresh : tname t ∉ map tname nt).
  { intros (t' & E & Ht')%list_elem_of_fmap. apply (A5' t' Ht'). rewrite <- E. set_solver. }
  split; cbn [push_tree trees blobs visited_trees visited_blobs]; try done.
  - by rewrite A1, app_assoc.
  - rewrite A3, map_app, list_to_set_app_L. cbn [map list_to_set]. set_solver.
  - split.
    + rewrite map_app. apply NoDup_app. split_and!; [done| |apply NoDup_singleton].
      intros x Hx ->%list_elem_of_singleton. done.
    + intros t' [Ht'| ->%list_elem_of_singleton]%elem_of_app; [|done]. specialize (A5' t' Ht'). set_solver.
  - by intros t' [Ht'| ->%list_elem_of_singleton]%elem_of_app; [apply A7|].
  - intros t' i [Ht'| ->%list_elem_of_singleton]%elem_of_app Hin; [exact (A9 t' i Ht' Hin)|exact (Hi i Hin)].
Qed.

Lemma collect_entries_wp n rec items c :
  (forall h c, reach_tree h -> (unvisited c < n)%nat -> collects (rec h c) c (fun c' => h ∈ visited_trees c')) ->
  (unvisited c < n)%nat ->
  Forall (fun i => ObjectHash.kind (id i) = kind /\ (mode i = TreeItemMode.Tree -> reach_tree (ObjectHash.fmt (id i)))
    /\ (blob_mode (mode i) -> reach_blob (ObjectHash.fmt (id i)))) items ->
  collects (collect_entries rec kind items c) c (fun c' => forall i, i ∈ items ->
    (mode i = TreeItemMode.Tree -> ObjectHash.fmt (id i) ∈ visited_trees c')
    /\ (blob_mode (mode i) -> ObjectHash.fmt (id i) ∈ visited_blobs c')).
Proof.
  intros Hrec. revert c. induction items as [|i items IH]; intros c Hn Hall; unfold collects; cbn [collect_entries].
  { exists c, [], []. split_and!; [done|apply grows_refl|]. intros i Hi. by apply not_elem_of_nil in Hi. }
  apply Forall_cons_1 in Hall as [(Hk & Ht & Hb) Hall]. rewrite ensure_object_kind_ok by done. apply wp_try. cbn [wp].
  set (h := ObjectHash.fmt (id i)) in *.
  (* the entry itself *)
  match goal with |- wp _ (try ?m _) _ _ => assert (Hentry : collects m c (fun c' =>
    (mode i = TreeItemMode.Tree -> h ∈ visited_trees c') /\ (blob_mode (mode i) -> h ∈ visited_blobs c'))) end.
  { assert (Hblob : blob_mode (mode i) -> collects (if bool_decide (h ∈ visited_blobs c) then Ret (Ok c)
      else let c := visit_blob c h in
        try! blob := try_map_err (fun e => repository_error (str "Failed to get blob " ++ h ++ str ": " ++ error_text e)) (ask (get_blob h)) in
        try! _ := Ret (ensure_object_kind kind (str "blob") (blob_id blob)) in Ret (Ok (push_blob c blob))) c
      (fun c' => h ∈ visited_blobs c')).
    { intros Hm. specialize (Hb Hm). unfold collects. case_bool_decide as Hv; [by exists c, [], []; split_and!; [|apply grows_refl|]|].
      destruct (blob_there Hcomplete h Hb) as (b & Hlook & Hname & Hkb). cbn zeta. apply wp_try, wp_try_map_err, wp_ask; [done|].
      intros x Hx. rewrite (Hx b Hlook). cbn [map_err]. apply wp_try. rewrite ensure_object_kind_ok by done. cbn [wp].
      exists (push_blob (visit_blob c h) b), [], [b]. split_and!; [done|by apply grows_blob|].
      cbn [push_blob visit_blob visited_blobs]. set_solver. }
    destruct (mode i) eqn:Em; unfold collects.
    - eapply wp_mono; [apply Hblob; by left|]. intros r g (c' & nt & nb & ? & ? & ?). exists c', nt, nb. split_and!; done.
    - eapply wp_mono; [apply Hblob; by right|]. intros r g (c' & nt & nb & ? & ? & ?). exists c', nt, nb. split_and!; done.
    - eapply wp_mono; [by apply Hrec; [apply Ht|]|]. intros r g (c' & nt & nb & ? & ? & ?). exists c', nt, nb. split_and!; try done.
      by intros [?|?].
    - exists c, [], []. split_and!; [done|apply grows_refl|done|by intros [?|?]].
    - exists c, [], []. split_and!; [done|apply grows_refl|done|by intros [?|?]]. }
  apply wp_try. eapply wp_mono; [exact Hentry|]. intros r [] (c' & nt & nb & -> & G & Hd1 & Hd2). cbn.
  pose proof (grows_mono _ _ _ _ G) as [M1 M2]. pose proof (unvisited_mono _ _ M1).
  eapply wp_mono; [apply IH; [lia|done]|]. intros r [] (c'' & nt' & nb' & -> & G' & Hd). exists c'', (nt ++ nt'), (nb ++ nb').
  pose proof (grows_mono _ _ _ _ G') as [M1' M2'].
  split_and!; [done|by eapply grows_trans|]. intros j [->|Hj]%elem_of_cons; [|by apply Hd]. split; auto.
Qed.

Lemma collect_tree_wp n h c :
  reach_tree h -> (unvisited c < n)%nat -> collects (collect_tree_objects n kind h c) c (fun c' => h ∈ visited_trees c').
Proof.
  revert h c. induction n as [|n IH]; intros h c Hr Hn; [lia|]. unfold collects. cbn [collect_tree_objects].
  case_bool_decide as Hv; [by exists c, [], []; split_and!; [|apply grows_refl|]|].
  destruct (tree_there Hcomplete h Hr) as (t & Hlook & Hname & Hkt & Hki). cbn zeta. apply wp_try, wp_try_map_err, wp_ask; [done|].
  intros x Hx. rewrite (Hx t Hlook). cbn [map_err]. apply wp_try. rewrite ensure_object_kind_ok by done. cbn [wp]. apply wp_try.
  assert (Hless : (unvisited (visit_tree c h) < n)%nat).
  { cbn [visit_tree visited_trees]. apply (Nat.lt_le_trans _ (unvisited c)); [|lia]. apply subset_size.
    assert (h ∈ dom (st_trees st)) by (apply elem_of_dom; by exists t). set_solver. }
  eapply wp_mono; [apply (collect_entries_wp n); [exact IH|done|]|].
  { rewrite Forall_forall in Hki |- *. intros i Hi. split_and!; [by apply Hki| |].
    - intros Hm. by eapply reach_subtree.
    - intros Hm. by eapply reach_file. }
  intros r [] (c' & nt & nb & -> & G & Hd). cbn [wp]. exists (push_tree c' t), (nt ++ [t]), nb. split_and!; [done| |].
  - by eapply grows_tree.
  - destruct G as [_ _ E _ _ _ _ _ _]. cbn [push_tree visited_trees visit_tree] in *. rewrite E. set_solver.
Qed.

(** ** Commits *)

(** The parents that commits not yet visited can still push. *)
Definition weight (visited : gset bytes) : nat :=
  sum_list (map (fun '(h, c) => if bool_decide (h ∈ visited) then O else length (parent_commit_ids c)) (map_to_list (st_commits st))).

Lemma weight_visit h c visited :
  st_commits st !! h = Some c -> h ∉ visited -> (weight ({[h]} ∪ visited) + length (parent_commit_ids c) <= weight visited)%nat.
Proof.
  intros Hc Hv. unfold weight.
  assert (Hp : map_to_list (st_commits st) ≡ₚ (h, c) :: map_to_list (delete h (st_commits st))).
  { rewrite <- (insert_delete_id (st_commits st) h c) at 1 by done. apply map_to_list_insert. apply lookup_delete_eq. }
  assert (Hsum : forall (f : bytes * Commit -> nat) l l', l ≡ₚ l' -> sum_list (map f l) = sum_list (map f l')).
  { intros f l l' Hl. clear -Hl. induction Hl; cbn; lia. }
  rewrite !(Hsum _ _ _ Hp). cbn [map sum_list].
  assert (Hle : forall l : list (bytes * Commit), (sum_list (map (fun '(h0, c0) => if bool_decide (h0 ∈ {[h]} ∪ visited) then O
    else length (parent_commit_ids c0)) l) <= sum_list (map (fun '(h0, c0) => if bool_decide (h0 ∈ visited) then O
    else length (parent_commit_ids c0)) l))%nat).
  { induction l as [|[h0 c0] l IH]; cbn [map sum_list]; [apply Nat.le_0_l|]. apply Nat.add_le_mono; [|exact IH]. case_bool_decide as E1; [apply Nat.le_0_l|]. rewrite bool_decide_false; [done|]. intros E2. apply E1. by apply elem_of_union_r. }
  specialize (Hle (map_to_list (delete h (st_commits st)))). rewrite bool_decide_true by set_solver. rewrite bool_decide_false by done.
  unfold Datatypes.id. rewrite Nat.add_0_l, Nat.add_comm. apply Nat.add_le_mono_l. exact Hle.
Qed.

Lemma push_parents_ok parents visited queue :
  Forall (fun p => ObjectHash.kind p = kind) parents ->
  exists l, push_parents kind parents visited queue = Ok (queue ++ l) /\ (length l <= length parents)%nat
    /\ (forall x, x ∈ l -> exists p, p ∈ parents /\ x = ObjectHash.fmt p)
    /\ (forall p, p ∈ parents -> ObjectHash.fmt p ∈ visited \/ ObjectHash.fmt p ∈ l).
Proof.
  intros Hk. revert queue. induction Hk as [|p parents Hp _ IH]; intros queue; cbn [push_parents].
  { exists []. rewrite app_nil_r. split_and!; [done|cbn; lia| |]; intros x Hx; by apply not_elem_of_nil in Hx. }
  rewrite ensure_object_kind_ok by done. cbn [rbind]. case_bool_decide as Hv.
  - destruct (IH queue) as (l & E & Hl & Ha & Hb). exists l. split_and!; [done|cbn; lia| |].
    + intros x Hx. destruct (Ha x Hx) as (q & Hq & ->). exists q. split; [by right|done].
    + intros q [->|Hq]%elem_of_cons; [by left|by apply Hb].
  - destruct (IH (queue ++ [ObjectHash.fmt p])) as (l & E & Hl & Ha & Hb). exists (ObjectHash.fmt p :: l).
    split_and!; [by rewrite E, <- app_assoc|cbn; lia| |].
    + intros x [->|Hx]%elem_of_cons; [exists p; split; [by left|done]|]. destruct (Ha x Hx) as (q & Hq & ->). exists q. split; [by right|done].
    + intros q [->|Hq]%elem_of_cons; [right; by left|]. destruct (Hb q Hq); [by left|right; by right].
Qed.

(** The state of the breadth-first loop. *)
Record walk (queue : list bytes) (commits : list Commit) (visited : gset bytes) (c : Collected) : Prop := {
  w_visited : visited = list_to_set (map cname commits);
  w_once : NoDup (map cname commits);
  w_stored : forall x, x ∈ commits -> st_commits st !! cname x = Some x /\ reach_commit (cname x);
  w_queue : forall h, h ∈ queue -> reach_commit h;
  w_roots : forall h, h ∈ roots -> h ∈ visited \/ h ∈ queue;
  w_parents : forall x p, x ∈ commits -> p ∈ parent_commit_ids x -> ObjectHash.fmt p ∈ visited \/ ObjectHash.fmt p ∈ queue;
  w_tree : forall x, x ∈ commits -> ObjectHash.fmt (commit_tree_id x) ∈ visited_trees c;
  w_grows : exists nt nb, grows (mkCollected [] [] ∅ ∅) c nt nb
}.

(** Exactly the objects that can be reached, each once. *)
Definition reachable_objects (objects : Objects3) : Prop :=
  let '(commits, trees, blobs) := objects in
  (forall c, c ∈ commits <-> exists h, reach_commit h /\ st_commits st !! h = Some c) /\ NoDup (map cname commits)
  /\ (forall t, t ∈ trees <-> exists h, reach_tree h /\ st_trees st !! h = Some t) /\ NoDup (map tname trees)
  /\ (forall b, b ∈ blobs <-> exists h, reach_blob h /\ st_blobs st !! h = Some b) /\ NoDup (map bname blobs).

Lemma walk_done commits visited c : walk [] commits visited c -> reachable_objects (commits, trees c, blobs c).
Proof.
  intros [E Hn Hs _ Hr Hp Ht (nt & nb & [A1 A2 A3 A4 [A5 _] [A6 _] A7 A8 A9])].
  cbn [trees blobs visited_trees visited_blobs app] in *. rewrite union_empty_l_L in A3, A4.
  assert (Hc : forall h, reach_commit h -> h ∈ visited).
  { induction 1 as [h Hh|h x p _ IH Hx Hin]; [by destruct (Hr h Hh) as [|?%not_elem_of_nil]|].
    rewrite E in IH. apply elem_of_list_to_set, list_elem_of_fmap in IH as (x' & -> & Hx'). destruct (Hs x' Hx') as [Hlook _].
    simplify_eq. by destruct (Hp x p Hx' Hin) as [|?%not_elem_of_nil]. }
  assert (Hcin : forall h x, reach_commit h -> st_commits st !! h = Some x -> x ∈ commits).
  { intros h x Hh Hx. apply Hc in Hh. rewrite E in Hh. apply elem_of_list_to_set, list_elem_of_fmap in Hh as (x' & -> & Hx').
    destruct (Hs x' Hx') as [Hlook _]. by simplify_eq. }
  assert (Htin : forall h x, h ∈ visited_trees c -> st_trees st !! h = Some x -> x ∈ nt).
  { intros h x Hh Hx. rewrite A3 in Hh. apply elem_of_list_to_set, list_elem_of_fmap in Hh as (x' & -> & Hx').
    destruct (A7 x' Hx') as [Hlook _]. by simplify_eq. }
  assert (Hv : forall h, reach_tree h -> h ∈ visited_trees c).
  { induction 1 as [h x Hh Hx|h x i _ IH Hx Hi Hm]; [by apply Ht, (Hcin h)|]. by apply (A9 x i (Htin h x IH Hx) Hi). }
  rewrite A1, A2. split_and!; try done.
  - intros x. split; [intros Hx; destruct (Hs x Hx); by exists (cname x)|]. intros (h & Hh & Hx). by apply (Hcin h).
  - intros x. split; [intros Hx; destruct (A7 x Hx); by exists (tname x)|]. intros (h & Hh & Hx). apply (Htin h); auto.
  - intros x. split; [intros Hx; destruct (A8 x Hx); by exists (bname x)|]. intros (h & Hh & Hx).
    destruct Hh as [h t i Hh Hlook Hi Hm]. pose proof (proj2 (A9 t i (Htin h t (Hv h Hh) Hlook) Hi) Hm) as Hb.
    rewrite A4 in Hb. apply elem_of_list_to_set, list_elem_of_fmap in Hb as (x' & Ex & Hx'). destruct (A8 x' Hx') as [Hlook' _].
    rewrite <- Ex in Hlook'. by simplify_eq.
Qed.

Lemma collect_commits_wp tree_fuel fuel queue commits visited c :
  (size (st_trees st) < tree_fuel)%nat -> (length queue + weight visited < fuel)%nat -> walk queue commits visited c ->
  wp (reading st) (collect_commits fuel tree_fuel kind queue commits visited c)
    (fun r _ => exists objects, r = Ok objects /\ reachable_objects objects) tt.
Proof.
  intros Htf. revert queue commits visited c. induction fuel as [|fuel IH]; intros queue commits visited c Hf Hw; [lia|].
  cbn [collect_commits]. destruct queue as [|h queue].
  { eexists. split; [done|]. by eapply walk_done. }
  cbn [length] in Hf. case_bool_decide as Hv.
  { apply IH; [lia|]. destruct Hw as [A B C D E F G I]. split; try done.
    - intros h' Hh. apply D. by right.
    - intros h' Hh. destruct (E h' Hh) as [|[->|]%elem_of_cons]; auto.
    - intros x p Hx Hp. destruct (F x p Hx Hp) as [|[->|]%elem_of_cons]; auto. }
  assert (Hreach : reach_commit h) by (apply (w_queue _ _ _ _ Hw); by left).
  destruct (commit_there Hcomplete h Hreach) as (x & Hlook & Hname & Hk1 & Hk2 & Hk3). cbn zeta.
  apply wp_try, wp_try_map_err, wp_ask; [done|]. intros r Hx. rewrite (Hx x Hlook). cbn [map_err]. clear r Hx.
  apply wp_try. rewrite ensure_object_kind_ok by done. cbn [wp]. apply wp_try. rewrite ensure_object_kind_ok by done. cbn [wp].
  destruct (push_parents_ok (parent_commit_ids x) ({[h]} ∪ visited) queue Hk3) as (l & -> & Hl & Hl1 & Hl2).
  apply wp_try. cbn [wp]. apply wp_try. eapply wp_mono.
  { apply collect_tree_wp; [by eapply reach_root_tree|]. apply (Nat.le_lt_trans _ (size (st_trees st))); [|done].
    rewrite <- size_dom. apply subseteq_size. set_solver. }
  intros r [] (c' & nt & nb & -> & G & Hd). cbn. pose proof (weight_visit h x visited Hlook Hv).
  pose proof (grows_mono _ _ _ _ G) as [M1 _].
  apply IH; [rewrite length_app; lia|]. destruct Hw as [A B C D E F T (nt0 & nb0 & I)]. split.
  - rewrite map_app, list_to_set_app_L. cbn [map list_to_set]. rewrite Hname, A. set_solver.
  - rewrite map_app. apply NoDup_app. split_and!; [done| |apply NoDup_singleton].
    intros y Hy ->%list_elem_of_singleton. apply Hv. rewrite A, <- Hname. by apply elem_of_list_to_set.
  - intros y [Hy| ->%list_elem_of_singleton]%elem_of_app; [by apply C|]. by rewrite Hname.
  - intros h' [Hh|Hh]%elem_of_app; [apply D; by right|]. destruct (Hl1 h' Hh) as (q & Hq & ->). by eapply reach_parent.
  - intros h' Hh. destruct (E h' Hh) as [|[->|]%elem_of_cons]; [left; set_solver|left; set_solver|right; set_solver].
  - intros y q [Hy| ->%list_elem_of_singleton]%elem_of_app Hq.
    + destruct (F y q Hy Hq) as [|[->|]%elem_of_cons]; [left; set_solver|left; set_solver|right; set_solver].
    + destruct (Hl2 q Hq); [by left|right; set_solver].
  - intros y [Hy| ->%list_elem_of_singleton]%elem_of_app; [|done]. by apply M1, T.
  - exists (nt0 ++ nt), (nb0 ++ nb). by eapply grows_trans.
Qed.

Lemma collect_all_wp fuel :
  (size (st_trees st) < fuel)%nat -> (length roots + weight ∅ < fuel)%nat ->
  wp (reading st) (collect_all_objects fuel kind roots) (fun r _ => exists objects, r = Ok objects /\ reachable_objects objects) tt.
Proof.
  intros Ht Hf. apply collect_commits_wp; [done|done|]. split; cbn [map list_to_set]; try done.
  - constructor.
  - intros x Hx. by apply not_elem_of_nil in Hx.
  - intros h Hh. by apply reach_root.
  - by right.
  - intros x p Hx. by apply not_elem_of_nil in Hx.
  - intros x Hx. by apply not_elem_of_nil in Hx.
  - exists [], []. apply grows_refl.
Qed.

End reach.


(** * What the peer lacks *)

(** What can be reached from [want] and not from [have], each once. *)
Definition missing_objects `{HexCrate} (st : Store) (want have : list bytes) (objects : Objects3) : Prop :=
  let '(commits, trees, blobs) := objects in
  (forall c, c ∈ commits <-> exists h, reach_commit st want h /\ ~ reach_commit st have h /\ st_commits st !! h = Some c)
  /\ NoDup (map cname commits)
  /\ (forall t, t ∈ trees <-> exists h, reach_tree st want h /\ ~ reach_tree st have h /\ st_trees st !! h = Some t)
  /\ NoDup (map tname trees)
  /\ (forall b, b ∈ blobs <-> exists h, reach_blob st want h /\ ~ reach_blob st have h /\ st_blobs st !! h = Some b)
  /\ NoDup (map bname blobs).

(** One of the three filters; [named] says that what is reached is stored under its name. *)
Lemma filter_missing {A} (name : A -> bytes) (lookup : bytes -> option A) (R R' : bytes -> Prop) (w l : list A) :
  (forall h, R h -> exists a, lookup h = Some a /\ name a = h) -> (forall h, R' h -> exists a, lookup h = Some a /\ name a = h) ->
  (forall a, a ∈ w <-> exists h, R h /\ lookup h = Some a) -> NoDup (map name w) ->
  (forall a, a ∈ l <-> exists h, R' h /\ lookup h = Some a) ->
  let f := filter (fun a => name a ∉ (list_to_set (map name l) : gset bytes)) w in
  (forall a, a ∈ f <-> exists h, R h /\ ~ R' h /\ lookup h = Some a) /\ NoDup (map name f).
Proof.
  intros Hn Hn' Hw Hd Hl f.
  assert (Hset : forall h, h ∈ (list_to_set (map name l) : gset bytes) <-> R' h).
  { intros h. rewrite elem_of_list_to_set, list_elem_of_fmap. split.
    - intros (a & -> & Ha). apply Hl in Ha as (h & Hh & Ha). destruct (Hn' h Hh) as (a' & Ha' & <-). by simplify_eq.
    - intros Hh. destruct (Hn' h Hh) as (a & Ha & <-). exists a. split; [done|]. apply Hl. by exists (name a). }
  split.
  - intros a. unfold f. rewrite list_elem_of_filter, Hset, Hw. split.
    + intros [Hna (h & Hh & Ha)]. exists h. destruct (Hn h Hh) as (a' & Ha' & <-). by simplify_eq.
    + intros (h & Hh & Hnh & Ha). destruct (Hn h Hh) as (a' & Ha' & <-). simplify_eq. split; [done|]. eauto.
  - subst f. clear -Hd. induction w as [|a w IH]; [constructor|]. cbn [map] in Hd. apply NoDup_cons in Hd as [Ha Hd].
    rewrite filter_cons. destruct (decide _); [|by apply IH]. cbn [map]. apply NoDup_cons. split; [|by apply IH].
    intros (b & Eb & Hb)%list_elem_of_fmap. apply list_elem_of_filter in Hb as [_ Hb]. apply Ha. rewrite Eb. by apply list_elem_of_fmap_2.
Qed.

Lemma filter_objects_missing `{HexCrate} st kind want have w l :
  complete st kind want -> complete st kind have -> reachable_objects st want w -> reachable_objects st have l ->
  missing_objects st want have (filter_objects w l).
Proof.
  intros C1 C2 Hw Hl. destruct w as [[wc wt] wb], l as [[lc lt] lb]. destruct Hw as (W1 & W2 & W3 & W4 & W5 & W6).
  destruct Hl as (L1 & _ & L3 & _ & L5 & _). unfold filter_objects, missing_objects.
  pose proof (filter_missing cname (fun h => st_commits st !! h) (reach_commit st want) (reach_commit st have) wc lc) as Fc.
  pose proof (filter_missing tname (fun h => st_trees st !! h) (reach_tree st want) (reach_tree st have) wt lt) as Ft.
  pose proof (filter_missing bname (fun h => st_blobs st !! h) (reach_blob st want) (reach_blob st have) wb lb) as Fb.
  destruct Fc as [Fc1 Fc2]; try done.
  { intros h Hh. destruct (commit_there _ _ _ C1 h Hh) as (x & ? & ? & _). eauto. }
  { intros h Hh. destruct (commit_there _ _ _ C2 h Hh) as (x & ? & ? & _). eauto. }
  destruct Ft as [Ft1 Ft2]; try done.
  { intros h Hh. destruct (tree_there _ _ _ C1 h Hh) as (x & ? & ? & _). eauto. }
  { intros h Hh. destruct (tree_there _ _ _ C2 h Hh) as (x & ? & ? & _). eauto. }
  destruct Fb as [Fb1 Fb2]; try done.
  { intros h Hh. destruct (blob_there _ _ _ C1 h Hh) as (x & ? & ? & _). eauto. }
  { intros h Hh. destruct (blob_there _ _ _ C2 h Hh) as (x & ? & ? & _). eauto. }
Qed.

(** an incremental pack is made of exactly the objects reachable from the wanted commits and
    not from those the peer has. *)
Theorem incremental_objects `{TextEnv} `{ByteSearch} `{HexCrate} `{Hasher} `{PackWriter} (join_text : bytes) (st : Store)
  (kind : HashKind.t) (want have : list bytes) (fuel : nat) (t : list Event) (r : Result PackStream) :
  complete st kind want -> complete st kind have ->
  (size (st_trees st) < fuel)%nat -> (length want + length have + weight st ∅ < fuel)%nat ->
  runs (generate_incremental_pack join_text fuel kind want have) t r -> answered (reading st) tt t ->
  obeys (reading st) tt t /\ exists objects, r = Ok (spawn_pack_stream join_text kind objects) /\ missing_objects st want have objects.
Proof.
  intros C1 C2 Ht Hf Hr Ha. refine (wp_sound _ _ (fun r _ => exists objects, r = Ok (spawn_pack_stream join_text kind objects)
    /\ missing_objects st want have objects) _ _ _ _ Hr Ha). unfold generate_incremental_pack. apply wp_try.
  eapply wp_mono; [apply collect_all_wp; [exact C1|done|lia]|]. intros r1 [] (w & -> & Hw). apply wp_try.
  eapply wp_mono; [apply collect_all_wp; [exact C2|done|lia]|]. intros r2 [] (l & -> & Hl). cbn [wp].
  exists (filter_objects w l). split; [done|]. by eapply filter_objects_missing.
Qed.

(** * A repository for concrete runs *)

(** A repository that answers from a store and accepts every write. *)
Definition store_repo (st : Store) (kind : HashKind.t) : Repo := {|
  repo_state := unit;
  repo_step := fun X (c : Call X) s =>
    (match c in Call X return X with
     | object_hash_kind => kind
     | get_repository_refs => Ok []
     | has_object h => Ok (bool_decide (is_Some (st_commits st !! h) \/ is_Some (st_trees st !! h) \/ is_Some (st_blobs st !! h)))
     | get_object h => Err (ProtoObjectNotFound h)
     | store_pack_data _ => Ok tt
     | update_reference _ _ _ => Ok tt
     | get_objects_for_pack _ _ => Ok []
     | has_default_branch => Ok true
     | post_receive_hook => Ok tt
     | get_blob h => ok_or (st_blobs st !! h) (ProtoObjectNotFound h)
     | get_commit h => ok_or (st_commits st !! h) (ProtoObjectNotFound h)
     | get_tree h => ok_or (st_trees st !! h) (ProtoObjectNotFound h)
     | commit_exists h => Ok (bool_decide (is_Some (st_commits st !! h)))
     | handle_pack_objects _ _ _ => Ok tt
     | auth_http _ => Ok tt
     | auth_ssh _ _ => Ok tt
     | decode_pack _ _ => (Ok tt, [])
     end, s)
|}.

(** Its answers are those of the store. *)
Lemma store_repo_answers st kind {A} (p : Prog A) s g : answered (reading st) g (run (store_repo st kind) p s).2.
Proof. apply run_answered. intros X c s' g'. by destruct c; cbn; try done; intros o ->. Qed.

Definition link_tree : Tree := mkTree (sample_id 5)
  [mkTreeItem TreeItemMode.Blob (sample_id 1) (str "file"); mkTreeItem TreeItemMode.Link (sample_id 2) (str "link")].
Definition link_commit : Commit := mkCommit (sample_id 7) (sample_id 5) [] (author sample_commit) (committer sample_commit) (str "x").
Definition hex_name (h : ObjectHash.t) : bytes := @ObjectHash.fmt hex_reference h.

Definition link_store : Store := mkStore {[hex_name (sample_id 7) := link_commit]} {[hex_name (sample_id 5) := link_tree]}
  (<[hex_name (sample_id 1) := mkBlob (sample_id 1) [104; 105]]> {[hex_name (sample_id 2) := mkBlob (sample_id 2) (str "file")]}).

(** the target of a symbolic link is left out of packs: a tree entry of mode [120000] refers
    to a blob like a file's does, but the traversal passes over it, so a pack made for the commit
    lacks the blob, which the store holds. *)
Theorem link_blobs_left_out :
  st_blobs link_store !! hex_name (sample_id 2) = Some (mkBlob (sample_id 2) (str "file"))
  /\ (run (store_repo link_store HashKind.Sha1)
        (@collect_all_objects plain_texts hex_reference 3 HashKind.Sha1 [hex_name (sample_id 7)]) tt).1.1
     = Ok ([link_commit], [link_tree], [mkBlob (sample_id 1) [104; 105]]).
Proof. split; vm_compute; reflexivity. Qed.

Lemma link_store_complete roots :
  Forall (fun h => h = hex_name (sample_id 7)) roots -> @complete hex_reference link_store HashKind.Sha1 roots.
Proof.
  intros Hroots. rewrite Forall_forall in Hroots.
  assert (Hc : forall h, @reach_commit hex_reference link_store roots h -> h = hex_name (sample_id 7)).
  { induction 1 as [h Hh|h c p _ IH Hlook Hp]; [by apply Hroots|]. subst h.
    replace c with link_commit in Hp by (vm_compute in Hlook; by injection Hlook). by apply not_elem_of_nil in Hp. }
  assert (Ht : forall h, @reach_tree hex_reference link_store roots h -> h = hex_name (sample_id 5)).
  { induction 1 as [h c Hh Hlook|h t i _ IH Hlook Hi Hm].
    - apply Hc in Hh as ->. replace c with link_commit by (vm_compute in Hlook; by injection Hlook). done.
    - subst h. replace t with link_tree in Hi by (vm_compute in Hlook; by injection Hlook).
      cbn [link_tree tree_items] in Hi. by apply elem_of_cons in Hi as [->|[->|?%not_elem_of_nil]%elem_of_cons]. }
  split; intros h Hh.
  - apply Hc in Hh as ->. exists link_commit. split_and!; try (vm_compute; reflexivity). apply Forall_nil_2.
  - apply Ht in Hh as ->. exists link_tree. split_and!; try (vm_compute; reflexivity). by repeat apply Forall_cons_2; try apply Forall_nil_2.
  - destruct Hh as [h t i Hh Hlook Hi Hm]. apply Ht in Hh as ->.
    replace t with link_tree in Hi by (vm_compute in Hlook; by injection Hlook).
    cbn [link_tree tree_items] in Hi. apply elem_of_cons in Hi as [->|[->|?%not_elem_of_nil]%elem_of_cons]; [|by destruct Hm|done].
    exists (mkBlob (sample_id 1) [104; 105]). split_and!; vm_compute; reflexivity.
Qed.


Lemma incremental_objects_witness :
  let p := @generate_incremental_pack plain_texts hex_reference toy_hasher (fun _ _ => (Ok tt, [])) [] 4 HashKind.Sha1
    [hex_name (sample_id 7)] [hex_name (sample_id 7)] in
  let t := (run (store_repo link_store HashKind.Sha1) p tt).2 in
  obeys (reading link_store) tt t
  /\ exists objects, (run (store_repo link_store HashKind.Sha1) p tt).1.1
       = Ok (@spawn_pack_stream plain_texts hex_reference toy_hasher (fun _ _ => (Ok tt, [])) [] HashKind.Sha1 objects)
     /\ @missing_objects hex_reference link_store [hex_name (sample_id 7)] [hex_name (sample_id 7)] objects.
Proof.
  intros p t. apply (@incremental_objects plain_texts linear_search hex_reference toy_hasher (fun _ _ => (Ok tt, [])) [] link_store
    HashKind.Sha1 [hex_name (sample_id 7)] [hex_name (sample_id 7)] 4 t).
  - apply link_store_complete. by apply Forall_singleton.
  - apply link_store_complete. by apply Forall_singleton.
  - vm_compute. lia.
  - vm_compute. lia.
  - apply run_runs.
  - apply store_repo_answers.
Defined.
