(* ===== verification/Smart.v ===== *)
(** The smart protocol, [src/protocol/smart.rs]: [SmartProtocol] and its handlers.

    A method on [&self] is a program ([Prog]) with the protocol's state as argument; one on
    [&mut self] is in the monad [M], which also returns the state, as it is by then, with an
    error.  The loops over packet lines take the length of the request as fuel, since every
    round consumes at least four bytes of it. *)

From Stdlib Require Import ZArith Lia String.
From stdpp Require Import base tactics list numbers option gmap.
From S2P Require Import Prelude Stream Text Errors ObjectTypes PackUtils Hash PackIndex Signature Tree Commit Tag Objects PktLine ProtocolTypes Repository PackGenerator.

(** * Text *)

(** The first character of a valid string that is not empty, and its width in bytes. *)
Definition first_char (s : bytes) : Z * nat :=
  let b i := default 0 (s !! i) in
  if b 0%nat <? 128 then (b 0%nat, 1%nat)
  else if b 0%nat <? 224 then ((b 0%nat - 192) * 64 + (b 1%nat - 128), 2%nat)
  else if b 0%nat <? 240 then ((b 0%nat - 224) * 4096 + (b 1%nat - 128) * 64 + (b 2%nat - 128), 3%nat)
  else ((b 0%nat - 240) * 262144 + (b 1%nat - 128) * 4096 + (b 2%nat - 128) * 64 + (b 3%nat - 128), 4%nat).

Fixpoint split_ws_loop (fuel : nat) (s cur : bytes) : list bytes :=
  match fuel, s with
  | O, _ | _, [] => if bool_decide (cur = []) then [] else [cur]
  | S fuel, _ =>
      let '(c, w) := first_char s in
      if is_whitespace c
      then (if bool_decide (cur = []) then [] else [cur]) ++ split_ws_loop fuel (drop w s) []
      else split_ws_loop fuel (drop w s) (cur ++ take w s)
  end.

(** [str::split_whitespace]. *)
Definition split_whitespace (s : bytes) : list bytes := split_ws_loop (length s) s [].

Definition ends_with (p s : bytes) : bool := (blen p <=? blen s) && bool_decide (drop (length s - length p) s = p).

Definition is_ascii_uppercase (b : Z) : bool := (65 <=? b) && (b <=? 90).

(** * State *)

Record SmartProtocol : Type := mkSmart {
  transport_protocol : TransportProtocol;
  capabilities : list Capability;
  side_band : option SideBandType;
  command_list : list RefCommand;
  wire_hash_kind : HashKind.t;
  local_hash_kind : HashKind.t;
  zero_id : bytes
}.

Definition M (A : Type) : Type := SmartProtocol -> Prog (Result A * SmartProtocol).

Definition mdone {A} (a : A) : M A := fun self => Ret (Ok a, self).
Definition mfail {A} (e : ProtocolError) : M A := fun self => Ret (Err e, self).
Definition mstep {A B} (m : M A) (k : A -> M B) : M B := fun self =>
  do! '(r, self) := m self in
  match r with
  | Ok a => k a self
  | Err e => Ret (Err e, self)
  | Panic => Ret (Panic, self)
  | OutOfFuel => Ret (OutOfFuel, self)
  end.
(** A call of a method on [&self]. *)
Definition mself {A} (p : SmartProtocol -> Prog (Result A)) : M A := fun self => do! r := p self in Ret (r, self).
Definition mset (f : SmartProtocol -> SmartProtocol) : M unit := fun self => Ret (Ok tt, f self).

Notation "'step!' x ':=' m 'in' k" := (mstep m (fun x => k)) (at level 10, x binder, m at level 100, k at level 200) : prog_scope.

Definition set_capabilities (caps : list Capability) (self : SmartProtocol) : SmartProtocol :=
  mkSmart (transport_protocol self) caps (side_band self) (command_list self) (wire_hash_kind self) (local_hash_kind self) (zero_id self).
Definition set_command_list (commands : list RefCommand) (self : SmartProtocol) : SmartProtocol :=
  mkSmart (transport_protocol self) (capabilities self) (side_band self) commands (wire_hash_kind self) (local_hash_kind self) (zero_id self).
Definition set_transport_protocol (protocol : TransportProtocol) (self : SmartProtocol) : SmartProtocol :=
  mkSmart protocol (capabilities self) (side_band self) (command_list self) (wire_hash_kind self) (local_hash_kind self) (zero_id self).

Section smart.
Context `{TextEnv} `{ByteSearch} `{HexCrate} `{Hasher} `{PackWriter}.
Context (join_text : bytes).

Implicit Types self : SmartProtocol.

Definition set_wire_hash_kind (kind : HashKind.t) self : SmartProtocol :=
  mkSmart (transport_protocol self) (capabilities self) (side_band self) (command_list self) kind (local_hash_kind self)
    (ObjectHash.zero_str kind).

Definition SmartProtocol_new (transport : TransportProtocol) : Prog SmartProtocol :=
  do! local := ask object_hash_kind in
  Ret (mkSmart transport [] None [] local local (ObjectHash.zero_str local)).

Definition ensure_hash_kind_consistency self : Prog (Result unit) :=
  do! repository := ask object_hash_kind in
  if negb (bool_decide (repository = local_hash_kind self)) || negb (bool_decide (wire_hash_kind self = local_hash_kind self))
  then Ret (Err (object_format_mismatch (wire_hash_kind self) (local_hash_kind self) repository))
  else
    let expected_zero := ObjectHash.zero_str (wire_hash_kind self) in
    if negb (bool_decide (zero_id self = expected_zero))
    then Ret (Err (invalid_request (str "zero ID `" ++ take_chars 80 (zero_id self) ++ str "` does not match object-format "
           ++ HashKind.as_str (wire_hash_kind self) ++ str " (expected " ++ show_dec (HashKind.hex_len (wire_hash_kind self))
           ++ str " hex zeros)")))
    else Ret (Ok tt).

Definition parse_wire_id self (command id : bytes) : Result bytes :=
  let! hash := map_err (fun e => invalid_wire_id command id (hash_error_text e))
    (ObjectHash.from_hex_for_kind (wire_hash_kind self) id) in
  if existsb is_ascii_uppercase id
  then Err (invalid_wire_id command id
         (str "object IDs on the wire must be raw lowercase hex (expected " ++ show_dec (HashKind.hex_len (wire_hash_kind self))
          ++ str " lowercase hex chars for " ++ HashKind.as_str (wire_hash_kind self) ++ str ", got uppercase characters)"))
  else Ok (ObjectHash.fmt hash).

Definition authenticate_http self (headers : gmap bytes bytes) : Prog (Result unit) := ask (auth_http headers).
Definition authenticate_ssh self (username public_key : bytes) : Prog (Result unit) := ask (auth_ssh username public_key).

(** ** Reference advertisement *)

Fixpoint check_refs self (hex_len : Z) (refs : list (bytes * bytes)) : Result unit :=
  match refs with
  | [] => Ok tt
  | (name, h) :: refs =>
      if negb (blen h =? hex_len)
      then Err (invalid_request (str "Hash length mismatch for ref " ++ name ++ str ": expected " ++ show_dec hex_len
             ++ str ", got " ++ show_dec (blen h)))
      else
        let! _ := map_err (fun e => invalid_request (str "Invalid hash for ref " ++ name ++ str ": " ++ error_text e))
          (parse_wire_id self (str "info-refs") h) in
        check_refs self hex_len refs
  end.

Fixpoint find_head (refs : list (bytes * bytes)) : option bytes :=
  match refs with
  | [] => None
  | (name, hash) :: refs =>
      if bool_decide (name = str "HEAD") || ends_with (str "/main") name || ends_with (str "/master") name
      then Some hash else find_head refs
  end.

Definition cap_list self (service_type : ServiceType) : bytes :=
  let format_cap := str " object-format=" ++ HashKind.as_str (wire_hash_kind self) in
  match service_type with
  | UploadPack => UPLOAD_CAP_LIST ++ COMMON_CAP_LIST ++ format_cap
  | ReceivePack => RECEIVE_CAP_LIST ++ COMMON_CAP_LIST ++ format_cap
  end.

(** The lines of the advertisement. *)
Definition advertisement self (service_type : ServiceType) (refs : list (bytes * bytes)) : list bytes :=
  let head_hash := default (zero_id self) (find_head refs) in
  let name := if bool_decide (head_hash = zero_id self) then str "capabilities^{}" else str "HEAD" in
  (head_hash ++ [SP] ++ name ++ [NUL] ++ cap_list self service_type ++ [LF])
  :: map (fun '(name, hash) => hash ++ [SP] ++ name ++ [LF]) refs.

Definition git_info_refs self (service_type : ServiceType) : Prog (Result bytes) :=
  try! _ := ensure_hash_kind_consistency self in
  try! refs := try_map_err (fun e => repository_error (str "Failed to get refs: " ++ error_text e)) (ask get_repository_refs) in
  try! _ := ensure_hash_kind_consistency self in
  try! _ := Ret (check_refs self (HashKind.hex_len (wire_hash_kind self)) refs) in
  Ret (Ok (build_smart_reply (transport_protocol self) (advertisement self service_type refs) (ServiceType_fmt service_type))).

(** ** Capabilities and commands *)

Fixpoint parse_caps_loop (caps : list bytes) : M unit :=
  match caps with
  | [] => mdone tt
  | cap :: caps =>
      match strip_prefix (str "object-format=") cap with
      | Some fmt =>
          match HashKind.from_str fmt with
          | Ok kind =>
              if negb (bool_decide (HashKind.as_str kind = fmt)) then mfail (unknown_object_format fmt)
              else
                step! repository := mself (fun _ => do! k := ask object_hash_kind in Ret (Ok k)) in
                fun self =>
                  if negb (bool_decide (kind = local_hash_kind self)) || negb (bool_decide (kind = repository))
                  then Ret (Err (object_format_mismatch kind (local_hash_kind self) repository), self)
                  else
                    let self := set_wire_hash_kind kind self in
                    let self := set_capabilities (capabilities self ++ [ObjectFormat (HashKind.as_str kind)]) self in
                    parse_caps_loop caps self
          | _ => mfail (unknown_object_format fmt)
          end
      | None => fun self => parse_caps_loop caps (set_capabilities (capabilities self ++ [Capability_from_str cap]) self)
      end
  end.

Definition parse_capabilities (cap_str : bytes) : M unit :=
  step! _ := mself ensure_hash_kind_consistency in
  parse_caps_loop (split_whitespace cap_str).

Definition parse_ref_command self (pkt_line : bytes) : Result RefCommand :=
  let '(old_id, pkt_line) := read_until_white_space pkt_line in
  let '(new_id, pkt_line) := read_until_white_space pkt_line in
  let '(name, pkt_line) := read_until_white_space pkt_line in
  let! old_id := parse_wire_id self (str "receive-pack old-id") old_id in
  let! new_id := parse_wire_id self (str "receive-pack new-id") new_id in
  if bool_decide (name = []) then Err (invalid_request (str "receive-pack command is missing the ref name"))
  else Ok (RefCommand_new old_id new_id name).

(** The capabilities behind the NUL of a first line, and the command of a line. *)
Definition first_line_capabilities (first_line : bool) (pkt_line : bytes) : M unit :=
  if first_line then
    match linear_search 0 pkt_line with
    | Some pos => parse_capabilities (from_utf8_lossy (drop (Z.to_nat (pos + 1)) pkt_line))
    | None => mdone tt
    end
  else mdone tt.

Definition push_command (pkt_line : bytes) : M unit := fun self =>
  match parse_ref_command self pkt_line with
  | Ok c => Ret (Ok tt, set_command_list (command_list self ++ [c]) self)
  | Err e => Ret (Err e, self)
  | Panic => Ret (Panic, self)
  | OutOfFuel => Ret (OutOfFuel, self)
  end.

Fixpoint commands_loop (fuel : nat) (protocol_bytes : bytes) (first_line : bool) : M unit :=
  match fuel with
  | O => fun self => Ret (OutOfFuel, self)
  | S fuel =>
      let '((bytes_take, pkt_line), protocol_bytes) := read_pkt_line protocol_bytes in
      if bytes_take =? 0 then mdone tt
      else if bool_decide (pkt_line = []) then mdone tt
      else
        step! _ := first_line_capabilities first_line pkt_line in
        step! _ := push_command pkt_line in
        commands_loop fuel protocol_bytes false
  end.

Definition parse_receive_pack_commands (protocol_bytes : bytes) : M unit :=
  step! _ := mset (set_command_list []) in
  step! _ := mset (set_capabilities []) in
  step! _ := mself ensure_hash_kind_consistency in
  commands_loop (S (length protocol_bytes)) protocol_bytes true.

(** ** Fetch *)

Definition NAK : bytes := str "NAK" ++ [10].

Fixpoint upload_loop (fuel : nat) (upload_request : bytes) (want have : list bytes) (read_first_line : bool)
  : M (list bytes * list bytes) :=
  match fuel with
  | O => fun self => Ret (OutOfFuel, self)
  | S fuel =>
      let '((bytes_take, pkt_line), upload_request) := read_pkt_line upload_request in
      if bytes_take =? 0 then mdone (want, have)
      else if bool_decide (pkt_line = []) then mdone (want, have)
      else
        let '(command, pkt_line) := read_until_white_space pkt_line in
        if bool_decide (command = str "want") then
          let '(hash, pkt_line) := read_until_white_space pkt_line in
          step! _ := if read_first_line then mdone tt else parse_capabilities (from_utf8_lossy pkt_line) in
          step! id := mself (fun self => Ret (parse_wire_id self (str "want") hash)) in
          upload_loop fuel upload_request (want ++ [id]) have true
        else if bool_decide (command = str "have") then
          let '(hash, pkt_line) := read_until_white_space pkt_line in
          step! id := mself (fun self => Ret (parse_wire_id self (str "have") hash)) in
          upload_loop fuel upload_request want (have ++ [id]) read_first_line
        else if bool_decide (command = str "done") then mdone (want, have)
        else upload_loop fuel upload_request want have read_first_line
  end.

(** The loop over the haves: the acknowledgements and the first common commit. *)
Fixpoint common_loop (have : list bytes) (protocol_buf last_common_commit : bytes) : Prog (Result (bytes * bytes)) :=
  match have with
  | [] => Ret (Ok (protocol_buf, last_common_commit))
  | hash :: have =>
      try! found := try_map_err (fun e => repository_error (str "Failed to check commit existence: " ++ error_text e))
        (ask (commit_exists hash)) in
      if found : bool
      then common_loop have (add_pkt_line_string protocol_buf (str "ACK " ++ hash ++ str " common" ++ [10]))
             (if bool_decide (last_common_commit = []) then hash else last_common_commit)
      else common_loop have protocol_buf last_common_commit
  end.

(** [fuel] is that of the object traversals. *)
Definition git_upload_pack (fuel : nat) (upload_request : bytes) : M (PackStream * bytes) :=
  step! _ := mset (set_capabilities []) in
  step! _ := mself ensure_hash_kind_consistency in
  step! '(want, have) := upload_loop (S (length upload_request)) upload_request [] [] false in
  mself (fun self =>
    if bool_decide (have = []) then
      let protocol_buf := add_pkt_line_string [] NAK in
      try! _ := ensure_hash_kind_consistency self in
      try! pack_stream := generate_full_pack join_text fuel (local_hash_kind self) want in
      try! _ := ensure_hash_kind_consistency self in
      Ret (Ok (pack_stream, protocol_buf))
    else
      try! '(protocol_buf, last_common_commit) := common_loop have [] [] in
      try! _ := ensure_hash_kind_consistency self in
      if bool_decide (last_common_commit = []) then
        let protocol_buf := add_pkt_line_string protocol_buf NAK in
        try! pack_stream := generate_full_pack join_text fuel (local_hash_kind self) want in
        try! _ := ensure_hash_kind_consistency self in
        Ret (Ok (pack_stream, protocol_buf))
      else
        let protocol_buf := add_pkt_line_string protocol_buf (str "ACK " ++ last_common_commit ++ str " ready" ++ [10]) in
        try! pack_stream := generate_incremental_pack join_text fuel (local_hash_kind self) want have in
        try! _ := ensure_hash_kind_consistency self in
        Ret (Ok (pack_stream, protocol_buf))).

(** ** Push *)

(** The drained request. *)
Fixpoint collect_stream (chunks : list (Result bytes)) (request_data : bytes) : Result bytes :=
  match chunks with
  | [] => Ok request_data
  | chunk :: chunks =>
      let! chunk := map_err (fun e => invalid_request (str "Stream error: " ++ error_text e)) chunk in
      collect_stream chunks (request_data ++ chunk)
  end.

(** The commands, and what follows the flush. *)
Fixpoint receive_loop (fuel : nat) (protocol_bytes : bytes) (first_line : bool) : M (bool * bytes) :=
  match fuel with
  | O => fun self => Ret (OutOfFuel, self)
  | S fuel =>
      let '((bytes_take, pkt_line), protocol_bytes) := read_pkt_line protocol_bytes in
      if bytes_take =? 0 then
        if bool_decide (protocol_bytes = []) then mdone (false, protocol_bytes)
        else mfail (invalid_request (str "Invalid pkt-line in receive-pack request"))
      else if bool_decide (pkt_line = []) then mdone (true, protocol_bytes)
      else
        step! _ := first_line_capabilities first_line pkt_line in
        step! _ := push_command pkt_line in
        receive_loop fuel protocol_bytes false
  end.

Definition set_default_branch (c : RefCommand) : RefCommand :=
  mkRefCommand (old_hash c) (new_hash c) (rc_name c) (ref_type c) true (status c) (error_message c).

(** The reference updates: the commands with their new status, the result, and the report. *)
Fixpoint update_loop self (commands : list RefCommand) (default_exist : bool) (report_status : bytes)
  : Prog (list RefCommand * Result unit * bytes) :=
  match commands with
  | [] => Ret ([], Ok tt, report_status)
  | command :: commands =>
      do! checked := ensure_hash_kind_consistency self in
      match checked with
      | Ok _ =>
          let '(command, default_exist) :=
            if bool_decide (ref_type command = Tag) then (command, default_exist)
            else if negb default_exist then (set_default_branch command, true) else (command, default_exist) in
          let old := if bool_decide (old_hash command = zero_id self) then None else Some (old_hash command) in
          do! updated := ask (update_reference (rc_name command) old (new_hash command)) in
          match updated with
          | Panic => Ret (command :: commands, Panic, report_status)
          | OutOfFuel => Ret (command :: commands, OutOfFuel, report_status)
          | updated =>
              let command := match updated with Err e => failed command (error_text e) | _ => command end in
              do! '(rest, r, report_status) := update_loop self commands default_exist
                (add_pkt_line_string report_status (get_status command)) in
              Ret (command :: rest, r, report_status)
          end
      | checked => Ret (command :: commands, checked, report_status)
      end
  end.

Definition git_receive_pack_stream (data_stream : list (Result bytes)) : M bytes :=
  step! _ := mself ensure_hash_kind_consistency in
  step! protocol_bytes := mself (fun _ => Ret (collect_stream data_stream [])) in
  step! _ := mset (set_command_list []) in
  step! _ := mset (set_capabilities []) in
  step! _ := mself ensure_hash_kind_consistency in
  step! '(saw_flush, protocol_bytes) := receive_loop (S (length protocol_bytes)) protocol_bytes true in
  if negb saw_flush then mfail (invalid_request (str "Missing flush before pack data"))
  else
    step! _ := mself (fun self =>
      if bool_decide (protocol_bytes = []) then Ret (Ok tt)
      else
        try! '(commits, trees, blobs) := unpack_stream (local_hash_kind self) protocol_bytes in
        try! _ := ensure_hash_kind_consistency self in
        try_map_err (fun e => repository_error (str "Failed to store pack objects: " ++ error_text e))
          (ask (handle_pack_objects commits trees blobs))) in
    let report_status := add_pkt_line_string [] (str "unpack ok" ++ [10]) in
    step! default_exist := mself (fun _ => try_map_err (fun e => repository_error (str "Failed to check default branch: " ++ error_text e))
      (ask has_default_branch)) in
    step! report_status := fun self =>
      do! '(commands, update_result, report_status) :=
        update_loop (set_command_list [] self) (command_list self) default_exist report_status in
      Ret (let! _ := update_result in Ok report_status, set_command_list commands self) in
    step! _ := mself ensure_hash_kind_consistency in
    step! _ := mself (fun _ => try_map_err (fun e => repository_error (str "Post-receive hook failed: " ++ error_text e)) (ask post_receive_hook)) in
    step! _ := mself ensure_hash_kind_consistency in
    mdone (report_status ++ PKT_LINE_END_MARKER).

Definition build_side_band_format `{Build} self (from_bytes : bytes) (length : Z) : Res Empty_set bytes :=
  if bool_decide (SideBand ∈ capabilities self) || bool_decide (SideBand64k ∈ capabilities self)
  then
    let! length := if length + 5 <=? usize_max then Ok (length + 5) else overflow (as_u64 (length + 5)) in
    Ok ((show_hex04 length ++ [SideBand_value PackfileData]) ++ from_bytes)
  else Ok from_bytes.

End smart.
