(* ===== verification/SmartProofs.v ===== *)
(** The smart protocol fails closed: what its handlers do is guarded by checks of the object
    format, whatever the repository answers and however it changes. *)

From Stdlib Require Import ZArith Lia String.
From stdpp Require Import base tactics list numbers option gmap.
From S2P Require Import Prelude Stream Text Errors ObjectTypes PackUtils Hash PackIndex Signature Tree Commit Tag Objects PktLine ProtocolTypes Repository PackGenerator Smart.

(** * Rules *)

Section rules.
Context (C : Contract).

(** What follows an outcome: the continuation on a value, the end otherwise. *)
Definition on_result {A B} (k : A -> SmartProtocol -> ghost C -> Prop) (Q : Result B * SmartProtocol -> ghost C -> Prop)
  (x : Result A * SmartProtocol) (g : ghost C) : Prop :=
  match x.1 with
  | Ok a => k a x.2 g
  | Err e => Q (Err e, x.2) g
  | Panic => Q (Panic, x.2) g
  | OutOfFuel => Q (OutOfFuel, x.2) g
  end.

Lemma wp_step {A B} (m : M A) (k : A -> M B) Q self g :
  wp C (m self) (on_result (fun a self => wp C (k a self) Q) Q) g -> wp C (mstep m k self) Q g.
Proof.
  intros Hm. unfold mstep. apply wp_bind. eapply wp_mono; [exact Hm|]. intros [[a|e| |] s] g' Hr; exact Hr.
Qed.

Lemma wp_self {A} (p : SmartProtocol -> Prog (Result A)) Q self g :
  wp C (p self) (fun r => Q (r, self)) g -> wp C (mself p self) Q g.
Proof. intros Hp. unfold mself. apply wp_bind. exact Hp. Qed.

End rules.

(** * Guards *)

(** Calls with an effect on the repository. *)
Definition writes {X} (c : Call X) : bool :=
  match c with
  | store_pack_data _ | update_reference _ _ _ | post_receive_hook | handle_pack_objects _ _ _ => true
  | _ => false
  end.

(** The ghost state says whether the last call was a check of the repository's format that
    answered [local]; a call with an effect must come right after one. *)
Definition guarding (local : HashKind.t) : Contract := {|
  ghost := bool;
  may_answer := fun X c x g => True;
  may_call := fun X c g => writes c = true -> g = true;
  advance := fun X (c : Call X) => match c in Call X return X -> bool -> bool with
    | object_hash_kind => fun k _ => bool_decide (k = local)
    | _ => fun _ _ => false
    end
|}.

Section guards.
Context `{TextEnv} `{ByteSearch} `{HexCrate} `{Hasher} `{PackWriter}.

(** The binding that every handler checks. *)
Definition consistent (self : SmartProtocol) : Prop :=
  wire_hash_kind self = local_hash_kind self /\ zero_id self = ObjectHash.zero_str (wire_hash_kind self).

Context (local : HashKind.t).

Abbreviation G := (guarding local).

(** A check that passes leaves the guard up. *)
Lemma ensure_wp self (Q : Result unit -> bool -> Prop) g :
  local_hash_kind self = local -> (consistent self -> Q (Ok tt) true) -> (forall e g, Q (Err e) g) ->
  wp G (ensure_hash_kind_consistency self) Q g.
Proof.
  intros Hl Hok Herr. unfold ensure_hash_kind_consistency. apply wp_bind, wp_ask; [discriminate|]. intros k _. cbn [advance guarding].
  rewrite Hl. repeat case_bool_decide; subst; cbn [negb orb wp]; try apply Herr. apply Hok. by split; congruence.
Qed.

Lemma ensure_step {B} (k : M B) Q self g :
  local_hash_kind self = local -> (consistent self -> wp G (k self) Q true) -> (forall e g, Q (Err e, self) g) ->
  wp G (mstep (mself ensure_hash_kind_consistency) (fun _ => k) self) Q g.
Proof. intros Hl Hok Herr. apply wp_step, wp_self, ensure_wp; auto. Qed.

Lemma ensure_try {B} (k : Prog (Result B)) (Q : Result B -> bool -> Prop) self g :
  local_hash_kind self = local -> (consistent self -> wp G k Q true) -> (forall e g, Q (Err e) g) ->
  wp G (try (ensure_hash_kind_consistency self) (fun _ => k)) Q g.
Proof. intros Hl Hok Herr. apply wp_try, ensure_wp; auto. Qed.

(** Programs that only read leave the guard in any position. *)
Fixpoint reads_only {A} (p : Prog A) : Prop :=
  match p with
  | Ret _ => True
  | Ask c k => writes c = false /\ forall x, reads_only (k x)
  end.

Lemma reads_only_wp {A} (p : Prog A) Q g : reads_only p -> (forall a g, Q a g) -> wp G p Q g.
Proof.
  revert g. induction p as [a|X c k IH]; intros g Hp HQ; cbn [wp reads_only] in *; [apply HQ|]. destruct Hp as [Hw Hk].
  split; [cbn; congruence|]. intros x _. by apply IH.
Qed.

Lemma reads_only_bind {A B} (p : Prog A) (f : A -> Prog B) : reads_only p -> (forall a, reads_only (f a)) -> reads_only (pbind p f).
Proof. induction p as [a|X c k IH]; cbn [pbind reads_only]; [auto|]. intros [? ?] Hf. split; auto. Qed.

Lemma reads_only_try {E A B} (m : Prog (Res E A)) (k : A -> Prog (Res E B)) : reads_only m -> (forall a, reads_only (k a)) -> reads_only (try m k).
Proof. intros Hm Hk. apply reads_only_bind; [done|]. by intros [a|e| |]; cbn. Qed.

Lemma reads_only_map_err {E F A} (f : E -> F) (m : Prog (Res E A)) : reads_only m -> reads_only (try_map_err f m).
Proof. intros Hm. by apply reads_only_bind. Qed.

End guards.

Create HintDb reads discriminated.
#[export] Hint Resolve reads_only_bind reads_only_try reads_only_map_err : reads.
#[export] Hint Extern 1 (reads_only (ask _)) => split; [reflexivity|intros ?; exact I] : reads.
#[export] Hint Extern 1 (reads_only (Ret _)) => exact I : reads.

(** * Handlers *)

Section handlers.
Context `{TextEnv} `{ByteSearch} `{HexCrate} `{Hasher} `{PackWriter} (join_text : bytes) (local : HashKind.t).

Abbreviation G := (guarding local).

(** A method that has no effect on the repository and keeps the local kind. *)
Definition keeps {A} (m : M A) : Prop :=
  forall self g, local_hash_kind self = local -> wp G (m self) (fun x _ => local_hash_kind x.2 = local) g.

Lemma keeps_done {A} (a : A) : keeps (mdone a).
Proof. by intros self g Hl. Qed.

Lemma keeps_fail {A} e : keeps (A := A) (mfail e).
Proof. by intros self g Hl. Qed.

Lemma keeps_step {A B} (m : M A) (k : A -> M B) : keeps m -> (forall a, keeps (k a)) -> keeps (mstep m k).
Proof.
  intros Hm Hk self g Hl. apply wp_step. eapply wp_mono; [by apply Hm|]. intros [[a|e| |] s] g' Hs; cbn in *; try done. by apply Hk.
Qed.

Lemma keeps_self {A} (p : SmartProtocol -> Prog (Result A)) : (forall self, reads_only (p self)) -> keeps (mself p).
Proof. intros Hp self g Hl. apply wp_self, reads_only_wp; auto. Qed.

Lemma keeps_set f : (forall self, local_hash_kind (f self) = local_hash_kind self) -> keeps (mset f).
Proof. intros Hf self g Hl. cbn. by rewrite Hf. Qed.

Lemma reads_ensure self : reads_only (ensure_hash_kind_consistency self).
Proof. unfold ensure_hash_kind_consistency. apply reads_only_bind; [auto with reads|]. intros k. by repeat case_match. Qed.

Lemma keeps_caps_loop caps : keeps (parse_caps_loop caps).
Proof.
  induction caps as [|cap caps IH]; cbn [parse_caps_loop]; [apply keeps_done|].
  destruct (strip_prefix (str "object-format=") cap) as [fmt|]; [|intros self g Hl; by apply IH].
  destruct (HashKind.from_str fmt) as [kind| | |]; try apply keeps_fail. destruct (negb (bool_decide (HashKind.as_str kind = fmt))); [apply keeps_fail|].
  apply keeps_step; [apply keeps_self; intros self; auto with reads|]. intros repository self g Hl.
  destruct (_ || _); [done|]. by apply IH.
Qed.

Lemma keeps_capabilities cap_str : keeps (parse_capabilities cap_str).
Proof. apply keeps_step; [apply keeps_self, reads_ensure|]. intros _. apply keeps_caps_loop. Qed.

Lemma keeps_upload_loop fuel req want have first : keeps (upload_loop fuel req want have first).
Proof.
  revert req want have first. induction fuel as [|fuel IH]; intros req want have first; cbn [upload_loop]; [by intros self g Hl|].
  destruct (read_pkt_line req) as [[n line] rest]. repeat case_match; try apply keeps_done; try apply IH.
  - apply keeps_step; [apply keeps_done|]. intros _. apply keeps_step; [by apply keeps_self|]. intros id. apply IH.
  - apply keeps_step; [apply keeps_capabilities|]. intros _. apply keeps_step; [by apply keeps_self|]. intros id. apply IH.
  - apply keeps_step; [by apply keeps_self|]. intros id. apply IH.
Qed.

Lemma keeps_first_line first line : keeps (first_line_capabilities first line).
Proof. unfold first_line_capabilities. repeat case_match; try apply keeps_done. apply keeps_capabilities. Qed.

Lemma keeps_push_command line : keeps (push_command line).
Proof. intros self g Hl. unfold push_command. by destruct (parse_ref_command self line). Qed.

Lemma keeps_receive_loop fuel req first : keeps (receive_loop fuel req first).
Proof.
  revert req first. induction fuel as [|fuel IH]; intros req first; cbn [receive_loop]; [by intros self g Hl|].
  destruct (read_pkt_line req) as [[n line] rest]. repeat case_match; try apply keeps_done; try apply keeps_fail.
  apply keeps_step; [apply keeps_first_line|]. intros _. apply keeps_step; [apply keeps_push_command|]. intros _. apply IH.
Qed.

(** ** The traversals only read *)

Lemma reads_entries rec kind items c : (forall h c, reads_only (rec h c)) -> reads_only (collect_entries rec kind items c).
Proof.
  intros Hrec. revert c. induction items as [|i items IH]; intros c; cbn [collect_entries]; [done|].
  apply reads_only_try; [done|]. intros _. cbn zeta. apply reads_only_try; [|intros c'; apply IH].
  destruct (mode i); try done; (destruct (bool_decide _); [done|]); apply reads_only_try; auto with reads;
    intros b; apply reads_only_try; done.
Qed.

Lemma reads_tree fuel kind h c : reads_only (collect_tree_objects fuel kind h c).
Proof.
  revert h c. induction fuel as [|fuel IH]; intros h c; cbn [collect_tree_objects]; [done|]. destruct (bool_decide _); [done|].
  apply reads_only_try; [auto with reads|]. intros t. apply reads_only_try; [done|]. intros _.
  apply reads_only_try; [apply reads_entries, IH|]. done.
Qed.

Lemma reads_commits fuel tree_fuel kind queue commits visited c :
  reads_only (collect_commits fuel tree_fuel kind queue commits visited c).
Proof.
  revert queue commits visited c. induction fuel as [|fuel IH]; intros queue commits visited c; cbn [collect_commits]; [done|].
  destruct queue as [|h queue]; [done|]. destruct (bool_decide _); [apply IH|].
  apply reads_only_try; [auto with reads|]. intros x. do 3 (apply reads_only_try; [done|]; intros ?).
  apply reads_only_try; [apply reads_tree|]. intros c'. apply IH.
Qed.

Lemma reads_full fuel kind want : reads_only (generate_full_pack join_text fuel kind want).
Proof. apply reads_only_try; [apply reads_commits|done]. Qed.

Lemma reads_incremental fuel kind want have : reads_only (generate_incremental_pack join_text fuel kind want have).
Proof. apply reads_only_try; [apply reads_commits|]. intros w. apply reads_only_try; [apply reads_commits|done]. Qed.

Lemma reads_common have buf last : reads_only (common_loop have buf last).
Proof.
  revert buf last. induction have as [|h have IH]; intros buf last; cbn [common_loop]; [done|].
  apply reads_only_try; [auto with reads|]. intros []; apply IH.
Qed.

(** A program that only reads, then a check, then the answer. *)
Lemma checked_answer {A B} (p : Prog (Result A)) self (f : A -> B) g :
  reads_only p -> local_hash_kind self = local ->
  wp G (try! a := p in try! _ := ensure_hash_kind_consistency self in Ret (Ok (f a)))
    (fun r g => match r with Ok _ => g = true /\ consistent self | _ => True end) g.
Proof.
  intros Hp Hl. apply wp_try. apply reads_only_wp; [done|]. intros [a|e| |] g'; try done. by apply ensure_try.
Qed.

Lemma update_loop_wp self commands d report g :
  local_hash_kind self = local -> wp G (update_loop self commands d report) (fun _ _ => True) g.
Proof.
  intros Hl. revert d report g. induction commands as [|c commands IH]; intros d report g; cbn [update_loop]; [done|].
  apply wp_bind, ensure_wp; [done| |done]. intros _.
  destruct (if bool_decide (ref_type c = Tag) then _ else _) as [c' d'].
  apply wp_bind, wp_ask; [done|]. intros [a|e| |] _; try done; apply wp_bind; (eapply wp_mono; [apply IH|]); by intros [[rest r] rep] g' _.
Qed.

(** The outcome of a handler: on a value the guard is up and the binding holds. *)
Definition closed {A} (x : Result A * SmartProtocol) (g : bool) : Prop :=
  match x.1 with Ok _ => g = true /\ consistent x.2 | _ => True end.

(** After a method without effect, a handler goes on with the same local kind. *)
Lemma keeps_then {A B} (m : M A) (k : A -> M B) self g :
  keeps m -> local_hash_kind self = local ->
  (forall a self g, local_hash_kind self = local -> wp G (k a self) closed g) -> wp G (mstep m k self) closed g.
Proof.
  intros Hm Hl Hk. apply wp_step. eapply wp_mono; [by apply Hm|]. intros [[a|e| |] s] g' Hs; try done. by apply Hk.
Qed.

Lemma upload_closed fuel req self g : local_hash_kind self = local -> wp G (git_upload_pack join_text fuel req self) closed g.
Proof.
  intros Hl. apply keeps_then; [by apply keeps_set|done|]. clear self g Hl. intros _ self g Hl.
  apply keeps_then; [apply keeps_self, reads_ensure|done|]. clear self g Hl. intros _ self g Hl.
  apply keeps_then; [apply keeps_upload_loop|done|]. clear self g Hl. intros [want have] self g Hl.
  apply wp_self. unfold closed. cbn [fst snd]. destruct (bool_decide (have = [])).
  - cbn zeta. apply ensure_try; [done| |done]. intros _. apply checked_answer; [apply reads_full|done].
  - apply wp_try. apply reads_only_wp; [apply reads_common|]. intros [[buf last]|e| |] g'; try done.
    apply ensure_try; [done| |done]. intros _. destruct (bool_decide (last = [])); cbn zeta;
      apply checked_answer; auto using reads_full, reads_incremental.
Qed.

Lemma receive_closed chunks self g : local_hash_kind self = local -> wp G (git_receive_pack_stream chunks self) closed g.
Proof.
  intros Hl. apply keeps_then; [apply keeps_self, reads_ensure|done|]. clear self g Hl. intros _ self g Hl.
  apply keeps_then; [by apply keeps_self|done|]. clear self g Hl. intros request self g Hl.
  do 2 (apply keeps_then; [by apply keeps_set|done|]; clear self g Hl; intros _ self g Hl).
  apply keeps_then; [apply keeps_self, reads_ensure|done|]. clear self g Hl. intros _ self g Hl.
  apply keeps_then; [apply keeps_receive_loop|done|]. clear self g Hl. intros [saw_flush rest] self g Hl.
  destruct (negb saw_flush); [done|].
  (* the pack *)
  apply wp_step, wp_self. eapply (wp_mono _ _ (fun _ _ => True)).
  { destruct (bool_decide (rest = [])); [done|]. apply wp_try.
    apply reads_only_wp; [unfold unpack_stream; apply reads_only_bind; [auto with reads|]; intros [r l]; auto with reads|].
    intros [[[cs ts] bs]|e| |] g'; try done. apply ensure_try; [done| |done]. intros _. by apply wp_try_map_err, wp_ask. }
  intros [u|e| |] g' _; try done. cbn [on_result fst snd]. clear g.
  (* the references *)
  apply keeps_then; [apply keeps_self; intros s; auto with reads|done|]. clear self g' Hl. intros d self g Hl.
  apply wp_step. apply wp_bind. eapply wp_mono; [by apply update_loop_wp|]. intros [[commands r] report] g' _.
  destruct r as [u'|e| |]; try done. cbn [wp on_result fst snd rbind].
  apply ensure_step; [done| |done]. intros _. apply wp_step, wp_self, wp_try_map_err, wp_ask; [done|].
  intros [u''|e| |] _; try done. cbn [on_result fst snd map_err]. apply ensure_step; [done| |done]. by intros Hc.
Qed.

Lemma info_refs_closed self service g :
  local_hash_kind self = local ->
  wp G (git_info_refs self service) (fun r g => match r with Ok _ => consistent self | _ => True end) g.
Proof.
  intros Hl. apply ensure_try; [done| |done]. intros _. apply wp_try, wp_try_map_err, wp_ask; [done|].
  intros [refs|e| |] _; try done. cbn [map_err]. apply ensure_try; [done| |done]. intros Hc. apply wp_try. cbn [wp].
  by destruct (check_refs self _ refs).
Qed.

(** ** Fetching has no effect on the repository *)

Lemma reads_mstep {A B} (m : M A) (k : A -> M B) self :
  reads_only (m self) -> (forall a self, reads_only (k a self)) -> reads_only (mstep m k self).
Proof. intros Hm Hk. apply reads_only_bind; [done|]. by intros [[a|e| |] s]; cbn. Qed.

Lemma reads_mself {A} (p : SmartProtocol -> Prog (Result A)) self : reads_only (p self) -> reads_only (mself p self).
Proof. intros Hp. by apply reads_only_bind. Qed.

Lemma reads_capabilities cap_str self : reads_only (parse_capabilities cap_str self).
Proof.
  apply reads_mstep; [apply reads_mself, reads_ensure|]. intros _. clear self.
  induction (split_whitespace cap_str) as [|cap caps IH]; intros self; cbn [parse_caps_loop]; [done|].
  destruct (strip_prefix (str "object-format=") cap) as [fmt|]; [|apply IH]. destruct (HashKind.from_str fmt); try done.
  destruct (negb (bool_decide (HashKind.as_str a = fmt))); [done|]. apply reads_mstep; [apply reads_mself; auto with reads|].
  intros k s. destruct (_ || _); [done|]. apply IH.
Qed.

Lemma reads_upload_loop fuel req want have first self : reads_only (upload_loop fuel req want have first self).
Proof.
  revert req want have first self. induction fuel as [|fuel IH]; intros req want have first self; cbn [upload_loop]; [done|].
  destruct (read_pkt_line req) as [[n line] rest]. repeat case_match; try done; try apply IH.
  - apply reads_mstep; [done|]. intros _ s. apply reads_mstep; [by apply reads_mself|]. intros id s'. apply IH.
  - apply reads_mstep; [apply reads_capabilities|]. intros _ s. apply reads_mstep; [by apply reads_mself|]. intros id s'. apply IH.
  - apply reads_mstep; [by apply reads_mself|]. intros id s. apply IH.
Qed.

Lemma reads_upload fuel req self : reads_only (git_upload_pack join_text fuel req self).
Proof.
  apply reads_mstep; [done|]. intros _ s1. apply reads_mstep; [apply reads_mself, reads_ensure|]. intros _ s2.
  apply reads_mstep; [apply reads_upload_loop|]. intros [want have] s3. apply reads_mself. destruct (bool_decide (have = [])).
  - apply reads_only_try; [apply reads_ensure|]. intros _. apply reads_only_try; [apply reads_full|]. intros p.
    apply reads_only_try; [apply reads_ensure|done].
  - apply reads_only_try; [apply reads_common|]. intros [buf last]. apply reads_only_try; [apply reads_ensure|]. intros _.
    destruct (bool_decide (last = [])); (apply reads_only_try; [auto using reads_full, reads_incremental|]; intros p;
      apply reads_only_try; [apply reads_ensure|done]).
Qed.

Lemma reads_info_refs self service : reads_only (git_info_refs self service).
Proof.
  apply reads_only_try; [apply reads_ensure|]. intros _. apply reads_only_try; [auto with reads|]. intros refs.
  apply reads_only_try; [apply reads_ensure|]. intros _. by apply reads_only_try.
Qed.

End handlers.

Definition event_writes (e : Event) : bool := match e with Ev c _ => writes c end.

Lemma reads_only_runs {A} (p : Prog A) t a : reads_only p -> runs p t a -> Forall (fun e => event_writes e = false) t.
Proof.
  revert t. induction p as [b|X c k IH]; intros t Hp Hr; cbn [reads_only runs] in *; [destruct Hr as [-> _]; apply Forall_nil_2|].
  destruct Hp as [Hw Hk], Hr as (x & t' & -> & Hr). apply Forall_cons_2; [done|]. by eapply IH.
Qed.

(** C5: the handlers fail closed.  Whatever the repository answers, and even if the object format
    it reports changes at any moment: a push stores objects, updates a reference or runs the hook
    only right after a call in which the repository reported the format the protocol was bound
    to; a push that is reported as successful and a fetch that is answered ended with
    such a call, with the wire format and the zero identifier of that format; a fetch and an
    advertisement change nothing. *)
Theorem handlers_fail_closed `{TextEnv} `{ByteSearch} `{HexCrate} `{Hasher} `{PackWriter} (join_text : bytes) (self : SmartProtocol) :
  let C := guarding (local_hash_kind self) in
  (forall chunks t r self', runs (git_receive_pack_stream chunks self) t (r, self') ->
     obeys C false t /\ forall report, r = Ok report -> final C false t = true /\ consistent self')
  /\ (forall fuel request t r self', runs (git_upload_pack join_text fuel request self) t (r, self') ->
     Forall (fun e => event_writes e = false) t /\ forall answer, r = Ok answer -> final C false t = true /\ consistent self')
  /\ (forall service t r, runs (git_info_refs self service) t r ->
     Forall (fun e => event_writes e = false) t /\ forall reply, r = Ok reply -> consistent self).
Proof.
  intros C. assert (Hall : forall t, answered C false t).
  { intros t. generalize false. induction t as [|[X c x] t IH]; intros g; [done|]. split; [done|apply IH]. }
  split_and!.
  - intros chunks t r self' Hr. destruct (wp_sound _ _ _ _ _ _ (receive_closed _ chunks self false eq_refl) Hr (Hall t)) as [Ho Hc].
    split; [done|]. by intros report ->.
  - intros fuel request t r self' Hr.
    destruct (wp_sound _ _ _ _ _ _ (upload_closed join_text _ fuel request self false eq_refl) Hr (Hall t)) as [_ Hc].
    split; [by eapply reads_only_runs, Hr; apply reads_upload|]. by intros answer ->.
  - intros service t r Hr. destruct (wp_sound _ _ _ _ _ _ (info_refs_closed _ self service false eq_refl) Hr (Hall t)) as [_ Hc].
    split; [by eapply reads_only_runs, Hr; apply reads_info_refs|]. by intros reply ->.
Qed.
