(* ===== verification/SmartSpec.v ===== *)
(** Conversations of the smart protocol with a repository whose object format is steady: what
    is negotiated, what a push does and reports, what a fetch asks for, what an advertisement
    says.  The requests are those a client writes. *)

From Stdlib Require Import ZArith Lia String.
From stdpp Require Import base tactics list numbers option gmap.
From S2P Require Import Prelude Stream Text Errors ObjectTypes PackUtils Hash PackIndex Signature Tree Commit Tag Objects PktLine ProtocolTypes Repository PackGenerator PackReach Smart SmartProofs.

(** * Words *)

(** A word of a packet line: valid text without ASCII white space and without NUL. *)
Definition word (s : bytes) : Prop := s <> [] /\ utf8_valid s = true /\ Forall (fun c => is_ascii_whitespace c = false /\ c <> 0) s.

Lemma until_loop_word s c rest buf :
  Forall (fun c => is_ascii_whitespace c = false /\ c <> 0) s -> is_ascii_whitespace c = true \/ c = 0 ->
  until_loop (s ++ c :: rest) buf = (buf ++ s, rest).
Proof.
  intros Hs Hc. revert buf. induction Hs as [|x s [Hx Hx0] _ IH]; intros buf; cbn [app until_loop].
  - rewrite app_nil_r. destruct Hc as [-> | ->]; done.
  - rewrite Hx. replace (x =? 0) with false by lia. cbn [orb]. rewrite IH. by rewrite <- app_assoc.
Qed.

Lemma until_loop_end s buf : Forall (fun c => is_ascii_whitespace c = false /\ c <> 0) s -> until_loop s buf = (buf ++ s, []).
Proof.
  intros Hs. revert buf. induction Hs as [|x s [Hx Hx0] _ IH]; intros buf; cbn [until_loop]; [by rewrite app_nil_r|].
  rewrite Hx. replace (x =? 0) with false by lia. cbn [orb]. rewrite IH. by rewrite <- app_assoc.
Qed.

Lemma read_word s c rest : word s -> is_ascii_whitespace c = true \/ c = 0 -> read_until_white_space (s ++ c :: rest) = (s, rest).
Proof. intros (_ & Hu & Hs) Hc. unfold read_until_white_space. rewrite until_loop_word by done. cbn [app]. by rewrite Hu. Qed.

Lemma read_last_word s : word s -> read_until_white_space s = (s, []).
Proof. intros (_ & Hu & Hs). unfold read_until_white_space. rewrite until_loop_end by done. cbn [app]. by rewrite Hu. Qed.

(** An identifier of the wire's kind is a word, and is accepted as it is. *)
Lemma hex_word s : s <> [] -> Forall is_hex_lower s -> word s.
Proof.
  intros Hne Hs. split_and!; [done|by apply utf8_ascii, ascii_hex|]. eapply Forall_impl; [exact Hs|].
  unfold is_hex_lower, is_ascii_whitespace. cbn. intros x Hx. lia.
Qed.

Definition wire_id `{HexCrate} (kind : HashKind.t) (s : bytes) : Prop :=
  exists h, s = ObjectHash.fmt h /\ hash_wf h /\ ObjectHash.kind h = kind.

Lemma fmt_lower `{HexLaws} h : hash_wf h -> Forall is_hex_lower (ObjectHash.fmt h).
Proof. intros [_ Hb]. unfold ObjectHash.fmt. by apply hex_encode_lower. Qed.

Lemma wire_id_word `{HexLaws} kind s : wire_id kind s -> word s.
Proof.
  intros (h & -> & Hwf & <-). apply hex_word; [|by apply fmt_lower]. intros E. pose proof (fmt_length h Hwf) as Hl. rewrite E in Hl.
  by destruct (ObjectHash.kind h).
Qed.

Lemma parse_wire_id_ok `{TextEnv} `{HexLaws} self command s :
  wire_id (wire_hash_kind self) s -> parse_wire_id self command s = Ok s.
Proof.
  intros (h & -> & Hwf & Hk). unfold parse_wire_id. rewrite <- Hk, from_hex_for_kind_fmt by done. cbn [map_err rbind].
  assert (Hlow : existsb is_ascii_uppercase (ObjectHash.fmt h) = false); [|by rewrite Hlow].
  pose proof (fmt_lower h Hwf) as Hs. clear -Hs. induction Hs as [|x s Hx _ IH]; [done|]. cbn [existsb]. rewrite IH.
  unfold is_hex_lower, is_ascii_uppercase in *. lia.
Qed.

(** * Negotiation *)

(** The repository's format is steady. *)
Definition steady (local : HashKind.t) : Contract := {|
  ghost := unit;
  may_answer := fun X (c : Call X) => match c in Call X return X -> unit -> Prop with
    | object_hash_kind => fun k _ => k = local
    | _ => fun _ _ => True
    end;
  may_call := fun X c g => True;
  advance := fun X c x g => g
|}.

(** A contract under which the reported format is [local], whatever else it says. *)
Definition keeps_kind (C : Contract) (local : HashKind.t) : Prop :=
  (forall g, may_call C object_hash_kind g) /\ (forall k g, may_answer C object_hash_kind k g -> k = local)
  /\ (forall k g, advance C object_hash_kind k g = g).

Lemma from_str_as_str k : HashKind.from_str (HashKind.as_str k) = Ok k.
Proof. by destruct k. Qed.

(** A capability that agrees with the format. *)
Definition agrees (local : HashKind.t) (cap : bytes) : Prop :=
  forall fmt, strip_prefix (str "object-format=") cap = Some fmt -> fmt = HashKind.as_str local.

Section negotiation.
Context `{TextEnv} `{ByteSearch} `{HexCrate} `{Hasher} `{PackWriter}.

Lemma set_wire_same self : consistent self -> set_wire_hash_kind (local_hash_kind self) self = self.
Proof. intros [Hw Hz]. destruct self. unfold set_wire_hash_kind. cbn in *. by subst. Qed.

Lemma ensure_steady C self (Q : Result unit -> ghost C -> Prop) g :
  keeps_kind C (local_hash_kind self) -> consistent self -> Q (Ok tt) g -> wp C (ensure_hash_kind_consistency self) Q g.
Proof.
  intros (Hc & Hk & Ha) [Hw Hz] HQ. unfold ensure_hash_kind_consistency. apply wp_bind, wp_ask; [done|]. intros k Hans.
  rewrite (Hk k g Hans), Ha, Hw, !bool_decide_true by congruence. done.
Qed.

Lemma ensure_steady_step {B} C (k : M B) Q self g :
  keeps_kind C (local_hash_kind self) -> consistent self -> wp C (k self) Q g ->
  wp C (mstep (mself ensure_hash_kind_consistency) (fun _ => k) self) Q g.
Proof. intros HC Hc Hk. by apply wp_step, wp_self, ensure_steady. Qed.

Lemma ensure_steady_try {B} C (k : Prog (Result B)) Q self g :
  keeps_kind C (local_hash_kind self) -> consistent self -> wp C k Q g ->
  wp C (try (ensure_hash_kind_consistency self) (fun _ => k)) Q g.
Proof. intros HC Hc Hk. by apply wp_try, ensure_steady. Qed.

Lemma object_format_fmt cap fmt : strip_prefix (str "object-format=") cap = Some fmt -> Capability_from_str cap = ObjectFormat fmt.
Proof.
  intros E. apply strip_prefix_Some in E as ->. unfold Capability_from_str, prefix_capabilities. cbn [match_prefix].
  rewrite !(strip_prefix_differs 3 _ (str "object-format=" ++ fmt)) by (cbn; lia || (cbn; discriminate)).
  by rewrite strip_prefix_app.
Qed.

Lemma parse_caps_wp C caps self g :
  keeps_kind C (local_hash_kind self) -> consistent self ->
  wp C (parse_caps_loop caps self) (fun x g' => g' = g /\ local_hash_kind x.2 = local_hash_kind self /\ consistent x.2
    /\ ((Forall (agrees (local_hash_kind self)) caps /\ x = (Ok tt, set_capabilities (capabilities self ++ map Capability_from_str caps) self))
        \/ (Exists (fun cap => ~ agrees (local_hash_kind self) cap) caps /\ exists m, x.1 = Err (InvalidRequest m)))) g.
Proof.
  intros HC. revert self HC. induction caps as [|cap caps IH]; intros self HC Hc; cbn [parse_caps_loop].
  { split_and!; try done. left. split; [apply Forall_nil_2|]. cbn [map]. rewrite app_nil_r. by destruct self. }
  (* the rest of the list, from a state that has one capability more *)
  assert (Hrest : agrees (local_hash_kind self) cap -> wp C
    (parse_caps_loop caps (set_capabilities (capabilities self ++ [Capability_from_str cap]) self)) (fun x g' => g' = g /\
      local_hash_kind x.2 = local_hash_kind self /\ consistent x.2
      /\ ((Forall (agrees (local_hash_kind self)) (cap :: caps)
           /\ x = (Ok tt, set_capabilities (capabilities self ++ map Capability_from_str (cap :: caps)) self))
          \/ (Exists (fun cap => ~ agrees (local_hash_kind self) cap) (cap :: caps) /\ exists m, x.1 = Err (InvalidRequest m)))) g).
  { intros Hag. eapply wp_mono; [apply (IH (set_capabilities _ self)); [exact HC|exact Hc]|]. intros x g' (-> & Hl & Hc' & Hcase). cbn in Hl, Hcase.
    split_and!; [done|done|done|]. destruct Hcase as [[Hall ->]|[Hex Herr]]; [left|right].
    - split; [by apply Forall_cons_2|]. cbn [map set_capabilities capabilities]. by rewrite <- app_assoc.
    - split; [by apply Exists_cons_tl|done]. }
  destruct (strip_prefix (str "object-format=") cap) as [fmt|] eqn:E.
  - assert (Hbad : fmt <> HashKind.as_str (local_hash_kind self) ->
      Exists (fun cap => ~ agrees (local_hash_kind self) cap) (cap :: caps)).
    { intros Hne. apply Exists_cons_hd. intros Ha. by apply Hne, Ha. }
    destruct (HashKind.from_str fmt) as [kind|e| |] eqn:Ek; cycle 1.
    + split_and!; try done. right. split; [|by eexists]. apply Hbad. intros ->. by rewrite from_str_as_str in Ek.
    + split_and!; try done. right. split; [|by eexists]. apply Hbad. intros ->. by rewrite from_str_as_str in Ek.
    + split_and!; try done. right. split; [|by eexists]. apply Hbad. intros ->. by rewrite from_str_as_str in Ek.
    + case_bool_decide as Efmt; cbn [negb].
      2: { split_and!; try done. right. split; [|by eexists]. apply Hbad. intros ->. rewrite from_str_as_str in Ek. by simplify_eq. }
      apply wp_step, wp_self, wp_bind, wp_ask; [apply HC|]. intros k Hk. apply HC in Hk. subst k. cbn [wp on_result fst snd].
      case_bool_decide as Ekind; cbn [negb orb].
      * subst kind. rewrite (proj2 (proj2 HC)), set_wire_same by done. rewrite Efmt, <- (object_format_fmt cap) by done. apply Hrest.
        intros fmt' E'. by simplify_eq.
      * split_and!; try done; [apply HC|]. right. split; [|by eexists]. apply Hbad. intros ->. rewrite from_str_as_str in Ek. by simplify_eq.
  - apply Hrest. intros fmt' E'. by rewrite E in E'.
Qed.

Lemma parse_capabilities_wp C cap_str self (Q : Result unit * SmartProtocol -> ghost C -> Prop) g :
  keeps_kind C (local_hash_kind self) -> consistent self -> Forall (agrees (local_hash_kind self)) (split_whitespace cap_str) ->
  Q (Ok tt, set_capabilities (capabilities self ++ map Capability_from_str (split_whitespace cap_str)) self) g ->
  wp C (parse_capabilities cap_str self) Q g.
Proof.
  intros HC Hc Hall HQ. apply ensure_steady_step; [done|done|].
  eapply wp_mono; [by apply parse_caps_wp|]. intros x g' (-> & _ & _ & [[_ ->]|[Hex _]]); [done|].
  exfalso. apply Exists_exists in Hex as (cap & Hin & Hn). rewrite Forall_forall in Hall. by apply Hn, Hall.
Qed.

End negotiation.

(** C7: negotiation is exact: with a repository of a steady format, a list of capabilities is
    accepted exactly when each [object-format] in it names that format in its canonical
    spelling; then the capabilities are recorded, in order, and nothing else changes.
    Otherwise the request is refused as invalid, and the wire format is still the
    repository's. *)
Theorem negotiation_exact `{TextEnv} `{HexCrate} (self self' : SmartProtocol) (cap_str : bytes) (t : list Event) (r : Result unit) :
  consistent self -> runs (parse_capabilities cap_str self) t (r, self') -> answered (steady (local_hash_kind self)) tt t ->
  (Forall (agrees (local_hash_kind self)) (split_whitespace cap_str) /\ r = Ok tt
   /\ self' = set_capabilities (capabilities self ++ map Capability_from_str (split_whitespace cap_str)) self)
  \/ (Exists (fun cap => ~ agrees (local_hash_kind self) cap) (split_whitespace cap_str) /\ (exists m, r = Err (InvalidRequest m))
      /\ consistent self' /\ local_hash_kind self' = local_hash_kind self).
Proof.
  intros Hc Hr Ha. assert (HC : keeps_kind (steady (local_hash_kind self)) (local_hash_kind self)) by (split_and!; [done|by intros k g ->|done]).
  assert (Hwp := parse_caps_wp (steady (local_hash_kind self)) (split_whitespace cap_str) self tt HC Hc).
  assert (Hwp' : wp (steady (local_hash_kind self)) (parse_capabilities cap_str self) _ tt) by (by apply ensure_steady_step; [..|exact Hwp]).
  destruct (wp_sound _ _ _ _ _ _ Hwp' Hr Ha) as (_ & _ & Hl & Hc' & [[Hall E]|[Hex [m Hm]]]); [left|right].
  - by simplify_eq.
  - split_and!; try done. by exists m.
Qed.

(** * Push *)

(** What a push does to its repository, in order. *)
Inductive Effect : Type :=
| Decoded (kind : HashKind.t) (pack : bytes) (entries : list (MetaAttached Entry EntryMeta))
| Stored (objects : Objects3)
| Updated (name : bytes) (old : option bytes) (new : bytes) (answer : Result unit)
| Hooked.

(** A repository of a steady format that accepts packs; a reference update may succeed or fail. *)
Definition serving (local : HashKind.t) : Contract := {|
  ghost := list Effect;
  may_answer := fun X (c : Call X) => match c in Call X return X -> list Effect -> Prop with
    | object_hash_kind => fun k _ => k = local
    | has_default_branch => fun x _ => exists b, x = Ok b
    | handle_pack_objects _ _ _ => fun x _ => x = Ok tt
    | post_receive_hook => fun x _ => x = Ok tt
    | decode_pack _ _ => fun x _ => x.1 = Ok tt
    | update_reference _ _ _ => fun x _ => returns x
    | _ => fun _ _ => True
    end;
  may_call := fun X c g => True;
  advance := fun X (c : Call X) => match c in Call X return X -> list Effect -> list Effect with
    | handle_pack_objects commits trees blobs => fun _ g => g ++ [Stored (commits, trees, blobs)]
    | post_receive_hook => fun _ g => g ++ [Hooked]
    | decode_pack kind pack => fun x g => g ++ [Decoded kind pack x.2]
    | update_reference name old new => fun x g => g ++ [Updated name old new x]
    | _ => fun _ g => g
    end
|}.

(** The commands of a push, as the client writes them: old identifier, new identifier, name. *)
Definition PushCommand : Type := bytes * bytes * bytes.

Definition command_line (c : PushCommand) : bytes := let '(old, new, name) := c in old ++ [32] ++ new ++ [32] ++ name.

Definition push_lines (commands : list PushCommand) (caps : bytes) : list bytes :=
  match commands with
  | [] => []
  | c :: commands => (command_line c ++ [0] ++ caps) :: map command_line commands
  end.

Definition pkt_lines (lines : list bytes) : bytes := fold_left add_pkt_line_string lines [].

Definition push_request (commands : list PushCommand) (caps pack : bytes) : bytes :=
  pkt_lines (push_lines commands caps) ++ PKT_LINE_END_MARKER ++ pack.

Definition fits (line : bytes) : Prop := blen line + 4 < 65536.

Definition command_ok `{HexCrate} (kind : HashKind.t) (c : PushCommand) : Prop :=
  let '(old, new, name) := c in wire_id kind old /\ wire_id kind new /\ word name.

Lemma pkt_lines_acc lines acc : fold_left add_pkt_line_string lines acc = acc ++ pkt_lines lines.
Proof.
  unfold pkt_lines. revert acc. induction lines as [|l lines IH]; intros acc; cbn [fold_left]; [by rewrite app_nil_r|].
  rewrite IH, (IH (add_pkt_line_string [] l)). unfold add_pkt_line_string. by rewrite <- !app_assoc.
Qed.

Lemma pkt_lines_cons l lines : pkt_lines (l :: lines) = add_pkt_line_string [] l ++ pkt_lines lines.
Proof. unfold pkt_lines. cbn [fold_left]. by rewrite pkt_lines_acc. Qed.

Section push.
Context `{TextEnv} `{!LossyLaw} `{ByteSearch} `{HexLaws} `{Hasher} `{PackWriter}.

Definition new_command (c : PushCommand) : RefCommand := let '(old, new, name) := c in RefCommand_new old new name.

(** A command line, with what follows the name: nothing, or a NUL and the capabilities. *)
Lemma parse_ref_command_line self c rest :
  command_ok (wire_hash_kind self) c -> rest = [] \/ head rest = Some 0 ->
  parse_ref_command self (command_line c ++ rest) = Ok (new_command c).
Proof.
  destruct c as [[old new] name]. intros (Ho & Hn & Hw) Hrest. unfold parse_ref_command, command_line. rewrite <- !app_assoc. cbn [app].
  rewrite (read_word old 32) by (eauto using wire_id_word). rewrite (read_word new 32) by (eauto using wire_id_word).
  assert (Hname : exists tail, read_until_white_space (name ++ rest) = (name, tail)).
  { destruct rest as [|x rest]; [rewrite app_nil_r; eexists; by apply read_last_word|].
    destruct Hrest as [|Hx]; [done|]. injection Hx as ->. eexists. apply read_word; [done|by right]. }
  destruct Hname as [tail ->]. rewrite !parse_wire_id_ok by done. cbn [rbind]. by rewrite bool_decide_false by apply Hw.
Qed.

Lemma command_line_nonzero kind c : command_ok kind c -> Forall (fun x => x <> 0) (command_line c).
Proof.
  destruct c as [[old new] name]. intros (Ho & Hn & Hw). unfold command_line.
  assert (Hz : forall s, word s -> Forall (fun x => x <> 0) s) by (intros s (_ & _ & Hs); eapply Forall_impl; [exact Hs|]; cbn; tauto).
  repeat (apply Forall_app; split); try (apply Forall_singleton; lia); eauto using wire_id_word.
Qed.

Lemma command_line_nonempty kind c : command_ok kind c -> command_line c <> [].
Proof. destruct c as [[old new] name]. intros _ E. unfold command_line in E. by destruct old. Qed.

Lemma linear_search_zero s rest : Forall (fun x => x <> 0) s -> linear_search 0 (s ++ 0 :: rest) = Some (blen s).
Proof.
  induction 1 as [|x s Hx _ IH]; [done|]. cbn [app linear_search]. replace (x =? 0) with false by lia. rewrite IH, blen_cons. done.
Qed.

(** The lines after the first. *)
Lemma receive_rest_wp C lines fuel pack self (Q : Result (bool * bytes) * SmartProtocol -> ghost C -> Prop) g :
  Forall (command_ok (wire_hash_kind self)) lines -> Forall fits (map command_line lines) -> (length lines < fuel)%nat ->
  Q (Ok (true, pack), set_command_list (command_list self ++ map new_command lines) self) g ->
  wp C (receive_loop fuel (pkt_lines (map command_line lines) ++ PKT_LINE_END_MARKER ++ pack) false self) Q g.
Proof.
  revert fuel self. induction lines as [|c lines IH]; intros fuel self Hok Hfit Hf HQ; (destruct fuel as [|fuel]; [cbn in Hf; lia|]).
  { cbn [map receive_loop pkt_lines fold_left app] in *. rewrite read_pkt_line_flush. cbn. rewrite app_nil_r in HQ. by destruct self. }
  apply Forall_cons_1 in Hok as [Hc Hok]. cbn [map] in *. apply Forall_cons_1 in Hfit as [Hl Hfit]. cbn [receive_loop].
  rewrite pkt_lines_cons, <- app_assoc, read_pkt_line_add by done. pose proof (blen_nonneg (command_line c)).
  replace (_ + 4 =? 0) with false by lia. rewrite bool_decide_false by (by eapply command_line_nonempty).
  apply wp_step. cbn [first_line_capabilities wp mdone on_result fst snd]. apply wp_step. unfold push_command.
  rewrite <- (app_nil_r (command_line c)), parse_ref_command_line by auto. cbn [wp on_result fst snd].
  apply IH; [done|done|cbn in Hf; lia|]. cbn [command_list set_command_list]. by rewrite <- app_assoc.
Qed.

Lemma receive_loop_wp C commands caps fuel pack self (Q : Result (bool * bytes) * SmartProtocol -> ghost C -> Prop) g :
  keeps_kind C (local_hash_kind self) -> consistent self ->
  Forall (command_ok (wire_hash_kind self)) commands -> Forall fits (push_lines commands caps) -> (length commands < fuel)%nat ->
  utf8_valid caps = true -> Forall (agrees (local_hash_kind self)) (split_whitespace caps) -> commands <> [] ->
  Q (Ok (true, pack), set_command_list (command_list self ++ map new_command commands)
      (set_capabilities (capabilities self ++ map Capability_from_str (split_whitespace caps)) self)) g ->
  wp C (receive_loop fuel (push_request commands caps pack) true self) Q g.
Proof.
  intros HC Hcons Hok Hfit Hf Hu Hag Hne HQ. destruct commands as [|c commands]; [done|]. destruct fuel as [|fuel]; [cbn in Hf; lia|].
  apply Forall_cons_1 in Hok as [Hc Hok]. cbn [push_lines] in *. apply Forall_cons_1 in Hfit as [Hl Hfit]. unfold push_request.
  cbn [receive_loop push_lines]. rewrite pkt_lines_cons, <- app_assoc, read_pkt_line_add by done.
  pose proof (blen_nonneg (command_line c ++ [0] ++ caps)). replace (_ + 4 =? 0) with false by lia.
  rewrite bool_decide_false by (by destruct (command_line c)).
  apply wp_step. cbn [first_line_capabilities]. cbn [app]. rewrite linear_search_zero by (by eapply command_line_nonzero).
  replace (drop (Z.to_nat (blen (command_line c) + 1)) (command_line c ++ 0 :: caps)) with caps; cycle 1.
  { symmetry. change (0 :: caps) with ([0] ++ caps). rewrite app_assoc. replace (blen (command_line c) + 1) with (blen (command_line c ++ [0]))
      by (rewrite blen_app; done). apply drop_blen_app. }
  rewrite lossy_valid by done. apply parse_capabilities_wp; [done|done|done|]. cbn [on_result fst snd].
  apply wp_step. unfold push_command. rewrite parse_ref_command_line by (done || by right). cbn [wp on_result fst snd].
  apply receive_rest_wp; [done|done|cbn in Hf; lia|]. cbn [command_list set_command_list set_capabilities] in *. by rewrite <- app_assoc.
Qed.

(** ** Updates *)

Definition update_effect (zero : bytes) (c : PushCommand) (answer : Result unit) : Effect :=
  let '(old, new, name) := c in Updated name (if bool_decide (old = zero) then None else Some old) new answer.

(** The line of the report for a command. *)
Definition report_line (c : PushCommand) (answer : Result unit) : bytes :=
  let '(_, _, name) := c in
  match answer with
  | Err e => str "ng " ++ name ++ str " " ++ error_text e
  | _ => str "ok " ++ name
  end.

Lemma update_loop_serving self commands d report g :
  consistent self ->
  wp (serving (local_hash_kind self)) (update_loop self (map new_command commands) d report) (fun x g' =>
    exists answers, length answers = length commands /\ g' = g ++ zip_with (update_effect (zero_id self)) commands answers
      /\ x.1.2 = Ok tt /\ x.2 = fold_left add_pkt_line_string (zip_with report_line commands answers) report) g.
Proof.
  intros Hc. assert (HC : keeps_kind (serving (local_hash_kind self)) (local_hash_kind self)) by (split_and!; [done|by intros k ? ->|done]).
  revert d report g. induction commands as [|[[old new] name] commands IH]; intros d report g; cbn [map update_loop].
  { exists []. cbn [zip_with fold_left]. by rewrite app_nil_r. }
  apply wp_bind, ensure_steady; [done|done|]. cbn [new_command].
  assert (Hcmd : exists d' b, (if bool_decide (ref_type (RefCommand_new old new name) = Tag) then (RefCommand_new old new name, d)
    else if negb d then (set_default_branch (RefCommand_new old new name), true) else (RefCommand_new old new name, d))
    = (mkRefCommand old new name (ref_type (RefCommand_new old new name)) b Pending None, d')).
  { destruct (bool_decide _); [by eexists _, _|]. by destruct d; eexists _, _. }
  destruct Hcmd as (d' & b & ->). cbn [old_hash rc_name new_hash]. apply wp_bind, wp_ask; [done|]. intros x Hx. cbn [advance serving].
  destruct x as [u|e| |]; try done; apply wp_bind; (eapply wp_mono; [apply IH|]); intros [[rest r] rep] g' (answers & Hlen & -> & Hr & Hrep);
    cbn [fst snd] in *; subst; [exists (Ok u :: answers)|exists (Err e :: answers)]; cbn [length zip_with fold_left]; rewrite <- app_assoc;
    split_and!; try done; lia.
Qed.

(** Everything a push does: its pack, if it has one, is decoded and stored; then the references
    are updated in the order of the commands; then the hook runs. *)
Definition push_effects (local : HashKind.t) (zero : bytes) (commands : list PushCommand) (pack : bytes)
  (entries : list (MetaAttached Entry EntryMeta)) (answers : list (Result unit)) : list Effect :=
  (if bool_decide (pack = []) then [] else [Decoded local pack entries; Stored (fold_left unpack_entry entries ([], [], []))])
  ++ zip_with (update_effect zero) commands answers ++ [Hooked].

Definition push_report (commands : list PushCommand) (answers : list (Result unit)) : bytes :=
  pkt_lines ((str "unpack ok" ++ [10]) :: zip_with report_line commands answers) ++ PKT_LINE_END_MARKER.

Lemma collect_pieces pieces acc : collect_stream (map Ok pieces) acc = Ok (acc ++ concat pieces).
Proof. revert acc. induction pieces as [|x pieces IH]; intros acc; cbn; [by rewrite app_nil_r|]. by rewrite IH, app_assoc. Qed.

Lemma push_request_length commands caps pack : (length commands < S (length (push_request commands caps pack)))%nat.
Proof.
  unfold push_request. rewrite length_app. assert (Hl : forall lines, (length lines <= length (pkt_lines lines))%nat).
  { induction lines as [|l lines IH]; [done|]. rewrite pkt_lines_cons, length_app. unfold add_pkt_line_string, show_hex04.
    rewrite !length_app, repeat_length. cbn [length]. lia. }
  specialize (Hl (push_lines commands caps)). destruct commands as [|c commands]; cbn [push_lines length] in *; [lia|]. rewrite length_map in Hl. lia.
Qed.

Lemma push_wp commands caps pack pieces self :
  consistent self -> concat pieces = push_request commands caps pack ->
  Forall (command_ok (wire_hash_kind self)) commands -> Forall fits (push_lines commands caps) -> commands <> [] ->
  utf8_valid caps = true -> Forall (agrees (local_hash_kind self)) (split_whitespace caps) ->
  wp (serving (local_hash_kind self)) (git_receive_pack_stream (map Ok pieces) self) (fun x g => exists entries answers,
    length answers = length commands /\ g = push_effects (local_hash_kind self) (zero_id self) commands pack entries answers
    /\ x.1 = Ok (push_report commands answers)) [].
Proof.
  intros Hc Hreq Hok Hfit Hne Hu Hag. set (C := serving (local_hash_kind self)).
  assert (HC : keeps_kind C (local_hash_kind self)) by (split_and!; [done|by intros k ? ->|done]).
  apply ensure_steady_step; [done|done|]. apply wp_step, wp_self. rewrite collect_pieces, Hreq. cbn [wp on_result fst snd app].
  apply wp_step. cbn [mset wp on_result fst snd]. apply wp_step. cbn [mset wp on_result fst snd].
  set (self0 := set_capabilities [] (set_command_list [] self)). assert (Hc0 : consistent self0) by done.
  apply ensure_steady_step; [done|done|]. apply wp_step. apply receive_loop_wp; try done; [apply push_request_length|].
  cbn [on_result fst snd negb]. set (self1 := set_command_list _ _). assert (Hc1 : consistent self1) by done.
  apply wp_step, wp_self. apply (wp_mono C _ (fun (r : Result unit) (g : ghost C) => exists entries, r = Ok tt /\ (g : list Effect) = if bool_decide (pack = []) then []
    else [Decoded (local_hash_kind self) pack entries; Stored (fold_left unpack_entry entries ([], [], []))])).
  { destruct (bool_decide (pack = [])); [by exists []|]. apply wp_try. unfold unpack_stream. apply wp_bind, wp_ask; [done|].
    intros [r entries] Hr. cbn in Hr. subst r. apply wp_try. cbn [map_err wp]. destruct (fold_left unpack_entry entries ([], [], [])) as [[cs ts] bs] eqn:E.
    apply ensure_steady_try; [done|done|]. apply wp_try_map_err, wp_ask; [done|]. intros x ->. exists entries. rewrite E. done. }
  intros r g (entries & -> & Hg). cbn [on_result fst snd]. cbn zeta. apply wp_step, wp_self, wp_try_map_err, wp_ask; [done|].
  intros x [d ->]. cbn [map_err on_result fst snd advance C serving]. apply wp_step, wp_bind.
  eapply wp_mono; [apply (update_loop_serving (set_command_list [] self1)); exact Hc1|].
  intros [[cmds r] rep] g' (answers & Hlen & -> & Hr & Hrep). cbn [fst snd] in *. subst r rep. cbn [wp on_result fst snd rbind].
  apply ensure_steady_step; [done|done|]. apply wp_step, wp_self, wp_try_map_err, wp_ask; [done|]. intros x ->.
  cbn [map_err on_result fst snd]. apply ensure_steady_step; [done|done|]. cbn [wp mdone fst].
  exists entries, answers. split_and!; [done| |].
  - unfold push_effects. rewrite Hg. cbn [advance C serving]. by rewrite <- app_assoc.
  - unfold push_report. by rewrite pkt_lines_cons, pkt_lines_acc.
Qed.

End push.


(** * Fetch *)

Definition want_line (id caps : bytes) : bytes := str "want " ++ id ++ [32] ++ caps ++ [10].
Definition have_line (id : bytes) : bytes := str "have " ++ id ++ [10].
Definition done_line : bytes := str "done" ++ [10].

(** The wants, the first with the capabilities. *)
Definition want_lines (wants : list bytes) (caps : bytes) : list bytes :=
  match wants with
  | [] => []
  | id :: wants => want_line id caps :: map (fun id => want_line id []) wants
  end.

Definition fetch_request (wants : list bytes) (caps : bytes) (haves : list bytes) : bytes :=
  pkt_lines (want_lines wants caps ++ map have_line haves ++ [done_line]).

(** A repository of a steady format that answers from a store. *)
Definition holding (st : Store) (local : HashKind.t) : Contract := {|
  ghost := unit;
  may_answer := fun X (c : Call X) => match c in Call X return X -> unit -> Prop with
    | object_hash_kind => fun k _ => k = local
    | commit_exists h => fun x _ => x = Ok (bool_decide (is_Some (st_commits st !! h)))
    | c => may_answer (reading st) c
    end;
  may_call := fun X c g => True;
  advance := fun X c x g => g
|}.

Lemma reading_holding {A} st local (p : Prog A) (Q : A -> unit -> Prop) :
  wp (reading st) p Q tt -> wp (holding st local) p Q tt.
Proof.
  intros Hp. apply (wp_weaken (reading st) (holding st local) (fun g => g) p Q tt); try done.
  intros X c x g Hx. destruct c; try done.
Qed.

Section fetch.
Context `{TextEnv} `{!LossyLaw} `{ByteSearch} `{HexLaws} `{Hasher} `{PackWriter} (join_text : bytes).

Lemma str_word (s : string) : utf8_valid (str s) = true -> forallb (fun c => negb (is_ascii_whitespace c) && negb (c =? 0)) (str s) = true ->
  str s <> [] -> word (str s).
Proof.
  intros Hu Hs Hne. split_and!; [done|done|]. apply Forall_forall. intros x Hx. rewrite forallb_forall in Hs.
  apply list_elem_of_In in Hx. specialize (Hs x Hx). destruct (is_ascii_whitespace x); [done|]. cbn in Hs. lia.
Qed.

(** One line: the command, and what the loop does with it. *)
Lemma upload_line_want C fuel id caps rest want have (first : bool) self (Q : Result (list bytes * list bytes) * SmartProtocol -> ghost C -> Prop) g :
  wire_id (wire_hash_kind self) id -> fits (want_line id caps) ->
  wp C ((if first then mdone tt else parse_capabilities (from_utf8_lossy (caps ++ [10])) : M unit) self)
    (on_result C (fun (_ : unit) self' g' => wire_hash_kind self' = wire_hash_kind self
       /\ wp C (upload_loop fuel rest (want ++ [id]) have true self') Q g') Q) g ->
  wp C (upload_loop (S fuel) (add_pkt_line_string [] (want_line id caps) ++ rest) want have first self) Q g.
Proof.
  intros Hid Hfit Hwp. cbn [upload_loop]. rewrite read_pkt_line_add by done. pose proof (blen_nonneg (want_line id caps)).
  replace (_ + 4 =? 0) with false by lia. rewrite bool_decide_false by done. unfold want_line at 1.
  change (str "want ") with (str "want" ++ [32]). rewrite <- app_assoc. cbn [app].
  rewrite (read_word (str "want") 32) by (by left || by apply str_word). rewrite bool_decide_true by done.
  rewrite (read_word id 32) by (eauto using wire_id_word). apply wp_step. eapply wp_mono; [exact Hwp|].
  intros [[u|e| |] s] g' Hr; cbn [on_result fst snd] in *; try done. destruct Hr as [Hw Hr]. apply wp_step, wp_self.
  rewrite parse_wire_id_ok by (by rewrite Hw). exact Hr.
Qed.

Lemma upload_line_have C fuel id rest want have first self (Q : Result (list bytes * list bytes) * SmartProtocol -> ghost C -> Prop) g :
  wire_id (wire_hash_kind self) id -> fits (have_line id) ->
  wp C (upload_loop fuel rest want (have ++ [id]) first self) Q g ->
  wp C (upload_loop (S fuel) (add_pkt_line_string [] (have_line id) ++ rest) want have first self) Q g.
Proof.
  intros Hid Hfit Hwp. cbn [upload_loop]. rewrite read_pkt_line_add by done. pose proof (blen_nonneg (have_line id)).
  replace (_ + 4 =? 0) with false by lia. rewrite bool_decide_false by done. unfold have_line at 1.
  change (str "have ") with (str "have" ++ [32]). rewrite <- app_assoc. cbn [app].
  rewrite (read_word (str "have") 32) by (by left || by apply str_word). rewrite bool_decide_false, bool_decide_true by done.
  rewrite (read_word id 10) by (eauto using wire_id_word). apply wp_step, wp_self. by rewrite parse_wire_id_ok by done.
Qed.

Lemma upload_wants_wp C wants fuel rest want have self (Q : Result (list bytes * list bytes) * SmartProtocol -> ghost C -> Prop) g :
  Forall (wire_id (wire_hash_kind self)) wants -> Forall fits (map (fun id => want_line id []) wants) ->
  wp C (upload_loop fuel rest (want ++ wants) have true self) Q g ->
  wp C (upload_loop (length wants + fuel) (pkt_lines (map (fun id => want_line id []) wants) ++ rest) want have true self) Q g.
Proof.
  revert want. induction wants as [|id wants IH]; intros want Hids Hfit Hwp; cbn [map length Nat.add] in *.
  { by rewrite app_nil_r in Hwp. }
  apply Forall_cons_1 in Hids as [Hid Hids]. apply Forall_cons_1 in Hfit as [Hf Hfit]. rewrite pkt_lines_cons, <- app_assoc.
  apply upload_line_want; [done|done|]. cbn [mdone wp on_result fst snd]. split; [done|]. apply IH; [done|done|]. by rewrite <- app_assoc.
Qed.

Lemma upload_haves_wp C haves fuel rest want have self (Q : Result (list bytes * list bytes) * SmartProtocol -> ghost C -> Prop) g :
  Forall (wire_id (wire_hash_kind self)) haves -> Forall fits (map have_line haves) ->
  wp C (upload_loop fuel rest want (have ++ haves) true self) Q g ->
  wp C (upload_loop (length haves + fuel) (pkt_lines (map have_line haves) ++ rest) want have true self) Q g.
Proof.
  revert have. induction haves as [|id haves IH]; intros have Hids Hfit Hwp; cbn [map length Nat.add] in *.
  { by rewrite app_nil_r in Hwp. }
  apply Forall_cons_1 in Hids as [Hid Hids]. apply Forall_cons_1 in Hfit as [Hf Hfit]. rewrite pkt_lines_cons, <- app_assoc.
  apply upload_line_have; [done|done|]. apply IH; [done|done|]. by rewrite <- app_assoc.
Qed.

(** All wants, from the first. *)
Lemma upload_first_wp C wants caps fuel rest self (Q : Result (list bytes * list bytes) * SmartProtocol -> ghost C -> Prop) g :
  keeps_kind C (local_hash_kind self) -> consistent self -> wants <> [] ->
  Forall (wire_id (wire_hash_kind self)) wants -> Forall fits (want_lines wants caps) ->
  utf8_valid (caps ++ [10]) = true -> Forall (agrees (local_hash_kind self)) (split_whitespace (caps ++ [10])) ->
  wp C (upload_loop fuel rest wants [] true
    (set_capabilities (capabilities self ++ map Capability_from_str (split_whitespace (caps ++ [10]))) self)) Q g ->
  wp C (upload_loop (length wants + fuel) (pkt_lines (want_lines wants caps) ++ rest) [] [] false self) Q g.
Proof.
  intros HC Hc Hne Hids Hfit Hu Hag Hwp. destruct wants as [|id wants]; [done|]. cbn [want_lines length Nat.add] in *.
  apply Forall_cons_1 in Hids as [Hid Hids]. apply Forall_cons_1 in Hfit as [Hf Hfit]. rewrite pkt_lines_cons, <- app_assoc.
  apply upload_line_want; [done|done|]. rewrite lossy_valid by done. apply parse_capabilities_wp; [done..|].
  cbn [on_result fst snd]. split; [done|]. by apply upload_wants_wp.
Qed.

Lemma upload_done_wp C fuel want have first self (Q : Result (list bytes * list bytes) * SmartProtocol -> ghost C -> Prop) g :
  Q (Ok (want, have), self) g -> wp C (upload_loop (S fuel) (pkt_lines [done_line]) want have first self) Q g.
Proof.
  intros HQ. cbn [upload_loop]. rewrite pkt_lines_cons, read_pkt_line_add by (vm_compute; reflexivity). exact HQ.
Qed.

Lemma upload_flush_wp C fuel rest want have first self (Q : Result (list bytes * list bytes) * SmartProtocol -> ghost C -> Prop) g :
  Q (Ok (want, have), self) g -> wp C (upload_loop (S fuel) (PKT_LINE_END_MARKER ++ rest) want have first self) Q g.
Proof. intros HQ. cbn [upload_loop]. rewrite read_pkt_line_flush. exact HQ. Qed.

Lemma pkt_lines_length lines : (4 * length lines <= length (pkt_lines lines))%nat.
Proof.
  induction lines as [|l lines IH]; [done|]. rewrite pkt_lines_cons, length_app. unfold add_pkt_line_string, show_hex04.
  rewrite !length_app, repeat_length. cbn [length]. lia.
Qed.

Lemma pkt_lines_app l1 l2 : pkt_lines (l1 ++ l2) = pkt_lines l1 ++ pkt_lines l2.
Proof. unfold pkt_lines at 1. rewrite fold_left_app, pkt_lines_acc. done. Qed.

Lemma want_lines_length wants caps : length (want_lines wants caps) = length wants.
Proof. destruct wants; [done|]. cbn [want_lines length]. by rewrite length_map. Qed.

(** ** Common commits *)

Definition ack_line (status id : bytes) : bytes := str "ACK " ++ id ++ status ++ [10].

Lemma common_loop_wp st local haves buf last :
  Forall (fun h => h <> [] /\ is_Some (st_commits st !! h)) haves ->
  wp (holding st local) (common_loop haves buf last) (fun r _ =>
    r = Ok (buf ++ pkt_lines (map (ack_line (str " common")) haves), if bool_decide (last = []) then default [] (head haves) else last)) tt.
Proof.
  intros Hall. revert buf last. induction Hall as [|h haves [Hne Hh] _ IH]; intros buf last; cbn [common_loop].
  { cbn [map pkt_lines fold_left]. rewrite app_nil_r. case_bool_decide; [by subst|done]. }
  apply wp_try, wp_try_map_err, wp_ask; [done|]. intros x ->. rewrite bool_decide_true by done. cbn [map_err].
  eapply wp_mono; [apply IH|]. intros r [] ->. f_equal. f_equal.
  - cbn [map]. rewrite pkt_lines_cons. unfold add_pkt_line_string, ack_line. by rewrite <- !app_assoc.
  - cbn [head default]. destruct (decide (last = [])) as [->|Hl]; [by rewrite (bool_decide_true ([] = [])), bool_decide_false|].
    by rewrite !(bool_decide_false (last = [])).
Qed.

(** The answer before the pack. *)
Definition fetch_reply (haves : list bytes) : bytes :=
  match haves with
  | [] => pkt_lines [NAK]
  | h :: _ => pkt_lines (map (ack_line (str " common")) haves ++ [ack_line (str " ready") h])
  end.

(** What the pack is made of. *)
Definition fetch_objects (st : Store) (wants haves : list bytes) (objects : Objects3) : Prop :=
  match haves with
  | [] => reachable_objects st wants objects
  | _ => missing_objects st wants haves objects
  end.

(** The end of the handler when there is no have. *)
Lemma full_pack_wp st wants fuel self (buf : bytes) (Q : Result (PackStream * bytes) -> unit -> Prop) :
  consistent self -> complete st (local_hash_kind self) wants ->
  (size (st_trees st) < fuel)%nat -> (length wants + weight st ∅ < fuel)%nat ->
  (forall objects, reachable_objects st wants objects -> Q (Ok (spawn_pack_stream join_text (local_hash_kind self) objects, buf)) tt) ->
  wp (holding st (local_hash_kind self)) (try! _ := ensure_hash_kind_consistency self in
    try! pack_stream := generate_full_pack join_text fuel (local_hash_kind self) wants in
    try! _ := ensure_hash_kind_consistency self in Ret (Ok (pack_stream, buf))) Q tt.
Proof.
  intros Hc C1 Ht Hf HQ.
  assert (HC : keeps_kind (holding st (local_hash_kind self)) (local_hash_kind self)) by (split_and!; [done|by intros k ? ->|done]).
  apply ensure_steady_try; [done|done|]. apply wp_try. unfold generate_full_pack. apply wp_try.
  eapply wp_mono; [apply reading_holding, collect_all_wp; [exact C1|done|lia]|]. intros r [] (objects & -> & Ho). cbn [wp].
  apply ensure_steady_try; [done|done|]. by apply HQ.
Qed.

Lemma fetch_wp st wants caps haves fuel self :
  consistent self -> wants <> [] ->
  Forall (wire_id (wire_hash_kind self)) wants -> Forall (wire_id (wire_hash_kind self)) haves ->
  Forall fits (want_lines wants caps) -> Forall fits (map have_line haves) ->
  utf8_valid (caps ++ [10]) = true -> Forall (agrees (local_hash_kind self)) (split_whitespace (caps ++ [10])) ->
  complete st (local_hash_kind self) wants -> complete st (local_hash_kind self) haves ->
  (size (st_trees st) < fuel)%nat -> (length wants + length haves + weight st ∅ < fuel)%nat ->
  wp (holding st (local_hash_kind self)) (git_upload_pack join_text fuel (fetch_request wants caps haves) self) (fun x _ =>
    exists objects, x.1 = Ok (spawn_pack_stream join_text (local_hash_kind self) objects, fetch_reply haves)
      /\ fetch_objects st wants haves objects /\ capabilities x.2 = map Capability_from_str (split_whitespace (caps ++ [10]))) tt.
Proof.
  intros Hc Hne Hw Hh Hfw Hfh Hu Hag C1 C2 Ht Hf. set (C := holding st (local_hash_kind self)).
  assert (HC : keeps_kind C (local_hash_kind self)) by (split_and!; [done|by intros k ? ->|done]).
  apply wp_step. cbn [mset wp on_result fst snd]. apply ensure_steady_step; [done|done|]. apply wp_step.
  assert (Hfuel : exists f, S (length (fetch_request wants caps haves)) = (length wants + (length haves + S f))%nat).
  { pose proof (pkt_lines_length (want_lines wants caps ++ map have_line haves ++ [done_line])) as Hl. unfold fetch_request.
    rewrite !length_app, want_lines_length, length_map in Hl. cbn [length] in Hl.
    exists (length (pkt_lines (want_lines wants caps ++ map have_line haves ++ [done_line])) - (length wants + length haves))%nat. lia. }
  destruct Hfuel as [f ->]. unfold fetch_request. rewrite !pkt_lines_app.
  apply upload_first_wp; [done..|]. apply upload_haves_wp; [done..|]. cbn [app]. apply upload_done_wp. cbn [on_result fst snd].
  set (self1 := set_capabilities _ _). assert (Hc1 : consistent self1) by done.
  apply wp_self. destruct haves as [|h haves].
  - rewrite bool_decide_true by done. apply (full_pack_wp st wants fuel self1); [done|done|done|cbn in Hf; lia|]. intros objects Ho. by exists objects.
  - rewrite bool_decide_false by done. apply wp_try.
    assert (Hknown : Forall (fun h => h <> [] /\ is_Some (st_commits st !! h)) (h :: haves)).
    { rewrite Forall_forall in Hh |- *. intros x Hx. split; [by eapply wire_id_word, Hh|].
      destruct (commit_there _ _ _ C2 x) as (c & ? & _); [by apply reach_root|]. by exists c. }
    eapply wp_mono; [by apply common_loop_wp|]. intros r [] ->. apply ensure_steady_try; [done|done|].
    change (bool_decide (@nil Z = [])) with true. cbn [head default app]. rewrite bool_decide_false by (by inversion Hknown as [|? ? [? _]]). cbn zeta.
    apply wp_try. unfold generate_incremental_pack. apply wp_try.
    eapply wp_mono; [apply reading_holding, collect_all_wp; [exact C1|done|lia]|]. intros r [] (w & -> & Hwo). apply wp_try.
    eapply wp_mono; [apply reading_holding, collect_all_wp; [exact C2|done|lia]|]. intros r [] (l & -> & Hlo). cbn [wp].
    apply ensure_steady_try; [done|done|]. exists (filter_objects w l). split_and!; [|by eapply filter_objects_missing|done].
    cbn [fst fetch_reply]. rewrite pkt_lines_app, pkt_lines_cons. unfold add_pkt_line_string, ack_line. cbn [pkt_lines fold_left app].
    by rewrite app_nil_r, <- !app_assoc.
Qed.

Lemma flush_wp st wants caps rest fuel self :
  consistent self -> wants <> [] -> Forall (wire_id (wire_hash_kind self)) wants -> Forall fits (want_lines wants caps) ->
  utf8_valid (caps ++ [10]) = true -> Forall (agrees (local_hash_kind self)) (split_whitespace (caps ++ [10])) ->
  complete st (local_hash_kind self) wants -> (size (st_trees st) < fuel)%nat -> (length wants + weight st ∅ < fuel)%nat ->
  wp (holding st (local_hash_kind self))
    (git_upload_pack join_text fuel (pkt_lines (want_lines wants caps) ++ PKT_LINE_END_MARKER ++ rest) self) (fun x _ =>
    exists objects, x.1 = Ok (spawn_pack_stream join_text (local_hash_kind self) objects, pkt_lines [NAK])
      /\ reachable_objects st wants objects) tt.
Proof.
  intros Hc Hne Hw Hfw Hu Hag C1 Ht Hf. set (C := holding st (local_hash_kind self)).
  assert (HC : keeps_kind C (local_hash_kind self)) by (split_and!; [done|by intros k ? ->|done]).
  apply wp_step. cbn [mset wp on_result fst snd]. apply ensure_steady_step; [done|done|]. apply wp_step.
  assert (Hfuel : exists f, S (length (pkt_lines (want_lines wants caps) ++ PKT_LINE_END_MARKER ++ rest)) = (length wants + S f)%nat).
  { pose proof (pkt_lines_length (want_lines wants caps)) as Hl. rewrite want_lines_length in Hl. rewrite !length_app.
    exists (length (pkt_lines (want_lines wants caps)) + (length PKT_LINE_END_MARKER + length rest) - length wants)%nat. lia. }
  destruct Hfuel as [f ->]. apply upload_first_wp; [done..|]. apply upload_flush_wp. cbn [on_result fst snd]. apply wp_self.
  rewrite bool_decide_true by done. set (self1 := set_capabilities _ _).
  apply (full_pack_wp st wants fuel self1); [done|done|done|lia|]. intros objects Ho. by exists objects.
Qed.

End fetch.


(** the haves of a request that has a flush after its wants, as Git's clients send them, are
    never read: whatever follows the flush, the answer is [NAK] and the pack is the full one. *)
Theorem haves_after_flush_ignored `{TextEnv} `{!LossyLaw} `{HexLaws} `{Hasher} `{PackWriter} (join_text : bytes) (st : Store)
  (wants : list bytes) (caps rest : bytes) (fuel : nat) (self self' : SmartProtocol) (t : list Event) (r : Result (PackStream * bytes)) :
  consistent self -> wants <> [] -> Forall (wire_id (wire_hash_kind self)) wants -> Forall fits (want_lines wants caps) ->
  utf8_valid (caps ++ [10]) = true -> Forall (agrees (local_hash_kind self)) (split_whitespace (caps ++ [10])) ->
  complete st (local_hash_kind self) wants -> (size (st_trees st) < fuel)%nat -> (length wants + weight st ∅ < fuel)%nat ->
  runs (git_upload_pack join_text fuel (pkt_lines (want_lines wants caps) ++ PKT_LINE_END_MARKER ++ rest) self) t (r, self') ->
  answered (holding st (local_hash_kind self)) tt t ->
  exists objects, r = Ok (spawn_pack_stream join_text (local_hash_kind self) objects, pkt_lines [NAK]) /\ reachable_objects st wants objects.
Proof.
  intros Hc Hne Hw Hfw Hu Hag C1 Ht Hf Hr Ha.
  exact (proj2 (wp_sound _ _ _ _ _ _ (flush_wp join_text st wants caps rest fuel self Hc Hne Hw Hfw Hu Hag C1 Ht Hf) Hr Ha)).
Qed.

(** * Advertisement *)

(** The client's reader: the packet lines up to a flush. *)
Fixpoint read_section (fuel : nat) (b : bytes) : list bytes * bytes :=
  match fuel with
  | O => ([], b)
  | S fuel =>
      let '((n, line), b) := read_pkt_line b in
      if bool_decide (line = []) then ([], b) else let '(lines, b) := read_section fuel b in (line :: lines, b)
  end.

Lemma read_section_lines lines rest :
  Forall (fun l => l <> [] /\ fits l) lines ->
  read_section (S (length lines)) (pkt_lines lines ++ PKT_LINE_END_MARKER ++ rest) = (lines, rest).
Proof.
  induction 1 as [|l lines [Hne Hl] _ IH].
  - cbn [read_section pkt_lines fold_left app length]. by rewrite read_pkt_line_flush.
  - cbn [length]. rewrite pkt_lines_cons, <- app_assoc. cbn [read_section] in *. rewrite read_pkt_line_add by done.
    rewrite bool_decide_false by done. by rewrite IH.
Qed.

(** A repository of a steady format with the given references. *)
Definition advertising (local : HashKind.t) (refs : list (bytes * bytes)) : Contract := {|
  ghost := unit;
  may_answer := fun X (c : Call X) => match c in Call X return X -> unit -> Prop with
    | object_hash_kind => fun k _ => k = local
    | get_repository_refs => fun x _ => x = Ok refs
    | _ => fun _ _ => True
    end;
  may_call := fun X c g => True;
  advance := fun X c x g => g
|}.

Section advertisement.
Context `{TextEnv} `{HexLaws}.

Lemma check_refs_ok self refs :
  Forall (fun '(_, h) => wire_id (wire_hash_kind self) h) refs -> check_refs self (HashKind.hex_len (wire_hash_kind self)) refs = Ok tt.
Proof.
  induction 1 as [|[name h] refs Hh _ IH]; [done|]. cbn [check_refs]. pose proof Hh as (x & Ex & Hwf & Hk).
  rewrite Ex at 1. rewrite fmt_length, Hk, Z.eqb_refl by done. cbn [negb]. rewrite parse_wire_id_ok by done. exact IH.
Qed.

Lemma info_refs_wp self service refs :
  consistent self -> Forall (fun '(_, h) => wire_id (wire_hash_kind self) h) refs ->
  wp (advertising (local_hash_kind self) refs) (git_info_refs self service) (fun r _ =>
    r = Ok (build_smart_reply (transport_protocol self) (advertisement self service refs) (ServiceType_fmt service))) tt.
Proof.
  intros Hc Hr. set (C := advertising (local_hash_kind self) refs).
  assert (HC : keeps_kind C (local_hash_kind self)) by (split_and!; [done|by intros k ? ->|done]).
  apply ensure_steady_try; [done|done|]. apply wp_try, wp_try_map_err, wp_ask; [done|]. intros x ->. cbn [map_err].
  apply ensure_steady_try; [done|done|]. apply wp_try. by rewrite check_refs_ok.
Qed.

(** What is advertised is accepted. *)
Lemma advertised_agrees self service : consistent self -> Forall (agrees (local_hash_kind self)) (split_whitespace (cap_list self service)).
Proof.
  intros [Hw _]. unfold cap_list. rewrite Hw. unfold agrees.
  destruct (local_hash_kind self), service; vm_compute split_whitespace;
    repeat (apply Forall_cons_2; [intros fmt Hfmt; vm_compute in Hfmt; by simplify_eq|]); apply Forall_nil_2.
Qed.

End advertisement.


(** * Concrete conversations *)

Definition sha1_protocol : SmartProtocol :=
  mkSmart Http [] None [] HashKind.Sha1 HashKind.Sha1 (@ObjectHash.zero_str hex_reference HashKind.Sha1).

Definition main_id : bytes := hex_name (sample_id 7).
Definition zero_sha1 : bytes := @ObjectHash.zero_str hex_reference HashKind.Sha1.

Lemma main_wire : @wire_id hex_reference HashKind.Sha1 main_id.
Proof. exists (sample_id 7). split_and!; [done|apply sha1_repeat_wf; unfold is_byte; lia|done]. Qed.

Lemma zero_wire : @wire_id hex_reference HashKind.Sha1 zero_sha1.
Proof. exists (ObjectHash.zero_for_kind HashKind.Sha1). split_and!; [done|apply (sha1_repeat_wf 0); unfold is_byte; lia|done]. Qed.

Ltac agree := repeat (apply Forall_cons_2; [intros fmt Hfmt; vm_compute in Hfmt; by simplify_eq|]); apply Forall_nil_2.

Lemma handlers_fail_closed_witness :
  let '(r, self', _, t) := run (store_repo link_store HashKind.Sha1)
    (@git_receive_pack_stream plain_texts linear_search hex_reference
      [Ok (push_request [(zero_sha1, main_id, str "refs/heads/main")] (str "report-status") [])] sha1_protocol) tt in
  obeys (guarding HashKind.Sha1) false t /\ final (guarding HashKind.Sha1) false t = true /\ @consistent hex_reference self'.
Proof.
  destruct (run (store_repo link_store HashKind.Sha1) _ tt) as [[[r self'] s] t] eqn:E.
  pose proof (run_runs (store_repo link_store HashKind.Sha1) (@git_receive_pack_stream plain_texts linear_search hex_reference
    [Ok (push_request [(zero_sha1, main_id, str "refs/heads/main")] (str "report-status") [])] sha1_protocol) tt) as Hr.
  rewrite E in Hr. cbn [fst snd] in Hr.
  destruct (proj1 (@handlers_fail_closed plain_texts linear_search hex_reference toy_hasher (fun _ _ => (Ok tt, [])) [] sha1_protocol) _ _ _ _ Hr) as [Ho Hok].
  split; [exact Ho|]. assert (Hres : exists report, r = Ok report).
  { apply (f_equal (fun x => x.1.1.1)) in E. cbn [fst] in E. rewrite <- E. eexists. vm_compute. reflexivity. }
  destruct Hres as [report Hres]. exact (Hok report Hres).
Defined.

Lemma negotiation_exact_witness :
  let p := @parse_capabilities hex_reference (str "side-band-64k object-format=sha1") sha1_protocol in
  let x := (run (store_repo link_store HashKind.Sha1) p tt).1.1 in
  x.1 = Ok tt /\ capabilities x.2 = [SideBand64k; ObjectFormat (str "sha1")].
Proof.
  intros p x. destruct (@negotiation_exact plain_texts hex_reference sha1_protocol x.2 (str "side-band-64k object-format=sha1")
    (run (store_repo link_store HashKind.Sha1) p tt).2 x.1) as [(_ & Hr & Hs)|[Hex _]].
  - done.
  - rewrite <- surjective_pairing. apply run_runs.
  - apply run_answered. by intros X [].
  - split; [exact Hr|]. rewrite Hs. vm_compute. reflexivity.
  - exfalso. assert (Hall : Forall (agrees HashKind.Sha1) (split_whitespace (str "side-band-64k object-format=sha1"))) by (vm_compute split_whitespace; agree).
    apply Exists_exists in Hex as (cap & Hin & Hn). rewrite Forall_forall in Hall. by apply Hn, Hall.
Defined.

Lemma sample_command_ok : @command_ok hex_reference HashKind.Sha1 (zero_sha1, main_id, str "refs/heads/main").
Proof. split_and!; [apply zero_wire|apply main_wire|by apply str_word]. Qed.



(** Git's client: a flush, then the have it has. *)
Lemma haves_after_flush_ignored_witness :
  let p := @git_upload_pack plain_texts hex_reference toy_hasher (fun _ _ => (Ok tt, [])) [] 4
    (pkt_lines (want_lines [main_id] (str "side-band-64k")) ++ PKT_LINE_END_MARKER ++ pkt_lines [have_line main_id; done_line]) sha1_protocol in
  let '(x, _, t) := run (store_repo link_store HashKind.Sha1) p tt in
  exists objects, x.1 = Ok (@spawn_pack_stream plain_texts hex_reference toy_hasher (fun _ _ => (Ok tt, [])) [] HashKind.Sha1 objects, pkt_lines [NAK])
    /\ @reachable_objects hex_reference link_store [main_id] objects.
Proof.
  intros p. pose proof (run_runs (store_repo link_store HashKind.Sha1) p tt) as Hr.
  pose proof (run_answered (holding link_store HashKind.Sha1) (store_repo link_store HashKind.Sha1) p tt tt) as Ha.
  destruct (run (store_repo link_store HashKind.Sha1) p tt) as [[[r self'] s] t]. cbn [fst snd] in *.
  apply (@haves_after_flush_ignored plain_texts plain_texts_lossy hex_reference hex_reference_laws toy_hasher (fun _ _ => (Ok tt, [])) []
    link_store [main_id] (str "side-band-64k") (pkt_lines [have_line main_id; done_line]) 4 sha1_protocol self' t r).
  - done.
  - done.
  - apply Forall_singleton, main_wire.
  - apply Forall_singleton. vm_compute. reflexivity.
  - done.
  - vm_compute split_whitespace. agree.
  - apply link_store_complete. by apply Forall_singleton.
  - vm_compute. lia.
  - vm_compute. lia.
  - exact Hr.
  - apply Ha. intros X c s' g. by destruct c; cbn; try done; intros o ->.
Defined.

Definition other_id : bytes := hex_name (sample_id 9).

(** a fetch fails when the client has a commit that the server lacks next to one that it
    knows: after the known one was acknowledged, the objects of all haves are collected, and the
    unknown one is an internal error.  With only the known have the same fetch is answered. *)
Theorem unknown_have_fails :
  let fetch haves := (run (store_repo link_store HashKind.Sha1) (@git_upload_pack plain_texts hex_reference toy_hasher
    (fun _ _ => (Ok tt, [])) [] 4 (fetch_request [main_id] (str "side-band-64k") haves) sha1_protocol) tt).1.1.1 in
  (exists m, fetch [main_id; other_id] = Err (Internal m)) /\ (exists answer, fetch [main_id] = Ok answer).
Proof. split; eexists; vm_compute; reflexivity. Qed.

(** A repository in whose pack the decoder finds a tag object. *)
Definition tag_entry : MetaAttached Entry EntryMeta := mkMetaAttached _ _ (mkEntry ObjectType.Tag (str "object") (sample_id 8) 0) EntryMeta_new.

Definition tag_repo : Repo := {|
  repo_state := unit;
  repo_step := fun X (c : Call X) s =>
    match c in Call X return X * unit with
    | decode_pack _ _ => ((Ok tt, [tag_entry]), s)
    | c => repo_step (store_repo link_store HashKind.Sha1) _ c s
    end
|}.

(** a pushed tag object is lost: the unpacking passes over objects that are neither commits,
    trees nor blobs, so nothing of the pack is stored, and yet the reference is updated to the
    tag and the push is reported as successful. *)
Theorem pushed_tag_lost :
  let commands := [(zero_sha1, hex_name (sample_id 8), str "refs/tags/v1")] in
  let '(x, _, t) := run tag_repo (@git_receive_pack_stream plain_texts linear_search hex_reference
    [Ok (push_request commands (str "report-status") [80; 65])] sha1_protocol) tt in
  x.1 = Ok (push_report commands [Ok tt])
  /\ final (serving HashKind.Sha1) [] t
     = [Decoded HashKind.Sha1 [80; 65] [tag_entry]; Stored ([], [], []); Updated (str "refs/tags/v1") None (hex_name (sample_id 8)) (Ok tt); Hooked].
Proof. vm_compute. split; reflexivity. Qed.

