(* ===== verification/GitProtocol.v ===== *)
(** The transport-independent handler [GitProtocol] of [src/protocol/core.rs], with the side-band
    framing, and its adapters for HTTP ([http.rs]) and SSH ([ssh.rs]).

    [GitProtocol] wraps a [SmartProtocol] and nothing else, so its methods are methods on that
    state.  A [ProtocolStream] is the list of its items, for a consumer that reads it to the
    end. *)

From Stdlib Require Import ZArith Lia String.
From stdpp Require Import base tactics list numbers option gmap.
From S2P Require Import Prelude Stream Text Errors ObjectTypes PackUtils Hash PackIndex Signature Tree Commit Tag Objects PktLine ProtocolTypes Repository PackGenerator PackReach Smart SmartProofs SmartSpec.

Definition ProtocolStream : Type := list (Result bytes).

(** * Side bands *)

Definition SIDE_BAND_PACKET_LEN : Z := 1000.
Definition SIDE_BAND_64K_PACKET_LEN : Z := 65520.
Definition SIDE_BAND_HEADER_LEN : Z := 5.

(** The loop over [offset]; [fuel] bounds its rounds. *)
Fixpoint side_band_loop (fuel : nat) (chunk : bytes) (max_payload offset : Z) : Res Empty_set (list bytes) :=
  match fuel with
  | O => OutOfFuel
  | S fuel =>
      if offset <? blen chunk then
        let end_ := Z.min (offset + max_payload) (blen chunk) in
        let payload := slice chunk offset end_ in
        let length := blen payload + 5 in
        let pkt := (show_hex04 length ++ [SideBand_value PackfileData]) ++ payload in
        let! out := side_band_loop fuel chunk max_payload end_ in Ok (pkt :: out)
      else Ok []
  end.

Definition build_side_band_packets (chunk : bytes) (max_payload : Z) : Res Empty_set (list bytes) :=
  if bool_decide (chunk = []) then Ok [] else side_band_loop (S (length chunk)) chunk max_payload 0.

Definition sideband_max (capabilities : list Capability) : option Z :=
  if bool_decide (SideBand64k ∈ capabilities) then Some (SIDE_BAND_64K_PACKET_LEN - SIDE_BAND_HEADER_LEN)
  else if bool_decide (SideBand ∈ capabilities) then Some (SIDE_BAND_PACKET_LEN - SIDE_BAND_HEADER_LEN)
  else None.

(** [flat_map] over the items of the pack stream. *)
Fixpoint band_items (max_payload : Z) (items : list (Result bytes)) : Res Empty_set ProtocolStream :=
  match items with
  | [] => Ok []
  | Ok chunk :: items =>
      let! packets := build_side_band_packets chunk max_payload in
      let! rest := band_items max_payload items in Ok (map Ok packets ++ rest)
  | e :: items => let! rest := band_items max_payload items in Ok (e :: rest)
  end.

(** A loop that panics takes the handler with it. *)
Definition lift_res {A} (r : Res Empty_set A) : Result A :=
  match r with
  | Ok a => Ok a
  | Err e => match e with end
  | Panic => Panic
  | OutOfFuel => OutOfFuel
  end.

Section protocol.
Context `{TextEnv} `{ByteSearch} `{HexCrate} `{Hasher} `{PackWriter} (join_text : bytes).

Implicit Types self : SmartProtocol.

Definition GitProtocol_new : Prog SmartProtocol := SmartProtocol_new Http.

Definition set_transport (protocol : TransportProtocol) self : SmartProtocol := set_transport_protocol protocol self.

Definition info_refs self (service : bytes) : Prog (Result bytes) :=
  try! service_type := Ret (if bool_decide (service = str "git-upload-pack") then Ok UploadPack
    else if bool_decide (service = str "git-receive-pack") then Ok ReceivePack else Err (invalid_service service)) in
  git_info_refs self service_type.

Definition upload_pack (fuel : nat) (request_data : bytes) : M ProtocolStream :=
  step! '(pack_stream, ack_bytes) := git_upload_pack join_text fuel request_data in
  mself (fun self =>
    let ack_stream : ProtocolStream := if bool_decide (ack_bytes = []) then [] else [Ok ack_bytes] in
    try! data_stream := Ret (match sideband_max (capabilities self) with
      | Some max_payload => let! packets := lift_res (band_items max_payload (pack_stream None)) in Ok (packets ++ [Ok PKT_LINE_END_MARKER])
      | None => Ok (pack_stream None)
      end) in
    Ret (Ok (ack_stream ++ data_stream))).

Definition receive_pack (request_stream : ProtocolStream) : M ProtocolStream :=
  step! result_bytes := git_receive_pack_stream request_stream in
  mself (fun self =>
    match sideband_max (capabilities self) with
    | Some max_payload =>
        try! packets := Ret (lift_res (build_side_band_packets result_bytes max_payload)) in
        Ret (Ok (map Ok packets ++ [Ok PKT_LINE_END_MARKER]))
    | None => Ret (Ok [Ok result_bytes])
    end).

(** * HTTP *)

(** [str::rfind]: the last occurrence. *)
Fixpoint rfind (p s : bytes) : option Z :=
  match s with
  | [] => if bool_decide (p = []) then Some 0 else None
  | _ :: s' =>
      match rfind p s' with
      | Some i => Some (1 + i)
      | None => if starts_with p s then Some 0 else None
      end
  end.

(** [str::split] at a character, and [split_once]. *)
Fixpoint split_loop (c : Z) (cur s : bytes) : list bytes :=
  match s with
  | [] => [cur]
  | b :: s => if b =? c then cur :: split_loop c [] s else split_loop c (cur ++ [b]) s
  end.

Definition get_content_type (service : bytes) : bytes :=
  if bool_decide (service = str "git-upload-pack") then str "application/x-git-upload-pack-result"
  else if bool_decide (service = str "git-receive-pack") then str "application/x-git-receive-pack-result"
  else str "application/x-git-upload-pack-advertisement".

Definition get_advertisement_content_type (service : bytes) : bytes :=
  if bool_decide (service = str "git-upload-pack") then str "application/x-git-upload-pack-advertisement"
  else if bool_decide (service = str "git-receive-pack") then str "application/x-git-receive-pack-advertisement"
  else str "application/x-git-upload-pack-advertisement".

Definition is_git_request (path : bytes) : bool :=
  ends_with (str "/info/refs") path || ends_with (str "/git-upload-pack") path || ends_with (str "/git-receive-pack") path.

Definition extract_repo_path (path : bytes) : option bytes :=
  match rfind (str "/info/refs") path with
  | Some pos => Some (slice path 0 pos)
  | None =>
      match rfind (str "/git-upload-pack") path with
      | Some pos => Some (slice path 0 pos)
      | None =>
          match rfind (str "/git-receive-pack") path with
          | Some pos => Some (slice path 0 pos)
          | None => None
          end
      end
  end.

Fixpoint service_param (params : list bytes) : option bytes :=
  match params with
  | [] => None
  | param :: params =>
      match split_at 61 param with
      | Some (key, value) => if bool_decide (key = str "service") then Some value else service_param params
      | None => service_param params
      end
  end.

Definition get_service_from_query (query : bytes) : option bytes := service_param (split_loop 38 [] query).

Definition HttpGitHandler_new : Prog SmartProtocol := do! protocol := GitProtocol_new in Ret (set_transport Http protocol).

Definition not_a_git_request : ProtocolError := InvalidRequest (str "Not a Git request").
Definition invalid_repository_path : ProtocolError := InvalidRequest (str "Invalid repository path").

Definition http_handle_info_refs (request_path query : bytes) self : Prog (Result (bytes * bytes)) :=
  try! _ := Ret (ok_or (extract_repo_path request_path) invalid_repository_path) in
  try! service := Ret (ok_or (get_service_from_query query) (InvalidRequest (str "Missing service parameter"))) in
  if negb (is_git_request request_path) then Ret (Err not_a_git_request)
  else
    try! response_data := info_refs self service in
    Ret (Ok (response_data, get_advertisement_content_type service)).

Definition http_handle_upload_pack (fuel : nat) (request_path request_body : bytes) : M (ProtocolStream * bytes) :=
  step! _ := mself (fun _ => Ret (ok_or (extract_repo_path request_path) invalid_repository_path)) in
  if negb (is_git_request request_path) then mfail not_a_git_request
  else
    step! response_stream := upload_pack fuel request_body in
    mdone (response_stream, get_content_type (str "git-upload-pack")).

Definition http_handle_receive_pack (request_path : bytes) (request_stream : ProtocolStream) : M (ProtocolStream * bytes) :=
  step! _ := mself (fun _ => Ret (ok_or (extract_repo_path request_path) invalid_repository_path)) in
  if negb (is_git_request request_path) then mfail not_a_git_request
  else
    step! response_stream := receive_pack request_stream in
    mdone (response_stream, get_content_type (str "git-receive-pack")).

(** * SSH *)

Definition SshGitHandler_new : Prog SmartProtocol := do! protocol := GitProtocol_new in Ret (set_transport Ssh protocol).

Definition ssh_handle_upload_pack (fuel : nat) (request_data : bytes) : M ProtocolStream := upload_pack fuel request_data.
Definition ssh_handle_receive_pack (request_stream : ProtocolStream) : M ProtocolStream := receive_pack request_stream.
Definition ssh_handle_info_refs (service : bytes) self : Prog (Result bytes) := info_refs self service.

Definition parse_ssh_command (command_line : bytes) : option (bytes * list bytes) :=
  match split_whitespace command_line with
  | [] => None
  | command :: args => Some (command, args)
  end.

Definition is_git_ssh_command (command : bytes) : bool :=
  bool_decide (command = str "git-upload-pack") || bool_decide (command = str "git-receive-pack").

Definition extract_repo_path_from_args (args : list bytes) : option bytes := head args.

End protocol.

(** * Side bands read back *)

Definition band_packet (payload : bytes) : bytes := add_pkt_line_string [] (1 :: payload).

Lemma side_band_loop_ok fuel chunk max offset :
  0 < max -> 0 <= offset <= blen chunk -> (Z.to_nat (blen chunk - offset) < fuel)%nat ->
  exists payloads, side_band_loop fuel chunk max offset = Ok (map band_packet payloads)
    /\ concat payloads = drop (Z.to_nat offset) chunk /\ Forall (fun p => 0 < blen p <= max) payloads.
Proof.
  intros Hmax. revert offset. induction fuel as [|fuel IH]; intros offset Ho Hf; [lia|]. cbn [side_band_loop].
  destruct (offset <? blen chunk) eqn:E.
  - set (end_ := Z.min (offset + max) (blen chunk)). destruct (IH end_) as (payloads & -> & Hc & Hall); [lia|lia|].
    cbn [rbind]. exists (slice chunk offset end_ :: payloads). assert (Hb : blen (slice chunk offset end_) = end_ - offset) by (apply blen_slice; lia).
    split_and!.
    + cbn [map]. do 2 f_equal. unfold band_packet, add_pkt_line_string. cbn [app]. rewrite blen_cons. cbn [SideBand_value].
      replace (1 + blen (slice chunk offset end_) + 4) with (blen (slice chunk offset end_) + 5) by lia. by rewrite <- app_assoc.
    + cbn [concat]. rewrite Hc. unfold slice. replace (Z.to_nat end_) with (Z.to_nat (end_ - offset) + Z.to_nat offset)%nat by lia.
      rewrite Nat.add_comm, <- drop_drop. apply take_drop.
    + apply Forall_cons_2; [lia|done].
  - exists []. split_and!; [done| |apply Forall_nil_2]. cbn. symmetry. apply drop_ge. unfold blen in *. lia.
Qed.

(** A chunk becomes packets that fit, whose payloads are the chunk. *)
Lemma side_band_packets chunk max :
  0 < max -> exists payloads, build_side_band_packets chunk max = Ok (map band_packet payloads)
    /\ concat payloads = chunk /\ Forall (fun p => 0 < blen p <= max) payloads.
Proof.
  intros Hmax. unfold build_side_band_packets. case_bool_decide as E; [exists []; subst; split_and!; [done|done|apply Forall_nil_2]|].
  pose proof (blen_nonneg chunk). destruct (side_band_loop_ok (S (length chunk)) chunk max 0) as (payloads & ? & ? & ?); [done|lia|unfold blen; lia|].
  by exists payloads.
Qed.

Lemma band_items_ok chunks max :
  0 < max -> exists payloads, band_items max (map Ok chunks) = Ok (map Ok (map band_packet payloads))
    /\ concat payloads = concat chunks /\ Forall (fun p => 0 < blen p <= max) payloads.
Proof.
  intros Hmax. induction chunks as [|chunk chunks (l & E & Hc & Hall)]; [by exists []|]. cbn [map band_items].
  destruct (side_band_packets chunk max Hmax) as (l' & E' & Hc' & Hall'). rewrite E', E. cbn [rbind]. exists (l' ++ l).
  rewrite !map_app, concat_app, Hc, Hc'. split_and!; [done|done|by apply Forall_app].
Qed.

(** A failure of the producer stays in the stream. *)
Lemma band_items_error chunks e max :
  0 < max -> exists payloads, band_items max (map Ok chunks ++ [Err e]) = Ok (map Ok (map band_packet payloads) ++ [Err e])
    /\ concat payloads = concat chunks.
Proof.
  intros Hmax. induction chunks as [|chunk chunks (l & E & Hc)]; [by exists []|]. cbn [map app band_items].
  destruct (side_band_packets chunk max Hmax) as (l' & E' & Hc' & _). rewrite E', E. cbn [rbind]. exists (l' ++ l).
  rewrite !map_app, concat_app, Hc, Hc', app_assoc. done.
Qed.

(** The client's demultiplexer: the payloads of band 1 up to the flush. *)
Fixpoint demux (fuel : nat) (b : bytes) : bytes * bytes :=
  match fuel with
  | O => ([], b)
  | S fuel =>
      let '((_, line), b) := read_pkt_line b in
      match line with
      | [] => ([], b)
      | band :: payload =>
          let '(data, b) := demux fuel b in
          (if band =? SideBand_value PackfileData then payload ++ data else data, b)
      end
  end.

Lemma demux_packets payloads rest :
  Forall (fun p => 0 < blen p <= 65515) payloads ->
  demux (S (length payloads)) (concat (map band_packet payloads) ++ PKT_LINE_END_MARKER ++ rest) = (concat payloads, rest).
Proof.
  induction 1 as [|p payloads Hp _ IH]; [cbn [demux map concat app length]; by rewrite read_pkt_line_flush|].
  cbn [length map concat]. rewrite <- app_assoc. cbn [demux] in *. unfold band_packet at 1. rewrite read_pkt_line_add by (rewrite blen_cons; lia).
  by rewrite IH.
Qed.

Lemma sideband_max_bounds caps m : sideband_max caps = Some m -> 0 < m <= 65515.
Proof. unfold sideband_max, SIDE_BAND_64K_PACKET_LEN, SIDE_BAND_PACKET_LEN, SIDE_BAND_HEADER_LEN. repeat case_bool_decide; intros E; simplify_eq; lia. Qed.

(** C9: the stream of a fetch is framed as negotiated: with a side band, when the handler
    answered and its pack consists of chunks, the stream is the acknowledgements, then packets
    of at most 65520 bytes (1000 for the small side band), then a flush; a client that reads the
    packets and keeps band 1 has the bytes of the pack, whatever follows. *)
Theorem fetch_stream_framed `{TextEnv} `{HexCrate} `{Hasher} `{PackWriter} (join_text : bytes) (fuel : nat) (request : bytes)
  (self self' : SmartProtocol) (t : list Event) (pack_stream : PackStream) (ack : bytes) (chunks : list bytes) (m : Z) (rest : bytes) :
  runs (git_upload_pack join_text fuel request self) t (Ok (pack_stream, ack), self') -> ack <> [] ->
  pack_stream None = map Ok chunks -> sideband_max (capabilities self') = Some m ->
  exists packets, runs (upload_pack join_text fuel request self) t (Ok (Ok ack :: map Ok packets ++ [Ok PKT_LINE_END_MARKER]), self')
    /\ Forall (fun p => blen p <= m + 5) packets /\ m + 5 = (if bool_decide (SideBand64k ∈ capabilities self') then 65520 else 1000)
    /\ demux (S (length packets)) (concat packets ++ PKT_LINE_END_MARKER ++ rest) = (concat chunks, rest).
Proof.
  intros Hr Hack Hs Hm. pose proof (sideband_max_bounds _ _ Hm) as Hb. destruct (band_items_ok chunks m) as (payloads & E & Hc & Hall); [lia|].
  exists (map band_packet payloads). split_and!.
  - unfold upload_pack, mstep. apply runs_bind. exists t, [], (Ok (pack_stream, ack), self'). rewrite app_nil_r. split_and!; [done|done|].
    unfold mself. cbn [try pbind]. rewrite Hm, Hs, E, bool_decide_false by done. cbn. done.
  - apply Forall_fmap. eapply Forall_impl; [exact Hall|]. intros p Hp. cbn beta in Hp |- *. unfold band_packet, add_pkt_line_string. cbn [compose app].
    rewrite blen_app, blen_cons. destruct (show_hex04_reads (1 + blen p + 4)) as [-> _]; [lia|]. lia.
  - unfold sideband_max in Hm. unfold SIDE_BAND_64K_PACKET_LEN, SIDE_BAND_PACKET_LEN, SIDE_BAND_HEADER_LEN in Hm.
    repeat case_bool_decide; simplify_eq; lia.
  - rewrite length_map, demux_packets, Hc; [done|]. eapply Forall_impl; [exact Hall|]. cbn. lia.
Qed.

Definition framed_writer : PackWriter := fun _ _ => (Ok tt, [[80; 65]; [67; 75]]).

Lemma fetch_stream_framed_witness :
  let p := @git_upload_pack plain_texts hex_reference toy_hasher framed_writer [] 4
    (fetch_request [main_id] (str "side-band-64k") []) sha1_protocol in
  let q := @upload_pack plain_texts hex_reference toy_hasher framed_writer [] 4
    (fetch_request [main_id] (str "side-band-64k") []) sha1_protocol in
  let t := (run (store_repo link_store HashKind.Sha1) p tt).2 in
  exists packets self', runs q t (Ok (Ok (pkt_lines [NAK]) :: map Ok packets ++ [Ok PKT_LINE_END_MARKER]), self')
    /\ demux (S (length packets)) (concat packets ++ PKT_LINE_END_MARKER ++ []) = ([80; 65; 67; 75], []).
Proof.
  intros p q t. set (x := run (store_repo link_store HashKind.Sha1) p tt). pose proof (run_runs (store_repo link_store HashKind.Sha1) p tt) as Hr.
  fold x in Hr. assert (Hx : exists stream, x.1.1.1 = Ok (stream, pkt_lines [NAK]) /\ stream None = map Ok [[80; 65]; [67; 75]]).
  { assert (Hb : match x.1.1.1 with
      | Ok (stream, ack) => match stream None with [Ok a; Ok b] => bool_decide ((a, b, ack) = ([80; 65], [67; 75], pkt_lines [NAK])) | _ => false end
      | _ => false end = true) by (vm_compute; reflexivity).
    destruct x.1.1.1 as [[stream ack]| | |]; try discriminate Hb. exists stream. revert Hb.
    destruct (stream None) as [|[a| | |] [|[b| | |] [|]]]; try discriminate. intros Hb%bool_decide_eq_true. by simplify_eq. }
  destruct Hx as (stream & Hx & Hs). rewrite (surjective_pairing x.1.1), Hx in Hr.
  destruct (@fetch_stream_framed plain_texts hex_reference toy_hasher framed_writer [] 4 (fetch_request [main_id] (str "side-band-64k") [])
    sha1_protocol x.1.1.2 t stream (pkt_lines [NAK]) [[80; 65]; [67; 75]] 65515 []) as (packets & Hrun & _ & _ & Hd).
  - exact Hr.
  - discriminate.
  - exact Hs.
  - vm_compute. reflexivity.
  - exists packets, x.1.1.2. split; [exact Hrun|exact Hd].
Defined.

(** * Request paths *)

Lemma rfind_short p s : (length s < length p)%nat -> rfind p s = None.
Proof.
  induction s as [|x s IH]; intros Hl; cbn [rfind].
  - by destruct p; [cbn in Hl; lia|].
  - cbn [length] in Hl. rewrite IH by lia. unfold starts_with. rewrite bool_decide_false; [done|]. intros E.
    apply (f_equal length) in E. rewrite length_take in E. cbn [length] in E. lia.
Qed.

Lemma rfind_suffix p s : p <> [] -> rfind p (s ++ p) = Some (blen s).
Proof.
  intros Hp. induction s as [|x s IH]; cbn [app].
  - destruct p as [|y p]; [done|]. cbn [rfind]. rewrite rfind_short by (cbn; lia). rewrite <- (app_nil_r (y :: p)) at 2. by rewrite starts_with_app.
  - cbn [rfind]. by rewrite IH, blen_cons.
Qed.

(** The repository of a request: for [info/refs] always what comes before it; for the two
    services if [info/refs] does not occur in the path. *)
Theorem request_paths (repo : bytes) :
  extract_repo_path (repo ++ str "/info/refs") = Some repo
  /\ (rfind (str "/info/refs") (repo ++ str "/git-upload-pack") = None -> extract_repo_path (repo ++ str "/git-upload-pack") = Some repo)
  /\ is_git_request (repo ++ str "/info/refs") = true /\ is_git_request (repo ++ str "/git-upload-pack") = true
  /\ is_git_request (repo ++ str "/git-receive-pack") = true.
Proof.
  assert (Hpre : forall p, slice (repo ++ p) 0 (blen repo) = repo).
  { intros p. unfold slice. change (Z.to_nat 0) with 0%nat. rewrite drop_0, Z.sub_0_r. apply take_blen_app. }
  assert (Hend : forall p, ends_with p (repo ++ p) = true).
  { intros p. unfold ends_with. rewrite blen_app, length_app. pose proof (blen_nonneg repo). replace (blen p <=? _) with true by lia.
    replace (length repo + length p - length p)%nat with (length repo) by lia. by rewrite drop_app_length, bool_decide_true. }
  unfold extract_repo_path, is_git_request. rewrite !Hend. cbn [orb]. rewrite rfind_suffix, Hpre by done. split_and!; try done.
  - intros ->. by rewrite rfind_suffix, Hpre by done.
  - by rewrite orb_true_r.
  - by rewrite !orb_true_r.
Qed.
