(* ===== verification/CloneRoundtrip.v ===== *)
(** From the generator of one side to the objects of the other: the pack that is streamed for a
    set of objects is decoded and unpacked to these objects.  This composes the pack generator,
    the encoder, the decoder with its threads, and the object parsers. *)

From Stdlib Require Import ZArith Lia String Permutation.
From stdpp Require Import base tactics list numbers option gmap.
From S2P Require Import Prelude Stream Text Errors ObjectTypes DeltaUtils DeltaFormat DeltaDecode PackUtils Hash Inflate PackIndex PackDecode Caches Pipeline PipelineProofs DecodeStream EntrySort DeltaSearch PackEncode PackRoundtrip Signature Tree Commit Tag Objects PktLine ProtocolTypes Repository PackGenerator.

Section unpacking.
Context `{TextEnv} `{ByteSearch} `{HexCrate}.

(** What the unpacking makes of an entry. *)
Definition commit_of (e : Entry) : option Commit :=
  match entry_type e with
  | ObjectType.Commit => match Commit_from_bytes (entry_data e) (entry_hash e) with Ok c => Some c | _ => None end
  | _ => None
  end.
Definition tree_of (e : Entry) : option Tree :=
  match entry_type e with
  | ObjectType.Tree => match Tree_from_bytes (entry_data e) (entry_hash e) with Ok t => Some t | _ => None end
  | _ => None
  end.
Definition blob_of (e : Entry) : option Blob :=
  match entry_type e with ObjectType.Blob => Some (mkBlob (entry_hash e) (entry_data e)) | _ => None end.

Lemma unpack_entries ds acc :
  fold_left unpack_entry ds acc
  = (acc.1.1 ++ omap commit_of (map ma_inner ds), acc.1.2 ++ omap tree_of (map ma_inner ds), acc.2 ++ omap blob_of (map ma_inner ds)).
Proof.
  revert acc. induction ds as [|d ds IH]; intros [[cs ts] bs]; cbn [fold_left map omap list_omap]; [by rewrite !app_nil_r|].
  rewrite IH. unfold unpack_entry, commit_of, tree_of, blob_of.
  destruct (entry_type (ma_inner d)); try done;
    [destruct (Commit_from_bytes _ _)|destruct (Tree_from_bytes _ _)|]; cbn [fst snd obj_from_bytes Blob_object]; try done; by rewrite <- app_assoc.
Qed.

(** Objects whose bodies parse back. *)
Definition object_ok (objects : Objects3) : Prop :=
  let '(commits, trees, _) := objects in
  Forall commit_wf commits /\ Forall (fun t => Forall (item_wf (ObjectHash.kind (tree_id t))) (tree_items t)) trees.

Lemma entries_from_omap {A B} (from : A -> Res Empty_set Entry) (get : Entry -> option B) (f : A -> option B) l es :
  entries_from from l = Ok es -> Forall (fun a => forall e, from a = Ok e -> get e = f a) l -> omap get es = omap f l.
Proof.
  revert es. induction l as [|a l IH]; intros es He Hl; cbn [entries_from] in He; [by injection He as <-|].
  apply Forall_cons_1 in Hl as [Ha Hl]. destruct (from a) as [e|e| |] eqn:E; try discriminate. cbn [rbind] in He.
  destruct (entries_from from l) as [es'|e'| |]; try discriminate. injection He as <-. cbn [omap list_omap]. rewrite (Ha e eq_refl).
  rewrite (IH es' eq_refl Hl). done.
Qed.

Lemma omap_none {A B} (l : list A) : omap (fun _ => @None B) l = [].
Proof. by induction l. Qed.

Lemma omap_some {A} (l : list A) : omap Some l = l.
Proof. induction l as [|a l IH]; [done|]. cbn. by rewrite IH. Qed.

Lemma pack_entries_unpack `{!ByteSearchLaws} `{!HexLaws} objects es :
  object_ok objects -> pack_entries objects = Ok es ->
  omap commit_of es = objects.1.1 /\ omap tree_of es = objects.1.2 /\ omap blob_of es = objects.2.
Proof.
  destruct objects as [[cs ts] bs]. intros [Hc Ht] He. unfold pack_entries in He. ok_inv. rename a into ecs, a0 into ets, a1 into ebs.
  cbn [fst snd]. rewrite !omap_app.
  assert (Hcommit : forall c e, Entry_from_commit c = Ok e -> tree_of e = None /\ blob_of e = None /\ (commit_wf c -> commit_of e = Some c)).
  { intros c e Hce. unfold Entry_from_commit in Hce. destruct (Commit_to_data c) as [data|err| |] eqn:Ed; try discriminate Hce.
    injection Hce as <-. split_and!; [done|done|]. intros Hwf. unfold commit_of. cbn [entry_type entry_data entry_hash].
    by rewrite (Commit_parses c data Hwf Ed). }
  assert (Htree : forall t e, Entry_from_tree t = Ok e -> commit_of e = None /\ blob_of e = None
    /\ (Forall (item_wf (ObjectHash.kind (tree_id t))) (tree_items t) -> tree_of e = Some t)).
  { intros t e Hte. unfold Entry_from_tree, Tree_to_data in Hte. injection Hte as <-. split_and!; [done|done|]. intros Hwf. unfold tree_of.
    cbn [entry_type entry_data entry_hash]. destruct (obj_roundtrip (ObjectLaws := Tree_laws) t Hwf) as (data & Ed & Ep & _).
    injection Ed as <-. cbn [obj_from_bytes Tree_object] in Ep. by rewrite Ep. }
  assert (Hblob : forall b e, Entry_from_blob b = Ok e -> commit_of e = None /\ tree_of e = None /\ blob_of e = Some b).
  { intros [h d] e Hbe. injection Hbe as <-. done. }
  rewrite Forall_forall in Hc. rewrite Forall_forall in Ht.
  rewrite (entries_from_omap _ commit_of Some _ _ E), (entries_from_omap _ commit_of (fun _ => None) _ _ E0),
    (entries_from_omap _ commit_of (fun _ => None) _ _ E1),
    (entries_from_omap _ tree_of (fun _ => None) _ _ E), (entries_from_omap _ tree_of Some _ _ E0),
    (entries_from_omap _ tree_of (fun _ => None) _ _ E1),
    (entries_from_omap _ blob_of (fun _ => None) _ _ E), (entries_from_omap _ blob_of (fun _ => None) _ _ E0),
    (entries_from_omap _ blob_of Some _ _ E1), !omap_none, !omap_some, !app_nil_r; [done|..];
    apply Forall_forall; intros x Hx e Hxe; first [by apply (Hblob x)|apply (Hcommit x); auto|apply (Htree x); auto].
Qed.

End unpacking.

Definition attach (e : Entry) : MetaAttached Entry EntryMeta := mkMetaAttached _ _ e EntryMeta_new.

Lemma stream_entries_kind `{TextEnv} `{HexCrate} kind es :
  Forall (fun e => ObjectHash.kind (entry_hash e) = kind) es -> ensure_entries_kind kind es = Ok tt.
Proof.
  induction 1 as [|e es He _ IH]; [done|]. cbn [ensure_entries_kind]. unfold ObjectHash.ensure_kind. rewrite He, bool_decide_true by done. exact IH.
Qed.

Lemma entries_from_plain {A} (from : A -> Res Empty_set Entry) l es :
  entries_from from l = Ok es -> (forall a e, from a = Ok e -> chain_len e = 0) -> Forall (fun e => chain_len e = 0) es.
Proof.
  revert es. induction l as [|a l IH]; intros es He Hf; cbn [entries_from] in He; [injection He as <-; apply Forall_nil_2|].
  destruct (from a) as [e|e| |] eqn:E; try discriminate. cbn [rbind] in He. destruct (entries_from from l) as [es'|e'| |]; try discriminate.
  injection He as <-. apply Forall_cons_2; [by eapply Hf|by apply IH].
Qed.

Lemma pack_entries_plain `{HexCrate} objects es : pack_entries objects = Ok es -> map (fun e => plain_entry (attach e)) es = es.
Proof.
  destruct objects as [[cs ts] bs]. unfold pack_entries. intros He. ok_inv. rename a into ecs, a0 into ets, a1 into ebs.
  assert (Hall : Forall (fun e => chain_len e = 0) (ecs ++ ets ++ ebs)).
  { repeat (apply Forall_app; split); eapply entries_from_plain; try eassumption.
    - intros c e Hc. unfold Entry_from_commit in Hc. ok_inv. done.
    - intros t e Ht. unfold Entry_from_tree in Ht. ok_inv. done.
    - intros b e Hb. unfold Entry_from_blob in Hb. ok_inv. done. }
  clear -Hall. induction Hall as [|e es He _ IH]; [done|]. cbn [map]. rewrite IH. destruct e. cbn in *. by subst.
Qed.


(** * A concrete stream *)

Definition toy_blob : Blob := mkBlob (@object_id toy_hasher HashKind.Sha1 ObjectType.Blob [1; 2; 3]) [1; 2; 3].
Definition toy_items : list TreeItem := [mkTreeItem TreeItemMode.Blob (blob_id toy_blob) (str "a")].
Definition toy_tree : Tree := mkTree (@object_id toy_hasher HashKind.Sha1 ObjectType.Tree (items_data toy_items)) toy_items.
Definition toy_objects : Objects3 := ([], [toy_tree], [toy_blob]).
Definition toy_entries : list Entry :=
  [mkEntry ObjectType.Tree (items_data toy_items) (tree_id toy_tree) 0; mkEntry ObjectType.Blob [1; 2; 3] (blob_id toy_blob) 0].

