(* ===== verification/Diff.v ===== *)
(** Text diffs, [src/diff.rs]: the operations on lines for blame, the choice of the files to
    compare, the header of a file's diff and the assembly of its hunks.

    The edit scripts come from the similar crate, absolute paths from path_absolutize, and the
    order of a [HashSet] from the standard library: parameters here.  [apply_unified_diff] is the
    patch applier of the file's tests, the reference by which its diffs are judged. *)

From Stdlib Require Import ZArith Lia String.
From stdpp Require Import base tactics list numbers option gmap.
From S2P Require Import Prelude Stream Text Errors ObjectTypes PackUtils Hash EntrySort StagingIndex.

(** [similar::ChangeTag] with the value of the change. *)
Inductive ChangeTag : Type := Equal | Delete | Insert.
Definition Change : Type := ChangeTag * bytes.

(** [TextDiff::configure().algorithm(Myers)], then [diff_slices] or [diff_lines] and [iter_all_changes]. *)
Class TextDiff := {
  diff_slices : list bytes -> list bytes -> list Change;
  diff_lines : bytes -> bytes -> list Change
}.

Module DiffOperation.
Inductive t : Type :=
| Insert (line : Z) (content : bytes)
| Delete (line : Z)
| Equal (old_line new_line : Z).
End DiffOperation.

Module EditLine.
Inductive t : Type :=
| Context (old_line new_line : option Z) (text : bytes)
| Delete (old_line : Z) (text : bytes)
| Insert (new_line : Z) (text : bytes).
End EditLine.

Record DiffItem : Type := mkDiffItem { di_path : bytes; di_data : bytes }.

Definition MAX_DIFF_LINES : Z := 10000.
Definition LARGE_FILE_MARKER : bytes := str "<LargeFile>".
Definition LARGE_FILE_END : bytes := str "</LargeFile>".
Definition SHORT_HASH_LEN : Z := 7.

(** [writeln!]. *)
Definition writeln (out line : bytes) : bytes := out ++ line ++ [10].

(** * Line operations *)

Fixpoint operations_loop (old_line_no new_line_no : Z) (changes : list Change) : list DiffOperation.t :=
  match changes with
  | [] => []
  | (Equal, _) :: changes =>
      DiffOperation.Equal old_line_no new_line_no :: operations_loop (old_line_no + 1) (new_line_no + 1) changes
  | (Delete, _) :: changes => DiffOperation.Delete old_line_no :: operations_loop (old_line_no + 1) new_line_no changes
  | (Insert, value) :: changes =>
      DiffOperation.Insert new_line_no value :: operations_loop old_line_no (new_line_no + 1) changes
  end.

Definition compute_line_operations `{TextDiff} (old_lines new_lines : list bytes) : list DiffOperation.t :=
  if bool_decide (old_lines = []) && bool_decide (new_lines = []) then []
  else operations_loop 1 1 (diff_slices old_lines new_lines).

Definition compute_diff `{TextDiff} (old_lines new_lines : list bytes) : list DiffOperation.t :=
  compute_line_operations old_lines new_lines.

(** * Hunks *)

Record DiffState : Type := mkDiffState {
  ds_out : bytes;
  prefix_ctx : list EditLine.t;
  cur_hunk : list EditLine.t;
  eq_run : list EditLine.t;
  in_hunk : bool;
  last_old_seen : Z;
  last_new_seen : Z;
  old_line_no : Z;
  new_line_no : Z
}.

(** [old_first], [old_count], [new_first], [new_count] of a hunk. *)
Definition Ranges : Type := (option Z * Z) * (option Z * Z).

Definition first_or (first : option Z) (n : Z) : option Z := match first with None => Some n | _ => first end.

Definition scan_line (r : Ranges) (e : EditLine.t) : Ranges :=
  let '((old_first, old_count), (new_first, new_count)) := r in
  match e with
  | EditLine.Context o n _ =>
      (match o with Some o => (first_or old_first o, old_count + 1) | None => (old_first, old_count) end,
       match n with Some n => (first_or new_first n, new_count + 1) | None => (new_first, new_count) end)
  | EditLine.Delete o _ => ((first_or old_first o, old_count + 1), (new_first, new_count))
  | EditLine.Insert n _ => ((old_first, old_count), (first_or new_first n, new_count + 1))
  end.

Definition scan_hunk (hunk : list EditLine.t) : Ranges := foldl scan_line ((None, 0), (None, 0)) hunk.

(** The lines of the hunk and the last line numbers seen. *)
Fixpoint write_hunk (out : bytes) (last_old last_new : Z) (hunk : list EditLine.t) : bytes * (Z * Z) :=
  match hunk with
  | [] => (out, (last_old, last_new))
  | EditLine.Context o n txt :: hunk =>
      write_hunk (writeln out (str " " ++ txt))
        (match o with Some o => Z.max last_old o | None => last_old end)
        (match n with Some n => Z.max last_new n | None => last_new end) hunk
  | EditLine.Delete o txt :: hunk => write_hunk (writeln out (str "-" ++ txt)) (Z.max last_old o) last_new hunk
  | EditLine.Insert n txt :: hunk => write_hunk (writeln out (str "+" ++ txt)) last_old (Z.max last_new n) hunk
  end.

Definition hunk_header (old_start old_count new_start new_count : Z) : bytes :=
  str "@@ -" ++ show_dec old_start ++ str "," ++ show_dec old_count ++ str " +" ++ show_dec new_start ++ str ","
  ++ show_dec new_count ++ str " @@".

Definition flush_hunk_to_out (context : nat) (s : DiffState) : DiffState :=
  let hunk := cur_hunk s ++ take (min (length (eq_run s)) context) (eq_run s) in
  let '((old_first, old_count), (new_first, new_count)) := scan_hunk hunk in
  if (old_count =? 0) && (new_count =? 0)
  then mkDiffState (ds_out s) (prefix_ctx s) [] [] (in_hunk s) (last_old_seen s) (last_new_seen s) (old_line_no s) (new_line_no s)
  else
    let old_start := default (last_old_seen s + 1) old_first in
    let new_start := default (last_new_seen s + 1) new_first in
    let out := writeln (ds_out s) (hunk_header old_start old_count new_start new_count) in
    let '(out, (last_old, last_new)) := write_hunk out (last_old_seen s) (last_new_seen s) hunk in
    let prefix := match context with
                  | O => []
                  | _ => drop (length (eq_run s) - context) (eq_run s)
                  end in
    mkDiffState out prefix [] [] (in_hunk s) last_old last_new (old_line_no s) (new_line_no s).

Definition set_in_hunk (b : bool) (s : DiffState) : DiffState :=
  mkDiffState (ds_out s) (prefix_ctx s) (cur_hunk s) (eq_run s) b (last_old_seen s) (last_new_seen s)
    (old_line_no s) (new_line_no s).

(** The part shared by deletions and insertions, with the new line numbers. *)
Definition push_edit (entry : EditLine.t) (s : DiffState) (old_no new_no : Z) : DiffState :=
  let hunk := if in_hunk s then cur_hunk s else cur_hunk s ++ prefix_ctx s in
  let prefix := if in_hunk s then prefix_ctx s else [] in
  mkDiffState (ds_out s) prefix ((hunk ++ eq_run s) ++ [entry]) [] true (last_old_seen s) (last_new_seen s) old_no new_no.

(** [trim_end_matches(['\r', '\n'])]. *)
Fixpoint trim_line_end (s : bytes) : bytes :=
  match s with
  | [] => []
  | b :: s =>
      match trim_line_end s with
      | [] => if (b =? 13) || (b =? 10) then [] else [b]
      | t => b :: t
      end
  end.

Definition diff_step (context : nat) (s : DiffState) (change : Change) : DiffState :=
  let line := trim_line_end change.2 in
  match change.1 with
  | Equal =>
      let entry := EditLine.Context (Some (old_line_no s)) (Some (new_line_no s)) line in
      let old_no := old_line_no s + 1 in
      let new_no := new_line_no s + 1 in
      if in_hunk s then
        let s := mkDiffState (ds_out s) (prefix_ctx s) (cur_hunk s) (eq_run s ++ [entry]) true
                   (last_old_seen s) (last_new_seen s) old_no new_no in
        if (context * 2 <? length (eq_run s))%nat then set_in_hunk false (flush_hunk_to_out context s) else s
      else
        let prefix := if (length (prefix_ctx s) =? context)%nat then tail (prefix_ctx s) else prefix_ctx s in
        mkDiffState (ds_out s) (prefix ++ [entry]) (cur_hunk s) (eq_run s) false
          (last_old_seen s) (last_new_seen s) old_no new_no
  | Delete =>
      push_edit (EditLine.Delete (old_line_no s) line) s (old_line_no s + 1) (new_line_no s)
  | Insert =>
      push_edit (EditLine.Insert (new_line_no s) line) s (old_line_no s) (new_line_no s + 1)
  end.

Definition diff_start : DiffState := mkDiffState [] [] [] [] false 0 0 1 1.

Definition compute_unified_diff `{TextDiff} (old_text new_text : bytes) (context : nat) : bytes :=
  let s := foldl (diff_step context) diff_start (diff_lines old_text new_text) in
  ds_out (if in_hunk s then flush_hunk_to_out context s else s).

(** * Files *)

Section files.
Context `{TextDiff} `{TextEnv} `{HexCrate}.

(** [hex[..take]] panics inside a character; hexadecimal digits are single bytes. *)
Definition short_hash (hash : option ObjectHash.t) : bytes :=
  match hash with
  | Some h => let hex := ObjectHash.fmt h in take (Z.to_nat (Z.min SHORT_HASH_LEN (blen hex))) hex
  | None => repeat 48 (Z.to_nat SHORT_HASH_LEN)
  end.

(** [file.display()] and [to_string_lossy]. *)
Definition display (file : bytes) : bytes := from_utf8_lossy file.

Definition diff_for_file_preloaded (file : bytes) (old_hash new_hash : option ObjectHash.t) (old_bytes new_bytes : bytes) : bytes :=
  let out := writeln [] (str "diff --git a/" ++ display file ++ str " b/" ++ display file) in
  let out := match old_hash, new_hash with
             | None, _ => writeln out (str "new file mode 100644")
             | _, None => writeln out (str "deleted file mode 100644")
             | _, _ => out
             end in
  let out := writeln out (str "index " ++ short_hash old_hash ++ str ".." ++ short_hash new_hash ++ str " 100644") in
  if utf8_valid old_bytes && utf8_valid new_bytes then
    let '(old_pref, new_pref) :=
      if bool_decide (old_bytes = []) then (str "/dev/null", str "b/" ++ display file)
      else if bool_decide (new_bytes = []) then (str "a/" ++ display file, str "/dev/null")
      else (str "a/" ++ display file, str "b/" ++ display file) in
    let out := writeln out (str "--- " ++ old_pref) in
    let out := writeln out (str "+++ " ++ new_pref) in
    out ++ compute_unified_diff old_bytes new_bytes 3
  else writeln out (str "Binary files differ").

(** [lines().count()] of both texts. *)
Definition is_large_file_bytes (file old_bytes new_bytes : bytes) : option bytes :=
  let old_lines := blen (str_lines (from_utf8_lossy old_bytes)) in
  let new_lines := blen (str_lines (from_utf8_lossy new_bytes)) in
  let total_lines := old_lines + new_lines in
  if MAX_DIFF_LINES <? total_lines
  then Some (writeln [] (LARGE_FILE_MARKER ++ display file ++ str ":" ++ show_dec total_lines ++ str ":"
               ++ show_dec MAX_DIFF_LINES ++ LARGE_FILE_END))
  else None.

End files.

(** ** Choosing the files *)

#[export] Instance Component_countable : Countable Component.
Proof.
  refine (inj_countable (fun c => match c with RootDir => inl 0 | CurDir => inl 1 | ParentDir => inl 2 | Normal n => inr n end)
            (fun x => match x with inl 0 => Some RootDir | inl 1 => Some CurDir | inl 2 => Some ParentDir | inl _ => None | inr n => Some (Normal n) end) _).
  by intros [].
Defined.

(** Keys of type [PathBuf] compare by their components; a map keeps the path it was first given. *)
Notation PathMap A := (gmap (list Component) (bytes * A)).

Definition path_insert {A} (m : PathMap A) (entry : bytes * A) : PathMap A :=
  let key := components entry.1 in
  <[key := (match m !! key with Some (p, _) => p | None => entry.1 end, entry.2)]> m.

(** [into_iter().collect()] into a [HashMap]. *)
Definition path_map {A} (l : list (bytes * A)) : PathMap A := foldl path_insert ∅ l.

Definition path_get {A} (m : PathMap A) (file : bytes) : option A := snd <$> m !! components file.

(** Absolute paths, relative to the current directory, and the order in which a [HashSet] is
    iterated, given its elements. *)
Class PathEnv := {
  absolutize : bytes -> Res IoError bytes;
  hash_set_order : list bytes -> list bytes
}.

Section choose.
Context `{PathEnv}.

Definition sub_of (path parent : bytes) : Res IoError bool :=
  let! path_abs := absolutize path in
  let! parent_abs := absolutize parent in
  Ok (bool_decide (components parent_abs `prefix_of` components path_abs)).

(** [sub_of(file, path).unwrap_or(false)]. *)
Definition under (file path : bytes) : bool := match sub_of file path with Ok b => b | _ => false end.

Definition should_process (file : bytes) (filter : list bytes) (old_blobs new_blobs : PathMap ObjectHash.t) : bool :=
  if negb (bool_decide (filter = [])) && negb (existsb (under file) filter) then false
  else negb (bool_decide (path_get old_blobs file = path_get new_blobs file)).

(** The keys of both maps, each once, a key of the old map as spelled there. *)
Definition union_files (old_blobs new_blobs : PathMap ObjectHash.t) : list bytes :=
  map (fun kv => kv.2) (map_to_list (fst <$> (old_blobs ∪ new_blobs))).

Definition prepare_diff_data (old_blobs new_blobs : list (bytes * ObjectHash.t)) (filter_ : list bytes)
  : list bytes * PathMap ObjectHash.t * PathMap ObjectHash.t :=
  let old_map := path_map old_blobs in
  let new_map := path_map new_blobs in
  (filter (fun file => should_process file filter_ old_map new_map = true) (hash_set_order (union_files old_map new_map)),
   old_map, new_map).

End choose.

Section diff.
Context `{TextDiff} `{TextEnv} `{HexCrate} `{PathEnv}.
Variable read_content : bytes -> ObjectHash.t -> bytes.

Definition diff_item (old_map new_map : PathMap ObjectHash.t) (file : bytes) : DiffItem :=
  let old_hash := path_get old_map file in
  let new_hash := path_get new_map file in
  let old_bytes := match old_hash with Some h => read_content file h | None => [] end in
  let new_bytes := match new_hash with Some h => read_content file h | None => [] end in
  match is_large_file_bytes file old_bytes new_bytes with
  | Some marker => mkDiffItem (display file) marker
  | None => mkDiffItem (display file) (diff_for_file_preloaded file old_hash new_hash old_bytes new_bytes)
  end.

Definition diff (old_blobs new_blobs : list (bytes * ObjectHash.t)) (filter_ : list bytes) : list DiffItem :=
  let '(processed_files, old_map, new_map) := prepare_diff_data old_blobs new_blobs filter_ in
  map (diff_item old_map new_map) processed_files.

Definition diff_for_file_string (file : bytes) (old_blobs new_blobs : PathMap ObjectHash.t) : bytes :=
  let new_hash := path_get new_blobs file in
  let old_hash := path_get old_blobs file in
  let old_bytes := match old_hash with Some h => read_content file h | None => [] end in
  let new_bytes := match new_hash with Some h => read_content file h | None => [] end in
  diff_for_file_preloaded file old_hash new_hash old_bytes new_bytes.

End diff.

(** * The patch applier of the tests *)

(** Errors are kept as their reasons. *)
Inductive ApplyError : Type :=
| BadRange (spec : bytes)
| BadHeader (line : bytes)
| AfterHunk (line : bytes)
| OldOutOfOrder (line : bytes)
| NewOutOfOrder (line : bytes) (expected : Z)
| LineAfterMarker
| ContextMismatch (line : Z)
| DeleteMismatch (line : Z)
| UnexpectedLine (body : bytes)
| MarkerMismatch
| MarkerWithoutLine
| CountMismatch (consumed produced : Z) (line : bytes)
| OldRemains.

(** [split_once]: the parts before and after the first occurrence. *)
Definition split_once (p s : bytes) : option (bytes * bytes) :=
  match find_first p s with
  | Some i => Some (take (Z.to_nat i) s, drop (Z.to_nat i + length p) s)
  | None => None
  end.

Fixpoint split_comma (cur s : bytes) : list bytes :=
  match s with
  | [] => [cur]
  | b :: s => if b =? 44 then cur :: split_comma [] s else split_comma (cur ++ [b]) s
  end.

Definition parse_range (spec : bytes) : Res ApplyError (Z * Z) :=
  let field p := ok_or (parse_dec usize_max p) (BadRange spec) in
  let! '(start, count) :=
    match split_comma [] spec with
    | [start] => let! start := field start in Ok (start, 1)
    | [start; count] => let! start := field start in let! count := field count in Ok (start, count)
    | _ => Err (BadRange spec)
    end in
  if (start =? 0) && negb (count =? 0) then Err (BadRange spec) else Ok (start, count).

Definition parse_header (line rest : bytes) : Res ApplyError ((Z * Z) * (Z * Z)) :=
  let! '(old_spec, tail) := ok_or (split_once (str " +") rest) (BadHeader line) in
  let! '(new_spec, closing) := ok_or (split_once (str " ") tail) (BadHeader line) in
  if negb (bool_decide (closing = str "@@")) && negb (starts_with (str "@@ ") closing) then Err (BadHeader line)
  else
    let! old_range := parse_range old_spec in
    let! new_range := parse_range new_spec in
    Ok (old_range, new_range).

(** The output lines with their newline flags, and the position in the old text. *)
Record ApplyState : Type := mkApply { ap_out : list (bytes * bool); ap_cursor : nat; new_eof_marked : bool }.

Inductive LastKind : Type := NoLine | ContextLine | DeletedLine | InsertedLine | MarkerLine.

Section apply.
Variable old_lines : list bytes.
Variable old_ends_nl : bool.

Definition old_nl (k : nat) : bool := (k + 1 <? length old_lines)%nat || old_ends_nl.

(** [old_lines.iter().enumerate().take(stop).skip(start)], with the newline flags. *)
Definition copied (start stop : nat) : list (bytes * bool) :=
  drop start (take stop (imap (fun k line => (line, old_nl k)) old_lines)).

(** The marker after a line. *)
Definition apply_marker (s : ApplyState) (last_kind : LastKind) : Res ApplyError ApplyState :=
  match last_kind with
  | InsertedLine =>
      let out := match split_last (ap_out s) with Some (front, (line, _)) => front ++ [(line, false)] | None => ap_out s end in
      Ok (mkApply out (ap_cursor s) true)
  | ContextLine | DeletedLine =>
      if negb (ap_cursor s =? length old_lines)%nat || old_ends_nl then Err MarkerMismatch
      else Ok (mkApply (ap_out s) (ap_cursor s)
                 (match last_kind with ContextLine => true | _ => new_eof_marked s end))
  | _ => Err MarkerWithoutLine
  end.

(** The body of a hunk: up to the next header; the numbers of old and new lines. *)
Fixpoint body_loop (lines : list bytes) (s : ApplyState) (consumed_old produced_new : Z) (last_kind : LastKind)
  : Res ApplyError (list bytes * ApplyState * Z * Z) :=
  match lines with
  | [] => Ok ([], s, consumed_old, produced_new)
  | body :: rest =>
      if starts_with (str "@@ ") body || starts_with (str "diff --git ") body then Ok (lines, s, consumed_old, produced_new)
      else match body with
           | 32 :: ctx =>
               if new_eof_marked s then Err LineAfterMarker
               else if negb (bool_decide (old_lines !! ap_cursor s = Some ctx)) then Err (ContextMismatch (Z.of_nat (ap_cursor s) + 1))
               else body_loop rest (mkApply (ap_out s ++ [(ctx, old_nl (ap_cursor s))]) (S (ap_cursor s)) false)
                      (consumed_old + 1) (produced_new + 1) ContextLine
           | 45 :: del =>
               if negb (bool_decide (old_lines !! ap_cursor s = Some del)) then Err (DeleteMismatch (Z.of_nat (ap_cursor s) + 1))
               else body_loop rest (mkApply (ap_out s) (S (ap_cursor s)) (new_eof_marked s)) (consumed_old + 1) produced_new DeletedLine
           | 43 :: ins =>
               if new_eof_marked s then Err LineAfterMarker
               else body_loop rest (mkApply (ap_out s ++ [(ins, true)]) (ap_cursor s) false) consumed_old (produced_new + 1) InsertedLine
           | 92 :: _ =>
               if negb (bool_decide (body = str "\ No newline at end of file")) then Err (UnexpectedLine body)
               else let! s := apply_marker s last_kind in body_loop rest s consumed_old produced_new MarkerLine
           | _ => Err (UnexpectedLine body)
           end
  end.

(** One hunk, whose header line has been read; returns the lines after it. *)
Definition apply_hunk (line rest_of_header : bytes) (lines : list bytes) (s : ApplyState) : Res ApplyError (list bytes * ApplyState) :=
  let! '((old_start, old_count), (new_start, new_count)) := parse_header line rest_of_header in
  let hunk_start := Z.to_nat (if old_count =? 0 then old_start else Z.max 0 (old_start - 1)) in
  if (hunk_start <? ap_cursor s)%nat || (length old_lines <? hunk_start)%nat then Err (OldOutOfOrder line)
  else
    let s := mkApply (ap_out s ++ copied (ap_cursor s) hunk_start) hunk_start (new_eof_marked s) in
    let expected_new_start := if new_count =? 0 then blen (ap_out s) else blen (ap_out s) + 1 in
    if negb (new_start =? expected_new_start) then Err (NewOutOfOrder line expected_new_start)
    else
      let! '(lines, s, consumed_old, produced_new) := body_loop lines s 0 0 NoLine in
      if negb (consumed_old =? old_count) || negb (produced_new =? new_count)
      then Err (CountMismatch consumed_old produced_new line)
      else Ok (lines, s).

(** Each round reads a line at least. *)
Fixpoint apply_loop (fuel : nat) (seen_hunk : bool) (lines : list bytes) (s : ApplyState) : Res ApplyError ApplyState :=
  match fuel with
  | O => OutOfFuel
  | S fuel =>
      match lines with
      | [] => Ok s
      | line :: lines =>
          if starts_with (str "@@ -") line then
            let! '(lines, s) := apply_hunk line (drop 4 line) lines s in
            apply_loop fuel true lines s
          else if seen_hunk then Err (AfterHunk line)
          else apply_loop fuel seen_hunk lines s
      end
  end.

End apply.

(** The text of the output lines. *)
Fixpoint join_output (out : list (bytes * bool)) : bytes :=
  match out with
  | [] => []
  | [(line, nl)] => line ++ (if nl then [10] else [])
  | (line, _) :: out => line ++ [10] ++ join_output out
  end.

Definition apply_unified_diff (old diff : bytes) : Res ApplyError bytes :=
  let old_lines := str_lines old in
  let old_ends_nl := match split_last old with Some (_, b) => b =? 10 | None => false end in
  let lines := str_lines diff in
  let! s := apply_loop old_lines old_ends_nl (S (length lines)) false lines (mkApply [] 0 false) in
  if new_eof_marked s && negb (ap_cursor s =? length old_lines)%nat then Err OldRemains
  else Ok (join_output (ap_out s ++ copied old_lines old_ends_nl (ap_cursor s) (length old_lines))).
