(* ===== verification/DiffProofs.v ===== *)
(** A unified diff, read by the patch applier, turns the old text into the new one; the edit
    operations for blame describe both texts; and the files compared are those that differ. *)

From Stdlib Require Import ZArith Lia String Permutation.
From stdpp Require Import base tactics list numbers option gmap.
From S2P Require Import Prelude Stream Text Errors ObjectTypes PackUtils Hash EntrySort StagingIndex Diff.

(** * Numbered edit lines *)

Notation line := EditLine.t.

Definition old_of (l : list line) : list bytes :=
  omap (fun e => match e with EditLine.Context _ _ t | EditLine.Delete _ t => Some t | _ => None end) l.
Definition new_of (l : list line) : list bytes :=
  omap (fun e => match e with EditLine.Context _ _ t | EditLine.Insert _ t => Some t | _ => None end) l.

(** Lines numbered consecutively on both sides, from [o] and [n]. *)
Fixpoint numbered (o n : Z) (l : list line) : Prop :=
  match l with
  | [] => True
  | EditLine.Context (Some o') (Some n') _ :: l => o' = o /\ n' = n /\ numbered (o + 1) (n + 1) l
  | EditLine.Delete o' _ :: l => o' = o /\ numbered (o + 1) n l
  | EditLine.Insert n' _ :: l => n' = n /\ numbered o (n + 1) l
  | _ => False
  end.

Definition is_context (e : line) : Prop := match e with EditLine.Context _ _ _ => True | _ => False end.
Definition all_context (l : list line) : Prop := Forall is_context l.
Definition has_context (l : list line) : Prop := Exists is_context l.

Lemma old_of_app l m : old_of (l ++ m) = old_of l ++ old_of m.
Proof. apply omap_app. Qed.
Lemma new_of_app l m : new_of (l ++ m) = new_of l ++ new_of m.
Proof. apply omap_app. Qed.

Lemma context_sides l : all_context l -> old_of l = new_of l.
Proof. induction 1 as [|[o n t|o t|n t] l He _ IH]; [done| |done..]. cbn. by f_equal. Qed.

Lemma numbered_app o n l m :
  numbered o n (l ++ m) <-> numbered o n l /\ numbered (o + blen (old_of l)) (n + blen (new_of l)) m.
Proof.
  revert o n. induction l as [|e l IH]; intros o n; [cbn; rewrite !Z.add_0_r; tauto|].
  destruct e as [[o'|] [n'|] t|o' t|n' t]; cbn [app numbered]; try tauto; rewrite IH; cbn [old_of new_of omap list_omap];
    fold old_of new_of; rewrite ?blen_cons, ?Z.add_assoc; tauto.
Qed.

Lemma has_context_old l : has_context l -> 0 < blen (old_of l).
Proof.
  induction 1 as [[o n t|o t|n t] l He|[o n t|o t|n t] l _ IH]; try done; cbn [old_of omap list_omap]; fold old_of; rewrite ?blen_cons;
    try pose proof (blen_nonneg (old_of l)); lia.
Qed.
Lemma has_context_new l : has_context l -> 0 < blen (new_of l).
Proof.
  induction 1 as [[o n t|o t|n t] l He|[o n t|o t|n t] l _ IH]; try done; cbn [new_of omap list_omap]; fold new_of; rewrite ?blen_cons;
    try pose proof (blen_nonneg (new_of l)); lia.
Qed.

(** The ranges of a hunk. *)
Definition range_of (first : option Z) (count start : Z) (side : list bytes) : option Z * Z :=
  (match first, side with None, _ :: _ => Some start | _, _ => first end, count + blen side).

Lemma scan_numbered l o n of_ oc nf nc : numbered o n l ->
  foldl scan_line ((of_, oc), (nf, nc)) l = (range_of of_ oc o (old_of l), range_of nf nc n (new_of l)).
Proof.
  revert o n of_ oc nf nc. induction l as [|e l IH]; intros o n of_ oc nf nc Hl.
  - unfold range_of. cbn. rewrite !Z.add_0_r. by destruct of_, nf.
  - destruct e as [[o'|] [n'|] t|o' t|n' t]; cbn [numbered] in Hl; try done.
    + destruct Hl as (-> & -> & Hl). cbn [foldl scan_line]. rewrite (IH (o + 1) (n + 1)) by done. unfold range_of. cbn [old_of new_of omap list_omap].
      fold old_of new_of. rewrite !blen_cons, !Z.add_assoc. destruct of_, nf; cbn [first_or]; done.
    + destruct Hl as (-> & Hl). cbn [foldl scan_line]. rewrite (IH (o + 1) n) by done. unfold range_of. cbn [old_of new_of omap list_omap].
      fold old_of new_of. rewrite !blen_cons, !Z.add_assoc. destruct of_; cbn [first_or]; done.
    + destruct Hl as (-> & Hl). cbn [foldl scan_line]. rewrite (IH o (n + 1)) by done. unfold range_of. cbn [old_of new_of omap list_omap].
      fold old_of new_of. rewrite !blen_cons, !Z.add_assoc. destruct nf; cbn [first_or]; done.
Qed.

(** * The text of a hunk *)

Definition line_text (e : line) : bytes :=
  match e with
  | EditLine.Context _ _ t => 32 :: t
  | EditLine.Delete _ t => 45 :: t
  | EditLine.Insert _ t => 43 :: t
  end.

Definition hunk_lines (o n : Z) (h : list line) : list bytes :=
  hunk_header o (blen (old_of h)) n (blen (new_of h)) :: map line_text h.

Definition unlines (ls : list bytes) : bytes := concat (map (fun l => l ++ [10]) ls).

Lemma unlines_app l m : unlines (l ++ m) = unlines l ++ unlines m.
Proof. unfold unlines. by rewrite map_app, concat_app. Qed.

Lemma unlines_cons l ls : unlines (l :: ls) = (l ++ [10]) ++ unlines ls.
Proof. done. Qed.

Lemma write_hunk_text out lo ln h : (write_hunk out lo ln h).1 = out ++ unlines (map line_text h).
Proof.
  revert out lo ln. induction h as [|[o n t|o t|n t] h IH]; intros out lo ln; cbn [write_hunk map]; [unfold unlines; cbn; by rewrite app_nil_r|..];
    rewrite IH, unlines_cons; unfold writeln; by rewrite <- (app_assoc out).
Qed.

(** Flushing a hunk with lines on both sides. *)
Lemma flush_text c s o n : let h := cur_hunk s ++ take (min (length (eq_run s)) c) (eq_run s) in
  numbered o n h -> 0 < blen (old_of h) -> 0 < blen (new_of h) ->
  let s' := flush_hunk_to_out c s in
  ds_out s' = ds_out s ++ unlines (hunk_lines o n h) /\ cur_hunk s' = [] /\ eq_run s' = []
  /\ prefix_ctx s' = match c with O => [] | _ => drop (length (eq_run s) - c) (eq_run s) end
  /\ old_line_no s' = old_line_no s /\ new_line_no s' = new_line_no s.
Proof.
  intros h Hn Ho Hw. cbv zeta. unfold flush_hunk_to_out. fold h. unfold scan_hunk. rewrite (scan_numbered h o n) by done. unfold range_of.
  destruct (old_of h) as [|x xs] eqn:Eo; [done|]. destruct (new_of h) as [|y ys] eqn:En; [done|].
  replace (0 + blen (x :: xs) =? 0) with false by lia. cbn [andb]. cbn [default].
  pose proof (write_hunk_text (writeln (ds_out s) (hunk_header o (0 + blen (x :: xs)) n (0 + blen (y :: ys)))) (last_old_seen s) (last_new_seen s) h) as Ht.
  destruct (write_hunk _ _ _ h) as [out [lo ln]]. cbn [fst] in Ht. cbn [ds_out cur_hunk eq_run prefix_ctx old_line_no new_line_no]. split; [|done]. rewrite Ht. unfold writeln, hunk_lines.
  by rewrite unlines_cons, Eo, En, !Z.add_0_l, <- (app_assoc (ds_out s)).
Qed.

(** * The hunks of a script *)

(** Equal lines left out, then a hunk. *)
Definition Segment : Type := list line * list line.

Definition flat (segs : list Segment) : list line := concat (map (fun s => s.1 ++ s.2) segs).

Lemma flat_cons g h segs : flat ((g, h) :: segs) = g ++ h ++ flat segs.
Proof. unfold flat. cbn. by rewrite <- app_assoc. Qed.

Lemma flat_snoc segs g h : flat (segs ++ [(g, h)]) = flat segs ++ g ++ h.
Proof. unfold flat. rewrite map_app, concat_app. cbn. by rewrite app_nil_r. Qed.

(** The lines of the diff. *)
Fixpoint seg_lines (o n : Z) (segs : list Segment) : list bytes :=
  match segs with
  | [] => []
  | (g, h) :: segs =>
      let o := o + blen (old_of g) in
      let n := n + blen (new_of g) in
      hunk_lines o n h ++ seg_lines (o + blen (old_of h)) (n + blen (new_of h)) segs
  end.

Lemma seg_lines_snoc o n segs g h :
  seg_lines o n (segs ++ [(g, h)])
  = seg_lines o n segs ++ hunk_lines (o + blen (old_of (flat segs ++ g))) (n + blen (new_of (flat segs ++ g))) h.
Proof.
  revert o n. induction segs as [|[g1 h1] segs IH]; intros o n; cbn [app seg_lines]; [by rewrite app_nil_r|].
  rewrite IH, <- app_assoc. unfold flat. cbn [map concat fst snd]. fold (flat segs). rewrite !old_of_app, !new_of_app, !blen_app.
  do 3 f_equal; lia.
Qed.

Definition segs_ok (segs : list Segment) : Prop := Forall (fun s => all_context s.1 /\ has_context s.2) segs.

(** The state after the lines [e] of the script. *)
Record diff_inv (c : nat) (e : list line) (s : DiffState) (segs : list Segment) (gap : list line) : Prop := {
  di_numbered : numbered 1 1 e;
  di_old_no : old_line_no s = 1 + blen (old_of e);
  di_new_no : new_line_no s = 1 + blen (new_of e);
  di_out : ds_out s = unlines (seg_lines 1 1 segs);
  di_segs : segs_ok segs;
  di_gap : all_context gap;
  di_eq : all_context (eq_run s);
  di_lines : e = flat segs ++ gap ++ (if in_hunk s then cur_hunk s ++ eq_run s else prefix_ctx s);
  di_in : in_hunk s = true -> (length (eq_run s) <= c * 2)%nat /\ (has_context (cur_hunk s) \/ segs = [] /\ gap = []);
  di_outside : in_hunk s = false -> cur_hunk s = [] /\ eq_run s = [] /\ all_context (prefix_ctx s) /\ (prefix_ctx s = [] -> e = [])
}.

Definition number_change (o n : Z) (ch : Change) : line :=
  let t := trim_line_end ch.2 in
  match ch.1 with
  | Equal => EditLine.Context (Some o) (Some n) t
  | Delete => EditLine.Delete o t
  | Insert => EditLine.Insert n t
  end.

Lemma number_change_numbered o n ch : numbered o n [number_change o n ch].
Proof. by destruct ch as [[] v]. Qed.

Lemma numbered_snoc e ch : numbered 1 1 e ->
  numbered 1 1 (e ++ [number_change (1 + blen (old_of e)) (1 + blen (new_of e)) ch]).
Proof. intros He. apply numbered_app. split; [done|apply number_change_numbered]. Qed.

Lemma snoc_sides e ch : let e' := e ++ [number_change (1 + blen (old_of e)) (1 + blen (new_of e)) ch] in
  blen (old_of e') = blen (old_of e) + (match ch.1 with Insert => 0 | _ => 1 end)
  /\ blen (new_of e') = blen (new_of e) + (match ch.1 with Delete => 0 | _ => 1 end).
Proof. cbv zeta. rewrite old_of_app, new_of_app, !blen_app. by destruct ch as [[] v]. Qed.

Lemma all_context_has l : all_context l -> l <> [] -> has_context l.
Proof. by intros [|x l' Hx Hl] Hne; [|left]. Qed.

Lemma flush_inv c e s segs gap : (0 < c)%nat -> diff_inv c e s segs gap -> in_hunk s = true ->
  let h := cur_hunk s ++ take c (eq_run s) in
  has_context h \/ (segs = [] /\ gap = [] /\ eq_run s = []) /\ 0 < blen (old_of e) /\ 0 < blen (new_of e) ->
  let s' := flush_hunk_to_out c s in
  ds_out s' = unlines (seg_lines 1 1 (segs ++ [(gap, h)])) /\ cur_hunk s' = [] /\ eq_run s' = []
  /\ prefix_ctx s' = drop (length (eq_run s) - c) (eq_run s) /\ old_line_no s' = old_line_no s /\ new_line_no s' = new_line_no s.
Proof.
  intros Hc [] Hin h Hh. rewrite Hin in di_lines0.
  assert (Eh : cur_hunk s ++ take (min (length (eq_run s)) c) (eq_run s) = h).
  { unfold h. f_equal. destruct (Nat.min_spec (length (eq_run s)) c) as [[Hm ->]|[_ ->]]; [|done]. rewrite !take_ge by lia. done. }
  assert (Hn : numbered (1 + blen (old_of (flat segs ++ gap))) (1 + blen (new_of (flat segs ++ gap))) h).
  { rewrite di_lines0, app_assoc in di_numbered0. apply numbered_app in di_numbered0 as [_ Hn]. unfold h.
    rewrite <- (take_drop c (eq_run s)), app_assoc in Hn. by apply numbered_app in Hn as [Hn _]. }
  assert (Hpos : 0 < blen (old_of h) /\ 0 < blen (new_of h)).
  { destruct Hh as [Hh|((-> & -> & Eq) & Ho & Hw)]; [by split; [apply has_context_old|apply has_context_new]|].
    rewrite Eq in di_lines0. unfold h. rewrite Eq, take_nil. cbn in di_lines0. by rewrite <- di_lines0. }
  destruct (flush_text c s (1 + blen (old_of (flat segs ++ gap))) (1 + blen (new_of (flat segs ++ gap)))) as (Ho & H1 & H2 & H3 & H4 & H5);
    rewrite ?Eh; try tauto.
  cbv zeta. rewrite Ho, Eh, seg_lines_snoc, unlines_app, di_out0. destruct c; [lia|]. done.
Qed.

Lemma flat_nil segs : segs_ok segs -> flat segs = [] -> segs = [].
Proof.
  intros [|[g h] l [_ Hh] Hl]; [done|]. unfold flat. cbn. intros E. apply app_eq_nil in E as [E _]. apply app_eq_nil in E as [_ E].
  cbn in Hh. rewrite E in Hh. by apply Exists_nil in Hh.
Qed.

Lemma push_inv c e s segs gap x o n : diff_inv c e s segs gap ->
  numbered 1 1 (e ++ [x]) -> o = 1 + blen (old_of (e ++ [x])) -> n = 1 + blen (new_of (e ++ [x])) ->
  diff_inv c (e ++ [x]) (push_edit x s o n) segs gap.
Proof.
  intros Hi Hnum Ho Hn. pose proof Hi as []. unfold push_edit.
  destruct (in_hunk s) eqn:Hin; split; cbn [in_hunk cur_hunk eq_run prefix_ctx ds_out old_line_no new_line_no]; try done.
  - apply Forall_nil_2.
  - rewrite di_lines0, app_nil_r, <- !app_assoc. done.
  - intros _. split; [cbn; lia|]. destruct (di_in0 eq_refl) as [_ [Hh|Hh]]; [left|by right].
    rewrite <- app_assoc. unfold has_context. rewrite Exists_app. by left.
  - apply Forall_nil_2.
  - destruct (di_outside0 eq_refl) as (Ec & Eq & _ & _). rewrite Ec, Eq, di_lines0, !app_nil_r, <- !app_assoc. done.
  - intros _. split; [cbn; lia|]. destruct (di_outside0 eq_refl) as (Ec & Eq & Hp & Hz). rewrite Ec, Eq. cbn [app].
    destruct (prefix_ctx s) as [|y p] eqn:Ep.
    + right. specialize (Hz eq_refl). rewrite Hz in di_lines0. symmetry in di_lines0. apply app_eq_nil in di_lines0 as [Hf Hg]. apply app_eq_nil in Hg as [Hg _].
      split; [by apply flat_nil|done].
    + left. unfold has_context. rewrite !Exists_app. left. left. by apply all_context_has.
Qed.

Lemma equal_outside_inv c e s segs gap x : (0 < c)%nat -> diff_inv c e s segs gap -> in_hunk s = false ->
  is_context x -> numbered 1 1 (e ++ [x]) ->
  exists gap', diff_inv c (e ++ [x])
    (mkDiffState (ds_out s) ((if (length (prefix_ctx s) =? c)%nat then tail (prefix_ctx s) else prefix_ctx s) ++ [x]) (cur_hunk s) (eq_run s) false
       (last_old_seen s) (last_new_seen s) (1 + blen (old_of (e ++ [x]))) (1 + blen (new_of (e ++ [x])))) segs gap'.
Proof.
  intros Hc Hi Hin Hx Hnum. pose proof Hi as []. rewrite Hin in di_lines0. destruct (di_outside0 Hin) as (Ec & Eq & Hp & Hz).
  assert (Hsplit : exists g p, prefix_ctx s = g ++ p /\ (if (length (prefix_ctx s) =? c)%nat then tail (prefix_ctx s) else prefix_ctx s) = p).
  { destruct (length (prefix_ctx s) =? c)%nat eqn:E; [|by exists [], (prefix_ctx s)].
    destruct (prefix_ctx s) as [|y p]; [by exists [], []|by exists [y], p]. }
  destruct Hsplit as (g & p & Ep & ->). rewrite Ep in *. apply Forall_app in Hp as [Hg Hp].
  exists (gap ++ g). split; cbn [in_hunk cur_hunk eq_run prefix_ctx ds_out old_line_no new_line_no]; try done.
  - by apply Forall_app.
  - rewrite di_lines0, <- !app_assoc. done.
  - intros _. split; [done|]. split; [done|]. split; [apply Forall_app; split; [done|by apply Forall_singleton]|]. intros E. by apply app_eq_nil in E as [_ E].
Qed.

Lemma equal_inside_inv c e s segs gap x s1 : (0 < c)%nat -> diff_inv c e s segs gap -> in_hunk s = true ->
  is_context x -> numbered 1 1 (e ++ [x]) ->
  s1 = mkDiffState (ds_out s) (prefix_ctx s) (cur_hunk s) (eq_run s ++ [x]) true (last_old_seen s) (last_new_seen s)
         (1 + blen (old_of (e ++ [x]))) (1 + blen (new_of (e ++ [x]))) ->
  exists segs' gap', diff_inv c (e ++ [x])
    (if (c * 2 <? length (eq_run s1))%nat then set_in_hunk false (flush_hunk_to_out c s1) else s1) segs' gap'.
Proof.
  intros Hc Hi Hin Hx Hnum Es1. pose proof Hi as []. rewrite Hin in di_lines0. destruct (di_in0 Hin) as [Hlen Hhas].
  assert (Heq1 : all_context (eq_run s ++ [x])) by (apply Forall_app; split; [done|by apply Forall_singleton]).
  (* the invariant of [s1], but for the length of the run *)
  destruct (c * 2 <? length (eq_run s1))%nat eqn:El.
  2:{ exists segs, gap. subst s1. split; cbn [in_hunk cur_hunk eq_run prefix_ctx ds_out old_line_no new_line_no] in *; try done.
      - rewrite di_lines0, <- !app_assoc. done.
      - intros _. split; [apply Nat.ltb_ge in El; lia|done]. }
  assert (Hl1 : length (eq_run s1) = S (c * 2)).
  { subst s1. cbn [eq_run] in *. rewrite length_app in *. cbn in *. apply Nat.ltb_lt in El. lia. }
  set (h := cur_hunk s1 ++ take c (eq_run s1)).
  assert (Hh : has_context h).
  { unfold h, has_context. rewrite Exists_app. right. apply all_context_has; [subst s1; by apply Forall_take|].
    intros E. apply (f_equal length) in E. rewrite length_take, Hl1 in E. cbn in E. lia. }
  assert (E1 : e ++ [x] = flat segs ++ gap ++ cur_hunk s1 ++ eq_run s1) by (subst s1; cbn [cur_hunk eq_run]; rewrite di_lines0, <- !app_assoc; done).
  pose proof (flush_text c s1 (1 + blen (old_of (flat segs ++ gap))) (1 + blen (new_of (flat segs ++ gap)))) as Hf. cbv zeta in Hf.
  replace (min (length (eq_run s1)) c) with c in Hf by lia. fold h in Hf.
  assert (Hn : numbered (1 + blen (old_of (flat segs ++ gap))) (1 + blen (new_of (flat segs ++ gap))) h).
  { rewrite E1, app_assoc in Hnum. apply numbered_app in Hnum as [_ Hn]. unfold h.
    rewrite <- (take_drop c (eq_run s1)), app_assoc in Hn. by apply numbered_app in Hn as [Hn _]. }
  specialize (Hf Hn (has_context_old h Hh) (has_context_new h Hh)) as (Ho & Hcur & Heq & Hp & Hon & Hnn).
  destruct c as [|c']; [lia|]. set (c := S c') in *. rewrite Hl1 in Hp.
  exists (segs ++ [(gap, h)]), (take 1 (drop c (eq_run s1))).
  unfold set_in_hunk. split; cbn [in_hunk cur_hunk eq_run prefix_ctx ds_out old_line_no new_line_no]; try done.
  - by rewrite Hon, Es1.
  - by rewrite Hnn, Es1.
  - rewrite Ho, seg_lines_snoc, unlines_app. subst s1. by rewrite <- di_out0.
  - apply Forall_app. split; [done|]. by apply Forall_singleton.
  - subst s1. by apply Forall_take, Forall_drop.
  - by rewrite Heq; apply Forall_nil_2.
  - rewrite E1, flat_snoc, Hp. unfold h. rewrite <- !app_assoc. do 3 f_equal.
    rewrite <- (take_drop c (eq_run s1)) at 1. f_equal. rewrite <- (take_drop 1 (drop c (eq_run s1))) at 1. f_equal. rewrite drop_drop. f_equal. lia.
  - intros _. split; [done|]. split; [done|]. rewrite Hp. split; [subst s1; by apply Forall_drop|].
    intros E. apply (f_equal length) in E. rewrite length_drop, Hl1 in E. cbn in E. lia.
Qed.

Lemma step_inv c e s segs gap ch : (0 < c)%nat -> diff_inv c e s segs gap ->
  exists segs' gap', diff_inv c (e ++ [number_change (1 + blen (old_of e)) (1 + blen (new_of e)) ch]) (diff_step c s ch) segs' gap'.
Proof.
  intros Hc Hi. pose proof Hi as []. pose proof (numbered_snoc e ch di_numbered0) as Hnum. pose proof (snoc_sides e ch) as [Hos Hns].
  destruct ch as [[] v]; cbn [fst] in Hos, Hns; unfold diff_step; cbn [fst snd]; rewrite di_old_no0, di_new_no0.
  - destruct (in_hunk s) eqn:Hin.
    + eapply equal_inside_inv; try done. rewrite Hos, Hns, !Z.add_assoc. done.
    + destruct (equal_outside_inv c e s segs gap (number_change (1 + blen (old_of e)) (1 + blen (new_of e)) (Equal, v)) Hc Hi Hin I Hnum) as [gap' Hg]. rewrite Hos, Hns, !Z.add_assoc in Hg. by exists segs, gap'.
  - exists segs, gap. refine (push_inv c e s segs gap (number_change (1 + blen (old_of e)) (1 + blen (new_of e)) (Delete, v)) _ _ Hi Hnum _ _);
      [rewrite Hos; lia|rewrite Hns; lia].
  - exists segs, gap. refine (push_inv c e s segs gap (number_change (1 + blen (old_of e)) (1 + blen (new_of e)) (Insert, v)) _ _ Hi Hnum _ _);
      [rewrite Hos; lia|rewrite Hns; lia].
Qed.

(** The values of a script on each side. *)
Definition old_values (changes : list Change) : list bytes :=
  omap (fun ch => match ch.1 with Insert => None | _ => Some ch.2 end) changes.
Definition new_values (changes : list Change) : list bytes :=
  omap (fun ch => match ch.1 with Delete => None | _ => Some ch.2 end) changes.

Lemma script_inv c changes : (0 < c)%nat ->
  exists e segs gap, diff_inv c e (foldl (diff_step c) diff_start changes) segs gap
    /\ old_of e = map trim_line_end (old_values changes) /\ new_of e = map trim_line_end (new_values changes).
Proof.
  intros Hc. induction changes as [|ch changes IH] using rev_ind.
  - exists [], [], []. split; [|done]. split; try done; try apply Forall_nil_2. intros _. split; [done|]. split; [done|]. split; [apply Forall_nil_2|done].
  - destruct IH as (e & segs & gap & Hi & Ho & Hn). rewrite foldl_app. cbn [foldl].
    destruct (step_inv c e _ segs gap ch Hc Hi) as (segs' & gap' & Hi').
    eexists _, segs', gap'. split; [exact Hi'|]. rewrite old_of_app, new_of_app, Ho, Hn. unfold old_values, new_values. rewrite !omap_app, !map_app.
    by destruct ch as [[] v].
Qed.

Lemma blen_map_pos {A B} (f : A -> B) l : l <> [] -> 0 < blen (map f l).
Proof. destruct l as [|x l]; [done|]. cbn [map]. rewrite blen_cons. pose proof (blen_nonneg (map f l)). lia. Qed.

(** A hunk with lines on both sides. *)
Definition hunk_ok (h : list line) : Prop := 0 < blen (old_of h) /\ 0 < blen (new_of h).

Lemma script_hunks c changes : (0 < c)%nat -> old_values changes <> [] -> new_values changes <> [] ->
  let s := foldl (diff_step c) diff_start changes in
  exists segs gap, ds_out (if in_hunk s then flush_hunk_to_out c s else s) = unlines (seg_lines 1 1 segs)
    /\ Forall (fun sg => all_context sg.1 /\ hunk_ok sg.2) segs /\ all_context gap
    /\ numbered 1 1 (flat segs ++ gap)
    /\ old_of (flat segs ++ gap) = map trim_line_end (old_values changes)
    /\ new_of (flat segs ++ gap) = map trim_line_end (new_values changes).
Proof.
  intros Hc Hov Hnv s. destruct (script_inv c changes Hc) as (e & segs & gap & Hi & Ho & Hn). fold s in Hi. pose proof Hi as [].
  assert (Hoe : 0 < blen (old_of e)) by (rewrite Ho; by apply blen_map_pos).
  assert (Hne : 0 < blen (new_of e)) by (rewrite Hn; by apply blen_map_pos).
  assert (Hok : Forall (fun sg => all_context sg.1 /\ hunk_ok sg.2) segs).
  { eapply Forall_impl; [exact di_segs0|]. intros [g h] [Hg Hh]. split; [done|]. split; [by apply has_context_old|by apply has_context_new]. }
  destruct (in_hunk s) eqn:Hin.
  2:{ destruct (di_outside0 eq_refl) as (_ & _ & Hp & _). exists segs, (gap ++ prefix_ctx s).
      rewrite <- di_lines0. split; [done|]. split; [done|]. split; [by apply Forall_app|done]. }
  destruct (di_in0 eq_refl) as [_ Hhas]. set (h := cur_hunk s ++ take c (eq_run s)).
  assert (Hh : has_context h \/ (segs = [] /\ gap = [] /\ eq_run s = []) /\ 0 < blen (old_of e) /\ 0 < blen (new_of e)).
  { unfold h, has_context. rewrite Exists_app. destruct Hhas as [Hh|[-> ->]]; [by left; left|].
    destruct (eq_run s) as [|y r] eqn:Er; [by right|]. left. right. destruct c; [lia|]. left. by apply Forall_cons_1 in di_eq0 as [Hy _]. }
  destruct (flush_inv c e s segs gap Hc Hi Hin Hh) as (Hout & _).
  exists (segs ++ [(gap, h)]), (drop c (eq_run s)).
  assert (Ee : flat (segs ++ [(gap, h)]) ++ drop c (eq_run s) = e).
  { rewrite flat_snoc, di_lines0. unfold h. rewrite <- !app_assoc, take_drop. done. }
  rewrite Ee. split; [done|]. split; [|split; [by apply Forall_drop|done]].
  apply Forall_app. split; [done|]. apply Forall_singleton. split; [done|].
  destruct Hh as [Hh|((-> & -> & Eq) & _)]; [split; [by apply has_context_old|by apply has_context_new]|].
  unfold h. rewrite Eq, take_nil. rewrite Eq in di_lines0. cbn in di_lines0. cbn [snd]. unfold hunk_ok. by rewrite <- di_lines0.
Qed.

(** * The applier on such hunks *)

Section applied.
Variable old_lines : list bytes.

Definition kept (ls : list bytes) : list (bytes * bool) := map (fun l => (l, true)) ls.

Lemma kept_app l m : kept (l ++ m) = kept l ++ kept m.
Proof. apply map_app. Qed.

Lemma blen_kept l : blen (kept l) = blen l.
Proof. unfold blen, kept. by rewrite length_map. Qed.

Lemma copied_kept start stop : copied old_lines true start stop = kept (drop start (take stop old_lines)).
Proof.
  unfold copied, kept. assert (E : imap (fun k l => (l, old_nl old_lines true k)) old_lines = map (fun l => (l, true)) old_lines).
  { generalize (old_nl old_lines true) as f, (fun k => orb_true_r (k + 1 <? length old_lines)%nat : old_nl old_lines true k = true).
    intros f Hf. revert f Hf. induction old_lines as [|l ls IH]; intros f Hf; [done|]. cbn. rewrite Hf. f_equal. apply (IH (f ∘ S)). intros k. apply Hf. }
  rewrite E, <- fmap_take, <- fmap_drop. done.
Qed.

(** A line that can start a hunk, or none. *)
Definition at_hunk_end (lines : list bytes) : Prop :=
  match lines with [] => True | l :: _ => starts_with (str "@@ ") l = true end.

Lemma body_loop_hunk h rest N O post co pn k :
  at_hunk_end rest -> old_lines = O ++ old_of h ++ post ->
  body_loop old_lines true (map line_text h ++ rest) (mkApply (kept N) (length O) false) co pn k
  = Ok (rest, mkApply (kept (N ++ new_of h)) (length (O ++ old_of h)) false, co + blen (old_of h), pn + blen (new_of h)).
Proof.
  intros Hr. revert N O co pn k. induction h as [|e h IH]; intros N O co pn k Ho.
  - cbn [map app old_of new_of omap list_omap]. rewrite !app_nil_r, blen_nil, !Z.add_0_r. destruct rest as [|l rest]; [done|]. cbn [body_loop]. unfold at_hunk_end in Hr. by rewrite Hr.
  - assert (Hold : forall t, old_of (e :: h) = t :: old_of h -> old_lines !! length O = Some t).
    { intros t Et. rewrite Ho, Et, lookup_app_r, Nat.sub_diag by lia. done. }
    destruct e as [o n t|o t|n t]; cbn [map app body_loop line_text].
    + cbn [old_of new_of omap list_omap] in *. fold old_of new_of in *. rewrite blen_cons, blen_cons.
      change (starts_with (str "@@ ") (32 :: t) || starts_with (str "diff --git ") (32 :: t)) with false. cbn [new_eof_marked ap_cursor ap_out].
      rewrite (Hold t eq_refl), bool_decide_true by done. cbn [negb]. unfold old_nl. rewrite orb_true_r.
      replace (kept N ++ [(t, true)]) with (kept (N ++ [t])) by apply kept_app.
      replace (S (length O)) with (length (O ++ [t])) by (rewrite length_app; cbn; lia).
      rewrite (IH (N ++ [t]) (O ++ [t])) by (rewrite <- app_assoc; done). rewrite <- !app_assoc. cbn [app]. by rewrite !Z.add_assoc.
    + cbn [old_of new_of omap list_omap] in *. fold old_of new_of in *. rewrite blen_cons.
      change (starts_with (str "@@ ") (45 :: t) || starts_with (str "diff --git ") (45 :: t)) with false. cbn [new_eof_marked ap_cursor ap_out].
      rewrite (Hold t eq_refl), bool_decide_true by done. cbn [negb].
      replace (S (length O)) with (length (O ++ [t])) by (rewrite length_app; cbn; lia).
      rewrite (IH N (O ++ [t])) by (rewrite <- app_assoc; done). rewrite <- !app_assoc. cbn [app]. by rewrite !Z.add_assoc.
    + cbn [old_of new_of omap list_omap] in *. fold old_of new_of in *. rewrite blen_cons.
      change (starts_with (str "@@ ") (43 :: t) || starts_with (str "diff --git ") (43 :: t)) with false. cbn [new_eof_marked ap_cursor ap_out].
      replace (kept N ++ [(t, true)]) with (kept (N ++ [t])) by apply kept_app.
      rewrite (IH (N ++ [t]) O) by done. rewrite <- !app_assoc. cbn [app]. by rewrite !Z.add_assoc.
Qed.
End applied.

(** ** Reading the header *)

Lemma find_first_at x p pre rest : Forall (fun b => b <> x) pre -> find_first (x :: p) (pre ++ x :: p ++ rest) = Some (blen pre).
Proof.
  induction 1 as [|y pre Hy _ IH].
  - assert (E : starts_with (x :: p) (x :: p ++ rest) = true) by (apply (starts_with_app (x :: p) rest)).
    cbn [app find_first]. by rewrite E.
  - assert (E : starts_with (x :: p) (y :: pre ++ x :: p ++ rest) = false).
    { unfold starts_with. apply bool_decide_eq_false. cbn. congruence. }
    cbn [app find_first]. rewrite E, IH. cbn. by rewrite blen_cons.
Qed.

Lemma split_once_at x p pre rest : Forall (fun b => b <> x) pre -> split_once (x :: p) (pre ++ (x :: p) ++ rest) = Some (pre, rest).
Proof.
  intros Hp. unfold split_once. change (pre ++ (x :: p) ++ rest) with (pre ++ x :: p ++ rest). rewrite find_first_at by done.
  unfold blen. rewrite Nat2Z.id, take_app_length. f_equal. f_equal. change (pre ++ x :: p ++ rest) with (pre ++ (x :: p) ++ rest).
  rewrite app_assoc. replace (length pre + length (x :: p))%nat with (length (pre ++ x :: p)) by (by rewrite length_app). by rewrite drop_app_length.
Qed.

Lemma split_comma_at cur pre rest : Forall (fun b => b <> 44) pre -> split_comma cur (pre ++ 44 :: rest) = (cur ++ pre) :: split_comma [] rest.
Proof.
  intros Hp. revert cur. induction Hp as [|y pre Hy _ IH]; intros cur; cbn [app split_comma]; [by rewrite app_nil_r|].
  replace (y =? 44) with false by lia. rewrite IH, <- app_assoc. done.
Qed.

Lemma split_comma_none cur s : Forall (fun b => b <> 44) s -> split_comma cur s = [cur ++ s].
Proof.
  intros Hp. revert cur. induction Hp as [|y s Hy _ IH]; intros cur; cbn [split_comma]; [by rewrite app_nil_r|].
  replace (y =? 44) with false by lia. rewrite IH, <- app_assoc. done.
Qed.

Lemma show_dec_not n x : 0 <= n -> is_digit x = false -> Forall (fun b => b <> x) (show_dec n).
Proof. intros Hn Hx. eapply Forall_impl; [apply show_dec_digits, Hn|]. cbn. intros b Hb ->. congruence. Qed.

Lemma parse_range_shown start count : 1 <= start <= usize_max -> 0 <= count <= usize_max ->
  parse_range (show_dec start ++ 44 :: show_dec count) = Ok (start, count).
Proof.
  intros Hs Hc. unfold parse_range. rewrite split_comma_at, split_comma_none by (apply show_dec_not; [lia|done]). cbn [app].
  rewrite !parse_dec_show by lia. cbn [ok_or rbind]. by replace (start =? 0) with false by lia.
Qed.

Lemma parse_header_shown line o oc n nc :
  1 <= o <= usize_max -> 0 <= oc <= usize_max -> 1 <= n <= usize_max -> 0 <= nc <= usize_max ->
  parse_header line (drop 4 (hunk_header o oc n nc)) = Ok ((o, oc), (n, nc)).
Proof.
  intros Ho Hoc Hn Hnc.
  assert (Hsp : forall a b, 0 <= a -> 0 <= b -> Forall (fun x => x <> 32) (show_dec a ++ 44 :: show_dec b)).
  { intros a b Ha Hb. apply Forall_app. split; [by apply show_dec_not|]. apply Forall_cons_2; [lia|by apply show_dec_not]. }
  assert (Eh : drop 4 (hunk_header o oc n nc)
            = (show_dec o ++ 44 :: show_dec oc) ++ [32; 43] ++ (show_dec n ++ 44 :: show_dec nc) ++ [32] ++ str "@@").
  { unfold hunk_header. rewrite drop_app_length' by done. rewrite <- !app_assoc. cbn [app]. rewrite <- ?app_assoc. done. }
  unfold parse_header. rewrite Eh. change (str " +") with [32; 43]. rewrite split_once_at by (apply Hsp; lia). cbn [ok_or rbind].
  change (str " ") with [32]. rewrite split_once_at by (apply Hsp; lia). cbn [ok_or rbind].
  rewrite bool_decide_true by done. cbn [negb andb]. by rewrite !parse_range_shown by done.
Qed.

(** ** Applying the hunks *)

Lemma header_starts o oc n nc : starts_with (str "@@ ") (hunk_header o oc n nc) = true /\ starts_with (str "@@ -") (hunk_header o oc n nc) = true.
Proof. unfold hunk_header. split; [|apply starts_with_app]. change (str "@@ -") with (str "@@ " ++ [45]). rewrite <- app_assoc. apply starts_with_app. Qed.

Lemma seg_lines_end o n segs : at_hunk_end (seg_lines o n segs).
Proof. destruct segs as [|[g h] segs]; [done|]. unfold at_hunk_end. cbn [seg_lines hunk_lines app]. apply header_starts. Qed.

Section apply.
Variable old_lines : list bytes.
Hypothesis Hold : blen old_lines < usize_max.

Lemma apply_hunk_ok g h rest N O post line :
  all_context g -> hunk_ok h -> at_hunk_end rest ->
  old_lines = O ++ old_of g ++ old_of h ++ post -> blen (N ++ new_of g ++ new_of h) < usize_max ->
  apply_hunk old_lines true line
    (drop 4 (hunk_header (1 + blen O + blen (old_of g)) (blen (old_of h)) (1 + blen N + blen (new_of g)) (blen (new_of h))))
    (map line_text h ++ rest) (mkApply (kept N) (length O) false)
  = Ok (rest, mkApply (kept (N ++ new_of g ++ new_of h)) (length (O ++ old_of g ++ old_of h)) false).
Proof.
  intros Hg [Hho Hhn] Hr Ho Hn. unfold apply_hunk. pose proof (blen_nonneg O). pose proof (blen_nonneg N). pose proof (blen_nonneg (old_of g)).
  pose proof (blen_nonneg (new_of g)). pose proof (blen_nonneg post). rewrite !blen_app in Hn.
  assert (Hb : blen O + (blen (old_of g) + (blen (old_of h) + blen post)) < usize_max) by (rewrite Ho, !blen_app in Hold; lia).
  rewrite parse_header_shown by lia. cbn [rbind]. replace (blen (old_of h) =? 0) with false by lia. replace (blen (new_of h) =? 0) with false by lia.
  set (st := Z.to_nat _). assert (Est : st = length (O ++ old_of g)) by (unfold st; rewrite length_app; unfold blen; lia). rewrite Est. clear st Est.
  cbn [ap_cursor ap_out new_eof_marked].
  replace ((length (O ++ old_of g) <? length O)%nat || (length old_lines <? length (O ++ old_of g))%nat) with false
    by (symmetry; apply orb_false_iff; split; apply Nat.ltb_ge; rewrite ?Ho, !length_app; lia).
  assert (Ec : copied old_lines true (length O) (length (O ++ old_of g)) = kept (new_of g)).
  { rewrite copied_kept, Ho, app_assoc, take_app_length, drop_app_length, context_sides by done. done. }
  rewrite Ec, <- kept_app, blen_kept, blen_app. replace (negb _) with false by (symmetry; apply negb_false_iff; lia).
  rewrite (body_loop_hunk old_lines h rest (N ++ new_of g) (O ++ old_of g) post) by (try done; rewrite Ho, <- app_assoc; done). cbn [rbind].
  rewrite !Z.add_0_l, !Z.eqb_refl. cbn [negb orb]. by rewrite <- !app_assoc.
Qed.

Lemma apply_loop_segs fuel seen segs gap N O :
  Forall (fun sg => all_context sg.1 /\ hunk_ok sg.2) segs ->
  old_lines = O ++ old_of (flat segs ++ gap) -> blen (N ++ new_of (flat segs ++ gap)) < usize_max ->
  (length (seg_lines (1 + blen O) (1 + blen N) segs) < fuel)%nat ->
  apply_loop old_lines true fuel seen (seg_lines (1 + blen O) (1 + blen N) segs) (mkApply (kept N) (length O) false)
  = Ok (mkApply (kept (N ++ new_of (flat segs))) (length (O ++ old_of (flat segs))) false).
Proof.
  intros Hs. revert fuel seen N O. induction Hs as [|[g h] segs [Hg Hh] _ IH]; intros fuel seen N O Ho Hn Hf; (destruct fuel as [|fuel]; [lia|]).
  - cbn. by rewrite !app_nil_r.
  - rewrite flat_cons in *. cbn [fst snd] in Hg, Hh. cbn [seg_lines] in *. set (rest := seg_lines _ _ segs) in *.
    assert (Erest : rest = seg_lines (1 + blen (O ++ old_of g ++ old_of h)) (1 + blen (N ++ new_of g ++ new_of h)) segs).
    { unfold rest. f_equal; rewrite !blen_app; lia. }
    rewrite !old_of_app, !new_of_app in *. unfold hunk_lines. cbn [app apply_loop]. rewrite (proj2 (header_starts _ _ _ _)).
    rewrite (apply_hunk_ok g h rest N O (old_of (flat segs) ++ old_of gap)); [|done|done|apply seg_lines_end|rewrite Ho, <- !app_assoc; done|].
    2:{ rewrite !blen_app in *. pose proof (blen_nonneg (new_of (flat segs))). pose proof (blen_nonneg (new_of gap)). lia. }
    cbn [rbind]. rewrite Erest. rewrite IH.
    + by rewrite <- !app_assoc.
    + rewrite Ho, <- !app_assoc. done.
    + rewrite !blen_app in *. lia.
    + rewrite <- Erest. unfold hunk_lines in Hf. cbn [app length] in Hf. rewrite length_app in Hf. lia.
Qed.
End apply.

(** * Texts as lines *)

(** Text without carriage returns. *)
Definition plain_text (s : bytes) : Prop := Forall (fun b => b <> 13) s.

Lemma str_lines_unlines ls rest : Forall (Forall (fun b => b <> 10)) ls ->
  str_lines (unlines ls ++ rest) = map chomp_cr ls ++ str_lines rest.
Proof.
  induction 1 as [|l ls Hl _ IH]; [done|]. rewrite unlines_cons, <- !app_assoc. unfold str_lines at 1. cbn [app].
  rewrite lines_loop_line by done. cbn [map app]. by rewrite <- IH.
Qed.

Lemma chomp_plain l : Forall (fun b => b <> 13) l -> chomp_cr l = l.
Proof.
  intros Hl. unfold chomp_cr. destruct (split_last l) as [[f x]|] eqn:E; [|done]. apply split_last_Some in E as ->.
  apply Forall_app in Hl as [_ Hx]. apply Forall_cons_1 in Hx as [Hx _]. destruct x as [|p|p]; try done. repeat (destruct p as [p|p|]; try done).
Qed.

Lemma join_kept ls : join_output (kept ls) = unlines ls.
Proof.
  induction ls as [|l ls IH]; [done|]. rewrite unlines_cons, <- IH, <- app_assoc. destruct ls as [|m ls]; [done|]. done.
Qed.

Lemma trim_plain l : Forall (fun b => b <> 10 /\ b <> 13) l -> trim_line_end l = l.
Proof.
  induction 1 as [|b l [Hb Hc] _ IH]; [done|]. cbn [trim_line_end]. rewrite IH. destruct l; [|done].
  by replace ((b =? 13) || (b =? 10)) with false by lia.
Qed.

Lemma trim_newline l : Forall (fun b => b <> 10 /\ b <> 13) l -> trim_line_end (l ++ [10]) = l.
Proof.
  induction 1 as [|b l [Hb Hc] _ IH]; [done|]. cbn [app trim_line_end]. rewrite IH. destruct l; [|done].
  by replace ((b =? 13) || (b =? 10)) with false by lia.
Qed.

(** A text cut into its lines, each with its newline. *)
Inductive cut_lines : bytes -> list bytes -> Prop :=
| cut_nil : cut_lines [] []
| cut_last l : l <> [] -> Forall (fun b => b <> 10) l -> cut_lines l [l]
| cut_line l s ts : Forall (fun b => b <> 10) l -> cut_lines s ts -> cut_lines (l ++ 10 :: s) ((l ++ [10]) :: ts).

(** What the similar crate documents of its scripts: the values of the equal and deleted changes are
    the old sequence, those of the equal and inserted ones the new sequence, in order; texts are
    compared by their lines, newlines included (stated for texts without carriage returns). *)
Class TextDiffLaws `{TextDiff} : Prop := {
  slices_old : forall a b, old_values (diff_slices a b) = a;
  slices_new : forall a b, new_values (diff_slices a b) = b;
  lines_old : forall s t, plain_text s -> plain_text t -> cut_lines s (old_values (diff_lines s t));
  lines_new : forall s t, plain_text s -> plain_text t -> cut_lines t (new_values (diff_lines s t))
}.

Definition ends_newline (s : bytes) : Prop := exists front, s = front ++ [10].

Lemma ends_newline_tail l s : Forall (fun b => b <> 10) l -> ends_newline (l ++ 10 :: s) -> s = [] \/ ends_newline s.
Proof.
  intros Hl [front E]. destruct (split_last s) as [[f x]|] eqn:Es; [|apply split_last_None in Es; by left].
  right. apply split_last_Some in Es as ->. rewrite app_comm_cons, app_assoc in E. apply app_inj_2 in E as [_ [= ->]]; [|done]. by exists f.
Qed.

Lemma cut_plain s ts : cut_lines s ts -> plain_text s -> s = [] \/ ends_newline s ->
  s = unlines (map trim_line_end ts) /\ Forall (Forall (fun b => b <> 10)) (map trim_line_end ts)
  /\ Forall (Forall (fun b => b <> 13)) (map trim_line_end ts).
Proof.
  induction 1 as [|l Hne Hl|l s ts Hl _ IH]; intros Hp He.
  - split; [done|]. split; apply Forall_nil_2.
  - exfalso. destruct He as [->|[f ->]]; [done|]. apply Forall_app in Hl as [_ Hx]. by apply Forall_cons_1 in Hx as [Hx _].
  - apply Forall_app in Hp as [Hpl Hps]. apply Forall_cons_1 in Hps as [_ Hps].
    destruct IH as (E & H1 & H2); [done| |]; [destruct He as [He|He]; [by destruct l|by apply (ends_newline_tail l)]|].
    cbn [map]. rewrite trim_newline by (rewrite Forall_forall in *; auto). split; [|split; by apply Forall_cons_2].
    rewrite unlines_cons, <- E, <- app_assoc. done.
Qed.

Lemma unlines_nl_lines ls : Forall (Forall (fun b => b <> 10)) ls -> Forall (Forall (fun b => b <> 13)) ls -> str_lines (unlines ls) = ls.
Proof.
  intros H10 H13. rewrite <- (app_nil_r (unlines ls)), str_lines_unlines by done. cbn. rewrite app_nil_r.
  rewrite <- (map_id ls) at 2. apply map_ext_Forall. eapply Forall_impl; [exact H13|]. intros l Hl. by apply chomp_plain.
Qed.

(** The lines of a diff hold neither newline nor carriage return. *)
Lemma hunk_lines_clean o n h (P : Z -> Prop) :
  Forall (Forall P) (old_of h) -> Forall (Forall P) (new_of h) -> Forall P [32; 43; 44; 45; 64] -> 0 <= o -> 0 <= n ->
  (forall b, is_digit b = true -> P b) -> Forall (Forall P) (hunk_lines o n h).
Proof.
  intros Ho Hn Hc Hop Hnp Hd. assert (Hdec : forall k, 0 <= k -> Forall P (show_dec k)).
  { intros k Hk. eapply Forall_impl; [by apply show_dec_digits|]. exact Hd. }
  repeat (apply Forall_cons_1 in Hc as [? Hc]). unfold hunk_lines. apply Forall_cons_2.
  - unfold hunk_header. repeat (apply Forall_app; split); try apply Hdec; try done; try apply blen_nonneg; cbn; repeat apply Forall_cons_2; done || apply Forall_nil_2.
  - induction h as [|[x y t|x t|y t] h IH]; cbn [map line_text]; [apply Forall_nil_2|..];
      cbn [old_of new_of omap list_omap] in *; fold old_of new_of in *.
    + apply Forall_cons_1 in Ho as [Ht Ho]. apply Forall_cons_1 in Hn as [_ Hn]. apply Forall_cons_2; [by apply Forall_cons_2|by apply IH].
    + apply Forall_cons_1 in Ho as [Ht Ho]. apply Forall_cons_2; [by apply Forall_cons_2|by apply IH].
    + apply Forall_cons_1 in Hn as [Ht Hn]. apply Forall_cons_2; [by apply Forall_cons_2|by apply IH].
Qed.

Lemma seg_lines_clean o n segs (P : Z -> Prop) :
  Forall (Forall P) (old_of (flat segs)) -> Forall (Forall P) (new_of (flat segs)) -> Forall P [32; 43; 44; 45; 64] -> 0 <= o -> 0 <= n ->
  (forall b, is_digit b = true -> P b) -> Forall (Forall P) (seg_lines o n segs).
Proof.
  revert o n. induction segs as [|[g h] segs IH]; intros o n Ho Hn Hc Hop Hnp Hd; cbn [seg_lines]; [apply Forall_nil_2|].
  rewrite flat_cons in Ho. rewrite flat_cons in Hn.
  rewrite !old_of_app in Ho. rewrite !new_of_app in Hn. apply Forall_app in Ho as [_ Ho]. apply Forall_app in Ho as [Hoh Ho].
  apply Forall_app in Hn as [_ Hn]. apply Forall_app in Hn as [Hnh Hn].
  pose proof (blen_nonneg (old_of g)). pose proof (blen_nonneg (new_of g)). pose proof (blen_nonneg (old_of h)). pose proof (blen_nonneg (new_of h)).
  apply Forall_app. split; [apply hunk_lines_clean; done || lia|apply IH; done || lia].
Qed.
