(* ===== verification/DiffSpec.v ===== *)
(** The theorems on text diffs: unified diffs apply, line operations rebuild the new text, the files
    compared are exactly those that differ; and the diffs of new and deleted files, whose headers
    the applier refuses. *)

From Stdlib Require Import ZArith Lia String Permutation.
From stdpp Require Import base tactics list numbers option gmap.
From S2P Require Import Prelude Stream Text Errors ObjectTypes PackUtils Hash EntrySort StagingIndex Diff DiffProofs.

Section unified.
Context `{TextDiffLaws}.

Lemma split_last_snoc {A} (l : list A) x : split_last (l ++ [x]) = Some (l, x).
Proof.
  destruct (split_last (l ++ [x])) as [[f y]|] eqn:E; [|apply split_last_None in E; by destruct l].
  apply split_last_Some in E. by apply app_inj_2 in E as [-> [= ->]].
Qed.

Lemma unlines_long ls : blen ls <= blen (unlines ls).
Proof. induction ls as [|l ls IH]; [done|]. rewrite unlines_cons, !blen_app, blen_cons, blen_cons, blen_nil. pose proof (blen_nonneg l). lia. Qed.

Lemma cut_nonempty s ts : cut_lines s ts -> s <> [] -> ts <> [].
Proof. by destruct 1. Qed.

Lemma apply_loop_skip old_lines nl hs rest s :
  Forall (fun l => starts_with (str "@@ -") l = false) hs ->
  apply_loop old_lines nl (S (length (hs ++ rest))) false (hs ++ rest) s = apply_loop old_lines nl (S (length rest)) false rest s.
Proof. induction 1 as [|l hs Hl _ IH]; [done|]. cbn [app length]. rewrite <- IH. cbn [apply_loop]. by rewrite Hl. Qed.

(** The hunks of two texts. *)
Lemma unified_hunks old new c : (0 < c)%nat ->
  plain_text old -> plain_text new -> ends_newline old -> ends_newline new ->
  exists segs gap ol nl, compute_unified_diff old new c = unlines (seg_lines 1 1 segs)
    /\ Forall (fun sg => all_context sg.1 /\ hunk_ok sg.2) segs /\ all_context gap
    /\ old_of (flat segs ++ gap) = ol /\ new_of (flat segs ++ gap) = nl
    /\ old = unlines ol /\ new = unlines nl
    /\ Forall (Forall (fun b => b <> 10)) ol /\ Forall (Forall (fun b => b <> 13)) ol
    /\ Forall (Forall (fun b => b <> 10)) nl /\ Forall (Forall (fun b => b <> 13)) nl.
Proof.
  intros Hc Hpo Hpn Heo Hen. pose proof (lines_old old new Hpo Hpn) as Hco. pose proof (lines_new old new Hpo Hpn) as Hcn.
  assert (Hne : forall s, ends_newline s -> s <> []) by (intros s [f ->] E; by destruct f).
  destruct (script_hunks c (diff_lines old new) Hc) as (segs & gap & Hout & Hok & Hgap & _ & Ho & Hn);
    [eapply cut_nonempty; eauto|eapply cut_nonempty; eauto|].
  destruct (cut_plain old _ Hco Hpo (or_intror Heo)) as (Eo & Ho1 & Ho2). destruct (cut_plain new _ Hcn Hpn (or_intror Hen)) as (En & Hn1 & Hn2).
  exists segs, gap. eexists _, _. split; [exact Hout|]. split; [done|]. split; [done|]. split; [exact Ho|]. split; [exact Hn|]. done.
Qed.

Lemma apply_after_header old new c header : (0 < c)%nat ->
  plain_text old -> plain_text new -> ends_newline old -> ends_newline new -> blen old < usize_max -> blen new < usize_max ->
  Forall (Forall (fun b => b <> 10)) header -> Forall (fun l => starts_with (str "@@ -") (chomp_cr l) = false) header ->
  apply_unified_diff old (unlines header ++ compute_unified_diff old new c) = Ok new.
Proof.
  intros Hc Hpo Hpn Heo Hen Hlo Hln Hh Hhs.
  destruct (unified_hunks old new c Hc Hpo Hpn Heo Hen) as (segs & gap & ol & nl & Eout & Hok & Hgap & Ho & Hn & Eo & En & Ho1 & Ho2 & Hn1 & Hn2).
  assert (Hdec : forall P : Z -> Prop, Forall (Forall P) ol -> Forall (Forall P) nl -> Forall P [32; 43; 44; 45; 64] ->
            (forall b, is_digit b = true -> P b) -> Forall (Forall P) (seg_lines 1 1 segs)).
  { intros P Hol Hnl Hx Hd. rewrite <- Ho, old_of_app in Hol. rewrite <- Hn, new_of_app in Hnl.
    apply Forall_app in Hol as [Hol _]. apply Forall_app in Hnl as [Hnl _]. apply seg_lines_clean; done || lia. }
  assert (H10 : Forall (Forall (fun b => b <> 10)) (seg_lines 1 1 segs)).
  { apply Hdec; [done|done|repeat apply Forall_cons_2; lia || apply Forall_nil_2|unfold is_digit; lia]. }
  assert (H13 : Forall (Forall (fun b => b <> 13)) (seg_lines 1 1 segs)).
  { apply Hdec; [done|done|repeat apply Forall_cons_2; lia || apply Forall_nil_2|unfold is_digit; lia]. }
  unfold apply_unified_diff. rewrite Eout, str_lines_unlines, unlines_nl_lines by done.
  assert (Els : str_lines old = ol) by (rewrite Eo; by apply unlines_nl_lines). rewrite Els.
  destruct Heo as [front Ef]. rewrite Ef, split_last_snoc. change (10 =? 10) with true.
  rewrite apply_loop_skip by (apply List.Forall_map; exact Hhs).
  pose proof (apply_loop_segs ol) as Hloop. change 1 with (1 + blen (@nil bytes)). change (mkApply [] 0 false) with (mkApply (kept []) (length (@nil bytes)) false).
  rewrite (Hloop ltac:(pose proof (unlines_long ol); rewrite <- Eo in *; lia) _ _ segs gap [] []); [|done|by rewrite Ho|cbn [app]; rewrite Hn; pose proof (unlines_long nl); rewrite <- En in *; lia|lia].
  cbn [rbind new_eof_marked andb ap_out ap_cursor app]. rewrite copied_kept, take_ge, <- kept_app, join_kept by lia.
  rewrite En at 1. f_equal. f_equal. rewrite <- Hn, new_of_app. f_equal.
  rewrite <- Ho, old_of_app, drop_app_length. by apply context_sides.
Qed.
End unified.

Lemma chomp_prefix l : chomp_cr l `prefix_of` l.
Proof.
  unfold chomp_cr. destruct (split_last l) as [[f x]|] eqn:E; [|done]. apply split_last_Some in E as ->.
  destruct x as [|p|p]; try done. repeat (destruct p as [p|p|]; try done). by exists [13].
Qed.

Lemma not_hunk_header b l : b <> 64 -> starts_with (str "@@ -") (chomp_cr (b :: l)) = false.
Proof.
  intros Hb. unfold starts_with. apply bool_decide_eq_false. intros E. destruct (chomp_prefix (b :: l)) as [t Ht].
  destruct (chomp_cr (b :: l)) as [|y r]; [done|]. cbn in E. injection E as -> _. by injection Ht as ->.
Qed.

Section file_diff.
Context `{TextDiffLaws} `{TextEnv} `{HexLaws}.

Definition no_newline (s : bytes) : Prop := Forall (fun b => b <> 10) s.

(** The lines before the first hunk. *)
Definition file_header (file : bytes) (old_hash new_hash : option ObjectHash.t) (old_pref new_pref : bytes) : list bytes :=
  [str "diff --git a/" ++ display file ++ str " b/" ++ display file]
  ++ match old_hash, new_hash with
     | None, _ => [str "new file mode 100644"]
     | _, None => [str "deleted file mode 100644"]
     | _, _ => []
     end
  ++ [str "index " ++ short_hash old_hash ++ str ".." ++ short_hash new_hash ++ str " 100644"]
  ++ [str "--- " ++ old_pref; str "+++ " ++ new_pref].

Lemma preloaded_header file oh nh old new : utf8_valid old = true -> utf8_valid new = true -> old <> [] -> new <> [] ->
  diff_for_file_preloaded file oh nh old new
  = unlines (file_header file oh nh (str "a/" ++ display file) (str "b/" ++ display file)) ++ compute_unified_diff old new 3.
Proof.
  intros Ho Hn Hno Hnn. unfold diff_for_file_preloaded. rewrite Ho, Hn. cbn [andb]. rewrite !bool_decide_false by done.
  unfold writeln, file_header. rewrite !unlines_app. unfold unlines. destruct oh, nh; cbn [map concat app]; rewrite <- ?app_assoc, ?app_nil_r; cbn [app]; rewrite <- ?app_assoc; done.
Qed.

Lemma short_hash_clean h : (forall x, h = Some x -> hash_wf x) -> no_newline (short_hash h).
Proof.
  intros Hh. destruct h as [h|]; [|repeat constructor; lia]. unfold short_hash. apply Forall_take. destruct (Hh h eq_refl) as [_ Hb].
  eapply Forall_impl; [apply (hex_encode_lower _ Hb)|]. unfold is_hex_lower. cbn. lia.
Qed.

Lemma file_header_clean file oh nh op np :
  no_newline (display file) -> no_newline op -> no_newline np ->
  (forall x, oh = Some x -> hash_wf x) -> (forall x, nh = Some x -> hash_wf x) ->
  Forall (Forall (fun b => b <> 10)) (file_header file oh nh op np)
  /\ Forall (fun l => starts_with (str "@@ -") (chomp_cr l) = false) (file_header file oh nh op np).
Proof.
  intros Hf Ho Hn Hoh Hnh. pose proof (short_hash_clean oh Hoh). pose proof (short_hash_clean nh Hnh).
  assert (Hstr : forall s, bool_decide (10 ∈ str s) = false -> no_newline (str s)).
  { intros s Hs. apply bool_decide_eq_false in Hs. apply Forall_forall. intros x Hx ->. done. }
  split.
  - unfold file_header. repeat (apply Forall_app; split); try (apply Forall_cons_2; [|apply Forall_nil_2]);
      try (repeat (apply Forall_app; split); try done; by apply Hstr).
    + destruct oh, nh; try apply Forall_nil_2; (apply Forall_cons_2; [by apply Hstr|apply Forall_nil_2]).
    + apply Forall_cons_2; [apply Forall_app; split; [by apply Hstr|done]|]. apply Forall_cons_2; [apply Forall_app; split; [by apply Hstr|done]|apply Forall_nil_2].
  - unfold file_header. destruct oh, nh; cbn [app]; repeat (apply Forall_cons_2; [cbn [str app]; by apply not_hunk_header|]); apply Forall_nil_2.
Qed.


End file_diff.

(** * Line operations *)

(** Running the operations over the old lines: each must be at the line it names. *)
Fixpoint replay (old : list bytes) (o n : Z) (ops : list DiffOperation.t) : option (list bytes) :=
  match ops with
  | [] => match old with [] => Some [] | _ => None end
  | DiffOperation.Equal o' n' :: ops =>
      match old with
      | l :: old => if (o' =? o) && (n' =? n) then cons l <$> replay old (o + 1) (n + 1) ops else None
      | [] => None
      end
  | DiffOperation.Delete o' :: ops =>
      match old with
      | _ :: old => if o' =? o then replay old (o + 1) n ops else None
      | [] => None
      end
  | DiffOperation.Insert n' l :: ops => if n' =? n then cons l <$> replay old o (n + 1) ops else None
  end.

Section operations.
Context `{TextDiffLaws}.

Lemma operations_replay changes o n : replay (old_values changes) o n (operations_loop o n changes) = Some (new_values changes).
Proof.
  revert o n. induction changes as [|[[] v] changes IH]; intros o n; [done|..]; cbn [old_values new_values omap list_omap fst snd operations_loop replay];
    rewrite ?Z.eqb_refl; cbn [andb]; fold (old_values changes) (new_values changes); by rewrite IH.
Qed.

(** the operations computed for blame rebuild the new file from the old one: every line of the
    old file is kept or deleted once, in order and under its own number, and every line of the new
    one is an old line or inserted, under its own number. *)
Theorem compute_diff_replays (old new : list bytes) : replay old 1 1 (compute_diff old new) = Some new.
Proof.
  unfold compute_diff, compute_line_operations. destruct (bool_decide (old = [])) eqn:E1; destruct (bool_decide (new = [])) eqn:E2; cbn [andb].
  1:{ apply bool_decide_eq_true in E1, E2. by subst. }
  all: pose proof (operations_replay (diff_slices old new) 1 1) as Hr; by rewrite slices_old, slices_new in Hr.
Qed.
End operations.

(** * The files compared *)

Class PathEnvLaws `{PathEnv} : Prop := hash_set_permutes : forall l, hash_set_order l ≡ₚ l.

Section files.
Context `{PathEnvLaws}.

Lemma path_map_get {A} (l : list (bytes * A)) f :
  path_get (path_map l) f = snd <$> last (filter (fun p => components p.1 = components f) l).
Proof.
  unfold path_get, path_map. induction l as [|[p a] l IH] using rev_ind; [done|]. rewrite foldl_app, filter_app. cbn [foldl].
  unfold path_insert at 1. cbn [fst snd]. rewrite filter_cons, filter_nil. cbn [fst].
  destruct (decide (components p = components f)) as [E|E].
  - rewrite E, lookup_insert_eq, last_snoc. done.
  - rewrite lookup_insert_ne, app_nil_r by done. exact IH.
Qed.

(** Every key of a map spells the components it is stored under. *)
Lemma path_map_keys {A} (l : list (bytes * A)) k p a : path_map l !! k = Some (p, a) -> components p = k.
Proof.
  unfold path_map. revert k p a. induction l as [|[q b] l IH] using rev_ind; intros k p a; [cbn [foldl]; by rewrite lookup_empty|].
  rewrite foldl_app. cbn [foldl]. unfold path_insert at 1. cbn [fst snd]. destruct (decide (components q = k)) as [<-|Hne].
  - rewrite lookup_insert_eq. intros [= <- <-]. destruct (foldl path_insert ∅ l !! components q) as [[p' a']|] eqn:E; [|done]. by eapply IH.
  - rewrite lookup_insert_ne by done. apply IH.
Qed.

Lemma union_files_components (old new : list (bytes * ObjectHash.t)) :
  map components (union_files (path_map old) (path_map new)) ≡ₚ elements (dom (path_map old ∪ path_map new)).
Proof.
  unfold union_files. set (m := path_map old ∪ path_map new).
  assert (Hk : forall k p a, m !! k = Some (p, a) -> components p = k).
  { intros k p a Hm. apply lookup_union_Some_raw in Hm as [Hm|[_ Hm]]; by eapply path_map_keys. }
  rewrite map_map. assert (E : map (fun kv => components kv.2) (map_to_list (fst <$> m)) = (map_to_list (fst <$> m)).*1).
  { apply map_ext_Forall, Forall_forall. intros [k p] Hin. apply elem_of_map_to_list in Hin. rewrite lookup_fmap in Hin.
    destruct (m !! k) as [[p' a]|] eqn:Em; [|done]. cbn in Hin. injection Hin as ->. cbn. by eapply Hk. }
  rewrite E. apply NoDup_Permutation; [apply NoDup_fst_map_to_list|apply NoDup_elements|]. intros k. rewrite elem_of_elements, elem_of_dom, list_elem_of_fmap. split.
  - intros ([k' p] & -> & Hin). apply elem_of_map_to_list in Hin. rewrite lookup_fmap in Hin. cbn. by destruct (m !! k').
  - intros [[p a] Hm]. exists (k, p). split; [done|]. apply elem_of_map_to_list. by rewrite lookup_fmap, Hm.
Qed.

Lemma should_process_spec f flt om nm :
  should_process f flt om nm = true <-> (flt = [] \/ existsb (under f) flt = true) /\ path_get om f <> path_get nm f.
Proof.
  unfold should_process. destruct (bool_decide (flt = [])) eqn:E; cbn [negb andb].
  - apply bool_decide_eq_true in E. rewrite negb_true_iff, bool_decide_eq_false. naive_solver.
  - apply bool_decide_eq_false in E. destruct (existsb (under f) flt); cbn [negb]; [rewrite negb_true_iff, bool_decide_eq_false|]; naive_solver.
Qed.

(** the files a diff covers are exactly those whose last given identifiers differ between the
    two sides (a missing file included) and that lie under the filter, each once, where paths are
    compared by their components. *)
Theorem diff_files_exact (old new : list (bytes * ObjectHash.t)) (filter_ : list bytes) :
  let files := (prepare_diff_data old new filter_).1.1 in
  let id side f := snd <$> last (filter (fun p => components p.1 = components f) side) in
  NoDup (map components files)
  /\ (forall f, f ∈ files -> id old f <> id new f /\ (filter_ = [] \/ existsb (under f) filter_ = true))
  /\ (forall f, id old f <> id new f ->
        (forall f', components f' = components f -> filter_ = [] \/ existsb (under f') filter_ = true) ->
        exists f', f' ∈ files /\ components f' = components f).
Proof.
  cbv zeta. unfold prepare_diff_data. cbn [fst]. set (u := union_files (path_map old) (path_map new)).
  assert (Hc : map components (hash_set_order u) ≡ₚ elements (dom (path_map old ∪ path_map new))).
  { rewrite <- union_files_components. apply Permutation_map, hash_set_permutes. }
  split; [|split].
  - assert (Hnd : NoDup (map components (hash_set_order u))) by (rewrite Hc; apply NoDup_elements).
    clearbody u. clear Hc. induction (hash_set_order u) as [|x l IH]; [constructor|]. cbn [map] in Hnd. apply NoDup_cons in Hnd as [Hx Hnd]. rewrite filter_cons.
    destruct (decide _); [|by apply IH]. cbn [map]. apply NoDup_cons. split; [|by apply IH]. intros Hin. apply Hx.
    apply list_elem_of_fmap in Hin as (y & -> & Hy). apply list_elem_of_filter in Hy as [_ Hy]. apply list_elem_of_fmap. by exists y.
  - intros f Hf. apply list_elem_of_filter in Hf as [Hs _]. apply should_process_spec in Hs as [Hflt Hd]. by rewrite !path_map_get in Hd.
  - intros f Hd Hflt. rewrite <- !path_map_get in Hd.
    assert (Hin : components f ∈ map components (hash_set_order u)).
    { rewrite Hc, elem_of_elements, elem_of_dom. unfold path_get in Hd. destruct (path_map old !! components f) eqn:E1.
      - eexists. by apply lookup_union_Some_l.
      - destruct (path_map new !! components f) eqn:E2; [|done]. rewrite lookup_union_r by done. by eexists. }
    apply list_elem_of_fmap in Hin as (f' & E & Hin). exists f'. split; [|done]. apply list_elem_of_filter. split; [|done].
    apply should_process_spec. split; [by apply Hflt|]. unfold path_get in *. by rewrite <- E.
Qed.

End files.

(** * New and deleted files *)

#[local] Instance ChangeTag_eq_dec : EqDecision ChangeTag.
Proof. solve_decision. Defined.

(** The lines of a script that only inserts, or only deletes. *)
Fixpoint one_sided (tag : ChangeTag) (k : Z) (vs : list bytes) : list line :=
  match vs with
  | [] => []
  | v :: vs => number_change k k (tag, v) :: one_sided tag (k + 1) vs
  end.

Lemma fold_one_sided tag c vs h o n : tag <> Equal ->
  let d := fun t => if bool_decide (t = tag) then blen vs else 0 in
  foldl (diff_step c) (mkDiffState [] [] h [] true 0 0 o n) (map (pair tag) vs)
  = mkDiffState [] [] (h ++ one_sided tag (match tag with Delete => o | _ => n end) vs) [] true 0 0 (o + d Delete) (n + d Insert).
Proof.
  intros Ht. cbv zeta. revert h o n. induction vs as [|v vs IH]; intros h o n.
  - cbn [map foldl one_sided]. rewrite app_nil_r. change (blen (@nil bytes)) with 0. destruct (bool_decide (Delete = tag)), (bool_decide (Insert = tag)); by rewrite !Z.add_0_r.
  - cbn [map foldl]. rewrite blen_cons. destruct tag; [done|..]; cbn [diff_step fst snd in_hunk]; unfold push_edit; cbn [in_hunk cur_hunk prefix_ctx eq_run ds_out last_old_seen last_new_seen old_line_no new_line_no];
      rewrite app_nil_r, IH, <- app_assoc; cbn [one_sided app number_change fst snd]; rewrite ?bool_decide_true, ?bool_decide_false by done; rewrite ?Z.add_0_r, <- ?Z.add_assoc; done.
Qed.

Lemma one_sided_values tag changes : tag <> Equal ->
  (match tag with Insert => old_values changes | _ => new_values changes end) = [] ->
  changes = map (pair tag) (match tag with Insert => new_values changes | _ => old_values changes end).
Proof.
  intros Ht. induction changes as [|[t v] changes IH]; intros E; [by destruct tag|].
  destruct tag, t; try done; cbn in *; f_equal; by apply IH.
Qed.

Lemma one_sided_sides tag k vs : tag <> Equal ->
  old_of (one_sided tag k vs) = (match tag with Delete => map trim_line_end vs | _ => [] end)
  /\ new_of (one_sided tag k vs) = (match tag with Insert => map trim_line_end vs | _ => [] end).
Proof.
  intros Ht. revert k. induction vs as [|v vs IH]; intros k; [by destruct tag|]. destruct (IH (k + 1)) as [E1 E2].
  destruct tag; [done|..]; cbn [one_sided number_change fst snd]; cbn; split; try (f_equal; done); done.
Qed.

Lemma one_sided_numbered tag k vs o n : tag <> Equal -> (match tag with Delete => o | _ => n end) = k -> numbered o n (one_sided tag k vs).
Proof. intros Ht. revert k o n. induction vs as [|v vs IH]; intros k o n E; [done|]. destruct tag; [done|..]; cbn; subst; split; try done; by apply IH. Qed.

Section refused.
Context `{TextDiffLaws}.

Lemma one_sided_diff tag c changes : tag <> Equal ->
  let vs := match tag with Insert => new_values changes | _ => old_values changes end in
  changes = map (pair tag) vs -> vs <> [] ->
  let s := foldl (diff_step c) diff_start changes in
  exists body, ds_out (if in_hunk s then flush_hunk_to_out c s else s)
    = unlines (hunk_header 1 (match tag with Delete => blen vs | _ => 0 end) 1 (match tag with Insert => blen vs | _ => 0 end) :: body)
    /\ body = map line_text (one_sided tag 1 vs).
Proof.
  intros Ht vs Ec Hv s. destruct vs as [|v vs'] eqn:Ev; [done|].
  assert (Es : s = mkDiffState [] [] (one_sided tag 1 (v :: vs')) [] true 0 0 (1 + (if bool_decide (Delete = tag) then blen (v :: vs') else 0))
             (1 + (if bool_decide (Insert = tag) then blen (v :: vs') else 0))).
  { unfold s. rewrite Ec. cbn [map foldl]. destruct tag; [done|..]; cbn [diff_step fst snd]; unfold push_edit; cbn [diff_start in_hunk cur_hunk prefix_ctx eq_run ds_out last_old_seen last_new_seen old_line_no new_line_no app];
      rewrite fold_one_sided by done; cbn [one_sided app number_change fst snd]; rewrite blen_cons;
      try change (bool_decide (Insert = Insert)) with true; try change (bool_decide (Delete = Insert)) with false;
      try change (bool_decide (Insert = Delete)) with false; try change (bool_decide (Delete = Delete)) with true;
      rewrite ?Z.add_0_r, ?Z.add_assoc; done. }
  rewrite Es. cbn [in_hunk]. exists (map line_text (one_sided tag 1 (v :: vs'))). split; [|done].
  unfold flush_hunk_to_out. cbn [cur_hunk eq_run length]. rewrite Nat.min_0_l, take_0, app_nil_r. set (h := one_sided tag 1 (v :: vs')).
  unfold scan_hunk. rewrite (scan_numbered h 1 1) by (apply one_sided_numbered; [done|by destruct tag]).
  destruct (one_sided_sides tag 1 (v :: vs') Ht) as [Eo En]. fold h in Eo, En.
  assert (Hb : blen (map trim_line_end (v :: vs')) = blen (v :: vs')) by (unfold blen; by rewrite length_map).
  unfold range_of. rewrite Eo, En. pose proof (blen_nonneg vs').
  destruct tag; [done|..]; rewrite ?Hb, blen_cons; cbn [map]; replace (0 + (1 + blen vs') =? 0) with false by lia;
    cbn [andb]; rewrite ?andb_false_r; cbn [default ds_out last_old_seen last_new_seen];
    match goal with |- context [write_hunk ?o ?a ?b h] => pose proof (write_hunk_text o a b h) as Hw; destruct (write_hunk o a b h) as [out [x y]] end;
    cbn [fst] in Hw; cbn [ds_out]; rewrite Hw, unlines_cons; rewrite ?Z.add_0_l; done.
Qed.
Lemma first_header_line header body : no_newline header -> plain_text header -> exists rest, str_lines (unlines (header :: body)) = header :: rest.
Proof.
  intros Hn Hp. rewrite unlines_cons, <- app_assoc. unfold str_lines. cbn [app]. rewrite lines_loop_line by done. cbn [app]. rewrite chomp_plain by done. eauto.
Qed.

Lemma header_clean o oc n nc (P : Z -> Prop) : 0 <= o -> 0 <= oc -> 0 <= n -> 0 <= nc -> Forall P [32; 43; 44; 45; 64] ->
  (forall b, is_digit b = true -> P b) -> Forall P (hunk_header o oc n nc).
Proof.
  intros Ho Hoc Hn Hnc Hc Hd. assert (Hdec : forall k, 0 <= k -> Forall P (show_dec k)).
  { intros k Hk. eapply Forall_impl; [by apply show_dec_digits|]. exact Hd. }
  repeat (apply Forall_cons_1 in Hc as [? Hc]). unfold hunk_header.
  repeat (apply Forall_app; split); try (by apply Hdec); cbn; repeat apply Forall_cons_2; done || apply Forall_nil_2.
Qed.

Lemma cut_values_length s ts : cut_lines s ts -> blen ts <= blen s.
Proof.
  induction 1 as [|l Hne _|l s ts _ _ IH]; [done|destruct l; [done|]; rewrite !blen_cons, blen_nil; pose proof (blen_nonneg l); lia|].
  rewrite blen_app, !blen_cons. pose proof (blen_nonneg l). lia.
Qed.

(** the diff of a new or a deleted file is no patch: its hunk names line 1 of the side that has
    no lines, where the position before line 1 is 0, so the applier that accepts all other diffs
    refuses it. *)
Theorem one_sided_diff_refused (text : bytes) :
  plain_text text -> text <> [] -> blen text < usize_max ->
  (exists line, apply_unified_diff [] (compute_unified_diff [] text 3) = Err (OldOutOfOrder line))
  /\ (exists line, apply_unified_diff text (compute_unified_diff text [] 3) = Err (NewOutOfOrder line 0)).
Proof.
  intros Hp Hne Hl. assert (Hpn : plain_text []) by apply Forall_nil_2.
  assert (Hdig : forall x, x = 10 \/ x = 13 -> Forall (fun b => b <> x) [32; 43; 44; 45; 64] /\ forall b, is_digit b = true -> b <> x).
  { intros x Hx. split; [repeat apply Forall_cons_2; lia || apply Forall_nil_2|unfold is_digit; lia]. }
  destruct (Hdig 10) as [Ha10 Hb10]; [by left|]. destruct (Hdig 13) as [Ha13 Hb13]; [by right|].
  assert (Hcut : forall ts, cut_lines [] ts -> ts = []) by (inversion 1 as [|l Hx|l s ts' ? ? E]; [done|done|by destruct l]).
  split.
  - pose proof (lines_new [] text Hpn Hp) as Hcn. pose proof (lines_old [] text Hpn Hp) as Hco. apply Hcut in Hco.
    pose proof (cut_values_length _ _ Hcn) as Hlen. pose proof (blen_nonneg (new_values (diff_lines [] text))).
    destruct (one_sided_diff Insert 3 (diff_lines [] text)) as (body & Eout & _); [done|by apply (one_sided_values Insert)|by eapply cut_nonempty|].
    unfold compute_unified_diff. rewrite Eout. set (hd := hunk_header _ _ _ _).
    destruct (first_header_line hd body) as [rest Er]; [apply header_clean; done || lia|apply header_clean; done || lia|].
    unfold apply_unified_diff. rewrite Er. cbn [length apply_loop]. unfold hd. rewrite (proj2 (header_starts _ _ _ _)). fold hd. unfold apply_hunk. unfold hd at 2.
    rewrite parse_header_shown by (unfold usize_max in *; lia). cbn. eauto.
  - pose proof (lines_new text [] Hp Hpn) as Hcn. pose proof (lines_old text [] Hp Hpn) as Hco. apply Hcut in Hcn.
    pose proof (cut_values_length _ _ Hco) as Hlen. pose proof (blen_nonneg (old_values (diff_lines text []))).
    assert (Hv : old_values (diff_lines text []) <> []) by (by eapply cut_nonempty).
    destruct (one_sided_diff Delete 3 (diff_lines text [])) as (body & Eout & _); [done|by apply (one_sided_values Delete)|done|].
    unfold compute_unified_diff. rewrite Eout. set (hd := hunk_header _ _ _ _).
    destruct (first_header_line hd body) as [rest Er]; [apply header_clean; done || lia|apply header_clean; done || lia|].
    unfold apply_unified_diff. rewrite Er. cbn [length apply_loop]. unfold hd. rewrite (proj2 (header_starts _ _ _ _)). fold hd. unfold apply_hunk. unfold hd at 2.
    rewrite parse_header_shown by (unfold usize_max in *; lia). cbn [rbind].
    replace (blen (old_values (diff_lines text [])) =? 0) with false by (destruct (old_values (diff_lines text [])) as [|v vs]; [done|]; rewrite blen_cons; pose proof (blen_nonneg vs); lia).
    cbn. eauto.
Qed.
End refused.

(** * A reference diff, and concrete runs *)

Fixpoint text_tokens (cur s : bytes) : list bytes :=
  match s with
  | [] => match cur with [] => [] | _ => [cur] end
  | b :: s => if b =? 10 then (cur ++ [10]) :: text_tokens [] s else text_tokens (cur ++ [b]) s
  end.

(** Keep the common prefix, delete the rest, insert the rest. *)
Fixpoint prefix_script (a b : list bytes) : list Change :=
  match a, b with
  | x :: a', y :: b' => if bool_decide (x = y) then (Equal, x) :: prefix_script a' b' else map (pair Delete) a ++ map (pair Insert) b
  | _, _ => map (pair Delete) a ++ map (pair Insert) b
  end.

Definition prefix_diff : TextDiff := {|
  diff_slices := prefix_script;
  diff_lines := fun s t => prefix_script (text_tokens [] s) (text_tokens [] t)
|}.

Lemma text_tokens_cut cur s : Forall (fun b => b <> 10) cur -> cut_lines (cur ++ s) (text_tokens cur s).
Proof.
  revert cur. induction s as [|b s IH]; intros cur Hc; cbn [text_tokens].
  - rewrite app_nil_r. destruct cur; [constructor|]. by apply cut_last.
  - destruct (b =? 10) eqn:E.
    + apply Z.eqb_eq in E as ->. apply cut_line; [done|]. apply (IH []). apply Forall_nil_2.
    + replace (cur ++ b :: s) with ((cur ++ [b]) ++ s) by (by rewrite <- app_assoc). apply IH. apply Forall_app. split; [done|]. apply Forall_cons_2; [lia|apply Forall_nil_2].
Qed.

Lemma whole_script_values a b :
  old_values (map (pair Delete) a ++ map (pair Insert) b) = a /\ new_values (map (pair Delete) a ++ map (pair Insert) b) = b.
Proof.
  unfold old_values, new_values. rewrite !omap_app. induction a as [|x a [IH1 IH2]]; cbn; [split; induction b; cbn; [done|done|done|by f_equal]|].
  split; [by rewrite IH1|exact IH2].
Qed.

Lemma prefix_script_values a b : old_values (prefix_script a b) = a /\ new_values (prefix_script a b) = b.
Proof.
  revert b. induction a as [|x a IH]; intros [|y b]; cbn [prefix_script]; try apply whole_script_values.
  destruct (bool_decide (x = y)) eqn:E; [|apply whole_script_values]. apply bool_decide_eq_true in E as ->. destruct (IH b) as [E1 E2].
  cbn. unfold old_values, new_values in *. by rewrite E1, E2.
Qed.

Lemma prefix_diff_laws : @TextDiffLaws prefix_diff.
Proof.
  split; intros; try apply prefix_script_values.
  - cbn. rewrite (proj1 (prefix_script_values _ _)). apply (text_tokens_cut []), Forall_nil_2.
  - cbn. rewrite (proj2 (prefix_script_values _ _)). apply (text_tokens_cut []), Forall_nil_2.
Qed.

Section runs.
#[local] Existing Instance prefix_diff.
#[local] Existing Instance prefix_diff_laws.
#[local] Existing Instance plain_texts.
#[local] Existing Instance hex_reference.
#[local] Existing Instance hex_reference_laws.

Definition sample_old : bytes := unlines (map str ["one"; "two"; "three"; "four"; "five"]%string).
Definition sample_new : bytes := unlines (map str ["one"; "two"; "three"; "four"; "cinq"; "six"]%string).


Lemma one_sided_diff_refused_witness :
  (exists line, apply_unified_diff [] (compute_unified_diff [] [97; 10] 3) = Err (OldOutOfOrder line))
  /\ (exists line, apply_unified_diff [97; 10] (compute_unified_diff [97; 10] [] 3) = Err (NewOutOfOrder line 0)).
Proof. apply (one_sided_diff_refused [97; 10]); [repeat constructor; discriminate|discriminate|reflexivity]. Defined.

(** What the diff of the sample looks like. *)
Example sample_hunk : compute_unified_diff sample_old sample_new 3
  = unlines (map str ["@@ -2,4 +2,5 @@"; " two"; " three"; " four"; "-five"; "+cinq"; "+six"]%string).
Proof. vm_compute. reflexivity. Qed.

Example new_file_hunk : compute_unified_diff [] [97; 10] 3 = unlines (map str ["@@ -1,0 +1,1 @@"; "+a"]%string).
Proof. vm_compute. reflexivity. Qed.

Lemma compute_diff_replays_witness :
  replay [str "a"; str "b"] 1 1 (compute_diff [str "a"; str "b"] [str "a"; str "c"; str "d"]) = Some [str "a"; str "c"; str "d"].
Proof. apply (@compute_diff_replays prefix_diff prefix_diff_laws [str "a"; str "b"] [str "a"; str "c"; str "d"]). Defined.

(** A current directory of [/w] and a set iterated as it was built. *)
Definition plain_paths : PathEnv := {| absolutize := fun p => Ok (path_join (str "/w") p); hash_set_order := fun l => l |}.
Lemma plain_paths_laws : @PathEnvLaws plain_paths.
Proof. intros l. done. Qed.

Lemma diff_files_exact_witness :
  let old := [(str "a", ObjectHash.Sha1 (repeat 1 20)); (str "src//b", ObjectHash.Sha1 (repeat 2 20))] in
  let new := [(str "src/b", ObjectHash.Sha1 (repeat 3 20)); (str "c", ObjectHash.Sha1 (repeat 1 20))] in
  let files := (@prepare_diff_data plain_paths old new [str "src"]).1.1 in
  let id side f := snd <$> last (filter (fun p : bytes * ObjectHash.t => components p.1 = components f) side) in
  NoDup (map components files)
  /\ (forall f, f ∈ files -> id old f <> id new f /\ ([str "src"] = [] \/ existsb (@under plain_paths f) [str "src"] = true))
  /\ (forall f, id old f <> id new f ->
        (forall f', components f' = components f -> [str "src"] = [] \/ existsb (@under plain_paths f') [str "src"] = true) ->
        exists f', f' ∈ files /\ components f' = components f).
Proof.
  apply (@diff_files_exact plain_paths plain_paths_laws
    [(str "a", ObjectHash.Sha1 (repeat 1 20)); (str "src//b", ObjectHash.Sha1 (repeat 2 20))]
    [(str "src/b", ObjectHash.Sha1 (repeat 3 20)); (str "c", ObjectHash.Sha1 (repeat 1 20))] [str "src"]).
Defined.

Example sample_files : (@prepare_diff_data plain_paths
    [(str "a", ObjectHash.Sha1 (repeat 1 20)); (str "src//b", ObjectHash.Sha1 (repeat 2 20))]
    [(str "src/b", ObjectHash.Sha1 (repeat 3 20)); (str "c", ObjectHash.Sha1 (repeat 1 20))] [str "src"]).1.1 = [str "src//b"].
Proof. vm_compute. reflexivity. Qed.

End runs.
